(* ===== verification/_CoqProject ===== *)
-Q . S2P
Prelude.v
Effects.v
GoNet.v
SeqQueue.v
Session.v
Connectivity.v
Streams.v
K8s.v
Api.v
TimeoutQueue.v
Reconcile.v
Ipam.v
Caches.v
PodTranslate.v
PodResolve.v
Admission.v
DevicePod.v
PodVolumes.v
Cluster.v
NodeObject.v
NodeStatus.v
NodeLease.v
VirtualNode.v
Peripheral.v
Rbac.v
EdgeDevice.v
PodControllers.v
CloudProvider.v
NodeCert.v
Services.v
PortForward.v
PodHttp.v
Terminal.v
Metrics.v
Base64.v
Mesh.v
MqClients.v
StorageManager.v
CsiBase.v
CsiClient.v
CsiPlugin.v
CsiMounter.v
CsiBlock.v
Leader.v
Wiring.v
Node.v
Shutdown.v
Process.v
