(* ===== verification/Prelude.v ===== *)
(** * aranya: a verification development

    ** The program

    aranya (src/) makes the nodes of a Kubernetes cluster out of devices that run no kubelet. Its controllers (src/pkg/controller) watch
    the custom resource EdgeDevice; for each device they keep a node object, a lease, certificates, roles, services and a virtual node
    (src/pkg/virtualnode), which answers for the kubelet of the device: it admits pods, has the device create them, reports their status
    and its own, and serves logs, executions, port forwards and metrics. The device is reached through a connectivity manager, over gRPC
    or a message queue, in a protocol of commands and messages cut into numbered chunks; the answer to a command is a session.

    ** How it is modelled

    A file models one component, or a few small ones, and says at its top which files of src/ it is of; a definition has the name of the
    function it translates. A mutex makes the operations it guards single steps. State is passed explicitly; Go's panics and the waits
    that never end are values ([outcome] below), errors are values of [result], or an [option string] beside a value that counts as well.
    Integers are [Z], with their wrap-around written out where it can happen ([int64], wrap64, wrap32). Maps are [gmap], and what Go does
    with one in an order of its own is a list in an order that is an argument. What a component asks of the outside, and the documented
    behaviour of the outside it relies on, are a class and its laws: the cluster (Cluster.v), certificates (NodeCert.v), services
    (Services.v), a broker (MqClients.v), volumes (StorageManager.v), the files of the host and the plugin's API server (CsiBase.v), the
    driver of a volume (CsiClient.v), the pods of aranya (Leader.v); each has an instance in the examples. Encodings of protobuf,
    cryptography and transports are arguments, those of the first with the laws that decoding undoes encoding where a theorem needs it. A
    theorem is a property of one component, or of several together, and is followed at the end of its file by a witness: the theorem at a
    concrete input, evaluated.

    ** The library

    - Prelude.v, Effects.v, GoNet.v, Base64.v: outcomes and errors, computations over a world, lemmas on lists and strings; the parts of
      Go's net, strings, strconv and encoding/base64 the program uses, with round trips of printing and parsing.
    - K8s.v, Api.v: the objects of Kubernetes and of aranya as records. A record has the fields the modelled code reads or writes; of an
      EdgeDevice the specification is flattened to them. Cluster.v: the interface of the controllers to the API server.
    - The protocol. SeqQueue.v (arhat.dev/pkg/queue/seq_queue.go, vendored): chunks in any order are delivered in order and once.
      Session.v (connectivity/session_manager.go): sessions and their table. Connectivity.v (manager.go, mgr_grpc.go, mgr_mq.go): commands
      are cut into chunks that fit the transport and that a device puts together again; the signals of connection. Streams.v: the parts
      together, from a stream command to the end of its answer, whatever happens in between. MqClients.v (mq_*.go): the clients of the
      brokers, and what their callbacks can do to each other.
    - The machinery of controllers. TimeoutQueue.v, Reconcile.v (arhat.dev/pkg, vendored): the queue of periodic work, the job queue,
      which refines a specification by the jobs that are left, and the reconcilers, whose handlers never run twice at a time on an object.
    - The virtual node. Node.v (node.go): the kubelet server and the routine that serves the device, composed with the signals and the
      periodic work; Shutdown.v: all routines of a node, which end together. VirtualNode.v (manager.go, remote_actions.go,
      network/manager.go), Caches.v (util/cache, node_cache.go), Admission.v, PodResolve.v, PodTranslate.v, DevicePod.v
      (virtualnode/pod): which pods are taken, what they refer to, what the device is sent, in which order, and what becomes of their
      status. PodVolumes.v (zz_dummy_kube_impl.go): whose volumes the volume manager mounts. PodHttp.v, Terminal.v, PortForward.v
      (virtualnode/pod), Metrics.v (virtualnode/metrics): the requests of the kubelet API. Peripheral.v (virtualnode/peripheral),
      StorageManager.v (virtualnode/storage).
    - The CSI plugin of the virtual node (virtualnode/storage/csi). CsiBase.v (csi_util.go): errors, objects, paths and files, over the
      computations of Effects.v, which may change the world and then fail or panic. CsiClient.v (csi_client.go, csi_drivers_store.go,
      util/version, nodeinfomanager, expander.go): calls to a driver, versions, the registration of drivers and the CSINode object.
      CsiPlugin.v (csi_plugin.go, csi_attacher.go): drivers come and go, volumes are attached, staged and detached. CsiMounter.v
      (csi_mounter.go), CsiBlock.v (csi_block.go): volumes of files and of blocks in the directories of pods.
    - The controllers (controller/edgedevice). EdgeDevice.v: the life of a virtual node, its configuration, the mesh secrets, the timed
      sessions. NodeObject.v, NodeStatus.v, NodeLease.v, NodeCert.v, Rbac.v, Services.v, PodControllers.v, CloudProvider.v: the objects
      kept for it. Ipam.v (util/ipam), Mesh.v (mesh, mesh.go): addresses and the WireGuard network. Leader.v (controller/aranya). Wiring.v
      (controller.go, the init functions of all controllers, client-go/informers/factory.go): which objects are watched, by which
      reconciler, what Start starts and waits for, and what a controller asks another to do.
    - The process. Process.v (cmd/aranya.go, conf/util.go, constant/env.go, util/manager/base_manager.go, arhat.dev/pkg/envhelper): the
      environment, the configuration file with its variables, the servers of metrics and profiles, and run up to the election.

    The parts meet as in the code: SeqQueue in Session, Session in Connectivity, the three in Streams; PortForward uses Connectivity's
    doPostData, and Node its signals with VirtualNode's queues, which are those of TimeoutQueue; PodTranslate and PodResolve in DevicePod;
    Caches in PodHttp, NodeStatus and NodeObject; PodHttp and PortForward in Terminal, PodHttp in Node; Cluster under the controllers of
    nodes; Ipam and GoNet under Mesh; in Wiring the address blocks of Ipam, the options of NodeCert, the objects NodeObject, NodeLease and
    Rbac write, and the reconciler core of Reconcile; StorageManager's paths under the CSI plugin, whose client is that of its attacher
    and mounters.

    ** What the theorems show

    - Data: nothing is allocated twice (Ipam); what is posted arrives in one piece, in any order of arrival, and fits the transport
      (Connectivity, PortForward, Terminal); streams are written in order (Session) and reach their callers whatever else goes on
      (Streams); text is parsed to what was printed (GoNet, Base64, the frames of PortForward, the connection strings of MqClients);
      the sources of a variable have their precedence, and references are expanded (PodResolve).
    - Invariants over all runs: sessions, signals, caches, queues, jobs, instances (at most one virtual node of a device), pairs of
      streams, handlers, and the periodic work of a node (one of lease and status, not both).
    - Order and isolation: nothing is started before what it needs (DevicePod); a request reaches only the pod its path names, or the host
      under the name of the node, unless it collects metrics (Node); the role for tenant pods grants what devices and role say (Rbac);
      one pod has the leadership (Leader).
    - Wiring: a reconciler sees what it was made for, but for three, and what the controllers write they watch; Start ends (Wiring). The
      command line wins over the file and the file over the defaults; run elects last (Process).
    - Ends: a failed job is retried (Reconcile), the status of a node tells what it is to tell and settles (NodeStatus), waits end in time and say why (StorageManager), no
      signal is lost and a device that has gone is left in peace (Node); the routines of a virtual node go on together and end together
      (Shutdown); an attachment is awaited until it is there or failed (CsiPlugin).
    - Volumes: the driver in use is the one of the highest version (CsiClient); what was attached is detached and what was staged is
      unstaged (CsiPlugin); block devices are staged and published as they were asked for, and are known again after a restart (CsiBlock);
      of volumes of files the same in lemmas (CsiMounter), as on aranya's host they have no mounter; the volumes of a pod stay until its
      device has deleted it (PodVolumes).
    - Behaviour on errors: what is left open, closed or deleted on each return (EdgeDevice, NodeCert, DevicePod, MqClients, CsiBlock).
    Where the code does not do what it means to, an example or a lemma shows it, and its comment says so.

    ** Bounds and fuel

    A loop that is not structural has a number of rounds. It is proved enough where it bounds nothing real: the drain of SeqQueue (the
    chunks held), the search of Ipam (the addresses allocated), expansion (the length of the text), the chunks of a command and the frames
    of a client (the bytes left), write_all and decode_loop of Session and Caches (the bytes left, when writers take some). Rounds that
    are the code's own: five attempts at the status of a pod (DevicePod) and at a lease (NodeLease), three patches of pod CIDRs
    (NodeObject), ten bytes of a varint and five lines of preamble (PortForward), 402 looks at the volumes (StorageManager), five
    attempts at the information of a node and six at the CSINode object (CsiClient). A watch is the list of its events up to the timer
    (CsiPlugin). A loop that the code repeats until something else ends it takes the number of its rounds, or the list of its events, as
    an argument.

    ** Not modelled

    The declarations of the API and the code generated from them; the declarations of flags, the YAML library, loggers, exporters and TLS
    listeners; the handlers of the storage service and of the mesh controller, which do nothing; the SFTP and abbot managers, which
    nothing uses; the upgrades of connections to SPDY and WebSocket, which are libraries'. Concurrency is modelled where a component's
    correctness is about it (Reconcile, Admission, PortForward, Streams, Terminal, MqClients, Node, Shutdown); elsewhere a mutex or a single
    goroutine makes operations atomic, and a data race the code may have outside is not seen. *)
From Stdlib Require Export ZArith Lia.
From stdpp Require Export base tactics list strings gmap sorting pretty.

#[export] Set Warnings "-clear-no-such-hyp".

(** ** Outcomes of Go code

    [outcome A] is what running a Go statement does: it may return a value, panic
    (nil dereference, index out of range, a panicking library call) or never
    return (a loop or a channel operation that blocks for ever). *)
Inductive outcome (A : Type) : Type :=
  | Ret (a : A)
  | Panic (why : string)
  | Diverge.
Arguments Ret {A} a.
Arguments Panic {A} why.
Arguments Diverge {A}.

(** [result A] is Go's pair (value, error) where exactly one is meaningful. *)
Inductive result (A : Type) : Type :=
  | Ok (a : A)
  | Err (e : string).
Arguments Ok {A} a.
Arguments Err {A} e.

#[export] Instance outcome_ret : MRet outcome := λ A a, Ret a.
#[export] Instance outcome_bind : MBind outcome := λ A B f m,
  match m with Ret a => f a | Panic w => Panic w | Diverge => Diverge end.
#[export] Instance result_ret : MRet result := λ A a, Ok a.
#[export] Instance result_bind : MBind result := λ A B f m,
  match m with Ok a => f a | Err e => Err e end.

Definition is_Ok {A} (r : result A) : bool := if r is Ok _ then true else false.
Definition is_Ret {A} (r : outcome A) : bool := if r is Ret _ then true else false.

(** fmt.Errorf(prefix + "%w", err) *)
Definition wrap_err {A} (prefix : string) (r : result A) : result A :=
  match r with Ok a => Ok a | Err e => Err (prefix +:+ e) end.

(** fmt's %q (no escapes: the texts quoted are names, addresses and messages) *)
Definition quote (s : string) : string :=
  let dq := String (Ascii.ascii_of_nat 34) EmptyString in dq +:+ s +:+ dq.

(** int64: the result of an operation on 64-bit integers *)
Definition int64 (x : Z) : Z := ((x + 2 ^ 63) mod 2 ^ 64 - 2 ^ 63)%Z.
Lemma int64_small x : (- 2 ^ 63 <= x < 2 ^ 63)%Z → int64 x = x.
Proof. intros ?. unfold int64. rewrite Z.mod_small by lia. lia. Qed.

(** ** Tactics shared by the components *)

(** Split every [match] and [if] of the goal or of a hypothesis. *)
Ltac split_matches :=
  repeat (case_match; simplify_eq/=; try done).

(** Turn boolean tests on integers into arithmetic hypotheses. *)
Ltac bool_to_Z :=
  repeat match goal with
  | H : (_ <? _)%Z = true |- _ => apply Z.ltb_lt in H
  | H : (_ <? _)%Z = false |- _ => apply Z.ltb_ge in H
  | H : (_ <=? _)%Z = true |- _ => apply Z.leb_le in H
  | H : (_ <=? _)%Z = false |- _ => apply Z.leb_gt in H
  | H : (_ =? _)%Z = true |- _ => apply Z.eqb_eq in H
  | H : (_ =? _)%Z = false |- _ => apply Z.eqb_neq in H
  | H : (_ && _) = true |- _ => apply andb_true_iff in H as [? ?]
  | H : (_ || _) = false |- _ => apply orb_false_iff in H as [? ?]
  | H : negb _ = true |- _ => apply negb_true_iff in H
  | H : negb _ = false |- _ => apply negb_false_iff in H
  end.

(** ** Generic lemmas *)

(** Pigeonhole for a finite set: a duplicate-free list of members is no longer than the set. *)
Lemma NoDup_subset_size `{Countable A} (l : list A) (X : gset A) :
  NoDup l → (∀ x, x ∈ l → x ∈ X) → length l ≤ size X.
Proof.
  intros Hnd Hsub. rewrite <- (size_list_to_set (C := gset A) l) by done.
  apply subseteq_size. intros x Hx. apply Hsub. by apply elem_of_list_to_set in Hx.
Qed.

(** A symmetric relation between the members of a list does not depend on their order. *)
Lemma StronglySorted_sym_perm {A} (R : A → A → Prop) (l1 l2 : list A) :
  (∀ x y, R x y → R y x) → l1 ≡ₚ l2 → StronglySorted R l1 → StronglySorted R l2.
Proof.
  intros Hsym Hp. induction Hp as [|x l1 l2 Hp IH|x y l|l1 l2 l3 _ IH1 _ IH2]; intros H; [done| | |by eauto].
  - apply StronglySorted_inv in H as [H1 H2]. constructor; [by apply IH|by rewrite <-Hp].
  - apply StronglySorted_inv in H as [H Hy]. apply StronglySorted_inv in H as [H Hx].
    inversion Hy as [|? ? Hyx Hy']; subst. constructor; [by constructor|constructor; auto].
Qed.

Lemma StronglySorted_impl2 {A} (R S T : A → A → Prop) (P : A → Prop) (l : list A) :
  (∀ x y, P x → P y → R x y → S x y → T x y) →
  Forall P l → StronglySorted R l → StronglySorted S l → StronglySorted T l.
Proof.
  intros Himp HP HR HS. induction l as [|x l IH]; [constructor|].
  inversion HP; subst. apply StronglySorted_inv in HR as [HR HRx], HS as [HS HSx].
  constructor; [by apply IH|]. rewrite Forall_forall in *. eauto.
Qed.

Lemma StronglySorted_filter {A} (R : A → A → Prop) (P : A → Prop) `{∀ x, Decision (P x)} l :
  StronglySorted R l → StronglySorted R (filter P l).
Proof.
  induction 1 as [|x l _ IH Hx]; [constructor|]. rewrite filter_cons. case_decide; [|done].
  constructor; [done|]. rewrite Forall_forall in *. intros y [_ Hy]%list_elem_of_filter. by apply Hx.
Qed.
Lemma StronglySorted_snoc_sym {A} (R : A → A → Prop) (l : list A) x :
  Forall (λ y, R y x) l → StronglySorted R l → StronglySorted R (l ++ [x]).
Proof.
  intros Hx Hl. induction Hl as [|y l Hl IH Hy]; cbn; [repeat constructor|].
  inversion Hx; subst. constructor; [by apply IH|]. apply Forall_app; auto.
Qed.

(** A filter that keeps nothing, and one that keeps all. *)
Lemma length_filter_0 {A} (P : A → Prop) `{∀ x, Decision (P x)} (l : list A) :
  length (filter P l) = 0%nat ↔ ∀ x, x ∈ l → ¬ P x.
Proof.
  rewrite length_zero_iff_nil. split.
  - intros Hf x Hin HP. assert (x ∈ filter P l) as Hx by (apply list_elem_of_filter; auto).
    rewrite Hf in Hx. by apply elem_of_nil in Hx.
  - intros Hn. destruct (filter P l) as [|x k] eqn:Hf; [done|].
    assert (x ∈ filter P l) as [HP Hin]%list_elem_of_filter by (rewrite Hf; left). by destruct (Hn x).
Qed.
Lemma length_filter_full {A} (P : A → Prop) `{∀ x, Decision (P x)} (l : list A) :
  length (filter P l) = length l ↔ ∀ x, x ∈ l → P x.
Proof.
  split.
  - induction l as [|y l IH]; [by intros _ ? ?%elem_of_nil|]. rewrite filter_cons.
    case_decide as HP; cbn; [|pose proof (length_filter P l); lia].
    intros [= Hl] x [->|Hin]%elem_of_cons; [done|by apply IH].
  - intros Ha. induction l as [|y l IH]; [done|]. rewrite filter_cons, decide_True by (apply Ha; left).
    cbn. f_equal. apply IH. intros x Hx. apply Ha. by right.
Qed.

(** Appending strings, whose reduction stdpp blocks. *)
Lemma str_app_nil s : "" +:+ s = s.
Proof. done. Qed.
Lemma str_app_cons a s t : String a s +:+ t = String a (s +:+ t).
Proof. done. Qed.
Lemma str_app_nil_r s : s +:+ "" = s.
Proof. induction s as [|a s IH]; [done|]. by rewrite str_app_cons, IH. Qed.
Lemma str_app_assoc r s t : r +:+ (s +:+ t) = (r +:+ s) +:+ t.
Proof. induction r as [|a r IH]; [done|]. by rewrite !str_app_cons, IH. Qed.
Lemma str_length_app s t : String.length (s +:+ t) = (String.length s + String.length t)%nat.
Proof. induction s as [|a s IH]; [done|]. rewrite str_app_cons. cbn. by rewrite IH. Qed.

(** Looking up in a filtered map, as a test. *)
Lemma lookup_filter_if {K A} `{Countable K} (P : K * A → Prop) `{∀ x, Decision (P x)} (m : gmap K A) i :
  filter P m !! i = match m !! i with Some x => if decide (P (i, x)) then Some x else None | None => None end.
Proof.
  destruct (m !! i) as [x|] eqn:Hi.
  - case_decide; [by apply map_lookup_filter_Some_2|]. apply map_lookup_filter_None_2. right. naive_solver.
  - apply map_lookup_filter_None_2. by left.
Qed.
