(* ===== verification/Effects.v ===== *)
(** * Effects

    The computations of the components whose state is a world of several parts (CsiBase.v and the files after it, Wiring.v): a world goes in,
    and a world and a value or an error come out, or the code panics or waits for ever. What holds of the world when a computation fails
    half-way is stated with [moves]. *)
From S2P Require Import Prelude.

(** ** Errors

    What the code asks of an error is its type and its text: of the API server's, IsNotFound and IsAlreadyExists; of os's, IsNotExist; of
    Kubernetes' volume operations, whether the operation may still go on. What errors.New and fmt.Errorf make is [Plain]. *)
Inductive ErrKind := Plain | NotFound | AlreadyExists | NotExist | UncertainProgress | TransientFailure.
#[export] Instance ErrKind_eq : EqDecision ErrKind.
Proof. solve_decision. Defined.
Record Error := { e_Kind : ErrKind; e_Text : string }.
Definition New (text : string) : Error := {| e_Kind := Plain; e_Text := text |}.
Definition is_kind (k : ErrKind) (e : Error) : bool := bool_decide (e_Kind e = k).

(** ** Computations: a world in, a world and a value or an error out

    The bind is [if err != nil { return err }]. *)
Definition M (W A : Type) : Type := W → outcome (W * (A + Error)).
#[export] Instance M_ret {W} : MRet (M W) := λ A a w, Ret (w, inl a).
#[export] Instance M_bind {W} : MBind (M W) := λ A B f m w,
  match m w with
  | Ret (w, inl a) => f a w
  | Ret (w, inr e) => Ret (w, inr e)
  | Panic why => Panic why
  | Diverge => Diverge
  end.
Section Computations.
Context {W : Type}.
Definition fail {A} (e : Error) : M W A := λ w, Ret (w, inr e).
Definition crash {A} (why : string) : M W A := λ _, Panic why.
Definition query {A} (f : W → W * (A + Error)) : M W A := λ w, Ret (f w).
Definition act (f : W → W * option Error) : M W unit := λ w, let '(w, e) := f w in Ret (w, match e with None => inl tt | Some e => inr e end).
Definition read {A} (f : W → A) : M W A := λ w, Ret (w, inl (f w)).
Definition check {A} (r : A + Error) : M W A := λ w, Ret (w, r).
(** The error is looked at and not returned. *)
Definition attempt {A} (m : M W A) : M W (A + Error) := λ w, match m w with Ret (w, r) => Ret (w, inl r) | Panic why => Panic why | Diverge => Diverge end.
(** errors.New(prefix + err) *)
Definition prefixed {A} (prefix : string) (m : M W A) : M W A := λ w,
  match m w with Ret (w, inr e) => Ret (w, inr (New (prefix +:+ e_Text e))) | r => r end.
(** On an error [h] is run, whatever comes of it, and the error returned. *)
Definition on_error {A} (m : M W A) (h : Error → M W unit) : M W A := r ← attempt m;
  match r with inl a => mret a | inr e => _ ← attempt (h e); fail e end.
(** A pointer that is followed *)
Definition deref {A} (what : string) (p : option A) : M W A := match p with Some a => mret a | None => crash ("nil pointer: " +:+ what) end.
End Computations.
(** A computation on the world, run by an object with a state of its own *)
Definition on_world {C W A} (m : M W A) : M (C * W) A := λ cw,
  match m cw.2 with Ret (w, r) => Ret ((cw.1, w), r) | Panic why => Panic why | Diverge => Diverge end.
Definition this {C W} : M (C * W) C := λ cw, Ret (cw, inl cw.1).
Definition update {C W} (f : C → C) : M (C * W) unit := λ cw, Ret ((f cw.1, cw.2), inl tt).

(** What a bind is after each of them *)
Lemma bind_eq {W A B} (m : M W A) (k : A → M W B) w :
  mbind (M := M W) k m w = match m w with Ret (w', inl a) => k a w' | Ret (w', inr e) => Ret (w', inr e) | Panic s => Panic s | Diverge => Diverge end.
Proof. done. Qed.
Lemma ret_bind {W A B} (a : A) (k : A → M W B) w : mbind (M := M W) k (mret a) w = k a w.
Proof. done. Qed.
Lemma check_bind {W A B} (r : A + Error) (k : A → M W B) w : mbind (M := M W) k (check r) w = match r with inl a => k a w | inr e => Ret (w, inr e) end.
Proof. by destruct r. Qed.
Lemma read_bind {W A B} (f : W → A) (k : A → M W B) w : mbind (M := M W) k (read f) w = k (f w) w.
Proof. done. Qed.
Lemma act_bind {W B} (f : W → W * option Error) (k : unit → M W B) w :
  mbind (M := M W) k (act f) w = match f w with (w', None) => k tt w' | (w', Some e) => Ret (w', inr e) end.
Proof. unfold mbind, M_bind, act. by destruct (f w) as [w' [e|] ]. Qed.
Lemma update_bind {C W A} (f : C → C) (k : unit → M (C * W) A) s w : mbind (M := M (C * W)) k (update f) (s, w) = k tt (f s, w).
Proof. done. Qed.
Lemma this_bind {C W A} (k : C → M (C * W) A) s w : mbind (M := M (C * W)) k this (s, w) = k s (s, w).
Proof. done. Qed.
Lemma on_world_bind {C W A B} (m : M W A) (k : A → M (C * W) B) (s : C) w :
  mbind (M := M (C * W)) k (on_world m) (s, w) =
    match m w with Ret (w', inl a) => k a (s, w') | Ret (w', inr e) => Ret ((s, w'), inr e) | Panic x => Panic x | Diverge => Diverge end.
Proof. unfold mbind, M_bind, on_world. cbn. by destruct (m w) as [ [w' [a|e] ]| |]. Qed.
Lemma attempt_bind {W A B} (m : M W A) (k : A + Error → M W B) w :
  mbind (M := M W) k (attempt m) w = match m w with Ret (w', r) => k r w' | Panic x => Panic x | Diverge => Diverge end.
Proof. unfold mbind, M_bind, attempt. by destruct (m w) as [ [w' r]| |]. Qed.
Lemma prefixed_ok {W A} pre (m : M W A) w w' a : prefixed pre m w = Ret (w', inl a) ↔ m w = Ret (w', inl a).
Proof. unfold prefixed. destruct (m w) as [ [w1 [b|e] ]| |]; split; congruence. Qed.
Lemma on_error_ok {W A} (m : M W A) h w w' a : on_error m h w = Ret (w', inl a) ↔ m w = Ret (w', inl a).
Proof.
  unfold on_error. rewrite attempt_bind. destruct (m w) as [ [w1 [b|e] ]| |]; [done| |done|done].
  rewrite attempt_bind. destruct (h e w1) as [ [w2 r]| |]; by split.
Qed.
Lemma on_world_ok {C W A} (m : M W A) (s s' : C) w w' r : on_world m (s, w) = Ret ((s', w'), r) ↔ s' = s ∧ m w = Ret (w', r).
Proof. unfold on_world. cbn. destruct (m w) as [ [w1 x]| |]; split; try done; [by intros [= <- <- <-]|by intros [-> [= <- <-] ]|by intros [_ ?]..]. Qed.
Lemma bind_ok {W A B} (m : M W A) (k : A → M W B) w w' b :
  mbind (M := M W) k m w = Ret (w', inl b) → ∃ w1 a, m w = Ret (w1, inl a) ∧ k a w1 = Ret (w', inl b).
Proof. rewrite bind_eq. destruct (m w) as [ [w1 [a|e] ]| |]; [eauto|done..]. Qed.

(** Computations that relate the world they leave to the one they find, whatever they return *)
Definition moves {W A} (R : W → W → Prop) (m : M W A) : Prop := ∀ w w' r, m w = Ret (w', r) → R w w'.
Section Moves.
Context {W : Type} (R : W → W → Prop) `{!PreOrder R}.
Lemma moves_bind {A B} (m : M W A) (k : A → M W B) : moves R m → (∀ a, moves R (k a)) → moves R (mbind (M := M W) k m).
Proof.
  intros Hm Hk w w' r. rewrite bind_eq. destruct (m w) as [ [w1 [a|e] ]| |] eqn:E; [|intros [= <- <-]; by eapply Hm|done|done].
  intros Hr. etrans; [by eapply Hm|by eapply Hk].
Qed.
Lemma moves_ret {A} (a : A) : moves R (mret (M := M W) a).
Proof. by intros w w' r [= <- <-]. Qed.
Lemma moves_fail {A} e : moves R (fail (A := A) e).
Proof. by intros w w' r [= <- <-]. Qed.
Lemma moves_crash {A} e : moves R (crash (A := A) e).
Proof. by intros w w' r. Qed.
Lemma moves_read {A} (f : W → A) : moves R (read f).
Proof. by intros w w' r [= <- <-]. Qed.
Lemma moves_check {A} (x : A + Error) : moves R (check x).
Proof. by intros w w' r [= <- <-]. Qed.
Lemma moves_attempt {A} (m : M W A) : moves R m → moves R (attempt m).
Proof. intros Hm w w' r. unfold attempt. destruct (m w) as [ [w1 x]| |] eqn:E; [|done|done]. intros [= <- <-]. by eapply Hm. Qed.
Lemma moves_prefixed {A} pre (m : M W A) : moves R m → moves R (prefixed pre m).
Proof. intros Hm w w' r. unfold prefixed. destruct (m w) as [ [w1 [x|e] ]| |] eqn:E; [| |done|done]; intros [= <- <-]; by eapply Hm. Qed.
Lemma moves_act (f : W → W * option Error) : (∀ w, R w (f w).1) → moves R (act f).
Proof. intros Hf w w' r. unfold act. specialize (Hf w). destruct (f w) as [w1 e]. by intros [= <- <-]. Qed.
Lemma moves_query {A} (f : W → W * (A + Error)) : (∀ w, R w (f w).1) → moves R (query f).
Proof. intros Hf w w' r. unfold query. specialize (Hf w). destruct (f w) as [w1 e]. by intros [= <- <-]. Qed.
End Moves.
(** Take a computation apart; what acts on the world is left. *)
Ltac moves_tac := repeat first
  [ apply moves_ret | apply moves_fail | apply moves_crash | apply moves_read | apply moves_check | apply moves_attempt | apply moves_prefixed
  | apply moves_bind | apply moves_act | apply moves_query
  | lazymatch goal with |- moves _ _ => case_match; simplify_eq/= | |- _ => intro end ]; try done; try exact _.
