(* ===== verification/GoNet.v ===== *)
(** * The part of Go's packages net, strings and strconv the program uses

    Addresses are byte slices ([list Z], each byte in 0..255, 4 or 16 of them;
    the nil slice is []).  Parsing and printing follow the library's code (Go 1.15,
    the version the repository's CI builds with).  Nothing here is code of the repository:
    it is the model of the standard library the other files compute with. *)
From S2P Require Import Prelude.
Open Scope Z_scope.

(** ** Strings *)

Definition is_empty (s : string) : bool := if s is EmptyString then true else false.

Fixpoint prefixb (p s : string) : bool :=
  match p, s with
  | EmptyString, _ => true
  | String a p, String b s => bool_decide (a = b) && prefixb p s
  | _, _ => false
  end.

(** strings.Index(s, c) for a one byte separator, as the split around it. *)
Fixpoint cut_at (c : Ascii.ascii) (s : string) : option (string * string) :=
  match s with
  | EmptyString => None
  | String a s =>
    if decide (a = c) then Some (EmptyString, s)
    else '(l, r) ← cut_at c s; Some (String a l, r)
  end.

Definition has_char (c : Ascii.ascii) (s : string) : bool := bool_decide (is_Some (cut_at c s)).

Fixpoint split_on (c : Ascii.ascii) (s : string) : list string :=
  match s with
  | EmptyString => [EmptyString]
  | String a s =>
    if decide (a = c) then EmptyString :: split_on c s
    else match split_on c s with
         | [] => [String a EmptyString]
         | t :: ts => String a t :: ts
         end
  end.

(** strings.HasPrefix and the like *)
Definition HasPrefix (s p : string) : bool := prefixb p s.
Definition HasSuffix (s p : string) : bool :=
  (String.length p <=? String.length s)%nat &&
  bool_decide (String.substring (String.length s - String.length p) (String.length p) s = p).
Definition TrimPrefix (s p : string) : string :=
  if HasPrefix s p then String.substring (String.length p) (String.length s - String.length p) s else s.
Definition TrimSuffix (s p : string) : string :=
  if HasSuffix s p then String.substring 0 (String.length s - String.length p) s else s.

(** strings.ToLower on ASCII *)
Definition lower_char (a : Ascii.ascii) : Ascii.ascii :=
  let n := Ascii.nat_of_ascii a in
  if (65 <=? n)%nat && (n <=? 90)%nat then Ascii.ascii_of_nat (n + 32) else a.
Fixpoint ToLower (s : string) : string :=
  match s with EmptyString => EmptyString | String a s => String (lower_char a) (ToLower s) end.

(** strings.Join *)
Fixpoint join (sep : string) (ts : list string) : string :=
  match ts with
  | [] => EmptyString
  | [t] => t
  | t :: ts => t +:+ sep +:+ join sep ts
  end.

Definition dot : Ascii.ascii := Ascii.ascii_of_nat 46.
Definition colon : Ascii.ascii := Ascii.ascii_of_nat 58.
Definition slash : Ascii.ascii := Ascii.ascii_of_nat 47.

Definition code (c : Ascii.ascii) : Z := Z.of_N (Ascii.N_of_ascii c).

(** net.dtoi: decimal to integer, (value, characters consumed, ok) *)
Definition dtoi_big : Z := 16777215.
Definition digit (c : Ascii.ascii) : option Z :=
  if (48 <=? code c) && (code c <=? 57) then Some (code c - 48) else None.
Definition hexdigit (c : Ascii.ascii) : option Z :=
  match digit c with
  | Some d => Some d
  | None => if (97 <=? code c) && (code c <=? 102) then Some (code c - 87)
            else if (65 <=? code c) && (code c <=? 70) then Some (code c - 55) else None
  end.
(** The value read, and the rest of the input: [None] when no digit was found or
    the value reached [dtoi_big]. *)
Fixpoint numi_go (dig : Ascii.ascii → option Z) (base n : Z) (some : bool) (s : string)
    : option (Z * string) :=
  match s with
  | EmptyString => if some then Some (n, s) else None
  | String c s' =>
    match dig c with
    | None => if some then Some (n, s) else None
    | Some d => let n := n * base + d in
                if dtoi_big <=? n then None else numi_go dig base n true s'
    end
  end.
Definition dtoi (s : string) : option (Z * string) := numi_go digit 10 0 false s.
Definition xtoi (s : string) : option (Z * string) := numi_go hexdigit 16 0 false s.

(** ** Addresses *)

Definition IPv4len : nat := 4.
Definition IPv6len : nat := 16.

Definition v4InV6Prefix : list Z := [0;0;0;0;0;0;0;0;0;0;255;255].
Definition IPv4 (bs : list Z) : list Z := v4InV6Prefix ++ bs.

(** ip.To4(), ip.To16() : [None] is the nil result *)
Definition To4 (ip : list Z) : option (list Z) :=
  if decide (length ip = IPv4len) then Some ip
  else if decide (length ip = IPv6len ∧ take 12 ip = v4InV6Prefix) then Some (drop 12 ip)
  else None.
Definition To16 (ip : list Z) : option (list Z) :=
  if decide (length ip = IPv4len) then Some (IPv4 ip)
  else if decide (length ip = IPv6len) then Some ip
  else None.
(** a nil slice is an empty one wherever the code reads its bytes *)
Definition slice (o : option (list Z)) : list Z := default [] o.

(** ip.Equal(x) *)
Definition ip_Equal (a b : list Z) : bool :=
  if decide (length a = length b) then bool_decide (a = b)
  else if decide (length a = IPv4len ∧ length b = IPv6len) then bool_decide (IPv4 a = b)
  else if decide (length a = IPv6len ∧ length b = IPv4len) then bool_decide (a = IPv4 b)
  else false.

Definition is_byte (b : Z) : Prop := 0 <= b < 256.
(** a well formed address: what parsing and the integer conversions produce *)
Definition valid_ip (a : list Z) : Prop :=
  (length a = IPv4len ∨ length a = IPv6len) ∧ Forall is_byte a.

(** Big endian bytes: big.Int.SetBytes and its inverse at a fixed size *)
Fixpoint be_combine (acc : Z) (bs : list Z) : Z :=
  match bs with [] => acc | b :: bs => be_combine (acc * 256 + b) bs end.
Definition SetBytes (bs : list Z) : Z := be_combine 0 bs.
Fixpoint be_split (n : nat) (z : Z) : list Z :=
  match n with O => [] | S n => be_split n (z / 256) ++ [z mod 256] end.
(** big.Int.Bytes(): the absolute value, no leading zero *)
Definition big_Bytes (x : Z) : list Z :=
  if x =? 0 then [] else be_split (Z.to_nat (Z.log2 (Z.abs x) / 8 + 1)) (Z.abs x).

(** ** Printing: IP.String *)

Definition utoa (n : Z) : string := pretty (Z.to_N n).
Definition hex_char (n : Z) : Ascii.ascii :=
  Ascii.ascii_of_N (Z.to_N (if n <? 10 then 48 + n else 87 + n)).
Definition appendHex (w : Z) : string :=
  if w =? 0 then "0" else
  foldr (λ j s, if 0 <? Z.shiftr w (4 * j) then String (hex_char (Z.land (Z.shiftr w (4 * j)) 15)) s
                else s) "" [3; 2; 1; 0].

Fixpoint words (bs : list Z) : list Z :=
  match bs with a :: b :: bs => a * 256 + b :: words bs | _ => [] end.

Fixpoint zero_prefix (ws : list Z) : nat :=
  match ws with w :: ws => if w =? 0 then S (zero_prefix ws) else O | [] => O end.

(** the first longest run of zero words, scanned as the library does (a run found is skipped) *)
Fixpoint longest_run (fuel : nat) (i : nat) (ws : list Z) (e : nat * nat) : nat * nat :=
  match fuel with
  | O => e
  | S fuel =>
    let j := (i + zero_prefix (drop i ws))%nat in
    if (i <? j)%nat && (e.2 - e.1 <? j - i)%nat then longest_run fuel (S j) ws (i, j)
    else longest_run fuel (S i) ws e
  end.

Definition ip6_string (ws : list Z) : string :=
  let '(e0, e1) := longest_run 8 0 ws (0, 0)%nat in
  if (e1 - e0 <=? 1)%nat then join ":" (appendHex <$> ws)
  else join ":" (appendHex <$> take e0 ws) +:+ "::" +:+ join ":" (appendHex <$> drop e1 ws).

Definition ip_string (a : list Z) : string :=
  match To4 a with
  | Some p4 => join "." (utoa <$> p4)
  | None => if decide (length a = IPv6len) then ip6_string (words a)
            else if decide (a = []) then "<nil>"
            else "?" +:+ foldr (λ b s, String (hex_char (b / 16)) (String (hex_char (b mod 16)) s)) "" a
  end.

(** ** Parsing: ParseIP, ParseCIDR *)

Fixpoint parseIPv4_go (first : bool) (fields : nat) (s : string) : option (list Z) :=
  match fields with
  | O => if is_empty s then Some [] else None
  | S fields =>
    s ← (if first then Some s
         else match s with String c s => if decide (c = dot) then Some s else None | _ => None end);
    '(n, s) ← dtoi s;
    if 255 <? n then None
    else rest ← parseIPv4_go false fields s; Some (n :: rest)
  end.
Definition parseIPv4 (s : string) : option (list Z) := IPv4 <$> parseIPv4_go true 4 s.

(** one iteration per pair of bytes; [acc] holds the bytes written so far, [ell] where :: stood *)
Fixpoint parseIPv6_go (fuel : nat) (acc : list Z) (ell : option nat) (s : string)
    : option (list Z * option nat * string) :=
  match fuel with
  | O => Some (acc, ell, s)
  | S fuel =>
    if (IPv6len <=? length acc)%nat then Some (acc, ell, s) else
    '(n, s') ← xtoi s;
    if 65535 <? n then None else
    if (if s' is String c _ then bool_decide (c = dot) else false) then
      if negb (bool_decide (is_Some ell)) && negb (length acc =? 12)%nat then None else
      if (IPv6len <? length acc + IPv4len)%nat then None else
      ip4 ← parseIPv4 s; Some (acc ++ drop 12 ip4, ell, "")
    else
      let acc := acc ++ [n / 256; n mod 256] in
      match s' with
      | EmptyString => Some (acc, ell, s')
      | String c EmptyString => None
      | String c ((String c2 s3) as s2) =>
        if decide (c = colon) then
          if decide (c2 = colon) then
            if ell is Some _ then None
            else if is_empty s3 then Some (acc, Some (length acc), s3)
            else parseIPv6_go fuel acc (Some (length acc)) s3
          else parseIPv6_go fuel acc ell s2
        else None
      end
  end.
Definition parseIPv6 (s : string) : option (list Z) :=
  if decide (s = "::") then Some (replicate 16 0) else
  let '(ell, s) :=
    match s with
    | String a (String b s') => if decide (a = colon ∧ b = colon) then (Some O, s') else (None, s)
    | _ => (None, s)
    end in
  '(acc, ell, rest) ← parseIPv6_go 9 [] ell s;
  if negb (is_empty rest) then None else
  if (length acc <? IPv6len)%nat then
    e ← ell; Some (take e acc ++ replicate (IPv6len - length acc) 0 ++ drop e acc)
  else if ell is Some _ then None else Some acc.

Definition ParseIP (s : string) : option (list Z) :=
  if has_char colon s && negb (has_char dot (default s (fst <$> cut_at colon s))) then parseIPv6 s
  else if has_char dot s then parseIPv4 s else None.

Record IPNet := { net_IP : list Z; net_Mask : list Z }.

(** CIDRMask(ones, bits) and Mask.Size() *)
Definition CIDRMask (ones bits : Z) : list Z :=
  be_split (Z.to_nat (bits / 8)) (Z.shiftl (Z.ones ones) (bits - ones)).
Definition mask_bytes (a m : list Z) : list Z := zip_with Z.land a m.
(** ip.Mask(m) for a mask of 4 or 16 bytes *)
Definition ip_Mask (a m : list Z) : list Z :=
  if decide (length m = IPv4len) then mask_bytes (slice (To4 a)) m else mask_bytes a m.

Definition ParseCIDR (s : string) : option (list Z * IPNet * Z * Z) :=
  '(addr, mask) ← cut_at slash s;
  let bits := if parseIPv4 addr is Some _ then 32 else 128 in
  a ← (if parseIPv4 addr is Some a then Some a else parseIPv6 addr);
  '(n, rest) ← dtoi mask;
  if negb (is_empty rest) || (bits <? n) then None
  else let m := CIDRMask n bits in
       Some (a, {| net_IP := ip_Mask a m; net_Mask := m |}, n, bits).

(** ipNet.Contains(ip) *)
Definition networkNumberAndMask (n : IPNet) : option (list Z * list Z) :=
  let a := default (net_IP n) (To4 (net_IP n)) in
  if decide (length a ≠ IPv4len ∧ length a ≠ IPv6len) then None
  else if decide (length (net_Mask n) = IPv4len) then
    if decide (length a = IPv4len) then Some (a, net_Mask n) else None
  else if decide (length (net_Mask n) = IPv6len) then
    Some (a, if decide (length a = IPv4len) then drop 12 (net_Mask n) else net_Mask n)
  else None.
Definition net_Contains (n : IPNet) (a : list Z) : bool :=
  let x := default a (To4 a) in
  match networkNumberAndMask n with
  | None => false
  | Some (nn, m) =>
    bool_decide (length x = length nn) && bool_decide (mask_bytes nn m = mask_bytes x m)
  end.

(** net.JoinHostPort *)
Definition JoinHostPort (host : string) (port : Z) : string :=
  (if has_char colon host then "[" +:+ host +:+ "]" else host) +:+ ":" +:+ pretty port.

(** The text around the last occurrence of a byte. *)
Fixpoint cut_last (c : Ascii.ascii) (s : string) : option (string * string) :=
  match s with
  | EmptyString => None
  | String a s =>
      match cut_last c s with
      | Some (l, r) => Some (String a l, r)
      | None => if decide (a = c) then Some (EmptyString, s) else None
      end
  end.

Definition lbracket : Ascii.ascii := Ascii.ascii_of_nat 91.
Definition rbracket : Ascii.ascii := Ascii.ascii_of_nat 93.
(** net.SplitHostPort: (host, port) *)
Definition SplitHostPort (s : string) : option (string * string) :=
  match cut_last colon s with
  | None => None
  | Some (h, port) =>
      match h with
      | String a h' =>
          if decide (a = lbracket) then
            match cut_at rbracket h' with
            | None => None
            | Some (host, r) =>
                if decide (r = EmptyString) then
                  if has_char lbracket h' || has_char lbracket port || has_char rbracket port then None else Some (host, port)
                else None
            end
          else if has_char colon h || has_char lbracket s || has_char rbracket s then None else Some (h, port)
      | EmptyString => if has_char lbracket port || has_char rbracket port then None else Some (h, port)
      end
  end.

(** strconv.ParseInt(s, 10, bits) *)
Fixpoint parse_digits (n : Z) (s : string) : option Z :=
  match s with
  | EmptyString => Some n
  | String c s => d ← digit c; parse_digits (n * 10 + d) s
  end.
Definition parse_uint (s : string) : option Z := match s with EmptyString => None | _ => parse_digits 0 s end.
Definition ParseInt (bits : Z) (s : string) : option Z :=
  let '(neg, s) := match s with
                   | String c s' => if decide (c = Ascii.ascii_of_nat 45) then (true, s')
                                    else if decide (c = Ascii.ascii_of_nat 43) then (false, s') else (false, s)
                   | EmptyString => (false, s)
                   end in
  n ← parse_uint s;
  if neg : bool then (if n <=? 2 ^ (bits - 1) then Some (- n) else None)
  else if n <? 2 ^ (bits - 1) then Some n else None.

(** The value strconv.ParseInt(s, 10, bits) returns, also with an error: 0 for bad syntax, else the nearest one in range. *)
Definition ParseInt_value (bits : Z) (s : string) : Z :=
  match ParseInt bits s with
  | Some v => v
  | None =>
      let '(neg, digits) := match s with
                            | String c s' => if decide (c = Ascii.ascii_of_nat 45) then (true, s')
                                             else if decide (c = Ascii.ascii_of_nat 43) then (false, s') else (false, s)
                            | EmptyString => (false, s)
                            end in
      match parse_uint digits with
      | Some _ => if neg : bool then - 2 ^ (bits - 1) else 2 ^ (bits - 1) - 1
      | None => 0
      end
  end.
(** strconv.ParseUint(s, 10, bits) *)
Definition ParseUint (bits : Z) (s : string) : option Z :=
  n ← parse_uint s; if n <? 2 ^ bits then Some n else None.

(** ** Bytes and integers *)

Lemma length_be_split n z : length (be_split n z) = n.
Proof. revert z; induction n as [|n IH]; intros z; [done|]. cbn. rewrite length_app, IH. cbn. lia. Qed.

Lemma be_combine_app acc l1 l2 : be_combine acc (l1 ++ l2) = be_combine (be_combine acc l1) l2.
Proof. revert acc; induction l1 as [|b l1 IH]; intros acc; cbn; auto. Qed.

Lemma be_split_byte n z : Forall is_byte (be_split n z).
Proof.
  revert z; induction n as [|n IH]; intros z; cbn; [done|].
  apply Forall_app; split; [apply IH|]. repeat constructor; apply Z.mod_pos_bound; lia.
Qed.

Lemma SetBytes_be_split n z : SetBytes (be_split n z) = z mod 256 ^ Z.of_nat n.
Proof.
  unfold SetBytes. revert z; induction n as [|n IH]; intros z.
  { cbn. by rewrite Z.mod_1_r. }
  cbn [be_split]. rewrite be_combine_app, IH, Nat2Z.inj_succ, Z.pow_succ_r by lia. cbn.
  rewrite Z.rem_mul_r by (try apply Z.pow_pos_nonneg; lia). lia.
Qed.

Lemma be_combine_bound acc l :
  Forall is_byte l → acc * 256 ^ Z.of_nat (length l) <= be_combine acc l < (acc + 1) * 256 ^ Z.of_nat (length l).
Proof.
  intros Hl. revert acc; induction Hl as [|b l Hb _ IH]; intros acc; [cbn; lia|].
  cbn [be_combine length]. rewrite Nat2Z.inj_succ, Z.pow_succ_r by lia.
  specialize (IH (acc * 256 + b)). unfold is_byte in Hb. nia.
Qed.

Lemma SetBytes_bound l : Forall is_byte l → 0 <= SetBytes l < 256 ^ Z.of_nat (length l).
Proof. intros Hl. pose proof (be_combine_bound 0 l Hl). unfold SetBytes. lia. Qed.

Lemma be_split_SetBytes l : Forall is_byte l → be_split (length l) (SetBytes l) = l.
Proof.
  unfold SetBytes. induction l as [|b l IH] using rev_ind; intros Hl; [done|].
  apply Forall_app in Hl as [Hl Hb]. inversion Hb as [|? ? Hb' _]; subst. unfold is_byte in Hb'.
  rewrite length_app, Nat.add_1_r, be_combine_app. cbn.
  rewrite Z.div_add_l, (Z.div_small b), Z.add_0_r, IH by (done || lia).
  do 2 f_equal. rewrite Z.add_comm, Z.mod_add, Z.mod_small by lia. done.
Qed.

Lemma SetBytes_inj l1 l2 :
  length l1 = length l2 → Forall is_byte l1 → Forall is_byte l2 → SetBytes l1 = SetBytes l2 → l1 = l2.
Proof. intros E H1 H2 E'. rewrite <-(be_split_SetBytes l1), <-(be_split_SetBytes l2) by done. congruence. Qed.

Lemma be_split_S n z : be_split (S n) z = be_split n (z / 256) ++ [z mod 256].
Proof. done. Qed.

(** ** The text of an address identifies it *)

Lemma split_on_no_char c t : has_char c t = false → split_on c t = [t].
Proof.
  unfold has_char. rewrite bool_decide_eq_false. induction t as [|a t IH]; cbn [split_on cut_at]; [done|].
  destruct (decide (a = c)); [intros []; eauto|]. intros Hn. rewrite IH; [done|].
  intros [[l r] E]. apply Hn. rewrite E. cbn. eauto.
Qed.

Lemma split_on_ne c t : split_on c t ≠ [].
Proof. destruct t; simpl; [done|]. case_decide; [done|]. by destruct (split_on c t). Qed.

(** What was split is joined again. *)
Lemma join_split_on c t : join (String c "") (split_on c t) = t.
Proof.
  induction t as [|a t IH]; [done|]. cbn [split_on]. pose proof (split_on_ne c t) as Hne. case_decide as Ha.
  - subst a. destruct (split_on c t); [done|]. by rewrite <- IH.
  - destruct (split_on c t) as [|x [|y l] ]; [done|..]; by rewrite <- IH.
Qed.

Lemma split_on_cons c a b : split_on c (a +:+ String c b) = split_on c a ++ split_on c b.
Proof.
  induction a as [|x a IH]; simpl; [by destruct (decide (c = c))|].
  rewrite IH. destruct (decide (x = c)); [done|].
  pose proof (split_on_ne c a). by destruct (split_on c a).
Qed.

Lemma split_on_join c ts :
  ts ≠ [] → Forall (λ t, has_char c t = false) ts → split_on c (join (String c "") ts) = ts.
Proof.
  induction ts as [|t ts IH]; intros Hne Hts; [done|]. inversion Hts as [|? ? Ht Hts']; subst.
  destruct ts as [|t' ts]; [by apply split_on_no_char|].
  change (join (String c "") (t :: t' :: ts)) with (t +:+ String c (join (String c "") (t' :: ts))).
  by rewrite split_on_cons, IH, (split_on_no_char c t).
Qed.

Lemma cut_at_prefix c name s : has_char c name = false → cut_at c (name +:+ String c s) = Some (name, s).
Proof.
  unfold has_char. rewrite bool_decide_eq_false. induction name as [|a name IH]; intros Hn; rewrite ?str_app_nil, ?str_app_cons; cbn [cut_at].
  - by rewrite decide_True.
  - cbn [cut_at] in Hn. case_decide; [by destruct Hn|].
    rewrite IH; [done|]. intros [p Hp]. apply Hn. rewrite Hp. destruct p. by eexists.
Qed.
Lemma cut_at_Some c s l r : cut_at c s = Some (l, r) ↔ s = l +:+ String c r ∧ has_char c l = false.
Proof.
  split; [|by intros [-> Hn]; apply cut_at_prefix]. unfold has_char. rewrite bool_decide_eq_false.
  revert l. induction s as [|a s IH]; intros l; cbn [cut_at]; [done|]. case_decide as Hc.
  - intros [= <- <-]. subst. split; [done|]. cbn. by intros [].
  - destruct (cut_at c s) as [ [l' r']|]; cbn; [|done]. intros [= <- <-]. destruct (IH l' eq_refl) as [-> Hn].
    split; [by rewrite str_app_cons|]. cbn [cut_at]. rewrite decide_False by done.
    intros [ [l1 r1] He]. apply Hn. destruct (cut_at c l'); [by eexists|done].
Qed.

Definition split_tail (ts : list string) : list string := filter (λ t, t ≠ "") ts.
Fixpoint lead (ts : list string) : list string :=
  match ts with [] => [] | t :: ts => if decide (t = "") then [] else t :: lead ts end.
(** what a reader of the compressed form recovers: the eight words, as text *)
Definition decode6 (s : string) : list string :=
  let ts := split_on colon s in
  let b := lead ts in let a := split_tail (drop (length b) ts) in
  b ++ replicate (8 - length b - length a) "0" ++ a.

Definition word_ok (w : Z) : bool :=
  negb (has_char colon (appendHex w)) && negb (has_char dot (appendHex w)) &&
  bool_decide (appendHex w ≠ "") && bool_decide (xtoi (appendHex w) = Some (w, "")).

Definition bytes_all : list Z := Z.of_nat <$> seq 0 256.
Lemma bytes_all_spec b : is_byte b → In b bytes_all.
Proof.
  intros Hb. unfold bytes_all. apply in_map_iff. exists (Z.to_nat b).
  unfold is_byte in Hb. split; [lia|]. apply in_seq. lia.
Qed.

Lemma words_ok : forallb (λ a, forallb (λ b, word_ok (a * 256 + b)) bytes_all) bytes_all = true.
Proof. vm_compute. reflexivity. Qed.

Definition is_word (w : Z) : Prop := 0 <= w < 65536.

Lemma word_ok_spec w : is_word w →
  has_char colon (appendHex w) = false ∧ has_char dot (appendHex w) = false ∧
  appendHex w ≠ "" ∧ xtoi (appendHex w) = Some (w, "").
Proof.
  intros Hw. pose proof words_ok as H. rewrite forallb_forall in H.
  unfold is_word in Hw. pose proof (Z.div_mod w 256) as Hdm.
  pose proof (Z.mod_pos_bound w 256) as Hm.
  specialize (H (w / 256)). rewrite forallb_forall in H.
  assert (word_ok w = true) as E.
  { rewrite Hdm, Z.mul_comm by lia. apply H; apply bytes_all_spec; unfold is_byte; [|lia].
    split; [apply Z.div_pos; lia|apply Z.div_lt_upper_bound; lia]. }
  unfold word_ok in E. rewrite !andb_true_iff, !negb_true_iff, !bool_decide_eq_true in E.
  destruct E as [[[E1 E2] E3] E4]. auto.
Qed.

Lemma appendHex_inj v w : is_word v → is_word w → appendHex v = appendHex w → v = w.
Proof. intros Hv Hw E. apply word_ok_spec in Hv, Hw. destruct Hv as (_&_&_&Hv), Hw as (_&_&_&Hw). congruence. Qed.

Lemma words_is_word l : Forall is_byte l → Forall is_word (words l).
Proof.
  revert l. fix IH 1. intros [|a [|b l]] Hl; [constructor..|].
  inversion Hl as [|? ? Ha Hl']; subst. inversion Hl' as [|? ? Hb Hl'']; subst.
  cbn. constructor; [unfold is_word, is_byte in *; lia|]. by apply IH.
Qed.

Lemma words_inj l1 l2 :
  Forall is_byte l1 → Forall is_byte l2 → length l1 = length l2 → Nat.Even (length l1) →
  words l1 = words l2 → l1 = l2.
Proof.
  revert l1 l2. fix IH 1. intros [|a [|b l1]] [|a' [|b' l2]] H1 H2 Hlen [k Hk] E; cbn in *; try lia; [done|].
  inversion H1 as [|? ? Ha H1']; inversion H1' as [|? ? Hb H1'']; subst.
  inversion H2 as [|? ? Ha' H2']; inversion H2' as [|? ? Hb' H2'']; subst.
  injection E as Ew E. unfold is_byte in *.
  assert (a = a' ∧ b = b') as [-> ->] by lia.
  f_equal. f_equal. apply IH; try done; [lia|]. exists (k - 1)%nat. lia.
Qed.

Lemma length_words l : length l = 16%nat → length (words l) = 8%nat.
Proof. do 17 (destruct l as [|? l]; try done). Qed.

Lemma zero_prefix_zeros ws : take (zero_prefix ws) ws = replicate (zero_prefix ws) 0.
Proof.
  induction ws as [|w ws IH]; cbn; [done|]. destruct (Z.eqb_spec w 0) as [->|]; cbn; [|done].
  by rewrite IH.
Qed.
Lemma zero_prefix_length ws : (zero_prefix ws <= length ws)%nat.
Proof. induction ws as [|w ws IH]; cbn; [lia|]. destruct (w =? 0); lia. Qed.

Definition run_ok (ws : list Z) (e : nat * nat) : Prop :=
  (e.1 <= e.2 <= length ws)%nat ∧ ws = take e.1 ws ++ replicate (e.2 - e.1) 0 ++ drop e.2 ws.

Lemma longest_run_past fuel i ws e : (length ws < i)%nat → longest_run fuel i ws e = e.
Proof.
  revert i; induction fuel as [|fuel IH]; intros i Hi; [done|].
  cbn [longest_run]. rewrite (drop_ge ws) by lia. cbn [zero_prefix].
  rewrite Nat.add_0_r, Nat.ltb_irrefl. cbn [andb]. apply IH. lia.
Qed.

Lemma longest_run_ok fuel i ws e : run_ok ws e → (i <= length ws)%nat → run_ok ws (longest_run fuel i ws e).
Proof.
  revert i e; induction fuel as [|fuel IH]; intros i e He Hi; [done|]. cbn [longest_run].
  pose proof (zero_prefix_length (drop i ws)) as Hz. rewrite length_drop in Hz.
  assert (run_ok ws (i, i + zero_prefix (drop i ws))%nat) as Hr.
  { split; cbn; [lia|]. replace (i + _ - i)%nat with (zero_prefix (drop i ws)) by lia.
    rewrite <-zero_prefix_zeros, <-drop_drop, take_drop. by rewrite take_drop. }
  destruct (_ && _) eqn:E.
  - destruct (decide (S (i + zero_prefix (drop i ws)) <= length ws)%nat); [by apply IH|].
    by rewrite longest_run_past by lia.
  - destruct (decide (S i <= length ws)%nat); [by apply IH|]. by rewrite longest_run_past by lia.
Qed.

Lemma filter_all_ne ts : Forall (λ t, t ≠ "") ts → split_tail ts = ts.
Proof. intros H. unfold split_tail. induction H; [done|]. by rewrite filter_cons_True by done; f_equal. Qed.
Lemma lead_app ts rest : Forall (λ t, t ≠ "") ts → lead (ts ++ "" :: rest) = ts.
Proof. induction 1; cbn; [done|]. case_decide; [done|]. congruence. Qed.
Lemma lead_all ts : Forall (λ t, t ≠ "") ts → lead ts = ts.
Proof. induction 1; cbn; [done|]. case_decide; [done|]. congruence. Qed.

Lemma cut_at_app c a b : is_Some (cut_at c (a +:+ b)) ↔ is_Some (cut_at c a) ∨ is_Some (cut_at c b).
Proof.
  induction a as [|x a IH]; simpl.
  { split; [by right|]. intros [[? ?]|?]; [done|done]. }
  destruct (decide (x = c)).
  { split; [intros _; left; eauto|]. eauto. }
  assert (∀ s, is_Some ('(l, r) ← cut_at c s; Some (String x l, r)) ↔ is_Some (cut_at c s)) as Hm.
  { intros s. destruct (cut_at c s) as [[? ?]|]; cbn; split; intros [? ?]; eauto; done. }
  by rewrite !Hm.
Qed.

Lemma has_char_app c a b : has_char c (a +:+ b) = has_char c a || has_char c b.
Proof.
  unfold has_char. apply eq_true_iff_eq.
  rewrite orb_true_iff, !bool_decide_eq_true. apply cut_at_app.
Qed.

Lemma has_char_join c sep ts :
  has_char c sep = false → Forall (λ t, has_char c t = false) ts → has_char c (join sep ts) = false.
Proof.
  intros Hsep. induction ts as [|t ts IH]; intros Hts; [done|].
  inversion Hts as [|? ? Ht Hts']; subst. destruct ts as [|t' ts]; [done|].
  change (join sep (t :: t' :: ts)) with (t +:+ sep +:+ join sep (t' :: ts)).
  by rewrite !has_char_app, Ht, Hsep, IH.
Qed.

(** [split_on] of the join of hexadecimal words, also when there is none *)
Lemma split_on_hex ws : Forall is_word ws →
  split_on colon (join ":" (appendHex <$> ws)) = match ws with [] => [""] | _ => appendHex <$> ws end.
Proof.
  intros Hws. destruct ws as [|w ws]; [done|].
  apply (split_on_join colon); [done|]. apply Forall_fmap. eapply Forall_impl; [exact Hws|].
  intros v Hv. apply (word_ok_spec v Hv).
Qed.

Lemma hex_nonempty ws : Forall is_word ws → Forall (λ t, t ≠ "") (appendHex <$> ws).
Proof. intros H. apply Forall_fmap. eapply Forall_impl; [exact H|]. intros v Hv. apply (word_ok_spec v Hv). Qed.

Lemma Forall_word_take ws n : Forall is_word ws → Forall is_word (take n ws).
Proof. apply Forall_take. Qed.
Lemma Forall_word_drop ws n : Forall is_word ws → Forall is_word (drop n ws).
Proof. apply Forall_drop. Qed.
#[export] Hint Resolve hex_nonempty Forall_word_take Forall_word_drop : core.

Lemma decode6_string ws :
  length ws = 8%nat → Forall is_word ws → decode6 (ip6_string ws) = appendHex <$> ws.
Proof.
  intros Hlen Hws. unfold ip6_string.
  pose proof (longest_run_ok 8 0 ws (0, 0)%nat) as Hr.
  destruct (longest_run 8 0 ws (0, 0)%nat) as [e0 e1]; cbn [fst snd] in *.
  destruct Hr as [[Hle Hle'] Hws']; [split; cbn; [lia|done]|lia|]. cbn in Hle, Hle', Hws'.
  destruct (Nat.leb_spec (e1 - e0) 1) as [Hs|Hs].
  { unfold decode6. rewrite split_on_hex by done. destruct ws as [|w ws]; [done|].
    rewrite lead_all, drop_all, app_nil_r by auto. cbn [split_tail filter length].
    rewrite length_fmap, Hlen. cbn. by rewrite app_nil_r. }
  set (A := take e0 ws) in *. set (B := drop e1 ws) in *.
  assert (length A = e0 ∧ length B = 8 - e1)%nat as [HA HB].
  { unfold A, B. rewrite length_take, length_drop. lia. }
  assert (split_on colon (join ":" (appendHex <$> A) +:+ "::" +:+ join ":" (appendHex <$> B)) =
    split_on colon (join ":" (appendHex <$> A)) ++ "" :: split_on colon (join ":" (appendHex <$> B))) as Hsp.
  { change ("::" +:+ ?x) with (String colon (String colon x)). by rewrite split_on_cons. }
  unfold decode6. rewrite Hsp, !split_on_hex by (apply Forall_word_take || apply Forall_word_drop; done).
  assert (∀ X, Forall is_word X →
    split_tail (match X with [] => [""] | _ => appendHex <$> X end) = appendHex <$> X) as Htail.
  { intros X HX. destruct X; [done|]. apply filter_all_ne. auto. }
  assert (Forall is_word A ∧ Forall is_word B) as [HwA HwB] by (unfold A, B; auto).
  assert (lead (match A with [] => [""] | _ => appendHex <$> A end ++
    "" :: match B with [] => [""] | _ => appendHex <$> B end) = appendHex <$> A) as Hlead.
  { destruct A; [done|]. apply lead_app. auto. }
  rewrite Hlead, length_fmap, HA.
  assert (split_tail (drop e0 (match A with [] => [""] | _ => appendHex <$> A end ++
    "" :: match B with [] => [""] | _ => appendHex <$> B end)) = appendHex <$> B) as ->.
  { pose proof (Htail B HwB) as HTB. rewrite <-HA. destruct A as [|w A'] eqn:EA; [exact HTB|].
    rewrite <-(length_fmap appendHex), drop_app_length. exact HTB. }
  rewrite length_fmap, HB, Hws' at 1. rewrite !fmap_app, fmap_replicate.
  replace (8 - e0 - (8 - e1))%nat with (e1 - e0)%nat by lia. done.
Qed.

Lemma ip6_string_no_dot ws : Forall is_word ws → has_char dot (ip6_string ws) = false.
Proof.
  intros Hws. unfold ip6_string. destruct (longest_run 8 0 ws (0, 0)%nat) as [e0 e1].
  assert (∀ X, Forall is_word X → has_char dot (join ":" (appendHex <$> X)) = false) as HX.
  { intros X HX. apply has_char_join; [done|]. apply Forall_fmap. eapply Forall_impl; [exact HX|].
    intros v Hv. apply (word_ok_spec v Hv). }
  destruct (_ <=? _)%nat; [by apply HX|]. by rewrite !has_char_app, !HX by auto.
Qed.

Lemma ip6_string_inj ws ws' :
  length ws = 8%nat → length ws' = 8%nat → Forall is_word ws → Forall is_word ws' →
  ip6_string ws = ip6_string ws' → ws = ws'.
Proof.
  intros Hl Hl' Hw Hw' E. apply (f_equal decode6) in E. rewrite !decode6_string in E by done.
  clear Hl Hl'. revert ws' Hw' E. induction Hw as [|w ws Hw _ IH]; intros [|w' ws'] Hw' E; try done.
  inversion Hw' as [|? ? Hww' Hw'']; subst. injection E as E1 E2.
  f_equal; [by apply appendHex_inj|]. by apply IH.
Qed.

Lemma byte_text_no_dot b : is_byte b → has_char dot (utoa b) = false.
Proof.
  intros Hb. assert (forallb (λ b, negb (has_char dot (utoa b))) bytes_all = true) as H by (vm_compute; done).
  rewrite forallb_forall in H. apply negb_true_iff, H. by apply bytes_all_spec.
Qed.

Lemma utoa_inj a b : 0 <= a → 0 <= b → utoa a = utoa b → a = b.
Proof. unfold utoa. intros Ha Hb E. apply (inj pretty) in E. lia. Qed.

Lemma split_on_v4 p : p ≠ [] → Forall is_byte p → split_on dot (join "." (utoa <$> p)) = utoa <$> p.
Proof.
  intros Hne Hp. apply (split_on_join dot); [by destruct p|]. apply Forall_fmap.
  eapply Forall_impl; [exact Hp|]. apply byte_text_no_dot.
Qed.

Lemma v4_string_inj p q :
  length p = 4%nat → length q = 4%nat → Forall is_byte p → Forall is_byte q →
  join "." (utoa <$> p) = join "." (utoa <$> q) → p = q.
Proof.
  intros Hp Hq HP HQ E. apply (f_equal (split_on dot)) in E.
  rewrite !split_on_v4 in E by (try done; by intros ->).
  clear Hp Hq. revert q HQ E. induction HP as [|b p Hb _ IH]; intros [|c q] HQ E; try done.
  inversion HQ as [|? ? Hc HQ']; subst. injection E as E1 E2. unfold is_byte in *.
  f_equal; [apply utoa_inj; [lia..|done]|]. by apply IH.
Qed.

Lemma length_v4_tail (a : list Z) : length a = 16%nat → length (drop 12 a) = 4%nat.
Proof. intros H. rewrite length_drop, H. done. Qed.

Lemma To16_of_To4 a p4 : To4 a = Some p4 → valid_ip a →
  length p4 = 4%nat ∧ Forall is_byte p4 ∧ To16 a = Some (IPv4 p4).
Proof.
  unfold To4, To16, IPv4len, IPv6len. intros E [_ Hb]. destruct (decide (length a = 4%nat)).
  { by simplify_eq. }
  destruct (decide (_ ∧ _)) as [[Hl Hp]|]; simplify_eq.
  rewrite decide_True by done. split; [by apply length_v4_tail|]. split; [by apply Forall_drop|].
  unfold IPv4. by rewrite <-Hp, take_drop.
Qed.

Lemma To4_None_To16 a : To4 a = None → valid_ip a → length a = 16%nat ∧ To16 a = Some a.
Proof.
  unfold To4, To16, valid_ip, IPv4len, IPv6len. intros E [Hl _]. destruct Hl as [Hl|Hl]; rewrite Hl in *.
  { by rewrite decide_True in E. }
  by rewrite decide_False, decide_True by done.
Qed.

Lemma To4_is_v4 a p4 : To4 a = Some p4 → valid_ip a → length p4 = 4%nat ∧ Forall is_byte p4.
Proof. intros H H'. destruct (To16_of_To4 _ _ H H') as (?&?&?). auto. Qed.

(** Two addresses have the same text exactly when they are the same address. *)
Lemma ip_string_inj a b : valid_ip a → valid_ip b → ip_string a = ip_string b ↔ To16 a = To16 b.
Proof.
  intros Ha Hb.
  assert (∀ c p, valid_ip c → To4 c = Some p → split_on dot (ip_string c) = utoa <$> p) as H4.
  { intros c p Hc E. unfold ip_string. rewrite E. destruct (To4_is_v4 _ _ E Hc).
    apply split_on_v4; [by intros ->|done]. }
  assert (∀ c, valid_ip c → To4 c = None →
    ip_string c = ip6_string (words c) ∧ length (words c) = 8%nat ∧ Forall is_word (words c)) as H6.
  { intros c Hc E. destruct (To4_None_To16 _ E Hc) as [Hl _]. unfold ip_string.
    rewrite E, decide_True by done. split; [done|]. split; [by apply length_words|].
    apply words_is_word, Hc. }
  assert (∀ c, valid_ip c → To4 c = None → split_on dot (ip_string c) = [ip_string c]) as H6'.
  { intros c Hc E. destruct (H6 c Hc E) as (->&?&?). by apply split_on_no_char, ip6_string_no_dot. }
  assert (∀ c d p, valid_ip c → valid_ip d → To4 c = Some p → To4 d = None →
    ip_string c ≠ ip_string d ∧ To16 c ≠ To16 d) as Hmix.
  { intros c d p Hc Hd Ec Ed. destruct (To4_is_v4 _ _ Ec Hc) as [Hp _]. split.
    - intros E. pose proof (H4 c p Hc Ec) as E1. rewrite E, H6' in E1 by done.
      apply (f_equal length) in E1. rewrite length_fmap, Hp in E1. done.
    - destruct (To16_of_To4 _ _ Ec Hc) as (_&_&->), (To4_None_To16 _ Ed Hd) as [Hl ->].
      intros [= <-]. unfold To4 in Ed. rewrite decide_False in Ed by (rewrite Hl; done).
      rewrite decide_True in Ed by done. done. }
  destruct (To4 a) as [p|] eqn:Ea, (To4 b) as [q|] eqn:Eb.
  - destruct (To16_of_To4 _ _ Ea Ha) as (Hp&HP&->), (To16_of_To4 _ _ Eb Hb) as (Hq&HQ&->).
    unfold ip_string. rewrite Ea, Eb. split.
    + intros E. by rewrite (v4_string_inj p q).
    + intros [= E]. by subst.
  - destruct (Hmix a b p Ha Hb Ea Eb). by split.
  - destruct (Hmix b a q Hb Ha Eb Ea). split; intros; exfalso; auto.
  - destruct (H6 a Ha Ea) as (->&Hla&Hwa), (H6 b Hb Eb) as (->&Hlb&Hwb).
    destruct (To4_None_To16 _ Ea Ha) as [Hl ->], (To4_None_To16 _ Eb Hb) as [Hl' ->].
    split; [|by intros [= ->]]. intros E. f_equal.
    apply words_inj; [apply Ha|apply Hb|congruence|rewrite Hl; by exists 8%nat|by apply ip6_string_inj].
Qed.

Lemma To4_IPv4 p : length p = 4%nat → To4 (IPv4 p) = Some p.
Proof.
  intros Hp. unfold To4, IPv4. rewrite length_app, Hp. rewrite decide_False by done. by rewrite decide_True.
Qed.
Lemma To16_4 a : length a = 4%nat → To16 a = Some (IPv4 a).
Proof. intros H. unfold To16. by rewrite decide_True. Qed.
Lemma To16_16 a : length a = 16%nat → To16 a = Some a.
Proof. intros H. unfold To16. by rewrite decide_False, decide_True by (rewrite H; done). Qed.

Lemma To16_valid a : valid_ip a →
  ∃ c, To16 a = Some c ∧ length c = 16%nat ∧ Forall is_byte c ∧ To16 c = Some c.
Proof.
  intros [[Hl|Hl] Hb]; unfold To16, IPv4len, IPv6len in *.
  - rewrite decide_True by done. exists (IPv4 a). unfold IPv4. rewrite length_app, Hl.
    split; [done|]. split; [done|]. split; [|done].
    apply Forall_app; split; [|done]. repeat constructor; unfold is_byte; lia.
  - rewrite decide_False, decide_True by (rewrite Hl; done). exists a.
    rewrite decide_False, decide_True by (rewrite Hl; done). done.
Qed.

Lemma To16_inj a b : valid_ip a → length a = length b → To16 a = To16 b → a = b.
Proof.
  intros [[Hl|Hl] _] E; unfold To16, IPv4len, IPv6len in *; rewrite <-E, Hl.
  - rewrite !decide_True by done. unfold IPv4. by intros [= ->].
  - repeat case_decide; try done. by intros [= ->].
Qed.

Lemma ip_Equal_To16 a b : valid_ip a → valid_ip b → ip_Equal a b = true ↔ To16 a = To16 b.
Proof.
  intros [Ha _] [Hb _]. unfold ip_Equal, IPv4len, IPv6len in *.
  destruct Ha as [Ha|Ha], Hb as [Hb|Hb]; rewrite Ha, Hb;
    rewrite ?(To16_4 a), ?(To16_16 a), ?(To16_4 b), ?(To16_16 b) by done;
    repeat case_decide; try lia; rewrite bool_decide_eq_true; unfold IPv4;
    (split; [by intros <- || by intros -> | by intros [= <-] || by intros [= ->] ]).
Qed.

Lemma ParseCIDR_bits s a n ones bits : ParseCIDR s = Some (a, n, ones, bits) → bits = 32 ∨ bits = 128.
Proof.
  unfold ParseCIDR. intros E. apply bind_Some in E as ([addr mask] & _ & E).
  apply bind_Some in E as (a' & _ & E). apply bind_Some in E as ([m rest] & _ & E).
  destruct (_ || _); [done|]. injection E as _ _ _ <-. destruct (parseIPv4 addr); auto.
Qed.
