(* ===== verification/SeqQueue.v ===== *)
(** * The sequence queue: src/vendor/arhat.dev/pkg/queue/seq_queue.go

    [SeqQueue] reorders the chunks of one message: [Offer] takes a chunk with its sequence
    number and calls [handleData] on every chunk that has become deliverable. The model is
    of one call at a time; the handler is a function on the state of the caller. *)
From S2P Require Import Prelude.
Open Scope Z_scope.

Definition MaxUint64 : Z := 2 ^ 64 - 1.
Definition wrap64 (x : Z) : Z := x mod 2 ^ 64.

(** [q_m] is the sync.Map of the chunks that came too early. *)
Record SeqQueue (D : Type) := { q_next : Z; q_max : Z; q_m : gmap Z D }.
Arguments q_next {D} _.
Arguments q_max {D} _.
Arguments q_m {D} _.

Definition NewSeqQueue {D} : SeqQueue D := {| q_next := 0; q_max := MaxUint64; q_m := ∅ |}.
Definition Reset {D} (q : SeqQueue D) : SeqQueue D := {| q_next := 0; q_max := MaxUint64; q_m := ∅ |}.

Definition set_next {D} (n : Z) (q : SeqQueue D) : SeqQueue D :=
  {| q_next := n; q_max := q_max q; q_m := q_m q |}.
Definition set_m {D} (m : gmap Z D) (q : SeqQueue D) : SeqQueue D :=
  {| q_next := q_next q; q_max := q_max q; q_m := m |}.
Definition set_max {D} (x : Z) (q : SeqQueue D) : SeqQueue D :=
  {| q_next := q_next q; q_max := x; q_m := q_m q |}.

Definition SetMaxSeq {D} (maxSeq : Z) (q : SeqQueue D) : SeqQueue D * bool :=
  if maxSeq <? q_next q then (set_max (q_next q) q, true) else (set_max maxSeq q, false).

Section Offer.
Context {D St : Type} (handleData : Z → D → St → outcome St).

(** The loop of handleExpectedNext over the chunks that follow. Every iteration takes a chunk
    out of the map: one more than its size is enough ([drain_spec]). *)
Fixpoint drain (fuel : nat) (seq : Z) (q : SeqQueue D) (st : St) : outcome (SeqQueue D * St * Z) :=
  match fuel with
  | O => Diverge
  | S fuel =>
    match q_m q !! seq with
    | None => Ret (q, st, seq)
    | Some v =>
      if negb (q_next q =? seq) then Ret (q, st, seq) else
      let q := set_m (delete seq (q_m q)) (set_next (wrap64 (seq + 1)) q) in
      st ← handleData seq v st;
      drain fuel (wrap64 (seq + 1)) q st
    end
  end.

Definition handleExpectedNext (seq max : Z) (data : D) (q : SeqQueue D) (st : St)
    : outcome (SeqQueue D * St * bool) :=
  if negb (q_next q =? seq) then Ret (q, st, max <? seq) else
  let q := set_next (wrap64 (seq + 1)) q in
  st ← handleData seq data st;
  '(q, st, seq) ← drain (S (size (q_m q))) (wrap64 (seq + 1)) q st;
  Ret (q, st, max <? seq).

Definition Offer (seq : Z) (data : D) (q : SeqQueue D) (st : St) : outcome (SeqQueue D * St * bool) :=
  let next := q_next q in
  let max := q_max q in
  if max <? next then Ret (q, st, true)
  else if seq <? next then Ret (q, st, false)
  else if max <? seq then Ret (q, st, false)
  else if seq =? next then handleExpectedNext next max data q st
  else Ret (set_m (<[seq:=data]> (q_m q)) q, st, false).

(** What the handler preserves, the queue preserves. *)
Lemma drain_preserves (Q : St → Prop) fuel seq q st q' st' seq' :
  (∀ i d st st', Q st → handleData i d st = Ret st' → Q st') →
  drain fuel seq q st = Ret (q', st', seq') → Q st → Q st'.
Proof.
  intros HQ. revert seq q st; induction fuel as [|fuel IH]; intros seq q st; cbn [drain]; [done|].
  destruct (q_m q !! seq) as [v|]; [|by intros [= _ <- _] ].
  destruct (negb _); [by intros [= _ <- _]|].
  destruct (handleData seq v st) as [st1| |] eqn:E; cbn [mbind outcome_bind]; [|done..].
  intros E' Hst. eapply IH; [exact E'|]. by eapply HQ.
Qed.

Lemma Offer_preserves (Q : St → Prop) seq data q st q' st' c :
  (∀ i d st st', Q st → handleData i d st = Ret st' → Q st') →
  Offer seq data q st = Ret (q', st', c) → Q st → Q st'.
Proof.
  intros HQ. unfold Offer, handleExpectedNext.
  destruct (_ <? _); [by intros [= _ <- _]|]. destruct (_ <? _); [by intros [= _ <- _]|].
  destruct (_ <? _); [by intros [= _ <- _]|]. destruct (_ =? _); [|by intros [= _ <- _] ].
  destruct (negb _); [by intros [= _ <- _]|].
  destruct (handleData _ data st) as [st1| |] eqn:E; cbn [mbind outcome_bind]; [|done..].
  destruct (drain _ _ _ _) as [[[??]?]| |] eqn:Ed; cbn [mbind outcome_bind]; [|done..].
  intros [= _ <- _] Hst. eapply drain_preserves; [exact HQ|exact Ed|]. by eapply HQ.
Qed.

End Offer.

(** A handler that follows another one, step by step, is driven by the queue in the same way. *)
Section Simulation.
Context {D A B : Type} (f : Z → D → A → outcome A) (g : Z → D → B → outcome B) (R : A → B → Prop).
Hypothesis Hsim : ∀ i d a b b', R a b → g i d b = Ret b' → ∃ a', f i d a = Ret a' ∧ R a' b'.

Lemma drain_sim fuel seq q a b q' b' seq' : R a b → drain g fuel seq q b = Ret (q', b', seq') →
  ∃ a', drain f fuel seq q a = Ret (q', a', seq') ∧ R a' b'.
Proof.
  revert seq q a b; induction fuel as [|fuel IH]; intros seq q a b HR; cbn [drain]; [done|].
  destruct (q_m q !! seq) as [v|]; [|intros [= <- <- <-]; eauto].
  destruct (negb _); [intros [= <- <- <-]; eauto|].
  destruct (g seq v b) as [b1| |] eqn:E; cbn [mbind outcome_bind]; [|done..].
  destruct (Hsim _ _ _ _ _ HR E) as (a1 & -> & HR1). by apply IH.
Qed.

Lemma Offer_sim seq data q a b q' b' c : R a b → Offer g seq data q b = Ret (q', b', c) →
  ∃ a', Offer f seq data q a = Ret (q', a', c) ∧ R a' b'.
Proof.
  intros HR. unfold Offer, handleExpectedNext.
  destruct (_ <? _); [intros [= <- <- <-]; eauto|]. destruct (_ <? _); [intros [= <- <- <-]; eauto|].
  destruct (_ <? _); [intros [= <- <- <-]; eauto|]. destruct (_ =? _); [|intros [= <- <- <-]; eauto].
  destruct (negb _); [intros [= <- <- <-]; eauto|].
  destruct (g _ data b) as [b1| |] eqn:E; cbn [mbind outcome_bind]; [|done..].
  destruct (Hsim _ _ _ _ _ HR E) as (a1 & -> & HR1). cbn [mbind outcome_bind].
  destruct (drain g _ _ _ _) as [[[q2 b2] s2]| |] eqn:Ed; cbn [mbind outcome_bind]; [|done..].
  destruct (drain_sim _ _ _ _ _ _ _ _ HR1 Ed) as (a2 & -> & HR2). cbn [mbind outcome_bind]. intros [= <- <- <-]. eauto.
Qed.

End Simulation.

(** ** Reassembly

    The chunks of one message, numbered from 0, arriving in any order and with repetitions:
    the receiver announces the last sequence number when the last chunk arrives. *)
Section Reassembly.
Context {D St : Type} (handle : Z → D → St → outcome St) (step : St → nat → D → St).
Context (chunks : list D) (P : St → Prop).
Hypothesis Hhandle : ∀ i d st, P st → chunks !! i = Some d →
  handle (Z.of_nat i) d st = Ret (step st i d) ∧ P (step st i d).
Hypothesis Hbound : Z.of_nat (length chunks) < 2 ^ 64.

Definition arrive (i : nat) (q : SeqQueue D) (st : St) : outcome (SeqQueue D * St * bool) :=
  match chunks !! i with
  | None => Panic "no such chunk"
  | Some d =>
    let q := if (S i =? length chunks)%nat then (SetMaxSeq (Z.of_nat i) q).1 else q in
    Offer handle (Z.of_nat i) d q st
  end.

(** the state the handler builds from the first [n] chunks, in order *)
Fixpoint deliver_from (st : St) (i : nat) (ds : list D) : St :=
  match ds with [] => st | d :: ds => deliver_from (step st i d) (S i) ds end.

Lemma deliver_from_app st i ds1 ds2 :
  deliver_from st i (ds1 ++ ds2) = deliver_from (deliver_from st i ds1) (i + length ds1) ds2.
Proof.
  revert st i; induction ds1 as [|d ds1 IH]; intros st i; cbn; [by rewrite Nat.add_0_r|].
  rewrite IH. f_equal. lia.
Qed.

Lemma take_deliver st0 n d : P st0 → chunks !! n = Some d →
  P (deliver_from st0 0 (take n chunks)) →
  handle (Z.of_nat n) d (deliver_from st0 0 (take n chunks)) = Ret (deliver_from st0 0 (take (S n) chunks)) ∧
  P (deliver_from st0 0 (take (S n) chunks)).
Proof.
  intros _ Hd HP. destruct (Hhandle n d _ HP Hd) as [E HP'].
  assert (deliver_from st0 0 (take (S n) chunks) = step (deliver_from st0 0 (take n chunks)) n d) as ->; [|done].
  rewrite (take_S_r _ _ _ Hd), deliver_from_app, length_take. cbn. f_equal.
  apply lookup_lt_Some in Hd. lia.
Qed.

Lemma deliver_P st0 n : P st0 → (n <= length chunks)%nat → P (deliver_from st0 0 (take n chunks)).
Proof.
  intros H0. induction n as [|n IH]; intros Hn; [done|].
  destruct (lookup_lt_is_Some_2 chunks n) as [d Hd]; [lia|].
  apply (take_deliver st0 n d); [done|done|apply IH; lia].
Qed.

(** [early n seen m]: the map holds exactly the chunks seen from number [n] on. *)
Definition early (n : nat) (seen : list nat) (m : gmap Z D) : Prop :=
  ∀ k d, m !! k = Some d ↔ ∃ j, k = Z.of_nat j ∧ (n <= j)%nat ∧ j ∈ seen ∧ chunks !! j = Some d.

Definition max_of (seen : list nat) : Z :=
  if decide ((length chunks - 1)%nat ∈ seen) then Z.of_nat (length chunks) - 1 else MaxUint64.

Definition inv (seen : list nat) (n : nat) (st0 : St) (q : SeqQueue D) (st : St) : Prop :=
  q_next q = Z.of_nat n ∧ (∀ j, (j < n)%nat → j ∈ seen) ∧ (n ∉ seen) ∧
  early n seen (q_m q) ∧ q_max q = max_of seen ∧
  st = deliver_from st0 0 (take n chunks).

Lemma early_delete n seen m : early n seen m →
  early (S n) seen (delete (Z.of_nat n) m).
Proof.
  intros He k d. rewrite lookup_delete_Some, (He k d). split.
  - intros [Hne (j & -> & Hj & H)]. exists j. split; [done|]. split; [|done].
    destruct (decide (j = n)) as [->|]; [done|lia].
  - intros (j & -> & Hj & H). split; [lia|]. exists j. split; [done|]. split; [lia|done].
Qed.

Lemma drain_spec fuel n seen q st0 : P st0 → (size (q_m q) < fuel)%nat → (n <= length chunks)%nat →
  q_next q = Z.of_nat n → early n seen (q_m q) → (∀ j, j ∈ seen → (j < length chunks)%nat) →
  ∃ n' q', drain handle fuel (Z.of_nat n) q (deliver_from st0 0 (take n chunks)) =
             Ret (q', deliver_from st0 0 (take n' chunks), Z.of_nat n') ∧
    (n <= n')%nat ∧ (n' <= length chunks)%nat ∧ (∀ j, (n <= j < n')%nat → j ∈ seen) ∧ (n' ∉ seen) ∧
    q_next q' = Z.of_nat n' ∧ q_max q' = q_max q ∧ early n' seen (q_m q').
Proof.
  intros HP. revert n q; induction fuel as [|fuel IH]; intros n q Hsz Hn Hnext He Hseen; [lia|]. cbn [drain].
  destruct (q_m q !! Z.of_nat n) as [v|] eqn:Ev.
  - apply He in Ev as Hv. destruct Hv as (j & Hj & _ & Hin & Hc). apply Nat2Z.inj in Hj as <-.
    pose proof (Hseen _ Hin) as Hlt. rewrite Hnext, Z.eqb_refl. cbn [negb].
    rewrite (proj1 (take_deliver st0 n v HP Hc (deliver_P st0 n HP Hn))). cbn [mbind outcome_bind].
    assert (wrap64 (Z.of_nat n + 1) = Z.of_nat (S n)) as ->.
    { unfold wrap64. rewrite Z.mod_small by lia. lia. }
    set (q1 := set_m _ _).
    destruct (IH (S n) q1) as (n' & q' & E & H1 & H2 & H3 & H4 & H5 & H6 & H7); [|lia|done| |done|].
    + cbn. rewrite map_size_delete_Some by eauto.
      assert (size (q_m q) ≠ 0)%nat; [|lia]. intros H. apply map_size_empty_iff in H. by rewrite H in Ev.
    + by apply early_delete.
    + exists n', q'. split; [done|]. split; [lia|]. split; [done|]. split; [|done].
      intros k Hk. destruct (decide (k = n)) as [->|]; [done|]. apply H3. lia.
  - exists n, q. split; [done|]. split; [done|]. split; [done|]. split; [lia|]. split; [|done].
    intros Hin. destruct (lookup_lt_is_Some_2 chunks n (Hseen _ Hin)) as [d Hd].
    assert (q_m q !! Z.of_nat n = Some d); [|congruence]. apply He. exists n. split; [done|]. split; [lia|done].
Qed.

Lemma max_of_ge seen n : (n < length chunks)%nat → Z.of_nat n <= max_of seen.
Proof. unfold max_of, MaxUint64. case_decide; lia. Qed.

Lemma early_insert n seen m i d : early n seen m → chunks !! i = Some d → (n <= i)%nat →
  early n (seen ++ [i]) (<[Z.of_nat i := d]> m).
Proof.
  intros He Hd Hni k e. rewrite lookup_insert_Some, (He k e). split.
  - intros [[<- ->]|[Hne (j & -> & Hj & Hin & Hc)] ].
    + exists i. split; [done|]. split; [done|]. split; [set_solver|done].
    + exists j. split; [done|]. split; [done|]. split; [set_solver|done].
  - intros (j & -> & Hj & Hin & Hc). destruct (decide (j = i)) as [->|Hne].
    + left. split; [done|congruence].
    + right. split; [lia|]. exists j. split; [done|]. split; [done|]. split; [set_solver|done].
Qed.

Lemma early_mono n seen seen' m : (∀ j, (n <= j)%nat → j ∈ seen ↔ j ∈ seen') →
  early n seen m → early n seen' m.
Proof.
  intros Hs He k d. rewrite (He k d). split; intros (j & -> & Hj & Hin & Hc); exists j;
    (split; [done|]; split; [done|]; split; [by apply (Hs j)|done]).
Qed.

(** the announcement of the last sequence number, when the last chunk arrives *)
Definition announce (i : nat) (q : SeqQueue D) : SeqQueue D :=
  if (S i =? length chunks)%nat then (SetMaxSeq (Z.of_nat i) q).1 else q.

Lemma announce_spec seen n st0 q st i : inv seen n st0 q st → (i < length chunks)%nat →
  (n < length chunks)%nat →
  q_next (announce i q) = Z.of_nat n ∧ q_m (announce i q) = q_m q ∧
  q_max (announce i q) = max_of (seen ++ [i]).
Proof.
  intros (Hnext & _ & _ & _ & Hmax & _) Hi Hn. unfold announce, SetMaxSeq.
  destruct (Nat.eqb_spec (S i) (length chunks)) as [Hl|Hl].
  - rewrite Hnext. destruct (Z.ltb_spec (Z.of_nat i) (Z.of_nat n)); [lia|]. cbn.
    split; [done|]. split; [done|]. unfold max_of. rewrite decide_True; [lia|].
    apply elem_of_app. right. apply list_elem_of_singleton. lia.
  - split; [done|]. split; [done|]. rewrite Hmax. unfold max_of.
    destruct (decide (_ ∈ seen)) as [H|H]; [rewrite decide_True by set_solver; done|].
    rewrite decide_False; [done|]. rewrite elem_of_app, list_elem_of_singleton. intros [?|?]; [done|lia].
Qed.

Lemma handle_next_spec seen n st0 q d : P st0 → (n < length chunks)%nat → chunks !! n = Some d →
  q_next q = Z.of_nat n → (∀ j, (j < n)%nat → j ∈ seen) → (∀ j, j ∈ seen → (j < length chunks)%nat) →
  early n seen (q_m q) → (n ∉ seen) → q_max q = max_of (seen ++ [n]) →
  ∃ n' q', handleExpectedNext handle (Z.of_nat n) (max_of (seen ++ [n])) d q
             (deliver_from st0 0 (take n chunks)) =
           Ret (q', deliver_from st0 0 (take n' chunks), bool_decide (n' = length chunks)) ∧
    (n' <= length chunks)%nat ∧ inv (seen ++ [n]) n' st0 q' (deliver_from st0 0 (take n' chunks)).
Proof.
  intros HP Hlt Hd Hnext Hlow Hseen He Hn Hmax.
  unfold handleExpectedNext. rewrite Hnext, Z.eqb_refl. cbn [negb].
  rewrite (proj1 (take_deliver st0 n d HP Hd (deliver_P st0 n HP ltac:(lia)))). cbn [mbind outcome_bind].
  assert (wrap64 (Z.of_nat n + 1) = Z.of_nat (S n)) as ->
    by (unfold wrap64; rewrite Z.mod_small by lia; lia).
  set (q2 := SeqQueue.set_next _ q).
  destruct (drain_spec (S (size (q_m q2))) (S n) (seen ++ [n]) q2 st0)
    as (n' & q' & E & H1 & H2 & H3 & H4 & H5 & H6 & H7); [done|lia|lia|done| |set_solver|].
  { cbn. intros k e. rewrite (He k e).
    split; intros (j & -> & Hj & Hjs & Hc); exists j; (split; [done|]).
    - split; [destruct (decide (j = n)) as [->|]; [done|lia]|]. split; [set_solver|done].
    - split; [lia|]. split; [|done]. apply elem_of_app in Hjs as [?|Hj']; [done|].
      apply list_elem_of_singleton in Hj'. lia. }
  rewrite E. cbn [mbind outcome_bind]. exists n', q'. split; [|split; [done|] ].
  - f_equal. f_equal. apply eq_true_iff_eq. rewrite bool_decide_eq_true, Z.ltb_lt. unfold max_of. split.
    + intros. case_decide; unfold MaxUint64 in *; lia.
    + intros ->. rewrite decide_True; [lia|].
      destruct (decide (n = length chunks - 1)%nat) as [<-|]; [set_solver|]. apply H3. lia.
  - split; [done|]. split; [|split; [done|]; split; [done|]; split; [by rewrite H6|done] ].
    intros j Hj. destruct (decide (j < n)%nat); [apply elem_of_app; left; by apply Hlow|].
    destruct (decide (j = n)) as [->|]; [set_solver|]. apply H3. lia.
Qed.

(** A chunk seen before, or one that comes too early, leaves the position unchanged. *)
Lemma inv_same_position seen n st0 q st i : inv seen n st0 q st → i ≠ n →
  (∀ j, (j < n)%nat → j ∈ seen ++ [i]) ∧ (n ∉ seen ++ [i]).
Proof.
  intros (_ & Hlow & Hn & _) Hne. split; [intros j Hj; apply elem_of_app; left; by apply Hlow|].
  rewrite elem_of_app, list_elem_of_singleton. intros [?|?]; [done|lia].
Qed.

(** One arrival before completion: the invariant is kept and the completion flag is exact. *)
Lemma arrive_spec seen n st0 q st i : P st0 → inv seen n st0 q st → (n < length chunks)%nat →
  (i < length chunks)%nat → (∀ j, j ∈ seen → (j < length chunks)%nat) →
  ∃ n' q', arrive i q st = Ret (q', deliver_from st0 0 (take n' chunks), bool_decide (n' = length chunks)) ∧
    (n' <= length chunks)%nat ∧
    inv (seen ++ [i]) n' st0 q' (deliver_from st0 0 (take n' chunks)).
Proof.
  intros HP Hinv Hlt Hi Hseen. unfold arrive. fold (announce i q).
  destruct (announce_spec seen n st0 q st i Hinv Hi Hlt) as (Hnext1 & Hm1 & Hmax1).
  destruct (lookup_lt_is_Some_2 chunks i Hi) as [d Hd]. rewrite Hd.
  pose proof (inv_same_position seen n st0 q st i Hinv) as Hsame.
  destruct Hinv as (Hnext & Hlow & Hn & He & Hmax & ->).
  set (q1 := announce i q) in *. clearbody q1. unfold Offer. rewrite Hnext1, Hmax1.
  assert (Z.of_nat n <= max_of (seen ++ [i])) as Hnm by by apply max_of_ge.
  assert (Z.of_nat i <= max_of (seen ++ [i])) as Him by by apply max_of_ge.
  destruct (Z.ltb_spec (max_of (seen ++ [i])) (Z.of_nat n)); [lia|].
  destruct (Z.ltb_spec (Z.of_nat i) (Z.of_nat n)) as [Hin|Hin].
  { destruct Hsame as [Hs1 Hs2]; [lia|].
    exists n, q1. rewrite bool_decide_eq_false_2 by lia. split; [done|]. split; [lia|].
    split; [done|]. split; [done|]. split; [done|]. split; [|done]. rewrite Hm1. eapply early_mono; [|exact He].
    intros j Hj. rewrite elem_of_app, list_elem_of_singleton. split; [by left|intros [?|?]; [done|lia] ]. }
  destruct (Z.ltb_spec (max_of (seen ++ [i])) (Z.of_nat i)); [lia|].
  destruct (Z.eqb_spec (Z.of_nat i) (Z.of_nat n)) as [Heq|Heq].
  - apply Nat2Z.inj in Heq as ->. apply handle_next_spec; try done. by rewrite Hm1.
  - destruct Hsame as [Hs1 Hs2]; [lia|]. exists n, (set_m (<[Z.of_nat i:=d]> (q_m q1)) q1).
    rewrite bool_decide_eq_false_2 by lia. split; [done|]. split; [lia|].
    split; [done|]. split; [done|]. split; [done|].
    split; [|done]. cbn. rewrite Hm1. apply early_insert; [done|done|lia].
Qed.

(** ** Any order of arrival *)

Fixpoint arrive_all (order : list nat) (q : SeqQueue D) (st : St) : outcome (SeqQueue D * St * list bool) :=
  match order with
  | [] => Ret (q, st, [])
  | i :: order =>
    '(q, st, complete) ← arrive i q st;
    '(q, st, flags) ← arrive_all order q st;
    Ret (q, st, complete :: flags)
  end.

Definition covers (seen : list nat) : Prop := ∀ j, (j < length chunks)%nat → j ∈ seen.

Lemma inv_covers seen n st0 q st : inv seen n st0 q st → (n <= length chunks)%nat →
  covers seen ↔ n = length chunks.
Proof.
  intros (_ & Hlow & Hn & _) Hle. split; [|intros -> j Hj; by apply Hlow].
  intros Hc. destruct (decide (n = length chunks)); [done|]. destruct Hn. apply Hc. lia.
Qed.

Lemma inv_new st0 : inv [] 0 st0 NewSeqQueue st0.
Proof.
  split; [done|]. split; [lia|]. split; [set_solver|]. split; [|split; [|done] ].
  - intros k d. cbn. rewrite lookup_empty. split; [done|]. intros (j & _ & _ & Hj & _). set_solver.
  - unfold max_of. rewrite decide_False by set_solver. done.
Qed.

(** Until every chunk has been seen, no arrival completes the message. *)
Lemma arrive_all_incomplete order seen n st0 q st : P st0 → inv seen n st0 q st → (n < length chunks)%nat →
  (∀ j, j ∈ seen ++ order → (j < length chunks)%nat) → ¬ covers (seen ++ order) →
  ∃ n' q', arrive_all order q st =
      Ret (q', deliver_from st0 0 (take n' chunks), replicate (length order) false) ∧
    (n' < length chunks)%nat ∧ inv (seen ++ order) n' st0 q' (deliver_from st0 0 (take n' chunks)).
Proof.
  intros HP. revert seen n q st; induction order as [|i order IH]; intros seen n q st Hinv Hn Hbd Hnc.
  { exists n, q. rewrite app_nil_r. pose proof Hinv as (_ & _ & _ & _ & _ & ->). done. }
  destruct (arrive_spec seen n st0 q st i HP Hinv Hn) as (n1 & q1 & E1 & Hle1 & Hinv1);
    [apply Hbd; set_solver|intros j Hj; apply Hbd; set_solver|].
  cbn [arrive_all]. rewrite E1. cbn [mbind outcome_bind].
  assert (seen ++ i :: order = (seen ++ [i]) ++ order) as Eapp by by rewrite <-app_assoc.
  assert (n1 ≠ length chunks) as Hne.
  { intros ->. apply Hnc. intros j Hj. rewrite Eapp. apply elem_of_app. left.
    pose proof Hinv1 as (_ & Hlow & _). by apply Hlow. }
  destruct (IH (seen ++ [i]) n1 q1 _ Hinv1) as (n' & q' & E & Hle & Hinv');
    [lia|by rewrite <-Eapp|by rewrite <-Eapp|].
  rewrite E. cbn [mbind outcome_bind]. exists n', q'. rewrite bool_decide_eq_false_2 by done.
  split; [done|]. split; [done|]. by rewrite Eapp.
Qed.

Lemma arrive_all_app o1 o2 q st : arrive_all (o1 ++ o2) q st =
  '(q, st, f1) ← arrive_all o1 q st; '(q, st, f2) ← arrive_all o2 q st; Ret (q, st, f1 ++ f2).
Proof.
  revert q st; induction o1 as [|i o1 IH]; intros q st; cbn.
  { by destruct (arrive_all o2 q st) as [[[??]?]| |]. }
  destruct (arrive i q st) as [[[??]?]| |]; cbn; [|done..]. rewrite IH.
  destruct (arrive_all o1 _ _) as [[[??]?]| |]; cbn; [|done..].
  by destruct (arrive_all o2 _ _) as [[[??]?]| |].
Qed.

Lemma reassembly_spec order i st0 : P st0 → (0 < length chunks)%nat →
  (∀ j, j ∈ order ++ [i] → (j < length chunks)%nat) → ¬ covers order → covers (order ++ [i]) →
  ∃ q, arrive_all (order ++ [i]) NewSeqQueue st0 =
    Ret (q, deliver_from st0 0 chunks, replicate (length order) false ++ [true]).
Proof.
  intros HP Hpos Hbd Hnc Hc.
  destruct (arrive_all_incomplete order [] 0 st0 _ _ HP (inv_new st0) Hpos) as (n & q & E & Hlt & Hinv);
    [intros j Hj; apply Hbd; set_solver|done|].
  rewrite arrive_all_app, E. cbn [mbind outcome_bind arrive_all].
  destruct (arrive_spec order n st0 q _ i HP Hinv Hlt) as (n' & q' & E' & Hle & Hinv');
    [apply Hbd; set_solver|intros j Hj; apply Hbd; set_solver|].
  rewrite E'. cbn [mbind outcome_bind]. exists q'.
  apply (inv_covers _ _ _ _ _ Hinv') in Hc as ->; [|done]. rewrite take_ge by done.
  by rewrite bool_decide_eq_true_2.
Qed.

End Reassembly.

(** ** In order, exactly once *)

(** the handler that collects what it is given *)
Definition collect {D} (seq : Z) (d : D) (out : list (Z * D)) : outcome (list (Z * D)) :=
  Ret (out ++ [(seq, d)]).

Lemma deliver_collect {D} (chunks : list D) i out :
  deliver_from (λ out i d, out ++ [(Z.of_nat i, d)]) out i chunks =
  out ++ imap (λ k d, (Z.of_nat (i + k), d)) chunks.
Proof.
  revert i out; induction chunks as [|d chunks IH]; intros i out; cbn; [by rewrite app_nil_r|].
  rewrite IH, <-app_assoc. cbn. rewrite Nat.add_0_r. do 2 f_equal.
  apply imap_ext. intros k x _. cbn. do 2 f_equal. lia.
Qed.

(** C3: the queue puts the chunks of a message back in order: whatever the order in which the
    chunks arrive and however often each is repeated, the handler is given every chunk exactly
    once, in the order of the sequence numbers, and Offer reports completion exactly on the
    arrival that makes the message complete. *)
Theorem delivers_in_order_once {D} (chunks : list D) (order : list nat) (i : nat)
    (Hpos : (0 < length chunks)%nat) (Hbound : Z.of_nat (length chunks) < 2 ^ 64)
    (Hin : ∀ j, j ∈ order ++ [i] → (j < length chunks)%nat)
    (Hnot : ¬ covers chunks order) (Hall : covers chunks (order ++ [i])) :
  ∃ q, arrive_all collect chunks (order ++ [i]) NewSeqQueue [] =
    Ret (q, imap (λ k d, (Z.of_nat k, d)) chunks, replicate (length order) false ++ [true]).
Proof.
  destruct (reassembly_spec collect (λ out i d, out ++ [(Z.of_nat i, d)]) chunks (λ _, True))
    with (order := order) (i := i) (st0 := @nil (Z * D)) as [q E]; try done.
  exists q. rewrite E, deliver_collect. done.
Qed.

Lemma delivers_in_order_once_witness :
  ∃ q, arrive_all collect ["a"; "b"; "c"] ([2; 0; 2; 0]%nat ++ [1%nat]) NewSeqQueue [] =
    Ret (q, imap (λ k d, (Z.of_nat k, d)) ["a"; "b"; "c"], replicate 4 false ++ [true]).
Proof.
  apply (delivers_in_order_once ["a"; "b"; "c"] [2; 0; 2; 0]%nat 1).
  - cbn. lia.
  - done.
  - intros j Hj. cbn in *. set_unfold. lia.
  - intros H. specialize (H 1%nat ltac:(cbn; lia)). set_unfold. lia.
  - intros [|[|[|j] ] ] Hj; cbn in *; [set_solver..|lia].
Defined.
