(* ===== verification/Session.v ===== *)
(** * Message sessions: pkg/virtualnode/connectivity/session_manager.go

    A session carries the answer of the device to one command: control messages go to the
    channel of the session, stream data to the writers of the session. [Session] models one
    session, [SessionManager] the table of sessions. Sections guarded by [doExclusive] are
    atomic; a channel operation that has to wait for another goroutine is [Diverge]. *)
From S2P Require Import Prelude SeqQueue.
Open Scope Z_scope.

(** ** Messages: the Msg type of the protocol *)

Definition MSG_DATA : Z := 0.
Definition MSG_DATA_STDERR : Z := 1.
Definition MSG_ERROR : Z := 7.
Definition ERR_COMMON : Z := 0.
Definition ERR_TIMEOUT : Z := 4.

Record Msg := { m_Kind : Z; m_Sid : Z; m_Seq : Z; m_Complete : bool; m_Payload : list Z }.

Definition is_data_kind (kind : Z) : bool := (kind =? MSG_DATA) || (kind =? MSG_DATA_STDERR).

(** [data]: a chunk kept for reassembly *)
Record data := { d_kind : Z; d_payload : list Z }.

Definition ErrNotSupported : string := "not supported".

(** an io.Writer: ioutil.Discard, or a writer of the caller *)
Inductive Writer := Discard | Wr (id : nat).

Module Session.

(** The writers and the channels of the callers are outside of the session: [W] is their state,
    [write] is Write of a writer (bytes written, error), [chan_ready] tells whether a receive
    from a channel returns. [marshal_err] is the encoding of an ErrorMsg. *)
Section Session.
Context {W : Type} (write : nat → list Z → W → W * Z * option string)
  (chan_ready : nat → W → bool) (marshal_err : Z → string → list Z).

(** [s_chan] and [s_chan_closed] are the contents of the channel made for the session, [s_msgCh]
    tells whether the field still refers to it. [s_streamReady] is the channel that signals the
    first data (its content: whether it is closed). [msgBuffer] is a byte buffer. *)
Record session := {
  s_epoch : Z;
  s_chan : list Msg; s_chan_closed : bool; s_msgCh : bool;
  s_msgBuffer : option (list Z); s_seqQ : option (SeqQueue data);
  s_dataOut : option Writer; s_errOut : option Writer;
  s_streamReady : option bool; s__streamReady : bool; s_canWrite : option nat;
  s__closed : bool; s_isStream : bool; s_prependSize : bool
}.

Definition newSession (epoch : Z) (isStream keepPacket : bool) : session :=
  {| s_epoch := epoch; s_chan := []; s_chan_closed := false; s_msgCh := true;
     s_msgBuffer := None; s_seqQ := None; s_dataOut := None; s_errOut := None;
     s_streamReady := None; s__streamReady := false; s_canWrite := None;
     s__closed := false; s_isStream := isStream; s_prependSize := keepPacket |}.

Definition set_chan (c : list Msg) (s : session) : session :=
  {| s_epoch := s_epoch s; s_chan := c; s_chan_closed := s_chan_closed s; s_msgCh := s_msgCh s;
     s_msgBuffer := s_msgBuffer s; s_seqQ := s_seqQ s; s_dataOut := s_dataOut s; s_errOut := s_errOut s;
     s_streamReady := s_streamReady s; s__streamReady := s__streamReady s; s_canWrite := s_canWrite s;
     s__closed := s__closed s; s_isStream := s_isStream s; s_prependSize := s_prependSize s |}.
Definition set_buffer (b : option (list Z)) (q : option (SeqQueue data)) (s : session) : session :=
  {| s_epoch := s_epoch s; s_chan := s_chan s; s_chan_closed := s_chan_closed s; s_msgCh := s_msgCh s;
     s_msgBuffer := b; s_seqQ := q; s_dataOut := s_dataOut s; s_errOut := s_errOut s;
     s_streamReady := s_streamReady s; s__streamReady := s__streamReady s; s_canWrite := s_canWrite s;
     s__closed := s__closed s; s_isStream := s_isStream s; s_prependSize := s_prependSize s |}.
Definition set_ready (r : option bool) (f : bool) (s : session) : session :=
  {| s_epoch := s_epoch s; s_chan := s_chan s; s_chan_closed := s_chan_closed s; s_msgCh := s_msgCh s;
     s_msgBuffer := s_msgBuffer s; s_seqQ := s_seqQ s; s_dataOut := s_dataOut s; s_errOut := s_errOut s;
     s_streamReady := r; s__streamReady := f; s_canWrite := s_canWrite s;
     s__closed := s__closed s; s_isStream := s_isStream s; s_prependSize := s_prependSize s |}.

Definition setStream (dataOut errOut : option Writer) (canWrite : option nat) (s : session)
    : session * bool :=
  if s_streamReady s is Some _ then (s, false) else
  let dataOut := default Discard dataOut in
  let errOut := default dataOut errOut in
  ({| s_epoch := s_epoch s; s_chan := s_chan s; s_chan_closed := s_chan_closed s; s_msgCh := s_msgCh s;
      s_msgBuffer := s_msgBuffer s; s_seqQ := s_seqQ s;
      s_dataOut := Some dataOut; s_errOut := Some errOut;
      s_streamReady := Some false; s__streamReady := false; s_canWrite := canWrite;
      s__closed := s__closed s; s_isStream := s_isStream s; s_prependSize := s_prependSize s |}, true).

(** the session's own send: select on _closed and on the channel, of capacity 1 *)
Definition send_or_closed (m : Msg) (s : session) : outcome session :=
  if s__closed s then Ret s
  else if negb (s_msgCh s) then Diverge
  else if s_chan_closed s then Panic "send on closed channel"
  else if (length (s_chan s) <? 1)%nat then Ret (set_chan (s_chan s ++ [m]) s) else Diverge.

Definition error_msg (kind : Z) (description : string) (sid : Z) : Msg :=
  {| m_Kind := MSG_ERROR; m_Sid := sid; m_Seq := 0; m_Complete := true;
     m_Payload := marshal_err kind description |}.

Definition target_write (target : option Writer) (bs : list Z) (w : W) : outcome (W * Z * option string) :=
  match target with
  | None => Panic "nil pointer dereference"
  | Some Discard => Ret (w, Z.of_nat (length bs), None)
  | Some (Wr id) => Ret (write id bs w)
  end.

(** binary.PutUvarint *)
Fixpoint uvarint (fuel : nat) (x : Z) : list Z :=
  match fuel with
  | O => []
  | S fuel => if x <? 128 then [x] else (x mod 128 + 128) :: uvarint fuel (x / 128)
  end.

(** for sum != size: a writer that writes nothing and reports no error would be called for ever *)
Fixpoint write_all (fuel : nat) (target : option Writer) (bs : list Z) (w : W)
    : outcome (W * option string) :=
  if decide (bs = []) then Ret (w, None) else
  match fuel with
  | O => Diverge
  | S fuel =>
    '(w, n, err) ← target_write target bs w;
    match err with
    | Some e => Ret (w, Some e)
    | None => if (n <? 0) || (Z.of_nat (length bs) <? n) then Panic "slice bounds out of range"
              else write_all fuel target (drop (Z.to_nat n) bs) w
    end
  end.

(** writeToStream after the signal of the first data *)
Definition write_ready (kind : Z) (bs : list Z) (s : session) (w : W) : outcome (session * W * option string) :=
  let can := match s_canWrite s with None => true | Some c => chan_ready c w end in
  if negb can then (if s__closed s then Ret (s, w, None) else Diverge) else
  let target := if kind =? MSG_DATA_STDERR then s_errOut s else s_dataOut s in
  '(w, err) ← (if s_prependSize s
               then '(w, _, err) ← target_write target (uvarint 10 (Z.of_nat (length bs))) w; Ret (w, err)
               else Ret (w, None));
  match err with
  | Some e => Ret (s, w, Some e)
  | None => '(w, err) ← write_all (length bs) target bs w; Ret (s, w, err)
  end.

Definition writeToStream (kind : Z) (bs : list Z) (s : session) (w : W)
    : outcome (session * W * option string) :=
  if negb (s_isStream s) then Ret (s, w, Some ErrNotSupported)
  else if s__streamReady s then write_ready kind bs s w
  else match s_streamReady s with
       | Some true => Ret (set_ready (Some true) true s, w, Some ErrNotSupported)
       | Some false => write_ready kind bs (set_ready (Some true) true s) w
       | None => Panic "close of nil channel"
       end.

Definition close (s : session) : session :=
  if s__closed s then s else
  {| s_epoch := s_epoch s; s_chan := s_chan s;
     s_chan_closed := s_chan_closed s || s_msgCh s; s_msgCh := false;
     s_msgBuffer := None; s_seqQ := None; s_dataOut := None; s_errOut := None;
     s_streamReady := if s__streamReady s then s_streamReady s
                      else match s_streamReady s with Some _ => Some true | None => None end;
     s__streamReady := true; s_canWrite := s_canWrite s;
     s__closed := true; s_isStream := s_isStream s; s_prependSize := s_prependSize s |}.

(** the write of stream data, an error of which is reported in the channel *)
Definition stream_data (sid kind : Z) (payload : list Z) (s : session) (w : W) : outcome (session * W) :=
  '(s, w, err) ← writeToStream kind payload s w;
  match err with
  | None => Ret (s, w)
  | Some e => s ← send_or_closed (error_msg ERR_COMMON e sid) s; Ret (s, w)
  end.

(** the handler of the sequence queue *)
Definition handle_chunk (sid : Z) (seq : Z) (d : data) (st : session * W) : outcome (session * W) :=
  let '(s, w) := st in
  if is_data_kind (d_kind d) then stream_data sid (d_kind d) (d_payload d) s w
  else match s_msgBuffer s with
       | None => Panic "nil pointer dereference"
       | Some b => Ret (set_buffer (Some (b ++ d_payload d)) (s_seqQ s) s, w)
       end.

(** what is left after the last chunk: the reassembled message is sent from the buffer *)
Definition flush (m : Msg) (s : session) : outcome session :=
  match s_msgBuffer s with
  | None => Ret s
  | Some b =>
    if negb (s_msgCh s) then Diverge
    else if s_chan_closed s then Panic "send on closed channel"
    else if (length (s_chan s) <? 1)%nat
    then Ret (set_chan (s_chan s ++ [ {| m_Kind := m_Kind m; m_Sid := m_Sid m; m_Seq := 0;
                                          m_Complete := true; m_Payload := b |} ]) s)
    else Diverge
  end.

(** the buffer and the queue are made when the first chunk arrives *)
Definition prepare (s : session) : session :=
  set_buffer (Some (default [] (s_msgBuffer s))) (Some (default NewSeqQueue (s_seqQ s))) s.

(** (delivered, complete). All messages of a session carry its session id. *)
Definition deliverMsg (m : Msg) (s : session) (w : W) : outcome (session * W * bool * bool) :=
  if s__closed s then Ret (s, w, false, true)
  else if (m_Seq m =? 0) && m_Complete m then
    '(s, w) ← (if is_data_kind (m_Kind m) then stream_data (m_Sid m) (m_Kind m) (m_Payload m) s w
               else s ← send_or_closed m s; Ret (s, w));
    Ret (close s, w, true, true)
  else
    let s := prepare s in
    match s_seqQ s with
    | None => Panic "nil pointer dereference"
    | Some q =>
      let q := if m_Complete m then (SetMaxSeq (m_Seq m) q).1 else q in
      (* the handler does not refer to the queue: it runs with the field taken out *)
      '(q, (s, w), complete) ←
        Offer (handle_chunk (m_Sid m)) (m_Seq m) {| d_kind := m_Kind m; d_payload := m_Payload m |} q
              (set_buffer (s_msgBuffer s) None s, w);
      let s := set_buffer (s_msgBuffer s) (Some q) s in
      if negb (complete : bool) then Ret (s, w, true, false)
      else s ← flush m (close s); Ret (s, w, true, true)
    end.

(** ** Messages of several chunks *)

Fixpoint deliver_all (ms : list Msg) (s : session) (w : W) : outcome (session * W * list (bool * bool)) :=
  match ms with
  | [] => Ret (s, w, [])
  | m :: ms =>
    '(s, w, delivered, complete) ← deliverMsg m s w;
    '(s, w, flags) ← deliver_all ms s w;
    Ret (s, w, (delivered, complete) :: flags)
  end.

(** the chunk number [i] of a message of kind [kind] cut in [chunks] *)
Definition chunk_msg (kind sid : Z) (chunks : list (list Z)) (i : nat) : Msg :=
  {| m_Kind := kind; m_Sid := sid; m_Seq := Z.of_nat i; m_Complete := (S i =? length chunks)%nat;
     m_Payload := default [] (chunks !! i) |}.
Definition chunk_data (kind : Z) (c : list Z) : data := {| d_kind := kind; d_payload := c |}.

(** a session that waits for chunks: open, its queue apart *)
Definition open_core (s : session) : Prop :=
  s__closed s = false ∧ s_seqQ s = None ∧ is_Some (s_msgBuffer s).
Definition waiting (s : session) (q : SeqQueue data) : session := set_buffer (s_msgBuffer s) (Some q) s.

Lemma send_or_closed_core m s s' : send_or_closed m s = Ret s' → open_core s → open_core s'.
Proof.
  unfold send_or_closed, open_core. intros E (Hc & Hq & Hb). rewrite Hc in E.
  destruct (negb _); [done|]. destruct (s_chan_closed s); [done|]. destruct (_ <? _)%nat; [|done].
  injection E as <-. done.
Qed.

Lemma write_ready_same kind bs s w s' w' e : write_ready kind bs s w = Ret (s', w', e) → s' = s.
Proof.
  unfold write_ready. cbv zeta.
  destruct (negb _); [destruct (s__closed s); [by intros [= <- _ _]|done]|].
  destruct (if s_prependSize s then _ else _) as [[w1 [err|]]| |]; cbn [mbind outcome_bind]; [|  |done..].
  - by intros [= <- _ _].
  - destruct (write_all _ _ _ _) as [[w2 err]| |]; cbn [mbind outcome_bind]; [|done..]. by intros [= <- _ _].
Qed.

Lemma writeToStream_core kind bs s w s' w' e :
  writeToStream kind bs s w = Ret (s', w', e) → open_core s → open_core s'.
Proof.
  unfold writeToStream. destruct (negb (s_isStream s)); [by intros [= <- _ _]|].
  destruct (s__streamReady s); [by intros ->%write_ready_same|].
  destruct (s_streamReady s) as [[|]|]; [|by intros ->%write_ready_same|done].
  by intros [= <- _ _].
Qed.

Lemma handle_chunk_core sid i d st st' :
  open_core st.1 → handle_chunk sid i d st = Ret st' → open_core st'.1.
Proof.
  destruct st as [s w]. cbn [fst]. intros Hs. unfold handle_chunk. destruct (is_data_kind _).
  - unfold stream_data. destruct (writeToStream _ _ _ _) as [[[s1 w1] [e|]]| |] eqn:E;
      cbn [mbind outcome_bind]; [| |done..].
    + destruct (send_or_closed _ _) as [s2| |] eqn:E2; cbn [mbind outcome_bind]; [|done..].
      intros [= <-]. apply (send_or_closed_core _ _ _ E2). by eapply writeToStream_core.
    + intros [= <-]. by eapply writeToStream_core.
  - destruct (s_msgBuffer s) as [b|] eqn:Eb; [|done]. intros [= <-]. destruct Hs as (Hc & Hq & _).
    cbn. split; [done|]. split; [done|]. by eexists.
Qed.

Section Chunks.
Context (kind sid : Z) (chunks : list (list Z)).
Hypothesis Hmany : (1 < length chunks)%nat.

Abbreviation arrive' := (arrive (handle_chunk sid) (chunk_data kind <$> chunks)).
Abbreviation arrive_all' := (arrive_all (handle_chunk sid) (chunk_data kind <$> chunks)).
Abbreviation msg := (chunk_msg kind sid chunks).

Lemma deliver_chunk i s w q q' s' w' c : open_core s → (i < length chunks)%nat →
  arrive' i q (s, w) = Ret (q', (s', w'), c) →
  open_core s' ∧
  deliverMsg (msg i) (waiting s q) w =
    if negb c then Ret (waiting s' q', w', true, false) else Ret (close (waiting s' q'), w', true, true).
Proof.
  intros Hs Hi. destruct (lookup_lt_is_Some_2 chunks i Hi) as [d Hd].
  unfold arrive. rewrite list_lookup_fmap, Hd, length_fmap. cbn [fmap option_fmap option_map].
  intros E. pose proof (Offer_preserves _ (λ st, open_core st.1) _ _ _ _ _ _ _ (handle_chunk_core sid) E Hs) as Hs'.
  split; [exact Hs'|]. unfold deliverMsg. destruct Hs as (Hc & Hq & b & Hb).
  change (s__closed (waiting s q)) with (s__closed s). rewrite Hc.
  replace ((m_Seq (msg i) =? 0) && m_Complete (msg i)) with false.
  2:{ symmetry. apply andb_false_iff. cbn [m_Seq m_Complete chunk_msg].
      destruct (Z.eqb_spec (Z.of_nat i) 0); [right|by left]. apply Nat.eqb_neq. lia. }
  assert (prepare (waiting s q) = waiting s q) as ->.
  { unfold prepare, waiting. cbn. by rewrite Hb. }
  cbn [s_seqQ waiting set_buffer]. cbn [m_Kind m_Sid m_Seq m_Complete m_Payload chunk_msg].
  assert (set_buffer (s_msgBuffer (waiting s q)) None (waiting s q) = s) as ->.
  { unfold waiting. cbn. destruct s. cbn in *. by subst. }
  unfold chunk_data in E. rewrite Hd. cbn [from_option id]. rewrite E. cbn [mbind outcome_bind].
  fold (waiting s' q'). destruct c; cbn [negb]; [|done].
  destruct Hs' as (Hc' & _). cbn in Hc'. unfold flush, close.
  change (s__closed (waiting s' q')) with (s__closed s'). rewrite Hc'. done.
Qed.

Lemma deliver_all_waiting order s w q q' s' w' : open_core s → (∀ i, i ∈ order → (i < length chunks)%nat) →
  arrive_all' order q (s, w) = Ret (q', (s', w'), replicate (length order) false) →
  open_core s' ∧ deliver_all (msg <$> order) (waiting s q) w =
    Ret (waiting s' q', w', replicate (length order) (true, false)).
Proof.
  revert s w q; induction order as [|i order IH]; intros s w q Hs Hin; cbn [arrive_all].
  { intros [= <- <- <-]. done. }
  destruct (arrive' i q (s, w)) as [[[q1 [s1 w1]] c]| |] eqn:E; cbn [mbind outcome_bind]; [|done..].
  destruct (arrive_all' order q1 (s1, w1)) as [[[q2 st2] flags]| |] eqn:E2; cbn [mbind outcome_bind]; [|done..].
  intros [= -> -> -> ->]. destruct (deliver_chunk i s w q q1 s1 w1 false Hs) as [Hs1 Hd]; [set_solver|done|].
  destruct (IH s1 w1 q1 Hs1) as [Hs' Hd']; [set_solver|done|]. split; [done|].
  cbn [fmap list_fmap deliver_all]. rewrite Hd. cbn [negb mbind outcome_bind].
  change ((λ x, msg x) <$> order) with (msg <$> order). rewrite Hd'. done.
Qed.

Lemma deliver_all_app ms1 ms2 s w : deliver_all (ms1 ++ ms2) s w =
  '(s, w, f1) ← deliver_all ms1 s w; '(s, w, f2) ← deliver_all ms2 s w; Ret (s, w, f1 ++ f2).
Proof.
  revert s w; induction ms1 as [|m ms1 IH]; intros s w; cbn.
  { by destruct (deliver_all ms2 s w) as [[[??]?]| |]. }
  destruct (deliverMsg m s w) as [[[[??]?]?]| |]; cbn; [|done..]. rewrite IH.
  destruct (deliver_all ms1 _ _) as [[[??]?]| |]; cbn; [|done..].
  by destruct (deliver_all ms2 _ _) as [[[??]?]| |].
Qed.

(** A whole message, from the reassembly by the queue. *)
Lemma deliver_message order i s w q' s' w' : open_core s →
  (∀ j, j ∈ order ++ [i] → (j < length chunks)%nat) →
  arrive_all' (order ++ [i]) NewSeqQueue (s, w) = Ret (q', (s', w'), replicate (length order) false ++ [true]) →
  open_core s' ∧ deliver_all (msg <$> order ++ [i]) (waiting s NewSeqQueue) w =
    Ret (close (waiting s' q'), w', replicate (length order) (true, false) ++ [(true, true)]).
Proof.
  intros Hs Hin. rewrite arrive_all_app.
  destruct (arrive_all' order NewSeqQueue (s, w)) as [[[q1 [s1 w1]] flags]| |] eqn:E; cbn [mbind outcome_bind]; [|done..].
  cbn [arrive_all]. destruct (arrive' i q1 (s1, w1)) as [[[q2 [s2 w2]] c]| |] eqn:E2; cbn [mbind outcome_bind]; [|done..].
  intros H. injection H as -> -> -> Hf. apply app_inj_tail in Hf as [-> ->].
  destruct (deliver_all_waiting order s w NewSeqQueue q1 s1 w1 Hs) as [Hs1 Hd]; [set_solver|done|].
  destruct (deliver_chunk i s1 w1 q1 q' s' w' true Hs1) as [Hs2 Hd2]; [set_solver|done|].
  split; [done|]. rewrite fmap_app, deliver_all_app, Hd. cbn [mbind outcome_bind fmap list_fmap deliver_all].
  by rewrite Hd2.
Qed.

End Chunks.

(** ** What reaches the caller *)

Lemma not_covers_fmap kind chunks order : ¬ covers chunks order → ¬ covers (chunk_data kind <$> chunks) order.
Proof. unfold covers. by rewrite length_fmap. Qed.
Lemma covers_fmap kind chunks order : covers chunks order → covers (chunk_data kind <$> chunks) order.
Proof. unfold covers. by rewrite length_fmap. Qed.

(** [arrives chunks order i]: the arrival of [i] completes the message of the chunks, and no
    earlier one of [order] does. *)
Definition arrives (chunks : list (list Z)) (order : list nat) (i : nat) : Prop :=
  (1 < length chunks)%nat ∧ Z.of_nat (length chunks) < 2 ^ 64 ∧
  (∀ j, j ∈ order ++ [i] → (j < length chunks)%nat) ∧ ¬ covers chunks order ∧ covers chunks (order ++ [i]).

(** the flags of the messages: all delivered, complete at the last *)
Definition flags_of (order : list nat) : list (bool * bool) :=
  replicate (length order) (true, false) ++ [(true, true)].

Lemma deliver_first kind sid chunks order i s w : (1 < length chunks)%nat → s__closed s = false →
  (∀ j, j ∈ order ++ [i] → (j < length chunks)%nat) →
  deliver_all (chunk_msg kind sid chunks <$> order ++ [i]) s w =
  deliver_all (chunk_msg kind sid chunks <$> order ++ [i]) (prepare s) w.
Proof.
  intros Hmany Hc Hin. assert (∃ j l, order ++ [i] = j :: l) as (j & l & E).
  { destruct order; cbn; eauto. }
  rewrite E in *. cbn [fmap list_fmap deliver_all]. f_equal. unfold deliverMsg.
  change (s__closed (prepare s)) with (s__closed s). rewrite Hc.
  replace ((m_Seq (chunk_msg kind sid chunks j) =? 0) && m_Complete (chunk_msg kind sid chunks j)) with false.
  2:{ symmetry. apply andb_false_iff. cbn [m_Seq m_Complete chunk_msg].
      destruct (Z.eqb_spec (Z.of_nat j) 0); [right|by left]. apply Nat.eqb_neq. lia. }
  done.
Qed.

Section Stream.
(** the documented contract of a writer that takes everything it is given *)
Context (out : nat → list Z → W → W).
Hypothesis Hwrite : ∀ id bs w, write id bs w = (out id bs w, Z.of_nat (length bs), None).

Definition emit (id : nat) (bs : list Z) (w : W) : W := if decide (bs = []) then w else out id bs w.

Definition streaming (id : nat) (s : session) : Prop :=
  open_core s ∧ s_isStream s = true ∧ s_prependSize s = false ∧ s_canWrite s = None ∧
  s_dataOut s = Some (Wr id) ∧
  (s_streamReady s = Some false ∧ s__streamReady s = false ∨ s_streamReady s = Some true ∧ s__streamReady s = true).

Definition stream_step (id : nat) (st : session * W) (i : nat) (d : data) : session * W :=
  (set_ready (Some true) true st.1, emit id (d_payload d) st.2).

Lemma stream_handle id sid i c st : streaming id st.1 →
  handle_chunk sid i (chunk_data MSG_DATA c) st = Ret (stream_step id st 0 (chunk_data MSG_DATA c)) ∧
  streaming id (stream_step id st 0 (chunk_data MSG_DATA c)).1.
Proof.
  destruct st as [s w]. intros (Ho & Hst & Hp & Hcw & Hd & Hr). cbn [fst snd] in *. split.
  - unfold handle_chunk, stream_data, writeToStream. cbn [chunk_data d_kind d_payload is_data_kind MSG_DATA Z.eqb orb].
    rewrite Hst. cbn [negb].
    assert (write_ready MSG_DATA c (set_ready (Some true) true s) w =
      Ret (set_ready (Some true) true s, emit id c w, None)) as Hwr.
    { unfold write_ready. cbn. rewrite Hcw, Hp, Hd. cbn. unfold emit. destruct c as [|b c]; [done|].
      cbn [write_all length]. rewrite decide_False by done. cbn [target_write]. rewrite Hwrite.
      cbn [mbind outcome_bind].
      destruct (Z.ltb_spec (Z.of_nat (S (length c))) 0) as [?|_]; [lia|].
      rewrite Z.ltb_irrefl. cbn [orb]. rewrite Nat2Z.id, drop_all. cbn. by destruct (length c). }
    destruct Hr as [[Hr1 Hr2]|[Hr1 Hr2] ]; rewrite Hr2, ?Hr1.
    + by rewrite Hwr.
    + assert (s = set_ready (Some true) true s) as Es by (destruct s; cbn in *; by subst).
      rewrite Es at 1. by rewrite Hwr.
  - split; [done|]. cbn. split; [done|]. split; [done|]. split; [done|]. split; [done|]. by right.
Qed.

Lemma deliver_stream id chunks s w i :
  deliver_from (stream_step id) (s, w) i (chunk_data MSG_DATA <$> chunks) =
  (match chunks with [] => s | _ => set_ready (Some true) true s end,
   foldl (λ w c, emit id c w) w chunks).
Proof.
  revert s w i; induction chunks as [|c chunks IH]; intros s w i; [done|].
  cbn [fmap list_fmap deliver_from]. unfold stream_step at 2. cbn [fst snd]. rewrite IH. cbn [foldl].
  by destruct chunks.
Qed.

(** the session of a command that was given the writer [id] for its output *)
Definition stream_session (epoch : Z) (id : nat) : session :=
  (setStream (Some (Wr id)) None None (newSession epoch true false)).1.

(** Stream data reaches the writer in order: whatever the order in which the chunks of a
    stream arrive at the session, and however often each is repeated, the payloads are written
    to the writer exactly once each, in sequence order; the session reports completion exactly
    on the arrival that completes the stream, and is then closed with nothing left in its
    message channel. *)
Lemma stream_in_order (epoch sid : Z) (id : nat) (chunks : list (list Z)) (order : list nat) (i : nat)
    (w : W) (Harr : arrives chunks order i) :
  ∃ s, deliver_all (chunk_msg MSG_DATA sid chunks <$> order ++ [i]) (stream_session epoch id) w =
         Ret (s, foldl (λ w c, emit id c w) w chunks, flags_of order) ∧
    s__closed s = true ∧ s_chan s = [] ∧ s_chan_closed s = true.
Proof.
  destruct Harr as (Hmany & Hbound & Hin & Hnc & Hc).
  set (s0 := set_buffer (Some []) None (stream_session epoch id)).
  rewrite deliver_first by done.
  change (prepare (stream_session epoch id)) with (waiting s0 NewSeqQueue).
  destruct (reassembly_spec (handle_chunk sid) (stream_step id) (chunk_data MSG_DATA <$> chunks)
    (λ st, streaming id st.1)) with (order := order) (i := i) (st0 := (s0, w)) as [q E];
    try (rewrite ?length_fmap; done || lia).
  - intros k d st Hst Hd. apply list_lookup_fmap_Some in Hd as (c & -> & _). by apply stream_handle.
  - split; [split; [done|]; split; [done|]; by eexists|]. cbn. repeat (split; [done|]). by left.
  - by apply not_covers_fmap.
  - by apply covers_fmap.
  - rewrite deliver_stream in E. destruct chunks as [|c0 chunks]; [cbn in Hmany; lia|].
    destruct (deliver_message MSG_DATA sid (c0 :: chunks) Hmany order i s0 w _ _ _
      ltac:(split; [done|]; split; [done|]; by eexists) Hin E) as [_ Ed].
    rewrite Ed. eexists. split; [done|]. done.
Qed.

End Stream.

(** ** Messages that are not stream data *)

Definition message_step (st : session * W) (i : nat) (d : data) : session * W :=
  (set_buffer (Some (default [] (s_msgBuffer st.1) ++ d_payload d)) None st.1, st.2).

Lemma message_handle kind sid i c st : is_data_kind kind = false → open_core st.1 →
  handle_chunk sid i (chunk_data kind c) st = Ret (message_step st 0 (chunk_data kind c)) ∧
  open_core (message_step st 0 (chunk_data kind c)).1.
Proof.
  destruct st as [s w]. intros Hk (Hc & Hq & b & Hb). cbn [fst snd] in *. split.
  - unfold handle_chunk. cbn [chunk_data d_kind d_payload]. rewrite Hk, Hb, Hq. unfold message_step. cbn. by rewrite Hb.
  - split; [done|]. split; [done|]. by eexists.
Qed.

Lemma deliver_buffer kind chunks s w i b : s_msgBuffer s = Some b → s_seqQ s = None →
  deliver_from message_step (s, w) i (chunk_data kind <$> chunks) =
  (set_buffer (Some (b ++ concat chunks)) None s, w).
Proof.
  revert s w i b; induction chunks as [|c chunks IH]; intros s w i b Hb Hq; cbn [fmap list_fmap deliver_from concat].
  { rewrite app_nil_r. f_equal. destruct s; cbn in *; by subst. }
  unfold message_step at 2. cbn [fst snd chunk_data d_payload]. rewrite Hb.
  cbn [from_option id]. rewrite (IH _ w (S i) (b ++ c)); [|done..]. by rewrite <-app_assoc.
Qed.

(** A message of several chunks that is not stream data never reaches the caller: when its last
    chunk arrives the session is reported complete and closed, but the reassembled message has been
    discarded with the buffer before it is sent, so the channel is closed empty. *)
Lemma multi_chunk_message_lost (s : session) (kind sid : Z) (chunks : list (list Z)) (order : list nat)
    (i : nat) (w : W) (Hnew : ∃ epoch stream keep, s = newSession epoch stream keep)
    (Hkind : is_data_kind kind = false) (Harr : arrives chunks order i) :
  ∃ s', deliver_all (chunk_msg kind sid chunks <$> order ++ [i]) s w = Ret (s', w, flags_of order) ∧
    s__closed s' = true ∧ s_chan s' = [] ∧ s_chan_closed s' = true.
Proof.
  destruct Harr as (Hmany & Hbound & Hin & Hnc & Hc). destruct Hnew as (epoch & stream & keep & ->).
  set (s0 := set_buffer (Some []) None (newSession epoch stream keep)).
  rewrite deliver_first by done.
  change (prepare (newSession epoch stream keep)) with (waiting s0 NewSeqQueue).
  assert (open_core s0) as Hs0 by (split; [done|]; split; [done|]; by eexists).
  destruct (reassembly_spec (handle_chunk sid) message_step (chunk_data kind <$> chunks)
    (λ st, open_core st.1)) with (order := order) (i := i) (st0 := (s0, w)) as [q E];
    try (rewrite ?length_fmap; done || lia).
  - intros k d st Hst Hd. apply list_lookup_fmap_Some in Hd as (c & -> & _). by apply message_handle.
  - by apply not_covers_fmap.
  - by apply covers_fmap.
  - rewrite (deliver_buffer kind chunks s0 w 0 [] eq_refl eq_refl) in E.
    destruct (deliver_message kind sid chunks Hmany order i s0 w _ _ _ Hs0 Hin E) as [_ Ed].
    rewrite Ed. eexists. split; [done|]. done.
Qed.

(** A message in one piece is delivered: on an open session whose channel is empty it is put in
    the channel as it is (stream data sent to a session that is not a stream is answered with an
    error message instead), and the session is then closed. *)
Lemma single_message_delivered (s : session) (m : Msg) (w : W)
    (Hopen : s__closed s = false) (Hch : s_msgCh s = true) (Hcc : s_chan_closed s = false)
    (Hempty : s_chan s = []) (Hone : m_Seq m = 0 ∧ m_Complete m = true)
    (Hkind : is_data_kind (m_Kind m) = true → s_isStream s = false) :
  ∃ s', deliverMsg m s w = Ret (s', w, true, true) ∧ s__closed s' = true ∧ s_chan_closed s' = true ∧
    s_chan s' = [if is_data_kind (m_Kind m) then error_msg ERR_COMMON ErrNotSupported (m_Sid m) else m].
Proof.
  destruct Hone as [Hseq Hcomp]. unfold deliverMsg. rewrite Hopen, Hseq, Hcomp. cbn [Z.eqb andb].
  destruct (is_data_kind (m_Kind m)) eqn:Ek.
  - unfold stream_data, writeToStream. rewrite (Hkind eq_refl). cbn [negb mbind outcome_bind].
    unfold send_or_closed. rewrite Hopen, Hch, Hcc, Hempty. cbn [negb length Nat.ltb Nat.leb mbind outcome_bind].
    eexists. split; [done|]. unfold close. cbn. rewrite Hopen. cbn. by rewrite Hcc, Hch.
  - unfold send_or_closed. rewrite Hopen, Hch, Hcc, Hempty. cbn [negb length Nat.ltb Nat.leb mbind outcome_bind].
    eexists. split; [done|]. unfold close. cbn. rewrite Hopen. cbn. by rewrite Hcc, Hch.
Qed.

End Session.
End Session.

Module SessionManager.
Import Session.

Section SessionManager.
Set Default Proof Using "Type".
Context {W : Type} (write : nat → list Z → W → W * Z * option string)
  (chan_ready : nat → W → bool) (marshal_err : Z → string → list Z).

(** [m_heap] holds every session ever made (the callers keep their channels after the table has
    forgotten them); [m_sessions] maps a session id to its place there. [m_timed] is what
    addTimedSession and delTimedSession keep, [m_timeouts] the callbacks waiting in the timeout
    queue: the id of the session each was registered for and the id its closure refers to.
    [m_streamTimeouts] are the stream creation callbacks, with the session whose signal each closes. *)
Record SessionManager := {
  m_heap : list session; m_sessions : gmap Z nat;
  m_timed : gset Z; m_timeouts : list (Z * Z); m_streamTimeouts : list (Z * nat);
  m_sid : Z; m_epoch : Z
}.

Definition NewSessionManager (now : Z) : SessionManager :=
  {| m_heap := []; m_sessions := ∅; m_timed := ∅; m_timeouts := []; m_streamTimeouts := [];
     m_sid := now; m_epoch := now |}.

Definition set_heap (h : list session) (m : SessionManager) : SessionManager :=
  {| m_heap := h; m_sessions := m_sessions m; m_timed := m_timed m; m_timeouts := m_timeouts m;
     m_streamTimeouts := m_streamTimeouts m; m_sid := m_sid m; m_epoch := m_epoch m |}.

(** for used: the ids are tried in turn; one more try than there are sessions is enough *)
Fixpoint nextSid_go (fuel : nat) (sid : Z) (sessions : gmap Z nat) : option Z :=
  match fuel with
  | O => None
  | S fuel =>
    let sid := wrap64 (sid + 1) in
    if sessions !! sid is Some _ then nextSid_go fuel sid sessions else Some sid
  end.
Definition nextSid (m : SessionManager) : option Z :=
  nextSid_go (S (size (m_sessions m))) (m_sid m) (m_sessions m).

Definition lookup_session (sid : Z) (m : SessionManager) : option (nat * session) :=
  h ← m_sessions m !! sid; s ← m_heap m !! h; Some (h, s).

(** the session, and the channel that signals that the stream is ready *)
Definition SetStream (sid : Z) (dataOut errOut : option Writer) (canWrite : option nat) (m : SessionManager)
    : SessionManager * option nat :=
  match lookup_session sid m with
  | None => (m, None)
  | Some (h, s) =>
    let '(s, set) := setStream dataOut errOut canWrite s in
    if negb set then (m, None) else
    ({| m_heap := <[h:=s]> (m_heap m); m_sessions := m_sessions m; m_timed := m_timed m;
        m_timeouts := m_timeouts m; m_streamTimeouts := m_streamTimeouts m ++ [(sid, h)];
        m_sid := m_sid m; m_epoch := m_epoch m |}, Some h)
  end.

(** The session id and the place of the session whose channel is returned. *)
Definition Add (sid : Z) (stream keepPacket : bool) (m : SessionManager)
    : outcome (SessionManager * Z * nat) :=
  match m_sessions m !! sid with
  | Some h => Ret (m, sid, h)
  | None =>
    match nextSid m with
    | None => Diverge
    | Some realSid =>
      Ret ({| m_heap := m_heap m ++ [newSession (m_epoch m) stream keepPacket];
              m_sessions := <[realSid := length (m_heap m)]> (m_sessions m);
              m_timed := if stream then m_timed m else {[realSid]} ∪ m_timed m;
              m_timeouts := if stream then m_timeouts m else m_timeouts m ++ [(realSid, sid)];
              m_streamTimeouts := m_streamTimeouts m;
              m_sid := realSid; m_epoch := m_epoch m |}, realSid, length (m_heap m))
    end
  end.

Definition Delete (sid : Z) (m : SessionManager) : SessionManager :=
  match lookup_session sid m with
  | None => m
  | Some (h, s) =>
    {| m_heap := <[h := close s]> (m_heap m); m_sessions := delete sid (m_sessions m);
       m_timed := m_timed m ∖ {[sid]}; m_timeouts := m_timeouts m; m_streamTimeouts := m_streamTimeouts m;
       m_sid := m_sid m; m_epoch := m_epoch m |}
  end.

Definition Dispatch (msg : Msg) (m : SessionManager) (w : W) : outcome (SessionManager * W * bool) :=
  match lookup_session (m_Sid msg) m with
  | None => Ret (m, w, false)
  | Some (h, s) =>
    if negb (s_epoch s =? m_epoch m) && negb (s_isStream s) then Ret (Delete (m_Sid msg) m, w, false)
    else
      '(s, w, delivered, complete) ← deliverMsg write chan_ready marshal_err msg s w;
      let m := set_heap (<[h:=s]> (m_heap m)) m in
      Ret (if complete : bool then Delete (m_Sid msg) m else m, w, delivered)
  end.

(** one session of the loop of Cleanup: streams are kept *)
Definition cleanup_one (m : SessionManager) (e : Z * nat) : SessionManager :=
  match m_heap m !! e.2 with
  | None => m
  | Some s =>
    if s_isStream s then m else
    {| m_heap := <[e.2 := close s]> (m_heap m); m_sessions := m_sessions m; m_timed := m_timed m ∖ {[e.1]};
       m_timeouts := m_timeouts m; m_streamTimeouts := m_streamTimeouts m;
       m_sid := m_sid m; m_epoch := m_epoch m |}
  end.
Definition is_stream_at (m : SessionManager) (e : Z * nat) : bool :=
  match m_heap m !! e.2 with Some s => s_isStream s | None => false end.

(** [allSid] has a place for every session: those of the streams keep the value zero *)
Definition Cleanup (now : Z) (m : SessionManager) : SessionManager :=
  let all := map_to_list (m_sessions m) in
  let closed := filter (λ e, is_stream_at m e = false) all in
  let allSid := closed.*1 ++ replicate (length all - length closed) 0 in
  let m' := foldl cleanup_one m all in
  {| m_heap := m_heap m'; m_sessions := foldr delete (m_sessions m') allSid;
     m_timed := m_timed m'; m_timeouts := m_timeouts m'; m_streamTimeouts := m_streamTimeouts m';
     m_sid := if m_sid m' <? now then now else m_sid m'; m_epoch := now |}.

Definition Remains (m : SessionManager) : list Z := merge_sort Z.le (map_to_list (m_sessions m)).*1.
Definition TimedRemains (m : SessionManager) : list Z := merge_sort Z.le (elements (m_timed m)).

(** The timeout queue runs the callback registered by Add: it answers the session with an error
    and deletes it. *)
Definition timeout_msg (sid : Z) : Msg :=
  {| m_Kind := MSG_ERROR; m_Sid := sid; m_Seq := 0; m_Complete := true;
     m_Payload := marshal_err ERR_TIMEOUT "timeout" |}.
Definition onSessionTimeout (e : Z * Z) (m : SessionManager) (w : W) : outcome (SessionManager * W) :=
  '(m, w, _) ← Dispatch (timeout_msg e.2) m w; Ret (Delete e.2 m, w).

(** the callback registered by SetStream: it closes the signal of the session, if still open *)
Definition onStreamCreationTimeout (e : Z * nat) (m : SessionManager) : SessionManager :=
  match m_heap m !! e.2 with
  | Some s => if s_streamReady s is Some _ then set_heap (<[e.2 := set_ready (Some true) (s__streamReady s) s]> (m_heap m)) m else m
  | None => m
  end.

(** the caller takes a message out of the channel it was given *)
Definition receive (h : nat) (m : SessionManager) : option (Msg * SessionManager) :=
  s ← m_heap m !! h;
  match s_chan s with
  | [] => None
  | c :: cs => Some (c, set_heap (<[h := set_chan cs s]> (m_heap m)) m)
  end.

(** ** The invariant of a session and of the table *)

(** A session refers to its channel, and the channel is open, until the session is closed. *)
Definition wf (s : session) : Prop :=
  s_msgCh s = negb (s__closed s) ∧ s_chan_closed s = s__closed s ∧ (length (s_chan s) <= 1)%nat.

Lemma wf_close s : wf s → wf (close s) ∧ s__closed (close s) = true ∧ s_chan (close s) = s_chan s.
Proof.
  unfold wf, close. intros (H1 & H2 & H3). destruct (s__closed s) eqn:E; [by rewrite E|].
  cbn. rewrite H1, H2. done.
Qed.

(** what delivering does to the fields the table depends on *)
Definition keeps (s s' : session) : Prop :=
  wf s' ∧ s__closed s' = s__closed s ∧ s_isStream s' = s_isStream s ∧ s_epoch s' = s_epoch s.

Lemma send_keeps m s s' : wf s → send_or_closed m s = Ret s' → keeps s s'.
Proof.
  unfold send_or_closed, keeps, wf. intros (H1 & H2 & H3).
  destruct (s__closed s) eqn:Ec; [intros [= <-]; by rewrite Ec|]. rewrite H1, H2. cbn [negb].
  destruct (Nat.ltb_spec (length (s_chan s)) 1); [|done]. intros [= <-]. cbn.
  rewrite Ec, H1, H2, length_app. cbn. repeat (split; [done|]). split; [|done]. split; [done|]. split; [done|lia].
Qed.

Lemma writeToStream_keeps kind bs s w s' w' e : wf s →
  writeToStream write chan_ready kind bs s w = Ret (s', w', e) → keeps s s'.
Proof.
  unfold writeToStream. intros Hs. destruct (negb (s_isStream s)); [by intros [= <- _ _]|].
  destruct (s__streamReady s); [by intros ->%write_ready_same|].
  destruct (s_streamReady s) as [[|]|]; [|by intros ->%write_ready_same|done].
  by intros [= <- _ _].
Qed.

Lemma keeps_trans s1 s2 s3 : keeps s1 s2 → keeps s2 s3 → keeps s1 s3.
Proof. unfold keeps. intros (?&?&?&?) (?&?&?&?). split; [done|]. split; [congruence|]. split; congruence. Qed.

Lemma stream_data_keeps sid kind bs s w s' w' : wf s →
  stream_data write chan_ready marshal_err sid kind bs s w = Ret (s', w') → keeps s s'.
Proof.
  unfold stream_data. intros Hs. destruct (writeToStream _ _ _ _ _ _) as [[[s1 w1] [e|]]| |] eqn:E;
    cbn [mbind outcome_bind]; [| |done..]; apply writeToStream_keeps in E; [|done| |done].
  - destruct (send_or_closed _ _) as [s2| |] eqn:E2; cbn [mbind outcome_bind]; [|done..].
    intros [= <- _]. eapply keeps_trans; [done|]. eapply send_keeps; [apply E|done].
  - by intros [= <- _].
Qed.

Lemma handle_chunk_keeps sid i d s0 st st' : keeps s0 st.1 →
  handle_chunk write chan_ready marshal_err sid i d st = Ret st' → keeps s0 st'.1.
Proof.
  destruct st as [s w]. cbn [fst]. intros Hs. unfold handle_chunk. destruct (is_data_kind _).
  - intros E. destruct st' as [s' w']. eapply keeps_trans; [done|]. eapply stream_data_keeps; [apply Hs|done].
  - destruct (s_msgBuffer s); [|done]. intros [= <-]. done.
Qed.

(** After a delivery the session is closed exactly when it is reported complete. *)
Lemma deliverMsg_wf m s w s' w' d c : wf s → deliverMsg write chan_ready marshal_err m s w = Ret (s', w', d, c) →
  wf s' ∧ s__closed s' = c ∧ s_isStream s' = s_isStream s ∧ s_epoch s' = s_epoch s.
Proof.
  unfold deliverMsg. intros Hs. destruct (s__closed s) eqn:Ec; [by intros [= <- _ _ <-]|].
  assert (∀ s1, keeps s s1 → wf (close s1) ∧ s__closed (close s1) = true ∧
    s_isStream (close s1) = s_isStream s ∧ s_epoch (close s1) = s_epoch s) as Hclose.
  { intros s1 (Hw & H1 & H2 & H3). destruct (wf_close s1 Hw) as (? & ? & _). split; [done|]. split; [done|].
    unfold close. destruct (s__closed s1); done. }
  destruct (_ && _).
  - destruct (is_data_kind _).
    + destruct (stream_data _ _ _ _ _ _ _ _) as [[s1 w1]| |] eqn:E; cbn [mbind outcome_bind]; [|done..].
      intros [= <- _ _ <-]. apply stream_data_keeps in E; [|done]. auto.
    + destruct (send_or_closed _ _) as [s1| |] eqn:E; cbn [mbind outcome_bind]; [|done..].
      intros [= <- _ _ <-]. apply send_keeps in E; [|done]. auto.
  - cbn [s_seqQ prepare set_buffer]. set (q := if m_Complete m then _ else _). cbv zeta.
    destruct (Offer _ _ _ _ _) as [[[q' [s1 w1]] c1]| |] eqn:E; cbn [mbind outcome_bind]; [|done..].
    apply (Offer_preserves _ (λ st, keeps s st.1)) in E;
      [|intros i d0 st st'; apply handle_chunk_keeps|done].
    cbn [fst] in E. destruct c1; cbn [negb].
    + unfold flush, close. change (s__closed (set_buffer _ _ s1)) with (s__closed s1).
      destruct E as (Hw & Hc & H2 & H3). rewrite Hc, Ec. cbn [s_msgBuffer mbind outcome_bind].
      intros [= <- _ _ <-]. unfold wf in *. cbn. rewrite Hc, Ec in Hw. destruct Hw as (-> & -> & ?). done.
    + intros [= <- _ _ <-]. destruct E as (Hw & Hc & H2 & H3). split; [done|]. cbn. split; [congruence|]. done.
Qed.

(** The table: its sessions are open and distinct, and every session it has forgotten is closed. *)
Definition table_inv (m : SessionManager) : Prop :=
  Forall wf (m_heap m) ∧
  (∀ sid h, m_sessions m !! sid = Some h → ∃ s, m_heap m !! h = Some s ∧ s__closed s = false) ∧
  (∀ sid1 sid2 h, m_sessions m !! sid1 = Some h → m_sessions m !! sid2 = Some h → sid1 = sid2) ∧
  (∀ h s, m_heap m !! h = Some s → s__closed s = false → ∃ sid, m_sessions m !! sid = Some h).

Lemma lookup_session_Some sid m h s : lookup_session sid m = Some (h, s) ↔
  m_sessions m !! sid = Some h ∧ m_heap m !! h = Some s.
Proof.
  unfold lookup_session. rewrite bind_Some. split.
  - intros (h' & H1 & H2). rewrite bind_Some in H2. destruct H2 as (s' & H2 & [= -> ->]). done.
  - intros [H1 H2]. exists h. split; [done|]. by rewrite H2.
Qed.

Lemma lookup_session_None sid m : table_inv m → lookup_session sid m = None → m_sessions m !! sid = None.
Proof.
  intros (_ & Hs & _) H. destruct (m_sessions m !! sid) as [h|] eqn:E; [|done]. exfalso.
  destruct (Hs sid h E) as (s & Hh & _).
  assert (lookup_session sid m = Some (h, s)) by (by apply lookup_session_Some). congruence.
Qed.

(** replacing a session of the table by one that is as open as it was *)
Lemma table_inv_update m h s s' : table_inv m → m_heap m !! h = Some s → wf s' →
  s__closed s' = s__closed s → table_inv (set_heap (<[h:=s']> (m_heap m)) m).
Proof.
  intros (Hwf & Hs & Hinj & Hcl) Hh Hw Hc. unfold table_inv. cbn.
  split; [by apply Forall_insert|]. split; [|split; [done|] ].
  - intros sid h' E. destruct (Hs sid h' E) as (s1 & H1 & H2). destruct (decide (h = h')) as [<-|Hne].
    + exists s'. rewrite list_lookup_insert_eq by (by eapply lookup_lt_Some). split; [done|]. simplify_eq. congruence.
    + exists s1. by rewrite list_lookup_insert_ne.
  - intros h' s1 Hl Ho. apply list_lookup_insert_Some in Hl as [(<- & <- & _)|[_ Hl] ]; [|by eapply Hcl].
    apply (Hcl h s); [done|congruence].
Qed.

(** removing a session from the table and closing it *)
Lemma table_inv_close m sid h s' t q1 q2 i e : table_inv m → m_sessions m !! sid = Some h → wf s' →
  s__closed s' = true →
  table_inv {| m_heap := <[h:=s']> (m_heap m); m_sessions := delete sid (m_sessions m); m_timed := t;
    m_timeouts := q1; m_streamTimeouts := q2; m_sid := i; m_epoch := e |}.
Proof.
  intros (Hwf & Hs & Hinj & Hcl) Hsid Hw Hc. unfold table_inv. cbn.
  split; [by apply Forall_insert|]. split; [|split].
  - intros sid' h' E. apply lookup_delete_Some in E as [Hne E]. destruct (Hs sid' h' E) as (s1 & H1 & H2).
    exists s1. rewrite list_lookup_insert_ne; [done|]. intros <-. apply Hne. by eapply Hinj.
  - intros s1 s2 h' E1 E2. apply lookup_delete_Some in E1 as [_ E1], E2 as [_ E2]. by eapply Hinj.
  - intros h' s1 Hl Ho. apply list_lookup_insert_Some in Hl as [(<- & <- & _)|[Hne Hl] ]; [congruence|].
    destruct (Hcl h' s1 Hl Ho) as [sid' E]. exists sid'. apply lookup_delete_Some. split; [|done].
    intros <-. congruence.
Qed.

Lemma Delete_inv sid m : table_inv m → table_inv (Delete sid m) ∧ m_sessions (Delete sid m) = delete sid (m_sessions m).
Proof.
  intros Hm. unfold Delete. destruct (lookup_session sid m) as [[h s]|] eqn:E.
  - apply lookup_session_Some in E as [E1 E2]. split; [|done].
    pose proof (Forall_lookup_1 _ _ _ _ (proj1 Hm) E2) as Hw. cbn in Hw. destruct (wf_close s Hw) as (? & ? & _).
    by eapply table_inv_close.
  - split; [done|]. apply lookup_session_None in E; [|done]. symmetry. by apply delete_id.
Qed.

(** ** Session ids *)

Lemma nextSid_go_unused fuel sid sessions r : nextSid_go fuel sid sessions = Some r → sessions !! r = None.
Proof.
  revert sid; induction fuel as [|fuel IH]; intros sid; cbn [nextSid_go]; [done|].
  destruct (sessions !! wrap64 (sid + 1)) eqn:E; [by apply IH|]. by intros [= <-].
Qed.

Lemma nextSid_go_stuck fuel sid sessions : nextSid_go fuel sid sessions = None →
  ∀ i, (i < fuel)%nat → is_Some (sessions !! wrap64 (sid + 1 + Z.of_nat i)).
Proof.
  revert sid; induction fuel as [|fuel IH]; intros sid; cbn [nextSid_go]; [lia|].
  destruct (sessions !! wrap64 (sid + 1)) eqn:E; [|done]. intros H [|i] Hi; [rewrite Z.add_0_r; eauto|].
  destruct (IH _ H i) as [x Hx]; [lia|]. exists x. rewrite <-Hx. f_equal. unfold wrap64.
  rewrite <-(Z.add_assoc ((sid + 1) mod 2 ^ 64)), Zplus_mod_idemp_l. f_equal. lia.
Qed.

(** The search for an unused id ends, unless all 2^64 ids are in use. *)
Lemma nextSid_total m : Z.of_nat (size (m_sessions m)) < 2 ^ 64 → ∃ r, nextSid m = Some r.
Proof.
  intros Hsz. unfold nextSid. destruct (nextSid_go _ _ _) as [r|] eqn:E; [eauto|]. exfalso.
  pose proof (nextSid_go_stuck _ _ _ E) as Hs. set (n := size (m_sessions m)) in *.
  set (l := (λ i, wrap64 (m_sid m + 1 + Z.of_nat i)) <$> seq 0 (S n)).
  assert (length l <= size (dom (m_sessions m)))%nat as Hl.
  { apply NoDup_subset_size.
    - unfold l. apply NoDup_fmap_2_strong; [|apply NoDup_seq].
      intros i j Hi Hj E'. apply elem_of_seq in Hi, Hj. unfold wrap64 in E'.
      assert ((Z.of_nat i - Z.of_nat j) mod 2 ^ 64 = 0) as Hd.
      { replace (Z.of_nat i - Z.of_nat j) with ((m_sid m + 1 + Z.of_nat i) - (m_sid m + 1 + Z.of_nat j)) by lia.
        rewrite Zminus_mod, E', Z.sub_diag. done. }
      apply Z.mod_divide in Hd as [k Hk]; [|lia]. assert (k = 0) by nia. lia.
    - intros k Hk. unfold l in Hk. apply list_elem_of_fmap in Hk as (i & -> & Hi). apply elem_of_seq in Hi.
      apply elem_of_dom, Hs. lia. }
  unfold l in Hl. rewrite length_fmap, length_seq, size_dom in Hl. unfold n in Hl. lia.
Qed.

Lemma wf_new epoch stream keep : wf (newSession epoch stream keep).
Proof. unfold wf. cbn. split; [done|]. split; [done|lia]. Qed.

Lemma Add_inv sid stream keep m m' r h : table_inv m → Add sid stream keep m = Ret (m', r, h) →
  table_inv m' ∧ m_sessions m' !! r = Some h ∧
  (∀ s, s ≠ r → m_sessions m' !! s = m_sessions m !! s).
Proof.
  intros Hm. unfold Add. destruct (m_sessions m !! sid) as [h0|] eqn:E; [by intros [= <- <- <-]|].
  destruct (nextSid m) as [real|] eqn:En; [|done]. apply nextSid_go_unused in En. intros [= <- <- <-]. cbn.
  split; [|split; [apply lookup_insert_eq|intros; by apply lookup_insert_ne] ].
  destruct Hm as (Hwf & Hs & Hinj & Hcl). unfold table_inv. cbn.
  split; [apply Forall_app; split; [done|by apply Forall_singleton, wf_new]|]. split; [|split].
  - intros s0 h0 E0. apply lookup_insert_Some in E0 as [[<- <-]|[Hne E0]].
    + eexists. rewrite lookup_app_r, Nat.sub_diag by lia. done.
    + destruct (Hs s0 h0 E0) as (s1 & H1 & H2). exists s1. split; [|done]. by apply lookup_app_l_Some.
  - intros s1 s2 h0 E1 E2. apply lookup_insert_Some in E1 as [[<- <-]|[Hne1 E1]];
      apply lookup_insert_Some in E2 as [[<- E2']|[Hne2 E2]]; [done| | |by eapply Hinj].
    + destruct (Hs _ _ E2) as (s3 & H3 & _). apply lookup_lt_Some in H3. lia.
    + destruct (Hs _ _ E1) as (s3 & H3 & _). apply lookup_lt_Some in H3. lia.
  - intros h0 s0 Hl Ho. apply lookup_app_Some in Hl as [Hl|[Hge Hl] ].
    + destruct (Hcl h0 s0 Hl Ho) as [s1 H1]. exists s1. apply lookup_insert_Some. right. split; [|done]. congruence.
    + apply list_lookup_singleton_Some in Hl as [Hz _]. exists real. replace h0 with (length (m_heap m)) by lia.
      apply lookup_insert_eq.
Qed.

Lemma SetStream_inv sid o e c m m' r : table_inv m → SetStream sid o e c m = (m', r) → table_inv m'.
Proof.
  intros Hm. unfold SetStream. destruct (lookup_session sid m) as [[h s]|] eqn:E; [|by intros [= <- _] ].
  apply lookup_session_Some in E as [E1 E2]. unfold setStream.
  destruct (s_streamReady s); cbn [negb]; intros [= <- _]; [done|].
  pose proof (Forall_lookup_1 _ _ _ _ (proj1 Hm) E2) as Hw. cbn in Hw.
  match goal with |- context [<[h:=?x]> _] => exact (table_inv_update m h s x Hm E2 Hw eq_refl) end.
Qed.

Lemma Dispatch_inv msg m w m' w' d : table_inv m → Dispatch msg m w = Ret (m', w', d) →
  table_inv m'.
Proof.
  intros Hm. unfold Dispatch. destruct (lookup_session (m_Sid msg) m) as [[h s]|] eqn:E; [|by intros [= <- _ _] ].
  apply lookup_session_Some in E as [E1 E2].
  destruct (_ && _); [intros [= <- _ _]; by apply Delete_inv|].
  pose proof (Forall_lookup_1 _ _ _ _ (proj1 Hm) E2) as Hw. cbn in Hw.
  destruct (deliverMsg _ _ _ _ _ _) as [[[[s1 w1] d1] c1]| |] eqn:Ed; cbn [mbind outcome_bind]; [|done..].
  destruct (deliverMsg_wf _ _ _ _ _ _ _ Hw Ed) as (Hw1 & Hc1 & _). intros [= <- _ _].
  destruct c1.
  - unfold Delete. assert (lookup_session (m_Sid msg) (set_heap (<[h:=s1]> (m_heap m)) m) = Some (h, s1)) as ->.
    { apply lookup_session_Some. split; [done|]. apply list_lookup_insert_eq. by eapply lookup_lt_Some. }
    cbn. rewrite list_insert_insert_eq. destruct (wf_close s1 Hw1) as (? & ? & _). by eapply table_inv_close.
  - eapply table_inv_update; [done..|]. destruct Hm as (_ & Hs & _). destruct (Hs _ _ E1) as (s2 & H2 & H3).
    simplify_eq. congruence.
Qed.

(** ** Cleanup *)

Lemma cleanup_one_fields m e : m_sessions (cleanup_one m e) = m_sessions m ∧ m_sid (cleanup_one m e) = m_sid m ∧
  length (m_heap (cleanup_one m e)) = length (m_heap m).
Proof.
  unfold cleanup_one. destruct (m_heap m !! e.2) as [s|]; [|done]. destruct (s_isStream s); [done|]. cbn.
  by rewrite length_insert.
Qed.

Lemma isStream_close s : s_isStream (close s) = s_isStream s.
Proof. unfold close. by destruct (s__closed s). Qed.
Lemma close_idem s : close (close s) = close s.
Proof. unfold close. destruct (s__closed s) eqn:E; [by rewrite E|]. done. Qed.

(** every session of the list but the streams is closed, the other ones are as they were *)
Lemma cleanup_heap l m h : m_heap (foldl cleanup_one m l) !! h =
  (λ s, if bool_decide (h ∈ l.*2) && negb (s_isStream s) then close s else s) <$> m_heap m !! h.
Proof.
  clear write chan_ready marshal_err W.
  revert m; induction l as [|e l IH]; intros m; cbn [foldl].
  { cbn. by destruct (m_heap m !! h). }
  rewrite IH. unfold cleanup_one. destruct (m_heap m !! e.2) as [s|] eqn:E.
  - destruct (s_isStream s) eqn:Es.
    + destruct (m_heap m !! h) as [s0|] eqn:E0; [|done]. cbn. f_equal.
      destruct (s_isStream s0) eqn:Es0; [by rewrite !andb_false_r|]. cbn. rewrite !andb_true_r.
      assert (h ≠ e.2) by (intros ->; congruence).
      rewrite (bool_decide_ext (h ∈ e.2 :: l.*2) (h ∈ l.*2)); [done|]. rewrite elem_of_cons. tauto.
    + cbn. destruct (decide (e.2 = h)) as [<-|Hne].
      * rewrite list_lookup_insert_eq by (by eapply lookup_lt_Some). rewrite E. cbn. rewrite isStream_close, Es. cbn.
        rewrite (bool_decide_eq_true_2 (_ ∈ e.2 :: _)) by set_solver. cbn. case_bool_decide; cbn; [by rewrite close_idem|done].
      * rewrite list_lookup_insert_ne by done. destruct (m_heap m !! h) as [s0|]; [|done]. cbn. f_equal.
        rewrite (bool_decide_ext (h ∈ e.2 :: l.*2) (h ∈ l.*2)); [done|]. rewrite elem_of_cons.
        split; [intros [->|?]; done|by right].
  - destruct (m_heap m !! h) as [s0|] eqn:E0; [|done]. cbn. f_equal.
    assert (h ≠ e.2) by congruence.
    rewrite (bool_decide_ext (h ∈ e.2 :: l.*2) (h ∈ l.*2)); [done|]. rewrite elem_of_cons. tauto.
Qed.

Lemma cleanup_fields l m : m_sessions (foldl cleanup_one m l) = m_sessions m ∧
  m_sid (foldl cleanup_one m l) = m_sid m.
Proof.
  revert m; induction l as [|e l IH]; intros m; [done|]. cbn [foldl].
  destruct (IH (cleanup_one m e)) as [-> ->]. destruct (cleanup_one_fields m e) as (-> & -> & _). done.
Qed.

Lemma lookup_foldr_delete (l : list Z) (t : gmap Z nat) k :
  foldr delete t l !! k = if decide (k ∈ l) then None else t !! k.
Proof.
  clear write chan_ready marshal_err W.
  induction l as [|x l IH]; [by rewrite decide_False by set_solver|]. cbn.
  destruct (decide (k = x)) as [->|Hne].
  - rewrite lookup_delete_eq, decide_True by set_solver. done.
  - rewrite lookup_delete_ne, IH by done. case_decide; case_decide; set_solver.
Qed.

(** The sessions after Cleanup: the streams (the one of id zero apart, if there is another). *)
Lemma Cleanup_sessions now m sid h : table_inv m → m_sessions m !! sid = Some h →
  m_sessions (Cleanup now m) !! sid = Some h ∨
  (m_sessions (Cleanup now m) !! sid = None ∧ (is_stream_at m (sid, h) = false ∨ sid = 0)).
Proof.
  intros Hm Hsid. unfold Cleanup. cbn. destruct (cleanup_fields (map_to_list (m_sessions m)) m) as [-> _].
  rewrite lookup_foldr_delete, Hsid. case_decide as Hin; [right|by left]. split; [done|].
  apply elem_of_app in Hin as [Hin|Hin]; [left|right; by apply elem_of_replicate in Hin as [-> _]].
  apply list_elem_of_fmap in Hin as ([s0 h0] & -> & Hf). apply list_elem_of_filter in Hf as [Hf Hin].
  apply elem_of_map_to_list in Hin. cbn in *. by simplify_eq.
Qed.

Lemma Cleanup_none now m sid h : m_sessions (Cleanup now m) !! sid = Some h →
  m_sessions m !! sid = Some h ∧ is_stream_at m (sid, h) = true.
Proof.
  unfold Cleanup. cbn. destruct (cleanup_fields (map_to_list (m_sessions m)) m) as [-> _].
  rewrite lookup_foldr_delete. case_decide as Hin; [done|]. intros Hsid. split; [done|].
  destruct (is_stream_at m (sid, h)) eqn:E; [done|]. destruct Hin. apply elem_of_app. left.
  apply list_elem_of_fmap. exists (sid, h). split; [done|]. apply list_elem_of_filter. split; [done|].
  by apply elem_of_map_to_list.
Qed.

Definition table_ok (m : SessionManager) : Prop := table_inv m ∧ m_sessions m !! 0 = None.

Lemma Cleanup_lookup now m sid h : table_ok m →
  m_sessions (Cleanup now m) !! sid = Some h ↔ m_sessions m !! sid = Some h ∧ is_stream_at m (sid, h) = true.
Proof.
  intros [Hm H0]. split; [apply Cleanup_none|]. intros [Hsid Hst].
  destruct (Cleanup_sessions now m sid h Hm Hsid) as [?|[_ [?| ->] ] ]; [done|congruence..].
Qed.

Lemma Cleanup_heap now m h : m_heap (Cleanup now m) !! h =
  (λ s, if bool_decide (h ∈ (map_to_list (m_sessions m)).*2) && negb (s_isStream s) then close s else s) <$> m_heap m !! h.
Proof. apply cleanup_heap. Qed.

Lemma in_table m h : h ∈ (map_to_list (m_sessions m)).*2 ↔ ∃ sid, m_sessions m !! sid = Some h.
Proof.
  rewrite list_elem_of_fmap. split.
  - intros ([sid h'] & -> & Hin). apply elem_of_map_to_list in Hin. by exists sid.
  - intros [sid H]. exists (sid, h). split; [done|]. by apply elem_of_map_to_list.
Qed.

Lemma Cleanup_inv now m : table_ok m → table_ok (Cleanup now m).
Proof.
  clear write chan_ready marshal_err W.
  intros Hok. pose proof Hok as [(Hwf & Hs & Hinj & Hcl) H0]. split; [split; [|split; [|split] ]|].
  - apply Forall_lookup. intros h s Hl. rewrite Cleanup_heap in Hl.
    apply fmap_Some in Hl as (s0 & Hl & ->). pose proof (Forall_lookup_1 _ _ _ _ Hwf Hl) as Hw. cbn in Hw.
    destruct (_ && _); [by apply wf_close|done].
  - intros sid h Hl. apply Cleanup_lookup in Hl as [Hl Hst]; [|done]. destruct (Hs sid h Hl) as (s & H1 & H2).
    exists s. rewrite Cleanup_heap, H1. unfold is_stream_at in Hst. cbn in Hst. rewrite H1 in Hst. cbn.
    by rewrite Hst, andb_false_r.
  - intros sid1 sid2 h [H1 _]%Cleanup_none [H2 _]%Cleanup_none. by eapply Hinj.
  - intros h s Hl Ho. rewrite Cleanup_heap in Hl. apply fmap_Some in Hl as (s0 & Hl & ->).
    pose proof (Forall_lookup_1 _ _ _ _ Hwf Hl) as Hw. cbn in Hw.
    destruct (bool_decide (h ∈ _)) eqn:Eb; cbn in Ho.
    + destruct (s_isStream s0) eqn:Est; cbn in Ho; [|by rewrite (proj1 (proj2 (wf_close s0 Hw))) in Ho].
      destruct (Hcl h s0 Hl Ho) as [sid Hsid]. exists sid. apply Cleanup_lookup; [done|]. split; [done|].
      unfold is_stream_at. cbn. by rewrite Hl.
    + destruct (Hcl h s0 Hl Ho) as [sid Hsid]. apply bool_decide_eq_false in Eb. destruct Eb.
      apply in_table. by exists sid.
  - destruct (m_sessions (Cleanup now m) !! 0) eqn:E; [|done]. apply Cleanup_none in E as [E _]. congruence.
Qed.

(** ** Reachable states *)

Inductive reach : SessionManager → W → Prop :=
  | reach_new now w : reach (NewSessionManager now) w
  | reach_world m w w' : reach m w → reach m w'
  | reach_Add sid stream keep m w m' r h : reach m w → Add sid stream keep m = Ret (m', r, h) → r ≠ 0 →
      reach m' w
  | reach_SetStream sid o e c m w m' r : reach m w → SetStream sid o e c m = (m', r) → reach m' w
  | reach_Dispatch msg m w m' w' d : reach m w → Dispatch msg m w = Ret (m', w', d) → reach m' w'
  | reach_Delete sid m w : reach m w → reach (Delete sid m) w
  | reach_Cleanup now m w : reach m w → reach (Cleanup now m) w
  | reach_timeout e m w m' w' : reach m w → e ∈ m_timeouts m → onSessionTimeout e m w = Ret (m', w') → reach m' w'
  | reach_stream_timeout e m w : reach m w → e ∈ m_streamTimeouts m → reach (onStreamCreationTimeout e m) w
  | reach_receive h m w c m' : reach m w → receive h m = Some (c, m') → reach m' w.

Lemma Delete_ok sid m : table_ok m → table_ok (Delete sid m).
Proof.
  intros [Hm H0]. destruct (Delete_inv sid m Hm) as [? E]. split; [done|]. rewrite E.
  by apply lookup_delete_None; right.
Qed.

Lemma Dispatch_zero msg m w m' w' d : m_sessions m !! 0 = None → Dispatch msg m w = Ret (m', w', d) →
  m_sessions m' !! 0 = None.
Proof.
  intros H0. unfold Dispatch. destruct (lookup_session _ _) as [[h s]|]; [|by intros [= <- _ _] ].
  assert (∀ m1, m_sessions m1 !! 0 = None → m_sessions (Delete (m_Sid msg) m1) !! 0 = None) as Hdel.
  { intros m1 H1. unfold Delete. destruct (lookup_session _ m1) as [[??]|]; [|done]. cbn.
    by apply lookup_delete_None; right. }
  destruct (_ && _); [intros [= <- _ _]; auto|].
  destruct (deliverMsg _ _ _ _ _ _) as [[[[s1 w1] d1] c1]| |]; cbn [mbind outcome_bind]; [|done..].
  intros [= <- _ _]. destruct c1; auto.
Qed.

Lemma reach_ok m w : reach m w → table_ok m.
Proof.
  induction 1 as [now w|m w w' _ IH|sid st k m w m' r h _ [Hm H0] E Hr|sid o e c m w m' r _ [Hm H0] E
    |msg m w m' w' d _ [Hm H0] E|sid m w _ IH|now m w _ IH|e m w m' w' _ [Hm H0] _ E
    |e m w _ [Hm H0] _|h m w c m' _ [Hm H0] E].
  - split; [|done]. split; [constructor|]. split; [done|]. split; done.
  - done.
  - destruct (Add_inv _ _ _ _ _ _ _ Hm E) as (? & _ & Ho). split; [done|]. by rewrite Ho.
  - split; [by eapply SetStream_inv|]. revert E. unfold SetStream.
    destruct (lookup_session _ _) as [[h s]|]; [|by intros [= <- _] ].
    destruct (setStream _ _ _ _) as [s' [|]]; by intros [= <- _].
  - split; [by eapply Dispatch_inv|by eapply Dispatch_zero].
  - by apply Delete_ok.
  - by apply Cleanup_inv.
  - revert E. unfold onSessionTimeout.
    destruct (Dispatch _ _ _) as [[[m1 w1] d]| |] eqn:E; cbn [mbind outcome_bind]; [|done..].
    intros [= <- _]. apply Delete_ok. split; [by eapply Dispatch_inv|by eapply Dispatch_zero].
  - unfold onStreamCreationTimeout. destruct (m_heap m !! e.2) as [s|] eqn:El; [|done].
    destruct (s_streamReady s); [|done]. split; [|done].
    pose proof (Forall_lookup_1 _ _ _ _ (proj1 Hm) El) as Hw. by eapply table_inv_update.
  - revert E. unfold receive. intros E. apply bind_Some in E as (s & El & E).
    destruct (s_chan s) as [|c0 cs] eqn:Ec; [done|]. injection E as _ <-. split; [|done].
    pose proof (Forall_lookup_1 _ _ _ _ (proj1 Hm) El) as (H1 & H2 & H3). cbn in *.
    eapply table_inv_update; [done..| |done]. split; [done|]. split; [done|]. cbn. rewrite Ec in H3. cbn in H3. lia.
Qed.

(** C21: in every reachable state of the session table (any sequence of Add, SetStream, Dispatch,
    Delete, Cleanup, timeout callbacks and receives by the callers): the sessions of the table are
    distinct, not closed, and hold an open channel, so no message is sent on a closed channel;
    every session the table has forgotten is closed and its channel is closed, so the receiver's
    loop over it ends; a channel never holds more than one message. *)
Theorem sessions_invariant (m : SessionManager) (w : W) (Hr : reach m w) :
  (∀ sid h, m_sessions m !! sid = Some h →
     ∃ s, m_heap m !! h = Some s ∧ s__closed s = false ∧ s_msgCh s = true ∧ s_chan_closed s = false) ∧
  (∀ sid1 sid2 h, m_sessions m !! sid1 = Some h → m_sessions m !! sid2 = Some h → sid1 = sid2) ∧
  (∀ h s, m_heap m !! h = Some s → (∀ sid, m_sessions m !! sid ≠ Some h) →
     s__closed s = true ∧ s_chan_closed s = true) ∧
  (∀ h s, m_heap m !! h = Some s → (length (s_chan s) <= 1)%nat).
Proof.
  destruct (reach_ok m w Hr) as [(Hwf & Hs & Hinj & Hcl) _].
  assert (∀ h s, m_heap m !! h = Some s → wf s) as Hw by (intros h s Hl; exact (Forall_lookup_1 _ _ _ _ Hwf Hl)).
  split; [|split; [exact Hinj|split] ].
  - intros sid h E. destruct (Hs sid h E) as (s & H1 & H2). exists s. destruct (Hw h s H1) as (H3 & H4 & _).
    rewrite H3, H4, H2. done.
  - intros h s Hl Hno. destruct (Hw h s Hl) as (H3 & H4 & _). rewrite H4.
    destruct (s__closed s) eqn:E; [done|]. destruct (Hcl h s Hl E) as [sid Hsid]. by destruct (Hno sid).
  - intros h s Hl. apply (Hw h s Hl).
Qed.

(** A command and its answer: on a table with unused ids left, Add of a session id that is not
    in use makes a session under an id that was not in use; when the answer to that id arrives in
    one message it is delivered to the channel Add returned, which then holds exactly that message
    and is closed, and the id is free again. *)
Lemma unary_session (sid : Z) (keep : bool) (m : SessionManager) (kind : Z) (payload : list Z) (w : W)
    (Hm : table_ok m) (Hsid : m_sessions m !! sid = None)
    (Hroom : Z.of_nat (size (m_sessions m)) < 2 ^ 64) (Hkind : is_data_kind kind = false) :
  ∃ m1 r h, Add sid false keep m = Ret (m1, r, h) ∧ m_sessions m !! r = None ∧
    let msg := {| m_Kind := kind; m_Sid := r; m_Seq := 0; m_Complete := true; m_Payload := payload |} in
    ∃ m2 s, Dispatch msg m1 w = Ret (m2, w, true) ∧ m_heap m2 !! h = Some s ∧
      s_chan s = [msg] ∧ s_chan_closed s = true ∧ m_sessions m2 = m_sessions m.
Proof.
  destruct Hm as [Hm _]. unfold Add. rewrite Hsid. destruct (nextSid_total m Hroom) as [r Hr]. rewrite Hr.
  apply nextSid_go_unused in Hr. eexists _, r, _. split; [done|]. split; [done|]. cbv zeta.
  set (msg := {| m_Kind := kind |}). set (m1 := {| m_heap := _ |}). set (s0 := newSession (m_epoch m) false keep).
  assert (lookup_session r m1 = Some (length (m_heap m), s0)) as El.
  { apply lookup_session_Some. cbn. split; [apply lookup_insert_eq|].
    by rewrite lookup_app_r, Nat.sub_diag by lia. }
  unfold Dispatch. cbn [m_Sid msg]. rewrite El. cbn [s_epoch s0 newSession m_epoch m1].
  rewrite Z.eqb_refl. cbn [negb andb]. unfold deliverMsg. cbn [s__closed s0 newSession m_Seq m_Complete msg Z.eqb andb].
  change (m_Kind msg) with kind. rewrite Hkind.
  assert (send_or_closed msg s0 = Ret (set_chan [msg] s0)) as -> by done. cbn [mbind outcome_bind].
  unfold Delete.
  match goal with |- context [set_heap (<[?k:=?y]> ?l) m1] => set (s1 := y); set (m2 := set_heap (<[k:=s1]> l) m1) end.
  assert (lookup_session r m2 = Some (length (m_heap m), s1)) as E2.
  { apply lookup_session_Some. split; [apply lookup_insert_eq|]. cbn.
    apply list_lookup_insert_eq. rewrite length_app. cbn. lia. }
  rewrite E2. eexists _, (close s1). split; [done|]. cbn. split.
  - apply list_lookup_insert_eq. rewrite length_insert, length_app. cbn. lia.
  - split; [done|]. split; [done|]. apply delete_insert_id. done.
Qed.

(** The timeout of a session never reaches it: the callback Add registers for a new session
    refers to the id the caller passed (which is not in use, or no session would have been made)
    and not to the id the session was given; when it runs while that id is still not in use, it
    changes nothing, and the session waits for ever. *)
Lemma session_timeout_lost (sid : Z) (keep : bool) (m m1 m' : SessionManager) (r : Z) (h : nat) (w : W)
    (Hsid : m_sessions m !! sid = None) (Hadd : Add sid false keep m = Ret (m1, r, h))
    (Hlater : m_sessions m' !! sid = None) :
  m_timeouts m1 = m_timeouts m ++ [(r, sid)] ∧ onSessionTimeout (r, sid) m' w = Ret (m', w).
Proof.
  unfold Add in Hadd. rewrite Hsid in Hadd. destruct (nextSid m) as [r'|]; [|done].
  injection Hadd as <- -> _. split; [done|]. unfold onSessionTimeout, Dispatch, Delete, lookup_session.
  cbn [m_Sid timeout_msg snd]. rewrite Hlater. cbn. by rewrite Hlater.
Qed.

(** After the last device has gone, Cleanup keeps exactly the stream sessions: every other
    session is closed and removed from the table, the streams are left as they were, session ids
    do not go back and the new epoch is the current time. *)
Lemma Cleanup_correct (now : Z) (m : SessionManager) (Hm : table_ok m) :
  let m' := Cleanup now m in
  (∀ sid h, m_sessions m' !! sid = Some h ↔
     m_sessions m !! sid = Some h ∧ ∃ s, m_heap m !! h = Some s ∧ s_isStream s = true) ∧
  (∀ sid h s, m_sessions m !! sid = Some h → m_heap m !! h = Some s →
     m_heap m' !! h = Some (if s_isStream s then s else close s)) ∧
  table_ok m' ∧ m_sid m <= m_sid m' ∧ now <= m_sid m' ∧ m_epoch m' = now.
Proof.
  cbv zeta. split; [|split; [|split] ].
  - intros sid h. rewrite Cleanup_lookup by done. unfold is_stream_at. cbn.
    destruct (m_heap m !! h) as [s|].
    + split; intros [H1 H2]; (split; [done|]); [by exists s|by destruct H2 as (s' & [= ->] & H2)].
    + split; intros [H1 H2]; [done|by destruct H2 as (s' & ? & _)].
  - intros sid h s Hsid Hh. rewrite Cleanup_heap, Hh. cbn.
    rewrite bool_decide_eq_true_2 by (apply in_table; by exists sid). by destruct (s_isStream s).
  - by apply Cleanup_inv.
  - unfold Cleanup. cbn. destruct (cleanup_fields (map_to_list (m_sessions m)) m) as [_ ->].
    destruct (Z.ltb_spec (m_sid m) now); lia.
Qed.

End SessionManager.
End SessionManager.

(** ** Concrete runs *)

Module Examples.
Import Session SessionManager.

(** the writers append to a log *)
Definition log := list (nat * list Z).
Definition log_out (id : nat) (bs : list Z) (w : log) : log := w ++ [(id, bs)].
Definition log_write (id : nat) (bs : list Z) (w : log) : log * Z * option string :=
  (log_out id bs w, Z.of_nat (length bs), None).
Definition log_ready (c : nat) (w : log) : bool := true.
Definition log_err (kind : Z) (d : string) : list Z := [kind].

Definition three : list (list Z) := [[1]; [2; 3]; [4]].
Lemma three_arrives : arrives three [2; 0]%nat 1.
Proof.
  split; [cbn; lia|]. split; [done|]. split; [intros j Hj; cbn in *; set_unfold; lia|]. split.
  - intros H. specialize (H 1%nat ltac:(cbn; lia)). set_unfold. lia.
  - intros [|[|[|j] ] ] Hj; cbn in *; [set_solver..|lia].
Qed.

Lemma stream_in_order_witness :
  ∃ s, deliver_all log_write log_ready log_err (chunk_msg MSG_DATA 7 three <$> [2; 0]%nat ++ [1%nat])
         (stream_session 5 3) [] =
         Ret (s, foldl (λ w c, emit log_out 3 c w) [] three, flags_of [2; 0]%nat) ∧
    s__closed s = true ∧ s_chan s = [] ∧ s_chan_closed s = true.
Proof. apply (stream_in_order log_write log_ready log_err log_out); [done|exact three_arrives]. Defined.

Example stream_output : foldl (λ w c, emit log_out 3 c w) [] three = [(3%nat, [1]); (3%nat, [2; 3]); (3%nat, [4])].
Proof. reflexivity. Qed.

Lemma multi_chunk_message_lost_witness :
  ∃ s', deliver_all log_write log_ready log_err (chunk_msg 11 7 three <$> [2; 0]%nat ++ [1%nat])
          (newSession 5 false false) [] = Ret (s', [], flags_of [2; 0]%nat) ∧
    s__closed s' = true ∧ s_chan s' = [] ∧ s_chan_closed s' = true.
Proof.
  apply (multi_chunk_message_lost log_write log_ready log_err); [by exists 5, false, false|done|exact three_arrives].
Defined.

Definition answer (sid : Z) : Msg :=
  {| m_Kind := 11; m_Sid := sid; m_Seq := 0; m_Complete := true; m_Payload := [9] |}.

Lemma single_message_delivered_witness :
  ∃ s', deliverMsg log_write log_ready log_err (answer 6) (newSession 5 false false) [] = Ret (s', [], true, true) ∧
    s__closed s' = true ∧ s_chan_closed s' = true ∧ s_chan s' = [answer 6].
Proof. by apply (single_message_delivered log_write log_ready log_err). Defined.

(** one unary session, then a stream as well *)
Definition one_session : SessionManager :=
  match Add 0 false false (NewSessionManager 5) with Ret (m, _, _) => m | _ => NewSessionManager 5 end.
Definition two_sessions : SessionManager :=
  match Add 0 true false one_session with Ret (m, _, _) => m | _ => one_session end.
Lemma one_session_reach : reach log_write log_ready log_err one_session [].
Proof.
  apply (reach_Add _ _ _ 0 false false (NewSessionManager 5) [] one_session 6 0%nat);
    [apply reach_new|vm_compute; reflexivity|done].
Qed.
Lemma two_sessions_reach : reach log_write log_ready log_err two_sessions [].
Proof.
  apply (reach_Add _ _ _ 0 true false one_session [] two_sessions 7 1%nat);
    [exact one_session_reach|vm_compute; reflexivity|done].
Qed.

Lemma sessions_invariant_witness :
  (∀ sid h, m_sessions two_sessions !! sid = Some h →
     ∃ s, m_heap two_sessions !! h = Some s ∧ s__closed s = false ∧ s_msgCh s = true ∧ s_chan_closed s = false) ∧
  (∀ sid1 sid2 h, m_sessions two_sessions !! sid1 = Some h → m_sessions two_sessions !! sid2 = Some h → sid1 = sid2) ∧
  (∀ h s, m_heap two_sessions !! h = Some s → (∀ sid, m_sessions two_sessions !! sid ≠ Some h) →
     s__closed s = true ∧ s_chan_closed s = true) ∧
  (∀ h s, m_heap two_sessions !! h = Some s → (length (s_chan s) <= 1)%nat).
Proof. exact (sessions_invariant log_write log_ready log_err two_sessions [] two_sessions_reach). Defined.

Lemma unary_session_witness :
  ∃ m1 r h, Add 0 false false two_sessions = Ret (m1, r, h) ∧ m_sessions two_sessions !! r = None ∧
    let msg := {| m_Kind := 11; m_Sid := r; m_Seq := 0; m_Complete := true; m_Payload := [9] |} in
    ∃ m2 s, Dispatch log_write log_ready log_err msg m1 [] = Ret (m2, [], true) ∧ m_heap m2 !! h = Some s ∧
      s_chan s = [msg] ∧ s_chan_closed s = true ∧ m_sessions m2 = m_sessions two_sessions.
Proof.
  apply unary_session; [exact (reach_ok _ _ _ _ _ two_sessions_reach)|vm_compute; reflexivity|vm_compute; reflexivity|done].
Defined.

Lemma session_timeout_lost_witness :
  m_timeouts one_session = m_timeouts (NewSessionManager 5) ++ [(6, 0)] ∧
  onSessionTimeout log_write log_ready log_err (6, 0) one_session [] = Ret (one_session, []).
Proof. by apply (session_timeout_lost _ _ _ 0 false _ one_session one_session 6 0%nat). Defined.

Lemma Cleanup_correct_witness :
  let m' := Cleanup 9 two_sessions in
  (∀ sid h, m_sessions m' !! sid = Some h ↔
     m_sessions two_sessions !! sid = Some h ∧ ∃ s, m_heap two_sessions !! h = Some s ∧ s_isStream s = true) ∧
  (∀ sid h s, m_sessions two_sessions !! sid = Some h → m_heap two_sessions !! h = Some s →
     m_heap m' !! h = Some (if s_isStream s then s else close s)) ∧
  table_ok m' ∧ m_sid two_sessions <= m_sid m' ∧ 9 <= m_sid m' ∧ m_epoch m' = 9.
Proof. apply Cleanup_correct. exact (reach_ok _ _ _ _ _ two_sessions_reach). Defined.

End Examples.
