(* ===== verification/Connectivity.v ===== *)
(** * The connectivity manager: pkg/virtualnode/connectivity

    [Manager] models manager.go (posting commands, receiving messages, the connection signals),
    [Grpc] models mgr_grpc.go, [Mq] models mgr_mq.go. The transports, the protobuf encoding and
    the io.Writers of the callers are parameters. *)
From S2P Require Import Prelude SeqQueue Session.
Import Session.Session Session.SessionManager.
Open Scope Z_scope.

(** ** Commands: the Cmd type of the protocol and its encoded size *)

Definition CMD_DATA_UPSTREAM : Z := 0.
Definition CMD_SESSION_CLOSE : Z := 5.
Definition CMD_REJECT : Z := 6.
Definition CMD_RUNTIME : Z := 10.
Definition CMD_EXEC : Z := 12.
Definition CMD_ATTACH : Z := 13.
Definition CMD_LOGS : Z := 14.
Definition CMD_TTY_RESIZE : Z := 15.
Definition CMD_PORT_FORWARD : Z := 16.
Definition CMD_METRICS_COLLECT : Z := 22.

Definition MSG_STATE : Z := 6.
Definition STATE_ONLINE : Z := 1.
Definition STATE_OFFLINE : Z := 2.
Definition REJECTION_INVALID_PROTO : Z := 1.
Definition REJECTION_ALREADY_CONNECTED : Z := 2.

Record Cmd := { c_Kind : Z; c_Sid : Z; c_Seq : Z; c_Complete : bool; c_Payload : list Z }.

(** sovProto: (bits.Len64(x|1) + 6) / 7, the length of a varint *)
Definition sovProto (x : Z) : Z := (Z.log2 (Z.lor x 1) + 1 + 6) / 7.
Definition Cmd_Size (c : Cmd) : Z :=
  (if c_Kind c =? 0 then 0 else 1 + sovProto (c_Kind c)) +
  (if c_Sid c =? 0 then 0 else 1 + sovProto (c_Sid c)) +
  (if c_Seq c =? 0 then 0 else 1 + sovProto (c_Seq c)) +
  (if c_Complete c then 2 else 0) +
  (let l := Z.of_nat (length (c_Payload c)) in if 0 <? l then 1 + l + sovProto l else 0).
Definition EmptyCmdSize : Z :=
  Cmd_Size {| c_Kind := 2 ^ 31 - 1; c_Sid := MaxUint64; c_Seq := MaxUint64; c_Complete := true; c_Payload := [] |}.

Definition MaxGRPCDataSize : Z := 64 * 1024.
Definition MaxMQTTDataSize : Z := 128 * 1024.
Definition MaxAzureIoTHubC2DDataSize : Z := 64 * 1024.
Definition MaxGCPIoTCoreC2DDataSize : Z := 256 * 1024.

Definition ErrManagerClosed : string := "connectivity manager has been closed".
Definition ErrUnsupportedManager : string := "unsupported manager".

(** The options that choose the transport; [MQTTOpts] carries MaxPayloadSize of its config. *)
Record Options := {
  GRPCOpts : bool; MQTTOpts : option Z; AMQPOpts : bool; AzureIoTHubOpts : bool; GCPIoTCoreOpts : bool
}.

Module Manager.

Section Manager.
Context {W : Type} (write : nat → list Z → W → W * Z * option string)
  (chan_ready : nat → W → bool) (marshal_err : Z → string → list Z).
(** the protobuf encoding, and the transport *)
Context (marshal_cmd : Cmd → list Z) (unmarshal_msg : list Z → option Msg)
  (unmarshal_err : list Z → option (Z * string)) (marshal_session_close : Z → list Z)
  (cmd_name : Z → string).
Context (sendData : list Z → bool → W → W * option string).

Abbreviation Dispatch := (Dispatch write chan_ready marshal_err).

(** The signals are channels, named by numbers; [b_closed] is the set of the closed ones. *)
Record baseManager := {
  b_sessions : SessionManager; b_maxDataSize : Z; b_globalMsgChan : list Msg;
  b_connectedDevices : gset string;
  b_connected : nat; b_disconnected : nat; b_rejected : nat; b_alreadyRejected : bool;
  b_closed : gset nat; b_nextCh : nat; b_ctxDone : bool; b_stopped : bool
}.

Definition set_sessions (s : SessionManager) (m : baseManager) : baseManager :=
  {| b_sessions := s; b_maxDataSize := b_maxDataSize m; b_globalMsgChan := b_globalMsgChan m;
     b_connectedDevices := b_connectedDevices m; b_connected := b_connected m;
     b_disconnected := b_disconnected m; b_rejected := b_rejected m; b_alreadyRejected := b_alreadyRejected m;
     b_closed := b_closed m; b_nextCh := b_nextCh m; b_ctxDone := b_ctxDone m; b_stopped := b_stopped m |}.
Definition set_global (g : list Msg) (m : baseManager) : baseManager :=
  {| b_sessions := b_sessions m; b_maxDataSize := b_maxDataSize m; b_globalMsgChan := g;
     b_connectedDevices := b_connectedDevices m; b_connected := b_connected m;
     b_disconnected := b_disconnected m; b_rejected := b_rejected m; b_alreadyRejected := b_alreadyRejected m;
     b_closed := b_closed m; b_nextCh := b_nextCh m; b_ctxDone := b_ctxDone m; b_stopped := b_stopped m |}.
Definition set_devices (d : gset string) (m : baseManager) : baseManager :=
  {| b_sessions := b_sessions m; b_maxDataSize := b_maxDataSize m; b_globalMsgChan := b_globalMsgChan m;
     b_connectedDevices := d; b_connected := b_connected m;
     b_disconnected := b_disconnected m; b_rejected := b_rejected m; b_alreadyRejected := b_alreadyRejected m;
     b_closed := b_closed m; b_nextCh := b_nextCh m; b_ctxDone := b_ctxDone m; b_stopped := b_stopped m |}.
Definition set_signals (c d r : nat) (a : bool) (n : nat) (m : baseManager) : baseManager :=
  {| b_sessions := b_sessions m; b_maxDataSize := b_maxDataSize m; b_globalMsgChan := b_globalMsgChan m;
     b_connectedDevices := b_connectedDevices m; b_connected := c;
     b_disconnected := d; b_rejected := r; b_alreadyRejected := a;
     b_closed := b_closed m; b_nextCh := n; b_ctxDone := b_ctxDone m; b_stopped := b_stopped m |}.
Definition set_stopped (m : baseManager) : baseManager :=
  {| b_sessions := b_sessions m; b_maxDataSize := b_maxDataSize m; b_globalMsgChan := b_globalMsgChan m;
     b_connectedDevices := b_connectedDevices m; b_connected := b_connected m;
     b_disconnected := b_disconnected m; b_rejected := b_rejected m; b_alreadyRejected := b_alreadyRejected m;
     b_closed := b_closed m; b_nextCh := b_nextCh m; b_ctxDone := true; b_stopped := true |}.

Definition close_chan (c : nat) (m : baseManager) : outcome baseManager :=
  if decide (c ∈ b_closed m) then Panic "close of closed channel" else
  Ret {| b_sessions := b_sessions m; b_maxDataSize := b_maxDataSize m; b_globalMsgChan := b_globalMsgChan m;
         b_connectedDevices := b_connectedDevices m; b_connected := b_connected m;
         b_disconnected := b_disconnected m; b_rejected := b_rejected m; b_alreadyRejected := b_alreadyRejected m;
         b_closed := {[c]} ∪ b_closed m; b_nextCh := b_nextCh m; b_ctxDone := b_ctxDone m;
         b_stopped := b_stopped m |}.

(** the largest message of the transport, before the room for the header is taken off *)
Definition transport_size (config : Options) : option Z :=
  match MQTTOpts config with
  | Some n => Some (if n <=? 0 then MaxMQTTDataSize else n)
  | None =>
    if AMQPOpts config then Some (128 * 1024 * 1024)
    else if AzureIoTHubOpts config then Some MaxAzureIoTHubC2DDataSize
    else if GCPIoTCoreOpts config then Some MaxGCPIoTCoreC2DDataSize
    else if GRPCOpts config then Some MaxGRPCDataSize else None
  end.

(** channel 0 is connected, 1 is disconnected (closed from the start), 2 is rejected *)
Definition newBaseManager (now : Z) (config : Options) : result baseManager :=
  match transport_size config with
  | None => Err "unknown connectivity config"
  | Some maxDataSize =>
    let maxDataSize := maxDataSize - EmptyCmdSize in
    if maxDataSize <=? 0 then Err ("max data size too small, must be greater than " +:+ pretty EmptyCmdSize) else
    Ok {| b_sessions := NewSessionManager now; b_maxDataSize := maxDataSize; b_globalMsgChan := [];
          b_connectedDevices := ∅; b_connected := 0; b_disconnected := 1; b_rejected := 2;
          b_alreadyRejected := false; b_closed := {[1%nat]}; b_nextCh := 3;
          b_ctxDone := false; b_stopped := false |}
  end.

(** ** Posting commands *)

Definition the_cmd (kind sid seq : Z) (complete : bool) (payload : list Z) : Cmd :=
  {| c_Kind := kind; c_Sid := sid; c_Seq := seq; c_Complete := complete; c_Payload := payload |}.

(** One iteration per chunk: as many as there are payload bytes are enough, chunks being non empty.
    Returns the last sequence number and the error. *)
Fixpoint doPostData (fuel : nat) (chunkSize kind realSid lastSeq : Z) (complete : bool) (payload : list Z) (w : W)
    : outcome (W * Z * option string) :=
  if chunkSize <? Z.of_nat (length payload) then
    match fuel with
    | O => Diverge
    | S fuel =>
      let n := Z.to_nat chunkSize in
      let '(w, err) := sendData (marshal_cmd (the_cmd kind realSid lastSeq false (take n payload))) true w in
      match err with
      | Some e => Ret (w, lastSeq, Some ("failed to post cmd chunk: " +:+ e))
      | None => doPostData fuel chunkSize kind realSid (wrap64 (lastSeq + 1)) complete (drop n payload) w
      end
    end
  else
    let '(w, err) := sendData (marshal_cmd (the_cmd kind realSid lastSeq complete payload)) true w in
    match err with
    | Some e => Ret (w, lastSeq, Some ("failed to post cmd chunk: " +:+ e))
    | None => Ret (w, lastSeq, None)
    end.

(** What PostData gives back: the channel (the place of its session), the session id, the last
    sequence number and the error. *)
Record posted := { p_msgCh : option nat; p_realSid : Z; p_lastSeq : Z; p_err : option string }.

Definition is_stream_cmd (kind : Z) : bool :=
  (kind =? CMD_EXEC) || (kind =? CMD_ATTACH) || (kind =? CMD_LOGS) || (kind =? CMD_PORT_FORWARD) ||
  (kind =? CMD_METRICS_COLLECT).

Definition PostData (sid kind seq : Z) (completed : bool) (payload : list Z) (m : baseManager) (w : W)
    : outcome (baseManager * W * posted) :=
  let post (m : baseManager) (ch : option nat) (realSid : Z) (record : bool) :=
    '(w, lastSeq, err) ← doPostData (length payload) (b_maxDataSize m) kind realSid seq completed payload w;
    let m := if record && bool_decide (is_Some err)
             then set_sessions (Delete realSid (b_sessions m)) m else m in
    Ret (m, w, {| p_msgCh := ch; p_realSid := realSid; p_lastSeq := lastSeq; p_err := err |}) in
  if b_stopped m then
    Ret (m, w, {| p_msgCh := None; p_realSid := 0; p_lastSeq := seq; p_err := Some ErrManagerClosed |})
  else if kind =? CMD_SESSION_CLOSE then
    post (set_sessions (Delete sid (b_sessions m)) m) None sid false
  else if is_stream_cmd kind then
    Ret (m, w, {| p_msgCh := None; p_realSid := 0; p_lastSeq := seq;
                  p_err := Some "use PostStreamCmd to start stream session" |})
  else if (kind =? CMD_TTY_RESIZE) || (kind =? CMD_DATA_UPSTREAM) then
    if sid =? 0 then
      Ret (m, w, {| p_msgCh := None; p_realSid := 0; p_lastSeq := seq; p_err := Some "invalid zero sid" |})
    else post m None sid false
  else
    '(s, realSid, h) ← Add sid false false (b_sessions m);
    post (set_sessions s m) (Some h) realSid true.

(** The payload is nil, or a message with the result of its Marshal. *)
Definition PostCmd (sid kind : Z) (payloadCmd : option (result (list Z))) (m : baseManager) (w : W)
    : outcome (baseManager * W * posted) :=
  match payloadCmd with
  | Some (Err e) =>
    Ret (m, w, {| p_msgCh := None; p_realSid := 0; p_lastSeq := 0;
                  p_err := Some ("failed to marshal payload cmd: " +:+ e) |})
  | Some (Ok payload) => PostData sid kind 0 true payload m w
  | None => PostData sid kind 0 true [] m w
  end.

(** What PostStreamCmd gives back; [ps_ready] is the session that signals that the stream is ready. *)
Record posted_stream := { ps_msgCh : option nat; ps_ready : option nat; ps_realSid : Z; ps_err : option string }.
Definition stream_error (e : string) : posted_stream :=
  {| ps_msgCh := None; ps_ready := None; ps_realSid := 0; ps_err := Some e |}.

Definition PostStreamCmd (kind : Z) (payloadCmd : option (result (list Z))) (dataOut errOut : option Writer)
    (keepPacket : bool) (canWrite : option nat) (m : baseManager) (w : W)
    : outcome (baseManager * W * posted_stream) :=
  if b_stopped m then Ret (m, w, stream_error ErrManagerClosed) else
  let payload : result (list Z) :=
    if kind =? CMD_METRICS_COLLECT then Ok []
    else if (kind =? CMD_EXEC) || (kind =? CMD_ATTACH) || (kind =? CMD_LOGS) || (kind =? CMD_PORT_FORWARD) ||
            (kind =? CMD_RUNTIME) then
      match payloadCmd with
      | None => Err "invalid empty payload for stream operation"
      | Some (Err e) => Err ("failed to marshal payload: " +:+ e)
      | Some (Ok p) => Ok p
      end
    else Err ("invalid non stream cmd " +:+ quote (cmd_name kind)) in
  match payload with
  | Err e => Ret (m, w, stream_error e)
  | Ok payload =>
    '(s, realSid, h) ← Add 0 true keepPacket (b_sessions m);
    let '(s, ready) := SetStream realSid dataOut errOut canWrite s in
    match ready with
    | None => Ret (set_sessions (Delete realSid s) m, w,
                   {| ps_msgCh := Some h; ps_ready := None; ps_realSid := realSid;
                      ps_err := Some "failed to set session to stream mode" |})
    | Some r =>
      '(w, _, err) ← doPostData (length payload) (b_maxDataSize m) kind realSid 0 true payload w;
      let s := if err is Some _ then Delete realSid s else s in
      Ret (set_sessions s m, w, {| ps_msgCh := Some h; ps_ready := Some r; ps_realSid := realSid; ps_err := err |})
    end
  end.

(** ** Receiving messages *)

(** Msg.GetError *)
Definition GetError (msg : Msg) : option (Z * string) :=
  if negb (m_Kind msg =? MSG_ERROR) then None else
  match unmarshal_err (m_Payload msg) with
  | None => None
  | Some (kind, description) =>
    if kind =? ERR_COMMON then (if decide (description = "") then None else Some (kind, description))
    else Some (kind, description)
  end.

(** a message of no session goes to the global channel, of capacity 1 *)
Definition onRecvMsg (bytes : list Z) (m : baseManager) (w : W) : outcome (baseManager * W) :=
  match unmarshal_msg bytes with
  | None => Ret (m, w)
  | Some msg =>
    if b_stopped m then Ret (m, w) else
    '(s, w, dispatched) ← Dispatch msg (b_sessions m) w;
    let m := set_sessions s m in
    m ← (if dispatched : bool then Ret m
         else if (length (b_globalMsgChan m) <? 1)%nat then Ret (set_global (b_globalMsgChan m ++ [msg]) m)
         else Diverge);
    if m_Kind msg =? MSG_ERROR then
      if default 0 (fst <$> GetError msg) =? ERR_TIMEOUT then
        '(m, w, _) ← PostCmd 0 CMD_SESSION_CLOSE (Some (Ok (marshal_session_close (m_Sid msg)))) m w; Ret (m, w)
      else Ret (m, w)
    else Ret (m, w)
  end.

(** ** The connection signals *)

Definition Connected (m : baseManager) : nat := b_connected m.
Definition Disconnected (m : baseManager) : nat := b_disconnected m.
Definition Rejected (m : baseManager) : nat := b_rejected m.

Definition onReject (reject : W → W) (m : baseManager) (w : W) : outcome (baseManager * W) :=
  if b_alreadyRejected m then Ret (m, w) else
  let m := set_signals (b_connected m) (b_disconnected m) (b_rejected m) true (b_nextCh m) m in
  let w := reject w in
  m ← close_chan (b_rejected m) m; Ret (m, w).

Definition OnConnected (initialize : W → W * string) (m : baseManager) (w : W) : outcome (baseManager * W) :=
  let '(w, id) := initialize w in
  if decide (id = "") then Ret (m, w)
  else if b_stopped m then Ret (m, w) else
  let skipSignal := negb (size (b_connectedDevices m) =? 0)%nat in
  let m := set_devices ({[id]} ∪ b_connectedDevices m) m in
  if skipSignal then Ret (m, w)
  else if b_ctxDone m then Ret (m, w)
  else if decide (b_connected m ∈ b_closed m) then Ret (m, w)
  else
    m ← close_chan (b_connected m) m;
    Ret (set_signals (b_connected m) (b_nextCh m) (S (b_nextCh m)) false (S (S (b_nextCh m))) m, w).

(** [finalize] tells which device was lost, or that all were *)
Definition OnDisconnected (finalize : W → W * string * bool) (now : Z) (m : baseManager) (w : W)
    : outcome (baseManager * W) :=
  if (size (b_connectedDevices m) =? 0)%nat then Ret (m, w) else
  let '(w, id, all) := finalize w in
  let m := set_devices (if all : bool then ∅ else b_connectedDevices m ∖ {[id]}) m in
  if negb (size (b_connectedDevices m) =? 0)%nat then Ret (m, w) else
  m ← (if decide (b_disconnected m ∈ b_closed m) then Ret m else close_chan (b_disconnected m) m);
  let m := set_sessions (Cleanup now (b_sessions m)) m in
  Ret (set_signals (b_nextCh m) (b_disconnected m) (b_rejected m) (b_alreadyRejected m) (S (b_nextCh m)) m, w).

Definition onClose (closeManager : W → W) (m : baseManager) (w : W) : baseManager * W :=
  if b_stopped m then (m, w) else (set_stopped m, closeManager w).

(** ** The chunks of a command *)

(** the payload cut in pieces of [n] bytes, the last one possibly shorter *)
Fixpoint pieces (fuel n : nat) (payload : list Z) : list (list Z) :=
  match fuel with
  | O => [payload]
  | S fuel => if (n <? length payload)%nat then take n payload :: pieces fuel n (drop n payload) else [payload]
  end.

Lemma pieces_concat fuel n payload : concat (pieces fuel n payload) = payload.
Proof.
  revert payload; induction fuel as [|fuel IH]; intros payload; cbn [pieces].
  - cbn. by rewrite app_nil_r.
  - destruct (n <? length payload)%nat; cbn; [by rewrite IH, take_drop|by rewrite app_nil_r].
Qed.

Lemma pieces_length fuel n payload : (1 <= length (pieces fuel n payload) <= S fuel)%nat.
Proof.
  revert payload; induction fuel as [|fuel IH]; intros payload; cbn [pieces]; [cbn; lia|].
  destruct (n <? length payload)%nat; cbn [length]; [specialize (IH (drop n payload)); lia|lia].
Qed.

Lemma pieces_bound fuel n payload : (0 < n)%nat → (length payload <= fuel)%nat →
  Forall (λ c, (length c <= n)%nat) (pieces fuel n payload).
Proof.
  intros Hn. revert payload; induction fuel as [|fuel IH]; intros payload Hf; cbn [pieces].
  { apply Forall_singleton. lia. }
  destruct (Nat.ltb_spec n (length payload)) as [Hlt|Hge].
  - constructor; [rewrite length_take; lia|]. apply IH. rewrite length_drop. lia.
  - apply Forall_singleton. lia.
Qed.

(** the commands that carry the pieces: numbered from [seq], the last one marked complete *)
Definition commands (kind sid seq : Z) (complete : bool) (chunks : list (list Z)) : list Cmd :=
  imap (λ i c, the_cmd kind sid (wrap64 (seq + Z.of_nat i)) (complete && (S i =? length chunks)%nat) c) chunks.

Section Sending.
(** a transport that is up *)
Context (sent : list Z → W → W).
Hypothesis Hsend : ∀ bs w, sendData bs true w = (sent bs w, None).

Lemma commands_cons kind sid seq complete c chunks : chunks ≠ [] →
  commands kind sid seq complete (c :: chunks) =
  the_cmd kind sid (wrap64 seq) false c :: commands kind sid (wrap64 (seq + 1)) complete chunks.
Proof.
  intros Hne. unfold commands. cbn [imap]. f_equal.
  - f_equal; [f_equal; lia|]. destruct chunks; [done|]. cbn. apply andb_false_r.
  - apply imap_ext. intros i x _. cbn [length]. f_equal. unfold wrap64.
    rewrite Zplus_mod_idemp_l. cbn [compose]. do 2 f_equal. lia.
Qed.

Lemma doPostData_spec fuel n kind sid seq complete payload w : 0 < n → 0 <= seq < 2 ^ 64 →
  (length payload <= fuel)%nat →
  let chunks := pieces fuel (Z.to_nat n) payload in
  doPostData fuel n kind sid seq complete payload w =
    Ret (foldl (λ w c, sent (marshal_cmd c) w) w (commands kind sid seq complete chunks),
         wrap64 (seq + Z.of_nat (length chunks) - 1), None).
Proof.
  intros Hn. cbv zeta. revert seq payload w; induction fuel as [|fuel IH]; intros seq payload w Hseq Hf;
    cbn [doPostData pieces].
  - destruct (Z.ltb_spec n (Z.of_nat (length payload))); [lia|]. rewrite Hsend. cbn.
    rewrite andb_true_r, Z.add_0_r. unfold wrap64. rewrite !Z.mod_small by lia. do 3 f_equal. lia.
  - destruct (Z.ltb_spec n (Z.of_nat (length payload))) as [Hlt|Hge].
    + destruct (Nat.ltb_spec (Z.to_nat n) (length payload)); [|lia]. rewrite Hsend.
      rewrite IH; [|apply Z.mod_pos_bound; lia|rewrite length_drop; lia].
      pose proof (pieces_length fuel (Z.to_nat n) (drop (Z.to_nat n) payload)) as Hpl.
      rewrite commands_cons by (intros E; rewrite E in Hpl; cbn in Hpl; lia). cbn [foldl length].
      assert (wrap64 seq = seq) as -> by (apply Z.mod_small; lia). do 3 f_equal. unfold wrap64.
      rewrite <-Z.add_sub_assoc, Zplus_mod_idemp_l. f_equal. lia.
    + destruct (Nat.ltb_spec (Z.to_nat n) (length payload)); [lia|]. rewrite Hsend. cbn.
      rewrite andb_true_r, Z.add_0_r. unfold wrap64. rewrite !Z.mod_small by lia. do 3 f_equal. lia.
Qed.

End Sending.

(** the receiver of commands: it puts the chunks in order with the sequence queue *)
Definition receive_cmd (c : Cmd) (q : SeqQueue (list Z)) (out : list (Z * list Z))
    : outcome (SeqQueue (list Z) * list (Z * list Z) * bool) :=
  let q := if c_Complete c then (SetMaxSeq (c_Seq c) q).1 else q in
  Offer collect (c_Seq c) (c_Payload c) q out.
Fixpoint receive_cmds (cs : list Cmd) (q : SeqQueue (list Z)) (out : list (Z * list Z))
    : outcome (SeqQueue (list Z) * list (Z * list Z) * list bool) :=
  match cs with
  | [] => Ret (q, out, [])
  | c :: cs =>
    '(q, out, complete) ← receive_cmd c q out;
    '(q, out, flags) ← receive_cmds cs q out;
    Ret (q, out, complete :: flags)
  end.

End Manager.

Lemma receive_arrive kind sid chunks order q out : Z.of_nat (length chunks) < 2 ^ 64 →
  (∀ i, i ∈ order → (i < length chunks)%nat) →
  ∃ cs, mapM (λ i, commands kind sid 0 true chunks !! i) order = Some cs ∧
    receive_cmds cs q out = arrive_all collect chunks order q out.
Proof.
  intros Hb. revert q out; induction order as [|i order IH]; intros q out Hin; [by exists []|].
  destruct (lookup_lt_is_Some_2 chunks i) as [c Hc]; [apply Hin; set_solver|].
  assert (commands kind sid 0 true chunks !! i =
    Some (the_cmd kind sid (Z.of_nat i) (S i =? length chunks)%nat c)) as E.
  { unfold commands. rewrite list_lookup_imap, Hc. cbn. do 2 f_equal. unfold wrap64. apply Z.mod_small.
    apply lookup_lt_Some in Hc. lia. }
  assert (∀ i, i ∈ order → (i < length chunks)%nat) as Hin' by (intros j Hj; apply Hin; set_solver).
  destruct (IH q out Hin') as (cs & Ecs & _).
  exists (the_cmd kind sid (Z.of_nat i) (S i =? length chunks)%nat c :: cs). split.
  - cbn. rewrite E. cbn. by rewrite Ecs.
  - cbn [receive_cmds arrive_all]. unfold receive_cmd, arrive. rewrite Hc. cbn [c_Complete c_Seq c_Payload the_cmd].
    destruct (Offer _ _ _ _ _) as [[[q1 o1] f1]| |]; cbn [mbind outcome_bind]; [|done..].
    destruct (IH q1 o1 Hin') as (cs' & Ecs' & Er). rewrite Ecs in Ecs'. injection Ecs' as <-. by rewrite Er.
Qed.

(** Numbered commands that arrive in any order, also repeatedly, give their data back, and the last missing one completes it. *)
Lemma commands_reassemble kind sid chunks order i :
  (0 < length chunks)%nat → Z.of_nat (length chunks) < 2 ^ 64 → (∀ j, j ∈ order ++ [i] → (j < length chunks)%nat) →
  ¬ covers chunks order → covers chunks (order ++ [i]) →
  ∃ cs q out, mapM (λ j, commands kind sid 0 true chunks !! j) (order ++ [i]) = Some cs ∧
    receive_cmds cs NewSeqQueue [] = Ret (q, out, replicate (length order) false ++ [true]) ∧ concat out.*2 = concat chunks.
Proof.
  intros Hpos Hlen Hin Hnot Hall.
  destruct (receive_arrive kind sid chunks (order ++ [i]) NewSeqQueue []) as (cs & Ecs & Er); [lia|done|].
  destruct (reassembly_spec collect (λ out i d, out ++ [(Z.of_nat i, d)]) chunks (λ _, True))
    with (order := order) (i := i) (st0 := @nil (Z * list Z)) as [q E]; try done; try lia.
  exists cs, q, (imap (λ k d, (Z.of_nat k, d)) chunks). split; [done|]. split; [by rewrite Er, E, deliver_collect|].
  f_equal. rewrite fmap_imap. apply list_eq. intros k. rewrite list_lookup_imap. by destruct (chunks !! k).
Qed.

(** C4: what doPostData sends can be put back together: over a transport that is up, a payload of any
    size goes out as numbered commands of at most the chunk size, with no gap and no overlap and only
    the last one marked complete; a receiver that feeds them to a sequence queue gets exactly the
    payload, whatever the order in which the commands arrive and however often each is repeated. *)
Theorem posted_data_reassembles {W : Type} (marshal_cmd : Cmd → list Z)
    (sendData : list Z → bool → W → W * option string) (sent : list Z → W → W)
    (Hsend : ∀ bs w, sendData bs true w = (sent bs w, None))
    (chunkSize kind sid : Z) (payload : list Z) (w : W)
    (Hsize : 0 < chunkSize) (Hlen : Z.of_nat (length payload) < 2 ^ 64 - 1) :
  ∃ chunks,
    doPostData marshal_cmd sendData (length payload) chunkSize kind sid 0 true payload w =
      Ret (foldl (λ w c, sent (marshal_cmd c) w) w (commands kind sid 0 true chunks),
           Z.of_nat (length chunks) - 1, None) ∧
    concat chunks = payload ∧ Forall (λ c, Z.of_nat (length c) <= chunkSize) chunks ∧
    ∀ order i, (∀ j, j ∈ order ++ [i] → (j < length chunks)%nat) →
      ¬ covers chunks order → covers chunks (order ++ [i]) →
      ∃ cs q out, mapM (λ j, commands kind sid 0 true chunks !! j) (order ++ [i]) = Some cs ∧
        receive_cmds cs NewSeqQueue [] = Ret (q, out, replicate (length order) false ++ [true]) ∧
        concat out.*2 = payload.
Proof.
  set (chunks := pieces (length payload) (Z.to_nat chunkSize) payload).
  pose proof (pieces_length (length payload) (Z.to_nat chunkSize) payload) as Hl. fold chunks in Hl.
  exists chunks. split; [|split; [apply pieces_concat|split] ].
  - rewrite (doPostData_spec marshal_cmd sendData sent Hsend) by lia. fold chunks. do 3 f_equal.
    unfold wrap64. rewrite Z.mod_small by lia. lia.
  - apply Forall_impl with (λ c, (length c <= Z.to_nat chunkSize)%nat); [apply pieces_bound; lia|lia].
  - intros order i Hin Hnot Hall.
    destruct (commands_reassemble kind sid chunks order i) as (cs & q & out & ? & ? & Hc); [lia..|done|done|done|].
    exists cs, q, out. split_and!; [done|done|]. rewrite Hc. apply pieces_concat.
Qed.

(** ** The size of what is sent *)

Lemma sovProto_le x k : 0 <= x → 1 <= k → x < 2 ^ (7 * k) → sovProto x <= k.
Proof.
  intros Hx Hk Hlt. unfold sovProto.
  assert (Z.log2 (Z.lor x 1) < 7 * k).
  { rewrite Z.log2_lor by lia. change (Z.log2 1) with 0. apply Z.max_lub_lt; [|lia].
    destruct (Z.eq_dec x 0) as [->|]; [cbn; lia|]. apply Z.log2_lt_pow2; lia. }
  enough ((Z.log2 (Z.lor x 1) + 1 + 6) / 7 < k + 1) by lia. apply Z.div_lt_upper_bound; lia.
Qed.

Lemma varint_field x k : 0 <= x → 1 <= k → x < 2 ^ (7 * k) →
  (if x =? 0 then 0 else 1 + sovProto x) <= 1 + k.
Proof. intros Hx Hk Hlt. pose proof (sovProto_le x k Hx Hk Hlt). destruct (x =? 0); lia. Qed.

Lemma command_fits kind sid limit payload complete c : 30 < limit → limit < 2 ^ 35 → 0 <= kind < 2 ^ 7 →
  0 <= sid < 2 ^ 63 → Z.of_nat (length payload) < 2 ^ 63 - 1 →
  c ∈ commands kind sid 0 complete (pieces (length payload) (Z.to_nat (limit - 30)) payload) →
  Cmd_Size c <= limit.
Proof.
  intros Hpos Hsmall Hkind Hsid Hlen Hc. set (chunks := pieces _ _ _) in Hc.
  pose proof (pieces_length (length payload) (Z.to_nat (limit - 30)) payload) as Hl. fold chunks in Hl.
  unfold commands in Hc. apply elem_of_lookup_imap in Hc as (i & p & -> & Hp).
  assert (Z.of_nat (length p) <= limit - 30) as Hpl.
  { assert (Forall (λ c, (length c <= Z.to_nat (limit - 30))%nat) chunks) as HF by (apply pieces_bound; lia).
    pose proof (Forall_lookup_1 _ _ _ _ HF Hp) as H1. cbn in H1. lia. }
  apply lookup_lt_Some in Hp. unfold Cmd_Size. cbn [c_Kind c_Sid c_Seq c_Complete c_Payload the_cmd].
  unfold wrap64. rewrite Z.mod_small by lia. cbv zeta.
  pose proof (varint_field kind 1 ltac:(lia) ltac:(lia) ltac:(lia)).
  pose proof (varint_field sid 9 ltac:(lia) ltac:(lia) ltac:(lia)).
  pose proof (varint_field (0 + Z.of_nat i) 9 ltac:(lia) ltac:(lia) ltac:(lia)).
  assert (sovProto (Z.of_nat (length p)) <= 5) by (apply sovProto_le; lia).
  destruct (0 <? Z.of_nat (length p)), (complete && _); lia.
Qed.

(** C18: No command is larger than the transport allows: when a manager is made for a transport with a
    limit (below 2^35 bytes), every command doPostData sends for a payload (of any size, for ids below
    2^63, as the clock makes them) is encoded in at most that many bytes, as long as sending them succeeds; the
    room kept for the header is enough. *)
Theorem commands_fit {W : Type} (marshal_cmd : Cmd → list Z)
    (sendData : list Z → bool → W → W * option string) (sent : list Z → W → W)
    (Hsend : ∀ bs w, sendData bs true w = (sent bs w, None))
    (config : Options) (now limit kind sid : Z) (complete : bool) (payload : list Z) (m : baseManager) (w : W)
    (Hnew : newBaseManager now config = Ok m) (Hlimit : transport_size config = Some limit)
    (Hsmall : limit < 2 ^ 35) (Hkind : 0 <= kind < 2 ^ 7) (Hsid : 0 <= sid < 2 ^ 63)
    (Hlen : Z.of_nat (length payload) < 2 ^ 63 - 1) :
  ∃ cmds seq, doPostData marshal_cmd sendData (length payload) (b_maxDataSize m) kind sid 0 complete payload w =
      Ret (foldl (λ w c, sent (marshal_cmd c) w) w cmds, seq, None) ∧
    Forall (λ c, Cmd_Size c <= limit) cmds.
Proof.
  unfold newBaseManager in Hnew. rewrite Hlimit in Hnew. change EmptyCmdSize with 30 in Hnew.
  destruct (Z.leb_spec (limit - 30) 0); [done|]. injection Hnew as <-. cbn [b_maxDataSize].
  eexists _, _. split; [apply (doPostData_spec marshal_cmd sendData sent Hsend); lia|].
  apply Forall_forall. intros c Hc. eapply command_fits; [..|exact Hc]; lia.
Qed.

(** ** Sessions of the commands *)

Lemma Delete_subseteq sid (t : SessionManager) : m_sessions (Delete sid t) ⊆ m_sessions t.
Proof.
  unfold Delete. destruct (lookup_session sid t) as [[h s]|]; [|done]. cbn. apply delete_subseteq.
Qed.

Lemma Add_case sid stream keep (t t' : SessionManager) r h : Add sid stream keep t = Ret (t', r, h) →
  (t' = t ∧ r = sid ∧ m_sessions t !! sid = Some h) ∨
  (m_sessions t !! r = None ∧ m_sessions t' = <[r:=h]> (m_sessions t) ∧
   m_heap t' !! h = Some (newSession (m_epoch t) stream keep)).
Proof.
  unfold Add. destruct (m_sessions t !! sid) as [h0|] eqn:E; [intros [= <- <- <-]; by left|].
  destruct (nextSid t) as [r0|] eqn:En; [|done]. apply nextSid_go_unused in En. intros [= <- <- <-]. right.
  split; [done|]. split; [done|]. cbn. by rewrite lookup_app_r, Nat.sub_diag by lia.
Qed.

Lemma Add_Delete sid stream keep (t t' : SessionManager) r h : Add sid stream keep t = Ret (t', r, h) →
  m_sessions (Delete r t') ⊆ m_sessions t.
Proof.
  intros E. apply Add_case in E as [(-> & -> & H)|(H1 & H2 & H3)]; [apply Delete_subseteq|].
  unfold Delete. assert (lookup_session r t' = Some (h, newSession (m_epoch t) stream keep)) as ->.
  { apply lookup_session_Some. split; [|done]. rewrite H2. apply lookup_insert_eq. }
  cbn. rewrite H2, delete_insert_id by done. done.
Qed.

(** A command that fails leaves no session behind: when PostData returns an error, every session of
    the table was there before the call; when it succeeds for a command that starts a session, the
    session of the id it returns is in the table and is the one whose channel it returns. *)
Lemma PostData_sessions {W : Type} (marshal_cmd : Cmd → list Z)
    (sendData : list Z → bool → W → W * option string)
    (sid kind seq : Z) (completed : bool) (payload : list Z) (m m' : baseManager) (w w' : W) (r : posted)
    (Hpost : PostData marshal_cmd sendData sid kind seq completed payload m w = Ret (m', w', r)) :
  (p_err r ≠ None → m_sessions (b_sessions m') ⊆ m_sessions (b_sessions m)) ∧
  (∀ h, p_err r = None → p_msgCh r = Some h → m_sessions (b_sessions m') !! p_realSid r = Some h).
Proof.
  unfold PostData in Hpost. destruct (b_stopped m); [by injection Hpost as <- _ <-|].
  destruct (kind =? CMD_SESSION_CLOSE).
  { destruct (doPostData _ _ _ _ _ _ _ _ _ _) as [[[w1 l1] e1]| |]; [|done..]. cbn in Hpost.
    injection Hpost as <- _ <-. cbn. split; [intros _; apply Delete_subseteq|done]. }
  destruct (is_stream_cmd kind); [by injection Hpost as <- _ <-|]. destruct (_ || _).
  { destruct (sid =? 0); [by injection Hpost as <- _ <-|].
    destruct (doPostData _ _ _ _ _ _ _ _ _ _) as [[[w1 l1] e1]| |]; [|done..]. cbn in Hpost.
    by injection Hpost as <- _ <-. }
  destruct (Add sid false false (b_sessions m)) as [[[t realSid] h0]| |] eqn:E; [|done..].
  cbn [mbind outcome_bind] in Hpost.
  destruct (doPostData _ _ _ _ _ _ _ _ _ _) as [[[w1 l1] e1]| |]; [|done..]. cbn in Hpost.
  injection Hpost as <- _ <-. cbn. destruct e1 as [e|].
  - rewrite bool_decide_eq_true_2 by eauto. cbn. split; [intros _; by eapply Add_Delete|done].
  - rewrite bool_decide_eq_false_2 by (by intros [? ?]). cbn. split; [done|]. intros h _ [= <-].
    apply Add_case in E as [(-> & -> & H)|(_ & -> & _)]; [done|apply lookup_insert_eq].
Qed.

(** ** The connection signals *)

(** The device set and the signals agree. The context is the manager's own: it is cancelled when the
    manager closes, or from outside. *)
Definition signals_ok (m : baseManager) : Prop :=
  (b_connected m < b_nextCh m ∧ b_disconnected m < b_nextCh m ∧ b_rejected m < b_nextCh m)%nat ∧
  NoDup [b_connected m; b_disconnected m; b_rejected m] ∧
  (∀ c, c ∈ b_closed m → (c < b_nextCh m)%nat) ∧
  (b_rejected m ∈ b_closed m ↔ b_alreadyRejected m = true) ∧
  (b_ctxDone m = false →
     (b_connected m ∈ b_closed m ↔ b_connectedDevices m ≠ ∅) ∧
     (b_disconnected m ∈ b_closed m ↔ b_connectedDevices m = ∅)) ∧
  (b_connected m ∈ b_closed m → b_connectedDevices m ≠ ∅) ∧
  (b_connectedDevices m = ∅ → b_disconnected m ∈ b_closed m).

Lemma close_chan_spec c m : (c ∉ b_closed m) → ∃ m', close_chan c m = Ret m' ∧
  b_closed m' = {[c]} ∪ b_closed m ∧ b_connected m' = b_connected m ∧ b_disconnected m' = b_disconnected m ∧
  b_rejected m' = b_rejected m ∧ b_alreadyRejected m' = b_alreadyRejected m ∧ b_nextCh m' = b_nextCh m ∧
  b_ctxDone m' = b_ctxDone m ∧ b_connectedDevices m' = b_connectedDevices m ∧ b_sessions m' = b_sessions m.
Proof. intros H. unfold close_chan. rewrite decide_False by done. eexists. split; [done|]. done. Qed.

Lemma size_zero (d : gset string) : (size d =? 0)%nat = bool_decide (d = ∅).
Proof.
  apply eq_true_iff_eq. rewrite Nat.eqb_eq, bool_decide_eq_true. split; [intros H; by apply leibniz_equiv, size_empty_inv|].
  intros ->. apply size_empty.
Qed.

Section Signals.
Context {W : Type}.

Lemma OnConnected_ok (initialize : W → W * string) m w : signals_ok m →
  ∃ m' w', OnConnected initialize m w = Ret (m', w') ∧ signals_ok m'.
Proof.
  intros Hok. unfold OnConnected. destruct (initialize w) as [w1 id].
  destruct (decide (id = "")); [eauto|]. destruct (b_stopped m); [eauto|].
  set (m1 := set_devices _ m). rewrite size_zero.
  destruct Hok as ((H1 & H2 & H3) & Hnd & Hlt & Hrej & Hctx & Hc & Hd).
  assert (b_connectedDevices m1 ≠ ∅) as Hne by (cbn; set_solver).
  case_bool_decide as He; cbn [negb].
  - change (b_ctxDone m1) with (b_ctxDone m). destruct (b_ctxDone m) eqn:Ectx.
    { exists m1, w1. split; [done|]. unfold signals_ok. cbn. rewrite Ectx. split_and!; try done. }
    destruct (Hctx eq_refl) as [Hc1 Hd1].
    assert (b_connected m ∉ b_closed m) as Hop by (rewrite Hc1; naive_solver).
    change (b_closed m1) with (b_closed m). change (b_connected m1) with (b_connected m).
    rewrite decide_False by done.
    destruct (close_chan_spec (b_connected m) m1 Hop) as (m2 & -> & E1 & E2 & E3 & E4 & E5 & E6 & E7 & E8 & E9).
    eexists _, _. split; [done|]. unfold signals_ok. cbn. rewrite E1, E2, E6, E7, E8. cbn.
    split; [lia|]. split.
    { apply NoDup_cons. split; [set_unfold; lia|]. apply NoDup_cons. split; [set_unfold; lia|]. apply NoDup_singleton. }
    split; [intros c Hin; set_unfold; destruct Hin as [->|Hin]; [|apply Hlt in Hin]; lia|].
    assert (∀ k, (b_nextCh m <= k)%nat → k ∉ {[b_connected m]} ∪ b_closed m) as Hfresh.
    { intros k Hk Hin. apply elem_of_union in Hin as [->%elem_of_singleton|Hin]; [lia|]. apply Hlt in Hin. lia. }
    split; [split; [intros Hin; destruct (Hfresh (S (b_nextCh m))); [lia|done]|done]|].
    split; [intros _|].
    + split; [split; [done|set_solver]|]. split; [intros Hin; by destruct (Hfresh (b_nextCh m))|done].
    + split; [done|done].
  - exists m1, w1. split; [done|]. unfold signals_ok. cbn. split_and!; try done. intros E. destruct (Hctx E) as [Hc1 Hd1]. split; [split; [done|by intros _; apply Hc1]|].
    split; [intros Hin; by apply Hd1 in Hin|done].
Qed.

Lemma OnDisconnected_ok (finalize : W → W * string * bool) now m w : signals_ok m →
  ∃ m' w', OnDisconnected finalize now m w = Ret (m', w') ∧ signals_ok m'.
Proof.
  intros Hok. pose proof Hok as ((H1 & H2 & H3) & Hnd & Hlt & Hrej & Hctx & Hc & Hd).
  unfold OnDisconnected. rewrite size_zero. case_bool_decide as He; [eauto|].
  destruct (finalize w) as [[w1 id] all]. set (m1 := set_devices _ m). rewrite size_zero.
  case_bool_decide as He1; cbn [negb].
  2:{ exists m1, w1. split; [done|]. unfold signals_ok. cbn. split_and!; try done. intros E. destruct (Hctx E) as [Hc1 Hd1]. split; [split; [done|by intros _; apply Hc1]|].
      split; [intros Hin; by apply Hd1 in Hin|intros E1; by destruct He1]. }
  assert (∃ m2, (if decide (b_disconnected m1 ∈ b_closed m1) then Ret m1 else close_chan (b_disconnected m1) m1) = Ret m2 ∧
    b_closed m2 = {[b_disconnected m]} ∪ b_closed m ∧ b_connected m2 = b_connected m ∧
    b_disconnected m2 = b_disconnected m ∧ b_rejected m2 = b_rejected m ∧
    b_alreadyRejected m2 = b_alreadyRejected m ∧ b_nextCh m2 = b_nextCh m ∧ b_ctxDone m2 = b_ctxDone m ∧
    b_connectedDevices m2 = ∅) as (m2 & -> & E1 & E2 & E3 & E4 & E5 & E6 & E7 & E8).
  { destruct (decide _) as [Hin|Hin].
    - exists m1. split; [done|]. split; [cbn in *; set_solver|]. done.
    - destruct (close_chan_spec _ _ Hin) as (m2 & E & E1 & E2 & E3 & E4 & E5 & E6 & E7 & E8 & _).
      exists m2. split; [done|]. rewrite E1, E2, E3, E4, E5, E6, E7, E8. done. }
  cbn [mbind outcome_bind]. eexists _, _. split; [done|]. unfold signals_ok. cbn.
  rewrite E1, E3, E4, E5, E6, E7, E8. split; [lia|].
  rewrite !NoDup_cons in Hnd. destruct Hnd as (Hn1 & Hn2 & _).
  split.
  { apply NoDup_cons. split; [set_unfold; lia|]. apply NoDup_cons. split; [set_unfold; lia|]. apply NoDup_singleton. }
  split; [intros c Hin; set_unfold; destruct Hin as [->|Hin]; [|apply Hlt in Hin]; lia|].
  split; [rewrite <-Hrej; set_unfold; split; [intros [?|?]; [lia|done]|by right]|].
  assert (b_nextCh m ∉ {[b_disconnected m]} ∪ b_closed m) as Hfresh.
  { intros Hin. apply elem_of_union in Hin as [Heq%elem_of_singleton|Hin]; [lia|]. apply Hlt in Hin. lia. }
  split; [|split; [done|set_solver] ]. intros _. split; [split; [done|done]|]. split; [done|set_solver].
Qed.

Lemma onReject_ok (reject : W → W) m w : signals_ok m →
  ∃ m' w', onReject reject m w = Ret (m', w') ∧ signals_ok m'.
Proof.
  intros Hok. pose proof Hok as ((H1 & H2 & H3) & Hnd & Hlt & Hrej & Hctx & Hc & Hd).
  unfold onReject. destruct (b_alreadyRejected m) eqn:Er; [eauto|].
  set (m1 := set_signals _ _ _ _ _ m). assert (b_rejected m1 ∉ b_closed m1) as Hop by (cbn; intros H; by apply Hrej in H).
  destruct (close_chan_spec _ _ Hop) as (m2 & -> & E1 & E2 & E3 & E4 & E5 & E6 & E7 & E8 & _).
  cbn [mbind outcome_bind]. eexists _, _. split; [done|]. unfold signals_ok.
  rewrite E1, E2, E3, E4, E5, E6, E7, E8. cbn. split; [done|]. split; [done|].
  rewrite !NoDup_cons in Hnd. destruct Hnd as (Hn1 & Hn2 & _).
  split; [intros c Hin; set_unfold; destruct Hin as [->|Hin]; [done|by apply Hlt]|].
  split; [split; [done|set_solver]|].
  assert (∀ c, c ≠ b_rejected m → c ∈ {[b_rejected m]} ∪ b_closed m ↔ c ∈ b_closed m) as Hoth by set_solver.
  rewrite !Hoth by set_solver. done.
Qed.

(** what happens to the signals: devices come and go, are rejected, the manager closes, its context
    is cancelled from outside, and everything else (commands and messages) *)
Inductive signal_op :=
  | DeviceConnected (initialize : W → W * string)
  | DeviceDisconnected (finalize : W → W * string * bool) (now : Z)
  | DeviceRejected (reject : W → W)
  | Close (closeManager : W → W)
  | CancelContext
  | Traffic (sessions : SessionManager) (global : list Msg) (w : W).

Definition run_signal_op (o : signal_op) (m : baseManager) (w : W) : outcome (baseManager * W) :=
  match o with
  | DeviceConnected f => OnConnected f m w
  | DeviceDisconnected f now => OnDisconnected f now m w
  | DeviceRejected f => onReject f m w
  | Close f => Ret (onClose f m w)
  | CancelContext =>
    Ret ({| b_sessions := b_sessions m; b_maxDataSize := b_maxDataSize m; b_globalMsgChan := b_globalMsgChan m;
            b_connectedDevices := b_connectedDevices m; b_connected := b_connected m;
            b_disconnected := b_disconnected m; b_rejected := b_rejected m;
            b_alreadyRejected := b_alreadyRejected m; b_closed := b_closed m; b_nextCh := b_nextCh m;
            b_ctxDone := true; b_stopped := b_stopped m |}, w)
  | Traffic s g w => Ret (set_global g (set_sessions s m), w)
  end.
Fixpoint run_signal_ops (os : list signal_op) (m : baseManager) (w : W) : outcome (baseManager * W) :=
  match os with
  | [] => Ret (m, w)
  | o :: os => '(m, w) ← run_signal_op o m w; run_signal_ops os m w
  end.

Lemma run_signal_op_ok o m w : signals_ok m → ∃ m' w', run_signal_op o m w = Ret (m', w') ∧ signals_ok m'.
Proof.
  intros Hok. destruct o as [f|f now|f|f| |s g w1]; cbn [run_signal_op].
  - by apply OnConnected_ok.
  - by apply OnDisconnected_ok.
  - by apply onReject_ok.
  - unfold onClose. destruct (b_stopped m); [eauto|]. eexists _, _. split; [done|].
    destruct Hok as (H1 & H2 & H3 & H4 & _ & H6 & H7).
    refine (conj H1 (conj H2 (conj H3 (conj H4 (conj _ (conj H6 H7)))))); discriminate.
  - eexists _, _. split; [done|]. destruct Hok as (H1 & H2 & H3 & H4 & _ & H6 & H7).
    refine (conj H1 (conj H2 (conj H3 (conj H4 (conj _ (conj H6 H7)))))); discriminate.
  - eexists _, _. split; [done|exact Hok].
Qed.

Lemma run_signal_ops_ok os m w : signals_ok m → ∃ m' w', run_signal_ops os m w = Ret (m', w') ∧ signals_ok m'.
Proof.
  revert m w; induction os as [|o os IH]; intros m w Hok; cbn [run_signal_ops]; [eauto|].
  destruct (run_signal_op_ok o m w Hok) as (m1 & w1 & -> & Hok1). by apply IH.
Qed.

Lemma newBaseManager_ok now config m : newBaseManager now config = Ok m → signals_ok m.
Proof.
  unfold newBaseManager. destruct (transport_size config); [|done]. destruct (_ <=? 0); [done|]. intros [= <-].
  unfold signals_ok. cbn. split_and!; try done; try lia; try set_solver.
  repeat (apply NoDup_cons; split; [set_unfold; lia|]). apply NoDup_nil_2.
Qed.

(** The connection signals are right and never closed twice: starting from a new manager, any
    sequence of device connections, disconnections and rejections, traffic, closing and cancelling runs
    without panic, and afterwards (while the manager's context is alive) the connected signal is closed
    exactly when some device is connected and the disconnected signal exactly when none is. *)
Lemma signals_correct (now : Z) (config : Options) (m : baseManager) (w : W) (os : list signal_op)
    (Hnew : newBaseManager now config = Ok m) :
  ∃ m' w', run_signal_ops os m w = Ret (m', w') ∧
    (b_ctxDone m' = false →
      (Connected m' ∈ b_closed m' ↔ b_connectedDevices m' ≠ ∅) ∧
      (Disconnected m' ∈ b_closed m' ↔ b_connectedDevices m' = ∅)) ∧
    (Rejected m' ∈ b_closed m' ↔ b_alreadyRejected m' = true).
Proof.
  destruct (run_signal_ops_ok os m w (newBaseManager_ok _ _ _ Hnew)) as (m' & w' & E & Hok).
  exists m', w'. split; [done|]. destruct Hok as (_ & _ & _ & Hr & Hc & _). done.
Qed.

End Signals.
End Manager.

(** ** The manager over gRPC: mgr_grpc.go *)

Module Grpc.
Import Manager.

Section Grpc.
(** [W] is the outside: [stream_send] sends a command on the stream of a client. *)
Context {W : Type} (write : nat → list Z → W → W * Z * option string)
  (chan_ready : nat → W → bool) (marshal_err : Z → string → list Z)
  (marshal_cmd : Cmd → list Z) (unmarshal_cmd : list Z → Cmd)
  (marshal_msg : Msg → list Z) (unmarshal_msg : list Z → option Msg)
  (unmarshal_err : list Z → option (Z * string)) (unmarshal_state : list Z → option (Z * string))
  (marshal_session_close : Z → list Z) (marshal_reject : Z → string → list Z)
  (stream_send : nat → Cmd → W → W * option string).

(** The world of the base manager: clientSessions (the stream of each online id) and the outside. *)
Definition GW : Type := gmap string nat * W.

(** clientSessions.Range, in some order; the errors are combined *)
Definition send_all (cmd : Cmd) (clients : list (string * nat)) (w : W) : W * option string :=
  foldl (λ '(w, err) '(_, stream),
    let '(w, e) := stream_send stream cmd w in
    (w, match err, e with
        | None, e => e
        | Some e1, None => Some e1
        | Some e1, Some e2 => Some (e1 +:+ "; " +:+ e2)
        end)) (w, None) clients.

Definition sendData (cmdData : list Z) (ensure : bool) (g : GW) : GW * option string :=
  let cmd := unmarshal_cmd cmdData in
  let '(w, err) := send_all cmd (map_to_list g.1) g.2 in (g.1, w, err).

Definition reject_cmd (reason : Z) (message : string) : Cmd :=
  the_cmd CMD_REJECT 0 0 true (marshal_reject reason message).

(** NewGRPCManager registers the manager with the server, and Close stops the server and its listener. *)
Definition NewGRPCManager (now : Z) (config : Options) : result baseManager :=
  wrap_err "failed to create base manager: " (newBaseManager now config).
Definition Close (stop_server : W → W) (m : baseManager) (g : GW) : baseManager * GW := onClose (λ g, (g.1, stop_server g.2)) m g.

(** the errors of the sends are ignored *)
Definition Reject (reason : Z) (message : string) (m : baseManager) (g : GW) : outcome (baseManager * GW) :=
  onReject (λ g, (g.1, (send_all (reject_cmd reason message) (map_to_list g.1) g.2).1)) m g.

(** Msg.GetState *)
Definition GetState (msg : Msg) : option (Z * string) :=
  if m_Kind msg =? MSG_STATE then unmarshal_state (m_Payload msg) else None.

(** The local variables of one Sync call, for the client stream [y_stream]. *)
Record sync_state := { y_stream : nat; y_alreadyOnline : bool; y_onlineID : string; y_rejected : nat }.
Definition sync_start (stream : nat) (m : baseManager) : sync_state :=
  {| y_stream := stream; y_alreadyOnline := false; y_onlineID := ""; y_rejected := Rejected m |}.

Definition onRecvMsg' := onRecvMsg (W := GW)
  (λ id bs g, let '(w, n, e) := write id bs g.2 in ((g.1, w), n, e))
  (λ c g, chan_ready c g.2) marshal_err marshal_cmd unmarshal_msg unmarshal_err marshal_session_close sendData.

(** One message received on the stream: the new local state, and whether Sync returns. *)
Definition sync_msg (msg : Msg) (y : sync_state) (m : baseManager) (g : GW)
    : outcome (sync_state * baseManager * GW * bool) :=
  let receive (y : sync_state) (m : baseManager) (g : GW) : outcome (sync_state * baseManager * GW * bool) :=
    if y_alreadyOnline y then '(m, g) ← onRecvMsg' (marshal_msg msg) m g; Ret (y, m, g, false)
    else Ret (y, m, g, false) in
  if m_Kind msg =? MSG_STATE then
    match GetState msg with
    | None => '(m, g) ← Reject REJECTION_INVALID_PROTO "invalid protocol" m g; Ret (y, m, g, true)
    | Some (kind, deviceId) =>
      if kind =? STATE_ONLINE then
        if y_alreadyOnline y then
          '(m, g) ← Reject REJECTION_ALREADY_CONNECTED "client has sent online message once" m g;
          Ret (y, m, g, false)
        else
          let y := {| y_stream := y_stream y; y_alreadyOnline := false; y_onlineID := deviceId; y_rejected := y_rejected y |} in
          if g.1 !! deviceId is Some _ then
            '(m, g) ← Reject REJECTION_ALREADY_CONNECTED "client already connected with same online-id" m g;
            Ret (y, m, g, false)
          else
            let g := (<[deviceId := y_stream y]> g.1, g.2) in
            receive {| y_stream := y_stream y; y_alreadyOnline := true; y_onlineID := deviceId; y_rejected := y_rejected y |} m g
      else if kind =? STATE_OFFLINE then Ret (y, m, g, true)
      else receive y m g
    end
  else receive y m g.

(** The deferred call when Sync returns. *)
Definition sync_exit (y : sync_state) (now : Z) (m : baseManager) (g : GW) : outcome (baseManager * GW) :=
  OnDisconnected (λ g, ((if y_alreadyOnline y then delete (y_onlineID y) g.1 else g.1, g.2), y_onlineID y, false)) now m g.

(** Sync on the messages of its stream; the stream ends after them, is cancelled, or the device is
    rejected (the select may take the rejection as soon as it is signalled: it is taken first here). *)
Fixpoint sync_loop (msgs : list Msg) (y : sync_state) (m : baseManager) (g : GW) : outcome (sync_state * baseManager * GW) :=
  if decide (y_rejected y ∈ b_closed m) then Ret (y, m, g) else
  match msgs with
  | [] => Ret (y, m, g)
  | msg :: msgs =>
    '(y, m, g, exit) ← sync_msg msg y m g;
    if exit : bool then Ret (y, m, g) else sync_loop msgs y m g
  end.
Definition Sync (stream : nat) (msgs : list Msg) (now : Z) (m : baseManager) (g : GW) : outcome (baseManager * GW) :=
  '(y, m, g) ← sync_loop msgs (sync_start stream m) m g; sync_exit y now m g.

(** A second client that comes online with the id of a connected device evicts the device instead
    of being turned away: the rejection is sent on the stream of the connected client and not on the one
    of the newcomer, every stream is told of a rejection, and when the newcomer's stream ends the device
    is taken for disconnected while its client is still recorded as connected. *)
Lemma duplicate_client_evicts_first (id : string) (s1 s2 : nat) (msg : Msg) (now : Z) (m : baseManager) (w : W)
    (Hid : id ≠ "") (Hdev : b_connectedDevices m = {[id]})
    (Hkind : m_Kind msg = MSG_STATE) (Honline : unmarshal_state (m_Payload msg) = Some (STATE_ONLINE, id))
    (Hrej : b_alreadyRejected m = false) (Hopen : b_rejected m ∉ b_closed m) (Hne : b_disconnected m ≠ b_rejected m)
    (Hdis : b_disconnected m ∉ b_closed m) :
  ∃ m', Sync s2 [msg] now m ({[id := s1]}, w) =
      Ret (m', ({[id := s1]}, (stream_send s1 (reject_cmd REJECTION_ALREADY_CONNECTED
             "client already connected with same online-id") w).1)) ∧
    Rejected m ∈ b_closed m' ∧ b_connectedDevices m' = ∅ ∧ Disconnected m' ∈ b_closed m'.
Proof.
  unfold Sync. cbn [sync_loop sync_start y_rejected]. unfold Rejected. rewrite decide_False by done.
  unfold sync_msg, GetState. rewrite Hkind. change (MSG_STATE =? MSG_STATE) with true. cbv iota beta zeta.
  rewrite Honline. change (STATE_ONLINE =? STATE_ONLINE) with true. cbv iota beta.
  cbn [y_alreadyOnline fst]. rewrite lookup_singleton_eq. unfold Reject, onReject. rewrite Hrej.
  set (m1 := set_signals _ _ _ _ _ m).
  destruct (close_chan_spec (b_rejected m1) m1 Hopen) as (m2 & -> & E1 & E2 & E3 & E4 & E5 & E6 & E7 & E8 & _).
  change (y_alreadyOnline (sync_start s2 m)) with false. cbv iota beta. cbn [mbind outcome_bind].
  change (y_rejected _) with (b_rejected m). rewrite decide_True by (rewrite E1; cbn; set_solver). cbn [mbind outcome_bind].
  unfold sync_exit, OnDisconnected. rewrite E8. cbn [b_connectedDevices m1 set_signals]. rewrite Hdev, size_singleton.
  cbn [Nat.eqb y_alreadyOnline y_onlineID fst snd].
  set (m3 := set_devices _ m2). assert (b_connectedDevices m3 = ∅) as E3' by (cbn; set_solver).
  rewrite E3', size_empty. cbn [Nat.eqb negb].
  assert (b_disconnected m3 ∉ b_closed m3) as Hd3.
  { change (b_disconnected m3) with (b_disconnected m2). change (b_closed m3) with (b_closed m2).
    rewrite E1, E3. cbn. set_solver. }
  rewrite decide_False by done.
  destruct (close_chan_spec _ _ Hd3) as (m4 & -> & F1 & F2 & F3 & F4 & F5 & F6 & F7 & F8 & _).
  cbn [mbind outcome_bind]. eexists. split; [do 2 f_equal|].
  - rewrite map_to_list_singleton. cbn. by destruct (stream_send _ _ _).
  - unfold Disconnected. cbn. rewrite F1, F3, F8. split; [|split; [exact E3'|set_solver] ].
    change (b_closed m3) with (b_closed m2). rewrite E1. cbn. set_solver.
Qed.

End Grpc.
End Grpc.

(** ** The manager over a message queue: mgr_mq.go *)

Module Mq.
Import Manager.

Section Mq.
Context {W : Type}.
(** a messageQueueClient *)
Record messageQueueClient := {
  q_Connect : W → W * option string; q_Disconnect : W → W * option string;
  q_Subscribe : W → W * option string; q_Publish : list Z → W → W * option string
}.
Context (newMQTTClient newAMQPClient newAzureIoTHubClient newGCPIoTCoreClient : W → W * result messageQueueClient).
Context (topics : string) (marshal_cmd : Cmd → list Z) (marshal_reject : Z → string → list Z).

Definition new_client (opts : Options) : option (string * (W → W * result messageQueueClient)) :=
  if MQTTOpts opts is Some _ then Some ("mqtt", newMQTTClient)
  else if AMQPOpts opts then Some ("amqp", newAMQPClient)
  else if AzureIoTHubOpts opts then Some ("iot hub", newAzureIoTHubClient)
  else if GCPIoTCoreOpts opts then Some ("gcp pubsub", newGCPIoTCoreClient) else None.

Definition NewMessageQueueManager (now : Z) (opts : Options) (w : W)
    : W * result (baseManager * messageQueueClient) :=
  match newBaseManager now opts with
  | Err e => (w, Err ("failed to create base manager: " +:+ e))
  | Ok base =>
    match new_client opts with
    | None => (w, Err ErrUnsupportedManager)
    | Some (what, make) =>
      match make w with
      | (w, Err e) => (w, Err ("failed to create " +:+ what +:+ " client: " +:+ e))
      | (w, Ok client) =>
        let '(w, err) := q_Connect client w in
        match err with
        | Some e => let '(w, _) := q_Disconnect client w in (w, Err ("failed to connect to broker: " +:+ e))
        | None =>
          let '(w, err) := q_Subscribe client w in
          match err with
          | Some e => let '(w, _) := q_Disconnect client w in
                      (w, Err ("failed to subscribe topic " +:+ topics +:+ ": " +:+ e))
          | None => (w, Ok (base, client))
          end
        end
      end
    end
  end.

Definition sendData (client : messageQueueClient) (bytes : list Z) (ensure : bool) (w : W) : W * option string :=
  q_Publish client bytes w.

Definition Close (client : messageQueueClient) (now : Z) (m : baseManager) (w : W) : outcome (baseManager * W) :=
  '(m, w) ← OnDisconnected (λ w, ((q_Disconnect client w).1, "", true)) now m w;
  Ret (onClose id m w).

Definition Reject (client : messageQueueClient) (reason : Z) (message : string) (m : baseManager) (w : W)
    : outcome (baseManager * W) :=
  onReject (λ w, (sendData client
    (marshal_cmd (the_cmd CMD_REJECT 0 0 true (marshal_reject reason message))) true w).1) m w.

(** NewManager: one manager per kind of transport, message queues first *)
Definition NewManager (now : Z) (opts : Options) (w : W) : W * result (baseManager * option messageQueueClient) :=
  if bool_decide (is_Some (MQTTOpts opts)) || AMQPOpts opts || AzureIoTHubOpts opts || GCPIoTCoreOpts opts then
    let '(w, r) := NewMessageQueueManager now opts w in (w, '(base, client) ← r; Ok (base, Some client))
  else if GRPCOpts opts then (w, base ← Grpc.NewGRPCManager now opts; Ok (base, None))
  else (w, Err ErrUnsupportedManager).
(** What NewManager gives back: a manager whose size of messages is that of its transport, less the room for the header, and over a message
    queue a client that has connected and subscribed. *)
Lemma NewManager_Ok now opts w w' base client :
  NewManager now opts w = (w', Ok (base, client)) →
  newBaseManager now opts = Ok base ∧
  match client with
  | None => w' = w ∧ new_client opts = None
  | Some c => ∃ what make w1 w2, new_client opts = Some (what, make) ∧ make w = (w1, Ok c) ∧ q_Connect c w1 = (w2, None) ∧ q_Subscribe c w2 = (w', None)
  end.
Proof.
  unfold NewManager. destruct (bool_decide (is_Some (MQTTOpts opts)) || AMQPOpts opts || AzureIoTHubOpts opts || GCPIoTCoreOpts opts) eqn:E.
  - unfold NewMessageQueueManager. destruct (newBaseManager now opts) as [b|]; [|done]. destruct (new_client opts) as [ [what make]|]; [|done].
    destruct (make w) as [w1 [c|e] ] eqn:E1; [|done]. destruct (q_Connect c w1) as [w2 [e|] ] eqn:E2; [by destruct (q_Disconnect c w2)|].
    destruct (q_Subscribe c w2) as [w3 [e|] ] eqn:E3; [by destruct (q_Disconnect c w3)|]. cbn. intros [= <- <- <-]. split; [done|].
    by exists what, make, w1, w2.
  - destruct (GRPCOpts opts); [|done]. unfold Grpc.NewGRPCManager. destruct (newBaseManager now opts) as [b|]; [|done]. cbn.
    intros [= <- <- <-]. split; [done|]. split; [done|]. unfold new_client. apply orb_false_iff in E as [E E4]. apply orb_false_iff in E as [E E3].
    apply orb_false_iff in E as [E1 E2]. rewrite E2, E3, E4. destruct (MQTTOpts opts); [done|done].
Qed.

End Mq.
End Mq.

(** ** Concrete runs *)

Module Examples.
Import Manager Grpc.

(** a plain encoding, and a transport that keeps what it is given *)
Definition enc_cmd (c : Cmd) : list Z :=
  [c_Kind c; c_Sid c; c_Seq c; if c_Complete c then 1 else 0] ++ c_Payload c.
Definition wire := list (list Z).
Definition wire_sent (bs : list Z) (w : wire) : wire := w ++ [bs].
Definition wire_send (bs : list Z) (ensure : bool) (w : wire) : wire * option string := (wire_sent bs w, None).
Definition wire_down (bs : list Z) (ensure : bool) (w : wire) : wire * option string := (w, Some "down").

Definition payload7 : list Z := [1; 2; 3; 4; 5; 6; 7].

Lemma posted_data_reassembles_witness :
  ∃ chunks,
    doPostData enc_cmd wire_send (length payload7) 3 12 9 0 true payload7 [] =
      Ret (foldl (λ w c, wire_sent (enc_cmd c) w) [] (commands 12 9 0 true chunks),
           Z.of_nat (length chunks) - 1, None) ∧
    concat chunks = payload7 ∧ Forall (λ c, Z.of_nat (length c) <= 3) chunks ∧
    ∀ order i, (∀ j, j ∈ order ++ [i] → (j < length chunks)%nat) →
      ¬ covers chunks order → covers chunks (order ++ [i]) →
      ∃ cs q out, mapM (λ j, commands 12 9 0 true chunks !! j) (order ++ [i]) = Some cs ∧
        receive_cmds cs NewSeqQueue [] = Ret (q, out, replicate (length order) false ++ [true]) ∧
        concat out.*2 = payload7.
Proof. apply posted_data_reassembles; [done|lia|cbn; lia]. Defined.

Definition grpc_only : Options :=
  {| GRPCOpts := true; MQTTOpts := None; AMQPOpts := false; AzureIoTHubOpts := false; GCPIoTCoreOpts := false |}.
Definition new_grpc : baseManager :=
  match newBaseManager 5 grpc_only with
  | Ok m => m
  | Err _ => set_stopped {| b_sessions := NewSessionManager 0; b_maxDataSize := 0; b_globalMsgChan := [];
               b_connectedDevices := ∅; b_connected := 0; b_disconnected := 0; b_rejected := 0;
               b_alreadyRejected := false; b_closed := ∅; b_nextCh := 0; b_ctxDone := false; b_stopped := false |}
  end.

Lemma commands_fit_witness :
  ∃ cmds seq, doPostData enc_cmd wire_send (length payload7) (b_maxDataSize new_grpc) 12 9 0 true payload7 [] =
      Ret (foldl (λ w c, wire_sent (enc_cmd c) w) [] cmds, seq, None) ∧
    Forall (λ c, Cmd_Size c <= MaxGRPCDataSize) cmds.
Proof. by apply (commands_fit enc_cmd wire_send wire_sent ltac:(done) grpc_only 5). Defined.

Definition posted7 : outcome (baseManager * wire * posted) :=
  PostData enc_cmd wire_down 0 11 0 true payload7 new_grpc [].
Lemma PostData_sessions_witness : ∃ m' w' r, posted7 = Ret (m', w', r) ∧ p_err r ≠ None ∧
  (p_err r ≠ None → m_sessions (b_sessions m') ⊆ m_sessions (b_sessions new_grpc)) ∧
  (∀ h, p_err r = None → p_msgCh r = Some h → m_sessions (b_sessions m') !! p_realSid r = Some h).
Proof.
  assert (is_Ret posted7) as Hr by (vm_compute; exact I).
  destruct posted7 as [ [ [m' w'] r]| |] eqn:E; [|done|done]. exists m', w', r. split; [done|].
  assert (∃ e, match posted7 with Ret (_, _, r) => p_err r | _ => None end = Some e) as [e He] by (vm_compute; by eexists).
  rewrite E in He. split; [congruence|].
  exact (PostData_sessions enc_cmd wire_down 0 11 0 true payload7 new_grpc m' [] w' r E).
Defined.

(** a device comes, is rejected, and goes *)
Definition visit : list (signal_op (W := wire)) :=
  [DeviceConnected (λ w, (w, "dev")); DeviceRejected id; DeviceDisconnected (λ w, (w, "dev", false)) 9].

Lemma signals_correct_witness :
  ∃ m' w', run_signal_ops visit new_grpc [] = Ret (m', w') ∧
    (b_ctxDone m' = false →
      (Connected m' ∈ b_closed m' ↔ b_connectedDevices m' ≠ ∅) ∧
      (Disconnected m' ∈ b_closed m' ↔ b_connectedDevices m' = ∅)) ∧
    (Rejected m' ∈ b_closed m' ↔ b_alreadyRejected m' = true).
Proof. by apply (signals_correct 5 grpc_only). Defined.

(** the manager with the device dev connected on stream 1 *)
Definition online_msg : Msg :=
  {| m_Kind := MSG_STATE; m_Sid := 0; m_Seq := 0; m_Complete := true; m_Payload := [STATE_ONLINE] |}.
Definition dec_state (bs : list Z) : option (Z * string) := match bs with [k] => Some (k, "dev") | _ => None end.
Definition stream_log (s : nat) (c : Cmd) (w : list (nat * Cmd)) : list (nat * Cmd) * option string := (w ++ [(s, c)], None).
Definition connected_grpc : baseManager :=
  match OnConnected (λ w : wire, (w, "dev")) new_grpc [] with Ret (m, _) => m | _ => new_grpc end.

Definition no_write (id : nat) (bs : list Z) (w : list (nat * Cmd)) : list (nat * Cmd) * Z * option string := (w, 0, None).
Definition always (c : nat) (w : list (nat * Cmd)) : bool := true.
Definition enc_err (kind : Z) (d : string) : list Z := [kind].
Definition dec_cmd (bs : list Z) : Cmd := the_cmd 0 0 0 true bs.
Definition dec_msg (bs : list Z) : option Msg := None.
Definition dec_err (bs : list Z) : option (Z * string) := None.
Definition enc_close (sid : Z) : list Z := [sid].

Lemma duplicate_client_evicts_first_witness :
  ∃ m', Sync no_write always enc_err enc_cmd dec_cmd m_Payload dec_msg dec_err dec_state enc_close enc_err
      stream_log 2 [online_msg] 9 connected_grpc ({["dev" := 1%nat]}, []) =
      Ret (m', ({["dev" := 1%nat]}, (stream_log 1 (reject_cmd enc_err REJECTION_ALREADY_CONNECTED
             "client already connected with same online-id") []).1)) ∧
    Rejected connected_grpc ∈ b_closed m' ∧ b_connectedDevices m' = ∅ ∧ Disconnected m' ∈ b_closed m'.
Proof.
  apply (duplicate_client_evicts_first no_write always enc_err enc_cmd dec_cmd m_Payload dec_msg dec_err dec_state
    enc_close enc_err stream_log "dev" 1 2 online_msg 9 connected_grpc []); done.
Defined.

End Examples.
