(* ===== verification/Streams.v ===== *)
(** * A stream command and its answer: connectivity, end to end

    What PostStreamCmd promises its caller, with everything else the manager does in between: other commands and their answers, devices that
    connect and disconnect, timeouts. Nothing here models code of its own; [activity] and [exchange] are sequences of the operations of
    Connectivity.v and Session.v. *)
From S2P Require Import Prelude SeqQueue Session Connectivity.
Import Session.Session Session.SessionManager Connectivity.Manager.
Open Scope Z_scope.

#[export] Instance Writer_eq_dec : EqDecision Writer.
Proof. solve_decision. Defined.

Module Streams.

Section Streams.
Context {W : Type} (write : nat → list Z → W → W * Z * option string)
  (chan_ready : nat → W → bool) (marshal_err : Z → string → list Z)
  (marshal_cmd : Cmd → list Z) (unmarshal_msg : list Z → option Msg)
  (unmarshal_err : list Z → option (Z * string)) (marshal_session_close : Z → list Z)
  (cmd_name : Z → string) (sendData : list Z → bool → W → W * option string).

(** [view id w]: the bytes written to the writer [id] so far. A writer takes everything it is given; sending writes to none. *)
Context (view : nat → W → list Z).
Definition writers_take : Prop := ∀ id bs w, ∃ w', write id bs w = (w', Z.of_nat (length bs), None) ∧
  ∀ id', view id' w' = if decide (id' = id) then view id' w ++ bs else view id' w.
Definition sends_apart : Prop := ∀ bs ensure w id, view id (sendData bs ensure w).1 = view id w.
Hypothesis (Hwrite : writers_take) (Hsend : sends_apart).

(** The stream: its session id, the place of its session, its writers, and the chunks of its answer, of both kinds. *)
Context (r : Z) (h : nat) (dataOut errOut : option Writer) (canWrite : option nat) (chunks : list data).

Definition out_of : Writer := default Discard dataOut.
Definition err_of : Writer := default out_of errOut.
Definition target (kind : Z) : Writer := if kind =? MSG_DATA_STDERR then err_of else out_of.
Definition own (id : nat) : Prop := out_of = Wr id ∨ err_of = Wr id.
(** what the chunks write to the writer [id] *)
Definition written (id : nat) (ds : list data) : list Z :=
  concat (d_payload <$> filter (λ d, target (d_kind d) = Wr id) ds).
Definition own_msg (i : nat) (d : data) : Msg :=
  {| m_Kind := d_kind d; m_Sid := r; m_Seq := Z.of_nat i; m_Complete := (S i =? length chunks)%nat; m_Payload := d_payload d |}.

Definition same (w w' : W) : Prop := ∀ id, own id → view id w' = view id w.

(** ** Writing the stream *)

Definition streaming (s : session) : Prop :=
  s__closed s = false ∧ s_isStream s = true ∧ s_prependSize s = false ∧ s_canWrite s = canWrite ∧
  s_dataOut s = Some out_of ∧ s_errOut s = Some err_of ∧ s_chan s = [] ∧ s_msgCh s = true ∧ s_chan_closed s = false ∧
  (s_streamReady s = Some false ∧ s__streamReady s = false ∨ s_streamReady s = Some true ∧ s__streamReady s = true).

Hypothesis Hready : ∀ c w, canWrite = Some c → chan_ready c w = true.

Lemma written_app id ds1 ds2 : written id (ds1 ++ ds2) = written id ds1 ++ written id ds2.
Proof. unfold written. by rewrite filter_app, fmap_app, concat_app. Qed.

Lemma write_all_own t bs w : ∃ w', write_all write (length bs) (Some t) bs w = Ret (w', None) ∧
  ∀ id, view id w' = if decide (t = Wr id) then view id w ++ bs else view id w.
Proof.
  destruct bs as [|b bs].
  { exists w. split; [done|]. intros id. rewrite app_nil_r. by case_decide. }
  cbn [write_all length]. rewrite decide_False by done.
  assert (∃ w', target_write write (Some t) (b :: bs) w = Ret (w', Z.of_nat (S (length bs)), None) ∧
    ∀ id, view id w' = if decide (t = Wr id) then view id w ++ b :: bs else view id w) as (w' & -> & Hw').
  { destruct t as [|k]; cbn [target_write].
    - exists w. split; [done|]. intros id. by rewrite decide_False.
    - destruct (Hwrite k (b :: bs) w) as (w' & -> & Hw'). exists w'. split; [done|]. intros id. rewrite Hw'.
      destruct (decide (id = k)) as [->|]; [by rewrite decide_True|]. rewrite decide_False; [done|]. by intros [= ->]. }
  exists w'. split; [|done]. cbn [mbind outcome_bind length].
  destruct (Z.ltb_spec (Z.of_nat (S (length bs))) 0) as [?|_]; [lia|].
  rewrite Z.ltb_irrefl. cbn [orb]. rewrite Nat2Z.id. cbn [drop]. rewrite drop_all. by destruct (length bs).
Qed.

Lemma write_own d s w : streaming s → is_data_kind (d_kind d) = true →
  ∃ w', stream_data write chan_ready marshal_err r (d_kind d) (d_payload d) s w = Ret (set_ready (Some true) true s, w') ∧
    ∀ id, own id → view id w' = view id w ++ written id [d].
Proof.
  intros (H1 & H2 & H3 & H4 & H5 & H6 & _ & _ & _ & Hr) Hk.
  destruct (write_all_own (target (d_kind d)) (d_payload d) w) as (w' & Ew & Hw). exists w'. split.
  - unfold stream_data, writeToStream. rewrite H2. cbn [negb].
    assert (write_ready write chan_ready (d_kind d) (d_payload d) (set_ready (Some true) true s) w =
      Ret (set_ready (Some true) true s, w', None)) as Er.
    { unfold write_ready. cbn [s_canWrite s_errOut s_dataOut s_prependSize set_ready]. rewrite H3, H4, H5, H6.
      replace (match canWrite with None => true | Some c => chan_ready c w end) with true
        by (destruct canWrite eqn:E; [by rewrite Hready|done]).
      cbn [negb mbind outcome_bind]. replace (if d_kind d =? MSG_DATA_STDERR then Some err_of else Some out_of)
        with (Some (target (d_kind d))) by (unfold target; by destruct (_ =? _)).
      by rewrite Ew. }
    destruct Hr as [[Hr1 Hr2]|[Hr1 Hr2] ]; rewrite Hr2, ?Hr1.
    + by rewrite Er.
    + assert (s = set_ready (Some true) true s) as Es by (destruct s; cbn in *; by subst). rewrite Es at 1. by rewrite Er.
  - intros id _. rewrite Hw. unfold written. destruct (decide (target (d_kind d) = Wr id)).
    + rewrite filter_cons_True by done. cbn. by rewrite app_nil_r.
    + rewrite filter_cons_False by done. cbn. by rewrite app_nil_r.
Qed.

(** ** Delivering a chunk *)

Hypothesis (Hlen : (0 < length chunks)%nat) (Hbound : Z.of_nat (length chunks) < 2 ^ 64)
  (Hkinds : Forall (λ d, is_data_kind (d_kind d) = true) chunks).
(** what the writers had been given before *)
Context (v0 : nat → list Z).

(** the reference handler: it keeps the chunks it is given *)
Definition accept (seq : Z) (d : data) (log : list data) : outcome (list data) :=
  if is_data_kind (d_kind d) then Ret (log ++ [d]) else Panic "not stream data".
Definition snoc (log : list data) (i : nat) (d : data) : list data := log ++ [d].
Lemma deliver_snoc log i ds : deliver_from snoc log i ds = log ++ ds.
Proof.
  revert log i; induction ds as [|d ds IH]; intros log i; cbn; [by rewrite app_nil_r|]. rewrite IH. unfold snoc. by rewrite <-app_assoc.
Qed.

Definition follows (st : session * W) (log : list data) : Prop :=
  open_core st.1 ∧ streaming st.1 ∧ ∀ id, own id → view id st.2 = v0 id ++ written id log.

Lemma streaming_ready s : streaming s → streaming (set_ready (Some true) true s).
Proof. intros (?&?&?&?&?&?&?&?&?&_). repeat (split; [done|]). by right. Qed.

Lemma handle_sim i d st log log' : follows st log → accept i d log = Ret log' →
  ∃ st', handle_chunk write chan_ready marshal_err r i d st = Ret st' ∧ follows st' log'.
Proof.
  destruct st as [s w]. intros (Ho & Hs & Hv) E. unfold accept in E. destruct (is_data_kind (d_kind d)) eqn:Ek; [|done].
  injection E as <-. destruct (write_own d s w Hs Ek) as (w' & Ew & Hw). unfold handle_chunk. rewrite Ek, Ew.
  eexists. split; [done|]. split; [exact Ho|]. split; [by apply streaming_ready|]. intros id Hid. cbn [snd].
  rewrite Hw, Hv by done. by rewrite written_app, app_assoc.
Qed.

Lemma own_deliver i d sh s w q log q' log' c : chunks !! i = Some d → (1 < length chunks)%nat →
  s__closed sh = false → prepare sh = waiting s q → follows (s, w) log → arrive accept chunks i q log = Ret (q', log', c) →
  ∃ s' w', deliverMsg write chan_ready marshal_err (own_msg i d) sh w =
      Ret (if c then close (waiting s' q') else waiting s' q', w', true, c) ∧ follows (s', w') log'.
Proof.
  intros Hd Hmany Hc Hp Hf E. unfold arrive in E. rewrite Hd in E.
  apply (Offer_sim _ _ follows handle_sim _ _ _ (s, w)) in E as ([s' w'] & E & Hf'); [|done]. exists s', w'. split; [|done].
  destruct Hf as ((_ & Hq & _) & _). pose proof Hf' as ((Hc' & _) & _). unfold deliverMsg. rewrite Hc.
  replace ((m_Seq (own_msg i d) =? 0) && m_Complete (own_msg i d)) with false.
  2:{ symmetry. apply andb_false_iff. cbn [m_Seq m_Complete own_msg].
      destruct (Z.eqb_spec (Z.of_nat i) 0); [right|by left]. apply Nat.eqb_neq. lia. }
  rewrite Hp. cbn [s_seqQ waiting set_buffer m_Complete m_Seq m_Sid m_Kind m_Payload own_msg].
  assert (set_buffer (s_msgBuffer (waiting s q)) None (waiting s q) = s) as ->.
  { unfold waiting. destruct s; cbn in *. by subst. }
  replace {| d_kind := d_kind d; d_payload := d_payload d |} with d by (by destruct d).
  rewrite E. cbn [mbind outcome_bind]. fold (waiting s' q'). destruct c; cbn [negb]; [|done].
  unfold flush, close. change (s__closed (waiting s' q')) with (s__closed s'). cbn in Hc'. rewrite Hc'. done.
Qed.

(** ** The session of the stream in the table *)

(** a session that writes to none of the stream's writers *)
Definition foreign (s : session) : Prop :=
  ∀ id, own id → s_dataOut s ≠ Some (Wr id) ∧ s_errOut s ≠ Some (Wr id).
Definition apart (t : SessionManager) : Prop :=
  m_sessions t !! r = Some h ∧ (∀ sid, sid ≠ r → m_sessions t !! sid ≠ Some h) ∧
  (∀ h' s, h' ≠ h → m_heap t !! h' = Some s → foreign s) ∧ ∃ s, m_heap t !! h = Some s ∧ streaming s.

(** the chunks [seen] have arrived, and are not all *)
Definition tracked (seen : list nat) (t : SessionManager) (w : W) : Prop :=
  ∃ n q sh s, m_heap t !! h = Some sh ∧ prepare sh = waiting s q ∧ follows (s, w) (take n chunks) ∧
    (n < length chunks)%nat ∧ inv snoc chunks seen n [] q (deliver_from snoc [] 0 (take n chunks)).
Definition finished (t : SessionManager) (w : W) : Prop :=
  m_sessions t !! r = None ∧
  (∃ s, m_heap t !! h = Some s ∧ s__closed s = true ∧ s_chan s = [] ∧ s_chan_closed s = true) ∧
  ∀ id, own id → view id w = v0 id ++ written id chunks.

Lemma finish_intro t s w : m_sessions t !! r = Some h → (h < length (m_heap t))%nat → streaming s →
  (∀ id, own id → view id w = v0 id ++ written id chunks) →
  finished (Delete r (set_heap (<[h := close s]> (m_heap t)) t)) w.
Proof.
  intros Hr Hl Hs Hv. set (t' := set_heap _ t).
  assert (lookup_session r t' = Some (h, close s)) as El.
  { apply lookup_session_Some. split; [done|]. by apply list_lookup_insert_eq. }
  unfold Delete. rewrite El. split; [apply lookup_delete_eq|]. split; [|done]. exists (close (close s)). split.
  - cbn. apply list_lookup_insert_eq. by rewrite length_insert.
  - rewrite close_idem. destruct Hs as (Hc & _ & _ & _ & _ & _ & Hch & Hm & _). unfold close. rewrite Hc. cbn.
    split; [done|]. split; [done|]. by rewrite Hm, orb_true_r.
Qed.

Lemma streaming_waiting sh s q : prepare sh = waiting s q → streaming s ↔ streaming sh.
Proof. intros E. change (streaming (waiting s q) ↔ streaming (prepare sh)). by rewrite E. Qed.

Lemma own_dispatch seen t w i d : apart t → tracked seen t w → (∀ j, j ∈ seen → (j < length chunks)%nat) →
  ¬ covers chunks seen → chunks !! i = Some d →
  ∃ t' w', Dispatch write chan_ready marshal_err (own_msg i d) t w = Ret (t', w', true) ∧
    (¬ covers chunks (seen ++ [i]) → apart t' ∧ tracked (seen ++ [i]) t' w') ∧
    (covers chunks (seen ++ [i]) → finished t' w').
Proof.
  intros (Hr & Hother & Hfor & _) (n & q & sh & s & Hh & Hp & Hf & Hn & Hinv) Hseen Hnc Hd.
  pose proof (lookup_lt_Some _ _ _ Hh) as Hlt. pose proof (lookup_lt_Some _ _ _ Hd) as Hi.
  assert (streaming sh) as Hsh by (apply (streaming_waiting _ _ _ Hp), Hf).
  pose proof Hsh as (Hc & Hst & _). unfold Dispatch.
  assert (lookup_session (m_Sid (own_msg i d)) t = Some (h, sh)) as -> by by apply lookup_session_Some.
  rewrite Hst. cbn [negb]. rewrite andb_false_r. cbn [m_Sid own_msg].
  destruct (decide (length chunks = 1%nat)) as [H1|H1].
  - assert (i = 0%nat) as -> by lia. assert (chunks = [d]) as Ed.
    { destruct chunks as [|d' [|]]; cbn in *; try lia. congruence. }
    assert (n = 0%nat) as -> by lia. unfold deliverMsg. rewrite Hc. cbn [m_Seq m_Complete own_msg]. rewrite H1. cbn [Nat.eqb Z.of_nat Z.eqb andb].
    cbn [m_Kind m_Sid m_Payload own_msg].
    assert (is_data_kind (d_kind d) = true) as Hk by (by eapply (Forall_lookup_1 _ _ _ _ Hkinds)). rewrite Hk.
    destruct (write_own d sh w Hsh Hk) as (w' & -> & Hw). cbn [mbind outcome_bind].
    eexists _, w'. split; [done|]. split; [intros Hno; destruct Hno; intros j Hj; set_unfold; lia|].
    intros _. apply finish_intro; [done|done|by apply streaming_ready|]. intros id Hid. rewrite Hw by done.
    destruct Hf as (_ & _ & Hv). specialize (Hv id Hid). cbn in Hv. by rewrite Hv, app_nil_r, <-Ed.
  - destruct (arrive_spec accept snoc chunks (λ _, True)) with (seen := seen) (n := n) (st0 := @nil data) (q := q)
      (st := deliver_from snoc [] 0 (take n chunks)) (i := i) as (n' & q' & E & Hle & Hinv'); [|lia..|done|done|lia|lia|done|].
    { intros k e st _ Hk. unfold accept. rewrite (Forall_lookup_1 _ _ _ _ Hkinds Hk). done. }
    rewrite !deliver_snoc in E. cbn [app] in E.
    destruct (own_deliver i d sh s w q _ _ _ _ Hd ltac:(lia) Hc Hp Hf E) as (s' & w' & -> & Hf'). cbn [mbind outcome_bind].
    pose proof (inv_covers _ _ _ _ _ _ _ Hinv' Hle) as Hcov.
    eexists _, w'. split; [done|]. split.
    + intros Hno. rewrite bool_decide_eq_false_2 by (intros H; by apply Hno, Hcov). split.
      * split; [done|]. split; [done|]. split.
        { intros h' s1 Hne Hl. cbn in Hl. rewrite list_lookup_insert_ne in Hl by done. by eapply Hfor. }
        exists (waiting s' q'). split; [by apply list_lookup_insert_eq|]. apply Hf'.
      * exists n', q', (waiting s' q'), s'. split; [by apply list_lookup_insert_eq|]. split.
        { unfold prepare, waiting. cbn. destruct Hf' as ((_ & _ & b & Hb) & _). cbn in Hb. by rewrite Hb. }
        split; [done|]. split; [|done]. assert (n' ≠ length chunks) by (intros ->; by apply Hno, Hcov). lia.
    + intros Hall. apply Hcov in Hall as ->. rewrite bool_decide_eq_true_2 by done.
      apply finish_intro; [done|done|apply Hf'|]. destruct Hf' as (_ & _ & Hv). intros id Hid. specialize (Hv id Hid). cbn in Hv. by rewrite Hv, take_ge.
Qed.

(** ** Other sessions *)

Lemma same_trans w1 w2 w3 : same w1 w2 → same w2 w3 → same w1 w3.
Proof. intros H1 H2 id Hid. by rewrite H2, H1. Qed.

Definition strange (t : option Writer) : Prop := ∀ id, own id → t ≠ Some (Wr id).

Lemma target_same t bs w w' n e : strange t → target_write write t bs w = Ret (w', n, e) → same w w'.
Proof.
  intros Ht. destruct t as [ [|k]|]; cbn [target_write]; [by intros [= <- _ _]| |done].
  destruct (Hwrite k bs w) as (w1 & -> & Hw). intros [= <- _ _] id Hid. rewrite Hw, decide_False; [done|].
  intros ->. by apply (Ht k).
Qed.

Lemma write_all_same fuel t bs w w' e : strange t → write_all write fuel t bs w = Ret (w', e) → same w w'.
Proof.
  intros Ht. revert bs w; induction fuel as [|fuel IH]; intros bs w; cbn [write_all];
    (case_decide; [by intros [= <- _]|]); [done|].
  destruct (target_write _ _ _ _) as [[[w1 n] e1]| |] eqn:E; cbn [mbind outcome_bind]; [|done..].
  apply target_same in E; [|done]. destruct e1; [by intros [= <- _]|]. destruct (_ || _); [done|].
  intros Ew%IH. by eapply same_trans.
Qed.

Lemma write_ready_foreign kind bs s w s' w' e : foreign s →
  write_ready write chan_ready kind bs s w = Ret (s', w', e) → s' = s ∧ same w w'.
Proof.
  intros Hs E. split; [by eapply write_ready_same|]. revert E. unfold write_ready. cbv zeta.
  destruct (negb _); [destruct (s__closed s); [by intros [= _ <- _]|done]|].
  set (t := if kind =? _ then _ else _).
  assert (strange t) as Ht by (intros id Hid; unfold t; destruct (_ =? _); by apply Hs).
  assert (∀ w1 e1, (if s_prependSize s
      then '(w, _, err) ← target_write write t (uvarint 10 (Z.of_nat (length bs))) w; Ret (w, err)
      else Ret (w, None)) = Ret (w1, e1) → same w w1) as Hpre.
  { intros w1 e1. destruct (s_prependSize s); [|by intros [= <- _]].
    destruct (target_write _ _ _ _) as [[[w2 n] e2]| |] eqn:E; cbn [mbind outcome_bind]; [|done..].
    intros [= <- _]. by eapply target_same. }
  destruct (if s_prependSize s then _ else _) as [[w1 [err|]]| |] eqn:E1; cbn [mbind outcome_bind]; [| |done..].
  - intros [= _ <- _]. by eapply Hpre.
  - destruct (write_all _ _ _ _ _) as [[w2 err]| |] eqn:E2; cbn [mbind outcome_bind]; [|done..].
    intros [= _ <- _]. eapply same_trans; [by eapply Hpre|]. by eapply write_all_same.
Qed.

Lemma send_foreign m s s' : foreign s → send_or_closed m s = Ret s' → foreign s'.
Proof.
  intros Hs. unfold send_or_closed. destruct (s__closed s); [by intros [= <-]|]. destruct (negb _); [done|].
  destruct (s_chan_closed s); [done|]. destruct (_ <? _)%nat; [|done]. by intros [= <-].
Qed.

Lemma stream_data_foreign sid kind bs s w s' w' : foreign s →
  stream_data write chan_ready marshal_err sid kind bs s w = Ret (s', w') → foreign s' ∧ same w w'.
Proof.
  intros Hs. unfold stream_data. destruct (writeToStream _ _ _ _ _ _) as [[[s1 w1] e]| |] eqn:E; cbn [mbind outcome_bind]; [|done..].
  assert (foreign s1 ∧ same w w1) as [Hs1 Hw1].
  { revert E. unfold writeToStream. destruct (negb (s_isStream s)); [by intros [= <- <- _]|].
    destruct (s__streamReady s); [by intros [-> ?]%write_ready_foreign|].
    destruct (s_streamReady s) as [[|]|]; [by intros [= <- <- _]|by intros [-> ?]%write_ready_foreign|done]. }
  destruct e; [|by intros [= <- <-]].
  destruct (send_or_closed _ _) as [s2| |] eqn:E2; cbn [mbind outcome_bind]; [|done..]. intros [= <- <-].
  split; [by eapply send_foreign|done].
Qed.

Lemma foreign_close s : foreign s → foreign (close s).
Proof. intros Hs. unfold close. by destruct (s__closed s). Qed.

Lemma deliverMsg_foreign msg s w s' w' d c : foreign s →
  deliverMsg write chan_ready marshal_err msg s w = Ret (s', w', d, c) → foreign s' ∧ same w w'.
Proof.
  intros Hs. unfold deliverMsg. destruct (s__closed s) eqn:Ec; [by intros [= <- <- _ _]|]. destruct (_ && _).
  - destruct (is_data_kind _).
    + destruct (stream_data _ _ _ _ _ _ _ _) as [[s1 w1]| |] eqn:E; cbn [mbind outcome_bind]; [|done..].
      intros [= <- <- _ _]. apply stream_data_foreign in E as [? ?]; [|done]. split; [by apply foreign_close|done].
    + destruct (send_or_closed _ _) as [s1| |] eqn:E; cbn [mbind outcome_bind]; [|done..].
      intros [= <- <- _ _]. split; [|done]. eapply foreign_close, send_foreign; [|done]. done.
  - cbn [s_seqQ prepare set_buffer]. set (q := if m_Complete msg then _ else _). cbv zeta.
    destruct (Offer _ _ _ _ _) as [[[q' [s1 w1]] c1]| |] eqn:E; cbn [mbind outcome_bind]; [|done..].
    apply (Offer_preserves _ (λ st, foreign st.1 ∧ same w st.2)) in E; [|clear -Hwrite|done].
    2:{ intros i e [s0 w0] [s2 w2] [H1 H2]. unfold handle_chunk. destruct (is_data_kind _).
        - intros [H3 H4]%stream_data_foreign; [|done]. split; [done|]. by eapply same_trans.
        - destruct (s_msgBuffer s0); [|done]. intros [= <- <-]. done. }
    destruct E as [H1 H2]. destruct c1; cbn [negb]; [|by intros [= <- <- _ _]].
    set (s2 := set_buffer _ _ s1). assert (foreign (close s2)) as H3 by by apply foreign_close.
    unfold flush. destruct (s_msgBuffer (close s2)); [|by intros [= <- <- _ _]].
    destruct (negb _); [done|]. destruct (s_chan_closed (close s2)); [done|]. destruct (_ <? _)%nat; [|done].
    by intros [= <- <- _ _].
Qed.

(** ** Operations that leave the stream alone *)

Definition leaves (t : SessionManager) (w : W) (t' : SessionManager) (w' : W) : Prop :=
  m_heap t' !! h = m_heap t !! h ∧ apart t' ∧ same w w'.

Lemma leaves_refl t w w' : apart t → same w w' → leaves t w t w'.
Proof. done. Qed.
Lemma leaves_trans t1 w1 t2 w2 t3 w3 : leaves t1 w1 t2 w2 → leaves t2 w2 t3 w3 → leaves t1 w1 t3 w3.
Proof. intros (H1 & _ & H2) (H3 & H4 & H5). split; [congruence|]. split; [done|]. by eapply same_trans. Qed.

Lemma leaves_intro t w t' : apart t → m_heap t' !! h = m_heap t !! h →
  m_sessions t' !! r = Some h → (∀ sid, sid ≠ r → m_sessions t' !! sid ≠ Some h) →
  (∀ h' s, h' ≠ h → m_heap t' !! h' = Some s → foreign s) → leaves t w t' w.
Proof. intros (_ & _ & _ & Hs) Hh H1 H2 H3. split; [done|]. split; [|done]. split; [done|]. split; [done|]. split; [done|]. by rewrite Hh. Qed.

(** a session of the table other than the stream's is replaced *)
Lemma update_leaves t w h' s t' : apart t → h' ≠ h → foreign s →
  m_heap t' = <[h' := s]> (m_heap t) → m_sessions t' = m_sessions t → leaves t w t' w.
Proof.
  intros Ht Hne Hs Eh Es. pose proof Ht as (H1 & H2 & H3 & _). apply leaves_intro; rewrite ?Eh, ?Es; [done| |done|done|].
  - by rewrite list_lookup_insert_ne.
  - intros k s1 Hk Hl. apply list_lookup_insert_Some in Hl as [(_ & <- & _)|[_ Hl] ]; [done|by eapply H3].
Qed.

Lemma other_session sid t h' s : apart t → sid ≠ r → lookup_session sid t = Some (h', s) → h' ≠ h ∧ foreign s.
Proof.
  intros (_ & H2 & H3 & _) Hne E. apply lookup_session_Some in E as [E1 E2]. assert (h' ≠ h) as Hh by (intros ->; by apply (H2 sid)).
  split; [done|]. by eapply H3.
Qed.

Lemma Delete_leaves sid t w : apart t → sid ≠ r → leaves t w (Delete sid t) w.
Proof.
  intros Ht Hne. unfold Delete. destruct (lookup_session sid t) as [[h' s]|] eqn:E; [|done].
  destruct (other_session _ _ _ _ Ht Hne E) as [Hh Hs]. pose proof Ht as (H1 & H2 & H3 & _). apply leaves_intro; cbn; [done|..].
  - by rewrite list_lookup_insert_ne.
  - by rewrite lookup_delete_ne.
  - intros sid' Hs' Hl. apply lookup_delete_Some in Hl as [_ Hl]. by apply (H2 sid').
  - intros k s1 Hk Hl. apply list_lookup_insert_Some in Hl as [(_ & <- & _)|[_ Hl] ]; [by apply foreign_close|by eapply H3].
Qed.

Lemma Add_leaves sid stream keep t w t' r' h' : apart t → Add sid stream keep t = Ret (t', r', h') →
  leaves t w t' w ∧ (sid ≠ r → r' ≠ r).
Proof.
  intros Ht. unfold Add. destruct (m_sessions t !! sid) as [h0|]; [by intros [= <- <- <-]|].
  destruct (nextSid t) as [r1|] eqn:En; [|done]. apply nextSid_go_unused in En. intros [= <- <- <-].
  pose proof Ht as (H1 & H2 & H3 & s & Hs & _). pose proof (lookup_lt_Some _ _ _ Hs) as Hl.
  assert (r1 ≠ r) by congruence. split; [|done]. apply leaves_intro; cbn; [done|..].
  - by rewrite lookup_app_l.
  - by rewrite lookup_insert_ne.
  - intros sid' Hne E. apply lookup_insert_Some in E as [[_ E]|[_ E] ]; [lia|by apply (H2 sid')].
  - intros k s1 Hk E. apply lookup_app_Some in E as [E|[_ E] ]; [by eapply H3|].
    apply list_lookup_singleton_Some in E as [_ <-]. done.
Qed.

Lemma SetStream_leaves sid o e c t w t' x : apart t → sid ≠ r → strange o → strange e →
  SetStream sid o e c t = (t', x) → leaves t w t' w.
Proof.
  intros Ht Hne Ho He. unfold SetStream. destruct (lookup_session sid t) as [[h' s]|] eqn:E; [|by intros [= <- _] ].
  destruct (other_session _ _ _ _ Ht Hne E) as [Hh Hs]. unfold setStream.
  destruct (s_streamReady s); cbn [negb]; [by intros [= <- _]|]. intros [= <- _].
  eapply update_leaves; [done|exact Hh| |done|done]. intros id Hid. specialize (Ho id Hid). specialize (He id Hid). cbn.
  split; [|destruct e; [cbn; congruence|] ]; destruct o; cbn; congruence.
Qed.

Lemma Dispatch_leaves msg t w t' w' d : apart t → m_Sid msg ≠ r →
  Dispatch write chan_ready marshal_err msg t w = Ret (t', w', d) → leaves t w t' w'.
Proof.
  intros Ht Hne. unfold Dispatch. destruct (lookup_session _ t) as [[h' s]|] eqn:E; [|by intros [= <- <- _] ].
  destruct (other_session _ _ _ _ Ht Hne E) as [Hh Hs].
  destruct (_ && _); [intros [= <- <- _]; by apply Delete_leaves|].
  destruct (deliverMsg _ _ _ _ _ _) as [[[[s1 w1] d1] c1]| |] eqn:Ed; cbn [mbind outcome_bind]; [|done..].
  apply deliverMsg_foreign in Ed as [Hs1 Hw1]; [|done]. intros [= <- <- _].
  assert (leaves t w (set_heap (<[h':=s1]> (m_heap t)) t) w1) as HL.
  { apply leaves_trans with t w1; [done|]. by eapply update_leaves. }
  destruct c1; [|done]. eapply leaves_trans; [exact HL|]. apply Delete_leaves; [apply HL|done].
Qed.

Lemma Cleanup_leaves now t w : apart t → r ≠ 0 → leaves t w (Cleanup now t) w.
Proof.
  intros Ht Hr. pose proof Ht as (H1 & H2 & H3 & s & Hs & Hst). pose proof Hst as (_ & Hi & _).
  assert (∀ k, m_sessions (Cleanup now t) !! k = Some h → m_sessions t !! k = Some h) as Hold.
  { intros k. unfold Cleanup. cbn. destruct (cleanup_fields (map_to_list (m_sessions t)) t) as [-> _].
    rewrite lookup_foldr_delete. by case_decide. }
  apply leaves_intro; [done|..].
  - rewrite Cleanup_heap, Hs. cbn. by rewrite Hi, andb_false_r.
  - unfold Cleanup. cbn. destruct (cleanup_fields (map_to_list (m_sessions t)) t) as [-> _].
    rewrite lookup_foldr_delete, decide_False; [done|]. intros [Hin|Hin]%elem_of_app; [|by apply elem_of_replicate in Hin as [-> _] ].
    apply list_elem_of_fmap in Hin as ([k h'] & -> & Hf). apply list_elem_of_filter in Hf as [Hf Hin].
    apply elem_of_map_to_list in Hin. cbn in *. assert (h' = h) as -> by congruence. unfold is_stream_at in Hf. cbn in Hf.
    rewrite Hs in Hf. congruence.
  - intros sid Hne E. by apply (H2 sid Hne), Hold.
  - intros k s1 Hk. rewrite Cleanup_heap. intros (s2 & E & ->)%fmap_Some. pose proof (H3 k s2 Hk E).
    destruct (_ && _); [by apply foreign_close|done].
Qed.

Lemma timeout_leaves e t w t' w' : apart t → e.2 ≠ r →
  onSessionTimeout write chan_ready marshal_err e t w = Ret (t', w') → leaves t w t' w'.
Proof.
  intros Ht Hne. unfold onSessionTimeout.
  destruct (Dispatch _ _ _ _ _ _) as [[[t1 w1] d]| |] eqn:E; cbn [mbind outcome_bind]; [|done..]. intros [= <- <-].
  apply Dispatch_leaves in E; [|done|done]. eapply leaves_trans; [exact E|]. apply Delete_leaves; [apply E|done].
Qed.

Lemma stream_timeout_leaves e t w : apart t → e.2 ≠ h → leaves t w (onStreamCreationTimeout e t) w.
Proof.
  intros Ht Hne. unfold onStreamCreationTimeout. destruct (m_heap t !! e.2) as [s|] eqn:E; [|done].
  destruct (s_streamReady s); [|done]. eapply update_leaves; [done|exact Hne| |done|done].
  pose proof Ht as (_ & _ & H3 & _). exact (H3 _ _ Hne E).
Qed.

Lemma receive_leaves k t w c t' : apart t → receive k t = Some (c, t') → leaves t w t' w.
Proof.
  intros Ht. unfold receive. intros (s & E & E2)%bind_Some. destruct (s_chan s) as [|c0 cs] eqn:Ec; [done|]. injection E2 as _ <-.
  pose proof Ht as (_ & _ & H3 & s0 & Hs0 & Hst).
  assert (k ≠ h) as Hne. { intros ->. destruct Hst as (_&_&_&_&_&_&Hch&_). congruence. }
  eapply update_leaves; [done|exact Hne| |done|done]. exact (H3 _ _ Hne E).
Qed.

(** ** The manager *)

Abbreviation doPostData := (doPostData marshal_cmd sendData).
Abbreviation PostData := (PostData marshal_cmd sendData).
Abbreviation PostCmd := (PostCmd marshal_cmd sendData).
Abbreviation PostStreamCmd := (PostStreamCmd marshal_cmd cmd_name sendData).
Abbreviation onRecvMsg :=
  (onRecvMsg write chan_ready marshal_err marshal_cmd unmarshal_msg unmarshal_err marshal_session_close sendData).

Definition mleaves (m : baseManager) (w : W) (m' : baseManager) (w' : W) : Prop :=
  leaves (b_sessions m) w (b_sessions m') w' ∧ b_stopped m' = b_stopped m.

Lemma sendData_view bs ensure w w' e : sendData bs ensure w = (w', e) → ∀ id, view id w' = view id w.
Proof. intros E id. by rewrite <-(Hsend bs ensure w id), E. Qed.

Lemma doPostData_view fuel n kind sid seq complete payload w w' l e :
  doPostData fuel n kind sid seq complete payload w = Ret (w', l, e) → ∀ id, view id w' = view id w.
Proof.
  revert seq payload w; induction fuel as [|fuel IH]; intros seq payload w; cbn [Manager.doPostData];
    (destruct (_ <? _); [try done|]).
  2: destruct (sendData _ true w) as [w1 [e1|]] eqn:E; pose proof (sendData_view _ _ _ _ _ E) as Hv; [by intros [= <- _ _]|];
       intros Ew id; by rewrite (IH _ _ _ Ew id), Hv.
  all: destruct (sendData _ true w) as [w1 [e1|]] eqn:E; pose proof (sendData_view _ _ _ _ _ E) as Hv; by intros [= <- _ _].
Qed.

Lemma PostData_leaves sid kind seq completed payload m w m' w' p : apart (b_sessions m) →
  sid ≠ r ∨ kind = CMD_TTY_RESIZE ∨ kind = CMD_DATA_UPSTREAM →
  PostData sid kind seq completed payload m w = Ret (m', w', p) → mleaves m w m' w'.
Proof.
  intros Ht Hsid. unfold Manager.PostData. destruct (b_stopped m); [by intros [= <- <- _]|].
  destruct (kind =? CMD_SESSION_CLOSE) eqn:E1.
  { apply Z.eqb_eq in E1. destruct (doPostData _ _ _ _ _ _ _ _) as [[[w1 l1] e1]| |] eqn:E; cbn; [|done..].
    intros [= <- <- _]. split; [|done]. assert (sid ≠ r) as Hne by (destruct Hsid as [?|[?|?] ]; [done|by subst..]).
    eapply leaves_trans; [by apply Delete_leaves|]. apply leaves_refl; [by eapply Delete_leaves|].
    intros id _. by eapply doPostData_view. }
  destruct (is_stream_cmd kind); [by intros [= <- <- _]|]. destruct (_ || _) eqn:E2.
  { destruct (sid =? 0); [by intros [= <- <- _]|].
    destruct (doPostData _ _ _ _ _ _ _ _) as [[[w1 l1] e1]| |] eqn:E; cbn; [|done..].
    intros [= <- <- _]. split; [|done]. apply leaves_refl; [done|]. intros id _. by eapply doPostData_view. }
  assert (sid ≠ r) as Hne by (destruct Hsid as [?|[->| ->] ]; done).
  destruct (Add _ _ _ _) as [[[t r1] h1]| |] eqn:Ea; cbn [mbind outcome_bind]; [|done..].
  apply (Add_leaves _ _ _ _ w) in Ea as [Ha Hr1]; [|done].
  destruct (doPostData _ _ _ _ _ _ _ _) as [[[w1 l1] e1]| |] eqn:E; cbn [mbind outcome_bind]; [|done..].
  assert (leaves (b_sessions m) w t w1) as H1.
  { eapply leaves_trans; [exact Ha|]. apply leaves_refl; [apply Ha|]. intros id _. by eapply doPostData_view. }
  cbv zeta. match goal with |- context [if ?b then _ else _] => destruct b end; intros [= <- <- _]; (split; [|done]); [|done].
  cbn. eapply leaves_trans; [exact H1|]. apply Delete_leaves; [apply H1|auto].
Qed.

Lemma PostCmd_leaves sid kind payload m w m' w' p : apart (b_sessions m) →
  sid ≠ r ∨ kind = CMD_TTY_RESIZE ∨ kind = CMD_DATA_UPSTREAM →
  PostCmd sid kind payload m w = Ret (m', w', p) → mleaves m w m' w'.
Proof.
  intros Ht Hsid. unfold Manager.PostCmd. destruct payload as [ [bs|e]|]; [by apply PostData_leaves|by intros [= <- <- _]|by apply PostData_leaves].
Qed.

Lemma PostStreamCmd_leaves kind payload o e keep c m w m' w' p : apart (b_sessions m) → r ≠ 0 → strange o → strange e →
  PostStreamCmd kind payload o e keep c m w = Ret (m', w', p) → mleaves m w m' w'.
Proof.
  intros Ht Hr Ho He. unfold Manager.PostStreamCmd. destruct (b_stopped m); [by intros [= <- <- _]|].
  destruct (if kind =? _ then _ else _) as [bs|er]; [|by intros [= <- <- _] ].
  destruct (Add _ _ _ _) as [[[t r1] h1]| |] eqn:Ea; cbn [mbind outcome_bind]; [|done..].
  apply (Add_leaves _ _ _ _ w) in Ea as [Ha Hr1]; [|done]. specialize (Hr1 (not_eq_sym Hr)).
  destruct (SetStream r1 o e c t) as [t2 ready] eqn:Es. apply (SetStream_leaves _ _ _ _ _ w) in Es; [|apply Ha|done..].
  pose proof (leaves_trans _ _ _ _ _ _ Ha Es) as H2.
  assert (∀ t3 w3, leaves t2 w t3 w3 → leaves (b_sessions m) w (Delete r1 t3) w3) as Hdel.
  { intros t3 w3 H3. eapply leaves_trans; [exact H2|]. eapply leaves_trans; [exact H3|]. apply Delete_leaves; [apply H3|done]. }
  destruct ready as [x|].
  - destruct (doPostData _ _ _ _ _ _ _ _) as [[[w1 l1] e1]| |] eqn:E; cbn [mbind outcome_bind]; [|done..].
    assert (leaves t2 w t2 w1) as H3.
    { apply leaves_refl; [apply H2|]. intros id _. by eapply doPostData_view. }
    intros [= <- <- _]. destruct e1; (split; [|done]); [by apply Hdel|]. by eapply leaves_trans.
  - intros [= <- <- _]. split; [|done]. apply Hdel. apply leaves_refl; [apply H2|done].
Qed.

Lemma onRecvMsg_leaves bytes m w m' w' : apart (b_sessions m) → r ≠ 0 →
  (∀ msg, unmarshal_msg bytes = Some msg → m_Sid msg ≠ r) → onRecvMsg bytes m w = Ret (m', w') → mleaves m w m' w'.
Proof.
  intros Ht Hr Hmsg. unfold Manager.onRecvMsg. destruct (unmarshal_msg bytes) as [msg|]; [|by intros [= <- <-] ].
  specialize (Hmsg msg eq_refl). destruct (b_stopped m) eqn:Est; [by intros [= <- <-]|].
  destruct (Dispatch _ _ _ _ _ _) as [[[t w1] d]| |] eqn:E; cbn [mbind outcome_bind]; [|done..].
  apply Dispatch_leaves in E; [|done|done]. set (m1 := set_sessions t m).
  destruct (if d then Ret m1 else _) as [m2| |] eqn:E2; cbn [mbind outcome_bind]; [|done..].
  assert (b_sessions m2 = t ∧ b_stopped m2 = b_stopped m) as [Em2 Es2].
  { destruct d; [by injection E2 as <-|]. destruct (_ <? _)%nat; [|done]. by injection E2 as <-. }
  assert (mleaves m w m2 w1) as HL by (split; [by rewrite Em2|done]).
  destruct (_ =? MSG_ERROR); [|by intros [= <- <-] ]. destruct (_ =? ERR_TIMEOUT); [|by intros [= <- <-] ].
  destruct (PostCmd _ _ _ _ _) as [[[m3 w3] p]| |] eqn:Ep; cbn [mbind outcome_bind]; [|done..]. intros [= <- <-].
  apply PostCmd_leaves in Ep as [Hp1 Hp2]; [|by rewrite Em2; apply E|left; congruence].
  split; [|congruence]. eapply leaves_trans; [apply HL|exact Hp1].
Qed.

Lemma close_chan_sessions c m m' : close_chan c m = Ret m' → b_sessions m' = b_sessions m ∧ b_stopped m' = b_stopped m.
Proof. unfold close_chan. case_decide; [done|]. by intros [= <-]. Qed.

Lemma OnConnected_leaves initialize m w m' w' : apart (b_sessions m) → (∀ w, same w (initialize w).1) →
  OnConnected initialize m w = Ret (m', w') → mleaves m w m' w'.
Proof.
  intros Ht Hi. unfold OnConnected. specialize (Hi w). destruct (initialize w) as [w1 id]. cbn in Hi.
  assert (∀ m2, b_sessions m2 = b_sessions m ∧ b_stopped m2 = b_stopped m → mleaves m w m2 w1) as HL.
  { intros m2 [E1 E2]. split; [rewrite E1; by apply leaves_refl|done]. }
  destruct (decide (id = "")); [intros [= <- <-]; by apply HL|]. destruct (b_stopped m) eqn:Es; [intros [= <- <-]; by apply HL|].
  cbv zeta. destruct (negb _); [intros [= <- <-]; by apply HL|]. destruct (b_ctxDone _); [intros [= <- <-]; by apply HL|].
  destruct (decide (_ ∈ _)); [intros [= <- <-]; by apply HL|].
  destruct (close_chan _ _) as [m2| |] eqn:E; cbn [mbind outcome_bind]; [|done..]. apply close_chan_sessions in E.
  intros [= <- <-]. apply HL. rewrite <-Es. exact E.
Qed.

Lemma OnDisconnected_leaves finalize now m w m' w' : apart (b_sessions m) → r ≠ 0 → (∀ w, same w (finalize w).1.1) →
  OnDisconnected finalize now m w = Ret (m', w') → mleaves m w m' w'.
Proof.
  intros Ht Hr Hf. unfold OnDisconnected. specialize (Hf w). destruct (_ =? _)%nat; [by intros [= <- <-]|].
  destruct (finalize w) as [ [w1 id] all]. cbn in Hf. set (m1 := set_devices _ m).
  destruct (negb _); [intros [= <- <-]; split; [by apply leaves_refl|done]|].
  destruct (if decide _ then Ret m1 else _) as [m2| |] eqn:E; cbn [mbind outcome_bind]; [|done..].
  assert (b_sessions m2 = b_sessions m ∧ b_stopped m2 = b_stopped m) as [E1 E2].
  { case_decide; [by injection E as <-|]. by apply close_chan_sessions in E. }
  intros [= <- <-]. split; [|done]. cbn. rewrite E1. eapply leaves_trans; [by apply leaves_refl|]. by apply Cleanup_leaves.
Qed.

Lemma onReject_leaves reject m w m' w' : apart (b_sessions m) → (∀ w, same w (reject w)) →
  onReject reject m w = Ret (m', w') → mleaves m w m' w'.
Proof.
  intros Ht Hf. unfold onReject. destruct (b_alreadyRejected m); [by intros [= <- <-]|].
  destruct (close_chan _ _) as [m2| |] eqn:E; cbn [mbind outcome_bind]; [|done..]. apply close_chan_sessions in E as [E1 E2].
  intros [= <- <-]. split; [rewrite E1; by apply leaves_refl|done].
Qed.

(** ** From the command to the end of its answer *)

(** Whatever else happens in the manager: messages for other sessions and messages of none, commands posted for other sessions (and input and
    resizes for this one), streams with other writers, devices that come, go and are turned away, callers that take messages out of their
    channels, and timeouts of other sessions. *)
Inductive activity (m : baseManager) (w : W) : baseManager → W → Prop :=
  | act_world w' : same w w' → activity m w m w'
  | act_message bytes m' w' : (∀ msg, unmarshal_msg bytes = Some msg → m_Sid msg ≠ r) →
      onRecvMsg bytes m w = Ret (m', w') → activity m w m' w'
  | act_command sid kind payload m' w' p : sid ≠ r ∨ kind = CMD_TTY_RESIZE ∨ kind = CMD_DATA_UPSTREAM →
      PostCmd sid kind payload m w = Ret (m', w', p) → activity m w m' w'
  | act_stream kind payload o e keep c m' w' p : strange o → strange e →
      PostStreamCmd kind payload o e keep c m w = Ret (m', w', p) → activity m w m' w'
  | act_connected initialize m' w' : (∀ w, same w (initialize w).1) →
      OnConnected initialize m w = Ret (m', w') → activity m w m' w'
  | act_disconnected finalize now m' w' : (∀ w, same w (finalize w).1.1) →
      OnDisconnected finalize now m w = Ret (m', w') → activity m w m' w'
  | act_rejected reject m' w' : (∀ w, same w (reject w)) → onReject reject m w = Ret (m', w') → activity m w m' w'
  | act_take k c t : receive k (b_sessions m) = Some (c, t) → activity m w (set_sessions t m) w
  | act_timeout e t w' : e.2 ≠ r → onSessionTimeout write chan_ready marshal_err e (b_sessions m) w = Ret (t, w') →
      activity m w (set_sessions t m) w'
  | act_creation_timeout e : e.2 ≠ h → activity m w (set_sessions (onStreamCreationTimeout e (b_sessions m)) m) w.

(** The chunks of the answer arrive in some order, [seen] so far, among other activity. *)
Inductive exchange (m0 : baseManager) (w0 : W) : list nat → baseManager → W → Prop :=
  | ex_start : exchange m0 w0 [] m0 w0
  | ex_chunk seen m w i d bytes m' w' : exchange m0 w0 seen m w → chunks !! i = Some d →
      unmarshal_msg bytes = Some (own_msg i d) → onRecvMsg bytes m w = Ret (m', w') → exchange m0 w0 (seen ++ [i]) m' w'
  | ex_other seen m w m' w' : exchange m0 w0 seen m w → activity m w m' w' → exchange m0 w0 seen m' w'.

Definition running (seen : list nat) (m : baseManager) (w : W) : Prop :=
  apart (b_sessions m) ∧ tracked seen (b_sessions m) w ∧ b_stopped m = false ∧ ∀ j, j ∈ seen → (j < length chunks)%nat.

Lemma activity_leaves m w m' w' : r ≠ 0 → apart (b_sessions m) → activity m w m' w' → mleaves m w m' w'.
Proof.
  intros Hr Ht. destruct 1 as [w' Hw|bytes m' w' Hm E|sid kind payload m' w' p Hs E|kind payload o e keep c m' w' p Ho He E
    |initialize m' w' Hi E|finalize now m' w' Hf E|reject m' w' Hf E|k c t E|e t w' He E|e He].
  - split; [by apply leaves_refl|done].
  - by eapply onRecvMsg_leaves.
  - by eapply PostCmd_leaves.
  - exact (PostStreamCmd_leaves _ _ _ _ _ _ _ _ _ _ _ Ht Hr Ho He E).
  - by eapply OnConnected_leaves.
  - by eapply OnDisconnected_leaves.
  - by eapply onReject_leaves.
  - split; [by eapply receive_leaves|done].
  - split; [by eapply timeout_leaves|done].
  - split; [by apply stream_timeout_leaves|done].
Qed.

Lemma tracked_leaves seen t w t' w' : tracked seen t w → leaves t w t' w' → tracked seen t' w'.
Proof.
  intros (n & q & sh & s & H1 & H2 & (H3 & H4 & H5) & H6 & H7) (Hh & _ & Hw). exists n, q, sh, s. split; [by rewrite Hh|].
  split; [done|]. split; [|done]. split; [done|]. split; [done|]. intros id Hid. cbn. rewrite Hw by done. by apply H5.
Qed.

Lemma chunk_step seen m w i d bytes : running seen m w → ¬ covers chunks seen → chunks !! i = Some d →
  unmarshal_msg bytes = Some (own_msg i d) →
  ∃ m' w', onRecvMsg bytes m w = Ret (m', w') ∧
    (¬ covers chunks (seen ++ [i]) → running (seen ++ [i]) m' w') ∧
    (covers chunks (seen ++ [i]) → finished (b_sessions m') w').
Proof.
  intros (Ha & Ht & Hst & Hin) Hnc Hd Hb. unfold Manager.onRecvMsg. rewrite Hb, Hst.
  destruct (own_dispatch seen _ w i d Ha Ht Hin Hnc Hd) as (t & w' & -> & Hno & Hall). cbn [mbind outcome_bind].
  replace (m_Kind (own_msg i d) =? MSG_ERROR) with false.
  2:{ symmetry. pose proof (Forall_lookup_1 _ _ _ _ Hkinds Hd) as Hk. cbn in Hk |- *. unfold is_data_kind in Hk.
      apply orb_true_iff in Hk as [->%Z.eqb_eq| ->%Z.eqb_eq]; done. }
  eexists _, w'. split; [done|]. split; [|done]. intros Hc. destruct (Hno Hc) as [H1 H2].
  split; [done|]. split; [done|]. split; [done|]. intros j [Hj|Hj]%elem_of_app; [by apply Hin|].
  apply list_elem_of_singleton in Hj as ->. by eapply lookup_lt_Some.
Qed.

Lemma exchange_running m0 w0 seen m w : r ≠ 0 → running [] m0 w0 → exchange m0 w0 seen m w →
  ¬ covers chunks seen → running seen m w.
Proof.
  intros Hr H0. induction 1 as [|seen m w i d bytes m' w' _ IH Hd Hb E|seen m w m' w' _ IH Hact]; intros Hnc; [done| |].
  - assert (¬ covers chunks seen) as Hnc' by (intros H; apply Hnc; intros j Hj; apply elem_of_app; left; by apply H).
    destruct (chunk_step seen m w i d bytes (IH Hnc') Hnc' Hd Hb) as (m1 & w1 & E1 & H1 & _).
    rewrite E1 in E. injection E as <- <-. by apply H1.
  - destruct (IH Hnc) as (Ha & Ht & Hst & Hin). destruct (activity_leaves m w m' w' Hr Ha Hact) as [HL Hs].
    split; [apply HL|]. split; [by eapply tracked_leaves|]. split; [congruence|done].
Qed.

End Streams.

(** ** The stream of PostStreamCmd *)

Lemma PostStreamCmd_running {W : Type} (chan_ready : nat → W → bool) marshal_cmd cmd_name (sendData : list Z → bool → W → W * option string)
    (view : nat → W → list Z) (Hsend : sends_apart sendData view) r h dataOut errOut canWrite chunks ready kind payload m w m1 w1 :
  table_ok (b_sessions m) → (∀ k s, m_heap (b_sessions m) !! k = Some s → foreign dataOut errOut s) → (0 < length chunks)%nat → Z.of_nat (length chunks) < 2 ^ 64 →
  PostStreamCmd marshal_cmd cmd_name sendData kind payload dataOut errOut false canWrite m w =
    Ret (m1, w1, {| ps_msgCh := Some h; ps_ready := Some ready; ps_realSid := r; ps_err := None |}) →
  running view r h dataOut errOut canWrite chunks (λ id, view id w) [] m1 w1.
Proof.
  intros [Hinv H0] Hfor Hlen Hbound E. unfold PostStreamCmd in E. destruct (b_stopped m) eqn:Est; [done|].
  destruct (if kind =? _ then _ else _) as [bs|]; [|done]. unfold Add in E. rewrite H0 in E.
  destruct (nextSid (b_sessions m)) as [r1|] eqn:En; [|done]. apply nextSid_go_unused in En. cbn [mbind outcome_bind] in E.
  set (t := b_sessions m) in *. set (k := length (m_heap t)) in *. set (t1 := {| m_heap := _ |}) in E.
  assert (lookup_session r1 t1 = Some (k, newSession (m_epoch t) true false)) as El.
  { apply lookup_session_Some. cbn. split; [apply lookup_insert_eq|]. unfold k. by rewrite lookup_app_r, Nat.sub_diag by lia. }
  unfold SetStream in E. rewrite El in E. cbn [setStream newSession s_streamReady negb] in E.
  destruct (doPostData _ _ _ _ _ _ _ _ _) as [[[w2 l2] [e2|]]| |] eqn:Ep; cbn [mbind outcome_bind] in E; [done| |done..].
  injection E as <- <- <- <- <-. set (sh := {| s_epoch := _ |}).
  pose proof (doPostData_view marshal_cmd sendData view Hsend _ _ _ _ _ _ _ _ _ _ _ Ep) as Hv.
  assert (streaming dataOut errOut canWrite sh) as Hsh by (repeat (split; [done|]); by left).
  assert (m_heap t1 !! k = Some (newSession (m_epoch t) true false)) as Hk by (by apply lookup_session_Some in El as [_ ?]).
  destruct Hinv as (_ & Hs & _).
  split; [|split; [|split; [done|intros j Hj; by apply elem_of_nil in Hj] ] ].
  - split; [apply lookup_insert_eq|]. split; [|split].
    + intros sid Hne Hl. cbn in Hl. rewrite lookup_insert_ne in Hl by done. destruct (Hs _ _ Hl) as (s & Hl' & _).
      apply lookup_lt_Some in Hl'. unfold k in Hl'. lia.
    + intros j s Hj Hl. cbn in Hl. rewrite list_lookup_insert_ne in Hl by done. apply lookup_app_Some in Hl as [Hl|[_ Hl] ]; [by eapply Hfor|].
      apply list_lookup_singleton_Some in Hl as [_ <-]. done.
    + exists sh. split; [|done]. apply list_lookup_insert_eq. by eapply lookup_lt_Some.
  - exists 0%nat, NewSeqQueue, sh, (set_buffer (Some []) None sh). split; [apply list_lookup_insert_eq; by eapply lookup_lt_Some|].
    split; [done|]. split; [|split; [done|exact (inv_new (λ _ d log, Ret (snoc log 0 d)) snoc chunks (λ _, True) (λ _ _ _ _ _, conj eq_refl I) Hbound [])] ]. split; [split; [done|]; split; [done|]; by eexists|]. split; [done|].
    intros id _. cbn. by rewrite Hv, app_nil_r.
Qed.

(** C2: the answer to a stream command (an execution, an attachment, logs, a port forward) reaches its caller whole, whatever else goes on:
    after PostStreamCmd has returned a session, and as long as not every chunk of the answer has arrived, the manager takes the next chunk
    without blocking, in any order of arrival and with repetitions, and whatever happened between the chunks: other commands, streams and
    their answers, input for this stream, other devices connecting and all devices disconnecting, timeouts of other sessions. Until the last
    chunk has arrived the caller's writers have been given the longest run of chunks without a gap, in order and each chunk once, on the writer for
    its kind; with the last missing chunk they have been given the whole answer, the session is gone and its channel is closed and empty. *)
Theorem stream_command_answered {W : Type} (write : nat → list Z → W → W * Z * option string)
    (chan_ready : nat → W → bool) (marshal_err : Z → string → list Z) (marshal_cmd : Cmd → list Z)
    (unmarshal_msg : list Z → option Msg) (unmarshal_err : list Z → option (Z * string)) (marshal_session_close : Z → list Z)
    (cmd_name : Z → string) (sendData : list Z → bool → W → W * option string) (view : nat → W → list Z)
    (Hwrite : writers_take write view) (Hsend : sends_apart sendData view)
    (kind : Z) (payload : option (result (list Z))) (dataOut errOut : option Writer) (canWrite : option nat)
    (m m1 m2 : baseManager) (w w1 w2 : W) (r : Z) (h ready : nat) (chunks : list data) (seen : list nat) (i : nat) (d : data) (bytes : list Z)
    (Hready : ∀ c w, canWrite = Some c → chan_ready c w = true)
    (Hlen : (0 < length chunks)%nat) (Hbound : Z.of_nat (length chunks) < 2 ^ 64)
    (Hkinds : Forall (λ d, is_data_kind (d_kind d) = true) chunks)
    (Hok : table_ok (b_sessions m)) (Hfor : ∀ k s, m_heap (b_sessions m) !! k = Some s → foreign dataOut errOut s) (Hr : r ≠ 0)
    (Hpost : PostStreamCmd marshal_cmd cmd_name sendData kind payload dataOut errOut false canWrite m w =
      Ret (m1, w1, {| ps_msgCh := Some h; ps_ready := Some ready; ps_realSid := r; ps_err := None |}))
    (Hex : exchange write chan_ready marshal_err marshal_cmd unmarshal_msg unmarshal_err marshal_session_close cmd_name sendData
      view r h dataOut errOut chunks m1 w1 seen m2 w2)
    (Hnot : ¬ covers chunks seen) (Hd : chunks !! i = Some d) (Hbytes : unmarshal_msg bytes = Some (own_msg r chunks i d)) :
  ∃ m3 w3, onRecvMsg write chan_ready marshal_err marshal_cmd unmarshal_msg unmarshal_err marshal_session_close sendData bytes m2 w2 =
      Ret (m3, w3) ∧
    (¬ covers chunks (seen ++ [i]) → m_sessions (b_sessions m3) !! r = Some h ∧
       ∃ n, (∀ j, (j < n)%nat → j ∈ seen ++ [i]) ∧ (n ∉ seen ++ [i]) ∧
         ∀ id, own dataOut errOut id → view id w3 = view id w ++ written dataOut errOut id (take n chunks)) ∧
    (covers chunks (seen ++ [i]) → m_sessions (b_sessions m3) !! r = None ∧
       (∃ s, m_heap (b_sessions m3) !! h = Some s ∧ s__closed s = true ∧ s_chan s = [] ∧ s_chan_closed s = true) ∧
       ∀ id, own dataOut errOut id → view id w3 = view id w ++ written dataOut errOut id chunks).
Proof.
  pose proof (PostStreamCmd_running chan_ready marshal_cmd cmd_name sendData view Hsend r h dataOut errOut canWrite chunks ready
    kind payload m w m1 w1 Hok Hfor Hlen Hbound Hpost) as H1.
  eapply exchange_running in Hex; [|done..]. eapply chunk_step in Hex as (m3 & w3 & E & Hno & Hall); [|done..].
  exists m3, w3. split; [exact E|]. split; [|exact Hall].
  intros Hc. destruct (Hno Hc) as ((Hs & _) & (n & q & sh & s & _ & _ & (_ & _ & Hv) & _ & Hinv) & _).
  split; [exact Hs|]. exists n. destruct Hinv as (_ & Hlow & Hn & _). done.
Qed.

End Streams.

(** ** Concrete runs *)

Module Examples.
Import Streams.

(** the writers' log, and what was sent *)
Definition world : Type := list (nat * list Z) * list (list Z).
Definition log_write (id : nat) (bs : list Z) (w : world) : world * Z * option string :=
  ((w.1 ++ [(id, bs)], w.2), Z.of_nat (length bs), None).
Definition log_view (id : nat) (w : world) : list Z := concat (filter (λ e, e.1 = id) w.1).*2.
Definition log_ready (c : nat) (w : world) : bool := true.
Definition log_send (bs : list Z) (ensure : bool) (w : world) : world * option string := ((w.1, w.2 ++ [bs]), None).
Definition enc_cmd (c : Cmd) : list Z := [c_Kind c; c_Sid c; c_Seq c; if c_Complete c then 1 else 0] ++ c_Payload c.
Definition enc_msg (m : Msg) : list Z := [m_Kind m; m_Sid m; m_Seq m; if m_Complete m then 1 else 0] ++ m_Payload m.
Definition dec_msg (bs : list Z) : option Msg :=
  match bs with
  | k :: sid :: seq :: c :: p => Some {| m_Kind := k; m_Sid := sid; m_Seq := seq; m_Complete := c =? 1; m_Payload := p |}
  | _ => None
  end.

Lemma log_writers : writers_take log_write log_view.
Proof.
  intros id bs w. eexists. split; [done|]. intros id'. unfold log_view. cbn. rewrite filter_app, fmap_app, concat_app.
  case_decide as Hid; [rewrite filter_cons_True by done; cbn; by rewrite app_nil_r|].
  rewrite filter_cons_False by (cbn; congruence). cbn. by rewrite app_nil_r.
Qed.
Lemma log_sends : sends_apart log_send log_view.
Proof. done. Qed.

Abbreviation post_stream := (PostStreamCmd enc_cmd (λ _, ""%string) log_send).
Abbreviation receive_msg :=
  (onRecvMsg log_write log_ready (λ k _, [k]) enc_cmd dec_msg (λ _, None) (λ s, [s]) log_send).
Abbreviation exchange_log :=
  (exchange log_write log_ready (λ k _, [k]) enc_cmd dec_msg (λ _, None) (λ s, [s]) (λ _, ""%string) log_send log_view).

Definition start : baseManager :=
  match newBaseManager 5 {| GRPCOpts := true; MQTTOpts := None; AMQPOpts := false; AzureIoTHubOpts := false; GCPIoTCoreOpts := false |} with
  | Ok m => m
  | Err _ => {| b_sessions := NewSessionManager 5; b_maxDataSize := 0; b_globalMsgChan := []; b_connectedDevices := ∅; b_connected := 0;
                b_disconnected := 0; b_rejected := 0; b_alreadyRejected := false; b_closed := ∅; b_nextCh := 0; b_ctxDone := false;
                b_stopped := false |}
  end.
Definition the_state {A} (o : outcome (baseManager * world * A)) : baseManager * world :=
  match o with Ret (m, w, _) => (m, w) | _ => (start, ([], [])) end.
Definition the_state2 (o : outcome (baseManager * world)) : baseManager * world :=
  match o with Ret s => s | _ => (start, ([], [])) end.

(** an execution whose output goes to the writers 1 and 2, answered in three chunks *)
Definition answer : list data :=
  [ {| d_kind := MSG_DATA; d_payload := [1] |}; {| d_kind := MSG_DATA_STDERR; d_payload := [9] |}; {| d_kind := MSG_DATA; d_payload := [2; 3] |} ].
Definition chunk (i : nat) : data := nth i answer {| d_kind := 0; d_payload := [] |}.
Definition posted_exec : outcome (baseManager * world * posted_stream) :=
  post_stream CMD_EXEC (Some (Ok [7])) (Some (Wr 1)) (Some (Wr 2)) false None start ([], []).
Definition s1 : baseManager * world := the_state posted_exec.
(** the last chunk, then the answer to nobody, then the first chunk *)
Definition s2 : baseManager * world := the_state2 (receive_msg (enc_msg (own_msg 6 answer 2 (chunk 2))) s1.1 s1.2).
Definition s3 : baseManager * world := the_state2 (receive_msg (enc_msg (own_msg 99 answer 0 (chunk 1))) s2.1 s2.2).
Definition s4 : baseManager * world := the_state2 (receive_msg (enc_msg (own_msg 6 answer 0 (chunk 0))) s3.1 s3.2).

Lemma exec_exchange : exchange_log 6 0%nat (Some (Wr 1)) (Some (Wr 2)) answer s1.1 s1.2 [2; 0]%nat s4.1 s4.2.
Proof.
  apply (ex_chunk _ _ _ _ _ _ _ _ _ _ _ _ _ _ _ _ _ [2]%nat s3.1 s3.2 0%nat (chunk 0) (enc_msg (own_msg 6 answer 0 (chunk 0))));
    [|reflexivity|reflexivity|vm_compute; reflexivity].
  apply (ex_other _ _ _ _ _ _ _ _ _ _ _ _ _ _ _ _ _ [2]%nat s2.1 s2.2).
  2:{ apply (act_message _ _ _ _ _ _ _ _ _ _ _ _ _ _ _ _ (enc_msg (own_msg 99 answer 0 (chunk 1)))); [|vm_compute; reflexivity].
      intros msg [= <-]. done. }
  apply (ex_chunk _ _ _ _ _ _ _ _ _ _ _ _ _ _ _ _ _ []%nat s1.1 s1.2 2%nat (chunk 2) (enc_msg (own_msg 6 answer 2 (chunk 2))));
    [constructor|reflexivity|reflexivity|vm_compute; reflexivity].
Qed.

Lemma stream_command_answered_witness :
  ∃ m3 w3, receive_msg (enc_msg (own_msg 6 answer 1 (chunk 1))) s4.1 s4.2 = Ret (m3, w3) ∧
    log_view 1 w3 = [1; 2; 3] ∧ log_view 2 w3 = [9] ∧ m_sessions (b_sessions m3) !! 6 = None.
Proof.
  assert (covers answer ([2; 0] ++ [1])%nat) as Hc by (intros [|[|[|j] ] ] Hj; cbn in *; [set_solver..|lia]).
  destruct (stream_command_answered log_write log_ready (λ k _, [k]) enc_cmd dec_msg (λ _, None) (λ s, [s]) (λ _, ""%string) log_send log_view
    log_writers log_sends CMD_EXEC (Some (Ok [7])) (Some (Wr 1)) (Some (Wr 2)) None start s1.1 s4.1 ([], []) s1.2 s4.2 6 0%nat 0%nat answer
    [2; 0]%nat 1%nat (chunk 1) (enc_msg (own_msg 6 answer 1 (chunk 1)))) as (m3 & w3 & E & _ & Hall).
  - done.
  - cbn; lia.
  - cbn; lia.
  - repeat constructor.
  - split; [|vm_compute; reflexivity]. split; [constructor|]. split; [done|]. split; done.
  - intros k s Hl. done.
  - done.
  - vm_compute. reflexivity.
  - exact exec_exchange.
  - intros H. specialize (H 1%nat ltac:(cbn; lia)). set_unfold. lia.
  - reflexivity.
  - reflexivity.
  - exists m3, w3. split; [exact E|].
    destruct (Hall Hc) as (H1 & _ & Hv).
    rewrite !Hv; [|by right|by left]. split; [reflexivity|]. split; [reflexivity|exact H1].
Defined.

End Examples.
