(* ===== verification/K8s.v ===== *)
(** * The Kubernetes objects the code reads and writes

    The records of k8s.io/api/core/v1, with the fields the modelled code uses. A Go pointer is an
    [option], a map a [gmap], a slice a list (a nil slice and an empty one are the same list; the
    objects come from the API server, which leaves empty lists out). Bytes are strings. *)
From S2P Require Import Prelude.
Open Scope Z_scope.

Record ConfigMap := { cm_Data : gmap string string; cm_BinaryData : gmap string string }.
Record Secret := { sec_StringData : gmap string string; sec_Data : gmap string string }.

(** ** Quantities

    A resource.Quantity counts billionths. Value and MilliValue round away from zero. *)
Definition Quantity := Z.
Definition ceil_div (a b : Z) : Z := Z.sgn a * ((Z.abs a + (b - 1)) / b).
Definition Value (q : Quantity) : Z := ceil_div q 1000000000.
Definition MilliValue (q : Quantity) : Z := ceil_div q 1000000.
Definition NewQuantity (v : Z) : Quantity := v * 1000000000.
Definition NewMilliQuantity (v : Z) : Quantity := v * 1000000.

Definition ResourceCPU : string := "cpu".
Definition ResourceMemory : string := "memory".
Definition ResourceEphemeralStorage : string := "ephemeral-storage".
Definition ResourcePods : string := "pods".
Definition ResourceList := gmap string Quantity.
(** Cpu(), Memory(), ... of a list: zero for a resource that is not in it *)
Definition quantity (name : string) (l : ResourceList) : Quantity := default 0 (l !! name).

(** ** Containers *)

(** intstr: Type 0 is Int, 1 is String *)
Record IntOrString := { ios_Type : Z; ios_IntVal : Z; ios_StrVal : string }.
Record ContainerPort := {
  cp_Name : string; cp_HostPort : Z; cp_ContainerPort : Z; cp_Protocol : string; cp_HostIP : string
}.
Record VolumeMount := { vm_Name : string; vm_ReadOnly : bool; vm_MountPath : string; vm_SubPath : string }.
Record HTTPGetAction := {
  hg_Path : string; hg_Port : IntOrString; hg_Host : string; hg_Scheme : string;
  hg_HTTPHeaders : list (string * string)
}.
Record TCPSocketAction := { ts_Port : IntOrString; ts_Host : string }.
Record Handler := { h_Exec : option (list string); h_HTTPGet : option HTTPGetAction; h_TCPSocket : option TCPSocketAction }.
Record Probe := {
  pr_Handler : Handler; pr_InitialDelaySeconds : Z; pr_TimeoutSeconds : Z; pr_PeriodSeconds : Z;
  pr_SuccessThreshold : Z; pr_FailureThreshold : Z
}.
Record Lifecycle := { lc_PostStart : option Handler; lc_PreStop : option Handler }.
Record SELinuxOptions := { se_User : string; se_Role : string; se_Type : string; se_Level : string }.
#[export] Instance SELinuxOptions_eq : EqDecision SELinuxOptions.
Proof. solve_decision. Defined.
Record SecurityContext := {
  sc_Capabilities : option (list string * list string);
  sc_Privileged : option bool; sc_SELinuxOptions : option SELinuxOptions;
  sc_RunAsUser : option Z; sc_RunAsGroup : option Z; sc_RunAsNonRoot : option bool;
  sc_ReadOnlyRootFilesystem : option bool; sc_AllowPrivilegeEscalation : option bool;
  sc_ProcMount : option string
}.
Record PodSecurityContext := {
  psc_SELinuxOptions : option SELinuxOptions; psc_RunAsUser : option Z; psc_RunAsGroup : option Z;
  psc_RunAsNonRoot : option bool; psc_Sysctls : list (string * string)
}.
#[export] Instance PodSecurityContext_eq : EqDecision PodSecurityContext.
Proof. solve_decision. Defined.

(** A reference to a ConfigMap or a Secret, and to one of its keys. *)
Record ObjectRef := { or_Name : string; or_Optional : option bool }.
Record KeyRef := { kr_Name : string; kr_Key : string; kr_Optional : option bool }.
Record ObjectFieldSelector := { fs_APIVersion : string; fs_FieldPath : string }.
Record ResourceFieldSelector := { rs_ContainerName : string; rs_Resource : string; rs_Divisor : string }.
Record EnvVarSource := {
  es_FieldRef : option ObjectFieldSelector; es_ResourceFieldRef : option ResourceFieldSelector;
  es_ConfigMapKeyRef : option KeyRef; es_SecretKeyRef : option KeyRef
}.
Record EnvVar := { ev_Name : string; ev_Value : string; ev_ValueFrom : option EnvVarSource }.
Record EnvFromSource := { ef_Prefix : string; ef_ConfigMapRef : option ObjectRef; ef_SecretRef : option ObjectRef }.

Record Container := {
  ctr_Name : string; ctr_Image : string; ctr_Command : list string; ctr_Args : list string;
  ctr_WorkingDir : string; ctr_Ports : list ContainerPort; ctr_EnvFrom : list EnvFromSource;
  ctr_Env : list EnvVar; ctr_VolumeMounts : list VolumeMount;
  ctr_LivenessProbe : option Probe; ctr_ReadinessProbe : option Probe; ctr_Lifecycle : option Lifecycle;
  ctr_ImagePullPolicy : string; ctr_SecurityContext : option SecurityContext; ctr_Stdin : bool; ctr_TTY : bool;
  ctr_Requests : ResourceList; ctr_Limits : ResourceList
}.

(** ** Volumes *)

Record MapVolumeSource := { mv_Name : string; mv_DefaultMode : option Z; mv_Optional : option bool }.
#[export] Instance MapVolumeSource_eq : EqDecision MapVolumeSource.
Proof. solve_decision. Defined.
Record PVCVolumeSource := { pvc_ClaimName : string; pvc_ReadOnly : bool }.
#[export] Instance PVCVolumeSource_eq : EqDecision PVCVolumeSource.
Proof. solve_decision. Defined.
Record CSIVolumeSource := { csi_Driver : string; csi_ReadOnly : option bool }.
#[export] Instance CSIVolumeSource_eq : EqDecision CSIVolumeSource.
Proof. solve_decision. Defined.
(** [v_HostPath] is the path of the host path source, [v_EmptyDir] whether there is an empty dir source. *)
Record Volume := {
  v_Name : string; v_HostPath : option string; v_EmptyDir : bool;
  v_ConfigMap : option MapVolumeSource; v_Secret : option MapVolumeSource;
  v_PersistentVolumeClaim : option PVCVolumeSource; v_CSI : option CSIVolumeSource
}.
#[export] Instance Volume_eq : EqDecision Volume.
Proof. solve_decision. Defined.

(** ** Pods *)

Record HostAlias := { ha_IP : string; ha_Hostnames : list string }.
#[export] Instance HostAlias_eq : EqDecision HostAlias.
Proof. solve_decision. Defined.
Record PodDNSConfig := {
  dc_Nameservers : list string; dc_Searches : list string; dc_Options : list (string * option string)
}.
#[export] Instance PodDNSConfig_eq : EqDecision PodDNSConfig.
Proof. solve_decision. Defined.

Record PodSpec := {
  sp_Volumes : list Volume; sp_InitContainers : list Container; sp_Containers : list Container;
  sp_EphemeralContainers : list string; sp_RestartPolicy : string;
  sp_TerminationGracePeriodSeconds : option Z; sp_DNSPolicy : string; sp_ServiceAccountName : string;
  sp_NodeName : string; sp_HostNetwork : bool; sp_HostPID : bool; sp_HostIPC : bool;
  sp_ShareProcessNamespace : option bool; sp_SecurityContext : option PodSecurityContext;
  sp_ImagePullSecrets : list string; sp_Hostname : string; sp_HostAliases : list HostAlias;
  sp_DNSConfig : option PodDNSConfig; sp_EnableServiceLinks : option bool
}.

Definition PodPending : string := "Pending".
Definition PodRunning : string := "Running".
Definition PodSucceeded : string := "Succeeded".
Definition PodFailed : string := "Failed".
Definition DNSClusterFirstWithHostNet : string := "ClusterFirstWithHostNet".
Definition DNSNone : string := "None".

(** The state of a container: at most one of the three is set. *)
Record StateTerminated := {
  st_ExitCode : Z; st_Reason : string; st_Message : string; st_StartedAt : Z; st_FinishedAt : Z; st_ContainerID : string
}.
Record ContainerState := {
  cst_Waiting : option (string * string); cst_Running : option Z; cst_Terminated : option StateTerminated
}.
Definition no_state : ContainerState := {| cst_Waiting := None; cst_Running := None; cst_Terminated := None |}.
Definition waiting (reason message : string) : ContainerState :=
  {| cst_Waiting := Some (reason, message); cst_Running := None; cst_Terminated := None |}.
Record ContainerStatus := {
  cs_Name : string; cs_State : ContainerState; cs_Ready : bool; cs_Image : string; cs_ImageID : string;
  cs_ContainerID : string
}.
Definition empty_status : ContainerStatus :=
  {| cs_Name := ""; cs_State := no_state; cs_Ready := false; cs_Image := ""; cs_ImageID := ""; cs_ContainerID := "" |}.

Record PodStatus := {
  ps_Phase : string; ps_HostIP : string; ps_PodIP : string; ps_PodIPs : list string;
  ps_InitContainerStatuses : list ContainerStatus; ps_ContainerStatuses : list ContainerStatus
}.

Record Pod := {
  pod_UID : string; pod_Namespace : string; pod_Name : string; pod_Labels : gmap string string;
  pod_Annotations : gmap string string; pod_Finalizers : list string; pod_Spec : PodSpec; pod_Status : PodStatus
}.

Definition set_status (s : PodStatus) (p : Pod) : Pod :=
  {| pod_UID := pod_UID p; pod_Namespace := pod_Namespace p; pod_Name := pod_Name p; pod_Labels := pod_Labels p;
     pod_Annotations := pod_Annotations p; pod_Finalizers := pod_Finalizers p; pod_Spec := pod_Spec p; pod_Status := s |}.
Definition set_finalizers (f : list string) (p : Pod) : Pod :=
  {| pod_UID := pod_UID p; pod_Namespace := pod_Namespace p; pod_Name := pod_Name p; pod_Labels := pod_Labels p;
     pod_Annotations := pod_Annotations p; pod_Finalizers := f; pod_Spec := pod_Spec p; pod_Status := pod_Status p |}.
Definition set_phase (phase : string) (cs : list ContainerStatus) (p : Pod) : Pod :=
  set_status {| ps_Phase := phase; ps_HostIP := ps_HostIP (pod_Status p); ps_PodIP := ps_PodIP (pod_Status p);
                ps_PodIPs := ps_PodIPs (pod_Status p);
                ps_InitContainerStatuses := ps_InitContainerStatuses (pod_Status p); ps_ContainerStatuses := cs |} p.
Definition set_init_phase (phase : string) (cs : list ContainerStatus) (p : Pod) : Pod :=
  set_status {| ps_Phase := phase; ps_HostIP := ps_HostIP (pod_Status p); ps_PodIP := ps_PodIP (pod_Status p);
                ps_PodIPs := ps_PodIPs (pod_Status p);
                ps_InitContainerStatuses := cs; ps_ContainerStatuses := ps_ContainerStatuses (pod_Status p) |} p.

(** aranya's own PodDNSConfig (pkg/apis/aranya/v1alpha1) *)
Record AranyaDNSConfig := { dns_Servers : list string; dns_Searches : list string; dns_Options : list string }.

(** An optional flag that is unset is false. *)
Definition is_true (b : option bool) : bool := default false b.

(** ** Objects for the examples *)
Module Samples.

Definition ctr (name image : string) (mounts : list VolumeMount) (env : list EnvVar) (from : list EnvFromSource) : Container := {|
  ctr_Name := name; ctr_Image := image; ctr_Command := []; ctr_Args := []; ctr_WorkingDir := ""; ctr_Ports := [];
  ctr_EnvFrom := from; ctr_Env := env; ctr_VolumeMounts := mounts; ctr_LivenessProbe := None; ctr_ReadinessProbe := None;
  ctr_Lifecycle := None; ctr_ImagePullPolicy := "Always"; ctr_SecurityContext := None; ctr_Stdin := false; ctr_TTY := false;
  ctr_Requests := ∅; ctr_Limits := ∅ |}.
Definition volume (name : string) : Volume := {|
  v_Name := name; v_HostPath := None; v_EmptyDir := false; v_ConfigMap := None; v_Secret := None;
  v_PersistentVolumeClaim := None; v_CSI := None |}.
Definition spec (vols : list Volume) (inits ctrs : list Container) : PodSpec := {|
  sp_Volumes := vols; sp_InitContainers := inits; sp_Containers := ctrs; sp_EphemeralContainers := []; sp_RestartPolicy := "Always";
  sp_TerminationGracePeriodSeconds := None; sp_DNSPolicy := "None"; sp_ServiceAccountName := ""; sp_NodeName := "";
  sp_HostNetwork := false; sp_HostPID := false; sp_HostIPC := false; sp_ShareProcessNamespace := None;
  sp_SecurityContext := None; sp_ImagePullSecrets := []; sp_Hostname := ""; sp_HostAliases := [];
  sp_DNSConfig := None; sp_EnableServiceLinks := None |}.
Definition status : PodStatus := {|
  ps_Phase := PodPending; ps_HostIP := ""; ps_PodIP := ""; ps_PodIPs := []; ps_InitContainerStatuses := []; ps_ContainerStatuses := [] |}.
Definition pod (uid name : string) (s : PodSpec) : Pod := {|
  pod_UID := uid; pod_Namespace := "ns"; pod_Name := name; pod_Labels := ∅; pod_Annotations := ∅;
  pod_Finalizers := []; pod_Spec := s; pod_Status := status |}.

End Samples.
