(* ===== verification/Api.v ===== *)
(** * The API objects of aranya, and the Kubernetes objects of nodes

    The custom resource EdgeDevice (pkg/apis/aranya/v1alpha1) and, of k8s.io/api/core/v1 and
    coordination, the objects that describe a node and its lease. As in [K8s], a pointer is an [option]
    and a slice a list; a map whose being nil matters to the code is an [option] of a [gmap]. The nested specification of a device is
    flattened to the fields the controllers read. *)
From S2P Require Import Prelude K8s.
Open Scope Z_scope.

(** ** Errors of the API server *)

(** What k8s.io/apimachinery's IsNotFound and IsConflict tell about an error, and its text. *)
Record KubeError := { ke_NotFound : bool; ke_Conflict : bool; ke_Text : string }.

(** ** Nodes *)

Record Taint := { t_Key : string; t_Value : string; t_Effect : string }.
#[export] Instance Taint_eq : EqDecision Taint.
Proof. solve_decision. Defined.
Definition TaintEffectNoSchedule : string := "NoSchedule".

(** Times are nanoseconds; the zero time is 0. *)
Record NodeCondition := {
  nc_Type : string; nc_Status : string; nc_LastHeartbeatTime : Z; nc_LastTransitionTime : Z; nc_Reason : string; nc_Message : string
}.
Definition NodeReady : string := "Ready".
Definition NodeMemoryPressure : string := "MemoryPressure".
Definition NodeDiskPressure : string := "DiskPressure".
Definition NodePIDPressure : string := "PIDPressure".
Definition NodeNetworkUnavailable : string := "NetworkUnavailable".
Definition ConditionTrue : string := "True".
Definition ConditionFalse : string := "False".
Definition ConditionUnknown : string := "Unknown".
Definition NodeRunning : string := "Running".

Record NodeSystemInfo := {
  si_MachineID : string; si_SystemUUID : string; si_BootID : string; si_KernelVersion : string; si_OSImage : string;
  si_ContainerRuntimeVersion : string; si_KubeletVersion : string; si_KubeProxyVersion : string;
  si_OperatingSystem : string; si_Architecture : string
}.
#[export] Instance NodeSystemInfo_eq : EqDecision NodeSystemInfo.
Proof. solve_decision. Defined.
Definition empty_SystemInfo : NodeSystemInfo :=
  {| si_MachineID := ""; si_SystemUUID := ""; si_BootID := ""; si_KernelVersion := ""; si_OSImage := "";
     si_ContainerRuntimeVersion := ""; si_KubeletVersion := ""; si_KubeProxyVersion := ""; si_OperatingSystem := "";
     si_Architecture := "" |}.

(** [ns_KubeletPort] is DaemonEndpoints.KubeletEndpoint.Port. *)
Record NodeStatus := {
  ns_Phase : string; ns_Capacity : ResourceList; ns_Conditions : list NodeCondition; ns_NodeInfo : NodeSystemInfo;
  ns_Allocatable : ResourceList; ns_Addresses : list (string * string); ns_KubeletPort : Z
}.
Definition empty_NodeStatus : NodeStatus :=
  {| ns_Phase := ""; ns_Capacity := ∅; ns_Conditions := []; ns_NodeInfo := empty_SystemInfo; ns_Allocatable := ∅;
     ns_Addresses := []; ns_KubeletPort := 0 |}.

Record OwnerReference := { ref_APIVersion : string; ref_Kind : string; ref_Name : string; ref_UID : string; ref_Controller : option bool }.

Record Node := {
  node_Name : string; node_UID : string; node_Labels : option (gmap string string); node_Annotations : option (gmap string string);
  node_ClusterName : string; node_OwnerReferences : list OwnerReference; node_Taints : list Taint; node_PodCIDR : string;
  node_PodCIDRs : list string; node_ProviderID : string; node_Status : NodeStatus
}.
Definition set_node_metadata (labels annotations : option (gmap string string)) (n : Node) : Node :=
  {| node_Name := node_Name n; node_UID := node_UID n; node_Labels := labels; node_Annotations := annotations;
     node_ClusterName := node_ClusterName n; node_OwnerReferences := node_OwnerReferences n; node_Taints := node_Taints n;
     node_PodCIDR := node_PodCIDR n; node_PodCIDRs := node_PodCIDRs n; node_ProviderID := node_ProviderID n; node_Status := node_Status n |}.
Definition set_node_status (s : NodeStatus) (n : Node) : Node :=
  {| node_Name := node_Name n; node_UID := node_UID n; node_Labels := node_Labels n; node_Annotations := node_Annotations n;
     node_ClusterName := node_ClusterName n; node_OwnerReferences := node_OwnerReferences n; node_Taints := node_Taints n;
     node_PodCIDR := node_PodCIDR n; node_PodCIDRs := node_PodCIDRs n; node_ProviderID := node_ProviderID n; node_Status := s |}.

(** m[k] of a map that may be nil, and the map with the entries of another one set *)
Definition map_get (m : option (gmap string string)) (k : string) : string := default "" (m ≫= lookup k).
Definition set_all (m : option (gmap string string)) (new : gmap string string) : option (gmap string string) :=
  match m with None => Some new | Some m => Some (new ∪ m) end.

(** ** Leases *)
Record Lease := {
  le_Name : string; le_Labels : option (gmap string string); le_OwnerReferences : list OwnerReference;
  le_HolderIdentity : option string; le_LeaseDurationSeconds : option Z; le_AcquireTime : option Z; le_RenewTime : option Z
}.

(** ** EdgeDevice *)

Record FieldHook := { fh_Query : string; fh_TargetFieldPath : string; fh_Value : string; fh_ValueExpression : string }.

Record NetworkMeshSpec := {
  mesh_InterfaceName : string; mesh_MTU : Z; mesh_ListenPort : Z; mesh_RoutingTable : Z; mesh_FirewallMark : Z;
  mesh_IPv4Addr : string; mesh_IPv6Addr : string; mesh_ExtraAllowedCIDRs : list string
}.

Record PeripheralTLSConfig := {
  ptls_ServerName : string; ptls_CertSecretRef : option string; ptls_CipherSuites : list string; ptls_InsecureSkipVerify : bool;
  ptls_MinVersion : string; ptls_MaxVersion : string; ptls_NextProtos : list string
}.
Record PeripheralConnectivitySpec := {
  pcs_Method : string; pcs_Target : string; pcs_Params : gmap string string; pcs_TLS : option PeripheralTLSConfig
}.
Record PeripheralBaseSpec := { pbs_Name : string; pbs_Connector : PeripheralConnectivitySpec }.
Record PeripheralOperationSpec := { pos_Name : string; pos_PseudoCommand : string; pos_Params : gmap string string }.
Record PeripheralMetricSpec := {
  pms_Name : string; pms_ValueType : string; pms_Params : gmap string string; pms_ReportMethod : string;
  pms_ReporterName : string; pms_ReporterParams : gmap string string
}.
Record PeripheralSpec := {
  per_Base : PeripheralBaseSpec; per_Operations : list PeripheralOperationSpec; per_Metrics : list PeripheralMetricSpec
}.

(** The permissions of roles for pods and of cluster roles for nodes. *)
Record PodRolePermissions := {
  prp_PodVerbs : list string; prp_StatusVerbs : list string; prp_AllowExec : option bool; prp_AllowAttach : option bool;
  prp_AllowPortForward : option bool; prp_AllowLog : option bool
}.
Record NodeClusterRolePermissions := { ncp_NodeVerbs : list string; ncp_StatusVerbs : list string }.

(** The connectivity of a device: its method, the secrets the options of the method refer to (with their keys for the two cloud
    methods: event source and IoT service), and its timers. Durations are nanoseconds. *)
Record LocalSecretKeyReference := { lk_Name : string; lk_Key : string }.
Record ConnectivityBackoff := { cb_InitialDelay : option Z; cb_MaxDelay : option Z; cb_Factor : string }.
Record ConnectivitySpec := {
  con_Method : string; con_TLSSecretRef : option string; con_UserPassRef : option string;
  con_EventRef : LocalSecretKeyReference; con_IoTRef : LocalSecretKeyReference; con_UnarySessionTimeout : option Z; con_Backoff : ConnectivityBackoff
}.
Record MetricsConfig := { mc_Enabled : bool; mc_Collect : list string; mc_ExtraArgs : list string }.

Record EdgeDeviceSpec := {
  spec_Connectivity : ConnectivitySpec;
  spec_NodeLabels : gmap string string; spec_NodeAnnotations : option (gmap string string); spec_NodeTaints : list Taint;
  spec_FieldHooks : list FieldHook; spec_ClusterRolePermissions : gmap string NodeClusterRolePermissions;
  spec_PodIPv4CIDR : string; spec_PodIPv6CIDR : string;
  spec_RolePermissions : gmap string PodRolePermissions; spec_VirtualPodRolePermissions : gmap string PodRolePermissions;
  spec_NodeForceSyncInterval : option Z; spec_NodeMetrics : option MetricsConfig;
  spec_PodForceSyncInterval : option Z; spec_PodMetrics : option MetricsConfig; spec_PodDNS : option AranyaDNSConfig;
  spec_PodAllocatable : Z; spec_StorageEnabled : bool;
  spec_NetworkEnabled : bool; spec_Mesh : NetworkMeshSpec;
  spec_Peripherals : list PeripheralSpec; spec_MetricsReporters : list PeripheralBaseSpec
}.
Record EdgeDeviceStatus := { eds_HostNode : string; eds_MeshIPv4Addr : string; eds_MeshIPv6Addr : string }.
Record EdgeDevice := {
  ed_Name : string; ed_Namespace : string; ed_ClusterName : string; ed_Annotations : gmap string string; ed_Spec : EdgeDeviceSpec; ed_Status : EdgeDeviceStatus
}.

(** ** What a handler answers to its reconciler *)
Inductive JobAction := ActionInvalid | ActionAdd | ActionUpdate | ActionDelete | ActionCleanup.
#[export] Instance JobAction_eq : EqDecision JobAction.
Proof. solve_decision. Defined.
#[export] Instance JobAction_countable : Countable JobAction.
Proof.
  refine (inj_countable' (λ a, match a with ActionInvalid => 0 | ActionAdd => 1 | ActionUpdate => 2 | ActionDelete => 3 | ActionCleanup => 4 end)%nat
    (λ n, match n with 1 => ActionAdd | 2 => ActionUpdate | 3 => ActionDelete | 4 => ActionCleanup | _ => ActionInvalid end)%nat _).
  by intros [].
Defined.
Inductive Result :=
  | RNil
  | RErr (e : string)
  | RNext (a : JobAction) (after : Z).
