(* ===== verification/TimeoutQueue.v ===== *)
(** * The timeout queue

    src/vendor/arhat.dev/pkg/queue/timeout_queue.go: keys with data, each due at a time; what is due comes out in the order of the times.
    The queue gives the periodic work of the virtual nodes and the delayed jobs of the controllers. Times are unix nanoseconds. The
    timer and the channels that only wake its goroutine ([resetCh], [nextSort]) say when [sort] runs, not what it does, and are left out:
    [sort] may run at any time. Once the queue is stopped the code may give up a sort that it has begun; the model goes through with it. *)
From S2P Require Import Prelude.
Open Scope Z_scope.

Section TimeoutQueue.
Context {K V : Type} `{Countable K}.

Record TimeoutData := { Key : K; Data : V; expireAt : Z }.
Record TimeoutQueue := {
  running : bool; stopped : bool;  (** whether the channel [stop] is closed *)
  blackList : gset K; index : gmap K nat; data : list TimeoutData
}.
Definition NewTimeoutQueue : TimeoutQueue := {| running := false; stopped := false; blackList := ∅; index := ∅; data := [] |}.
Definition Start (q : TimeoutQueue) : TimeoutQueue :=
  if running q then q else {| running := true; stopped := false; blackList := blackList q; index := index q; data := data q |}.
Definition set_data (d : list TimeoutData) (i : gmap K nat) (q : TimeoutQueue) : TimeoutQueue :=
  {| running := running q; stopped := stopped q; blackList := blackList q; index := i; data := d |}.
Definition set_blackList (b : gset K) (q : TimeoutQueue) : TimeoutQueue :=
  {| running := running q; stopped := stopped q; blackList := b; index := index q; data := data q |}.

Inductive queue_error := ErrNotStarted | ErrStopped | ErrKeyNotAllowed.

Definition OfferWithTime (key : K) (val : V) (at_ : Z) (q : TimeoutQueue) : TimeoutQueue * option queue_error :=
  if negb (running q) then (q, Some ErrNotStarted)
  else if stopped q then (q, Some ErrStopped)
  else if bool_decide (key ∈ blackList q) then (q, Some ErrKeyNotAllowed)
  else let d := data q ++ [{| Key := key; Data := val; expireAt := at_ |}] in
       (set_data d (<[key := pred (length d)]> (index q)) q, None).
Definition OfferWithDelay (now : Z) (key : K) (val : V) (wait : Z) : TimeoutQueue → TimeoutQueue * option queue_error :=
  OfferWithTime key val (now + wait).

Fixpoint rebuild (i : nat) (d : list TimeoutData) (index : gmap K nat) : gmap K nat :=
  match d with [] => index | x :: d => rebuild (S i) d (<[Key x := i]> index) end.

Definition Clear (q : TimeoutQueue) : TimeoutQueue := set_data [] ∅ (set_blackList ∅ q).
(** q.data[i] panics when the index is stale. *)
Definition Remove (key : K) (q : TimeoutQueue) : outcome (TimeoutQueue * option V) :=
  match index q !! key with
  | None => Ret (q, None)
  | Some i =>
      match data q !! i with
      | None => Panic "index out of range"
      | Some x =>
          let d := take i (data q) ++ drop (S i) (data q) in
          Ret (set_data d (rebuild 0 d (delete key (index q))) q, Some (Data x))
      end
  end.
Definition Allow (key : K) (q : TimeoutQueue) : TimeoutQueue := set_blackList (blackList q ∖ {[key]}) q.
Definition Forbid (key : K) (q : TimeoutQueue) : TimeoutQueue := set_blackList ({[key]} ∪ blackList q) q.
Definition Find (key : K) (q : TimeoutQueue) : outcome (option TimeoutData) :=
  match index q !! key with
  | None => Ret None
  | Some i => match data q !! i with Some x => Ret (Some x) | None => Panic "index out of range" end
  end.
Definition Remains (q : TimeoutQueue) : list TimeoutData := data q.

(** sort.Sort only calls Len, Less and Swap: what it does is the swaps it makes, an argument of [sort]. *)
Definition Swap (i j : nat) (q : TimeoutQueue) : outcome TimeoutQueue :=
  match data q !! i, data q !! j with
  | Some x, Some y => Ret (set_data (<[i := y]> (<[j := x]> (data q))) (<[Key y := i]> (<[Key x := j]> (index q))) q)
  | _, _ => Panic "index out of range"
  end.
Fixpoint Swaps (l : list (nat * nat)) (q : TimeoutQueue) : outcome TimeoutQueue :=
  match l with [] => Ret q | (i, j) :: l => q ← Swap i j q; Swaps l q end.

Definition Millisecond : Z := 1000000.
Definition expired (now : Z) (x : TimeoutData) : bool := expireAt x - now <? Millisecond.
(** The number of data before the first that is not due. *)
Fixpoint expiredCount (now : Z) (d : list TimeoutData) : nat :=
  match d with x :: d => if expired now x then S (expiredCount now d) else 0%nat | [] => 0%nat end.
(** The queue after, and the data that go to the channel of TakeCh, in that order. *)
Definition sort (swaps : list (nat * nat)) (now : Z) (q : TimeoutQueue) : outcome (TimeoutQueue * list TimeoutData) :=
  if decide (length (data q) = 0%nat) then Ret (q, [])
  else q ← Swaps swaps q;
       let n := expiredCount now (data q) in
       if (n =? 0)%nat then Ret (q, [])
       else let due := take n (data q) in let d := drop n (data q) in
            Ret (set_data d (rebuild 0 d (foldl (λ m x, delete (Key x) m) (index q) due)) q, due).

(** ** The index

    A key of the index is at its position, and every key in the queue has one; a key offered twice has the position of one of the two. *)
Record wf (q : TimeoutQueue) : Prop := {
  wf_index : ∀ k i, index q !! k = Some i → ∃ x, data q !! i = Some x ∧ Key x = k;
  wf_keys : ∀ x, x ∈ data q → is_Some (index q !! Key x)
}.

Lemma rebuild_spec i d idx k :
  (k ∈ Key <$> d → ∃ j x, rebuild i d idx !! k = Some (i + j)%nat ∧ d !! j = Some x ∧ Key x = k) ∧
  (k ∉ Key <$> d → rebuild i d idx !! k = idx !! k).
Proof.
  revert i idx. induction d as [|x d IH]; intros i idx; cbn [rebuild fmap list_fmap]; [split; [by intros ?%elem_of_nil|done]|].
  destruct (IH (S i) (<[Key x := i]> idx)) as [IH1 IH2]. split.
  - intros Hk. destruct (decide (k ∈ Key <$> d)) as [Hd|Hd].
    + destruct (IH1 Hd) as (j & y & -> & Hj & Hy). exists (S j), y. split; [f_equal; lia|done].
    + apply elem_of_cons in Hk as [Hk|?]; [|done]. exists 0%nat, x. rewrite IH2 by done. subst k.
      rewrite lookup_insert_eq. split; [f_equal; lia|done].
  - intros [Hne Hd]%not_elem_of_cons. rewrite IH2 by done. by rewrite lookup_insert_ne.
Qed.

(** Rebuilding over an index with no key but those of the data. *)
Lemma rebuild_wf d idx q : (∀ k, is_Some (idx !! k) → k ∈ Key <$> d) → wf (set_data d (rebuild 0 d idx) q).
Proof.
  intros Hidx. constructor; cbn.
  - intros k i Hk. destruct (rebuild_spec 0 d idx k) as [H1 H2]. destruct (decide (k ∈ Key <$> d)) as [Hd|Hd].
    + destruct (H1 Hd) as (j & x & Hj & Hx). rewrite Hj in Hk. injection Hk as <-. by exists x.
    + rewrite H2 in Hk by done. destruct Hd. apply Hidx. by rewrite Hk.
  - intros x Hx. destruct (rebuild_spec 0 d idx (Key x)) as [H1 _].
    destruct H1 as (j & y & -> & _); [|done]. apply list_elem_of_fmap. by exists x.
Qed.

Lemma wf_key q k : wf q → is_Some (index q !! k) → k ∈ Key <$> data q.
Proof.
  intros Hwf [i Hi]. destruct (wf_index q Hwf k i Hi) as (x & Hx & <-). apply list_elem_of_fmap. exists x.
  split; [done|]. by eapply list_elem_of_lookup_2.
Qed.

Lemma OfferWithTime_wf k v t q : wf q → wf (OfferWithTime k v t q).1.
Proof.
  intros Hwf. unfold OfferWithTime. case_match; [done|]. case_match; [done|]. case_match; [done|]. cbn [fst].
  rewrite length_app, Nat.add_1_r. cbn [pred]. constructor; cbn.
  - intros k' i. destruct (decide (k = k')) as [->|Hne].
    + rewrite lookup_insert_eq. intros [= <-]. rewrite lookup_app_r, Nat.sub_diag by lia. by eexists.
    + rewrite lookup_insert_ne by done. intros Hi. destruct (wf_index q Hwf k' i Hi) as (x & Hx & Hk). exists x.
      split; [by apply lookup_app_l_Some|done].
  - intros x [Hx| ->%list_elem_of_singleton]%elem_of_app; cbn; [|by rewrite lookup_insert_eq].
    destruct (decide (k = Key x)) as [->|Hne]; [by rewrite lookup_insert_eq|]. rewrite lookup_insert_ne by done. by apply (wf_keys q Hwf).
Qed.

Lemma Remove_wf k q :
  wf q → ∃ q' r, Remove k q = Ret (q', r) ∧ wf q' ∧ (r = None ↔ k ∉ Key <$> data q) ∧
    match r with
    | None => q' = q
    | Some v => ∃ i x, data q !! i = Some x ∧ Key x = k ∧ Data x = v ∧ data q' = take i (data q) ++ drop (S i) (data q) ∧
                       blackList q' = blackList q ∧ running q' = running q ∧ stopped q' = stopped q
    end.
Proof.
  intros Hwf. unfold Remove. destruct (index q !! k) as [i|] eqn:Hi.
  - destruct (wf_index q Hwf k i Hi) as (x & Hx & Hk). rewrite Hx. eexists _, _. split; [done|]. split_and!.
    + apply rebuild_wf. intros k' Hk'. destruct (decide (k = k')) as [->|Hne].
      { rewrite lookup_delete_eq in Hk'. by apply is_Some_None in Hk'. }
      rewrite lookup_delete_ne in Hk' by done. apply wf_key in Hk' as (y & -> & Hy)%list_elem_of_fmap; [|done].
      apply list_elem_of_fmap. exists y. split; [done|]. rewrite <- (take_drop_middle _ _ _ Hx) in Hy.
      apply elem_of_app in Hy as [Hy|[->|Hy]%elem_of_cons]; [|done|]; apply elem_of_app; [by left|by right].
    + split; [done|]. intros Hn. destruct Hn. apply list_elem_of_fmap. exists x. split; [done|]. by eapply list_elem_of_lookup_2.
    + by exists i, x.
  - eexists _, _. split; [done|]. split_and!; [done| |done]. split; [|done]. intros _ (x & -> & Hx)%list_elem_of_fmap.
    destruct (wf_keys q Hwf x Hx) as [? Hs]. congruence.
Qed.

Lemma Swap_wf i j q :
  wf q → (i < length (data q))%nat → (j < length (data q))%nat →
  ∃ q', Swap i j q = Ret q' ∧ wf q' ∧ data q' ≡ₚ data q ∧
        running q' = running q ∧ stopped q' = stopped q ∧ blackList q' = blackList q.
Proof.
  intros Hwf Hi Hj. destruct (lookup_lt_is_Some_2 _ _ Hi) as [x Hx], (lookup_lt_is_Some_2 _ _ Hj) as [y Hy].
  unfold Swap. rewrite Hx, Hy. eexists. split; [done|]. pose proof (Permutation_insert_swap _ _ _ _ _ Hy Hx) as Hp.
  split; [|done]. constructor; cbn.
  - intros k n. assert ((<[j := x]> (data q)) !! j = Some x) as Hjx by by rewrite list_lookup_insert_eq.
    destruct (decide (Key y = k)) as [<-|Hky].
    { rewrite lookup_insert_eq. intros [= <-]. exists y. by rewrite list_lookup_insert_eq by by rewrite length_insert. }
    rewrite lookup_insert_ne by done. destruct (decide (Key x = k)) as [<-|Hkx].
    + rewrite lookup_insert_eq. intros [= <-]. exists x. rewrite list_lookup_insert_ne; [done|]. intros ->. congruence.
    + rewrite lookup_insert_ne by done. intros Hn. destruct (wf_index q Hwf k n Hn) as (z & Hz & Hk). exists z.
      rewrite !list_lookup_insert_ne by (intros ->; congruence). done.
  - intros z Hz. rewrite Hp in Hz. destruct (decide (Key y = Key z)) as [->|?]; [by rewrite lookup_insert_eq|].
    rewrite lookup_insert_ne by done. destruct (decide (Key x = Key z)) as [->|?]; [by rewrite lookup_insert_eq|].
    rewrite lookup_insert_ne by done. by apply (wf_keys q Hwf).
Qed.
Definition in_range (n : nat) (l : list (nat * nat)) : Prop := Forall (λ p, p.1 < n ∧ p.2 < n)%nat l.
Lemma Swaps_wf l q :
  wf q → in_range (length (data q)) l →
  ∃ q', Swaps l q = Ret q' ∧ wf q' ∧ data q' ≡ₚ data q ∧
        running q' = running q ∧ stopped q' = stopped q ∧ blackList q' = blackList q.
Proof.
  revert q. induction l as [|[i j] l IH]; intros q Hwf Hr; cbn [Swaps]; [by exists q|].
  apply Forall_cons in Hr as [ [Hi Hj] Hr]. destruct (Swap_wf i j q Hwf Hi Hj) as (q1 & -> & Hw1 & Hp1 & ? & ? & ?).
  cbn [mbind outcome_bind]. destruct (IH q1 Hw1) as (q2 & -> & Hw2 & Hp2 & ? & ? & ?); [by rewrite Hp1|].
  exists q2. split_and!; [done|done|by rewrite Hp2|congruence..].
Qed.

Lemma expiredCount_sorted now d :
  StronglySorted (λ x y, expireAt x ≤ expireAt y) d →
  take (expiredCount now d) d = filter (λ x, expired now x) d ∧ drop (expiredCount now d) d = filter (λ x, ¬ expired now x) d.
Proof.
  induction 1 as [|x d Hs [IH1 IH2] Hx]; [done|]. cbn [expiredCount]. rewrite !filter_cons.
  destruct (expired now x) eqn:He; cbn [take drop].
  - rewrite decide_True by done. rewrite decide_False by (intros Hn; by apply Hn). by rewrite IH1, IH2.
  - assert (∀ y, y ∈ d → expired now y = false) as Hall.
    { intros y Hy. rewrite Forall_forall in Hx. specialize (Hx y Hy). unfold expired in *. bool_to_Z. apply Z.ltb_ge. lia. }
    rewrite (decide_False (P := Is_true false)), (decide_True (P := ¬ Is_true false)) by (by intros ?). split.
    + symmetry. apply length_zero_iff_nil, length_filter_0. intros y Hy. rewrite Hall by done. exact id.
    + f_equal. clear -Hall. induction d as [|y d IH]; [done|]. rewrite filter_cons, decide_True by (rewrite Hall by left; exact id).
      f_equal. apply IH. intros z Hz. apply Hall. by right.
Qed.
Lemma sort_index q due k :
  wf q → is_Some (foldl (λ m x, delete (Key x) m) (index q) due !! k) → k ∈ Key <$> data q ∧ k ∉ Key <$> due.
Proof.
  intros Hwf Hk. enough (is_Some (index q !! k) ∧ k ∉ Key <$> due) as [H1 H2] by (split; [by apply wf_key|done]).
  clear Hwf. revert Hk. generalize (index q) as m. induction due as [|x due IH]; intros m Hk; cbn in *; [split; [done|by intros ?%elem_of_nil]|].
  apply IH in Hk as [Hk Hni]. destruct (decide (Key x = k)) as [<-|Hne]; [rewrite lookup_delete_eq in Hk; by apply is_Some_None in Hk|].
  rewrite lookup_delete_ne in Hk by done. split; [done|]. rewrite elem_of_cons. intros [->|?]; done.
Qed.

(** The same, however the swaps order the data. *)
Lemma sort_wf swaps now q :
  wf q → in_range (length (data q)) swaps →
  ∃ q' due, sort swaps now q = Ret (q', due) ∧ wf q' ∧ blackList q' = blackList q ∧ running q' = running q ∧ stopped q' = stopped q ∧
    data q' ++ due ≡ₚ data q.
Proof.
  intros Hwf Hr. unfold sort. case_decide as Hl; [exists q, []; by rewrite app_nil_r|].
  destruct (Swaps_wf swaps q Hwf Hr) as (q1 & -> & Hwf1 & Hp & Hrun & Hst & Hbl). cbn [mbind outcome_bind].
  set (n := expiredCount now (data q1)). pose proof (take_drop n (data q1)) as Htd.
  destruct (n =? 0)%nat; [exists q1, []; by rewrite app_nil_r|]. eexists _, _. split; [done|].
  split_and!; try done; cbn [set_data data]; [|by rewrite Permutation_app_comm, Htd].
  apply rebuild_wf. intros k Hk. apply sort_index in Hk as [Hk Hni]; [|done].
  rewrite <- Htd, fmap_app in Hk. apply elem_of_app in Hk as [?|?]; done.
Qed.

(** From an index that is right and when sort.Sort sorts, [sort] never indexes out of range, keeps the index right, and takes out of
    the queue exactly the data that are due within a millisecond, in the order of their times; all the others stay. *)
Lemma sort_correct swaps now q :
  wf q → in_range (length (data q)) swaps →
  (∀ q', Swaps swaps q = Ret q' → StronglySorted (λ x y, expireAt x ≤ expireAt y) (data q')) →
  ∃ q' due, sort swaps now q = Ret (q', due) ∧ wf q' ∧
    data q' ++ due ≡ₚ data q ∧ (∀ x, x ∈ due ↔ x ∈ data q ∧ expireAt x - now < Millisecond) ∧
    (∀ x, x ∈ data q' → Millisecond <= expireAt x - now) ∧
    StronglySorted (λ x y, expireAt x ≤ expireAt y) due ∧ blackList q' = blackList q ∧ running q' = running q ∧ stopped q' = stopped q.
Proof.
  intros Hwf Hr Hsorted. unfold sort. case_decide as Hl.
  { apply length_zero_iff_nil in Hl. exists q, []. rewrite Hl. split_and!; try done; [intros x; rewrite elem_of_nil; tauto|intros x Hx; by apply elem_of_nil in Hx|constructor]. }
  destruct (Swaps_wf swaps q Hwf Hr) as (q1 & Hq1 & Hwf1 & Hp & Hrun & Hst & Hbl). specialize (Hsorted q1 Hq1).
  rewrite Hq1. cbn [mbind outcome_bind]. destruct (expiredCount_sorted now (data q1) Hsorted) as [Htake Hdrop].
  set (n := expiredCount now (data q1)) in *. pose proof (take_drop n (data q1)) as Htd.
  assert (∀ x, x ∈ take n (data q1) ↔ x ∈ data q ∧ expireAt x - now < Millisecond) as Hdue.
  { intros x. rewrite Htake, list_elem_of_filter, Hp. unfold expired. rewrite Is_true_true, Z.ltb_lt. tauto. }
  assert (∀ x, x ∈ drop n (data q1) → Millisecond <= expireAt x - now) as Hrest.
  { intros x. rewrite Hdrop, list_elem_of_filter. unfold expired. rewrite Is_true_true, Z.ltb_lt. lia. }
  assert (StronglySorted (λ x y, expireAt x ≤ expireAt y) (take n (data q1))) as Hss.
  { rewrite Htake. clear -Hsorted. induction Hsorted as [|x l _ IH Hx]; [constructor|]. rewrite filter_cons. case_decide; [|done].
    constructor; [done|]. rewrite Forall_forall in *. intros y [_ ?]%list_elem_of_filter. by apply Hx. }
  destruct (n =? 0)%nat eqn:Hn.
  - apply Nat.eqb_eq in Hn. rewrite Hn in *. exists q1, []. rewrite app_nil_r. by split_and!.
  - eexists _, _. split; [done|]. split_and!; try done; cbn [set_data data].
    + apply rebuild_wf. intros k Hk. apply sort_index in Hk as [Hk Hni]; [|done].
      rewrite <- Htd, fmap_app in Hk. apply elem_of_app in Hk as [?|?]; done.
    + rewrite Permutation_app_comm, Htd. done.
Qed.
End TimeoutQueue.

Module TimeoutQueueExamples.
Definition item (k : string) (t : Z) : @TimeoutData string Z := {| Key := k; Data := 0; expireAt := t |}.
Definition queue : @TimeoutQueue string Z _ _ :=
  (OfferWithTime "c" 0 9000000 (OfferWithTime "b" 0 500 (OfferWithTime "a" 0 5000000 (Start NewTimeoutQueue)).1).1).1.

Lemma queue_wf : wf queue.
Proof. repeat apply OfferWithTime_wf. constructor; cbn; [intros k i; by rewrite lookup_empty|by intros x ?%elem_of_nil]. Qed.
Lemma sort_correct_witness :
  wf queue ∧ ∃ q' due, sort [(0, 1)]%nat 4500000 queue = Ret (q', due) ∧ due = [item "b" 500; item "a" 5000000] ∧ data q' = [item "c" 9000000].
Proof.
  split; [exact queue_wf|].
  destruct (sort_correct [(0, 1)]%nat 4500000 queue queue_wf) as (q' & due & Hs & _).
  - vm_compute. repeat constructor.
  - intros q' [= <-]. repeat constructor; vm_compute; by intros [=].
  - exists q', due. split; [done|]. vm_compute in Hs. injection Hs as <- <-. split; reflexivity.
Defined.
End TimeoutQueueExamples.
