(* ===== verification/Reconcile.v ===== *)
(** * The job queue and the reconcilers

    src/vendor/arhat.dev/pkg/queue/job_queue.go ([JobQueue]) and src/vendor/arhat.dev/pkg/reconcile ([Cache], [Core]): the queue that
    drops redundant jobs, the cache of objects, and the machine that runs the handlers of all controllers, several at a time. Keys are
    strings. A channel that only signals is whether it is closed. *)
From S2P Require Import Prelude K8s Api TimeoutQueue.
Open Scope nat_scope.

Definition Job : Type := JobAction * string.

Module JobQueue.

Record JobQueue := {
  queue : list Job; index : gmap Job nat;
  hasJob : bool;      (** whether the channel is closed *)
  chanClosed : bool; paused : bool
}.
Definition NewJobQueue : JobQueue := {| queue := []; index := ∅; hasJob := true; chanClosed := true; paused := true |}.

Definition set_queue (l : list Job) (i : gmap Job nat) (q : JobQueue) : JobQueue :=
  {| queue := l; index := i; hasJob := hasJob q; chanClosed := chanClosed q; paused := paused q |}.
Definition set_chan (closed : bool) (q : JobQueue) : JobQueue :=
  {| queue := queue q; index := index q; hasJob := closed; chanClosed := closed; paused := paused q |}.
Definition set_paused (p : bool) (q : JobQueue) : JobQueue :=
  {| queue := queue q; index := index q; hasJob := hasJob q; chanClosed := chanClosed q; paused := p |}.

Definition has (action : JobAction) (key : string) (q : JobQueue) : bool := bool_decide (is_Some (index q !! (action, key))).
Definition add (w : Job) (q : JobQueue) : JobQueue :=
  set_queue (queue q ++ [w]) (<[w := length (queue q)]> (index q)) q.
(** buildIndex writes the position of every job of the queue over what the index has. *)
Fixpoint buildIndex (i : nat) (l : list Job) (index : gmap Job nat) : gmap Job nat :=
  match l with [] => index | w :: l => buildIndex (S i) l (<[w := i]> index) end.
Definition delete_job (w : Job) (q : JobQueue) : JobQueue * bool :=
  match index q !! w with
  | None => (q, false)
  | Some idx =>
      let l := take idx (queue q) ++ drop (S idx) (queue q) in
      (set_queue l (buildIndex 0 l (delete w (index q))) q, true)
  end.

Definition Remains (q : JobQueue) : list Job := queue q.
(** The first action for which the key has a job. *)
Definition Find (key : string) (q : JobQueue) : option Job :=
  head (omap (λ a, i ← index q !! (a, key); queue q !! i) [ActionAdd; ActionUpdate; ActionDelete; ActionCleanup]).

Definition reopen_if_empty (q : JobQueue) : JobQueue :=
  if decide (queue q = []) then (if paused q then q else set_chan false q) else q.
(** The job and whether to go on; [Diverge] when it waits for a job. *)
Definition Acquire (q : JobQueue) : outcome (JobQueue * (Job * bool)) :=
  if negb (hasJob q) then Diverge
  else if paused q then Ret (q, ((ActionInvalid, ""), false))
  else match queue q with
       | [] => Ret (reopen_if_empty q, ((ActionInvalid, ""), true))
       | w :: _ => Ret (reopen_if_empty (delete_job w q).1, (w, true))
       end.

Inductive offer_error := ErrJobDuplicated | ErrJobConflict | ErrJobCounteract | ErrJobInvalid.
#[export] Instance offer_error_eq : EqDecision offer_error.
Proof. solve_decision. Defined.
(** close(q.hasJob) panics when the channel is closed. *)
Definition signal (q : JobQueue) : JobQueue := if hasJob q then q else set_chan true q.
Definition Offer (w : Job) (q : JobQueue) : JobQueue * option offer_error :=
  let '(action, key) := w in
  match action with
  | ActionInvalid => (q, Some ErrJobInvalid)
  | _ =>
      if has action key q then (q, Some ErrJobDuplicated) else
      match action with
      | ActionInvalid => (q, Some ErrJobInvalid)
      | ActionAdd => if has ActionUpdate key q then (q, Some ErrJobConflict) else (signal (add w q), None)
      | ActionUpdate => if has ActionAdd key q || has ActionDelete key q then (q, Some ErrJobConflict) else (signal (add w q), None)
      | ActionDelete =>
          if has ActionAdd key q then ((delete_job (ActionAdd, key) q).1, Some ErrJobCounteract)
          else (signal (add w (if has ActionUpdate key q then (delete_job (ActionUpdate, key) q).1 else q)), None)
      | ActionCleanup => (signal (add w q), None)
      end
  end.
Definition Resume (q : JobQueue) : JobQueue :=
  let q := if chanClosed q && bool_decide (queue q = []) then set_chan false q else q in set_paused false q.
Definition Pause (q : JobQueue) : outcome JobQueue :=
  q ← (if negb (chanClosed q) then (if hasJob q then Panic "close of closed channel" else Ret (set_chan true q)) else Ret q);
  Ret (set_paused true q).
Definition Remove (w : Job) (q : JobQueue) : JobQueue * bool := delete_job w q.

(** ** The queue against a list

    What the queue stands for is a list of jobs, whether it is paused and whether a consumer may go on. Two jobs may be in the list in
    that order when they are different and, of one key, there are not an Add and an Update, nor an Update and a Delete, nor a Delete after
    an Add. *)
Definition compat (a b : Job) : Prop :=
  a ≠ b ∧ (a.2 = b.2 → ¬ (a.1 = ActionAdd ∧ b.1 ∈ [ActionUpdate; ActionDelete]) ∧
                       ¬ (a.1 = ActionUpdate ∧ b.1 ∈ [ActionAdd; ActionDelete]) ∧ ¬ (a.1 = ActionDelete ∧ b.1 = ActionUpdate)).
Record wf (q : JobQueue) : Prop := {
  wf_index : ∀ w i, index q !! w = Some i ↔ queue q !! i = Some w;
  wf_compat : StronglySorted compat (queue q);
  wf_valid : ActionInvalid ∉ (queue q).*1;
  wf_chan : hasJob q = chanClosed q;
  wf_wake : queue q ≠ [] ∨ paused q = true → hasJob q = true
}.

Definition without (w : Job) (l : list Job) : list Job := filter (λ x, x ≠ w) l.

Lemma compat_NoDup l : StronglySorted compat l → NoDup l.
Proof.
  induction 1 as [|x l _ IH Hx]; constructor; [|done]. intros Hin. rewrite Forall_forall in Hx. by destruct (Hx x Hin).
Qed.

Lemma buildIndex_lookup i l idx w :
  NoDup l → buildIndex i l idx !! w = match list_find (eq w) l with Some (j, _) => Some (i + j) | None => idx !! w end.
Proof.
  revert i idx. induction l as [|x l IH]; intros i idx Hnd; cbn [buildIndex list_find]; [done|].
  apply NoDup_cons in Hnd as [Hx Hnd]. rewrite IH by done. case_decide as Hd.
  - subst x. assert (list_find (eq w) l = None) as ->.
    { apply list_find_None, Forall_forall. intros y Hy <-. done. }
    by rewrite lookup_insert_eq, Nat.add_0_r.
  - destruct (list_find (eq w) l) as [ [j y]|]; cbn; [f_equal; lia|]. by rewrite lookup_insert_ne by congruence.
Qed.
Lemma find_NoDup (l : list Job) w i : NoDup l → l !! i = Some w ↔ ∃ y, list_find (eq w) l = Some (i, y).
Proof.
  intros Hnd. split.
  - intros Hi. exists w. apply list_find_Some. split_and!; [done|done|]. intros j y Hj Hlt <-.
    pose proof (NoDup_lookup _ _ _ _ Hnd Hi Hj). lia.
  - intros [y Hf]. by apply list_find_Some in Hf as (Hl & <- & _).
Qed.

(** Removing a job by its position is filtering it out. *)
Lemma without_absent w l : w ∉ l → without w l = l.
Proof.
  unfold without. induction l as [|x l IH]; [done|]. intros [Hx Hl]%not_elem_of_cons. rewrite filter_cons, decide_True by done.
  f_equal. by apply IH.
Qed.
Lemma remove_at l i (w : Job) : NoDup l → l !! i = Some w → take i l ++ drop (S i) l = without w l.
Proof.
  revert i. induction l as [|x l IH]; intros i Hnd Hi; [done|]. apply NoDup_cons in Hnd as [Hx Hnd].
  destruct i as [|i]; cbn in Hi.
  - injection Hi as ->. cbn [take drop]. rewrite drop_0. unfold without. rewrite filter_cons, decide_False by (intros Hn; by apply Hn).
    symmetry. by apply without_absent.
  - cbn [take drop app]. unfold without. rewrite filter_cons, decide_True by (intros ->; apply Hx; by eapply list_elem_of_lookup_2).
    f_equal. by apply IH.
Qed.

Lemma delete_job_spec w q : wf q →
  (delete_job w q).2 = bool_decide (w ∈ queue q) ∧ queue (delete_job w q).1 = without w (queue q) ∧
  paused (delete_job w q).1 = paused q ∧ hasJob (delete_job w q).1 = hasJob q ∧ chanClosed (delete_job w q).1 = chanClosed q ∧
  ∀ x i, index (delete_job w q).1 !! x = Some i ↔ queue (delete_job w q).1 !! i = Some x.
Proof.
  intros Hwf. unfold delete_job. destruct (index q !! w) as [idx|] eqn:Hi.
  - apply (wf_index q Hwf) in Hi. pose proof (remove_at _ _ _ (compat_NoDup _ (wf_compat q Hwf)) Hi) as Hrem. cbn [fst snd set_queue queue index paused hasJob chanClosed].
    rewrite Hrem. split_and!; [by rewrite bool_decide_true by (by eapply list_elem_of_lookup_2)|done..|].
    assert (NoDup (without w (queue q))) as Hnd by apply NoDup_filter, compat_NoDup, Hwf. intros x i.
    rewrite buildIndex_lookup, find_NoDup by done. destruct (list_find (eq x) (without w (queue q))) as [ [j y]|] eqn:Hf.
    + cbn. split; [intros [= <-]; by eexists|intros [z [= -> _] ]; done].
    + split; [|by intros [? ?] ]. intros Hx. exfalso. destruct (decide (x = w)) as [->|Hne]; [by rewrite lookup_delete_eq in Hx|].
      rewrite lookup_delete_ne in Hx by done. apply (wf_index q Hwf), list_elem_of_lookup_2 in Hx.
      apply list_find_None in Hf. rewrite Forall_forall in Hf. apply (Hf x); [|done]. by apply list_elem_of_filter.
  - assert (w ∉ queue q) as Hni. { intros Hin. apply list_elem_of_lookup in Hin as [i Hl]. apply (wf_index q Hwf) in Hl. congruence. }
    cbn. split_and!; [by rewrite bool_decide_false| |done..|apply Hwf].
    by rewrite without_absent.
Qed.

Lemma has_spec a k q : wf q → has a k q = bool_decide ((a, k) ∈ queue q).
Proof.
  intros Hwf. unfold has. apply bool_decide_ext. rewrite list_elem_of_lookup. split; intros [i Hi]; exists i; by apply (wf_index q Hwf).
Qed.

(** What the queue stands for. *)
Record spec := { jobs : list Job; stopped : bool; woken : bool }.
Definition abs (q : JobQueue) : spec := {| jobs := queue q; stopped := paused q; woken := hasJob q |}.

Definition spec_offer (w : Job) (s : spec) : spec * option offer_error :=
  let '(action, key) := w in let holds a := bool_decide ((a, key) ∈ jobs s) in
  let put l := ({| jobs := l ++ [w]; stopped := stopped s; woken := true |}, None) in
  match action with
  | ActionInvalid => (s, Some ErrJobInvalid)
  | _ =>
      if holds action then (s, Some ErrJobDuplicated) else
      match action with
      | ActionAdd => if holds ActionUpdate then (s, Some ErrJobConflict) else put (jobs s)
      | ActionUpdate => if holds ActionAdd || holds ActionDelete then (s, Some ErrJobConflict) else put (jobs s)
      | ActionDelete =>
          if holds ActionAdd
          then ({| jobs := without (ActionAdd, key) (jobs s); stopped := stopped s; woken := woken s |}, Some ErrJobCounteract)
          else put (without (ActionUpdate, key) (jobs s))
      | _ => put (jobs s)
      end
  end.
Definition spec_remove (w : Job) (s : spec) : spec * bool :=
  ({| jobs := without w (jobs s); stopped := stopped s; woken := woken s |}, bool_decide (w ∈ jobs s)).
Definition spec_acquire (s : spec) : outcome (spec * (Job * bool)) :=
  if negb (woken s) then Diverge
  else if stopped s then Ret (s, ((ActionInvalid, ""), false))
  else match jobs s with
       | [] => Ret ({| jobs := []; stopped := false; woken := false |}, ((ActionInvalid, ""), true))
       | w :: l => Ret ({| jobs := l; stopped := false; woken := bool_decide (l ≠ []) |}, (w, true))
       end.
Definition spec_resume (s : spec) : spec :=
  {| jobs := jobs s; stopped := false; woken := woken s && bool_decide (jobs s ≠ []) |}.
Definition spec_pause (s : spec) : spec := {| jobs := jobs s; stopped := true; woken := true |}.

(** A change of the queue that keeps the rest and leaves a list that is in order. *)
Lemma wf_set l i q (closed : bool) :
  wf q → (∀ w n, i !! w = Some n ↔ l !! n = Some w) → StronglySorted compat l → ActionInvalid ∉ l.*1 →
  (l ≠ [] ∨ paused q = true → closed = true) → wf (set_chan closed (set_queue l i q)).
Proof. intros Hwf Hi Hc Hv Hw. constructor; cbn; done. Qed.
Lemma without_invalid w l : ActionInvalid ∉ l.*1 → ActionInvalid ∉ (without w l).*1.
Proof. intros Hv (x & Hx & [_ Hin]%list_elem_of_filter)%list_elem_of_fmap. apply Hv, list_elem_of_fmap. by exists x. Qed.
Lemma delete_job_wf w q : wf q → wf (delete_job w q).1.
Proof.
  intros Hwf. destruct (delete_job_spec w q Hwf) as (_ & Hq & Hp & Hj & Hc & Hi).
  constructor; rewrite ?Hq, ?Hp, ?Hj, ?Hc; [by rewrite <- Hq|apply StronglySorted_filter, Hwf|apply without_invalid, Hwf|apply Hwf|].
  intros [Hl|Hs]; apply (wf_wake q Hwf); [|by right]. left. intros Hn. rewrite Hn in Hl. done.
Qed.

(** Appending a job compatible with all of the queue. *)
Lemma add_wf w q :
  wf q → Forall (λ x, compat x w) (queue q) → w.1 ≠ ActionInvalid →
  wf (signal (add w q)) ∧ abs (signal (add w q)) = {| jobs := queue q ++ [w]; stopped := paused q; woken := true |}.
Proof.
  intros Hwf Hc Hv.
  assert (w ∉ queue q) as Hni by (intros Hin; rewrite Forall_forall in Hc; by destruct (Hc w Hin)).
  assert (∀ x n, index (add w q) !! x = Some n ↔ (queue q ++ [w]) !! n = Some x) as Hidx.
  { intros x n. cbn. destruct (decide (x = w)) as [->|Hne].
    - rewrite lookup_insert_eq. split; [intros [= <-]; by rewrite lookup_app_r, Nat.sub_diag by lia|].
      intros [Hl|[Hle Hl] ]%lookup_app_Some; [by apply list_elem_of_lookup_2 in Hl|]. apply list_lookup_singleton_Some in Hl as [Hn _]. f_equal. lia.
    - rewrite lookup_insert_ne, (wf_index q Hwf) by done. split; [intros Hl; by apply lookup_app_l_Some|].
      intros [Hl|[Hle Hl] ]%lookup_app_Some; [done|]. apply list_lookup_singleton_Some in Hl as [_ ->]. done. }
  assert (StronglySorted compat (queue q ++ [w])) as Hsort.
  { clear -Hwf Hc. pose proof (wf_compat q Hwf) as Hs. induction Hs as [|x l Hs IH Hx]; cbn; [repeat constructor|].
    apply Forall_cons in Hc as [Hxw Hc]. constructor; [by apply IH|]. apply Forall_app. by split; [|constructor]. }
  assert (ActionInvalid ∉ (queue q ++ [w]).*1) as Hval.
  { rewrite fmap_app. intros [Hin|Hin]%elem_of_app; [by apply (wf_valid q Hwf)|]. by apply list_elem_of_singleton in Hin. }
  unfold signal, abs. destruct (hasJob (add w q)) eqn:Hj; cbn in Hj |- *; rewrite ?Hj; (split; [|done]).
  - pose proof (wf_chan q Hwf) as Hch. constructor; cbn; congruence || done.
  - constructor; cbn; done.
Qed.

Lemma compat_snoc (l : list Job) a k :
  (a, k) ∉ l →
  (a = ActionAdd → ((ActionUpdate, k) ∉ l)) → (a = ActionUpdate → ((ActionAdd, k) ∉ l) ∧ ((ActionDelete, k) ∉ l)) →
  (a = ActionDelete → ((ActionAdd, k) ∉ l) ∧ ((ActionUpdate, k) ∉ l)) → Forall (λ x, compat x (a, k)) l.
Proof.
  intros Ha H1 H2 H3. apply Forall_forall. intros [b k'] Hx. split; [by intros [= -> ->]|].
  cbn. intros ->. rewrite !elem_of_cons, elem_of_nil. naive_solver.
Qed.

Lemma Offer_spec w q : wf q → wf (Offer w q).1 ∧ (abs (Offer w q).1, (Offer w q).2) = spec_offer w (abs q).
Proof.
  intros Hwf. destruct w as [a k].
  assert (∀ q', wf q' → a ≠ ActionInvalid → Forall (λ x, compat x (a, k)) (queue q') → paused q' = paused q →
    wf (signal (add (a, k) q')) ∧ (abs (signal (add (a, k) q')), @None offer_error) =
      ({| jobs := queue q' ++ [(a, k)]; stopped := paused q; woken := true |}, None)) as Hadd.
  { intros q' Hwf' Ha Hc Hp. destruct (add_wf (a, k) q' Hwf' Hc Ha) as [H1 H2]. split; [done|]. by rewrite H2, Hp. }
  unfold Offer, spec_offer. rewrite !has_spec by done. cbn [abs jobs stopped woken].
  destruct a; [done| | | |]; (case_bool_decide as Hdup; [done|]).
  - case_bool_decide; [done|]. cbn [fst snd]. apply Hadd; try done. by apply compat_snoc.
  - do 2 (case_bool_decide; [done|]; cbn [orb]). apply Hadd; try done. by apply compat_snoc.
  - pose proof (delete_job_spec (ActionAdd, k) q Hwf) as (_ & Hq & Hp & Hj & _). case_bool_decide as Hadds.
    { split; [by apply delete_job_wf|]. cbn [fst snd]. unfold abs. by rewrite Hq, Hp, Hj. }
    clear Hq Hp Hj. cbn [fst snd]. set (q' := if bool_decide _ then _ else q).
    assert (wf q' ∧ queue q' = without (ActionUpdate, k) (queue q) ∧ paused q' = paused q) as (Hwf' & Hq & Hp).
    { subst q'. case_bool_decide; [|by rewrite without_absent]. split; [by apply delete_job_wf|].
      by destruct (delete_job_spec (ActionUpdate, k) q Hwf) as (_ & ? & ? & _). }
    rewrite <- Hq. apply Hadd; try done. rewrite Hq. apply compat_snoc; try done; unfold without.
    + by intros [_ ?]%list_elem_of_filter.
    + intros _. split; [by intros [_ ?]%list_elem_of_filter|]. by intros [Hn _]%list_elem_of_filter.
  - apply Hadd; try done. by apply compat_snoc.
Qed.

Lemma Remove_spec w q : wf q → wf (Remove w q).1 ∧ (abs (Remove w q).1, (Remove w q).2) = spec_remove w (abs q).
Proof.
  intros Hwf. split; [by apply delete_job_wf|]. destruct (delete_job_spec w q Hwf) as (Hb & Hq & Hp & Hj & _).
  unfold abs, spec_remove, Remove. by rewrite Hb, Hq, Hp, Hj.
Qed.

Lemma set_chan_wf (c : bool) q : wf q → (queue q ≠ [] ∨ paused q = true → c = true) → wf (set_chan c q).
Proof. intros Hwf Hc. constructor; cbn; [apply Hwf..|done|done]. Qed.

(** The first job is taken. *)
Lemma Acquire_spec q :
  wf q → match Acquire q with
         | Ret (q', r) => wf q' ∧ spec_acquire (abs q) = Ret (abs q', r)
         | Panic _ => False
         | Diverge => spec_acquire (abs q) = Diverge
         end.
Proof.
  intros Hwf. unfold Acquire, spec_acquire. cbn [abs jobs stopped woken]. destruct (hasJob q) eqn:Hj; [|done]. cbn [negb].
  destruct (paused q) eqn:Hp; [split; [done|]; unfold abs; by rewrite Hj, Hp|].
  destruct (queue q) as [|w l] eqn:Hq.
  - unfold reopen_if_empty. rewrite decide_True, Hp by done. split; [|unfold abs; cbn; by rewrite Hq, Hp].
    apply set_chan_wf; [done|]. rewrite Hq, Hp. by intros [?|?].
  - pose proof (delete_job_wf w q Hwf) as Hwf'. destruct (delete_job_spec w q Hwf) as (_ & Hq' & Hp' & Hj' & _).
    assert (queue (delete_job w q).1 = l) as Hl.
    { rewrite Hq', Hq. pose proof (compat_NoDup _ (wf_compat q Hwf)) as Hnd. rewrite Hq in Hnd. apply NoDup_cons in Hnd as [Hnd _].
      unfold without. rewrite filter_cons, decide_False by (intros Hn; by apply Hn). by apply without_absent. }
    unfold reopen_if_empty. rewrite Hl. case_decide as Hn; rewrite ?Hp', ?Hp.
    + split; [|unfold abs; cbn; by rewrite Hl, Hp', Hp, Hn]. apply set_chan_wf; [done|]. rewrite Hl, Hp', Hp, Hn. by intros [?|?].
    + split; [done|]. unfold abs. rewrite Hl, Hp', Hp, Hj', Hj. by rewrite bool_decide_true.
Qed.

Lemma Resume_spec q : wf q → wf (Resume q) ∧ abs (Resume q) = spec_resume (abs q).
Proof.
  intros Hwf. unfold Resume, spec_resume, abs. cbn [jobs woken]. rewrite <- (wf_chan q Hwf).
  destruct (hasJob q) eqn:Hj; cbn [andb]; [case_bool_decide as Hq|]; cbn [set_paused set_chan queue paused hasJob].
  - rewrite Hq. split; [|done]. constructor; cbn; [apply Hwf..|done|]. rewrite Hq. by intros [?|?].
  - rewrite Hj, bool_decide_true by done. split; [|done]. constructor; cbn; [apply Hwf..|]. done.
  - rewrite Hj. split; [|done]. constructor; cbn; [apply Hwf..|]. intros [Hq|?]; [|done]. apply (wf_wake q Hwf). by left.
Qed.
Lemma Pause_spec q : wf q → ∃ q', Pause q = Ret q' ∧ wf q' ∧ abs q' = spec_pause (abs q).
Proof.
  intros Hwf. unfold Pause. rewrite <- (wf_chan q Hwf). destruct (hasJob q) eqn:Hj; cbn [negb mbind outcome_bind]; eexists; split; [done| |done|].
  all: split; [constructor; cbn; try apply Hwf; done|]. all: unfold abs, spec_pause; cbn; by rewrite ?Hj.
Qed.

(** ** Histories *)
Inductive op := OfferOp (w : Job) | RemoveOp (w : Job) | AcquireOp | ResumeOp | PauseOp.
Inductive obs := Offered (e : option offer_error) | Removed (b : bool) | Acquired (w : Job) (more : bool) | Done.

Definition run_op (o : op) (q : JobQueue) : outcome (JobQueue * obs) :=
  match o with
  | OfferOp w => Ret ((Offer w q).1, Offered (Offer w q).2)
  | RemoveOp w => Ret ((Remove w q).1, Removed (Remove w q).2)
  | AcquireOp => '(q, (w, more)) ← Acquire q; Ret (q, Acquired w more)
  | ResumeOp => Ret (Resume q, Done)
  | PauseOp => q ← Pause q; Ret (q, Done)
  end.
Definition spec_op (o : op) (s : spec) : outcome (spec * obs) :=
  match o with
  | OfferOp w => Ret ((spec_offer w s).1, Offered (spec_offer w s).2)
  | RemoveOp w => Ret ((spec_remove w s).1, Removed (spec_remove w s).2)
  | AcquireOp => '(s, (w, more)) ← spec_acquire s; Ret (s, Acquired w more)
  | ResumeOp => Ret (spec_resume s, Done)
  | PauseOp => Ret (spec_pause s, Done)
  end.
Fixpoint run {S} (step : op → S → outcome (S * obs)) (os : list op) (s : S) : outcome (S * list obs) :=
  match os with
  | [] => Ret (s, [])
  | o :: os => '(s, r) ← step o s; '(s, rs) ← run step os s; Ret (s, r :: rs)
  end.

Lemma run_op_spec o q :
  wf q → match run_op o q with
         | Ret (q', r) => wf q' ∧ spec_op o (abs q) = Ret (abs q', r)
         | Panic _ => False
         | Diverge => spec_op o (abs q) = Diverge
         end.
Proof.
  intros Hwf. destruct o as [w|w| | |]; cbn [run_op spec_op].
  - destruct (Offer_spec w q Hwf) as [Hw Hs]. by rewrite <- Hs.
  - destruct (Remove_spec w q Hwf) as [Hw Hs]. by rewrite <- Hs.
  - pose proof (Acquire_spec q Hwf) as Ha. destruct (Acquire q) as [ [q' [w m] ]|?|]; cbn [mbind outcome_bind]; [|done|by rewrite Ha].
    destruct Ha as [Hw ->]. done.
  - destruct (Resume_spec q Hwf) as [Hw ->]. done.
  - destruct (Pause_spec q Hwf) as (q' & -> & Hw & <-). done.
Qed.

Lemma New_wf : wf NewJobQueue.
Proof. constructor; cbn; [|constructor|by intros ?%elem_of_nil|done|done]. intros w i. rewrite lookup_empty. split; done. Qed.

Lemma run_spec os q :
  wf q → match run run_op os q with
         | Ret (q', rs) => wf q' ∧ run spec_op os (abs q) = Ret (abs q', rs)
         | Panic _ => False
         | Diverge => run spec_op os (abs q) = Diverge
         end.
Proof.
  revert q. induction os as [|o os IH]; intros q Hwf; cbn [run]; [done|].
  pose proof (run_op_spec o q Hwf) as Ho. destruct (run_op o q) as [ [q1 r]|?|]; cbn [mbind outcome_bind]; [|done|by rewrite Ho].
  destruct Ho as [Hw1 ->]. cbn [mbind outcome_bind]. specialize (IH q1 Hw1).
  destruct (run run_op os q1) as [ [q2 rs]|?|]; cbn [mbind outcome_bind]; [|done|by rewrite IH]. destruct IH as [Hw2 ->]. done.
Qed.
Lemma Find_spec k q : wf q → is_Some (Find k q) ↔ k ∈ (queue q).*2.
Proof.
  intros Hwf. unfold Find. rewrite <- not_eq_None_Some, head_None. split.
  - intros Hne. destruct (omap _ _) as [|w l] eqn:Ho; [done|]. assert (w ∈ w :: l) as Hw by left. rewrite <- Ho in Hw.
    apply list_elem_of_omap in Hw as (a & _ & Ha). apply bind_Some in Ha as (i & Hi & Hl).
    pose proof (proj1 (wf_index q Hwf _ _) Hi) as Hl'. rewrite Hl in Hl'. injection Hl' as ->.
    apply list_elem_of_fmap. exists (a, k). split; [done|]. by eapply list_elem_of_lookup_2.
  - intros ([a k'] & -> & Hin)%list_elem_of_fmap Hn. cbn [snd] in Hn.
    assert (a ∈ [ActionAdd; ActionUpdate; ActionDelete; ActionCleanup]) as Ha.
    { rewrite !elem_of_cons. destruct a; try tauto. exfalso. apply (wf_valid q Hwf), list_elem_of_fmap. by exists (ActionInvalid, k'). }
    apply list_elem_of_lookup in Hin as [i Hi]. pose proof (proj2 (wf_index q Hwf _ _) Hi) as Hx.
    assert ((a, k') ∈ omap (λ a, i ← index q !! (a, k'); queue q !! i) [ActionAdd; ActionUpdate; ActionDelete; ActionCleanup]) as Hin.
    { apply list_elem_of_omap. exists a. split; [done|]. apply bind_Some. by exists i. }
    exact (not_elem_of_nil (a, k') (eq_ind _ (λ l, (a, k') ∈ l) Hin _ Hn)).
Qed.

(** C13: JobQueue, from its creation and through any history of Offer, Remove, Acquire, Resume and Pause, behaves as a list of jobs: the
    index, its rebuilding, the signal channel and its closing can not be told from the list. No operation panics (no channel is closed
    twice, no index is stale), every answer is the list's, the queue keeps the list's jobs in the list's order, and a consumer waits for
    ever exactly when the list says so; the list holds no job twice, never an Add with an Update, nor an Update with a Delete, of one key,
    nor an Add before a Delete of it. *)
Theorem JobQueue_refines os :
  match run run_op os NewJobQueue with
  | Ret (q, rs) => run spec_op os (abs NewJobQueue) = Ret (abs q, rs) ∧ StronglySorted compat (Remains q) ∧
                   ∀ k, is_Some (Find k q) ↔ k ∈ (Remains q).*2
  | Panic _ => False
  | Diverge => run spec_op os (abs NewJobQueue) = Diverge
  end.
Proof.
  generalize New_wf. generalize NewJobQueue. intros q Hwf. pose proof (run_spec os q Hwf) as H.
  destruct (run run_op os q) as [ [q' rs]|?|]; [|done|done]. destruct H as [Hw' H]. split_and!; [done|apply Hw'|].
  intros k. by apply Find_spec.
Qed.
End JobQueue.

(** ** The cache *)
Module Cache.
Section Cache.
(** Objects are what the controllers keep; nil is [None]. *)
Context {obj : Type}.
Record Cache := { frozenOldCacheKeys : gset string; cache : gmap string obj; oldCache : gmap string obj }.
Definition NewCache : Cache := {| frozenOldCacheKeys := ∅; cache := ∅; oldCache := ∅ |}.
Definition Freeze (key : string) (freeze : bool) (r : Cache) : Cache :=
  {| frozenOldCacheKeys := if freeze then {[key]} ∪ frozenOldCacheKeys r else frozenOldCacheKeys r ∖ {[key]};
     cache := cache r; oldCache := oldCache r |}.
Definition Update (key : string) (old latest : option obj) (r : Cache) : Cache :=
  let old1 := if bool_decide (key ∈ frozenOldCacheKeys r) then oldCache r
              else match old, cache r !! key with
                   | Some o, _ => <[key := o]> (oldCache r)
                   | None, Some o => <[key := o]> (oldCache r)
                   | None, None => oldCache r
                   end in
  match latest with
  | None => {| frozenOldCacheKeys := frozenOldCacheKeys r; cache := cache r; oldCache := old1 |}
  | Some l => {| frozenOldCacheKeys := frozenOldCacheKeys r; cache := <[key := l]> (cache r);
                 oldCache := if bool_decide (is_Some (old1 !! key)) then old1 else <[key := l]> old1 |}
  end.
Definition Delete (key : string) (r : Cache) : Cache :=
  {| frozenOldCacheKeys := frozenOldCacheKeys r ∖ {[key]}; cache := delete key (cache r); oldCache := delete key (oldCache r) |}.
Definition Get (key : string) (r : Cache) : option obj * option obj := (oldCache r !! key, cache r !! key).

Definition frozen (key : string) (r : Cache) : Prop := key ∈ frozenOldCacheKeys r.

(** What a handler gets for a key after Update(key, old, latest): the latest object given, or the one there was; and as the previous
    one, while the key is not frozen, [old], or the object that was the latest, and, while it is frozen, the same as before; the first
    object of a key is its own previous one. The other keys, and the frozen keys, do not change. *)
Lemma Update_correct key old latest r :
  (Update key old latest r).(frozenOldCacheKeys) = frozenOldCacheKeys r ∧
  (∀ k, k ≠ key → Get k (Update key old latest r) = Get k r) ∧
  (Get key (Update key old latest r)).2 = match latest with Some l => Some l | None => (Get key r).2 end ∧
  (frozen key r → is_Some (Get key r).1 → (Get key (Update key old latest r)).1 = (Get key r).1) ∧
  (¬ frozen key r → (Get key (Update key old latest r)).1 =
     match old, (Get key r).2, (Get key r).1, latest with
     | Some o, _, _, _ => Some o | None, Some c, _, _ => Some c | None, None, Some p, _ => Some p | None, None, None, l => l end) ∧
  (is_Some latest → is_Some (Get key (Update key old latest r)).1).
Proof.
  unfold frozen, Update, Get. set (o1 := if bool_decide _ then _ else _).
  assert (∀ k, k ≠ key → o1 !! k = oldCache r !! k) as Ho.
  { intros k Hk. subst o1. case_bool_decide; [done|]. destruct old; [by rewrite lookup_insert_ne|].
    destruct (cache r !! key); [by rewrite lookup_insert_ne|done]. }
  assert (key ∈ frozenOldCacheKeys r → o1 = oldCache r) as Hf by (intros Hin; subst o1; by rewrite bool_decide_true).
  assert (key ∉ frozenOldCacheKeys r → o1 !! key =
    match old, cache r !! key with Some o, _ => Some o | None, Some c => Some c | None, None => oldCache r !! key end) as Hn.
  { intros Hni. subst o1. rewrite bool_decide_false by done. destruct old; [by rewrite lookup_insert_eq|].
    destruct (cache r !! key); [by rewrite lookup_insert_eq|done]. }
  clearbody o1. destruct latest as [l|]; cbn.
  - rewrite !lookup_insert_eq. split_and!; try done.
    + intros k Hk. rewrite lookup_insert_ne by done. case_bool_decide; rewrite ?lookup_insert_ne by done; by rewrite Ho.
    + intros Hin Hs. rewrite (Hf Hin). by rewrite bool_decide_true.
    + intros Hni. specialize (Hn Hni). case_bool_decide as Hs; rewrite ?lookup_insert_eq, Hn in *; split_matches.
      all: destruct Hs; by eexists.
    + intros _. case_bool_decide; [done|]. by rewrite lookup_insert_eq.
  - split_and!; try done.
    + intros k Hk. by rewrite Ho.
    + intros Hin Hs. by rewrite (Hf Hin).
    + intros Hni. rewrite (Hn Hni). split_matches.
Qed.
End Cache.
Arguments Cache : clear implicits.
End Cache.

(** ** Backoff (src/vendor/arhat.dev/pkg/backoff/backoff.go) *)
Module Backoff.
Record Strategy := {
  initialDelay : Z; maxDelay : Z; backoffThreshold : Z;
  scaled : Z → Z;  (** time.Duration(factor * float64(d)): the conversions and the product of float64 *)
  items : gmap string (Z * Z)  (** currentDelay and counter *)
}.
Definition set_items (m : gmap string (Z * Z)) (b : Strategy) : Strategy :=
  {| initialDelay := initialDelay b; maxDelay := maxDelay b; backoffThreshold := backoffThreshold b; scaled := scaled b; items := m |}.
Definition Next (key : string) (b : Strategy) : Strategy * Z :=
  let '(currentDelay, counter) := default (0, 0)%Z (items b !! key) in
  let nextDelay := (if counter =? backoffThreshold b then initialDelay b
                    else if backoffThreshold b <? counter
                         then let d := scaled b currentDelay in if maxDelay b <? d then maxDelay b else d
                         else 0)%Z in
  (set_items (<[key := (nextDelay, (counter + 1) mod 2 ^ 64)%Z]> (items b)) b, nextDelay).
Definition Reset (key : string) (b : Strategy) : Strategy * bool :=
  match items b !! key with Some _ => (set_items (delete key (items b)) b, true) | None => (b, false) end.
End Backoff.

(** ** The reconciler *)
Module Core.
Section Core.
Context {obj : Type}.
Record Result := { NextAction : JobAction; ScheduleAfter : Z; ResErr : option string }.
Definition resultCacheNotFound : Result := {| NextAction := ActionInvalid; ScheduleAfter := 0; ResErr := Some "cache not found" |}.
Definition jobErr (r : option Result) : option string := r ≫= ResErr.

(** A handler that runs has its job and the objects it was given. The goroutines of handleJob are where they are: with a job that was
    acquired, in a handler, or with a result that is still to be acted on. *)
Definition objects : Type := option obj * option obj.
Record Core := {
  jobQ : JobQueue.JobQueue; objs : Cache.Cache obj; requireCache : bool;
  scheduleQ : TimeoutQueue (K := Job) (V := unit); backoff : Backoff.Strategy;
  workingOn : gset Job;
  timeouts : list Job;  (** the channel of TakeCh *)
  acquired : list Job; handling : list (Job * objects); ended : list (Job * Result)
}.

Definition NewCore (requireCache : bool) (backoff : Backoff.Strategy) : Core :=
  {| jobQ := JobQueue.NewJobQueue; objs := Cache.NewCache; requireCache := requireCache; scheduleQ := NewTimeoutQueue;
     backoff := backoff; workingOn := ∅; timeouts := []; acquired := []; handling := []; ended := [] |}.

Definition with_jobQ (q : JobQueue.JobQueue) (c : Core) : Core :=
  {| jobQ := q; objs := objs c; requireCache := requireCache c; scheduleQ := scheduleQ c; backoff := backoff c; workingOn := workingOn c;
     timeouts := timeouts c; acquired := acquired c; handling := handling c; ended := ended c |}.
Definition with_objs (o : Cache.Cache obj) (c : Core) : Core :=
  {| jobQ := jobQ c; objs := o; requireCache := requireCache c; scheduleQ := scheduleQ c; backoff := backoff c; workingOn := workingOn c;
     timeouts := timeouts c; acquired := acquired c; handling := handling c; ended := ended c |}.
Definition with_scheduleQ (q : TimeoutQueue) (t : list Job) (c : Core) : Core :=
  {| jobQ := jobQ c; objs := objs c; requireCache := requireCache c; scheduleQ := q; backoff := backoff c; workingOn := workingOn c;
     timeouts := t; acquired := acquired c; handling := handling c; ended := ended c |}.
Definition with_backoff (b : Backoff.Strategy) (c : Core) : Core :=
  {| jobQ := jobQ c; objs := objs c; requireCache := requireCache c; scheduleQ := scheduleQ c; backoff := b; workingOn := workingOn c;
     timeouts := timeouts c; acquired := acquired c; handling := handling c; ended := ended c |}.
Definition with_work (w : gset Job) (a : list Job) (h : list (Job * objects)) (e : list (Job * Result)) (c : Core) : Core :=
  {| jobQ := jobQ c; objs := objs c; requireCache := requireCache c; scheduleQ := scheduleQ c; backoff := backoff c; workingOn := w;
     timeouts := timeouts c; acquired := a; handling := h; ended := e |}.

Inductive schedule_error := JobError (e : JobQueue.offer_error) | TimerError (e : queue_error).
Definition offered (q : JobQueue.JobQueue * option JobQueue.offer_error) (c : Core) : Core := with_jobQ q.1 c.

Definition Schedule (now : Z) (job : Job) (delay : Z) (c : Core) : Core * option schedule_error :=
  if (delay =? 0)%Z
  then let (q, e) := JobQueue.Offer job (jobQ c) in
       (with_jobQ q c, match e with Some JobQueue.ErrJobDuplicated => None | Some e => Some (JobError e) | None => None end)
  else let (q, e) := OfferWithDelay now job tt delay (scheduleQ c) in (with_scheduleQ q (timeouts c) c, TimerError <$> e).
Definition CancelSchedule (job : Job) (c : Core) : outcome (Core * bool) :=
  let (q, removedFromJobQ) := JobQueue.Remove job (jobQ c) in
  '(t, data) ← Remove job (scheduleQ c);
  Ret (with_scheduleQ t (timeouts c) (with_jobQ q c), removedFromJobQ || bool_decide (is_Some data)).

(** handleJob up to the call of the handler; the goroutine has taken the job. *)
Definition start_job (job : Job) (c : Core) : Core :=
  let (action, key) := job in
  if decide (action = ActionInvalid) then c
  else if bool_decide (job ∈ workingOn c) then c
  else let '(previous, current) := Cache.Get key (objs c) in
       match requireCache c, previous, current with
       | true, None, _ | true, _, None => with_work (workingOn c) (acquired c) (handling c) (ended c ++ [(job, resultCacheNotFound)]) c
       | _, _, _ => with_work ({[job]} ∪ workingOn c) (acquired c) (handling c ++ [(job, (previous, current))]) (ended c) c
       end.
(** What follows the call of the handler, up to workingOn.Delete. *)
Definition end_job (job : Job) (result : option Result) (c : Core) : Core :=
  let (action, key) := job in
  let c := match action with
           | ActionUpdate => match jobErr result with None => with_objs (Cache.Freeze key false (objs c)) c | Some _ => c end
           | ActionCleanup =>
               if match result with None => true | Some r => bool_decide (NextAction r = ActionInvalid) end
               then match JobQueue.Find key (jobQ c) with None => with_objs (Cache.Delete key (objs c)) c | Some _ => c end
               else c
           | _ => c
           end in
  with_work (workingOn c ∖ {[job]}) (acquired c) (handling c)
    (match result with None => ended c | Some r => ended c ++ [(job, r)] end) c.
(** handleResult: the next job, and when. *)
Definition next_job (job : Job) (result : Result) (c : Core) : Core * JobAction * Z :=
  match ResErr result with
  | Some _ =>
      if (ScheduleAfter result =? 0)%Z
      then let (b, delay) := Backoff.Next job.2 (backoff c) in (with_backoff b c, job.1, delay)
      else (c, job.1, ScheduleAfter result)
  | None => (with_backoff (Backoff.Reset job.2 (backoff c)).1 c, NextAction result, ScheduleAfter result)
  end.
Definition handle_result (now : Z) (job : Job) (result : Result) (c : Core) : Core :=
  let '(c, nA, delay) := next_job job result c in
  if decide (nA = ActionInvalid) then c
  else let nextJob := (nA, job.2) in
       if (0 <? delay)%Z
       then with_scheduleQ (OfferWithDelay now nextJob tt delay (scheduleQ c)).1 (timeouts c) c
       else with_jobQ (JobQueue.Offer nextJob (jobQ c)).1 c.

Definition remove_nth {A} (i : nat) (l : list A) : list A := take i l ++ drop (S i) l.

(** The steps of a reconciler: the calls of the informers and controllers, the timer and the goroutines, in any order. The number of
    workers bounds how many jobs are handled at once; any bound allows fewer runs. *)
Inductive step (c : Core) : Core → Prop :=
  | StepStart : step c (with_scheduleQ (Start (scheduleQ c)) (timeouts c) c)
  | StepSchedule now job delay : step c (Schedule now job delay c).1
  | StepCancel job c' b : CancelSchedule job c = Ret (c', b) → step c c'
  | StepUpdate key old latest : step c (with_objs (Cache.Update key old latest (objs c)) c)
  | StepFreeze key freeze : step c (with_objs (Cache.Freeze key freeze (objs c)) c)
  | StepDelete key : step c (with_objs (Cache.Delete key (objs c)) c)
  | StepResume : step c (with_jobQ (JobQueue.Resume (jobQ c)) c)
  | StepPause q : JobQueue.Pause (jobQ c) = Ret q → step c (with_jobQ q c)
  | StepTimer swaps now q due :
      in_range (length (data (scheduleQ c))) swaps →
      sort swaps now (scheduleQ c) = Ret (q, due) → step c (with_scheduleQ q (timeouts c ++ (Key <$> due)) c)
  | StepTimeout job rest :
      timeouts c = job :: rest →
      step c (with_scheduleQ (scheduleQ c) rest (with_jobQ (JobQueue.Offer job (jobQ c)).1 c))
  | StepAcquire q job :
      JobQueue.Acquire (jobQ c) = Ret (q, (job, true)) →
      step c (with_work (workingOn c) (acquired c ++ [job]) (handling c) (ended c) (with_jobQ q c))
  | StepStartJob i job :
      acquired c !! i = Some job →
      step c (start_job job (with_work (workingOn c) (remove_nth i (acquired c)) (handling c) (ended c) c))
  | StepEndJob i job os result :
      handling c !! i = Some (job, os) →
      step c (end_job job result (with_work (workingOn c) (acquired c) (remove_nth i (handling c)) (ended c) c))
  | StepResult i now job result :
      ended c !! i = Some (job, result) →
      step c (handle_result now job result (with_work (workingOn c) (acquired c) (handling c) (remove_nth i (ended c)) c)).

Inductive reachable (b : bool) (s : Backoff.Strategy) : Core → Prop :=
  | reach_new : reachable b s (NewCore b s)
  | reach_step c c' : reachable b s c → step c c' → reachable b s c'.

(** ** One handler per job *)
Record wf (c : Core) : Prop := {
  wf_jobQ : JobQueue.wf (jobQ c);
  wf_scheduleQ : TimeoutQueue.wf (scheduleQ c);
  wf_allowed : blackList (scheduleQ c) = ∅;
  wf_once : NoDup (handling c).*1;
  wf_working : ∀ j, j ∈ workingOn c ↔ j ∈ (handling c).*1;
  wf_objects : requireCache c = true → ∀ j os, (j, os) ∈ handling c → is_Some os.1 ∧ is_Some os.2
}.
Lemma wf_intro c c' :
  wf c → JobQueue.wf (jobQ c') → TimeoutQueue.wf (scheduleQ c') → blackList (scheduleQ c') = ∅ →
  handling c' = handling c → workingOn c' = workingOn c → requireCache c' = requireCache c → wf c'.
Proof. intros Hwf Hj Hs Hb Hh Hw Hr. constructor; rewrite ?Hh, ?Hw, ?Hr; try apply Hwf; done. Qed.

Lemma offer_blackList now (job : Job) delay q : blackList (OfferWithDelay now job tt delay q).1 = blackList q.
Proof. unfold OfferWithDelay, OfferWithTime. by repeat case_match. Qed.
Lemma offer_due now (job : Job) delay (q : TimeoutQueue) :
  running q = true → stopped q = false → blackList q = ∅ →
  {| Key := job; Data := tt; expireAt := now + delay |} ∈ data (OfferWithDelay now job tt delay q).1.
Proof.
  intros Hr Hs Hb. unfold OfferWithDelay, OfferWithTime. rewrite Hr, Hs, Hb, bool_decide_false by set_solver. cbn.
  apply elem_of_app. right. by apply list_elem_of_singleton.
Qed.
Lemma Offer_wf job q : JobQueue.wf q → JobQueue.wf (JobQueue.Offer job q).1.
Proof. intros Hq. apply (JobQueue.Offer_spec job q Hq). Qed.

Lemma start_job_wf job c : wf c → wf (start_job job c).
Proof.
  intros Hwf. destruct job as [a k]. unfold start_job. case_decide as Ha; [done|]. case_bool_decide as Hw; [done|].
  unfold Cache.Get. set (p := Cache.oldCache (objs c) !! k). set (cur := Cache.cache (objs c) !! k).
  assert ((requireCache c = true → is_Some p ∧ is_Some cur) →
    wf (with_work ({[(a, k)]} ∪ workingOn c) (acquired c) (handling c ++ [((a, k), (p, cur))]) (ended c) c)) as Hgo.
  { intros Hobj. constructor; cbn; try apply Hwf.
    - rewrite fmap_app. apply NoDup_app. split_and!; [apply Hwf| |apply NoDup_singleton].
      intros j Hj ->%list_elem_of_singleton. by apply Hw, (wf_working c Hwf).
    - intros j. rewrite fmap_app, elem_of_app, elem_of_union, elem_of_singleton, (wf_working c Hwf). cbn [fmap list_fmap fst]. rewrite list_elem_of_singleton. tauto.
    - intros Hr j os [Hin|Heq]%elem_of_app; [by apply (wf_objects c Hwf Hr j)|]. apply list_elem_of_singleton in Heq as [= -> ->]. by apply Hobj. }
  assert (wf (with_work (workingOn c) (acquired c) (handling c) (ended c ++ [((a, k), resultCacheNotFound)]) c)) as Hno
    by (apply (wf_intro c); done || apply Hwf).
  destruct (requireCache c) eqn:Hr; [|by apply Hgo]. destruct p, cur; try done. by apply Hgo.
Qed.

Lemma remove_nth_in {A} i (l : list A) x : x ∈ remove_nth i l → x ∈ l.
Proof.
  unfold remove_nth. intros [Hx|Hx]%elem_of_app; [|rewrite <- (take_drop (S i) l); apply elem_of_app; by right].
  rewrite <- (take_drop i l). apply elem_of_app. by left.
Qed.
Lemma end_job_wf i job os result c :
  wf c → handling c !! i = Some (job, os) →
  wf (end_job job result (with_work (workingOn c) (acquired c) (remove_nth i (handling c)) (ended c) c)).
Proof.
  intros Hwf Hi. destruct job as [a k].
  assert ((handling c).*1 ≡ₚ (a, k) :: (remove_nth i (handling c)).*1) as Hp.
  { rewrite <- (take_drop_middle _ _ _ Hi) at 1. unfold remove_nth. rewrite !fmap_app. symmetry. apply Permutation_middle. }
  pose proof (wf_once c Hwf) as Hnd. rewrite Hp in Hnd. apply NoDup_cons in Hnd as [Hni Hn1].
  assert (∀ j, j ∈ (remove_nth i (handling c)).*1 ↔ j ∈ (handling c).*1 ∧ j ≠ (a, k)) as Hn2.
  { intros j. rewrite Hp, elem_of_cons. split; [|naive_solver]. intros Hj. split; [by right|]. by intros ->. }
  assert (∀ c', jobQ c' = jobQ c → scheduleQ c' = scheduleQ c → requireCache c' = requireCache c →
    handling c' = remove_nth i (handling c) → workingOn c' = workingOn c ∖ {[(a, k)]} → wf c') as Hgo.
  { intros c' Hj Hs Hr Hh Hw. constructor; rewrite ?Hj, ?Hs, ?Hr, ?Hh, ?Hw; try apply Hwf; [done| |].
    - intros j. rewrite Hn2, elem_of_difference, elem_of_singleton. by rewrite (wf_working c Hwf).
    - intros Hrc j os' Hin%remove_nth_in. by apply (wf_objects c Hwf Hrc j). }
  unfold end_job. repeat case_match; by apply Hgo.
Qed.

Lemma handle_result_wf now job result c : wf c → wf (handle_result now job result c).
Proof.
  intros Hwf. unfold handle_result. destruct (next_job job result c) as [ [c1 nA] delay] eqn:Hn.
  assert (wf c1 ∧ scheduleQ c1 = scheduleQ c) as [Hwf1 Hsq].
  { unfold next_job in Hn. repeat case_match; simplify_eq; (split; [|done]); try done; apply (wf_intro c); done || apply Hwf. }
  case_decide; [done|]. case_match; apply (wf_intro c1); try done; try apply Hwf1.
  - exact (OfferWithTime_wf (nA, job.2) tt _ _ (wf_scheduleQ c1 Hwf1)).
  - change (blackList (OfferWithDelay now (nA, job.2) tt delay (scheduleQ c1)).1 = ∅). rewrite offer_blackList. apply Hwf1.
  - exact (Offer_wf (nA, job.2) _ (wf_jobQ c1 Hwf1)).
Qed.

Lemma Schedule_wf now job delay c : wf c → wf (Schedule now job delay c).1.
Proof.
  intros Hwf. unfold Schedule. case_match.
  - pose proof (Offer_wf job _ (wf_jobQ c Hwf)) as Hq. destruct (JobQueue.Offer job (jobQ c)) as [q e]. apply (wf_intro c); cbn; done || apply Hwf.
  - pose proof (offer_blackList now job delay (scheduleQ c)) as Hb. unfold OfferWithDelay in *.
    pose proof (OfferWithTime_wf job tt (now + delay) _ (wf_scheduleQ c Hwf)) as Hq.
    destruct (OfferWithTime job tt (now + delay) (scheduleQ c)) as [q e]. apply (wf_intro c); cbn in *; try done; try apply Hwf.
    rewrite Hb. apply Hwf.
Qed.
Lemma CancelSchedule_wf job c : wf c → ∃ c' b, CancelSchedule job c = Ret (c', b) ∧ wf c'.
Proof.
  intros Hwf. unfold CancelSchedule. destruct (JobQueue.Remove job (jobQ c)) as [q b] eqn:Hq.
  destruct (Remove_wf job _ (wf_scheduleQ c Hwf)) as (t & r & -> & Ht & _ & Hr). cbn [mbind outcome_bind].
  eexists _, _. split; [done|]. apply (wf_intro c); cbn; try done.
  - pose proof (JobQueue.delete_job_wf job _ (wf_jobQ c Hwf)) as Hd. unfold JobQueue.Remove in Hq. by rewrite Hq in Hd.
  - destruct r as [v|]; [|by rewrite Hr; apply Hwf]. destruct Hr as (? & ? & _ & _ & _ & _ & -> & _). apply Hwf.
Qed.

Lemma step_wf c c' : wf c → step c c' → wf c'.
Proof.
  intros Hwf Hs.
  assert (∀ o, wf (with_objs o c)) as Hobjs by (intros o; apply (wf_intro c); done || apply Hwf).
  assert (∀ q, JobQueue.wf q → wf (with_jobQ q c)) as HjobQ by (intros q Hq; apply (wf_intro c); done || apply Hwf).
  assert (∀ a e, wf (with_work (workingOn c) a (handling c) e c)) as Hwork by (intros a e; apply (wf_intro c); done || apply Hwf).
  destruct Hs as [|now job delay|job c' b Hc|key old latest|key freeze|key| |q Hp|swaps now q due Hr Hsort|job rest Ht|q job Ha|i job Ha|
                  i job os result Hh|i now job result He].
  - apply (wf_intro c); cbn; try done; try apply Hwf; unfold Start; destruct (running (scheduleQ c)); try apply Hwf.
    constructor; apply (wf_scheduleQ c Hwf).
  - by apply Schedule_wf.
  - destruct (CancelSchedule_wf job c Hwf) as (c1 & b1 & Hc1 & Hw). rewrite Hc in Hc1. by injection Hc1 as -> ->.
  - done.
  - done.
  - done.
  - apply HjobQ, JobQueue.Resume_spec, Hwf.
  - apply HjobQ. destruct (JobQueue.Pause_spec _ (wf_jobQ c Hwf)) as (q' & Hq' & Hw & _). rewrite Hp in Hq'. by injection Hq' as ->.
  - destruct (sort_wf swaps now _ (wf_scheduleQ c Hwf) Hr) as (q' & due' & Hs & Hw & Hb & _). rewrite Hsort in Hs. injection Hs as <- <-.
    apply (wf_intro c); cbn; try done; try apply Hwf. rewrite Hb. apply Hwf.
  - apply (wf_intro c); cbn; try done; try apply Hwf. apply Offer_wf, Hwf.
  - pose proof (JobQueue.Acquire_spec _ (wf_jobQ c Hwf)) as Hq. rewrite Ha in Hq. destruct Hq as [Hq _].
    apply (wf_intro c); cbn; try done; apply Hwf.
  - by apply start_job_wf.
  - by eapply end_job_wf.
  - by apply handle_result_wf.
Qed.

Lemma NewCore_wf b s : wf (NewCore b s).
Proof.
  constructor; [apply JobQueue.New_wf| |done|apply NoDup_nil_2| |by intros _ j os Hin%elem_of_nil].
  - constructor; cbn; [intros k i; by rewrite lookup_empty|by intros x ?%elem_of_nil].
  - intros j. cbn. rewrite elem_of_nil. set_solver.
Qed.
Lemma reachable_wf b s c : reachable b s c → wf c.
Proof. induction 1 as [|c c' _ IH Hs]; [apply NewCore_wf|by eapply step_wf]. Qed.

(** C14: Whatever is scheduled, cancelled and cached, and however the timer, the dispatcher and the goroutines interleave, a reconciler
    runs at most one handler for a job at a time: the jobs in handlers are all different and are the ones [workingOn] marks; the queue of
    jobs and the queue of delayed jobs stay well formed, so that no step panics on them; and a reconciler that requires the cache gives
    every handler both objects. *)
Theorem handlers_exclusive b s c :
  reachable b s c →
  NoDup (handling c).*1 ∧ (∀ j, j ∈ workingOn c ↔ j ∈ (handling c).*1) ∧ JobQueue.wf (jobQ c) ∧ TimeoutQueue.wf (scheduleQ c) ∧
  (requireCache c = true → ∀ j os, (j, os) ∈ handling c → is_Some os.1 ∧ is_Some os.2).
Proof.
  intros Hr%reachable_wf. split_and!; apply Hr.
Qed.

Lemma Offer_outcome job q :
  JobQueue.wf q → job.1 ≠ ActionInvalid →
  job ∈ JobQueue.queue (JobQueue.Offer job q).1 ∨ ∃ other, other ∈ JobQueue.queue q ∧ other.2 = job.2 ∧ ¬ JobQueue.compat other job.
Proof.
  intros Hq Hv. destruct (JobQueue.Offer_spec job q Hq) as [_ Hs].
  assert (JobQueue.queue (JobQueue.Offer job q).1 = JobQueue.jobs (JobQueue.spec_offer job (JobQueue.abs q)).1) as ->
    by (rewrite <- Hs; done).
  destruct job as [a k]. unfold JobQueue.spec_offer. cbn [JobQueue.abs JobQueue.jobs].
  assert (∀ b, (b, k) ∈ JobQueue.queue q → ¬ JobQueue.compat (b, k) (a, k) →
    ∃ other, other ∈ JobQueue.queue q ∧ other.2 = k ∧ ¬ JobQueue.compat other (a, k)) as Hex by (intros b Hb Hn; by exists (b, k)).
  assert (∀ l, (a, k) ∈ l ++ [(a, k)]) as Hput by (intros l; apply elem_of_app; right; by apply list_elem_of_singleton).
  unfold JobQueue.compat in *. cbn in *.
  destruct a; [done| | | |]; (case_bool_decide as Hd; [by left|]); repeat (case_bool_decide; cbn [orb]);
    try (left; apply Hput); right; eapply Hex; try done; intros [_ Hc]; specialize (Hc eq_refl);
    destruct Hc as (H1 & H2 & H3); (apply H1 || apply H2 || apply H3); split; by set_solver.
Qed.

(** C39: A job whose handler fails is not forgotten. When its result has been acted on, and while the timer of the reconciler runs, the job
    is due after the delay the handler asked for, or else the next one of the backoff, if that is positive; and with no delay it is in the
    queue of jobs, unless the queue holds a job of the same object that excludes it. *)
Theorem failed_job_retried now job result e c :
  wf c → job.1 ≠ ActionInvalid → ResErr result = Some e → running (scheduleQ c) = true → stopped (scheduleQ c) = false →
  let delay := (if ScheduleAfter result =? 0 then (Backoff.Next job.2 (backoff c)).2 else ScheduleAfter result)%Z in
  let c' := handle_result now job result c in
  (0 < delay)%Z ∧ {| Key := job; Data := tt; expireAt := now + delay |} ∈ data (scheduleQ c') ∨
  (delay ≤ 0)%Z ∧ (job ∈ JobQueue.queue (jobQ c') ∨
                   ∃ other, other ∈ JobQueue.queue (jobQ c) ∧ other.2 = job.2 ∧ ¬ JobQueue.compat other job).
Proof.
  intros Hwf Hv He Hrun Hst delay c'. subst c'. unfold handle_result, next_job. rewrite He.
  assert (∃ b, (if (ScheduleAfter result =? 0)%Z
    then let (b, delay) := Backoff.Next job.2 (backoff c) in (with_backoff b c, job.1, delay)
    else (c, job.1, ScheduleAfter result)) = (with_backoff b c, job.1, delay)) as [b ->].
  { subst delay. destruct (ScheduleAfter result =? 0)%Z; [destruct (Backoff.Next job.2 (backoff c)) as [b d]; by exists b|].
    exists (backoff c). by destruct c. }
  rewrite decide_False by done. destruct job as [a k]. cbn [fst snd] in *. destruct (0 <? delay)%Z eqn:Hd; bool_to_Z; [left|right]; (split; [done|]).
  - exact (offer_due now (a, k) delay _ Hrun Hst (wf_allowed c Hwf)).
  - exact (Offer_outcome (a, k) (jobQ c) (wf_jobQ c Hwf) Hv).
Qed.
End Core.
Arguments Core : clear implicits.
End Core.

Module ReconcileExamples.
Import Core.
Definition strategy : Backoff.Strategy :=
  {| Backoff.initialDelay := 300; Backoff.maxDelay := 1000; Backoff.backoffThreshold := 1; Backoff.scaled := λ d, (3 * d / 2)%Z;
     Backoff.items := ∅ |}.
Definition job : Job := (ActionUpdate, "dev").

(** An object is cached and its update scheduled, taken and handled. *)
Definition c0 : Core string := with_jobQ (JobQueue.Resume JobQueue.NewJobQueue) (with_scheduleQ (Start NewTimeoutQueue) [] (NewCore true strategy)).
Definition c1 : Core string := (Schedule 0 job 0 (with_objs (Cache.Update "dev" None (Some "v1") (objs c0)) c0)).1.
Definition acquire (c : Core string) : Core string :=
  match JobQueue.Acquire (jobQ c) with
  | Ret (q, (j, true)) => with_work (workingOn c) (acquired c ++ [j]) (handling c) (ended c) (with_jobQ q c)
  | _ => c
  end.
Definition start (j : Job) (c : Core string) : Core string :=
  start_job j (with_work (workingOn c) (remove_nth 0 (acquired c)) (handling c) (ended c) c).
Definition finish (j : Job) (r : option Result) (c : Core string) : Core string :=
  end_job j r (with_work (workingOn c) (acquired c) (remove_nth 0 (handling c)) (ended c) c).
Definition c2 : Core string := start job (acquire c1).
Example c2_handles : handling c2 = [(job, (Some "v1", Some "v1"))].
Proof. reflexivity. Qed.

Lemma c0_reachable : reachable true strategy c0.
Proof.
  eapply reach_step; [eapply reach_step; [apply reach_new|apply StepStart]|]. exact (StepResume _).
Qed.
Lemma c2_reachable : reachable true strategy c2.
Proof.
  unfold c2, start. eapply reach_step; [|by apply (StepStartJob (acquire c1) 0 job)].
  eapply reach_step; [|by eapply (StepAcquire c1 _ job)].
  eapply reach_step; [|exact (StepSchedule _ 0 job 0)].
  eapply reach_step; [exact c0_reachable|exact (StepUpdate c0 "dev" None (Some "v1"))].
Qed.

Lemma handlers_exclusive_witness : handling c2 ≠ [] ∧ NoDup (handling c2).*1.
Proof. split; [by vm_compute|]. destruct (handlers_exclusive true strategy c2 c2_reachable) as [H _]. exact H. Defined.

(** The handler fails: with the threshold of one failure the first retry is immediate and the second has the initial delay. *)
Definition failure : Result := {| NextAction := ActionInvalid; ScheduleAfter := 0; ResErr := Some "no such host" |}.
Definition c3 : Core string := finish job (Some failure) c2.
Lemma c2_wf : Core.wf c2.
Proof. exact (Core.reachable_wf _ _ _ c2_reachable). Qed.
Lemma failed_job_retried_witness : job ∈ JobQueue.queue (jobQ (handle_result 7 job failure c3)).
Proof.
  assert (Core.wf c3) as Hwf by exact (Core.end_job_wf 0 job _ (Some failure) c2 c2_wf eq_refl).
  destruct (failed_job_retried 7 job failure "no such host" c3 Hwf) as [ [H _]|[_ [H|(other & H & _)] ] ];
    [done|done|done|done|vm_compute in H; discriminate H|exact H|vm_compute in H; inversion H].
Defined.

(** An update scheduled while the same update is handled is taken from the queue and dropped, because its job is being worked on: the
    handler has the old object, the cache has the new one, and nothing is left to be done. *)
Definition c4 : Core string := (Schedule 1 job 0 (with_objs (Cache.Update "dev" (Some "v1") (Some "v2") (objs c2)) c2)).1.
Definition c5 : Core string := finish job None (start job (acquire c4)).
Example update_lost :
  JobQueue.Remains (jobQ c4) = [job] ∧ handling c4 = [(job, (Some "v1", Some "v1"))] ∧
  Cache.Get "dev" (objs c5) = (Some "v1", Some "v2") ∧
  JobQueue.Remains (jobQ c5) = [] ∧ Remains (scheduleQ c5) = [] ∧ acquired c5 = [] ∧ handling c5 = [] ∧ ended c5 = [].
Proof. by vm_compute. Qed.

(** A handler that returns nil does not reset the backoff of its key: the next failure, however late, counts on. *)
Example nil_result_keeps_backoff :
  let c := finish job None (start job (acquire (handle_result 7 job failure c3))) in
  Backoff.items (backoff c) !! "dev" = Some (0, 1)%Z.
Proof. by vm_compute. Qed.
End ReconcileExamples.
