(* ===== verification/Ipam.v ===== *)
(** * IP address management: pkg/util/ipam

    [Block] models block.go (one address range), [IPAddressManager] models ipam.go
    (the ordered list of blocks). The mutexes serialise the operations, so each
    operation is one function on the state. *)
From S2P Require Import Prelude GoNet.
Open Scope Z_scope.

Module Block.

Definition ipv4Bits : Z := 32.
Definition ipv6Bits : Z := 128.

(** [b_next = None] is the nil pointer. The [allocated] map is keyed by the text of the
    address, as in the code. [normalize] is a function of [bits]. *)
Record Block := {
  b_Start : Z; b_End : Z; b_Mask : list Z;
  b_bits : Z; b_next : option Z;
  b_allocated : gset string
}.

Definition normFunc (bits : Z) (a : list Z) : list Z :=
  slice (if bits =? ipv6Bits then To16 a else To4 a).
Definition normalize (b : Block) : list Z → list Z := normFunc (b_bits b).

Definition set_next (n : option Z) (b : Block) : Block :=
  {| b_Start := b_Start b; b_End := b_End b; b_Mask := b_Mask b; b_bits := b_bits b;
     b_next := n; b_allocated := b_allocated b |}.
Definition set_allocated (s : gset string) (b : Block) : Block :=
  {| b_Start := b_Start b; b_End := b_End b; b_Mask := b_Mask b; b_bits := b_bits b;
     b_next := b_next b; b_allocated := s |}.

(** the loop copies the last min(len, size) bytes of the number to the end of the slice *)
Definition intToIP (ipInt bits : Z) : list Z :=
  let ipBytes := big_Bytes ipInt in
  let size := Z.to_nat (bits / 8) in
  foldl (λ ret i, <[(size - i)%nat := nth (length ipBytes - i) ipBytes 0]> ret)
    (replicate size 0) (seq 1 (Nat.min (length ipBytes) size)).

Definition lastIP (a : list Z) (bits ones : Z) : list Z :=
  intToIP (Z.lor (Z.shiftl 1 (bits - ones) - 1) (SetBytes a)) bits.

(** go-cidr: checkIPv4, Inc, Dec *)
Definition checkIPv4 (a : list Z) : list Z := default a (To4 a).
Fixpoint inc_le (l : list Z) : list Z :=
  match l with
  | [] => []
  | b :: l => let b := (b + 1) mod 256 in if 0 <? b then b :: l else b :: inc_le l
  end.
Definition Inc (a : list Z) : list Z := reverse (inc_le (reverse (checkIPv4 a))).
Fixpoint dec_le (l : list Z) : list Z :=
  match l with
  | [] => []
  | b :: l => let b := (b - 1) mod 256 in if b <? 255 then b :: l else b :: dec_le l
  end.
Definition Dec (a : list Z) : list Z := reverse (dec_le (reverse (checkIPv4 (checkIPv4 a)))).

Definition parse_bound (what : string) (ipNet : IPNet) (s : string) (dflt : list Z) : result (list Z) :=
  if is_empty s then Ok dflt else
  match ParseIP s with
  | None => Err ("invalid " +:+ what +:+ " ip " +:+ quote s)
  | Some a => if net_Contains ipNet a then Ok a
              else Err ("invalid " +:+ what +:+ " ip: out of cidr range")
  end.

Definition NewBlock (ipCIDR start end_ : string) : result Block :=
  match ParseCIDR ipCIDR with
  | None => Err ("invalid cidr: invalid CIDR address: " +:+ ipCIDR)
  | Some (_, ipNet, ones, bits) =>
    if ((bits =? ipv4Bits) && (ones =? ipv4Bits - 1)) || ((bits =? ipv6Bits) && (ones =? ipv6Bits - 1))
    then Err ("invalid prefix length " +:+ pretty ones +:+ ": no address available in this range") else
    startIP ← parse_bound "start" ipNet start (net_IP ipNet);
    endIP ← parse_bound "end" ipNet end_ (lastIP startIP bits ones);
    let host := ((bits =? ipv4Bits) && (ones =? ipv4Bits)) || ((bits =? ipv6Bits) && (ones =? ipv6Bits)) in
    let startInt :=
      if negb host && ip_Equal startIP (net_IP ipNet) then SetBytes (normFunc bits (Inc startIP))
      else SetBytes (normFunc bits startIP) in
    let endInt :=
      if negb host && ip_Equal endIP (lastIP (net_IP ipNet) bits ones)
      then SetBytes (normFunc bits (Dec endIP)) else SetBytes (normFunc bits endIP) in
    let b := {| b_Start := startInt; b_End := endInt; b_Mask := net_Mask ipNet;
                b_bits := bits; b_next := Some startInt; b_allocated := ∅ |} in
    if b_End b <? b_Start b then Err "invalid start end pair" else Ok b
  end.

Definition Overlapped (b another : Block) : bool :=
  negb ((b_End b <? b_Start another) || (b_End another <? b_Start b)).

Definition Contains (b : Block) (a : list Z) : bool :=
  let ipInt := SetBytes (normalize b a) in (b_Start b <=? ipInt) && (ipInt <=? b_End b).

(** The search of moveToNextUnused. [None] is running out of fuel, [Some None] the exit
    past the end of the block. *)
Fixpoint search (fuel : nat) (b : Block) (nextIP : list Z) : option (option Z) :=
  match fuel with
  | O => None
  | S fuel =>
    let nextIP := normalize b (Inc nextIP) in
    if b_End b <? SetBytes nextIP then Some None
    else if decide (ip_string nextIP ∈ b_allocated b) then search fuel b nextIP
    else Some (Some (SetBytes nextIP))
  end.

(** Each iteration that goes on has met a different allocated address: one iteration more
    than there are allocated addresses is enough ([search_enough]). *)
Definition search_fuel (b : Block) : nat := S (size (b_allocated b)).

Definition moveToNextUnused (b : Block) : outcome (Block * option (list Z)) :=
  match b_next b with
  | None => Ret (b, None)
  | Some n =>
    let ret := intToIP n (b_bits b) in
    match search (search_fuel b) b ret with
    | None => Diverge
    | Some next => Ret (set_next next b, Some ret)
    end
  end.

Definition mark (a : list Z) (b : Block) : Block :=
  set_allocated ({[ip_string a]} ∪ b_allocated b) b.

Definition Allocate (ipReq : option (list Z)) (b : Block)
    : outcome (Block * result (list Z * list Z)) :=
  match ipReq with
  | Some req =>
    if negb (Contains b req) then Ret (b, Err "ip request not in this block")
    else if decide (ip_string req ∈ b_allocated b) then Ret (b, Err "requested ip already used")
    else match b_next b with
         | None => Panic "nil pointer dereference"
         | Some n =>
           '(b, _) ← (if ip_Equal req (intToIP n (b_bits b)) then moveToNextUnused b else Ret (b, None));
           Ret (mark req b, Ok (req, b_Mask b))
         end
  | None =>
    '(b, ret) ← moveToNextUnused b;
    match ret with
    | None => Ret (b, Err "no ip available")
    | Some a => Ret (mark a b, Ok (a, b_Mask b))
    end
  end.

Definition PutBack (a : list Z) (b : Block) : outcome (Block * bool) :=
  if negb (Contains b a) then Ret (b, false) else
  let a := normalize b a in
  if decide (a = []) then Ret (b, false) else
  let ipStr := ip_string a in
  if decide (ipStr ∈ b_allocated b) then
    let b := set_allocated (b_allocated b ∖ {[ipStr]}) b in
    match b_next b with
    | None => Panic "nil pointer dereference"
    | Some n =>
      let ipInt := SetBytes a in
      Ret (if ipInt <? n then set_next (Some ipInt) b else b, true)
    end
  else Ret (b, false).

(** ** Addresses and numbers *)

Lemma be_split_app a b n :
  be_split (a + b) n = be_split a (n / 256 ^ Z.of_nat b) ++ be_split b n.
Proof.
  revert n; induction b as [|b IH]; intros n.
  { rewrite Nat.add_0_r, Z.div_1_r. cbn. by rewrite app_nil_r. }
  rewrite Nat.add_succ_r. cbn [be_split]. rewrite IH, <-app_assoc, Nat2Z.inj_succ, Z.pow_succ_r by lia.
  by rewrite Z.div_div by (try apply Z.pow_nonzero; lia).
Qed.

Lemma be_split_0 a : be_split a 0 = replicate a 0.
Proof.
  induction a as [|a IH]; [done|]. cbn [be_split]. rewrite Z.div_0_l, IH by lia.
  change (0 mod 256) with 0. by rewrite <-replicate_S_end.
Qed.

Lemma pack_loop (bytes ret : list Z) m :
  (m <= length bytes)%nat → (m <= length ret)%nat →
  foldl (λ ret i, <[(length ret - i)%nat := nth (length bytes - i) bytes 0]> ret) ret (seq 1 m) =
  take (length ret - m) ret ++ drop (length bytes - m) bytes ∧
  length (take (length ret - m) ret ++ drop (length bytes - m) bytes) = length ret.
Proof.
  intros Hb Hr. split.
  2:{ rewrite length_app, length_take, length_drop. lia. }
  revert Hb Hr; induction m as [|m IH]; intros Hb Hr.
  { rewrite Nat.sub_0_r, take_ge, Nat.sub_0_r, drop_all, app_nil_r by lia. done. }
  rewrite seq_S, foldl_app, IH by lia. cbn [foldl].
  rewrite length_app, length_take, length_drop.
  replace (length ret - m)%nat with (S (length ret - S m)) by lia.
  destruct (lookup_lt_is_Some_2 ret (length ret - S m)) as [x Hx]; [lia|].
  rewrite (take_S_r _ _ _ Hx), <-app_assoc. cbn [app].
  replace (_ `min` length ret + _ - _)%nat with (length (take (length ret - S m) ret) + 0)%nat
    by (rewrite length_take; lia).
  rewrite insert_app_r. cbn. f_equal.
  destruct (lookup_lt_is_Some_2 bytes (length bytes - S m)) as [y Hy]; [lia|].
  rewrite (drop_S _ _ _ Hy). f_equal; [|f_equal; lia].
  rewrite nth_lookup. cbn [Nat.add]. by rewrite Hy.
Qed.

Lemma big_Bytes_split x : 0 <= x → ∃ k, big_Bytes x = be_split k x ∧ x < 256 ^ Z.of_nat k.
Proof.
  intros Hx. unfold big_Bytes. destruct (Z.eqb_spec x 0) as [->|Hne]; [by exists 0%nat|].
  rewrite Z.abs_eq by done. eexists. split; [done|].
  rewrite Z2Nat.id by (pose proof (Z.log2_nonneg x); pose proof (Z.div_pos (Z.log2 x) 8); lia).
  change 256 with (2 ^ 8). rewrite <-Z.pow_mul_r by (pose proof (Z.log2_nonneg x); pose proof (Z.div_pos (Z.log2 x) 8); lia).
  apply Z.log2_lt_pow2; [lia|]. pose proof (Z.mod_pos_bound (Z.log2 x) 8). pose proof (Z.div_mod (Z.log2 x) 8). lia.
Qed.

(** [intToIP] writes the number in exactly bits / 8 bytes. *)
Lemma intToIP_split x bits : 0 <= x → intToIP x bits = be_split (Z.to_nat (bits / 8)) x.
Proof.
  intros Hx. unfold intToIP. destruct (big_Bytes_split x Hx) as (k & -> & Hk).
  set (size := Z.to_nat (bits / 8)). rewrite length_be_split.
  destruct (pack_loop (be_split k x) (replicate size 0) (k `min` size)) as [Hp _].
  { rewrite length_be_split. lia. } { rewrite length_replicate. lia. }
  rewrite length_be_split in Hp.
  assert (∀ l ret, length ret = size →
    foldl (λ ret i, <[(size - i)%nat := nth (k - i) (be_split k x) 0]> ret) ret l =
    foldl (λ ret i, <[(length ret - i)%nat := nth (k - i) (be_split k x) 0]> ret) ret l) as Hsz.
  { induction l as [|i l IH]; intros ret Hret; [done|]. cbn. rewrite Hret. apply IH. by rewrite length_insert. }
  rewrite Hsz, Hp, length_replicate by apply length_replicate. clear Hp Hsz.
  rewrite take_replicate. destruct (Nat.le_ge_cases k size) as [Hle|Hle].
  - replace (k `min` size)%nat with k by lia. rewrite Nat.sub_diag. cbn [drop].
    replace size with ((size - k) + k)%nat at 3 by lia. rewrite be_split_app, Z.div_small, be_split_0 by lia.
    do 2 f_equal. lia.
  - replace (k `min` size)%nat with size by lia. rewrite Nat.sub_diag. cbn [Nat.min replicate app].
    replace k with ((k - size) + size)%nat at 2 by lia. rewrite be_split_app.
    apply drop_app_length'. by rewrite length_be_split.
Qed.

Definition size_of (bits : Z) : nat := Z.to_nat (bits / 8).
Definition bits_ok (bits : Z) : Prop := bits = ipv4Bits ∨ bits = ipv6Bits.

Lemma bits_ok_size bits : bits_ok bits →
  (size_of bits = 4%nat ∨ size_of bits = 16%nat) ∧ 256 ^ Z.of_nat (size_of bits) = 2 ^ bits.
Proof. intros [-> | ->]; unfold size_of; cbn; auto. Qed.

Lemma intToIP_valid x bits : bits_ok bits → 0 <= x →
  valid_ip (intToIP x bits) ∧ length (intToIP x bits) = size_of bits.
Proof.
  intros Hb Hx. rewrite intToIP_split by done. unfold valid_ip. fold (size_of bits).
  rewrite length_be_split. split; [|done]. split; [|apply be_split_byte].
  destruct (bits_ok_size bits Hb) as [[-> | ->] _]; auto.
Qed.

Lemma SetBytes_intToIP x bits : bits_ok bits → 0 <= x < 2 ^ bits → SetBytes (intToIP x bits) = x.
Proof.
  intros Hb Hx. rewrite intToIP_split by lia. rewrite SetBytes_be_split.
  fold (size_of bits). rewrite (proj2 (bits_ok_size bits Hb)). by apply Z.mod_small.
Qed.

Lemma normFunc_intToIP x bits : bits_ok bits → 0 <= x → normFunc bits (intToIP x bits) = intToIP x bits.
Proof.
  intros Hb Hx. destruct (intToIP_valid x bits Hb Hx) as [_ Hl].
  destruct Hb as [-> | ->]; unfold normFunc; cbn [Z.eqb ipv4Bits ipv6Bits Pos.eqb].
  - unfold To4. by rewrite decide_True.
  - unfold To16. rewrite decide_False, decide_True by (rewrite Hl; done). done.
Qed.

(** A normalised address is determined by its number. *)
Lemma normFunc_number bits a : bits_ok bits → valid_ip a → normFunc bits a ≠ [] →
  length (normFunc bits a) = size_of bits ∧ Forall is_byte (normFunc bits a) ∧
  To16 (normFunc bits a) = To16 a.
Proof.
  intros [-> | ->] [Hlen Hb] Hne; unfold normFunc, size_of in *; cbn in *.
  - destruct (To4 a) as [p|] eqn:E; [|done]. cbn in *.
    destruct (To16_of_To4 a p E) as (Hp & HP & H16); [done|].
    split; [done|]. split; [done|]. rewrite H16. unfold To16. by rewrite decide_True.
  - destruct (To16_valid a) as (c & -> & Hl & HB & Hc); [by split|].
    change (slice (Some c)) with c. done.
Qed.

Definition key (b : Block) (x : Z) : string := ip_string (intToIP x (b_bits b)).

Lemma normalize_number b a : bits_ok (b_bits b) → valid_ip a → normalize b a ≠ [] →
  let x := SetBytes (normalize b a) in
  0 <= x < 2 ^ b_bits b ∧ normalize b a = intToIP x (b_bits b) ∧ ip_string a = key b x.
Proof.
  intros Hb Ha Hne. unfold normalize in *.
  destruct (normFunc_number _ a Hb Ha Hne) as (Hl & HB & H16). cbn.
  pose proof (SetBytes_bound _ HB) as Hx. rewrite Hl, (proj2 (bits_ok_size _ Hb)) in Hx.
  assert (normFunc (b_bits b) a = intToIP (SetBytes (normFunc (b_bits b) a)) (b_bits b)) as E.
  { rewrite intToIP_split by lia. fold (size_of (b_bits b)). rewrite <-Hl. by rewrite be_split_SetBytes. }
  split; [done|]. split; [done|]. unfold key. rewrite <-E.
  apply ip_string_inj; [done| |congruence]. split; [|done]. rewrite Hl.
  destruct (proj1 (bits_ok_size _ Hb)); auto.
Qed.

Lemma key_inj b x y : bits_ok (b_bits b) → 0 <= x < 2 ^ b_bits b → 0 <= y < 2 ^ b_bits b →
  key b x = key b y → x = y.
Proof.
  intros Hb Hx Hy E. unfold key in E.
  destruct (intToIP_valid x _ Hb) as [Hvx Hlx]; [lia|].
  destruct (intToIP_valid y _ Hb) as [Hvy Hly]; [lia|].
  apply ip_string_inj in E; [|done..].
  rewrite <-(SetBytes_intToIP x (b_bits b)), <-(SetBytes_intToIP y (b_bits b)) by done. f_equal.
  apply To16_inj; [done|congruence|done].
Qed.

(** ** Stepping to the next address *)

Lemma inc_le_spec n x : reverse (inc_le (reverse (be_split n x))) = be_split n (x + 1).
Proof.
  revert x; induction n as [|n IH]; intros x; [done|].
  cbn [be_split]. rewrite reverse_snoc. cbn [inc_le].
  rewrite Zplus_mod_idemp_l. pose proof (Z.mod_pos_bound (x + 1) 256).
  destruct (Z.ltb_spec 0 ((x + 1) mod 256)) as [Hpos|Hz].
  - rewrite reverse_cons, reverse_involutive. f_equal. f_equal. symmetry.
    apply (Z.div_unique _ _ _ ((x + 1) mod 256 - 1)); [lia|].
    pose proof (Z.div_mod (x + 1) 256). lia.
  - rewrite reverse_cons, IH. f_equal. f_equal.
    pose proof (Z.div_mod (x + 1) 256).
    assert (x = ((x + 1) / 256 - 1) * 256 + 255) as Hd by lia.
    enough (x / 256 = (x + 1) / 256 - 1) by lia.
    symmetry. apply (Z.div_unique _ _ _ 255); lia.
Qed.

(** the numbers of the IPv4 addresses written as IPv6 *)
Definition v4_base : Z := 65535 * 2 ^ 32.
Definition v4_top : Z := v4_base + 2 ^ 32 - 1.

(** Successor does not wrap around: neither past the last address, nor (for an IPv6 block)
    past ::ffff:255.255.255.255, which go-cidr increments as an IPv4 address. *)
Definition steppable (bits x : Z) : Prop := 0 <= x < 2 ^ bits - 1 ∧ (bits = ipv6Bits → x ≠ v4_top).

Lemma To4_v6 x : 0 <= x < 2 ^ 128 →
  To4 (be_split 16 x) = if bool_decide (v4_base <= x <= v4_top) then Some (be_split 4 x) else None.
Proof.
  intros Hx. unfold To4. rewrite length_be_split. cbn [decide].
  rewrite decide_False by done.
  assert (be_split 16 x = be_split 12 (x / 2 ^ 32) ++ be_split 4 x) as E by apply (be_split_app 12 4).
  assert (v4InV6Prefix = be_split 12 65535) as Ep by done.
  assert (0 <= x / 2 ^ 32 < 256 ^ Z.of_nat 12) as Hq.
  { split; [apply Z.div_pos; lia|apply Z.div_lt_upper_bound; lia]. }
  assert (x / 2 ^ 32 = 65535 ↔ v4_base <= x <= v4_top) as Hiff.
  { unfold v4_top, v4_base. pose proof (Z.div_mod x (2 ^ 32)). pose proof (Z.mod_pos_bound x (2 ^ 32)).
    split; [lia|]. intros. symmetry. apply (Z.div_unique _ _ _ (x - 65535 * 2 ^ 32)); lia. }
  rewrite E, take_app_length', drop_app_length' by (by rewrite length_be_split).
  case_bool_decide as Hv.
  - rewrite decide_True; [done|]. split; [done|]. apply Hiff in Hv. by rewrite Hv, Ep.
  - rewrite decide_False; [done|]. intros [_ H]. apply Hv, Hiff. rewrite Ep in H.
    apply (f_equal SetBytes) in H. rewrite !SetBytes_be_split, Z.mod_small in H by done. done.
Qed.

Lemma normalize_Inc bits x : bits_ok bits → steppable bits x →
  normFunc bits (Inc (intToIP x bits)) = intToIP (x + 1) bits.
Proof.
  intros Hb [Hx Hv]. rewrite <-(normFunc_intToIP (x + 1)) by (done || lia).
  rewrite !intToIP_split by lia. unfold Inc, checkIPv4.
  destruct Hb as [-> | ->]; cbn [Z.to_nat ipv4Bits ipv6Bits].
  - change (Z.to_nat (32 / 8)) with 4%nat. unfold To4 at 1.
    rewrite length_be_split, decide_True by done. cbn [from_option id]. by rewrite inc_le_spec.
  - change (Z.to_nat (128 / 8)) with 16%nat. change ipv6Bits with 128 in Hx. rewrite To4_v6 by lia.
    case_bool_decide as H4; cbn [from_option id]; rewrite inc_le_spec; [|done].
    unfold normFunc; cbn [Z.eqb ipv6Bits Pos.eqb].
    rewrite To16_4, To16_16 by apply length_be_split. cbn [slice from_option id].
    specialize (Hv eq_refl). unfold IPv4.
    pose proof (be_split_app 12 4 (x + 1)) as E. change (12 + 4)%nat with 16%nat in E.
    change (Z.to_nat (ipv6Bits / 8)) with 16%nat. rewrite E. clear E.
    replace ((x + 1) / 256 ^ Z.of_nat 4) with 65535; [done|]. change (256 ^ Z.of_nat 4) with (2 ^ 32).
    unfold v4_top, v4_base in *. apply (Z.div_unique _ _ _ (x + 1 - 65535 * 2 ^ 32)); lia.
Qed.

(** ** The invariant of a block *)

Definition in_block (b : Block) (x : Z) : Prop := b_Start b <= x <= b_End b.
Definition used (b : Block) (x : Z) : Prop := key b x ∈ b_allocated b.

(** The addresses of the block are stepped through without wrapping around: it does not hold
    the all-zero address, the all-one address or ::ffff:255.255.255.255. *)
Definition addressable (b : Block) : Prop :=
  bits_ok (b_bits b) ∧ 0 < b_Start b ∧ b_End b < 2 ^ b_bits b - 1 ∧
  (b_bits b = ipv6Bits → ¬ (b_Start b <= v4_top <= b_End b)).

(** [next] is the lowest free address, or nil when every address is allocated; only
    addresses of the block are allocated. *)
Definition next_ok (b : Block) : Prop :=
  match b_next b with
  | Some n => in_block b n ∧ ¬ used b n ∧ ∀ x, b_Start b <= x < n → used b x
  | None => ∀ x, in_block b x → used b x
  end.
Definition block_inv (b : Block) : Prop :=
  addressable b ∧ next_ok b ∧ ∀ s, s ∈ b_allocated b → ∃ x, in_block b x ∧ s = key b x.

Definition same_range (b b' : Block) : Prop :=
  b_Start b' = b_Start b ∧ b_End b' = b_End b ∧ b_Mask b' = b_Mask b ∧ b_bits b' = b_bits b.

Definition least_free (b : Block) (x : Z) : Prop :=
  in_block b x ∧ ¬ used b x ∧ ∀ y, in_block b y → ¬ used b y → x <= y.

Lemma in_block_range b x : addressable b → in_block b x → 0 <= x < 2 ^ b_bits b.
Proof. unfold addressable, in_block. lia. Qed.
Lemma in_block_steppable b x : addressable b → in_block b x → steppable (b_bits b) x.
Proof. unfold addressable, in_block, steppable. intros (_&?&?&H) Hx. split; [lia|]. intros Hb. specialize (H Hb). lia. Qed.
Lemma used_inj b x y : addressable b → in_block b x → in_block b y → key b x = key b y → x = y.
Proof. intros Ha Hx Hy. apply key_inj; [apply Ha|by apply in_block_range..]. Qed.
Create HintDb ipam.
#[export] Hint Resolve in_block_range in_block_steppable used_inj : ipam.

Lemma step_number b x : addressable b → in_block b x →
  normalize b (Inc (intToIP x (b_bits b))) = intToIP (x + 1) (b_bits b) ∧
  SetBytes (intToIP (x + 1) (b_bits b)) = x + 1.
Proof.
  intros Ha Hx. pose proof (in_block_steppable b x Ha Hx) as Hs.
  split; [apply normalize_Inc; [apply Ha|done]|].
  apply SetBytes_intToIP; [apply Ha|]. destruct Hs. lia.
Qed.

Lemma search_spec fuel b x r : addressable b → in_block b x →
  search fuel b (intToIP x (b_bits b)) = Some r →
  match r with
  | None => ∀ y, x < y <= b_End b → used b y
  | Some n => x < n <= b_End b ∧ ¬ used b n ∧ ∀ y, x < y < n → used b y
  end.
Proof.
  intros Ha. revert x; induction fuel as [|fuel IH]; intros x Hx; [done|]. cbn [search].
  destruct (step_number b x Ha Hx) as [-> ->].
  destruct (Z.ltb_spec (b_End b) (x + 1)) as [Hlt|Hge].
  { intros [= <-]. intros y Hy. lia. }
  destruct (decide _) as [Hu|Hu].
  - intros E. specialize (IH (x + 1)). apply IH in E; [|unfold in_block in *; lia].
    destruct r as [n|].
    + destruct E as (? & ? & Hall). split; [lia|]. split; [done|].
      intros y Hy. destruct (decide (y = x + 1)) as [->|]; [done|]. apply Hall. lia.
    + intros y Hy. destruct (decide (y = x + 1)) as [->|]; [done|]. apply E. lia.
  - intros [= <-]. split; [lia|]. split; [done|]. lia.
Qed.

Lemma search_stuck fuel b x : addressable b → in_block b x →
  search fuel b (intToIP x (b_bits b)) = None →
  ∀ i, (i < fuel)%nat → in_block b (x + 1 + Z.of_nat i) ∧ used b (x + 1 + Z.of_nat i).
Proof.
  intros Ha. revert x; induction fuel as [|fuel IH]; intros x Hx; [lia|]. cbn [search].
  destruct (step_number b x Ha Hx) as [-> ->].
  destruct (Z.ltb_spec (b_End b) (x + 1)) as [Hlt|Hge]; [done|].
  destruct (decide _) as [Hu|Hu]; [|done]. intros E i Hi.
  assert (in_block b (x + 1)) as Hx' by (unfold in_block in *; lia).
  destruct i as [|i]; [by rewrite Z.add_0_r|].
  replace (x + 1 + Z.of_nat (S i)) with (x + 1 + 1 + Z.of_nat i) by lia. apply IH; [done..|lia].
Qed.

(** The search of moveToNextUnused terminates: the fuel is enough. *)
Lemma search_enough b x : addressable b → in_block b x →
  ∃ r, search (search_fuel b) b (intToIP x (b_bits b)) = Some r.
Proof.
  intros Ha Hx. destruct (search (search_fuel b) _ _) as [r|] eqn:E; [by eauto|]. exfalso.
  pose proof (search_stuck _ b x Ha Hx E) as Hs.
  set (l := (λ i, key b (x + 1 + Z.of_nat i)) <$> seq 0 (search_fuel b)).
  assert (length l <= size (b_allocated b))%nat as Hl.
  { apply NoDup_subset_size.
    - unfold l. apply NoDup_fmap_2_strong; [|apply NoDup_seq].
      intros i j Hi Hj E'. apply elem_of_seq in Hi, Hj.
      apply used_inj in E'; [lia|done|apply Hs; lia..].
    - intros k Hk. unfold l in Hk. apply list_elem_of_fmap in Hk as (i & -> & Hi).
      apply elem_of_seq in Hi. apply Hs. lia. }
  unfold l in Hl. rewrite length_fmap, length_seq in Hl. unfold search_fuel in Hl. lia.
Qed.

Lemma move_spec b n : addressable b → in_block b n → b_next b = Some n →
  ∃ r, moveToNextUnused b = Ret (set_next r b, Some (intToIP n (b_bits b))) ∧
    match r with
    | None => ∀ y, n < y <= b_End b → used b y
    | Some m => n < m <= b_End b ∧ ¬ used b m ∧ ∀ y, n < y < m → used b y
    end.
Proof.
  intros Ha Hn E. unfold moveToNextUnused. rewrite E.
  destruct (search_enough b n Ha Hn) as [r Hr]. rewrite Hr. exists r. split; [done|].
  by eapply search_spec.
Qed.

Lemma used_mark b x a y : addressable b → in_block b x → in_block b y → ip_string a = key b x →
  used (mark a b) y ↔ used b y ∨ y = x.
Proof.
  intros Ha Hx Hy E. unfold used, mark. cbn. change (key (set_allocated _ b) y) with (key b y).
  rewrite elem_of_union, elem_of_singleton, E. split.
  - intros [H|H]; [right|by left]. by eapply used_inj.
  - intros [H| ->]; [by right|by left].
Qed.

Lemma inv_mark b x a : block_inv b → in_block b x → ip_string a = key b x →
  b_next b ≠ Some x → block_inv (mark a b).
Proof.
  intros (Ha & Hn & Hs) Hx E Hne. split; [exact Ha|]. split.
  - unfold next_ok in *. change (b_next (mark a b)) with (b_next b).
    destruct (b_next b) as [n|] eqn:En.
    + destruct Hn as (Hn & Hu & Hall). split; [exact Hn|]. split.
      * rewrite (used_mark b x a n Ha Hx Hn E). intros [?|?]; [done|congruence].
      * intros y Hy. apply (used_mark b x a y Ha Hx); [unfold in_block in *; cbn in *; lia|done|].
        left. by apply Hall.
    + intros y Hy. apply (used_mark b x a y Ha Hx Hy E). left. by apply Hn.
  - intros s Hin. cbn in Hin. apply elem_of_union in Hin as [H|H]; [|by apply Hs].
    apply elem_of_singleton in H as ->. exists x. split; [exact Hx|exact E].
Qed.

(** [next] moved past the address [x] about to be marked. *)
Lemma inv_move_mark b x r a : block_inv b → b_next b = Some x → ip_string a = key b x →
  match r with
  | None => ∀ y, x < y <= b_End b → used b y
  | Some m => x < m <= b_End b ∧ ¬ used b m ∧ ∀ y, x < y < m → used b y
  end → block_inv (mark a (set_next r b)).
Proof.
  intros (Ha & Hn & Hs) En E Hr. unfold next_ok in Hn. rewrite En in Hn. destruct Hn as (Hx & Hu & Hall).
  split; [exact Ha|]. split.
  - unfold next_ok. cbn [b_next mark set_allocated set_next].
    assert (∀ y, in_block b y → used (mark a (set_next r b)) y ↔ used b y ∨ y = x) as Hm.
    { intros y Hy. apply (used_mark (set_next r b) x a y); done. }
    unfold in_block in *. destruct r as [m|].
    + destruct Hr as (Hm1 & Hm2 & Hm3). split; [cbn; lia|]. split.
      * rewrite Hm by lia. intros [?|?]; [done|lia].
      * intros y Hy. cbn in Hy. apply Hm; [lia|].
        destruct (Z.lt_trichotomy y x) as [? | [? | ?] ]; [left; apply Hall; lia|by right|left; apply Hm3; lia].
    + intros y Hy. cbn in Hy. apply Hm; [lia|].
      destruct (Z.lt_trichotomy y x) as [? | [? | ?] ]; [left; apply Hall; lia|by right|left; apply Hr; lia].
  - intros s Hin. cbn in Hin. apply elem_of_union in Hin as [H|H]; [|by apply Hs].
    apply elem_of_singleton in H as ->. exists x. split; [exact Hx|exact E].
Qed.

Lemma key_self b x : addressable b → in_block b x → ip_string (intToIP x (b_bits b)) = key b x.
Proof. done. Qed.

(** What a successful allocation of [x] leaves behind. *)
Definition allocated_one (b : Block) (x : Z) (b' : Block) : Prop :=
  same_range b b' ∧ block_inv b' ∧ b_allocated b' = {[key b x]} ∪ b_allocated b ∧
  ∀ y, in_block b y → used b' y ↔ used b y ∨ y = x.

Lemma allocate_none_some b n : block_inv b → b_next b = Some n →
  ∃ b', Allocate None b = Ret (b', Ok (intToIP n (b_bits b), b_Mask b)) ∧ least_free b n ∧ allocated_one b n b'.
Proof.
  intros Hinv En. pose proof Hinv as (Ha & Hn & Hs). unfold next_ok in Hn. rewrite En in Hn.
  destruct Hn as (Hn & Hu & Hall). destruct (move_spec b n Ha Hn En) as (r & Hmv & Hr).
  exists (mark (intToIP n (b_bits b)) (set_next r b)). unfold Allocate. rewrite Hmv. split; [done|].
  split.
  { split; [done|]. split; [done|]. intros y Hy Hny. destruct (decide (n <= y)); [done|].
    destruct Hny. apply Hall. unfold in_block in Hy. lia. }
  split; [done|]. split; [by apply (inv_move_mark b n)|]. split; [done|].
  intros y Hy. by apply (used_mark (set_next r b) n).
Qed.

(** ** Correctness of the operations *)

Lemma allocate_none_spec b : block_inv b →
  (∃ x b', Allocate None b = Ret (b', Ok (intToIP x (b_bits b), b_Mask b)) ∧
     least_free b x ∧ allocated_one b x b') ∨
  (Allocate None b = Ret (b, Err "no ip available") ∧ ∀ x, in_block b x → used b x).
Proof.
  intros Hinv. destruct (b_next b) as [n|] eqn:En.
  - left. exists n. by apply allocate_none_some.
  - right. destruct Hinv as (_ & Hn & _). unfold next_ok in Hn. rewrite En in Hn.
    split; [|done]. unfold Allocate, moveToNextUnused. by rewrite En.
Qed.

(** Allocate without a requested address, on a block in a well formed state, always returns:
    either it hands out the lowest free address of the block, in the block's own byte form and
    with the block's mask, and exactly that address becomes allocated; or it reports that no
    address is available, changes nothing, and every address of the block is indeed allocated. *)
Lemma Allocate_next_correct (b : Block) (Hinv : block_inv b) :
  (∃ x b', Allocate None b = Ret (b', Ok (intToIP x (b_bits b), b_Mask b)) ∧
     least_free b x ∧ allocated_one b x b') ∨
  (Allocate None b = Ret (b, Err "no ip available") ∧ ∀ x, in_block b x → used b x).
Proof. by apply allocate_none_spec. Qed.

Lemma Contains_in_block b a : Contains b a = true ↔ in_block b (SetBytes (normalize b a)).
Proof. unfold Contains, in_block. rewrite andb_true_iff, !Z.leb_le. done. Qed.
Lemma Contains_false b a : Contains b a = false → ¬ in_block b (SetBytes (normalize b a)).
Proof. rewrite <-Contains_in_block. by intros ->. Qed.

(** An address of the other family has the empty normal form, of number 0: it is in no block. *)
Lemma in_block_ne b a : addressable b → in_block b (SetBytes (normalize b a)) → normalize b a ≠ [].
Proof. intros Ha Hx E. rewrite E in Hx. unfold addressable, in_block in *. cbn in Hx. lia. Qed.

Lemma in_block_number b a : addressable b → valid_ip a → in_block b (SetBytes (normalize b a)) →
  normalize b a = intToIP (SetBytes (normalize b a)) (b_bits b) ∧
  ip_string a = key b (SetBytes (normalize b a)).
Proof.
  intros Ha Hv Hx. apply normalize_number; [apply Ha|done|by apply in_block_ne].
Qed.

Lemma ip_Equal_next b a n : addressable b → in_block b n → valid_ip a →
  in_block b (SetBytes (normalize b a)) →
  ip_Equal a (intToIP n (b_bits b)) = bool_decide (SetBytes (normalize b a) = n).
Proof.
  intros Ha Hn Hv Hx. destruct (in_block_number b a Ha Hv Hx) as [_ Hkey].
  pose proof (in_block_range b n Ha Hn).
  destruct (intToIP_valid n (b_bits b)) as [Hvn Hln]; [apply Ha|lia|].
  apply eq_true_iff_eq. rewrite ip_Equal_To16, bool_decide_eq_true by done.
  rewrite <-ip_string_inj, Hkey by done. split; [|by intros <-].
  intros E. by eapply used_inj.
Qed.

Lemma allocate_requested_spec b a : block_inv b → valid_ip a →
  let x := SetBytes (normalize b a) in
  (¬ in_block b x ∧ Allocate (Some a) b = Ret (b, Err "ip request not in this block")) ∨
  (in_block b x ∧ used b x ∧ Allocate (Some a) b = Ret (b, Err "requested ip already used")) ∨
  (in_block b x ∧ ¬ used b x ∧ ip_string a = key b x ∧
     ∃ b', Allocate (Some a) b = Ret (b', Ok (a, b_Mask b)) ∧ allocated_one b x b').
Proof.
  cbn. set (x := SetBytes (normalize b a)). intros Hinv Hv. pose proof Hinv as (Ha & Hn & Hs).
  unfold Allocate. destruct (Contains b a) eqn:Hc; cbn [negb].
  2:{ left. split; [|done]. by apply Contains_false. }
  right. apply Contains_in_block in Hc. fold x in Hc.
  destruct (in_block_number b a Ha Hv Hc) as [Hnorm Hkey]. fold x in Hnorm, Hkey. rewrite Hkey.
  destruct (decide _) as [Hu|Hu]; [left; done|]. right. split; [done|]. split; [done|]. split; [done|].
  unfold next_ok in Hn. destruct (b_next b) as [n|] eqn:En; [|by destruct Hu; apply Hn].
  rewrite (ip_Equal_next b a n) by (done || apply Hn). fold x.
  case_bool_decide as Hxn.
  - subst n. destruct (move_spec b x Ha (proj1 Hn) En) as (r & Hmv & Hr). rewrite Hmv.
    exists (mark a (set_next r b)). split; [done|]. split; [done|].
    split; [by apply (inv_move_mark b x)|]. split; [by rewrite <-Hkey|].
    intros y Hy. by apply (used_mark (set_next r b) x).
  - exists (mark a b). split; [done|]. split; [done|].
    split; [apply (inv_mark b x); [done..|congruence]|]. split; [by rewrite <-Hkey|].
    intros y Hy. by apply used_mark.
Qed.

(** Allocate with a requested address [a] of number [x]: an address outside the block or
    already allocated is refused and nothing changes; any free address of the block is granted
    as asked for, exactly that address becomes allocated, and the state stays well formed (the
    next address to hand out is stepped over when it was the one requested). It never panics. *)
Lemma Allocate_requested_correct (b : Block) (a : list Z) (Hinv : block_inv b) (Hv : valid_ip a) :
  let x := SetBytes (normalize b a) in
  (¬ in_block b x ∧ Allocate (Some a) b = Ret (b, Err "ip request not in this block")) ∨
  (in_block b x ∧ used b x ∧ Allocate (Some a) b = Ret (b, Err "requested ip already used")) ∨
  (in_block b x ∧ ¬ used b x ∧ ip_string a = key b x ∧
     ∃ b', Allocate (Some a) b = Ret (b', Ok (a, b_Mask b)) ∧ allocated_one b x b').
Proof. by apply allocate_requested_spec. Qed.

Definition freed_one (b : Block) (x : Z) (b' : Block) : Prop :=
  same_range b b' ∧ block_inv b' ∧ b_allocated b' = b_allocated b ∖ {[key b x]} ∧
  ∀ y, in_block b y → used b' y ↔ used b y ∧ y ≠ x.

Lemma used_unmark b x y : addressable b → in_block b x → in_block b y →
  used (set_allocated (b_allocated b ∖ {[key b x]}) b) y ↔ used b y ∧ y ≠ x.
Proof.
  intros Ha Hx Hy. unfold used. cbn. change (key (set_allocated _ b) y) with (key b y).
  rewrite elem_of_difference, elem_of_singleton. split; intros [H1 H2]; split; try done.
  - by intros ->.
  - intros E. apply H2. by eapply used_inj.
Qed.

Lemma putback_used b x : block_inv b → in_block b x → used b x →
  ∀ n, b_next b = Some n →
  freed_one b x (let b1 := set_allocated (b_allocated b ∖ {[key b x]}) b in
                 if x <? n then set_next (Some x) b1 else b1).
Proof.
  intros (Ha & Hn & Hs) Hx Hux n En. unfold next_ok in Hn. rewrite En in Hn. destruct Hn as (Hn & Hun & Hall).
  set (b1 := set_allocated _ b).
  assert (∀ y, in_block b y → used b1 y ↔ used b y ∧ y ≠ x) as Hm by (intros; by apply used_unmark).
  assert (∀ s, s ∈ b_allocated b1 → ∃ y, in_block b y ∧ s = key b y) as Hs1.
  { intros s Hin. unfold b1 in Hin. cbn in Hin. apply elem_of_difference in Hin as [Hin _]. by apply Hs. }
  assert (n ≠ x) as Hnx by (by intros ->).
  destruct (Z.ltb_spec x n) as [Hlt|Hge].
  - split; [done|]. split; [|done]. split; [exact Ha|]. split; [|exact Hs1].
    unfold next_ok. cbn [b_next set_next]. split; [exact Hx|]. split.
    + change (¬ used b1 x). rewrite Hm by done. tauto.
    + intros y Hy. change (used b1 y). cbn in Hy. apply Hm; [unfold in_block in *; lia|].
      split; [apply Hall; lia|lia].
  - split; [done|]. split; [|done]. split; [exact Ha|]. split; [|exact Hs1].
    unfold next_ok. change (b_next b1) with (b_next b). rewrite En. split; [exact Hn|]. split.
    + rewrite Hm by done. tauto.
    + intros y Hy. cbn in Hy. apply Hm; [unfold in_block in *; lia|]. split; [apply Hall; lia|lia].
Qed.

Lemma putback_spec b a : block_inv b → valid_ip a →
  let x := SetBytes (normalize b a) in
  (¬ (in_block b x ∧ used b x) ∧ PutBack a b = Ret (b, false)) ∨
  (in_block b x ∧ used b x ∧ is_Some (b_next b) ∧
     ∃ b', PutBack a b = Ret (b', true) ∧ freed_one b x b') ∨
  (in_block b x ∧ used b x ∧ b_next b = None ∧ PutBack a b = Panic "nil pointer dereference").
Proof.
  cbn. set (x := SetBytes (normalize b a)). intros Hinv Hv. pose proof Hinv as (Ha & Hn & Hs).
  unfold PutBack. destruct (Contains b a) eqn:Hc; cbn [negb].
  2:{ left. split; [|done]. intros [H _]. by apply Contains_false in Hc. }
  apply Contains_in_block in Hc. fold x in Hc. fold x.
  destruct (in_block_number b a Ha Hv Hc) as [Hnorm Hkey]. fold x in Hnorm, Hkey.
  rewrite decide_False by (by apply in_block_ne). rewrite Hnorm. fold (key b x).
  destruct (decide (key b x ∈ b_allocated b)) as [Hu|Hu].
  2:{ left. split; [|done]. by intros [_ H]. }
  right. cbn [b_next set_allocated].
  destruct (b_next b) as [n|] eqn:En; [left|right; done].
  split; [done|]. split; [done|]. split; [by eauto|]. eexists. split; [done|].
  by apply (putback_used b x).
Qed.

(** PutBack of an address [a] of number [x]: an address outside the block or not allocated
    is refused and nothing changes; an allocated one becomes free again, alone, and the state
    stays well formed (so the next allocation reuses it if it is now the lowest free address),
    unless the block was exhausted, where PutBack panics. *)
Lemma PutBack_correct (b : Block) (a : list Z) (Hinv : block_inv b) (Hv : valid_ip a) :
  let x := SetBytes (normalize b a) in
  (¬ (in_block b x ∧ used b x) ∧ PutBack a b = Ret (b, false)) ∨
  (in_block b x ∧ used b x ∧ is_Some (b_next b) ∧
     ∃ b', PutBack a b = Ret (b', true) ∧ freed_one b x b') ∨
  (in_block b x ∧ used b x ∧ b_next b = None ∧ PutBack a b = Panic "nil pointer dereference").
Proof. by apply putback_spec. Qed.

(** What NewBlock guarantees of every block it returns. *)
Lemma NewBlock_fresh cidr start end_ b : NewBlock cidr start end_ = Ok b →
  bits_ok (b_bits b) ∧ b_Start b <= b_End b ∧ b_next b = Some (b_Start b) ∧ b_allocated b = ∅.
Proof.
  unfold NewBlock. destruct (ParseCIDR cidr) as [ [ [ [a0 net] ones] bits]|] eqn:E; [|done].
  apply ParseCIDR_bits in E. fold (bits_ok bits) in E.
  destruct (_ || _); [done|]. cbv [result_bind mbind].
  destruct (parse_bound "start" _ _ _); [|done].
  destruct (parse_bound "end" _ _ _); [|done]. cbv zeta.
  case_match eqn:Hlt; [done|]. intros [= <-]. bool_to_Z. done.
Qed.

Lemma fresh_inv b : addressable b → b_Start b <= b_End b → b_next b = Some (b_Start b) →
  b_allocated b = ∅ → block_inv b.
Proof.
  intros Ha Hle Hn He. split; [done|]. split; [|rewrite He; set_solver].
  unfold next_ok, in_block, used. rewrite Hn, He. split; [lia|]. split; [set_solver|lia].
Qed.

End Block.

Module IPAddressManager.
Import Block.

(** [m_locked] is the mutex: [Check] takes it and never gives it back. *)
Record IPAddressManager := { m_blocks : list Block; m_blockIndex : nat; m_locked : bool }.

Definition NewIPAddressManager : IPAddressManager :=
  {| m_blocks := []; m_blockIndex := 0; m_locked := false |}.

Definition set_blocks (bs : list Block) (m : IPAddressManager) : IPAddressManager :=
  {| m_blocks := bs; m_blockIndex := m_blockIndex m; m_locked := m_locked m |}.
Definition set_index (i : nat) (m : IPAddressManager) : IPAddressManager :=
  {| m_blocks := m_blocks m; m_blockIndex := i; m_locked := m_locked m |}.

(** every operation but AddAddressBlock's parsing runs with the mutex held *)
Definition with_lock {A} (m : IPAddressManager) (k : outcome A) : outcome A :=
  if m_locked m then Diverge else k.

Definition start_le (b1 b2 : Block) : Prop := b_Start b1 <= b_Start b2.
#[export] Instance start_le_dec b1 b2 : Decision (start_le b1 b2) := decide (b_Start b1 <= b_Start b2).
#[export] Instance start_le_total : Total start_le.
Proof. intros b1 b2. unfold start_le. lia. Qed.
#[export] Instance start_le_trans : Transitive start_le.
Proof. intros b1 b2 b3. unfold start_le. lia. Qed.

Definition AddAddressBlock (cidr start end_ : string) (m : IPAddressManager)
    : outcome (IPAddressManager * result unit) :=
  match NewBlock cidr start end_ with
  | Err e => Ret (m, Err ("invalid address block: " +:+ e))
  | Ok b =>
    with_lock m (
    if existsb (λ existing, Overlapped existing b) (m_blocks m)
    then Ret (m, Err "block overlapped with existing blocks")
    else Ret (set_blocks (merge_sort start_le (m_blocks m ++ [b])) m, Ok tt))
  end.

(** m.blocks[i].Allocate(req) on the stored block *)
Definition block_allocate (i : nat) (req : option (list Z)) (m : IPAddressManager)
    : outcome (IPAddressManager * result (list Z * list Z)) :=
  match m_blocks m !! i with
  | None => Panic "index out of range"
  | Some b => '(b, r) ← Allocate req b; Ret (set_blocks (<[i:=b]> (m_blocks m)) m, r)
  end.

(** one iteration per later block: [length blocks] is enough *)
Fixpoint next_blocks (fuel : nat) (m : IPAddressManager)
    : outcome (IPAddressManager * result (list Z * list Z)) :=
  if (S (m_blockIndex m) <? length (m_blocks m))%nat then
    match fuel with
    | O => Diverge
    | S fuel =>
      let m := set_index (S (m_blockIndex m)) m in
      '(m, r) ← block_allocate (m_blockIndex m) None m;
      match r with Ok _ => Ret (m, r) | Err _ => next_blocks fuel m end
    end
  else Ret (m, Err "no ip address available").

(** sort.Search: the binary search of the standard library *)
Fixpoint sort_Search_go (fuel i j : nat) (f : nat → bool) : nat :=
  match fuel with
  | O => i
  | S fuel =>
    if (i <? j)%nat then
      let h := ((i + j) / 2)%nat in
      if f h then sort_Search_go fuel i h f else sort_Search_go fuel (S h) j f
    else i
  end.
Definition sort_Search (n : nat) (f : nat → bool) : nat := sort_Search_go n 0 n f.

Definition contains_at (bs : list Block) (a : list Z) (i : nat) : bool :=
  if bs !! i is Some b then Contains b a else false.

(** [idx < 0] never holds of what sort.Search returns, so the guard of the code is no case here. *)
Definition AllocateM (ipReq : option (list Z)) (m : IPAddressManager)
    : outcome (IPAddressManager * result (list Z * list Z)) :=
  with_lock m (
  match ipReq with
  | None =>
    '(m, r) ← block_allocate (m_blockIndex m) None m;
    match r with
    | Ok _ => Ret (m, r)
    | Err _ => next_blocks (length (m_blocks m)) m
    end
  | Some a =>
    let idx := sort_Search (length (m_blocks m)) (contains_at (m_blocks m) a) in
    '(m, r) ← block_allocate idx (Some a) m;
    match r with
    | Ok _ => Ret (m, r)
    | Err _ => Ret (m, Err "failed to allocate specific ip")
    end
  end).

(** the loop over the blocks from index [i] on *)
Fixpoint putback_go (a : list Z) (i : nat) (bs : list Block) : outcome (option (nat * Block)) :=
  match bs with
  | [] => Ret None
  | b :: bs =>
    '(b, ok) ← PutBack a b;
    if ok : bool then Ret (Some (i, b)) else putback_go a (S i) bs
  end.
Definition PutBackM (a : list Z) (m : IPAddressManager) : outcome IPAddressManager :=
  with_lock m (
  r ← putback_go a 0 (m_blocks m);
  match r with
  | None => Ret m
  | Some (i, b) =>
    let m := set_blocks (<[i:=b]> (m_blocks m)) m in
    Ret (if (i <? m_blockIndex m)%nat then set_index i m else m)
  end).

Definition CheckM (ip : string) (m : IPAddressManager) : outcome IPAddressManager :=
  with_lock m (Ret {| m_blocks := m_blocks m; m_blockIndex := m_blockIndex m; m_locked := true |}).

(** ** The invariant: the blocks are sorted and apart, and each is well formed *)

Definition range (b : Block) : Z * Z := (b_Start b, b_End b).
Definition before (r1 r2 : Z * Z) : Prop := r1.2 < r2.1.
Definition apart (r1 r2 : Z * Z) : Prop := r1.2 < r2.1 ∨ r2.2 < r1.1.
Definition nonempty (r : Z * Z) : Prop := r.1 <= r.2.

Definition mgr_inv (m : IPAddressManager) : Prop :=
  Forall block_inv (m_blocks m) ∧ Forall nonempty (range <$> m_blocks m) ∧
  StronglySorted before (range <$> m_blocks m) ∧
  (m_blockIndex m < length (m_blocks m) ∨ m_blocks m = [] ∧ m_blockIndex m = 0)%nat.

Lemma same_range_range b b' : same_range b b' → range b' = range b.
Proof. intros (H1 & H2 & _). unfold range. by rewrite H1, H2. Qed.

Lemma mgr_inv_update m i b b' : mgr_inv m → m_blocks m !! i = Some b →
  same_range b b' → block_inv b' → mgr_inv (set_blocks (<[i:=b']> (m_blocks m)) m).
Proof.
  intros (Hb & Hne & Hs & Hi) Hl Hr Hinv. unfold mgr_inv. cbn.
  assert (range <$> <[i:=b']> (m_blocks m) = range <$> m_blocks m) as E.
  { rewrite list_fmap_insert, (same_range_range b b' Hr). apply list_insert_id.
    by rewrite list_lookup_fmap, Hl. }
  rewrite E, length_insert. split; [by apply Forall_insert|]. split; [done|]. split; [done|].
  destruct Hi as [?|[Hnil _] ]; [by left|]. by rewrite Hnil in Hl.
Qed.

Lemma mgr_inv_index m i : mgr_inv m → (i < length (m_blocks m))%nat → mgr_inv (set_index i m).
Proof. intros (Hb & Hne & Hs & Hi) Hl. unfold mgr_inv. cbn. auto. Qed.

Lemma mgr_inv_block m i b : mgr_inv m → m_blocks m !! i = Some b → block_inv b.
Proof. intros (Hb & _) Hl. by eapply Forall_lookup_1. Qed.

(** Two distinct blocks hold different numbers. *)
Lemma before_lookup (l : list (Z * Z)) i j r1 r2 : StronglySorted before l → (i < j)%nat →
  l !! i = Some r1 → l !! j = Some r2 → before r1 r2.
Proof.
  intros Hs. revert i j; induction Hs as [|r l Hs IH Hr]; intros [|i] [|j] Hij H1 H2; try (done || lia).
  - cbn in *. simplify_eq. by eapply Forall_lookup_1.
  - apply (IH i j); [lia|done|done].
Qed.

Lemma blocks_disjoint m i j b1 b2 x : mgr_inv m → m_blocks m !! i = Some b1 → m_blocks m !! j = Some b2 →
  in_block b1 x → in_block b2 x → i = j.
Proof.
  intros (_ & _ & Hs & _) H1 H2 Hx1 Hx2. unfold in_block in *.
  destruct (Nat.lt_trichotomy i j) as [H| [H|H] ]; [|done|]; exfalso.
  - assert (before (range b1) (range b2)) as Hb by
      (eapply (before_lookup _ i j); [exact Hs|done|by rewrite list_lookup_fmap, ?H1, ?H2..]).
    unfold before, range in Hb. cbn in Hb. lia.
  - assert (before (range b2) (range b1)) as Hb by
      (eapply (before_lookup _ j i); [exact Hs|done|by rewrite list_lookup_fmap, ?H1, ?H2..]).
    unfold before, range in Hb. cbn in Hb. lia.
Qed.

Lemma not_overlapped_apart b1 b2 : Overlapped b1 b2 = false → apart (range b1) (range b2).
Proof.
  unfold Overlapped, apart, range. cbn. rewrite negb_false_iff, orb_true_iff, !Z.ltb_lt. done.
Qed.

Lemma apart_sym r1 r2 : apart r1 r2 → apart r2 r1.
Proof. unfold apart. tauto. Qed.

Lemma add_block_inv m b : mgr_inv m → block_inv b → nonempty (range b) →
  existsb (λ existing, Overlapped existing b) (m_blocks m) = false →
  mgr_inv (set_blocks (merge_sort start_le (m_blocks m ++ [b])) m).
Proof.
  intros (Hb & Hne & Hs & Hi) Hinv Hn Hov. unfold mgr_inv. cbn.
  set (l := merge_sort start_le (m_blocks m ++ [b])).
  assert (l ≡ₚ m_blocks m ++ [b]) as Hp by apply merge_sort_Permutation.
  assert (Forall nonempty (range <$> l)) as Hne'.
  { rewrite Hp, fmap_app. apply Forall_app. split; [done|]. by apply Forall_singleton. }
  split; [rewrite Hp; apply Forall_app; split; [done|by apply Forall_singleton]|]. split; [done|]. split.
  - apply (StronglySorted_impl2 (λ r1 r2, r1.1 <= r2.1) apart before nonempty); [|done| |].
    + unfold apart, before, nonempty. lia.
    + assert (StronglySorted start_le l) as Hl by
        (apply Sorted_StronglySorted; [apply start_le_trans|apply Sorted_merge_sort, start_le_total]).
      clear -Hl. induction Hl as [|c l Hl IH Hc]; [constructor|]. cbn. constructor; [done|].
      by apply Forall_fmap.
    + apply (StronglySorted_sym_perm _ (range <$> (m_blocks m ++ [b]))); [apply apart_sym|by rewrite Hp|].
      rewrite fmap_app. apply StronglySorted_snoc_sym.
      * apply Forall_fmap, Forall_forall. intros c Hc. apply not_overlapped_apart.
        destruct (Overlapped c b) eqn:E; [|done].
        assert (existsb (λ existing, Overlapped existing b) (m_blocks m) = true); [|congruence].
        apply existsb_exists. exists c. split; [by apply list_elem_of_In|done].
      * apply (StronglySorted_impl2 before before apart nonempty); [|done..].
        unfold apart, before. auto.
  - left. rewrite Hp, length_app. cbn. destruct Hi as [?|[-> ->] ]; cbn; lia.
Qed.

(** ** Allocation in sequence *)

Definition full (b : Block) : Prop := ∀ x, in_block b x → used b x.

(** the blocks of index [i] up to [j] (excluded) have no free address *)
Definition full_between (m : IPAddressManager) (i j : nat) : Prop :=
  ∀ k b, (i <= k < j)%nat → m_blocks m !! k = Some b → full b.

Definition first_free (m : IPAddressManager) (start : nat) (i : nat) (b : Block) (x : Z) : Prop :=
  (start <= i)%nat ∧ m_blocks m !! i = Some b ∧ least_free b x ∧ full_between m start i.

(** the lowest free address of the first block that has one, or an error when none has *)
Definition next_result (start : nat) (m : IPAddressManager)
    (o : outcome (IPAddressManager * result (list Z * list Z))) : Prop :=
  (∃ i b x b', first_free m start i b x ∧ allocated_one b x b' ∧
     o = Ret (set_index i (set_blocks (<[i:=b']> (m_blocks m)) m), Ok (intToIP x (b_bits b), b_Mask b))) ∨
  (full_between m start (length (m_blocks m)) ∧
     o = Ret (set_index (length (m_blocks m) - 1) m, Err "no ip address available")).

Lemma set_blocks_id m i b : m_blocks m !! i = Some b → set_blocks (<[i:=b]> (m_blocks m)) m = m.
Proof. intros H. unfold set_blocks. rewrite list_insert_id by done. by destruct m. Qed.

Lemma block_allocate_none m i b : mgr_inv m → m_blocks m !! i = Some b →
  (∃ x b', block_allocate i None m =
     Ret (set_blocks (<[i:=b']> (m_blocks m)) m, Ok (intToIP x (b_bits b), b_Mask b)) ∧
     least_free b x ∧ allocated_one b x b') ∨
  (block_allocate i None m = Ret (m, Err "no ip available") ∧ full b).
Proof.
  intros Hm Hl. unfold block_allocate. rewrite Hl.
  destruct (allocate_none_spec b) as [(x & b' & -> & Hx & Hb')|[-> Hf] ]; [by eapply mgr_inv_block|..].
  - left. exists x, b'. done.
  - right. split; [|done]. cbn. by rewrite set_blocks_id.
Qed.

Lemma full_between_step m i j b : m_blocks m !! i = Some b → full b →
  full_between m (S i) j → full_between m i j.
Proof.
  intros Hl Hf Hr k c Hk Hc. destruct (decide (k = i)) as [->|]; [by simplify_eq|].
  apply (Hr k); [lia|done].
Qed.

Lemma next_result_step m i b o : m_blocks m !! i = Some b → full b →
  next_result (S i) m o → next_result i m o.
Proof.
  intros Hl Hf [(j & c & x & c' & (Hle & Hc & Hx & Hfull) & Hone & ->)|[Hfull ->] ].
  - left. exists j, c, x, c'. split; [|done]. split; [lia|]. split; [done|]. split; [done|].
    by eapply full_between_step.
  - right. split; [|done]. by eapply full_between_step.
Qed.

Lemma next_blocks_spec fuel m : mgr_inv m → (m_blockIndex m < length (m_blocks m))%nat →
  (length (m_blocks m) <= fuel + S (m_blockIndex m))%nat →
  next_result (S (m_blockIndex m)) m (next_blocks fuel m).
Proof.
  revert m; induction fuel as [|fuel IH]; intros m Hm Hlt Hf; cbn [next_blocks];
    destruct (Nat.ltb_spec (S (m_blockIndex m)) (length (m_blocks m))) as [Hi|Hi]; try lia.
  1, 3: right; split; [intros k c Hk; lia|];
    replace (length (m_blocks m) - 1)%nat with (m_blockIndex m) by lia; by destruct m.
  destruct (lookup_lt_is_Some_2 (m_blocks m) (S (m_blockIndex m)) Hi) as [b Hb].
  set (m1 := set_index (S (m_blockIndex m)) m).
  assert (mgr_inv m1) as Hm1 by by apply mgr_inv_index.
  change (m_blockIndex m1) with (S (m_blockIndex m)).
  destruct (block_allocate_none m1 (S (m_blockIndex m)) b Hm1 Hb) as [(x & b' & -> & Hx & Hone)|[-> Hfull] ].
  - left. exists (S (m_blockIndex m)), b, x, b'. split; [|done]. split; [done|]. split; [done|].
    split; [done|]. intros k c Hk. lia.
  - cbn. eapply next_result_step; [done..|].
    specialize (IH m1 Hm1). cbn in IH.
    destruct IH as [(i & c & x & c' & Hff & Hone & E)|[Hff E] ]; [done|lia|..].
    + left. exists i, c, x, c'. done.
    + right. done.
Qed.

Lemma allocateM_none m : mgr_inv m → m_blocks m ≠ [] → m_locked m = false →
  next_result (m_blockIndex m) m (AllocateM None m).
Proof.
  intros Hm Hne Hu. unfold AllocateM, with_lock. rewrite Hu.
  pose proof Hm as (_ & _ & _ & [Hi|[? _] ]); [|done].
  destruct (lookup_lt_is_Some_2 (m_blocks m) (m_blockIndex m) Hi) as [b Hb].
  destruct (block_allocate_none m _ b Hm Hb) as [(x & b' & -> & Hx & Hone)|[-> Hfull] ].
  - left. exists (m_blockIndex m), b, x, b'. split; [|done].
    split; [done|]. split; [done|]. split; [done|]. intros k c Hk. lia.
  - cbn. eapply next_result_step; [done..|]. apply next_blocks_spec; [done..|lia].
Qed.

(** Allocate without a requested address, on a manager with at least one block, always
    returns: it hands out the lowest free address of the first block, from the current one on,
    that has a free address (that block becomes the current one and exactly that address of it
    becomes allocated), and it reports that none is available only when every block from the
    current one on is full. *)
Lemma Allocate_sequence_correct (m : IPAddressManager)
    (Hm : mgr_inv m) (Hne : m_blocks m ≠ []) (Hu : m_locked m = false) :
  next_result (m_blockIndex m) m (AllocateM None m).
Proof. by apply allocateM_none. Qed.

(** ** Requested addresses: the binary search *)

(** Never true: the search ends past the end. Only true at the end: the search ends there. *)
Lemma sort_Search_false fuel i j f k : (i <= j)%nat → (j - i <= fuel)%nat → (k <= j)%nat → (i <= k)%nat →
  (∀ x, (i <= x < k)%nat → f x = false) → (∀ x, (k <= x < j)%nat → f x = true) →
  sort_Search_go fuel i j f = k.
Proof.
  revert i j; induction fuel as [|fuel IH]; intros i j Hij Hfu Hkj Hik Hf Ht;
    cbn [sort_Search_go]; [lia|].
  destruct (Nat.ltb_spec i j); [|lia].
  assert (i <= (i + j) / 2 < j)%nat as [H1 H2].
  { split; [apply Nat.div_le_lower_bound; lia|apply Nat.Div0.div_lt_upper_bound; lia]. }
  set (h := ((i + j) / 2)%nat) in *. destruct (f h) eqn:E.
  - assert (k <= h)%nat by (destruct (Nat.le_gt_cases k h); [done|rewrite Hf in E; [done|lia] ]).
    apply IH; try lia; intros x Hx; [apply Hf|apply Ht]; lia.
  - assert (h < k)%nat by (destruct (Nat.le_gt_cases k h); [rewrite Ht in E; [done|lia]|done]).
    apply IH; try lia; intros x Hx; [apply Hf|apply Ht]; lia.
Qed.

Lemma contains_at_lookup m a i : contains_at (m_blocks m) a i = true →
  ∃ b, m_blocks m !! i = Some b ∧ Contains b a = true.
Proof. unfold contains_at. destruct (m_blocks m !! i); [eauto|done]. Qed.

(** A request for an address that no block contains is not answered by the error the code
    has for it: the binary search ends past the last block and the operation panics. *)
Lemma Allocate_unmanaged_panics (m : IPAddressManager) (a : list Z) (Hu : m_locked m = false)
    (Hno : ∀ b, b ∈ m_blocks m → Contains b a = false) :
  AllocateM (Some a) m = Panic "index out of range".
Proof.
  unfold AllocateM, with_lock. rewrite Hu. unfold sort_Search.
  rewrite (sort_Search_false _ _ _ _ (length (m_blocks m))); [|lia..| |intros; lia].
  - unfold block_allocate. by rewrite lookup_ge_None_2.
  - intros x Hx. destruct (contains_at _ _ _) eqn:E; [|done].
    apply contains_at_lookup in E as (b & Hb & Hc). apply list_elem_of_lookup_2, Hno in Hb. congruence.
Qed.

(** ** Whole runs: no address is handed out twice *)

Inductive op :=
  | OpAdd (cidr start end_ : string)
  | OpAllocate (req : option (list Z))
  | OpPutBack (a : list Z).

(** the inputs the theorems are about: blocks that do not wrap around, well formed addresses *)
Definition op_ok (bits : Z) (o : op) : Prop :=
  match o with
  | OpAdd c s e => ∀ b, NewBlock c s e = Ok b → addressable b ∧ b_bits b = bits
  | OpAllocate (Some a) => valid_ip a
  | OpAllocate None => True
  | OpPutBack a => valid_ip a
  end.

(** the state after the operation, and the address it handed out *)
Definition run_op (o : op) (m : IPAddressManager) : outcome (IPAddressManager * option (list Z)) :=
  match o with
  | OpAdd c s e => '(m, _) ← AddAddressBlock c s e m; Ret (m, None)
  | OpAllocate req =>
    '(m, r) ← AllocateM req m; Ret (m, if r is Ok (a, _) then Some a else None)
  | OpPutBack a => m ← PutBackM a m; Ret (m, None)
  end.

(** the addresses handed out and not put back since, most recent first *)
Definition track (o : op) (g : option (list Z)) (out : list string) : list string :=
  match o, g with
  | OpPutBack a, _ => filter (λ s, s ≠ ip_string a) out
  | _, Some a => ip_string a :: out
  | _, None => out
  end.

Inductive reaches (bits : Z) : IPAddressManager → list string → Prop :=
  | reaches_new : reaches bits NewIPAddressManager []
  | reaches_op m out o m' g : reaches bits m out → op_ok bits o → run_op o m = Ret (m', g) →
      reaches bits m' (track o g out).

Definition family (bits : Z) (m : IPAddressManager) : Prop := Forall (λ b, b_bits b = bits) (m_blocks m).

(** the addresses the blocks hold as allocated *)
Definition held (m : IPAddressManager) (s : string) : Prop :=
  ∃ b, b ∈ m_blocks m ∧ s ∈ b_allocated b.

Lemma held_block bits m i b x : mgr_inv m → family bits m → m_blocks m !! i = Some b → in_block b x →
  held m (key b x) → used b x.
Proof.
  intros Hm Hf Hb Hx (c & Hc & Hs). apply list_elem_of_lookup_1 in Hc as [j Hc].
  destruct (mgr_inv_block m j c Hm Hc) as (Hac & _ & Hkeys). destruct (Hkeys _ Hs) as (y & Hy & E).
  destruct (mgr_inv_block m i b Hm Hb) as (Hab & _).
  assert (b_bits b = b_bits c) as Hbits.
  { pose proof (Forall_lookup_1 _ _ _ _ Hf Hb) as H1. pose proof (Forall_lookup_1 _ _ _ _ Hf Hc) as H2.
    cbn in *. congruence. }
  assert (x = y) as <-.
  { eapply (key_inj c); [apply Hac| |by apply in_block_range|].
    - rewrite <-Hbits. by apply in_block_range.
    - unfold key in *. by rewrite <-Hbits at 1. }
  assert (i = j) as <- by (by eapply blocks_disjoint). by simplify_eq.
Qed.

Lemma held_update m i b b' : m_blocks m !! i = Some b →
  ∀ s, held (set_blocks (<[i:=b']> (m_blocks m)) m) s → s ∈ b_allocated b' ∨ held m s.
Proof.
  intros Hb s (c & Hc & Hs). cbn in Hc. apply list_elem_of_lookup_1 in Hc as [j Hj].
  apply list_lookup_insert_Some in Hj as [(<- & <- & _)|[_ Hj] ]; [by left|].
  right. exists c. split; [by eapply list_elem_of_lookup_2|done].
Qed.

Lemma held_update_2 m i b b' : m_blocks m !! i = Some b → b_allocated b ⊆ b_allocated b' →
  ∀ s, held m s ∨ s ∈ b_allocated b' → held (set_blocks (<[i:=b']> (m_blocks m)) m) s.
Proof.
  intros Hb Hsub s. assert (b' ∈ <[i:=b']> (m_blocks m)) as Hin.
  { apply list_elem_of_lookup. exists i. apply list_lookup_insert_eq. by eapply lookup_lt_Some. }
  intros [(c & Hc & Hs)|Hs]; [|by exists b'].
  apply list_elem_of_lookup_1 in Hc as [j Hj]. destruct (decide (i = j)) as [->|Hne].
  - exists b'. simplify_eq. split; [done|]. by apply Hsub.
  - exists c. split; [|done]. apply list_elem_of_lookup. exists j. cbn. by rewrite list_lookup_insert_ne.
Qed.

Lemma family_update bits m i b b' : family bits m → m_blocks m !! i = Some b → same_range b b' →
  family bits (set_blocks (<[i:=b']> (m_blocks m)) m).
Proof.
  intros Hf Hb (_ & _ & _ & Hr). unfold family. cbn. apply Forall_insert; [done|].
  rewrite Hr. exact (Forall_lookup_1 _ _ _ _ Hf Hb).
Qed.

(** What one allocation did to the manager, whichever the path. *)
Definition granted (m : IPAddressManager) (a : list Z) (m' : IPAddressManager) : Prop :=
  ∃ i b b' x, m_blocks m !! i = Some b ∧ in_block b x ∧ ip_string a = key b x ∧ ¬ used b x ∧
    allocated_one b x b' ∧ m_blocks m' = <[i:=b']> (m_blocks m).

Lemma block_allocate_req m i b a : mgr_inv m → valid_ip a → m_blocks m !! i = Some b →
  (∃ e, block_allocate i (Some a) m = Ret (m, Err e)) ∨
  (∃ x b', block_allocate i (Some a) m = Ret (set_blocks (<[i:=b']> (m_blocks m)) m, Ok (a, b_Mask b)) ∧
     in_block b x ∧ ip_string a = key b x ∧ ¬ used b x ∧ allocated_one b x b').
Proof.
  intros Hm Hv Hl. unfold block_allocate. rewrite Hl.
  destruct (allocate_requested_spec b a (mgr_inv_block m i b Hm Hl) Hv)
    as [(_ & ->)|[(_ & _ & ->)|(H1 & H2 & H3 & b' & -> & H4)] ].
  - left. eexists. cbn. by rewrite set_blocks_id.
  - left. eexists. cbn. by rewrite set_blocks_id.
  - right. eexists _, b'. done.
Qed.

Lemma allocateM_cases m req m' r : mgr_inv m → (∀ a, req = Some a → valid_ip a) →
  AllocateM req m = Ret (m', r) →
  mgr_inv m' ∧ match r with Ok (a, _) => granted m a m' | Err _ => m_blocks m' = m_blocks m end.
Proof.
  intros Hm Hreq E. destruct (m_locked m) eqn:Hu; [unfold AllocateM, with_lock in E; by rewrite Hu in E|].
  destruct req as [a|].
  - unfold AllocateM, with_lock in E. rewrite Hu in E.
    set (idx := sort_Search _ _) in E. destruct (m_blocks m !! idx) as [b|] eqn:Hb.
    2:{ unfold block_allocate in E. by rewrite Hb in E. }
    destruct (block_allocate_req m idx b a Hm (Hreq a eq_refl) Hb) as [[e E']|(x & b' & E' & H1 & H2 & H3 & H4)];
      rewrite E' in E; cbn in E; injection E as <- <-.
    + done.
    + split; [eapply mgr_inv_update; [done..|apply H4|apply H4]|]. exists idx, b, b', x. done.
  - destruct (decide (m_blocks m = [])) as [Hnil|Hne].
    { unfold AllocateM, with_lock, block_allocate in E. rewrite Hu, Hnil in E. done. }
    pose proof Hm as (_ & _ & _ & [Hi|[? _] ]); [|done].
    pose proof (allocateM_none m Hm Hne Hu) as H. rewrite E in H.
    destruct H as [(i & b & x & b' & (_ & Hb & Hx & _) & Hone & [= -> ->])|(_ & [= -> ->])].
    + split.
      * apply mgr_inv_index; [eapply mgr_inv_update; [done..|apply Hone|apply Hone]|].
        cbn. rewrite length_insert. by eapply lookup_lt_Some.
      * exists i, b, b', x. split; [done|]. split; [apply Hx|]. split; [done|]. split; [apply Hx|]. done.
    + split; [|done]. apply mgr_inv_index; [done|lia].
Qed.

Lemma To4_4 p : length p = 4%nat → To4 p = Some p.
Proof. intros Hp. unfold To4. by rewrite decide_True. Qed.

Lemma normFunc_To16 bits a c : valid_ip a → valid_ip c → To16 a = To16 c → normFunc bits a = normFunc bits c.
Proof.
  intros Ha Hc E. unfold normFunc. destruct (bits =? ipv6Bits); [by rewrite E|]. f_equal.
  destruct (decide (length a = length c)) as [Hl|Hl]; [f_equal; by apply To16_inj|].
  destruct Ha as [ [Ha|Ha] _], Hc as [ [Hc|Hc] _]; unfold IPv4len, IPv6len in *; try congruence.
  - rewrite (To16_4 a), (To16_16 c) in E by done. injection E as <-.
    rewrite (To4_4 a) by done. symmetry. by apply To4_IPv4.
  - rewrite (To16_16 a), (To16_4 c) in E by done. injection E as ->.
    rewrite (To4_4 c) by done. by apply To4_IPv4.
Qed.

(** An address is found in the block that holds its text. *)
Lemma held_in_block b a : block_inv b → valid_ip a → ip_string a ∈ b_allocated b →
  in_block b (SetBytes (normalize b a)) ∧ used b (SetBytes (normalize b a)).
Proof.
  intros (Ha & _ & Hs) Hv Hin. destruct (Hs _ Hin) as (y & Hy & E).
  pose proof (in_block_range b y Ha Hy) as Hr.
  destruct (intToIP_valid y (b_bits b)) as [Hvy _]; [apply Ha|lia|].
  assert (SetBytes (normalize b a) = y) as ->; [|split; [done|unfold used; congruence] ].
  unfold key in E. rewrite ip_string_inj in E by done.
  unfold normalize. rewrite (normFunc_To16 _ a (intToIP y (b_bits b))) by done.
  rewrite normFunc_intToIP by (apply Ha || lia). apply SetBytes_intToIP; [apply Ha|done].
Qed.

Lemma putback_go_spec a i bs r : Forall block_inv bs → valid_ip a → putback_go a i bs = Ret r →
  match r with
  | None => ∀ b, b ∈ bs → ip_string a ∉ b_allocated b
  | Some (j, b') => ∃ k b x, j = (i + k)%nat ∧ bs !! k = Some b ∧ in_block b x ∧ used b x ∧
                      ip_string a = key b x ∧ freed_one b x b'
  end.
Proof.
  intros Hinv Hv. revert i; induction Hinv as [|b bs Hb Hinv IH]; intros i.
  { cbn. intros [= <-]. set_solver. }
  cbn [putback_go]. destruct (putback_spec b a Hb Hv) as [(Hno & ->)|[(Hx & Hu & _ & b' & -> & Hf)|(_ & _ & _ & ->)] ]; cbn.
  - intros E. specialize (IH _ E). destruct r as [[j b']|].
    + destruct IH as (k & c & x & -> & Hc & H). exists (S k), c, x. split; [lia|]. done.
    + intros c Hc. apply elem_of_cons in Hc as [->|Hc]; [|by apply IH].
      intros Hin. apply Hno. by apply held_in_block.
  - intros [= <-]. eexists O, b, _. split; [lia|]. split; [done|]. split; [done|].
    split; [done|]. split; [|done]. apply in_block_number; [apply Hb|done..].
  - done.
Qed.

(** A text is held by one block only. *)
Lemma held_once bits m i j b c s : mgr_inv m → family bits m →
  m_blocks m !! i = Some b → m_blocks m !! j = Some c → s ∈ b_allocated b → s ∈ b_allocated c → i = j.
Proof.
  intros Hm Hf Hb Hc Hsb Hsc. destruct (mgr_inv_block m i b Hm Hb) as (Hab & _ & Hkb).
  destruct (Hkb _ Hsb) as (y & Hy & E).
  destruct (mgr_inv_block m j c Hm Hc) as (Hac & _ & Hkc). destruct (Hkc _ Hsc) as (z & Hz & E').
  pose proof (Forall_lookup_1 _ _ _ _ Hf Hb) as H1. pose proof (Forall_lookup_1 _ _ _ _ Hf Hc) as H2.
  cbn in H1, H2. pose proof (in_block_range b y Hab Hy). pose proof (in_block_range c z Hac Hz).
  assert (y = z) as <-; [|by eapply blocks_disjoint].
  apply (key_inj b); [apply Hab|done|congruence|]. unfold key in *. congruence.
Qed.

Lemma putback_held bits m k b b' x a : mgr_inv m → family bits m → m_blocks m !! k = Some b →
  in_block b x → used b x → ip_string a = key b x → freed_one b x b' →
  ∀ s, held (set_blocks (<[k:=b']> (m_blocks m)) m) s ↔ held m s ∧ s ≠ ip_string a.
Proof.
  intros Hm Hf Hb Hx Hu Hkey (_ & _ & Hal & _) s. split.
  - intros (c & Hc & Hin). apply list_elem_of_lookup_1 in Hc as [j Hj].
    apply list_lookup_insert_Some in Hj as [(<- & <- & _)|[Hne Hj] ].
    + rewrite Hal in Hin. apply elem_of_difference in Hin as [H1 H2]. split; [|set_solver].
      exists b. split; [by eapply list_elem_of_lookup_2|done].
    + split; [exists c; split; [by eapply list_elem_of_lookup_2|done]|].
      intros ->. apply Hne. eapply (held_once bits m k j b c); [done..| |done]. by rewrite Hkey.
  - intros [(c & Hc & Hs) Hne]. apply list_elem_of_lookup_1 in Hc as [j Hj].
    destruct (decide (k = j)) as [->|Hkj].
    + simplify_eq. exists b'. split; [|rewrite Hal, <-Hkey; set_solver].
      apply list_elem_of_lookup. exists j. apply list_lookup_insert_eq. by eapply lookup_lt_Some.
    + exists c. split; [|done]. apply list_elem_of_lookup. exists j. cbn. by rewrite list_lookup_insert_ne.
Qed.

Lemma putbackM_spec bits m a m' : mgr_inv m → family bits m → valid_ip a → PutBackM a m = Ret m' →
  mgr_inv m' ∧ family bits m' ∧ ∀ s, held m' s ↔ held m s ∧ s ≠ ip_string a.
Proof.
  intros Hm Hf Hv. unfold PutBackM, with_lock. destruct (m_locked m); [done|].
  destruct (putback_go a 0 (m_blocks m)) as [r| |] eqn:E; [|done..].
  cbv [mbind outcome_bind]. apply putback_go_spec in E; [|apply Hm|done]. destruct r as [ [i b']|].
  - destruct E as (k & b & x & -> & Hb & Hx & Hu & Hkey & Hfr). rewrite Nat.add_0_l.
    pose proof (putback_held bits m k b b' x a Hm Hf Hb Hx Hu Hkey Hfr) as Hh.
    destruct Hfr as (Hr & Hinv & _). cbv zeta. set (m1 := set_blocks _ m) in *.
    assert (mgr_inv m1) as Hm1 by by eapply mgr_inv_update.
    assert (family bits m1) as Hf1 by by eapply family_update.
    intros [= <-]. destruct (_ <? _)%nat; [|done].
    split; [|done]. apply mgr_inv_index; [done|]. cbn. rewrite length_insert. by eapply lookup_lt_Some.
  - intros [= <-]. split; [done|]. split; [done|]. intros s. split; [|by intros [? _] ].
    intros Hs. split; [done|]. intros ->. destruct Hs as (b & Hb & Hin). by eapply E.
Qed.

Lemma granted_spec bits m a m' : mgr_inv m → family bits m → granted m a m' →
  family bits m' ∧ ¬ held m (ip_string a) ∧ ∀ s, held m' s ↔ s = ip_string a ∨ held m s.
Proof.
  intros Hm Hf (i & b & b' & x & Hb & Hx & Hkey & Hu & (Hr & Hinv & Hal & _) & E).
  assert (∀ s, held m' s ↔ held (set_blocks (<[i:=b']> (m_blocks m)) m) s) as Hh
    by (intros s; unfold held; by rewrite E).
  split; [|split].
  - unfold family. rewrite E. by apply (family_update bits m i b b').
  - rewrite Hkey. intros Hs. apply Hu. by eapply held_block.
  - intros s. rewrite Hh. split.
    + intros Hs. apply (held_update m i b b' Hb) in Hs as [Hs|Hs]; [|by right].
      rewrite Hal in Hs. apply elem_of_union in Hs as [Hs|Hs]; [left; set_solver|right].
      exists b. split; [by eapply list_elem_of_lookup_2|done].
    + intros Hs. apply (held_update_2 m i b b' Hb); [rewrite Hal; set_solver|].
      destruct Hs as [->|Hs]; [right; rewrite Hal, Hkey; set_solver|by left].
Qed.

Lemma add_spec bits c s e m m' r : mgr_inv m → family bits m → op_ok bits (OpAdd c s e) →
  AddAddressBlock c s e m = Ret (m', r) →
  mgr_inv m' ∧ family bits m' ∧ ∀ t, held m' t ↔ held m t.
Proof.
  intros Hm Hf Hok. unfold AddAddressBlock. destruct (NewBlock c s e) as [b|err] eqn:En; [|by intros [= <- <-] ].
  destruct (Hok b En) as [Ha Hbits]. destruct (NewBlock_fresh c s e b En) as (_ & Hle & Hnx & Hal).
  unfold with_lock. destruct (m_locked m); [done|]. destruct (existsb _ _) eqn:Hov; intros [= <- <-]; [done|].
  split; [apply add_block_inv; [done|by apply fresh_inv|done|done]|].
  assert (merge_sort start_le (m_blocks m ++ [b]) ≡ₚ m_blocks m ++ [b]) as Hp by apply merge_sort_Permutation.
  split.
  - unfold family. cbn. rewrite Hp. apply Forall_app. split; [done|by apply Forall_singleton].
  - intros t. unfold held. cbn. split; intros (x & Hx & Ht); exists x; (split; [|done]).
    + rewrite Hp in Hx. apply elem_of_app in Hx as [Hx|Hx]; [done|].
      apply list_elem_of_singleton in Hx as ->. rewrite Hal in Ht. set_solver.
    + rewrite Hp. apply elem_of_app. by left.
Qed.

Lemma reaches_inv bits m out : reaches bits m out →
  mgr_inv m ∧ family bits m ∧ NoDup out ∧ ∀ s, s ∈ out ↔ held m s.
Proof.
  induction 1 as [|m out o m' g Hr (Hm & Hf & Hnd & Hout) Hok E].
  - split; [|split; [constructor|split; [constructor|] ] ].
    + split; [constructor|]. split; [constructor|]. split; [constructor|]. by right.
    + intros s. split; [set_solver|]. intros (b & Hb & _). set_solver.
  - destruct o as [c s e|req|a]; cbn in E.
    + destruct (AddAddressBlock c s e m) as [[m1 r]| |] eqn:E1; [|done..]. injection E as <- <-.
      destruct (add_spec bits c s e m m1 r Hm Hf Hok E1) as (? & ? & Hh). cbn.
      split; [done|]. split; [done|]. split; [done|]. intros t. by rewrite Hh.
    + destruct (AllocateM req m) as [[m1 r]| |] eqn:E1; [|done..]. injection E as <- <-.
      apply allocateM_cases in E1 as [Hm1 Hr1]; [|done|by intros a ->]. destruct r as [[a mask]|err]; cbn.
      * destruct (granted_spec bits m a m1 Hm Hf Hr1) as (Hf1 & Hnh & Hh).
        split; [done|]. split; [done|]. split; [constructor; [by rewrite Hout|done]|].
        intros s. rewrite elem_of_cons, Hout. symmetry. apply Hh.
      * split; [done|]. split; [unfold family; by rewrite Hr1|]. split; [done|].
        intros s. rewrite Hout. unfold held. by rewrite Hr1.
    + destruct (PutBackM a m) as [m1| |] eqn:E1; [|done..]. injection E as <- <-.
      destruct (putbackM_spec bits m a m1 Hm Hf Hok E1) as (? & ? & Hh). cbn.
      split; [done|]. split; [done|]. split; [by apply NoDup_filter|].
      intros s. rewrite list_elem_of_filter, Hout, Hh. tauto.
Qed.

(** C1: in every state a new manager reaches through any sequence of AddAddressBlock, Allocate and
    PutBack calls, on condition that the blocks added are of one address family, do not wrap around and, on
    IPv6, hold no IPv4 address, and that the addresses asked for are well formed,
    the addresses handed out and not put back since are pairwise distinct, whatever their textual
    or 4/16 byte form, and they are exactly the ones the blocks hold as allocated; the blocks stay
    sorted, disjoint and well formed. *)
Theorem no_double_allocation (bits : Z) (m : IPAddressManager) (out : list string)
    (Hr : reaches bits m out) :
  NoDup out ∧ (∀ s, s ∈ out ↔ held m s) ∧ mgr_inv m.
Proof. destruct (reaches_inv bits m out Hr) as (? & ? & ? & ?). done. Qed.

End IPAddressManager.

(** ** Concrete runs *)

Module Examples.
Import Block IPAddressManager.

(** the block 10.0.0.0/30: two host addresses *)
Definition block30 : Block :=
  {| b_Start := 167772161; b_End := 167772162; b_Mask := [255; 255; 255; 252];
     b_bits := 32; b_next := Some 167772161; b_allocated := ∅ |}.
Definition block30_used : Block :=
  {| b_Start := 167772161; b_End := 167772162; b_Mask := [255; 255; 255; 252];
     b_bits := 32; b_next := Some 167772162; b_allocated := {["10.0.0.1"]} |}.

Example NewBlock_30 : NewBlock "10.0.0.0/30" "" "" = Ok block30.
Proof. vm_compute. reflexivity. Qed.

Lemma block30_addressable : addressable block30.
Proof. split; [by left|]. cbn. split; [lia|]. split; [lia|done]. Qed.
Lemma block30_inv : block_inv block30.
Proof. apply fresh_inv; [apply block30_addressable|cbn; lia|done|done]. Qed.
Lemma block30_used_inv : block_inv block30_used.
Proof.
  destruct (allocate_none_some block30 167772161 block30_inv eq_refl) as (b' & E & _ & (_ & H & _)).
  vm_compute in E. injection E as <-. exact H.
Qed.
Lemma v4_valid a b c d : forallb (λ x, (0 <=? x) && (x <? 256)) [a; b; c; d] = true → valid_ip [a; b; c; d].
Proof.
  intros H. split; [by left|]. apply Forall_forall. intros x Hx. apply list_elem_of_In in Hx.
  rewrite forallb_forall in H. specialize (H x Hx). unfold is_byte. lia.
Qed.

Lemma Allocate_next_correct_witness :
  (∃ x b', Allocate None block30 = Ret (b', Ok (intToIP x (b_bits block30), b_Mask block30)) ∧
     least_free block30 x ∧ allocated_one block30 x b') ∨
  (Allocate None block30 = Ret (block30, Err "no ip available") ∧ ∀ x, in_block block30 x → used block30 x).
Proof. exact (Allocate_next_correct block30 block30_inv). Defined.

Lemma Allocate_requested_correct_witness :
  let x := SetBytes (normalize block30_used [10; 0; 0; 2]) in
  (¬ in_block block30_used x ∧ Allocate (Some [10; 0; 0; 2]) block30_used =
     Ret (block30_used, Err "ip request not in this block")) ∨
  (in_block block30_used x ∧ used block30_used x ∧ Allocate (Some [10; 0; 0; 2]) block30_used =
     Ret (block30_used, Err "requested ip already used")) ∨
  (in_block block30_used x ∧ ¬ used block30_used x ∧ ip_string [10; 0; 0; 2] = key block30_used x ∧
     ∃ b', Allocate (Some [10; 0; 0; 2]) block30_used = Ret (b', Ok ([10; 0; 0; 2], b_Mask block30_used)) ∧
       allocated_one block30_used x b').
Proof. apply Allocate_requested_correct; [exact block30_used_inv|by apply v4_valid]. Defined.

Lemma PutBack_correct_witness :
  let x := SetBytes (normalize block30_used [10; 0; 0; 1]) in
  (¬ (in_block block30_used x ∧ used block30_used x) ∧ PutBack [10; 0; 0; 1] block30_used = Ret (block30_used, false)) ∨
  (in_block block30_used x ∧ used block30_used x ∧ is_Some (b_next block30_used) ∧
     ∃ b', PutBack [10; 0; 0; 1] block30_used = Ret (b', true) ∧ freed_one block30_used x b') ∨
  (in_block block30_used x ∧ used block30_used x ∧ b_next block30_used = None ∧
     PutBack [10; 0; 0; 1] block30_used = Panic "nil pointer dereference").
Proof. apply PutBack_correct; [exact block30_used_inv|by apply v4_valid]. Defined.

(** An exhausted block does not take addresses back: both addresses allocated, the first returned. *)
Example PutBack_exhausted :
  ('(b, _) ← Allocate None block30_used; PutBack [10; 0; 0; 1] b) = Panic "nil pointer dereference".
Proof. vm_compute. reflexivity. Qed.

(** The last address of all wraps around: the block 255.255.255.255/32 hands out 0.0.0.0 next. *)
Example Allocate_wraps :
  match NewBlock "255.255.255.255/32" "" "" with
  | Ok b => '(b, r1) ← Allocate None b; '(b, r2) ← Allocate None b; Ret (r1, r2)
  | Err e => Panic e
  end = Ret (Ok ([255; 255; 255; 255], [255; 255; 255; 255]), Ok ([0; 0; 0; 0], [255; 255; 255; 255])).
Proof. vm_compute. reflexivity. Qed.

Definition manager30 : IPAddressManager :=
  {| m_blocks := [block30]; m_blockIndex := 0; m_locked := false |}.

Lemma manager30_inv : mgr_inv manager30.
Proof.
  split; [apply Forall_singleton, block30_inv|]. split; [by apply Forall_singleton|].
  split; [by repeat constructor|]. left. cbn. lia.
Qed.

Lemma Allocate_sequence_correct_witness : next_result 0 manager30 (AllocateM None manager30).
Proof. exact (Allocate_sequence_correct manager30 manager30_inv ltac:(done) eq_refl). Defined.

Lemma Allocate_unmanaged_panics_witness :
  AllocateM (Some [11; 0; 0; 1]) manager30 = Panic "index out of range".
Proof.
  apply Allocate_unmanaged_panics; [done|].
  intros b Hb. apply list_elem_of_singleton in Hb as ->. vm_compute. reflexivity.
Defined.

(** The same happens to an address of the first of two blocks: the search starts at the second. *)
Example Allocate_first_of_two :
  ('(m, _) ← AddAddressBlock "10.0.0.0/30" "" "" NewIPAddressManager;
   '(m, _) ← AddAddressBlock "10.0.1.0/30" "" "" m;
   AllocateM (Some [10; 0; 0; 1]) m) = Panic "index out of range".
Proof. vm_compute. reflexivity. Qed.

(** A block added below the current one is never used. *)
Example Allocate_lower_block :
  ('(m, _) ← AddAddressBlock "10.0.1.0/32" "" "" NewIPAddressManager;
   '(m, _) ← AddAddressBlock "10.0.2.0/32" "" "" m;
   '(m, _) ← AllocateM None m; '(m, _) ← AllocateM None m;
   '(m, _) ← AddAddressBlock "10.0.0.0/32" "" "" m;
   '(m, r) ← AllocateM None m; Ret r) = Ret (Err "no ip address available").
Proof. vm_compute. reflexivity. Qed.

(** Without the conditions on the blocks addresses are handed out twice: an IPv4 block written as one of IPv6 does not overlap with the
    block of IPv4, as their numbers differ, but their addresses have the same text. *)
Example mapped_block_hands_out_twice :
  ('(m, r1) ← AddAddressBlock "10.0.0.0/30" "" "" NewIPAddressManager;
   '(m, r2) ← AddAddressBlock "::ffff:10.0.0.0/126" "" "" m;
   '(m, a) ← AllocateM None m; '(m, b) ← AllocateM None m; '(m, c) ← AllocateM None m;
   Ret (r1, r2, (λ r, match r with Ok (ip, _) => ip_string ip | Err e => e end) <$> [a; b; c])) =
  Ret (Ok tt, Ok tt, ["10.0.0.1"; "10.0.0.2"; "10.0.0.1"]).
Proof. vm_compute. reflexivity. Qed.

(** After Check every operation blocks. *)
Example Check_blocks :
  (m ← CheckM "10.0.0.1" manager30; AllocateM None m) = Diverge.
Proof. reflexivity. Qed.

Lemma no_double_allocation_witness :
  NoDup ["10.0.0.1"] ∧
  (∀ s, s ∈ ["10.0.0.1"] ↔ held {| m_blocks := [block30_used]; m_blockIndex := 0; m_locked := false |} s) ∧
  mgr_inv {| m_blocks := [block30_used]; m_blockIndex := 0; m_locked := false |}.
Proof.
  apply (no_double_allocation 32).
  apply (reaches_op 32 manager30 [] (OpAllocate None) _ (Some [10; 0; 0; 1]));
    [|exact I|vm_compute; reflexivity].
  apply (reaches_op 32 NewIPAddressManager [] (OpAdd "10.0.0.0/30" "" "") _ None);
    [constructor| |vm_compute; reflexivity].
  intros b E. vm_compute in E. injection E as <-. split; [exact block30_addressable|done].
Defined.

End Examples.
