(* ===== verification/Caches.v ===== *)
(** * The caches: pods, metrics and node status

    src/pkg/util/cache/pod_cache.go ([PodCache]), src/pkg/util/cache/metrics_cache.go ([MetricsCache])
    and src/pkg/virtualnode/node_cache.go ([NodeCache]). The mutexes (and the spin lock of the node
    cache) make every operation one step; the deep copies make the cached objects values. *)
From S2P Require Import Prelude K8s Api.
Open Scope Z_scope.

Module PodCache.

(** types.NamespacedName *)
Definition pod_key (p : Pod) : string * string := (pod_Namespace p, pod_Name p).

Record PodCache := {
  uidIndex : gmap string Pod;
  nameIndex : gmap (string * string) Pod;
  remoteDeleted : gset string
}.

Definition NewPodCache : PodCache := {| uidIndex := ∅; nameIndex := ∅; remoteDeleted := ∅ |}.

Definition MarkDeletedInRemote (podUID : string) (deleted : bool) (c : PodCache) : PodCache :=
  {| uidIndex := uidIndex c; nameIndex := nameIndex c;
     remoteDeleted := if deleted then {[podUID]} ∪ remoteDeleted c else remoteDeleted c ∖ {[podUID]} |}.

Definition IsDeletedInRemote (podUID : string) (c : PodCache) : bool := bool_decide (podUID ∈ remoteDeleted c).

Definition Update (pod : Pod) (c : PodCache) : PodCache :=
  {| uidIndex := <[pod_UID pod := pod]> (uidIndex c); nameIndex := <[pod_key pod := pod]> (nameIndex c);
     remoteDeleted := remoteDeleted c |}.

(** The order is the one of Go's map iteration, which is not specified. *)
Definition GetAll (c : PodCache) : list Pod := (map_to_list (uidIndex c)).*2.

Definition GetByID (podUID : string) (c : PodCache) : option Pod := uidIndex c !! podUID.
Definition GetByName (namespace name : string) (c : PodCache) : option Pod := nameIndex c !! (namespace, name).

Definition Delete (podUID : string) (c : PodCache) : PodCache :=
  {| uidIndex := delete podUID (uidIndex c);
     nameIndex := match uidIndex c !! podUID with
                  | Some pod => delete (pod_key pod) (nameIndex c)
                  | None => nameIndex c
                  end;
     remoteDeleted := remoteDeleted c ∖ {[podUID]} |}.

Definition Cleanup (c : PodCache) : PodCache :=
  let all := map_to_list (uidIndex c) in
  {| uidIndex := foldl (λ m e, delete e.1 m) (uidIndex c) all;
     nameIndex := foldl (λ m e, delete (pod_key e.2) m) (nameIndex c) all;
     remoteDeleted := remoteDeleted c |}.

(** The operations that change the cache. *)
Inductive op :=
  | OMark (podUID : string) (deleted : bool)
  | OUpdate (pod : Pod)
  | ODelete (podUID : string)
  | OCleanup.
Definition step (o : op) (c : PodCache) : PodCache :=
  match o with
  | OMark u d => MarkDeletedInRemote u d c
  | OUpdate p => Update p c
  | ODelete u => Delete u c
  | OCleanup => Cleanup c
  end.

(** What the two indices promise: each files the pods the other one files, under their own keys. *)
Definition indexed (c : PodCache) : Prop :=
  (∀ u p, uidIndex c !! u = Some p → pod_UID p = u ∧ nameIndex c !! pod_key p = Some p) ∧
  (∀ k p, nameIndex c !! k = Some p → pod_key p = k ∧ uidIndex c !! pod_UID p = Some p).

(** The pod of an update replaces the cached pod of its uid, which has its name, and no other pod
    in the cache has that name. *)
Definition fits (c : PodCache) (o : op) : Prop :=
  if o is OUpdate p then ∀ u q, uidIndex c !! u = Some q → (pod_key q = pod_key p ↔ u = pod_UID p) else True.

(** Histories of operations that fit. *)
Inductive history : list op → PodCache → Prop :=
  | history_nil : history [] NewPodCache
  | history_step ops c o : history ops c → fits c o → history (ops ++ [o]) (step o c).

(** The abstract cache: the pods by uid. *)
Definition abs_step (o : op) (m : gmap string Pod) : gmap string Pod :=
  match o with
  | OMark _ _ => m
  | OUpdate p => <[pod_UID p := p]> m
  | ODelete u => delete u m
  | OCleanup => ∅
  end.
Definition abs (ops : list op) : gmap string Pod := foldl (λ m o, abs_step o m) ∅ ops.

Lemma foldl_delete_lookup `{Countable K} {A B} (f : B → K) (l : list B) (m : gmap K A) k x :
  foldl (λ m b, delete (f b) m) m l !! k = Some x ↔ m !! k = Some x ∧ k ∉ f <$> l.
Proof.
  revert m. induction l as [|b l IH]; intros m; cbn.
  - set_solver.
  - rewrite IH, lookup_delete_Some, not_elem_of_cons. naive_solver.
Qed.

Lemma Cleanup_uidIndex c : uidIndex (Cleanup c) = ∅.
Proof.
  apply map_empty. intros u. cbn. apply eq_None_not_Some. intros [p Hp].
  apply foldl_delete_lookup in Hp as [Hp Hn]. apply Hn.
  apply list_elem_of_fmap. exists (u, p). split; [done|]. by apply elem_of_map_to_list.
Qed.

Lemma Cleanup_nameIndex c k p :
  nameIndex (Cleanup c) !! k = Some p ↔
  nameIndex c !! k = Some p ∧ ∀ u q, uidIndex c !! u = Some q → pod_key q ≠ k.
Proof.
  cbn. rewrite foldl_delete_lookup. apply and_iff_compat_l. rewrite list_elem_of_fmap. split.
  - intros Hn u q Hq Hk. apply Hn. exists (u, q). split; [done|]. by apply elem_of_map_to_list.
  - intros Hn ([u q] & Hk & Hq). apply elem_of_map_to_list in Hq. by apply (Hn u q Hq).
Qed.

Lemma indexed_new : indexed NewPodCache.
Proof. split; intros ??; cbn; by rewrite lookup_empty. Qed.

Lemma indexed_Update c p : fits c (OUpdate p) → indexed c → indexed (Update p c).
Proof.
  intros Hf [H1 H2]. split; cbn.
  - intros u q [ [<- <-]|[Hu Hq] ]%lookup_insert_Some; [by rewrite lookup_insert_eq|].
    destruct (H1 u q Hq) as [Hid Hn]. split; [done|].
    rewrite lookup_insert_ne; [done|]. intros Hk. apply Hu. symmetry. by apply (Hf u q).
  - intros k q [ [<- <-]|[Hk Hq] ]%lookup_insert_Some; [by rewrite lookup_insert_eq|].
    destruct (H2 k q Hq) as [Hid Hn]. split; [done|].
    rewrite lookup_insert_ne; [done|]. intros Hu. apply Hk. rewrite <-Hid. symmetry. by apply (Hf _ q Hn).
Qed.

Lemma indexed_Delete c u : indexed c → indexed (Delete u c).
Proof.
  intros [H1 H2]. destruct (uidIndex c !! u) as [p|] eqn:Hp; unfold Delete; rewrite ?Hp; split; cbn.
  - intros v q [Hv Hq]%lookup_delete_Some. destruct (H1 v q Hq) as [Hid Hn]. split; [done|].
    apply lookup_delete_Some. split; [|done]. intros Hk. apply H1 in Hp as [Hpu Hpn]. congruence.
  - intros k q [Hk Hq]%lookup_delete_Some. destruct (H2 k q Hq) as [Hid Hn]. split; [done|].
    apply lookup_delete_Some. split; [|done]. intros ->. congruence.
  - intros v q [Hv Hq]%lookup_delete_Some. eauto.
  - intros k q Hq. destruct (H2 k q Hq) as [Hid Hn]. split; [done|].
    apply lookup_delete_Some. split; [|done]. intros ->. congruence.
Qed.

Lemma indexed_Cleanup c : indexed c → indexed (Cleanup c).
Proof.
  intros [H1 H2]. split.
  - intros u p. by rewrite Cleanup_uidIndex, lookup_empty.
  - intros k p [Hp Hn]%Cleanup_nameIndex. destruct (H2 k p Hp) as [Hk Hu]. by destruct (Hn _ _ Hu).
Qed.

Lemma history_indexed ops c : history ops c → indexed c.
Proof.
  induction 1 as [|ops c [u d|p|u|] Hh IH Hf]; [apply indexed_new| | | |]; cbn [step].
  - exact IH.
  - by apply indexed_Update.
  - by apply indexed_Delete.
  - by apply indexed_Cleanup.
Qed.

Lemma history_abs ops c : history ops c → uidIndex c = abs ops.
Proof.
  induction 1 as [|ops c o Hh IH Hf]; [done|]. unfold abs in *. rewrite foldl_app. cbn. rewrite <-IH.
  destruct o; [done..|apply Cleanup_uidIndex].
Qed.

(** C22: the pod cache refines a map from uid to pod. After any history of operations in which a name
    has one pod at a time, GetByID and GetAll answer from that map, GetByName finds exactly the pod
    of the map with that name, and there is at most one. *)
Theorem PodCache_refines ops c :
  history ops c →
  (∀ u, GetByID u c = abs ops !! u) ∧
  (∀ p, p ∈ GetAll c ↔ abs ops !! pod_UID p = Some p) ∧
  (∀ ns n p, GetByName ns n c = Some p ↔ abs ops !! pod_UID p = Some p ∧ pod_key p = (ns, n)) ∧
  (∀ u v p q, abs ops !! u = Some p → abs ops !! v = Some q → pod_key p = pod_key q → u = v).
Proof.
  intros Hh. destruct (history_indexed ops c Hh) as [H1 H2]. rewrite <-(history_abs ops c Hh).
  split_and!; [done| | |].
  - intros p. unfold GetAll. rewrite list_elem_of_fmap. split.
    + intros ([u q] & -> & Hq). apply elem_of_map_to_list in Hq. cbn. by destruct (H1 u q Hq) as [-> _].
    + intros Hp. exists (pod_UID p, p). split; [done|]. by apply elem_of_map_to_list.
  - intros ns n p. unfold GetByName. split; [intros Hp; by destruct (H2 _ p Hp)|].
    intros [Hp <-]. by apply H1 in Hp as [_ Hp].
  - intros u v p q Hp Hq Hk. apply H1 in Hp as [Hp Hpn], Hq as [Hq Hqn]. congruence.
Qed.

(** A pod created again under the name of one that is still cached is lost to GetByName when the
    old one is deleted from the cache, although GetByID still has it. *)
Lemma recreated_pod_lost c old new :
  pod_key new = pod_key old → pod_UID new ≠ pod_UID old →
  let c' := Delete (pod_UID old) (Update new (Update old c)) in
  GetByID (pod_UID new) c' = Some new ∧ GetByName (pod_Namespace new) (pod_Name new) c' = None.
Proof.
  intros Hk Hu c'. unfold c', GetByID, GetByName, Delete, Update. cbn.
  change (pod_Namespace new, pod_Name new) with (pod_key new).
  rewrite lookup_delete_ne, lookup_insert_eq by done. split; [done|].
  rewrite lookup_insert_ne, lookup_insert_eq by done. rewrite Hk. apply lookup_delete_eq.
Qed.

End PodCache.

Module MetricsCache.
Section MetricsCache.
(** dto.MetricFamily, zstd's DecodeAll and the delimited protobuf decoder (its state is the rest
    of the input). *)
Context (MetricFamily : Type) (DecodeAll : string → result string) (Decode : string → option (MetricFamily * string)).

Record MetricsCache := { mfs : list MetricFamily }.
Definition NewMetricsCache : MetricsCache := {| mfs := [] |}.

(** Any decoding error, the end of the input included, ends the loop. *)
Fixpoint decode_loop (fuel : nat) (data : string) : outcome (list MetricFamily) :=
  match Decode data with
  | None => Ret []
  | Some (mf, rest) =>
      match fuel with
      | O => Diverge
      | S fuel => r ← decode_loop fuel rest; Ret (mf :: r)
      end
  end.
Definition parseMetricsBytes (metricsBytes : string) : outcome (result (list MetricFamily)) :=
  match DecodeAll metricsBytes with
  | Err e => Ret (Err e)
  | Ok data => l ← decode_loop (String.length data) data; Ret (Ok l)
  end.

Definition Update (metricsBytes : string) (c : MetricsCache) : outcome (MetricsCache * option string) :=
  r ← parseMetricsBytes metricsBytes;
  Ret match r with
      | Err e => (c, Some e)
      | Ok [] => ({| mfs := [] |}, None)
      | Ok l => ({| mfs := mfs c ++ l |}, None)
      end.

Definition Get (c : MetricsCache) : list MetricFamily * MetricsCache := (mfs c, {| mfs := [] |}).

(** A decoder that consumes input for every family it returns. *)
Context (Hdecode : ∀ data mf rest, Decode data = Some (mf, rest) → (String.length rest < String.length data)%nat).

Lemma decode_loop_total fuel data :
  (String.length data ≤ fuel)%nat → ∃ l, decode_loop fuel data = Ret l.
Proof using Hdecode.
  revert data. induction fuel as [|fuel IH]; intros data Hl; cbn;
    destruct (Decode data) as [ [mf rest]|] eqn:Hd; try (by eexists); apply Hdecode in Hd; [lia|].
  destruct (IH rest) as [l ->]; [lia|]. by eexists.
Qed.

Lemma Update_total b c : ∃ c' e, Update b c = Ret (c', e).
Proof using Hdecode.
  unfold Update, parseMetricsBytes. destruct (DecodeAll b) as [data|e]; cbn; [|by eauto].
  destruct (decode_loop_total (String.length data) data) as [l ->]; [lia|]. cbn. destruct l; eauto.
Qed.

(** What a report adds: nothing when it cannot be decompressed; an empty report drops the families
    collected before it. *)
Definition collect (acc : list MetricFamily) (b : string) : list MetricFamily :=
  match parseMetricsBytes b with
  | Ret (Ok []) => []
  | Ret (Ok l) => acc ++ l
  | _ => acc
  end.
Definition updates (bs : list string) (c : MetricsCache) : outcome MetricsCache :=
  foldl (λ o b, c ← o; '(c, _) ← Update b c; Ret c) (Ret c) bs.

Lemma updates_collect bs c : updates bs c = Ret {| mfs := foldl collect (mfs c) bs |}.
Proof using Hdecode.
  unfold updates. revert c. induction bs as [|b bs IH]; intros [l]; [done|]. cbn [foldl].
  replace (x ← Ret {| mfs := l |}; '(c, _) ← Update b x; Ret c) with (Ret {| mfs := collect l b |}); [apply IH|].
  destruct (Update_total b {| mfs := l |}) as (c' & e & Hu). cbn [mbind outcome_bind]. rewrite Hu. cbn.
  unfold Update in Hu. unfold collect.
  destruct (parseMetricsBytes b) as [ [ [|mf l']|]| |]; cbn in Hu; by simplify_eq/=.
Qed.

(** Every update returns, Get hands out the metric families of the reports since the last Get, in
    order, from the last empty report on, and leaves the cache empty. *)
Lemma Metrics_collected bs :
  ∃ c, updates bs NewMetricsCache = Ret c ∧ Get c = (foldl collect [] bs, NewMetricsCache).
Proof using Hdecode. rewrite updates_collect. by eexists. Qed.

End MetricsCache.
End MetricsCache.

Module NodeCache.
Section NodeCache.
(** math/big's Float with the operations the code uses: Parse with base 0, Text('f', -1), and the
    addition into a Float of 53 bits. *)
Context (Float : Type) (Float_Parse : string → result Float) (Float_Text : Float → string)
  (Float_zero : Float) (Float_Add : Float → Float → Float) (Float_Neg : Float → Float).

(** aranyagopb.NodeExtInfo; the enumerations are the integers of the protocol *)
Record NodeExtInfo := {
  nei_Value : string; nei_ValueType : Z; nei_Operator : Z; nei_Target : Z; nei_TargetKey : string
}.
Definition NODE_EXT_INFO_TYPE_STRING : Z := 0.
Definition NODE_EXT_INFO_TYPE_NUMBER : Z := 1.
Definition NODE_EXT_INFO_OPERATOR_SET : Z := 0.
Definition NODE_EXT_INFO_OPERATOR_ADD : Z := 1.
Definition NODE_EXT_INFO_OPERATOR_MINUS : Z := 2.
Definition NODE_EXT_INFO_TARGET_ANNOTATION : Z := 0.
Definition NODE_EXT_INFO_TARGET_LABEL : Z := 1.

(** The generated String methods: the name of a known value, the number of another one. *)
Definition enum_String (names : list string) (v : Z) : string :=
  if 0 <=? v then default (pretty v) (names !! Z.to_nat v) else pretty v.
Definition Target_String : Z → string := enum_String ["NODE_EXT_INFO_TARGET_ANNOTATION"; "NODE_EXT_INFO_TARGET_LABEL"].
Definition Operator_String : Z → string :=
  enum_String ["NODE_EXT_INFO_OPERATOR_SET"; "NODE_EXT_INFO_OPERATOR_ADD"; "NODE_EXT_INFO_OPERATOR_MINUS"].
Definition ValueType_String : Z → string := enum_String ["NODE_EXT_INFO_TYPE_STRING"; "NODE_EXT_INFO_TYPE_NUMBER"].

Record NodeCache := {
  status : NodeStatus;
  nodeLabels : gmap string string; nodeAnnotations : gmap string string;
  extLabels : gmap string string; extAnnotations : gmap string string
}.

Definition newNodeCache (nodeLabels nodeAnnotations : gmap string string) : NodeCache :=
  {| status := empty_NodeStatus; nodeLabels := nodeLabels; nodeAnnotations := nodeAnnotations;
     extLabels := ∅; extAnnotations := ∅ |}.

Definition set_status (s : NodeStatus) (n : NodeCache) : NodeCache :=
  {| status := s; nodeLabels := nodeLabels n; nodeAnnotations := nodeAnnotations n;
     extLabels := extLabels n; extAnnotations := extAnnotations n |}.

Definition UpdatePhase (p : string) (n : NodeCache) : NodeCache :=
  if decide (p = "") then n else
  let s := status n in
  set_status {| ns_Phase := p; ns_Capacity := ns_Capacity s; ns_Conditions := ns_Conditions s; ns_NodeInfo := ns_NodeInfo s;
                ns_Allocatable := ns_Allocatable s; ns_Addresses := ns_Addresses s; ns_KubeletPort := ns_KubeletPort s |} n.
Definition UpdateCapacity (c : ResourceList) (n : NodeCache) : NodeCache :=
  if decide (c = ∅) then n else
  let s := status n in
  set_status {| ns_Phase := ns_Phase s; ns_Capacity := c; ns_Conditions := ns_Conditions s; ns_NodeInfo := ns_NodeInfo s;
                ns_Allocatable := ns_Allocatable s; ns_Addresses := ns_Addresses s; ns_KubeletPort := ns_KubeletPort s |} n.
Definition UpdateConditions (c : list NodeCondition) (n : NodeCache) : NodeCache :=
  if decide (c = []) then n else
  let s := status n in
  set_status {| ns_Phase := ns_Phase s; ns_Capacity := ns_Capacity s; ns_Conditions := c; ns_NodeInfo := ns_NodeInfo s;
                ns_Allocatable := ns_Allocatable s; ns_Addresses := ns_Addresses s; ns_KubeletPort := ns_KubeletPort s |} n.
Definition UpdateSystemInfo (i : option NodeSystemInfo) (n : NodeCache) : NodeCache :=
  match i with
  | None => n
  | Some i =>
      let s := status n in
      set_status {| ns_Phase := ns_Phase s; ns_Capacity := ns_Capacity s; ns_Conditions := ns_Conditions s; ns_NodeInfo := i;
                    ns_Allocatable := ns_Allocatable s; ns_Addresses := ns_Addresses s; ns_KubeletPort := ns_KubeletPort s |} n
  end.

Definition calculateNumber (oldVal v : string) (op : Z) : result string :=
  newNum ← Float_Parse v;
  oldNum ← (if decide (oldVal = "") then Ok Float_zero else Float_Parse oldVal);
  if op =? NODE_EXT_INFO_OPERATOR_SET then Ok (Float_Text newNum)
  else if op =? NODE_EXT_INFO_OPERATOR_ADD then Ok (Float_Text (Float_Add oldNum newNum))
  else if op =? NODE_EXT_INFO_OPERATOR_MINUS then Ok (Float_Text (Float_Add oldNum (Float_Neg newNum)))
  else Err ("unsupported operator for number " +:+ quote (Operator_String op)).

(** The value an entry gives its key, from the value of the key before the update. *)
Definition resolve (oldVal : string) (info : NodeExtInfo) : result string :=
  if nei_ValueType info =? NODE_EXT_INFO_TYPE_STRING then
    if nei_Operator info =? NODE_EXT_INFO_OPERATOR_SET then Ok (nei_Value info)
    else if nei_Operator info =? NODE_EXT_INFO_OPERATOR_ADD then Ok (oldVal +:+ nei_Value info)
    else Err ("invalid operator for string ext info " +:+ quote (Operator_String (nei_Operator info)))
  else if nei_ValueType info =? NODE_EXT_INFO_TYPE_NUMBER then
    wrap_err "failed to calculate number of : " (calculateNumber oldVal (nei_Value info) (nei_Operator info))
  else Err ("unsupported ext info value type " +:+ quote (ValueType_String (nei_ValueType info))).

(** oldExtValues[key], or nodeValues[key] when there is none *)
Definition old_value (ext node : gmap string string) (key : string) : string :=
  match ext !! key with Some v => v | None => default "" (node !! key) end.

(** One round of the loop over the entries; the accumulator is (extLabels, extAnnotations). *)
Definition apply_info (n : NodeCache) (acc : gmap string string * gmap string string) (info : NodeExtInfo) :
    result (gmap string string * gmap string string) :=
  let key := nei_TargetKey info in
  if nei_Target info =? NODE_EXT_INFO_TARGET_ANNOTATION then
    v ← resolve (old_value (extAnnotations n) (nodeAnnotations n) key) info; Ok (acc.1, <[key := v]> acc.2)
  else if nei_Target info =? NODE_EXT_INFO_TARGET_LABEL then
    v ← resolve (old_value (extLabels n) (nodeLabels n) key) info; Ok (<[key := v]> acc.1, acc.2)
  else Err ("invalid ext info target " +:+ quote (Target_String (nei_Target info))).

Definition apply_infos (n : NodeCache) (extInfo : list NodeExtInfo) acc : result (gmap string string * gmap string string) :=
  foldl (λ r info, acc ← r; apply_info n acc info) (Ok acc) extInfo.

Definition UpdateExtInfo (extInfo : list NodeExtInfo) (n : NodeCache) : NodeCache * option string :=
  match apply_infos n extInfo (∅, ∅) with
  | Err e => (n, Some e)
  | Ok (labels, annotations) =>
      ({| status := status n; nodeLabels := nodeLabels n; nodeAnnotations := nodeAnnotations n;
          extLabels := labels; extAnnotations := annotations |}, None)
  end.

Definition RetrieveExtInfo (n : NodeCache) : gmap string string * gmap string string := (extLabels n, extAnnotations n).

Definition RetrieveStatus (n : NodeCache) (s : NodeStatus) : NodeStatus :=
  {| ns_Phase := ns_Phase (status n); ns_Capacity := ns_Capacity (status n); ns_Conditions := ns_Conditions (status n);
     ns_NodeInfo := ns_NodeInfo (status n); ns_Allocatable := ns_Allocatable s; ns_Addresses := ns_Addresses s; ns_KubeletPort := ns_KubeletPort s |}.

(** ** What an update does *)

(** The value an entry gives a key of a target, when it is for them and valid. *)
Definition value_for (n : NodeCache) (target : Z) (key : string) (info : NodeExtInfo) : option string :=
  if decide (nei_Target info = target ∧ nei_TargetKey info = key) then
    let '(ext, node) := if target =? NODE_EXT_INFO_TARGET_ANNOTATION then (extAnnotations n, nodeAnnotations n)
                        else (extLabels n, nodeLabels n) in
    match resolve (old_value ext node key) info with Ok v => Some v | Err _ => None end
  else None.
Definition valid_info (n : NodeCache) (info : NodeExtInfo) : Prop :=
  (nei_Target info = NODE_EXT_INFO_TARGET_ANNOTATION ∨ nei_Target info = NODE_EXT_INFO_TARGET_LABEL) ∧
  is_Some (value_for n (nei_Target info) (nei_TargetKey info) info).

Definition target_map (target : Z) (acc : gmap string string * gmap string string) : gmap string string :=
  if target =? NODE_EXT_INFO_TARGET_ANNOTATION then acc.2 else acc.1.

Lemma apply_infos_snoc n l info acc :
  apply_infos n (l ++ [info]) acc = (a ← apply_infos n l acc; apply_info n a info).
Proof. unfold apply_infos. by rewrite foldl_app. Qed.

Lemma apply_info_spec n acc info :
  match apply_info n acc info with
  | Ok acc' => valid_info n info ∧
      ∀ t k, t = NODE_EXT_INFO_TARGET_ANNOTATION ∨ t = NODE_EXT_INFO_TARGET_LABEL →
        target_map t acc' !! k = match value_for n t k info with Some v => Some v | None => target_map t acc !! k end
  | Err _ => ¬ valid_info n info
  end.
Proof.
  unfold apply_info, valid_info, value_for, target_map, NODE_EXT_INFO_TARGET_ANNOTATION, NODE_EXT_INFO_TARGET_LABEL.
  destruct (Z.eqb_spec (nei_Target info) 0) as [Ht|Ht]; [|destruct (Z.eqb_spec (nei_Target info) 1) as [Ht'|Ht']].
  3: { intros [ [?|?] _]; done. }
  all: destruct (resolve _ info) as [v|e] eqn:Hr; cbn.
  all: repeat (rewrite decide_True by done); rewrite ?Hr.
  all: try (intros [_ [? ?] ]; done).
  all: split; [split; [by auto|by eexists]|].
  all: intros t k [->| ->]; cbn; case_decide as Hd; try lia; try (by destruct Hd as [? <-]; rewrite Hr, lookup_insert_eq);
    try done; apply lookup_insert_ne; naive_solver.
Qed.

Lemma apply_infos_spec n l :
  match apply_infos n l (∅, ∅) with
  | Ok acc => Forall (valid_info n) l ∧
      ∀ t k, t = NODE_EXT_INFO_TARGET_ANNOTATION ∨ t = NODE_EXT_INFO_TARGET_LABEL →
        target_map t acc !! k = last (omap (value_for n t k) l)
  | Err _ => ¬ Forall (valid_info n) l
  end.
Proof.
  induction l as [|info l IH] using rev_ind.
  - cbn. split; [done|]. intros t k [->| ->]; apply lookup_empty.
  - rewrite apply_infos_snoc. destruct (apply_infos n l (∅, ∅)) as [acc|e]; cbn.
    + pose proof (apply_info_spec n acc info) as Hi. destruct (apply_info n acc info) as [acc'|e].
      * destruct IH as [Hv IH], Hi as [Hvi Hi]. split; [by apply Forall_app; auto|].
        intros t k Ht. rewrite Hi, omap_app, last_app by done. cbn.
        destruct (value_for n t k info); [done|]. by apply IH.
      * intros [_ [? _]%Forall_cons]%Forall_app. done.
    + intros [? _]%Forall_app. done.
Qed.

(** UpdateExtInfo is atomic. It fails exactly when some entry is invalid, and then changes nothing;
    otherwise every key has the value its last entry gives it from the value before the update
    (never from an earlier entry), keys without an entry are gone, and nothing else changes. *)
Lemma UpdateExtInfo_atomic n extInfo :
  let '(n', err) := UpdateExtInfo extInfo n in
  (err = None ↔ Forall (valid_info n) extInfo) ∧
  (err ≠ None → n' = n) ∧
  (err = None →
    (∀ k, (RetrieveExtInfo n').1 !! k = last (omap (value_for n NODE_EXT_INFO_TARGET_LABEL k) extInfo)) ∧
    (∀ k, (RetrieveExtInfo n').2 !! k = last (omap (value_for n NODE_EXT_INFO_TARGET_ANNOTATION k) extInfo)) ∧
    status n' = status n ∧ nodeLabels n' = nodeLabels n ∧ nodeAnnotations n' = nodeAnnotations n).
Proof.
  unfold UpdateExtInfo. pose proof (apply_infos_spec n extInfo) as Hs.
  destruct (apply_infos n extInfo (∅, ∅)) as [ [ls an]|e].
  - destruct Hs as [Hv Hs]. split_and!; try done. intros _. split_and!; try done; intros k.
    + by apply (Hs NODE_EXT_INFO_TARGET_LABEL); right.
    + by apply (Hs NODE_EXT_INFO_TARGET_ANNOTATION); left.
  - split_and!; try done.
Qed.

End NodeCache.
End NodeCache.

Module Examples.
Import PodCache.

Definition pod (uid name : string) : Pod := Samples.pod uid name (Samples.spec [] [] []).

Lemma PodCache_refines_witness :
  ∃ c, history [OUpdate (pod "u1" "web"); OUpdate (pod "u2" "db"); ODelete "u1"; OUpdate (pod "u3" "web")] c ∧
    GetByName "ns" "web" c = Some (pod "u3" "web").
Proof.
  eexists. match goal with |- ?H ∧ _ => assert H as Hh end.
  { apply (history_step [OUpdate (pod "u1" "web"); OUpdate (pod "u2" "db"); ODelete "u1"]).
    - apply (history_step [OUpdate (pod "u1" "web"); OUpdate (pod "u2" "db")]).
      + apply (history_step [OUpdate (pod "u1" "web")]).
        * apply (history_step []); [constructor|]. intros u q Hq. cbn in Hq. by rewrite lookup_empty in Hq.
        * intros u q Hq. cbn in Hq. apply lookup_insert_Some in Hq as [ [<- <-]|[_ Hq] ]; [done|].
          by rewrite lookup_empty in Hq.
      + done.
    - intros u q Hq. cbn in Hq. apply lookup_delete_Some in Hq as [Hu Hq].
      apply lookup_insert_Some in Hq as [ [<- <-]|[_ Hq] ]; [done|].
      apply lookup_insert_Some in Hq as [ [<- <-]|[_ Hq] ]; [done|]. by rewrite lookup_empty in Hq. }
  split; [exact Hh|]. apply (PodCache_refines _ _ Hh). by vm_compute.
Defined.

Lemma recreated_pod_lost_witness :
  GetByName "ns" "web" (Delete "u1" (Update (pod "u2" "web") (Update (pod "u1" "web") NewPodCache))) = None.
Proof. by apply (recreated_pod_lost NewPodCache (pod "u1" "web") (pod "u2" "web")). Defined.

(** Families are single characters, reports are not compressed. *)
Definition decode_char (s : string) : option (Ascii.ascii * string) :=
  match s with EmptyString => None | String a s => Some (a, s) end.
Lemma decode_char_consumes data mf rest :
  decode_char data = Some (mf, rest) → (String.length rest < String.length data)%nat.
Proof. destruct data; [done|]. intros [= <- <-]. cbn. lia. Qed.
Lemma Metrics_collected_witness :
  ∃ c, MetricsCache.updates Ascii.ascii Ok decode_char ["ab"; ""; "cd"; "e"] (MetricsCache.NewMetricsCache _) = Ret c ∧
    MetricsCache.Get _ c = ([Ascii.ascii_of_nat 99; Ascii.ascii_of_nat 100; Ascii.ascii_of_nat 101], MetricsCache.NewMetricsCache _).
Proof. apply (MetricsCache.Metrics_collected Ascii.ascii Ok decode_char decode_char_consumes). Defined.

(** Numbers of one digit. *)
Definition parse_digit (s : string) : result Z :=
  match s with
  | String a EmptyString => Ok (Z.of_nat (Ascii.nat_of_ascii a) - 48)
  | _ => Err "not a number"
  end.
Definition cache0 : NodeCache.NodeCache := NodeCache.newNodeCache {["gpu" := "2"]} ∅.
Definition gpu_plus_3 : NodeCache.NodeExtInfo := {|
  NodeCache.nei_Value := "3"; NodeCache.nei_ValueType := 1; NodeCache.nei_Operator := 1;
  NodeCache.nei_Target := 1; NodeCache.nei_TargetKey := "gpu" |}.
Lemma UpdateExtInfo_atomic_witness :
  (NodeCache.UpdateExtInfo Z parse_digit pretty 0 Z.add Z.opp [gpu_plus_3] cache0).2 = None ∧
  (NodeCache.RetrieveExtInfo (NodeCache.UpdateExtInfo Z parse_digit pretty 0 Z.add Z.opp [gpu_plus_3; gpu_plus_3] cache0).1).1
    !! "gpu" = Some "5".
Proof.
  split; [by vm_compute|].
  pose proof (NodeCache.UpdateExtInfo_atomic Z parse_digit pretty 0 Z.add Z.opp cache0 [gpu_plus_3; gpu_plus_3]) as H.
  destruct (NodeCache.UpdateExtInfo _ _ _ _ _ _ _ _) as [n' err] eqn:Hu. destruct H as (_ & _ & H).
  assert (err = None) as He by (vm_compute in Hu; by simplify_eq).
  destruct (H He) as [Hl _]. rewrite Hl. by vm_compute.
Defined.

End Examples.
