(* ===== verification/PodTranslate.v ===== *)
(** * Pods in the terms of the device runtime

    src/pkg/virtualnode/pod/respod_translate.go and respod_translate_network.go: the status of a pod
    from what the device reports (module [Status]), the commands that create a pod in the device
    (modules [Container], [Network] and [PodOptions]); the state of a reported container is
    runtimepb's GetState. *)
From S2P Require Import Prelude GoNet K8s.
Open Scope Z_scope.

Definition VirtualImageNameHostExec : string := "virtualimage.arhat.dev/hostexec".

Module Status.

Definition new_status (reason : string) (ctr : Container) : ContainerStatus :=
  {| cs_Name := ctr_Name ctr; cs_State := waiting reason ""; cs_Ready := false; cs_Image := ctr_Image ctr;
     cs_ImageID := ""; cs_ContainerID := "" |}.

Definition newContainerErrorStatus (pod : Pod) : string * list ContainerStatus :=
  (PodFailed, new_status "ContainerErrored" <$> sp_Containers (pod_Spec pod)).

(** make([]T, len(Containers)), then one assignment per init container *)
Fixpoint fill (i : nat) (l : list ContainerStatus) (status : list ContainerStatus) : outcome (list ContainerStatus) :=
  match l with
  | [] => Ret status
  | s :: l => if decide (i < length status)%nat then fill (S i) l (<[i := s]> status) else Panic "index out of range"
  end.
Definition newContainerInitializingStatus (pod : Pod) : outcome (string * list ContainerStatus) :=
  status ← fill 0 (new_status "PodInitializing" <$> sp_InitContainers (pod_Spec pod))
             (replicate (length (sp_Containers (pod_Spec pod))) empty_status);
  Ret (PodPending, status).

Definition newContainerCreatingStatus (pod : Pod) : string * list ContainerStatus :=
  (PodPending, new_status "ContainerCreating" <$> sp_Containers (pod_Spec pod)).

(** runtimepb.ContainerStatus, as the device reports it *)
Record DeviceStatus := {
  d_ContainerId : string; d_ImageId : string; d_CreatedAt : string; d_StartedAt : string; d_FinishedAt : string;
  d_ExitCode : Z; d_Reason : string; d_Message : string
}.
Record PodStatusMsg := { psm_Uid : string; psm_Network : string; psm_Containers : gmap string DeviceStatus }.

Inductive PodState := POD_STATE_UNKNOWN | POD_STATE_PENDING | POD_STATE_RUNNING | POD_STATE_SUCCEEDED | POD_STATE_FAILED.

Section Times.
(** time.Parse with the RFC 3339 layout: nanoseconds from the zero time, which an invalid text gives. *)
Context (parse_time : string → Z).

Definition GetState (s : DeviceStatus) : PodState :=
  let createdAt := parse_time (d_CreatedAt s) in
  let startedAt := parse_time (d_StartedAt s) in
  let finishedAt := parse_time (d_FinishedAt s) in
  if negb (finishedAt <? startedAt) then
    if negb (d_ExitCode s =? 0) then POD_STATE_FAILED else POD_STATE_SUCCEEDED
  else if negb (startedAt =? 0) then POD_STATE_RUNNING
  else if negb (createdAt =? 0) then POD_STATE_PENDING
  else if bool_decide (d_ContainerId s = "") then POD_STATE_UNKNOWN
  else POD_STATE_PENDING.

(** One container: the phase it gives the pod, if any, and its status. *)
Definition container_phase (s : DeviceStatus) : option string :=
  match GetState s with
  | POD_STATE_PENDING => Some PodPending
  | POD_STATE_SUCCEEDED => Some PodSucceeded
  | POD_STATE_FAILED => Some PodFailed
  | POD_STATE_UNKNOWN | POD_STATE_RUNNING => None
  end.
Definition container_state (s : DeviceStatus) : ContainerState :=
  match GetState s with
  | POD_STATE_UNKNOWN => no_state
  | POD_STATE_PENDING => waiting (d_Reason s) (d_Message s)
  | POD_STATE_RUNNING =>
      {| cst_Waiting := None; cst_Running := Some (parse_time (d_StartedAt s)); cst_Terminated := None |}
  | POD_STATE_SUCCEEDED | POD_STATE_FAILED =>
      {| cst_Waiting := None; cst_Running := None;
         cst_Terminated := Some {| st_ExitCode := d_ExitCode s; st_Reason := d_Reason s; st_Message := d_Message s;
           st_StartedAt := parse_time (d_StartedAt s); st_FinishedAt := parse_time (d_FinishedAt s);
           st_ContainerID := d_ContainerId s |} |}
  end.
Definition container_ready (s : DeviceStatus) : bool :=
  match GetState s with POD_STATE_RUNNING => true | _ => false end.

(** The loop over the containers of the spec. *)
Fixpoint resolve_loop (podPhase : string) (containers : list Container) (m : gmap string DeviceStatus) :
    string * list ContainerStatus :=
  match containers with
  | [] => (podPhase, [])
  | ctr :: rest =>
      match m !! ctr_Name ctr with
      | Some s =>
          let status := {| cs_Name := ctr_Name ctr; cs_State := container_state s; cs_Ready := container_ready s;
                           cs_Image := ctr_Image ctr; cs_ImageID := d_ImageId s; cs_ContainerID := d_ContainerId s |} in
          let '(phase, l) := resolve_loop (default podPhase (container_phase s)) rest m in (phase, status :: l)
      | None =>
          let status := {| cs_Name := ctr_Name ctr; cs_State := no_state; cs_Ready := false; cs_Image := "";
                           cs_ImageID := ""; cs_ContainerID := "" |} in
          let '(phase, l) := resolve_loop podPhase rest m in (phase, status :: l)
      end
  end.
Definition resolveContainerStatus (containers : list Container) (devicePodStatus : PodStatusMsg) :
    string * list ContainerStatus :=
  resolve_loop PodRunning containers (psm_Containers devicePodStatus).

(** The phases the reported containers ask for, in the order of the spec. *)
Definition phases (containers : list Container) (m : gmap string DeviceStatus) : list string :=
  omap (λ ctr, s ← m !! ctr_Name ctr; container_phase s) containers.

Lemma resolve_loop_phase phase containers m :
  (resolve_loop phase containers m).1 = default phase (last (phases containers m)).
Proof.
  revert phase. induction containers as [|ctr containers IH]; intros phase; [done|].
  cbn. destruct (m !! ctr_Name ctr) as [s|] eqn:Hs; cbn.
  - specialize (IH (default phase (container_phase s))). destruct (resolve_loop _ containers m) as [ph l].
    cbn in IH |- *. rewrite IH. unfold phases. destruct (container_phase s) as [q|]; cbn; [|done].
    destruct (omap _ containers) as [|x xs] eqn:Ho; [done|].
    change (last (q :: x :: xs)) with (last (x :: xs)). destruct (last (x :: xs)) eqn:Hl; [done|].
    by apply last_None in Hl.
  - specialize (IH phase). by destruct (resolve_loop _ containers m).
Qed.

Lemma resolve_loop_status phase containers m i :
  (resolve_loop phase containers m).2 !! i =
  (λ ctr, match m !! ctr_Name ctr with
          | Some s => {| cs_Name := ctr_Name ctr; cs_State := container_state s; cs_Ready := container_ready s;
                         cs_Image := ctr_Image ctr; cs_ImageID := d_ImageId s; cs_ContainerID := d_ContainerId s |}
          | None => {| cs_Name := ctr_Name ctr; cs_State := no_state; cs_Ready := false; cs_Image := "";
                       cs_ImageID := ""; cs_ContainerID := "" |}
          end) <$> containers !! i.
Proof.
  revert phase i. induction containers as [|ctr containers IH]; intros phase i; [done|].
  cbn. destruct (m !! ctr_Name ctr) as [s|] eqn:Hs.
  - specialize (IH (default phase (container_phase s))). destruct (resolve_loop _ containers m) as [ph l].
    destruct i; cbn; [by rewrite Hs|apply IH].
  - specialize (IH phase). destruct (resolve_loop _ containers m) as [ph l].
    destruct i; cbn; [by rewrite Hs|apply IH].
Qed.

Lemma GetState_spec s :
  0 ≤ parse_time (d_FinishedAt s) →
  GetState s = if decide (parse_time (d_StartedAt s) ≤ parse_time (d_FinishedAt s))
               then (if decide (d_ExitCode s = 0) then POD_STATE_SUCCEEDED else POD_STATE_FAILED)
               else POD_STATE_RUNNING.
Proof.
  intros Hf. unfold GetState.
  destruct (Z.ltb_spec (parse_time (d_FinishedAt s)) (parse_time (d_StartedAt s))) as [Hlt|Hle]; cbn.
  - rewrite decide_False by lia. by destruct (Z.eqb_spec (parse_time (d_StartedAt s)) 0); [lia|].
  - rewrite decide_True by lia. by destruct (Z.eqb_spec (d_ExitCode s) 0); case_decide.
Qed.

(** The status of a pod from a report of the device. Statuses are those of the containers of the
    spec, in order, each with its own name, ready exactly when it runs, terminated with the reported exit code
    when it has finished; the phase is the one of the last container that does not run and
    was reported, and Running when there is none. *)
Lemma resolveContainerStatus_correct containers msg :
  (∀ s, 0 ≤ parse_time (d_FinishedAt s)) →
  let '(phase, statuses) := resolveContainerStatus containers msg in
  length statuses = length containers ∧
  (∀ i ctr st, containers !! i = Some ctr → statuses !! i = Some st →
    cs_Name st = ctr_Name ctr ∧
    match psm_Containers msg !! ctr_Name ctr with
    | None => cs_Ready st = false ∧ cs_State st = no_state
    | Some s =>
        let running := parse_time (d_FinishedAt s) <? parse_time (d_StartedAt s) in
        cs_Image st = ctr_Image ctr ∧ cs_ImageID st = d_ImageId s ∧ cs_ContainerID st = d_ContainerId s ∧
        cs_Ready st = running ∧
        (running = true → cst_Running (cs_State st) = Some (parse_time (d_StartedAt s)) ∧ cst_Terminated (cs_State st) = None) ∧
        (running = false → cst_Running (cs_State st) = None ∧ st_ExitCode <$> cst_Terminated (cs_State st) = Some (d_ExitCode s))
    end) ∧
  phase = default PodRunning (last (omap (λ ctr,
    s ← psm_Containers msg !! ctr_Name ctr;
    if parse_time (d_FinishedAt s) <? parse_time (d_StartedAt s) then None
    else Some (if d_ExitCode s =? 0 then PodSucceeded else PodFailed)) containers)).
Proof.
  intros Hf. unfold resolveContainerStatus.
  pose proof (resolve_loop_phase PodRunning containers (psm_Containers msg)) as Hph.
  pose proof (resolve_loop_status PodRunning containers (psm_Containers msg)) as Hst.
  destruct (resolve_loop _ _ _) as [phase statuses]. cbn in Hph, Hst. split_and!.
  - assert (Hl : ∀ i, is_Some (statuses !! i) ↔ is_Some (containers !! i))
      by (intros i; rewrite Hst, fmap_is_Some; done).
    setoid_rewrite lookup_lt_is_Some in Hl. pose proof (Hl (length statuses)). pose proof (Hl (length containers)). lia.
  - intros i ctr st Hc Hi. rewrite Hst, Hc in Hi. cbn in Hi.
    destruct (psm_Containers msg !! ctr_Name ctr) as [s|]; simplify_eq/=; [|done].
    specialize (Hf s). unfold container_ready, container_state. rewrite (GetState_spec s Hf).
    destruct (Z.ltb_spec (parse_time (d_FinishedAt s)) (parse_time (d_StartedAt s))) as [Hlt|Hle].
    + rewrite decide_False by lia. done.
    + rewrite decide_True by lia. by destruct (decide (d_ExitCode s = 0)).
  - rewrite Hph. f_equal. f_equal. apply list_omap_ext, Forall2_same_length_lookup_2; [done|].
    intros i x y Hx Hy. simplify_eq. destruct (psm_Containers msg !! ctr_Name x) as [s|]; [|done]. cbn.
    specialize (Hf s). unfold container_phase. rewrite (GetState_spec s Hf).
    destruct (Z.ltb_spec (parse_time (d_FinishedAt s)) (parse_time (d_StartedAt s))) as [Hlt|Hle].
    + by rewrite decide_False by lia.
    + rewrite decide_True by lia. by destruct (Z.eqb_spec (d_ExitCode s) 0); case_decide.
Qed.

(** A container that has been created and not started is reported as succeeded, and a pod of such
    containers as Succeeded: the pending state is never reported. *)
Lemma created_container_succeeded containers msg :
  containers ≠ [] →
  (∀ ctr, ctr ∈ containers → ∃ s, psm_Containers msg !! ctr_Name ctr = Some s ∧
    parse_time (d_StartedAt s) = 0 ∧ parse_time (d_FinishedAt s) = 0 ∧ d_ExitCode s = 0 ∧ 0 < parse_time (d_CreatedAt s)) →
  (resolveContainerStatus containers msg).1 = PodSucceeded.
Proof.
  intros Hne Hc. unfold resolveContainerStatus. rewrite resolve_loop_phase.
  destruct containers as [|ctr0 l _] using rev_ind; [done|]. unfold phases.
  destruct (Hc ctr0) as (s & Hs & Hst & Hfi & He & _); [set_solver|].
  rewrite omap_app, last_app. cbn. rewrite Hs. cbn. unfold container_phase, GetState. by rewrite Hst, Hfi, He.
Qed.

End Times.

Lemma fill_spec i l status :
  (i ≤ length status)%nat →
  fill i l status = if decide (i + length l ≤ length status)%nat
                    then Ret (take i status ++ l ++ drop (i + length l) status)
                    else Panic "index out of range".
Proof.
  revert i status. induction l as [|s l IH]; intros i status Hi; cbn.
  - rewrite decide_True by lia. by rewrite Nat.add_0_r, take_drop.
  - destruct (decide (i < length status)%nat) as [Hlt|Hge]; [|by rewrite decide_False by lia].
    rewrite IH by (rewrite length_insert; lia). rewrite length_insert.
    replace (S i + length l)%nat with (i + S (length l))%nat by lia. case_decide; [|done].
    rewrite (take_S_r _ _ s) by (by apply list_lookup_insert_eq).
    rewrite take_insert_ge, drop_insert_lt by lia. by rewrite <-(assoc_L (++)).
Qed.

(** The status of a pod whose init containers start: one waiting status per init container and empty
    ones up to the number of containers; with more init containers than containers it panics. *)
Lemma newContainerInitializingStatus_correct pod :
  let n := length (sp_InitContainers (pod_Spec pod)) in
  let k := length (sp_Containers (pod_Spec pod)) in
  newContainerInitializingStatus pod =
    if decide (n ≤ k)%nat
    then Ret (PodPending, (new_status "PodInitializing" <$> sp_InitContainers (pod_Spec pod)) ++ replicate (k - n) empty_status)
    else Panic "index out of range".
Proof.
  intros n k. unfold newContainerInitializingStatus. rewrite fill_spec by lia.
  rewrite length_fmap, length_replicate. fold n k. cbn [Nat.add take].
  destruct (decide (n ≤ k)%nat); cbn; [by rewrite drop_replicate|done].
Qed.

End Status.

Module Container.

(** runtimepb's messages for a container *)
Inductive ContainerAction :=
  | Action_Exec (command : list string)
  | Action_Http (method url : string) (headers : list (string * string))
  | Action_Socket (address : string).
Record ContainerProbeSpec := {
  cps_Method : option ContainerAction; cps_InitialDelay : Z; cps_ProbeTimeout : Z; cps_ProbeInterval : Z;
  cps_SuccessThreshold : Z; cps_FailureThreshold : Z
}.
Inductive ProcMountKind := PROC_MOUNT_DEFAULT | PROC_MOUNT_UNMASKED.
Record ContainerSecuritySpec := {
  css_Privileged : bool; css_AllowNewPrivileges : bool; css_NonRoot : bool; css_ReadOnlyRootfs : bool;
  css_User : Z; css_Group : Z; css_CapsAdd : list string; css_CapsDrop : list string;
  css_ProcMountKind : ProcMountKind; css_SelinuxOptions : option SELinuxOptions
}.
Record ContainerMountSpec := {
  cms_MountPath : string; cms_SubPath : string; cms_ReadOnly : bool; cms_FileMode : Z; cms_Remote : bool
}.
Record ContainerSpec := {
  cspec_Name : string; cspec_Image : string; cspec_Command : list string; cspec_Args : list string;
  cspec_WorkingDir : string; cspec_Stdin : bool; cspec_Tty : bool; cspec_Envs : gmap string string;
  cspec_Mounts : gmap string ContainerMountSpec;
  cspec_ReadinessCheck : option ContainerProbeSpec; cspec_LivenessCheck : option ContainerProbeSpec;
  cspec_Security : option ContainerSecuritySpec; cspec_HookPostStart : option ContainerAction
}.

Definition getNamedContainerPorts (ctr : Container) : gmap string Z :=
  foldl (λ m p, if decide (cp_Name p = "") then m else <[cp_Name p := cp_ContainerPort p]> m) ∅ (ctr_Ports ctr).

Definition getPortValue (ports : gmap string Z) (port : IntOrString) : Z :=
  if ios_Type port =? 0 then ios_IntVal port
  else if ios_Type port =? 1 then default (-1) (ports !! ios_StrVal port)
  else -1.

(** In the third case the port is read from h.HTTPGet, which is nil there. *)
Definition translateHandler (h : option Handler) (namedPorts : gmap string Z) : outcome (option ContainerAction) :=
  match h with
  | None => Ret None
  | Some h =>
      match h_Exec h, h_HTTPGet h, h_TCPSocket h with
      | Some command, _, _ => Ret (Some (Action_Exec command))
      | None, Some g, _ =>
          let port := getPortValue namedPorts (hg_Port g) in
          Ret (if port <? 1 then None else
               Some (Action_Http "GET" (hg_Scheme g +:+ "://" +:+ hg_Host g +:+ ":" +:+ pretty port +:+ hg_Path g)
                       (hg_HTTPHeaders g)))
      | None, None, Some s =>
          p ← (match h_HTTPGet h with
               | Some g => Ret (hg_Port g)
               | None => Panic "invalid memory address or nil pointer dereference"
               end);
          let port := getPortValue namedPorts p in
          Ret (if port <? 1 then None else Some (Action_Socket ("tcp://" +:+ ts_Host s +:+ ":" +:+ pretty port)))
      | None, None, None => Ret None
      end
  end.

Definition second : Z := 1000000000.
Definition translateProbe (p : option Probe) (ports : gmap string Z) : outcome (option ContainerProbeSpec) :=
  match p with
  | None => Ret None
  | Some p =>
      method ← translateHandler (Some (pr_Handler p)) ports;
      Ret (Some {| cps_Method := method; cps_InitialDelay := second * pr_InitialDelaySeconds p;
                   cps_ProbeTimeout := second * pr_TimeoutSeconds p; cps_ProbeInterval := second * pr_PeriodSeconds p;
                   cps_SuccessThreshold := pr_SuccessThreshold p; cps_FailureThreshold := pr_FailureThreshold p |})
  end.

(** ** Security options *)

(** The value of the container's context, or of the pod's, or the default. *)
Definition first_of {A} (c p : option A) (d : A) : A := match c with Some x => x | None => default d p end.
Definition resolveCommonSecOpts (podSecOpts : option PodSecurityContext) (ctrSecOpts : option SecurityContext) :
    option ContainerSecuritySpec :=
  match podSecOpts, ctrSecOpts with
  | None, Some _ => None
  | p, c =>
      Some {| css_Privileged := false; css_AllowNewPrivileges := false;
              css_NonRoot := first_of (c ≫= sc_RunAsNonRoot) (p ≫= psc_RunAsNonRoot) false;
              css_ReadOnlyRootfs := false;
              css_User := first_of (c ≫= sc_RunAsUser) (p ≫= psc_RunAsUser) (-1);
              css_Group := first_of (c ≫= sc_RunAsGroup) (p ≫= psc_RunAsGroup) (-1);
              css_CapsAdd := []; css_CapsDrop := []; css_ProcMountKind := PROC_MOUNT_DEFAULT;
              css_SelinuxOptions := match c ≫= sc_SELinuxOptions with
                                    | Some s => Some s
                                    | None => p ≫= psc_SELinuxOptions
                                    end |}
  end.

Definition translateContainerSecOpts (podSecOpts : option PodSecurityContext) (ctrSecOpts : option SecurityContext) :
    option ContainerSecuritySpec :=
  match resolveCommonSecOpts podSecOpts ctrSecOpts, ctrSecOpts with
  | Some r, Some c =>
      let anp := default (css_AllowNewPrivileges r) (sc_AllowPrivilegeEscalation c) in
      let anp := match sc_Privileged c with Some _ => true | None => anp end in
      let '(caps_add, caps_drop) := default ([], []) (sc_Capabilities c) in
      Some {| css_Privileged := default (css_Privileged r) (sc_Privileged c);
              css_AllowNewPrivileges := anp || bool_decide ("SYS_ADMIN" ∈ caps_add);
              css_NonRoot := css_NonRoot r;
              css_ReadOnlyRootfs := default (css_ReadOnlyRootfs r) (sc_ReadOnlyRootFilesystem c);
              css_User := css_User r; css_Group := css_Group r;
              css_CapsAdd := css_CapsAdd r ++ caps_add; css_CapsDrop := css_CapsDrop r ++ caps_drop;
              css_ProcMountKind := match sc_ProcMount c with
                                   | Some k => if decide (k = "Unmasked") then PROC_MOUNT_UNMASKED else PROC_MOUNT_DEFAULT
                                   | None => css_ProcMountKind r
                                   end;
              css_SelinuxOptions := css_SelinuxOptions r |}
  | r, _ => r
  end.

(** The security options of a container in a pod with a security context: user, group, non-root and SELinux
    options are the container's, else the pod's, else the defaults; the privileges come from the container only. *)
Lemma security_options_correct (p : PodSecurityContext) (c : option SecurityContext) :
  ∃ r, translateContainerSecOpts (Some p) c = Some r ∧
    css_User r = first_of (c ≫= sc_RunAsUser) (psc_RunAsUser p) (-1) ∧
    css_Group r = first_of (c ≫= sc_RunAsGroup) (psc_RunAsGroup p) (-1) ∧
    css_NonRoot r = first_of (c ≫= sc_RunAsNonRoot) (psc_RunAsNonRoot p) false ∧
    css_SelinuxOptions r = (match c ≫= sc_SELinuxOptions with Some s => Some s | None => psc_SELinuxOptions p end) ∧
    css_Privileged r = is_true (c ≫= sc_Privileged) ∧
    css_ReadOnlyRootfs r = is_true (c ≫= sc_ReadOnlyRootFilesystem) ∧
    css_CapsAdd r = (default ([], []) (c ≫= sc_Capabilities)).1 ∧
    css_CapsDrop r = (default ([], []) (c ≫= sc_Capabilities)).2 ∧
    (css_AllowNewPrivileges r = true ↔
       (∃ b, c ≫= sc_Privileged = Some b) ∨ c ≫= sc_AllowPrivilegeEscalation = Some true ∨ "SYS_ADMIN" ∈ css_CapsAdd r).
Proof.
  destruct c as [c|]; cbn; [|eexists; split_and!; try done; split; [done|]; intros [ [b ?]|[?|?] ]; set_solver].
  unfold translateContainerSecOpts. cbn.
  destruct (default ([], []) (sc_Capabilities c)) as [caps_add caps_drop].
  eexists. split; [done|]. cbn. split_and!; [done..|].
  rewrite orb_true_iff, bool_decide_eq_true. destruct (sc_Privileged c) as [b|]; [naive_solver|].
  destruct (sc_AllowPrivilegeEscalation c) as [ [] |]; naive_solver.
Qed.

(** A container's security context is dropped whole when its pod has none: whatever it asks for, no
    options are sent to the device. *)
Lemma container_security_dropped (c : SecurityContext) : translateContainerSecOpts None (Some c) = None.
Proof. done. Qed.

(** ** Mounts *)

Definition wrap32u (x : Z) : Z := x mod 2 ^ 32.

(** (fileMode, readOnly, remote) of a mount of the volume *)
Definition mount_attrs (vol : Volume) (readOnly : bool) : Z * bool * bool :=
  match v_ConfigMap vol ≫= mv_DefaultMode with
  | Some m => (wrap32u m, readOnly, false)
  | None =>
      match v_Secret vol ≫= mv_DefaultMode with
      | Some m => (wrap32u m, readOnly, false)
      | None =>
          match v_PersistentVolumeClaim vol, v_CSI vol with
          | Some pvc, _ => (0, pvc_ReadOnly pvc, true)
          | None, Some csi => (0, default readOnly (csi_ReadOnly csi), true)
          | None, None => (0, readOnly, false)
          end
      end
  end.
Definition mount_spec (volumes : list Volume) (volMount : VolumeMount) : ContainerMountSpec :=
  let '(fileMode, readOnly, remote) :=
    match filter (λ v, v_Name v = vm_Name volMount) volumes with
    | vol :: _ => mount_attrs vol (vm_ReadOnly volMount)
    | [] => (0, vm_ReadOnly volMount, false)
    end in
  {| cms_MountPath := vm_MountPath volMount; cms_SubPath := vm_SubPath volMount; cms_ReadOnly := readOnly;
     cms_FileMode := fileMode; cms_Remote := remote |}.
Definition translate_mounts (volumes : list Volume) (l : list VolumeMount) : gmap string ContainerMountSpec :=
  foldl (λ m volMount, <[vm_Name volMount := mount_spec volumes volMount]> m) ∅ l.

Definition translateContainerSpec (pod : Pod) (envs : gmap string (gmap string string)) (ctr : Container) :
    outcome ContainerSpec :=
  let ctrPorts := getNamedContainerPorts ctr in
  readiness ← translateProbe (ctr_ReadinessProbe ctr) ctrPorts;
  liveness ← translateProbe (ctr_LivenessProbe ctr) ctrPorts;
  post ← (match ctr_Lifecycle ctr ≫= lc_PostStart with
          | Some h => translateHandler (Some h) ctrPorts
          | None => Ret None
          end);
  Ret {| cspec_Name := ctr_Name ctr; cspec_Image := ctr_Image ctr; cspec_Command := ctr_Command ctr;
         cspec_Args := ctr_Args ctr; cspec_WorkingDir := ctr_WorkingDir ctr; cspec_Stdin := ctr_Stdin ctr;
         cspec_Tty := ctr_TTY ctr; cspec_Envs := default ∅ (envs !! ctr_Name ctr);
         cspec_Mounts := translate_mounts (sp_Volumes (pod_Spec pod)) (ctr_VolumeMounts ctr);
         cspec_ReadinessCheck := readiness; cspec_LivenessCheck := liveness;
         cspec_Security := translateContainerSecOpts (sp_SecurityContext (pod_Spec pod)) (ctr_SecurityContext ctr);
         cspec_HookPostStart := post |}.

Lemma translate_mounts_lookup volumes l name :
  translate_mounts volumes l !! name =
    mount_spec volumes <$> last (filter (λ m, vm_Name m = name) l).
Proof.
  unfold translate_mounts. induction l as [|x l IH] using rev_ind; [apply lookup_empty|].
  rewrite foldl_app, filter_app, last_app, filter_cons. cbn [foldl].
  destruct (decide (vm_Name x = name)) as [->|Hne].
  - by rewrite lookup_insert_eq.
  - by rewrite lookup_insert_ne.
Qed.

(** The handlers of a container that are opened on the device. *)
Definition handlers (ctr : Container) : list Handler :=
  option_list (pr_Handler <$> ctr_ReadinessProbe ctr) ++ option_list (pr_Handler <$> ctr_LivenessProbe ctr) ++
  option_list (ctr_Lifecycle ctr ≫= lc_PostStart).
Definition tcp_handler (h : Handler) : Prop := h_Exec h = None ∧ h_HTTPGet h = None ∧ is_Some (h_TCPSocket h).

Definition nil_deref : string := "invalid memory address or nil pointer dereference".
Lemma translateHandler_cases h ports :
  (tcp_handler h ∧ translateHandler (Some h) ports = Panic nil_deref) ∨
  (¬ tcp_handler h ∧ ∃ a, translateHandler (Some h) ports = Ret a).
Proof.
  unfold tcp_handler. destruct h as [ [cmd|] [g|] [s|] ]; cbn;
    first [right; split; [by intros (? & ? & ? & ?)|by eexists]|left; split_and!; by eauto].
Qed.

Lemma translateProbe_cases p ports :
  (Exists tcp_handler (option_list (pr_Handler <$> p)) ∧ translateProbe p ports = Panic nil_deref) ∨
  (¬ Exists tcp_handler (option_list (pr_Handler <$> p)) ∧ ∃ a, translateProbe p ports = Ret a).
Proof.
  destruct p as [p|]; cbn -[translateHandler]; [|right; split; [by intros ?%Exists_nil|by eexists] ].
  rewrite Exists_cons, Exists_nil.
  destruct (translateHandler_cases (pr_Handler p) ports) as [ [Ht ->]|[Ht [a ->] ] ]; cbn -[tcp_handler]; [left; by auto|].
  right. split; [clear -Ht; tauto|by eexists].
Qed.

Lemma translateContainerSpec_cases pod envs ctr :
  (Exists tcp_handler (handlers ctr) ∧ translateContainerSpec pod envs ctr = Panic nil_deref) ∨
  (¬ Exists tcp_handler (handlers ctr) ∧ ∃ spec, translateContainerSpec pod envs ctr = Ret spec ∧
    cspec_Name spec = ctr_Name ctr ∧ cspec_Image spec = ctr_Image ctr ∧
    cspec_Command spec = ctr_Command ctr ∧ cspec_Args spec = ctr_Args ctr ∧
    cspec_Envs spec = default ∅ (envs !! ctr_Name ctr) ∧
    cspec_Mounts spec = translate_mounts (sp_Volumes (pod_Spec pod)) (ctr_VolumeMounts ctr) ∧
    cspec_Security spec = translateContainerSecOpts (sp_SecurityContext (pod_Spec pod)) (ctr_SecurityContext ctr)).
Proof.
  unfold handlers, translateContainerSpec. rewrite !Exists_app.
  destruct (translateProbe_cases (ctr_ReadinessProbe ctr) (getNamedContainerPorts ctr)) as [ [Hr ->]|[Hr [a ->] ] ];
    cbn [mbind outcome_bind]; [left; by auto|].
  destruct (translateProbe_cases (ctr_LivenessProbe ctr) (getNamedContainerPorts ctr)) as [ [Hl ->]|[Hl [b ->] ] ];
    cbn [mbind outcome_bind]; [left; by auto|].
  destruct (ctr_Lifecycle ctr ≫= lc_PostStart) as [h|] eqn:Hh.
  - cbn -[translateHandler tcp_handler]. rewrite Exists_cons, Exists_nil.
    destruct (translateHandler_cases h (getNamedContainerPorts ctr)) as [ [Ht ->]|[Ht [c ->] ] ]; cbn [mbind outcome_bind].
    + left. by auto.
    + right. split; [clear -Hr Hl Ht; tauto|]. by eexists.
  - cbn -[tcp_handler]. rewrite Exists_nil. right. split; [clear -Hr Hl; tauto|]. by eexists.
Qed.

(** The specification of a container sent to the device. It panics exactly when a probe or
    the post-start hook is a TCP check; otherwise the container keeps its identity and command, has the
    variables resolved for its name, and per volume the options of the last mount of the volume, with the attributes
    of the first volume of that name. *)
Lemma translateContainerSpec_correct pod envs ctr :
  (translateContainerSpec pod envs ctr = Panic nil_deref ↔ Exists tcp_handler (handlers ctr)) ∧
  (¬ Exists tcp_handler (handlers ctr) → ∃ spec, translateContainerSpec pod envs ctr = Ret spec ∧
    cspec_Name spec = ctr_Name ctr ∧ cspec_Image spec = ctr_Image ctr ∧
    cspec_Command spec = ctr_Command ctr ∧ cspec_Args spec = ctr_Args ctr ∧
    cspec_Envs spec = default ∅ (envs !! ctr_Name ctr) ∧
    ∀ name, cspec_Mounts spec !! name =
      mount_spec (sp_Volumes (pod_Spec pod)) <$> last (filter (λ m, vm_Name m = name) (ctr_VolumeMounts ctr))).
Proof.
  destruct (translateContainerSpec_cases pod envs ctr) as [ [Ht Hp]|[Ht (spec & Hp & ? & ? & ? & ? & ? & Hm & ?)] ];
    rewrite Hp.
  - split; [done|]. by intros ?.
  - split; [split; [done|by intros ?]|]. intros _. exists spec. split_and!; [done..|].
    intros name. by rewrite Hm, translate_mounts_lookup.
Qed.

(** The pod's volume decides whether a claimed volume can be written: a mount asked to be read-only is writable
    when the claim is not read-only, and the mode of a mount is read-only only for claims that are. *)
Lemma claim_overrides_read_only volumes vol volMount pvc :
  filter (λ v, v_Name v = vm_Name volMount) volumes = [vol] → v_PersistentVolumeClaim vol = Some pvc →
  v_ConfigMap vol = None → v_Secret vol = None →
  cms_ReadOnly (mount_spec volumes volMount) = pvc_ReadOnly pvc ∧ cms_Remote (mount_spec volumes volMount) = true.
Proof. intros Hf Hp Hc Hs. unfold mount_spec. rewrite Hf. unfold mount_attrs. by rewrite Hc, Hs, Hp. Qed.

End Container.

Module Network.

(** abbotgopb's CNI capability arguments and the request that carries them *)
Inductive CNICapArgs :=
  | DnsConfigArg (servers searches options : list string)
  | IpRangeArg (subnet : string)
  | BandwidthArg (ingressRate ingressBurst egressRate egressBurst : Z)
  | PortMapArg (containerPort hostPort : Z) (protocol hostIp : string).
Record ContainerNetworkEnsureRequest := { cner_CniArgs : list (string * string); cner_CapArgs : list CNICapArgs }.

Definition MaxInt32 : Z := 2 ^ 31 - 1.
(** Go's conversion to int32 *)
Definition wrap32 (x : Z) : Z := (x + 2 ^ 31) mod 2 ^ 32 - 2 ^ 31.

Section Network.
(** ExtractPodBandwidthResources of the kubelet: the values of the two limits, its error left out. *)
Context (ExtractBandwidth : gmap string string → option Z * option Z).

Definition bandwidth_arg (annotations : gmap string string) : list CNICapArgs :=
  let '(ingress, egress) := ExtractBandwidth annotations in
  match ingress, egress with
  | None, None => []
  | _, _ => [BandwidthArg (match ingress with Some v => wrap32 v | None => MaxInt32 end) MaxInt32
                          (match egress with Some v => wrap32 v | None => MaxInt32 end) MaxInt32]
  end.

Definition port_args (containers : list Container) : list CNICapArgs :=
  ctr ← containers; p ← ctr_Ports ctr;
  [PortMapArg (cp_ContainerPort p) (cp_HostPort p) (ToLower (cp_Protocol p)) (cp_HostIP p)].

Definition translatePodNetworkOptions (pod : Pod) (ipv4PodCIDR ipv6PodCIDR : string) (dnsConfig : AranyaDNSConfig) :
    ContainerNetworkEnsureRequest :=
  {| cner_CniArgs := [("IgnoreUnknown", "1"); ("K8S_POD_NAMESPACE", pod_Namespace pod); ("K8S_POD_NAME", pod_Name pod);
                      ("K8S_POD_INFRA_CONTAINER_ID", "")];
     cner_CapArgs :=
       [DnsConfigArg (dns_Servers dnsConfig) (dns_Searches dnsConfig) (dns_Options dnsConfig)] ++
       (if decide (ipv4PodCIDR = "") then [] else [IpRangeArg ipv4PodCIDR]) ++
       (if decide (ipv6PodCIDR = "") then [] else [IpRangeArg ipv6PodCIDR]) ++
       bandwidth_arg (pod_Annotations pod) ++
       port_args (sp_Containers (pod_Spec pod)) |}.

(** Of the limits the kubelet's function accepts, 1k to 1P. *)
Definition accepted (v : Z) : Prop := 1000 ≤ v ≤ 1000000000000000.

(** The bandwidth limit of a pod reaches the device unchanged exactly when it is below 2^31; a larger
    one becomes another rate, negative for half of them. A direction without a limit has the largest rate. *)
Lemma bandwidth_bounds pod v4 v6 dns v e :
  ExtractBandwidth (pod_Annotations pod) = (Some v, e) → accepted v →
  ∃ r r', BandwidthArg r MaxInt32 r' MaxInt32 ∈ cner_CapArgs (translatePodNetworkOptions pod v4 v6 dns) ∧
    (∀ a b c d, BandwidthArg a b c d ∈ cner_CapArgs (translatePodNetworkOptions pod v4 v6 dns) → a = r) ∧
    (r = v ↔ v < 2 ^ 31) ∧ (r < 0 ↔ Z.odd (v / 2 ^ 31) = true) ∧ (e = None → r' = MaxInt32).
Proof.
  intros He Hv. unfold translatePodNetworkOptions, bandwidth_arg. cbn [cner_CapArgs]. rewrite He.
  set (r' := match e with Some x => wrap32 x | None => MaxInt32 end).
  exists (wrap32 v), r'. split_and!.
  - destruct e; set_solver.
  - intros a b c d Hin. rewrite !elem_of_app in Hin.
    destruct Hin as [Hin|[Hin|[Hin|[Hin|Hin] ] ] ].
    + apply list_elem_of_singleton in Hin. done.
    + case_decide; [by apply elem_of_nil in Hin|]. by apply list_elem_of_singleton in Hin.
    + case_decide; [by apply elem_of_nil in Hin|]. by apply list_elem_of_singleton in Hin.
    + destruct e; apply list_elem_of_singleton in Hin; by simplify_eq.
    + unfold port_args in Hin. apply list_elem_of_bind in Hin as (ctr & Hin & _).
      apply list_elem_of_bind in Hin as (p & Hin & _). by apply list_elem_of_singleton in Hin.
  - unfold wrap32, accepted in *. split; intros H; [|rewrite Z.mod_small; lia].
    pose proof (Z.mod_pos_bound (v + 2 ^ 31) (2 ^ 32)). lia.
  - unfold wrap32, accepted in *. rewrite Zodd_mod.
    assert ((v / 2 ^ 31) mod 2 = (v mod 2 ^ 32) / 2 ^ 31) as ->.
    { change (2 ^ 32) with (2 ^ 31 * 2). rewrite Z.rem_mul_r by lia.
      rewrite Z.add_comm, Z.mul_comm, Z.div_add_l by lia.
      rewrite (Z.div_small (v mod 2 ^ 31)) by (apply Z.mod_pos_bound; lia). lia. }
    pose proof (Z.mod_pos_bound v (2 ^ 32)) as Hb. pose proof (Z.div_mod v (2 ^ 32)) as Hd.
    set (m := v mod 2 ^ 32) in *.
    assert ((v + 2 ^ 31) mod 2 ^ 32 = if m <? 2 ^ 31 then m + 2 ^ 31 else m - 2 ^ 31) as ->.
    { symmetry. destruct (Z.ltb_spec m (2 ^ 31)); [apply (Z.mod_unique _ _ (v / 2 ^ 32))|apply (Z.mod_unique _ _ (v / 2 ^ 32 + 1))]; lia. }
    destruct (Z.ltb_spec m (2 ^ 31)).
    + rewrite Z.div_small by lia. split; [lia|]. intros ?%Z.eqb_eq. lia.
    + rewrite (Z.div_unique m (2 ^ 31) 1 (m - 2 ^ 31)) by lia. split; [by rewrite Z.eqb_refl|lia].
  - intros ->. done.
Qed.

End Network.
End Network.

Module PodOptions.
Import Container.

(** The messages that ensure images and pods *)
Record ImageAuthConfig := {
  iac_Username : string; iac_Password : string; iac_Auth : string; iac_ServerAddress : string;
  iac_IdentityToken : string; iac_RegistryToken : string; iac_Email : string
}.
Inductive ImagePullPolicy := IMAGE_PULL_ALWAYS | IMAGE_PULL_IF_NOT_PRESENT | IMAGE_PULL_NEVER.
Record ImagePullSpec := { ips_AuthConfig : option ImageAuthConfig; ips_PullPolicy : ImagePullPolicy }.
Inductive RestartPolicy := RESTART_ALWAYS | RESTART_ON_FAILURE | RESTART_NEVER.
Abbreviation NamedData := (gmap string string).
Record PodNetworkSpec := {
  pns_Nameservers : list string; pns_DnsSearches : list string; pns_DnsOptions : list string;
  pns_Hosts : gmap string string; pns_AbbotRequestBytes : string
}.
Record PodEnsureCmd := {
  pec_PodUid : string; pec_Namespace : string; pec_Name : string; pec_Labels : gmap string string;
  pec_RestartPolicy : RestartPolicy; pec_HostIpc : bool; pec_HostNetwork : bool; pec_HostPid : bool;
  pec_Hostname : string; pec_SharePid : bool; pec_Network : option PodNetworkSpec;
  pec_Containers : list ContainerSpec; pec_Wait : bool;
  pec_HostPaths : gmap string string; pec_VolumeData : gmap string NamedData; pec_Sysctls : gmap string string
}.

Definition translateImagePullPolicy (policy : string) : ImagePullPolicy :=
  if decide (policy = "Never") then IMAGE_PULL_NEVER
  else if decide (policy = "IfNotPresent") then IMAGE_PULL_IF_NOT_PRESENT
  else if decide (policy = "Always") then IMAGE_PULL_ALWAYS
  else IMAGE_PULL_NEVER.
Definition translateRestartPolicy (policy : string) : RestartPolicy :=
  if decide (policy = "Always") then RESTART_ALWAYS
  else if decide (policy = "Never") then RESTART_NEVER
  else if decide (policy = "OnFailure") then RESTART_ON_FAILURE
  else RESTART_ALWAYS.

Definition slash : Ascii.ascii := Ascii.ascii_of_nat 47.
Definition getPodLabels (allLabels : gmap string string) : gmap string string :=
  filter (λ '(k, _), has_char slash k = true) allLabels.

(** A volume's unique name with the pod's name of it and its path in the device *)
Record volumeNamePathPair := { vnp_name : string; vnp_path : string }.

Section PodOptions.
(** abbot's request encoding: NewRequest (with its marshaling of the body) and Marshal *)
Context (Request : Type) (NewRequest : Network.ContainerNetworkEnsureRequest → result Request)
  (Request_Marshal : Request → result string) (ExtractBandwidth : gmap string string → option Z * option Z).

(** m.StorageEnabled(), and the values of volNames in the order of the iteration *)
Context (StorageEnabled : bool) (volNames : list volumeNamePathPair).

(** One round of the loop over the volumes. *)
Definition host_path (hostPaths : gmap string string) (vol : Volume) : result (gmap string string) :=
  match v_HostPath vol, v_EmptyDir vol, v_PersistentVolumeClaim vol, v_CSI vol with
  | Some path, _, _, _ => Ok (<[v_Name vol := path]> hostPaths)
  | None, true, _, _ => Ok (<[v_Name vol := ""]> hostPaths)
  | None, false, None, None => Ok hostPaths
  | None, false, _, _ =>
      if negb StorageEnabled then Err "storage not enabled" else
      match last (filter (λ v, vnp_name v = v_Name vol) volNames) with
      | Some v => Ok (<[v_Name vol := vnp_path v]> hostPaths)
      | None => Err ("no remote path found for volume " +:+ quote (v_Name vol))
      end
  end.
Definition resolve_host_paths (volumes : list Volume) : result (gmap string string) :=
  foldl (λ r vol, m ← r; host_path m vol) (Ok ∅) volumes.

(** What the loop over the work containers, and the same loop over the init containers, collects. *)
Record loop := {
  lo_containers : list ContainerSpec; lo_hostExec : bool; lo_found : nat;
  lo_imagePull : gmap string ImagePullSpec; lo_volumeData : gmap string NamedData; lo_hostPaths : gmap string string
}.
Definition new_loop (imagePull : gmap string ImagePullSpec) : loop :=
  {| lo_containers := []; lo_hostExec := false; lo_found := 0; lo_imagePull := imagePull;
     lo_volumeData := ∅; lo_hostPaths := ∅ |}.
(** if d, ok := data[name]; ok { m[name] = d } *)
Definition copy_key {A} (data : gmap string A) (m : gmap string A) (name : string) : gmap string A :=
  match data !! name with Some d => <[name := d]> m | None => m end.

Section Loop.
Context (pod : Pod) (envs : gmap string (gmap string string)) (authConfigs : gmap string ImageAuthConfig)
  (volumeData : gmap string NamedData) (hostPaths : gmap string string).

Definition loop_step (l : loop) (ctr : Container) : outcome loop :=
  spec ← translateContainerSpec pod envs ctr;
  let virtual := bool_decide (ctr_Image ctr = VirtualImageNameHostExec) in
  Ret {| lo_containers := lo_containers l ++ [spec];
         lo_hostExec := lo_hostExec l || virtual;
         lo_found := if virtual then S (lo_found l) else lo_found l;
         lo_imagePull := if virtual then lo_imagePull l else
           <[ctr_Image ctr := {| ips_AuthConfig := authConfigs !! ctr_Image ctr;
                                 ips_PullPolicy := translateImagePullPolicy (ctr_ImagePullPolicy ctr) |}]> (lo_imagePull l);
         lo_volumeData := foldl (copy_key volumeData) (lo_volumeData l) (vm_Name <$> ctr_VolumeMounts ctr);
         lo_hostPaths := foldl (copy_key hostPaths) (lo_hostPaths l) (vm_Name <$> ctr_VolumeMounts ctr) |}.
Definition run_loop (imagePull : gmap string ImagePullSpec) (ctrs : list Container) : outcome loop :=
  foldl (λ o ctr, l ← o; loop_step l ctr) (Ret (new_loop imagePull)) ctrs.
End Loop.

Record create_options := {
  co_images : gmap string ImagePullSpec; co_init : option PodEnsureCmd; co_work : PodEnsureCmd;
  co_initHostExec : bool; co_workHostExec : bool
}.

(** The command with the options of the pod's sandbox, and the one without them. *)
Definition sandbox_cmd (pod : Pod) (net : PodNetworkSpec) (sysctls : gmap string string) (restart : RestartPolicy)
    (wait : bool) (l : loop) : PodEnsureCmd :=
  {| pec_PodUid := pod_UID pod; pec_Namespace := pod_Namespace pod; pec_Name := pod_Name pod;
     pec_Labels := getPodLabels (pod_Labels pod); pec_RestartPolicy := restart;
     pec_HostIpc := sp_HostIPC (pod_Spec pod); pec_HostNetwork := sp_HostNetwork (pod_Spec pod);
     pec_HostPid := sp_HostPID (pod_Spec pod); pec_Hostname := sp_Hostname (pod_Spec pod);
     pec_SharePid := is_true (sp_ShareProcessNamespace (pod_Spec pod)); pec_Network := Some net;
     pec_Containers := lo_containers l; pec_Wait := wait; pec_HostPaths := lo_hostPaths l;
     pec_VolumeData := lo_volumeData l; pec_Sysctls := sysctls |}.
Definition work_cmd (pod : Pod) (sysctls : gmap string string) (l : loop) : PodEnsureCmd :=
  {| pec_PodUid := pod_UID pod; pec_Namespace := pod_Namespace pod; pec_Name := pod_Name pod;
     pec_Labels := ∅; pec_RestartPolicy := translateRestartPolicy (sp_RestartPolicy (pod_Spec pod));
     pec_HostIpc := false; pec_HostNetwork := false; pec_HostPid := false; pec_Hostname := ""; pec_SharePid := false;
     pec_Network := None; pec_Containers := lo_containers l; pec_Wait := false; pec_HostPaths := lo_hostPaths l;
     pec_VolumeData := lo_volumeData l; pec_Sysctls := sysctls |}.

Definition pod_hosts (pod : Pod) : gmap string string :=
  foldl (λ m a, <[ha_IP a := join " " (ha_Hostnames a)]> m) ∅ (sp_HostAliases (pod_Spec pod)).
Definition pod_sysctls (pod : Pod) : gmap string string :=
  match sp_SecurityContext (pod_Spec pod) with
  | None => ∅
  | Some c => foldl (λ m s, <[s.1 := s.2]> m) ∅ (psc_Sysctls c)
  end.

Definition all_or_none (l : loop) (ctrs : list Container) : bool :=
  (lo_found l =? 0)%nat || (lo_found l =? length ctrs)%nat.

Definition translatePodCreateOptions (ipv4PodCIDR ipv6PodCIDR : string) (pod : Pod)
    (envs : gmap string (gmap string string)) (authConfigs : gmap string ImageAuthConfig)
    (volumeData : gmap string NamedData) (dnsConfig : AranyaDNSConfig) : outcome (result create_options) :=
  let spec := pod_Spec pod in
  match
    (r ← wrap_err "failed to create network request: "
           (NewRequest (Network.translatePodNetworkOptions ExtractBandwidth pod ipv4PodCIDR ipv6PodCIDR dnsConfig));
     bytes ← wrap_err "failed to encode network request: " (Request_Marshal r);
     hostPaths ← resolve_host_paths (sp_Volumes spec);
     Ok (bytes, hostPaths))
  with
  | Err e => Ret (Err e)
  | Ok (netReqBytes, hostPaths) =>
      let net := {| pns_Nameservers := dns_Servers dnsConfig; pns_DnsSearches := dns_Searches dnsConfig;
                    pns_DnsOptions := dns_Options dnsConfig; pns_Hosts := pod_hosts pod;
                    pns_AbbotRequestBytes := netReqBytes |} in
      let sysctls := pod_sysctls pod in
      work ← run_loop pod envs authConfigs volumeData hostPaths ∅ (sp_Containers spec);
      if negb (all_or_none work (sp_Containers spec)) then Ret (Err "invalid work container images") else
      match sp_InitContainers spec with
      | [] =>
          Ret (Ok {| co_images := lo_imagePull work; co_init := None;
                     co_work := sandbox_cmd pod net sysctls (translateRestartPolicy (sp_RestartPolicy spec)) false work;
                     co_initHostExec := false; co_workHostExec := lo_hostExec work |})
      | inits =>
          init ← run_loop pod envs authConfigs volumeData hostPaths (lo_imagePull work) inits;
          if negb (all_or_none init inits) then Ret (Err "invalid init container images") else
          Ret (Ok {| co_images := lo_imagePull init;
                     co_init := Some (sandbox_cmd pod net sysctls RESTART_NEVER true init);
                     co_work := work_cmd pod sysctls work;
                     co_initHostExec := lo_hostExec init; co_workHostExec := lo_hostExec work |})
      end
  end.

(** ** What the loops collect *)

Lemma copy_keys_lookup {A} (data : gmap string A) (l : list string) m k :
  foldl (copy_key data) m l !! k = if decide (k ∈ l ∧ is_Some (data !! k)) then data !! k else m !! k.
Proof.
  revert m. induction l as [|x l IH]; intros m; cbn [foldl].
  - rewrite decide_False; [done|]. by intros [?%elem_of_nil _].
  - rewrite IH. unfold copy_key. destruct (decide (k ∈ l ∧ is_Some (data !! k))) as [H|H].
    + rewrite decide_True by (rewrite elem_of_cons; tauto). done.
    + destruct (decide (k = x)) as [->|Hne].
      * destruct (data !! x) as [d|] eqn:Hd; rewrite ?lookup_insert_eq.
        -- rewrite decide_True; [done|]. split; [left|by eauto].
        -- rewrite decide_False; [done|]. intros [_ [? ?] ]. congruence.
      * rewrite decide_False by (rewrite elem_of_cons; tauto). destruct (data !! x); by rewrite ?lookup_insert_ne.
Qed.

(** The names of the volumes mounted by some container. *)
Definition mounted (ctrs : list Container) : list string := ctr ← ctrs; vm_Name <$> ctr_VolumeMounts ctr.
Definition virtual (ctr : Container) : Prop := ctr_Image ctr = VirtualImageNameHostExec.

Section Loop_facts.
Context (pod : Pod) (envs : gmap string (gmap string string)) (authConfigs : gmap string ImageAuthConfig)
  (volumeData : gmap string NamedData) (hostPaths : gmap string string).

Definition pull_spec (ctr : Container) : ImagePullSpec :=
  {| ips_AuthConfig := authConfigs !! ctr_Image ctr;
     ips_PullPolicy := translateImagePullPolicy (ctr_ImagePullPolicy ctr) |}.
Definition loop_result (imagePull : gmap string ImagePullSpec) (ctrs : list Container) (l : loop) : Prop :=
  Forall2 (λ ctr spec, translateContainerSpec pod envs ctr = Ret spec) ctrs (lo_containers l) ∧
  (lo_hostExec l = true ↔ Exists virtual ctrs) ∧
  lo_found l = length (filter virtual ctrs) ∧
  (∀ img, lo_imagePull l !! img =
     match last (filter (λ ctr, ctr_Image ctr = img ∧ ¬ virtual ctr) ctrs) with
     | Some ctr => Some (pull_spec ctr)
     | None => imagePull !! img
     end) ∧
  (∀ k, lo_volumeData l !! k = if decide (k ∈ mounted ctrs) then volumeData !! k else None) ∧
  (∀ k, lo_hostPaths l !! k = if decide (k ∈ mounted ctrs) then hostPaths !! k else None).

Lemma copy_step {A} (data m : gmap string A) ctrs ctr :
  (∀ k, m !! k = if decide (k ∈ mounted ctrs) then data !! k else None) →
  ∀ k, foldl (copy_key data) m (vm_Name <$> ctr_VolumeMounts ctr) !! k =
    if decide (k ∈ mounted (ctrs ++ [ctr])) then data !! k else None.
Proof.
  intros Hm k. rewrite copy_keys_lookup, Hm. unfold mounted. rewrite bind_app. cbn. rewrite app_nil_r.
  destruct (data !! k) as [d|] eqn:Hd; repeat case_decide; try done; exfalso; set_solver.
Qed.

Lemma run_loop_result imagePull ctrs :
  match run_loop pod envs authConfigs volumeData hostPaths imagePull ctrs with
  | Ret l => loop_result imagePull ctrs l
  | Panic w => w = nil_deref ∧ Exists (λ ctr, Exists tcp_handler (handlers ctr)) ctrs
  | Diverge => False
  end.
Proof.
  unfold run_loop. induction ctrs as [|ctr ctrs IH] using rev_ind.
  - cbn. unfold loop_result. cbn. split_and!; try done; try (by rewrite Exists_nil).
  - rewrite foldl_app. cbn [foldl]. destruct (foldl _ _ ctrs) as [l|w|]; [|cbn; rewrite Exists_app; tauto|done].
    destruct IH as (H1 & H2 & H3 & H4 & H5 & H6). cbn [mbind outcome_bind]. unfold loop_step.
    destruct (translateContainerSpec_cases pod envs ctr) as [ [Ht ->]|[Ht (spec & Hspec & _)] ]; cbn [mbind outcome_bind].
    { split; [done|]. apply Exists_app. right. by constructor. }
    rewrite Hspec. cbn [mbind outcome_bind]. unfold loop_result.
    cbn [lo_containers lo_hostExec lo_found lo_imagePull lo_volumeData lo_hostPaths]. split_and!.
    + apply Forall2_app; [done|]. by repeat constructor.
    + rewrite orb_true_iff, H2, bool_decide_eq_true, Exists_app, Exists_cons, Exists_nil. unfold virtual. tauto.
    + rewrite filter_app, length_app, H3, filter_cons, filter_nil.
      change (ctr_Image ctr = VirtualImageNameHostExec) with (virtual ctr).
      case_bool_decide as Hv; [rewrite (decide_True _ _ Hv)|rewrite (decide_False _ _ Hv)]; cbn; lia.
    + intros img. rewrite filter_app, last_app, filter_cons, filter_nil.
      change (ctr_Image ctr = VirtualImageNameHostExec) with (virtual ctr).
      case_bool_decide as Hv; [rewrite decide_False by tauto; apply H4|].
      destruct (decide (ctr_Image ctr = img)) as [<-|Hne].
      * rewrite decide_True by done. cbn. by rewrite lookup_insert_eq.
      * rewrite decide_False by tauto. rewrite lookup_insert_ne by done. apply H4.
    + by apply copy_step.
    + by apply copy_step.
Qed.
End Loop_facts.

Lemma all_or_none_spec pod envs ac vd hp ip ctrs l :
  loop_result pod envs ac vd hp ip ctrs l →
  all_or_none l ctrs = true ↔ (∀ ctr, ctr ∈ ctrs → ¬ virtual ctr) ∨ (∀ ctr, ctr ∈ ctrs → virtual ctr).
Proof.
  intros (_ & _ & Hf & _). unfold all_or_none.
  by rewrite orb_true_iff, !Nat.eqb_eq, Hf, length_filter_0, length_filter_full.
Qed.

(** ** What a successful translation is *)

Section Create.
Context (v4 v6 : string) (pod : Pod) (envs : gmap string (gmap string string)) (authConfigs : gmap string ImageAuthConfig)
  (volumeData : gmap string NamedData) (dns : AranyaDNSConfig).
Local Abbreviation create := (translatePodCreateOptions v4 v6 pod envs authConfigs volumeData dns).
Local Abbreviation ctrs := (sp_Containers (pod_Spec pod)).
Local Abbreviation inits := (sp_InitContainers (pod_Spec pod)).

Lemma create_inv o :
  create = Ret (Ok o) →
  ∃ net hostPaths work,
    resolve_host_paths (sp_Volumes (pod_Spec pod)) = Ok hostPaths ∧
    pns_Nameservers net = dns_Servers dns ∧ pns_DnsSearches net = dns_Searches dns ∧
    pns_DnsOptions net = dns_Options dns ∧ pns_Hosts net = pod_hosts pod ∧
    loop_result pod envs authConfigs volumeData hostPaths ∅ ctrs work ∧ all_or_none work ctrs = true ∧
    co_workHostExec o = lo_hostExec work ∧
    ((inits = [] ∧ co_images o = lo_imagePull work ∧ co_init o = None ∧ co_initHostExec o = false ∧
      co_work o = sandbox_cmd pod net (pod_sysctls pod) (translateRestartPolicy (sp_RestartPolicy (pod_Spec pod))) false work) ∨
     (inits ≠ [] ∧ ∃ init, loop_result pod envs authConfigs volumeData hostPaths (lo_imagePull work) inits init ∧
      all_or_none init inits = true ∧ co_images o = lo_imagePull init ∧ co_initHostExec o = lo_hostExec init ∧
      co_init o = Some (sandbox_cmd pod net (pod_sysctls pod) RESTART_NEVER true init) ∧
      co_work o = work_cmd pod (pod_sysctls pod) work)).
Proof.
  unfold translatePodCreateOptions. intros Hc.
  destruct (wrap_err _ _ ≫= _) as [ [bytes hostPaths]|e] eqn:Hpre; [|done].
  assert (resolve_host_paths (sp_Volumes (pod_Spec pod)) = Ok hostPaths) as Hhp.
  { destruct (NewRequest _); cbn in Hpre; [|done]. destruct (Request_Marshal _); cbn in Hpre; [|done].
    destruct (resolve_host_paths _); cbn in Hpre; by simplify_eq. }
  pose proof (run_loop_result pod envs authConfigs volumeData hostPaths ∅ ctrs) as Hw.
  destruct (run_loop _ _ _ _ _ ∅ ctrs) as [work| |]; [|done|done]. cbn [mbind outcome_bind] in Hc.
  destruct (all_or_none work ctrs) eqn:Haw; [|done]. cbn [negb] in Hc.
  destruct inits as [|i0 irest] eqn:Hi.
  - simplify_eq. eexists {| pns_AbbotRequestBytes := bytes |}, hostPaths, work. split_and!; try done. by left.
  - pose proof (run_loop_result pod envs authConfigs volumeData hostPaths (lo_imagePull work) (i0 :: irest)) as Hir.
    destruct (run_loop _ _ _ _ _ _ (i0 :: irest)) as [init| |]; [|done|done]. cbn [mbind outcome_bind] in Hc.
    destruct (all_or_none init (i0 :: irest)) eqn:Hai; [|done]. cbn [negb] in Hc. simplify_eq.
    eexists {| pns_AbbotRequestBytes := bytes |}, hostPaths, work. split_and!; try done.
    right. split; [done|]. exists init. by split_and!.
Qed.

(** The images of a pod's creation. The device is asked for exactly the images of the containers that are
    not virtual, each with the credentials of the image and the pull policy of the last container that
    uses it, init containers after work containers; virtual and real images are never mixed among the
    work containers nor among the init containers, and the host-exec flags tell which they are. *)
Lemma create_images_correct o :
  create = Ret (Ok o) →
  (∀ img, co_images o !! img =
     pull_spec authConfigs <$> last (filter (λ ctr, ctr_Image ctr = img ∧ ¬ virtual ctr) (ctrs ++ inits))) ∧
  ((co_workHostExec o = true ∧ ∀ ctr, ctr ∈ ctrs → virtual ctr) ∨
   (co_workHostExec o = false ∧ ∀ ctr, ctr ∈ ctrs → ¬ virtual ctr)) ∧
  ((co_initHostExec o = true ∧ ∀ ctr, ctr ∈ inits → virtual ctr) ∨
   (co_initHostExec o = false ∧ ∀ ctr, ctr ∈ inits → ¬ virtual ctr)).
Proof.
  intros (net & hp & work & _ & _ & _ & _ & _ & Hw & Haw & Hwe & Hrest)%create_inv.
  assert (∀ ip cs l, loop_result pod envs authConfigs volumeData hp ip cs l → all_or_none l cs = true →
    (lo_hostExec l = true ∧ ∀ ctr, ctr ∈ cs → virtual ctr) ∨
    (lo_hostExec l = false ∧ ∀ ctr, ctr ∈ cs → ¬ virtual ctr)) as Hflag.
  { intros ip cs l Hl Ha. pose proof Hl as (_ & He & _). apply (all_or_none_spec _ _ _ _ _ _ _ _ Hl) in Ha.
    destruct (lo_hostExec l) eqn:Hh; [left|right]; (split; [done|]).
    - destruct He as [He _]. apply Exists_exists in He as (c & Hc & Hv); [|done].
      destruct Ha as [Ha|Ha]; [by destruct (Ha c)|done].
    - intros c Hc Hv. destruct He as [_ He]. assert (Exists virtual cs) as Hex by (apply Exists_exists; eauto).
      by apply He in Hex. }
  pose proof Hw as (_ & _ & _ & Himg & _). rewrite Hwe.
  destruct Hrest as [(Hi & -> & _ & -> & _)|(Hi & init & Hir & Hai & -> & -> & _)].
  - rewrite Hi. split_and!.
    + intros img. rewrite Himg, app_nil_r, lookup_empty. by destruct (last _).
    + by apply (Hflag ∅).
    + right. split; [done|]. by intros ctr ?%elem_of_nil.
  - split_and!; [|by apply (Hflag ∅)|by eapply Hflag].
    pose proof Hir as (_ & _ & _ & Hii & _). intros img. rewrite Hii, filter_app, last_app, Himg, lookup_empty.
    destruct (last (filter _ inits)); [done|]. by destruct (last (filter _ ctrs)).
Qed.

(** The sandbox of a pod is described once. With init containers it is the init command that carries labels,
    kernel namespaces and network, runs without restart and is waited for, and the work command carries none of
    them; without, the work command does. Either way the containers of the commands are those of the pod, in order. *)
Lemma create_sandbox_correct o :
  create = Ret (Ok o) →
  let first := default (co_work o) (co_init o) in
  (is_Some (co_init o) ↔ inits ≠ []) ∧
  pec_Labels first = getPodLabels (pod_Labels pod) ∧
  pec_HostNetwork first = sp_HostNetwork (pod_Spec pod) ∧ pec_HostIpc first = sp_HostIPC (pod_Spec pod) ∧
  pec_HostPid first = sp_HostPID (pod_Spec pod) ∧ pec_Hostname first = sp_Hostname (pod_Spec pod) ∧
  (∃ net, pec_Network first = Some net ∧ pns_Nameservers net = dns_Servers dns ∧ pns_Hosts net = pod_hosts pod) ∧
  pec_RestartPolicy (co_work o) = translateRestartPolicy (sp_RestartPolicy (pod_Spec pod)) ∧ pec_Wait (co_work o) = false ∧
  cspec_Name <$> pec_Containers (co_work o) = ctr_Name <$> ctrs ∧
  (∀ cmd, co_init o = Some cmd →
     pec_RestartPolicy cmd = RESTART_NEVER ∧ pec_Wait cmd = true ∧ cspec_Name <$> pec_Containers cmd = ctr_Name <$> inits ∧
     pec_Network (co_work o) = None ∧ pec_Labels (co_work o) = ∅ ∧ pec_HostNetwork (co_work o) = false).
Proof.
  intros (net & hp & work & _ & Hs & _ & _ & Hh & Hw & _ & _ & Hrest)%create_inv.
  assert (∀ ip cs l, loop_result pod envs authConfigs volumeData hp ip cs l →
    cspec_Name <$> lo_containers l = ctr_Name <$> cs) as Hnames.
  { intros ip cs l (Hl & _). induction Hl as [|ctr spec cs' l' Hc _ IH]; [done|]. rewrite !fmap_cons, IH. f_equal.
    destruct (translateContainerSpec_cases pod envs ctr) as [ [_ Hp]|[_ (spec' & Hp & ? & _)] ]; congruence. }
  destruct Hrest as [(Hi & _ & Hci & _ & Hcw)|(Hi & init & Hir & _ & _ & _ & Hci & Hcw)];
    rewrite Hci, Hcw; cbn; split_and!; try done; try (by eauto); try (by eapply Hnames).
  all: try (split; [by intros [? ?]|done]).
  intros cmd [= <-]. cbn. split_and!; try done. by eapply Hnames.
Qed.

Lemma resolve_host_paths_snoc l vol :
  resolve_host_paths (l ++ [vol]) = (m ← resolve_host_paths l; host_path m vol).
Proof. unfold resolve_host_paths. by rewrite foldl_app. Qed.

(** The path of a volume in the device. *)
Definition path_of (vol : Volume) : option string :=
  match v_HostPath vol with
  | Some path => Some path
  | None =>
      if v_EmptyDir vol then Some "" else
      match v_PersistentVolumeClaim vol, v_CSI vol with
      | None, None => None
      | _, _ => vnp_path <$> last (filter (λ v, vnp_name v = v_Name vol) volNames)
      end
  end.
Definition remote (vol : Volume) : Prop :=
  v_HostPath vol = None ∧ v_EmptyDir vol = false ∧ (is_Some (v_PersistentVolumeClaim vol) ∨ is_Some (v_CSI vol)).

Lemma host_path_cases m vol :
  match host_path m vol with
  | Ok m' => (remote vol → StorageEnabled = true ∧ is_Some (path_of vol)) ∧
             m' = match path_of vol with Some p => <[v_Name vol := p]> m | None => m end
  | Err _ => remote vol ∧ (StorageEnabled = false ∨ path_of vol = None)
  end.
Proof.
  unfold host_path, path_of, remote.
  destruct (v_HostPath vol) as [p|]; [by split; [intros (? & _)|]|].
  destruct (v_EmptyDir vol); [by split; [intros (_ & ? & _)|]|].
  destruct (v_PersistentVolumeClaim vol) as [pvc|], (v_CSI vol) as [csi|]; cycle 3.
  { split; [|done]. intros (_ & _ & [ [? ?]|[? ?] ]); done. }
  all: destruct StorageEnabled; cbn; [|split; [by eauto|by left] ];
    destruct (last _) as [v|]; cbn; [by split; [by eauto|]|by split; [by eauto|right] ].
Qed.

Lemma resolve_host_paths_spec l :
  NoDup (v_Name <$> l) →
  match resolve_host_paths l with
  | Ok m => Forall (λ vol, remote vol → StorageEnabled = true ∧ is_Some (path_of vol)) l ∧
      (∀ vol, vol ∈ l → m !! v_Name vol = path_of vol) ∧ (∀ k, k ∉ v_Name <$> l → m !! k = None)
  | Err _ => Exists (λ vol, remote vol ∧ (StorageEnabled = false ∨ path_of vol = None)) l
  end.
Proof.
  induction l as [|vol l IH] using rev_ind; intros Hnd.
  - cbn. split_and!; [done|by intros ? ?%elem_of_nil|done].
  - rewrite fmap_app in Hnd. apply NoDup_app in Hnd as (Hnd & Hdis & _). specialize (IH Hnd).
    rewrite resolve_host_paths_snoc. destruct (resolve_host_paths l) as [m|e]; cbn [mbind result_bind].
    + pose proof (host_path_cases m vol) as Hv. destruct (host_path m vol) as [m'|e].
      * destruct IH as (Hf & Hin & Hout), Hv as [Hr ->].
        assert (m !! v_Name vol = None) as Hnone by (apply Hout; intros Hx; apply (Hdis _ Hx); set_solver).
        split_and!.
        -- apply Forall_app. auto.
        -- intros w [Hw|Hw%list_elem_of_singleton]%elem_of_app.
           ++ rewrite <-(Hin w Hw). destruct (path_of vol); [|done]. apply lookup_insert_ne. intros Hk.
              apply (Hdis (v_Name w)); [by apply list_elem_of_fmap_2|]. rewrite <-Hk. set_solver.
           ++ subst w. destruct (path_of vol); [apply lookup_insert_eq|done].
        -- intros k Hk. rewrite fmap_app in Hk. destruct (path_of vol); [rewrite lookup_insert_ne|]; set_solver.
      * apply Exists_app. right. constructor. exact Hv.
    + apply Exists_app. by left.
Qed.

(** The volumes of a pod's creation. Each command has the paths of exactly the volumes its own containers
    mount and that have a path (the host's, an empty one for a directory to be made, the remote one for a claim or a
    CSI volume) and the data of exactly the mounted volumes that have data; no volume that needs storage is left
    without. *)
Lemma create_volumes_correct o vol :
  NoDup (v_Name <$> sp_Volumes (pod_Spec pod)) → create = Ret (Ok o) → vol ∈ sp_Volumes (pod_Spec pod) →
  (remote vol → StorageEnabled = true ∧ is_Some (path_of vol)) ∧
  (∀ cs cmd, (cs = ctrs ∧ cmd = co_work o) ∨ (cs = inits ∧ co_init o = Some cmd) →
     (∀ p, pec_HostPaths cmd !! v_Name vol = Some p ↔ v_Name vol ∈ mounted cs ∧ path_of vol = Some p) ∧
     (∀ d, pec_VolumeData cmd !! v_Name vol = Some d ↔ v_Name vol ∈ mounted cs ∧ volumeData !! v_Name vol = Some d)).
Proof.
  intros Hnd (net & hp & work & Hhp & _ & _ & _ & _ & Hw & _ & _ & Hrest)%create_inv Hin.
  pose proof (resolve_host_paths_spec _ Hnd) as Hspec. rewrite Hhp in Hspec. destruct Hspec as (Hf & Hm & _).
  split; [by apply (proj1 (Forall_forall _ _) Hf)|].
  assert (∀ ip cs l, loop_result pod envs authConfigs volumeData hp ip cs l →
     (∀ p, lo_hostPaths l !! v_Name vol = Some p ↔ v_Name vol ∈ mounted cs ∧ path_of vol = Some p) ∧
     (∀ d, lo_volumeData l !! v_Name vol = Some d ↔ v_Name vol ∈ mounted cs ∧ volumeData !! v_Name vol = Some d)) as Hl.
  { intros ip cs l (_ & _ & _ & _ & Hd & Hp). split; intros x; rewrite ?Hd, ?Hp, ?(Hm vol Hin); case_decide; naive_solver. }
  intros cs cmd Hcmd.
  destruct Hrest as [(Hi & _ & Hci & _ & Hcw)|(Hi & init & Hir & _ & _ & _ & Hci & Hcw)];
    rewrite Hci, Hcw in Hcmd; destruct Hcmd as [ [-> ->]|[-> Hcmd] ]; simplify_eq; cbn; by eapply Hl.
Qed.

(** A pod without TCP checks is translated or refused with an error; one whose first container (the others are
    like it) has a TCP probe or a TCP post-start hook crashes the program, once its network request and volumes
    are resolved. *)
Lemma create_total :
  (Forall (λ ctr, ¬ Exists tcp_handler (handlers ctr)) (ctrs ++ inits) → ∃ r, create = Ret r) ∧
  (∀ r bytes hp, NewRequest (Network.translatePodNetworkOptions ExtractBandwidth pod v4 v6 dns) = Ok r →
     Request_Marshal r = Ok bytes → resolve_host_paths (sp_Volumes (pod_Spec pod)) = Ok hp →
     Exists (λ ctr, Exists tcp_handler (handlers ctr)) ctrs → create = Panic nil_deref).
Proof.
  split.
  - intros [Hw Hi]%Forall_app. unfold translatePodCreateOptions.
    destruct (wrap_err _ _ ≫= _) as [ [bytes hp]|e]; [|by eexists].
    pose proof (run_loop_result pod envs authConfigs volumeData hp ∅ ctrs) as Hr.
    assert (∀ l, Forall (λ ctr, ¬ Exists tcp_handler (handlers ctr)) l →
      ¬ Exists (λ ctr, Exists tcp_handler (handlers ctr)) l) as Hno by (intros l Hl Hx; by apply Forall_not_Exists in Hl).
    destruct (run_loop _ _ _ _ _ ∅ ctrs) as [work|w|]; [|destruct Hr as [_ Hr]; by apply Hno in Hw|done].
    cbn [mbind outcome_bind]. destruct (negb _); [by eexists|].
    destruct inits as [|i0 irest]; [by eexists|].
    pose proof (run_loop_result pod envs authConfigs volumeData hp (lo_imagePull work) (i0 :: irest)) as Hri.
    destruct (run_loop _ _ _ _ _ _ (i0 :: irest)) as [init|w|]; [|destruct Hri as [_ Hri]; by apply Hno in Hi|done].
    cbn [mbind outcome_bind]. by destruct (negb _); eexists.
  - intros r bytes hp Hr Hb Hhp Hx. unfold translatePodCreateOptions.
    rewrite Hr. cbn [wrap_err mbind result_bind]. rewrite Hb. cbn [wrap_err mbind result_bind]. rewrite Hhp.
    cbn [mbind result_bind]. pose proof (run_loop_result pod envs authConfigs volumeData hp ∅ ctrs) as Hrun.
    destruct (run_loop _ _ _ _ _ ∅ ctrs) as [work|w|]; [|by destruct Hrun as [-> _]|done].
    exfalso. destruct Hrun as [Hl _]. apply Exists_exists in Hx as (ctr & Hin & Ht).
    apply list_elem_of_lookup_1 in Hin as [i Hi]. destruct (Forall2_lookup_l _ _ _ _ _ Hl Hi) as (spec & _ & Hs).
    destruct (translateContainerSpec_cases pod envs ctr) as [ [_ Hp]|[Hn _] ]; [congruence|done].
Qed.

End Create.
End PodOptions.
End PodOptions.

Module Examples.
Import Status Container PodOptions.

(** Times are the numbers of nanoseconds, in decimal with one digit. *)
Definition parse_digit (s : string) : Z :=
  match s with String a EmptyString => Z.max 0 (Z.of_nat (Ascii.nat_of_ascii a) - 48) | _ => 0 end.
Lemma parse_digit_nonneg s : 0 ≤ parse_digit s.
Proof. destruct s as [|a [|? ?] ]; cbn; lia. Qed.
Definition device (created started finished : string) (code : Z) : DeviceStatus := {|
  d_ContainerId := "c"; d_ImageId := "i"; d_CreatedAt := created; d_StartedAt := started; d_FinishedAt := finished;
  d_ExitCode := code; d_Reason := ""; d_Message := "" |}.
Definition ctr (name image : string) : Container := Samples.ctr name image [] [] [].
Definition report : PodStatusMsg := {|
  psm_Uid := "u"; psm_Network := ""; psm_Containers := {["a" := device "1" "2" "" 0; "b" := device "1" "2" "5" 3]} |}.

Lemma resolveContainerStatus_correct_witness :
  (resolveContainerStatus parse_digit [ctr "a" "x"; ctr "b" "y"; ctr "c" "z"] report).1 = PodFailed.
Proof.
  pose proof (resolveContainerStatus_correct parse_digit [ctr "a" "x"; ctr "b" "y"; ctr "c" "z"] report
    (λ s, parse_digit_nonneg (d_FinishedAt s))) as H.
  destruct (resolveContainerStatus parse_digit _ report) as [phase statuses]. destruct H as (_ & _ & ->).
  by vm_compute.
Defined.

Lemma created_container_succeeded_witness :
  (resolveContainerStatus parse_digit [ctr "a" "x"]
    {| psm_Uid := "u"; psm_Network := ""; psm_Containers := {["a" := device "1" "" "" 0]} |}).1 = PodSucceeded.
Proof.
  apply created_container_succeeded; [done|].
  intros c ->%list_elem_of_singleton. by exists (device "1" "" "" 0).
Defined.

Definition tcp_probe : Probe := {|
  pr_Handler := {| h_Exec := None; h_HTTPGet := None;
                   h_TCPSocket := Some {| ts_Port := {| ios_Type := 0; ios_IntVal := 80; ios_StrVal := "" |}; ts_Host := "" |} |};
  pr_InitialDelaySeconds := 0; pr_TimeoutSeconds := 1; pr_PeriodSeconds := 10; pr_SuccessThreshold := 1; pr_FailureThreshold := 3 |}.
Definition web : Container := {|
  ctr_Name := "web"; ctr_Image := "nginx"; ctr_Command := []; ctr_Args := []; ctr_WorkingDir := ""; ctr_Ports := [];
  ctr_EnvFrom := []; ctr_Env := []; ctr_VolumeMounts := []; ctr_LivenessProbe := Some tcp_probe; ctr_ReadinessProbe := None;
  ctr_Lifecycle := None; ctr_ImagePullPolicy := "Always"; ctr_SecurityContext := None; ctr_Stdin := false; ctr_TTY := false;
  ctr_Requests := ∅; ctr_Limits := ∅ |}.
Definition mount (name path : string) : VolumeMount :=
  {| vm_Name := name; vm_ReadOnly := true; vm_MountPath := path; vm_SubPath := "" |}.
Definition claim : Volume := {|
  v_Name := "data"; v_HostPath := None; v_EmptyDir := false; v_ConfigMap := None; v_Secret := None;
  v_PersistentVolumeClaim := Some {| pvc_ClaimName := "c"; pvc_ReadOnly := false |}; v_CSI := None |}.
(** Of two mounts of a volume the last one is kept; it is writable although it asks not to be. *)
Lemma translateContainerSpec_correct_witness :
  translateContainerSpec (Samples.pod "u" "p" (Samples.spec [] [] [web])) ∅ web = Panic nil_deref ∧
  ∃ spec, translateContainerSpec (Samples.pod "u" "p" (Samples.spec [claim] [] [])) ∅
            (Samples.ctr "db" "pg" [mount "data" "/a"; mount "data" "/b"] [] []) = Ret spec ∧
    (cms_MountPath <$> cspec_Mounts spec !! "data") = Some "/b" ∧ (cms_ReadOnly <$> cspec_Mounts spec !! "data") = Some false.
Proof.
  split.
  - apply translateContainerSpec_correct. cbn. apply Exists_cons. left. split_and!; [done..|by eexists].
  - destruct (translateContainerSpec_correct (Samples.pod "u" "p" (Samples.spec [claim] [] [])) ∅
      (Samples.ctr "db" "pg" [mount "data" "/a"; mount "data" "/b"] [] [])) as [_ H].
    destruct H as (spec & Hs & _ & _ & _ & _ & _ & Hm); [by intros ?%Exists_nil|].
    exists spec. rewrite Hm. by split_and!.
Defined.

Definition bandwidth (m : gmap string string) : option Z * option Z := (Some 3000000000, None).
Definition dns0 : AranyaDNSConfig := {| dns_Servers := ["10.0.0.10"]; dns_Searches := []; dns_Options := [] |}.
Lemma bandwidth_bounds_witness :
  ∃ r r', Network.BandwidthArg r Network.MaxInt32 r' Network.MaxInt32 ∈ Network.cner_CapArgs
    (Network.translatePodNetworkOptions bandwidth (Samples.pod "u" "p" (Samples.spec [] [] [])) "" "" dns0) ∧ r < 0.
Proof.
  destruct (Network.bandwidth_bounds bandwidth (Samples.pod "u" "p" (Samples.spec [] [] [])) "" "" dns0 3000000000 None)
    as (r & r' & Hin & _ & _ & Hr & _); [done|unfold Network.accepted; lia|].
  exists r, r'. split; [done|]. by apply Hr.
Defined.

(** A pod with a claimed volume, an init container and a work container. *)
Definition pod1 : Pod := Samples.pod "u" "p"
  (Samples.spec [claim] [ctr "setup" "busybox"] [Samples.ctr "db" "pg" [mount "data" "/a"] [] []]).
Definition create1 : outcome (result create_options) :=
  translatePodCreateOptions unit (λ _, Ok tt) (λ _, Ok "req") bandwidth true [{| vnp_name := "data"; vnp_path := "/remote/data" |}]
    "10.1.0.0/24" "" pod1 ∅ ∅ ∅ dns0.
Lemma create1_Ret : ∃ o, create1 = Ret (Ok o).
Proof. eexists. by vm_compute. Qed.

Lemma create_images_correct_witness :
  ∃ o, create1 = Ret (Ok o) ∧ (ips_PullPolicy <$> co_images o !! "busybox") = Some IMAGE_PULL_ALWAYS ∧ co_images o !! "mysql" = None.
Proof.
  destruct create1_Ret as [o Ho]. exists o. split; [done|].
  destruct (create_images_correct _ _ _ _ _ _ _ _ _ _ _ _ _ o Ho) as (Hi & _). rewrite !Hi. by vm_compute.
Defined.

Lemma create_sandbox_correct_witness : ∃ o cmd, create1 = Ret (Ok o) ∧ co_init o = Some cmd ∧ pec_Network (co_work o) = None.
Proof.
  destruct create1_Ret as [o Ho]. exists o.
  destruct (create_sandbox_correct _ _ _ _ _ _ _ _ _ _ _ _ _ o Ho) as (Hi & _ & _ & _ & _ & _ & _ & _ & _ & _ & Hcmd).
  destruct Hi as [_ [cmd Hi] ]; [done|]. exists cmd. split_and!; [done..|]. by apply (Hcmd cmd).
Defined.

Lemma create_volumes_correct_witness :
  ∃ o, create1 = Ret (Ok o) ∧ pec_HostPaths (co_work o) !! "data" = Some "/remote/data".
Proof.
  destruct create1_Ret as [o Ho]. exists o. split; [done|].
  assert (NoDup (v_Name <$> sp_Volumes (pod_Spec pod1))) as Hnd by apply NoDup_singleton.
  destruct (create_volumes_correct _ _ _ _ _ _ _ _ _ _ _ _ _ o claim Hnd Ho) as [_ H]; [by left|].
  destruct (H (sp_Containers (pod_Spec pod1)) (co_work o)) as [Hp _]; [by left|].
  apply (Hp "/remote/data"). split; [by left|done].
Defined.

Lemma create_total_witness :
  translatePodCreateOptions unit (λ _, Ok tt) (λ _, Ok "req") bandwidth false [] "" "" (Samples.pod "u" "p" (Samples.spec [] [] [web]))
    ∅ ∅ ∅ dns0 = Panic nil_deref.
Proof.
  eapply (create_total unit (λ _, Ok tt) (λ _, Ok "req") bandwidth false []); [done..|].
  apply Exists_cons. left. cbn. apply Exists_cons. left. split_and!; [done..|by eexists].
Defined.

End Examples.
