(* ===== verification/PodResolve.v ===== *)
(** * What a pod refers to

    src/pkg/virtualnode/pod/resolve_env.go with the expansion of variable references it uses
    (modules [Expansion], [Env]), resolve_volume_data.go ([VolumeData]),
    resolve_image_pull_secret.go ([ImagePull]), resolve_dns.go ([Dns]) and respod_volume.go ([VolumesInUse]). *)
From S2P Require Import Prelude GoNet K8s PodTranslate.
Open Scope Z_scope.

Module Expansion.

(** '$', '(' and ')' *)
Definition operator : Ascii.ascii := Ascii.ascii_of_nat 36.
Definition referenceOpener : Ascii.ascii := Ascii.ascii_of_nat 40.
Definition referenceCloser : Ascii.ascii := Ascii.ascii_of_nat 41.

Definition syntaxWrap (input : string) : string :=
  String operator (String referenceOpener (input +:+ String referenceCloser EmptyString)).

Fixpoint MappingFuncFor (context : list (gmap string string)) (input : string) : string :=
  match context with
  | [] => syntaxWrap input
  | vars :: context => match vars !! input with Some val => val | None => MappingFuncFor context input end
  end.

(** string(b) of a byte b: the UTF-8 encoding of the code point b *)
Definition string_of_byte (a : Ascii.ascii) : string :=
  let n := Ascii.nat_of_ascii a in
  if (n <? 128)%nat then String a EmptyString
  else String (Ascii.ascii_of_nat (192 + n / 64)) (String (Ascii.ascii_of_nat (128 + n mod 64)) EmptyString).

(** The text, whether it is a variable's name, and the number of bytes consumed; an empty input would panic,
    and is not passed. *)
Definition tryReadVariableName (input : string) : string * bool * nat :=
  match input with
  | EmptyString => (EmptyString, false, 0%nat)
  | String a rest =>
      if decide (a = operator) then (String a EmptyString, false, 1%nat)
      else if decide (a = referenceOpener) then
        match cut_at referenceCloser rest with
        | Some (name, _) => (name, true, (String.length name + 2)%nat)
        | None => (String operator (String referenceOpener EmptyString), false, 1%nat)
        end
      else (String operator (string_of_byte a), false, 1%nat)
  end.

(** s[n:] and s[a:b] *)
Fixpoint drop_str (n : nat) (s : string) : string :=
  match n, s with
  | O, _ => s
  | S n, String _ s => drop_str n s
  | S n, EmptyString => EmptyString
  end.
Definition slice (a b : nat) (s : string) : string := String.substring a (b - a) s.

(** The loop over the cursor; a round reads at least one byte, so [length input] rounds are enough. *)
Fixpoint expand_loop (fuel : nat) (mapping : string → string) (input buf : string) (checkpoint cursor : nat) : string :=
  match fuel with
  | O => buf +:+ drop_str checkpoint input
  | S fuel =>
      if decide (cursor < String.length input)%nat then
        if decide (String.get cursor input = Some operator ∧ (cursor + 1 < String.length input)%nat) then
          let buf := buf +:+ slice checkpoint cursor input in
          let '(read, isVar, advance) := tryReadVariableName (drop_str (cursor + 1) input) in
          let buf := buf +:+ (if isVar : bool then mapping read else read) in
          let cursor := (cursor + advance)%nat in
          expand_loop fuel mapping input buf (cursor + 1) (cursor + 1)
        else expand_loop fuel mapping input buf checkpoint (cursor + 1)
      else buf +:+ drop_str checkpoint input
  end.
Definition Expand (input : string) (mapping : string → string) : string :=
  expand_loop (String.length input) mapping input EmptyString 0 0.

(** The reference definition: one pass from left to right. *)
Fixpoint expand_ref (fuel : nat) (mapping : string → string) (s : string) : string :=
  match fuel, s with
  | S fuel, String a (String b s' as rest) =>
      if decide (a = operator) then
        let '(read, isVar, advance) := tryReadVariableName rest in
        (if isVar : bool then mapping read else read) +:+ expand_ref fuel mapping (drop_str advance rest)
      else String a (expand_ref fuel mapping rest)
  | _, _ => s
  end.

Lemma drop_str_length n s : String.length (drop_str n s) = (String.length s - n)%nat.
Proof. revert s. induction n as [|n IH]; intros [|a s]; cbn; try lia. apply IH. Qed.
Lemma drop_str_drop n k s : drop_str n (drop_str k s) = drop_str (k + n) s.
Proof.
  revert s. induction k as [|k IH]; intros s; cbn; [done|]. destruct s; [|apply IH]. by destruct n.
Qed.
Lemma drop_str_cons n s a : String.get n s = Some a → drop_str n s = String a (drop_str (n + 1) s).
Proof.
  revert s. induction n as [|n IH]; intros [|b s]; cbn; intros Ha; simplify_eq; [done|by apply IH].
Qed.
Lemma get_lt n s : (n < String.length s)%nat → ∃ a, String.get n s = Some a.
Proof. revert s. induction n as [|n IH]; intros [|b s]; cbn; intros H; [lia|by eexists|lia|apply IH; lia]. Qed.
Lemma slice_snoc a n s c : (a ≤ n)%nat → String.get n s = Some c → slice a (n + 1) s = slice a n s +:+ String c EmptyString.
Proof.
  unfold slice. intros Hle. replace (n + 1 - a)%nat with (S (n - a)) by lia.
  assert (String.get n s = String.get (a + (n - a)) s) as -> by (f_equal; lia). clear Hle. generalize (n - a)%nat as k. clear n.
  revert a. induction s as [|b s IH]; intros a k Hc; [by destruct (a + k)%nat|].
  destruct a as [|a]; cbn in Hc |- *; [|by apply IH].
  destruct k as [|k]; cbn in Hc |- *; [by simplify_eq; destruct s|].
  rewrite str_app_cons. f_equal. apply (IH 0%nat k). done.
Qed.
Lemma slice_self n s : slice n n s = "".
Proof. unfold slice. rewrite Nat.sub_diag. revert n. induction s as [|b s IH]; intros [|n]; cbn; done. Qed.
Lemma slice_drop a n s : (a ≤ n ≤ String.length s)%nat → slice a n s +:+ drop_str n s = drop_str a s.
Proof.
  unfold slice. intros H. revert a n H. induction s as [|b s IH]; intros a n H; cbn in H.
  - assert (a = 0%nat) as -> by lia. assert (n = 0%nat) as -> by lia. done.
  - destruct a as [|a]; cbn.
    + destruct n as [|n]; cbn; [done|]. rewrite str_app_cons. f_equal. specialize (IH 0%nat n). cbn in IH. rewrite Nat.sub_0_r in IH. apply IH. lia.
    + destruct n as [|n]; [lia|]. cbn. apply IH. lia.
Qed.

Lemma cut_at_length c s l r : cut_at c s = Some (l, r) → (String.length l + 1 + String.length r = String.length s)%nat.
Proof.
  revert l. induction s as [|a s IH]; intros l; cbn; [done|]. case_decide; [by intros [= <- <-]|].
  destruct (cut_at c s) as [ [l' r']|]; cbn; [|done]. intros [= <- <-]. cbn. rewrite <-(IH l'); [lia|done].
Qed.
Lemma advance_bounds rest read isVar advance :
  rest ≠ EmptyString → tryReadVariableName rest = (read, isVar, advance) → (1 ≤ advance ≤ String.length rest)%nat.
Proof.
  destruct rest as [|a rest]; [done|]. intros _. cbn.
  repeat case_decide; [intros [= <- <- <-]; lia| |intros [= <- <- <-]; lia].
  destruct (cut_at _ rest) as [ [l r]|] eqn:Hc; intros [= <- <- <-]; [|lia]. apply cut_at_length in Hc. lia.
Qed.

Lemma expand_ref_short f mapping s : (String.length s ≤ 1)%nat → expand_ref f mapping s = s.
Proof. destruct f, s as [|a [|b s] ]; cbn; try done; lia. Qed.

Lemma expand_ref_fuel f g mapping s :
  (String.length s ≤ f)%nat → (String.length s ≤ g)%nat → expand_ref f mapping s = expand_ref g mapping s.
Proof.
  revert g s. induction f as [|f IH]; intros g s Hf Hg; [by rewrite !expand_ref_short by lia|].
  destruct g as [|g]; [by rewrite !expand_ref_short by lia|].
  destruct s as [|a [|b s] ]; [done..|]. cbn [String.length] in Hf, Hg.
  cbn [expand_ref]. case_decide.
  - destruct (tryReadVariableName _) as [ [read isVar] adv] eqn:Ht. apply advance_bounds in Ht; [|done].
    cbn [String.length] in Ht. f_equal. apply IH; rewrite drop_str_length; cbn [String.length]; lia.
  - f_equal. apply IH; cbn [String.length]; lia.
Qed.

Lemma expand_ref_skip f mapping s a :
  a ≠ operator ∨ s = EmptyString → expand_ref (S f) mapping (String a s) = String a (expand_ref f mapping s).
Proof.
  intros H. destruct s as [|b s]; cbn [expand_ref]; [by rewrite expand_ref_short by (cbn; lia)|].
  destruct H as [H|H]; [|done]. by rewrite decide_False.
Qed.

Lemma expand_loop_ref fuel mapping input buf checkpoint cursor :
  (checkpoint ≤ cursor ≤ String.length input)%nat → (String.length input - cursor ≤ fuel)%nat →
  expand_loop fuel mapping input buf checkpoint cursor =
    buf +:+ slice checkpoint cursor input +:+ expand_ref fuel mapping (drop_str cursor input).
Proof.
  revert buf checkpoint cursor. induction fuel as [|fuel IH]; intros buf cp cur Hle Hf.
  - cbn [expand_loop]. rewrite expand_ref_short by (rewrite drop_str_length; lia). by rewrite slice_drop.
  - cbn [expand_loop]. destruct (decide (cur < String.length input)%nat) as [Hlt|Hge].
    2: { rewrite expand_ref_short by (rewrite drop_str_length; lia). by rewrite slice_drop. }
    destruct (get_lt _ _ Hlt) as [a Ha]. pose proof (drop_str_cons _ _ _ Ha) as Hd.
    destruct (decide (String.get cur input = Some operator ∧ _)) as [ [Hop Hlt2]|Hno].
    + rewrite Hd. assert (a = operator) as -> by congruence.
      destruct (drop_str (cur + 1) input) as [|b rest] eqn:Hr.
      { pose proof (drop_str_length (cur + 1) input) as Hl. rewrite Hr in Hl. cbn in Hl. lia. }
      cbn [expand_ref]. rewrite decide_True by done.
      destruct (tryReadVariableName (String b rest)) as [ [read isVar] adv] eqn:Ht.
      assert (String b rest ≠ EmptyString) as Hne by done.
      pose proof (advance_bounds _ _ _ _ Hne Ht) as Hadv. rewrite <-Hr, drop_str_length in Hadv.
      rewrite IH by lia. rewrite slice_self, <-Hr, drop_str_drop, str_app_nil.
      replace (cur + 1 + adv)%nat with (cur + adv + 1)%nat by lia. rewrite !str_app_assoc. done.
    + rewrite IH by lia. rewrite Hd, (slice_snoc cp cur input a) by (done || lia). rewrite expand_ref_skip.
      * by rewrite <-!str_app_assoc.
      * destruct (decide (a = operator)) as [->|]; [|by left]. right.
        destruct (drop_str (cur + 1) input) eqn:Hr; [done|].
        pose proof (drop_str_length (cur + 1) input) as Hl. rewrite Hr in Hl. cbn in Hl.
        destruct Hno. split; [done|lia].
Qed.

Lemma Expand_ref input mapping : Expand input mapping = expand_ref (String.length input) mapping input.
Proof.
  unfold Expand. rewrite expand_loop_ref by lia. by rewrite slice_self.
Qed.

(** Doubling every '$' of a text. *)
Fixpoint escape (s : string) : string :=
  match s with
  | EmptyString => EmptyString
  | String a s => if decide (a = operator) then String a (String a (escape s)) else String a (escape s)
  end.

Lemma expand_escape f mapping s t :
  (String.length (escape s +:+ t) ≤ f)%nat →
  expand_ref f mapping (escape s +:+ t) = s +:+ expand_ref f mapping t.
Proof.
  revert f. induction s as [|a s IH]; intros f Hf; [done|]. cbn [escape] in *.
  assert (∀ g, (String.length (escape s +:+ t) ≤ g)%nat → expand_ref f mapping t = expand_ref g mapping t ∨ ¬ (g ≤ f)%nat) as Hfuel.
  { intros g Hg. destruct (decide (g ≤ f)%nat); [left|by right]. rewrite str_length_app in Hg.
    apply expand_ref_fuel; lia. }
  case_decide as Ha; rewrite ?str_app_cons in *; cbn [String.length] in Hf; (destruct f as [|f]; [lia|]);
    (destruct (Hfuel f ltac:(lia)) as [->|?]; [|lia]); clear Hfuel.
  - subst a. cbn [expand_ref].
    rewrite decide_True by done. unfold tryReadVariableName. rewrite decide_True by done. cbn [drop_str].
    rewrite !str_app_cons, str_app_nil. by rewrite IH by lia.
  - rewrite expand_ref_skip by (by left). by rewrite IH by lia.
Qed.


Lemma length_wrap name t :
  String.length (syntaxWrap name +:+ t) = (String.length name + 3 + String.length t)%nat.
Proof. unfold syntaxWrap. rewrite !str_app_cons. cbn. rewrite !str_length_app. cbn. lia. Qed.

Lemma expand_reference f mapping name t :
  has_char referenceCloser name = false → (String.length (syntaxWrap name +:+ t) ≤ f)%nat →
  expand_ref f mapping (syntaxWrap name +:+ t) = mapping name +:+ expand_ref f mapping t.
Proof.
  intros Hn Hf. pose proof (length_wrap name t) as Hl. destruct f as [|f]; [lia|].
  rewrite (expand_ref_fuel (S f) f mapping t) by lia.
  unfold syntaxWrap. rewrite !str_app_cons. cbn [expand_ref]. rewrite decide_True by done.
  unfold tryReadVariableName. rewrite decide_False by done. rewrite decide_True by done.
  assert ((name +:+ String referenceCloser "") +:+ t = name +:+ String referenceCloser t) as ->
    by (by rewrite <-str_app_assoc).
  rewrite cut_at_prefix by done. f_equal.
  assert (drop_str (String.length name + 2) (String referenceOpener (name +:+ String referenceCloser t)) = t) as ->.
  { rewrite Nat.add_comm. cbn [drop_str Nat.add]. clear. induction name as [|a name IH]; [done|]. rewrite str_app_cons. exact IH. }
  apply expand_ref_fuel; lia.
Qed.

(** A text of escaped parts and references. *)
Fixpoint template (l : list (string * string)) (last : string) : string :=
  match l with
  | [] => escape last
  | (text, name) :: l => escape text +:+ syntaxWrap name +:+ template l last
  end.
Fixpoint fill_template (mapping : string → string) (l : list (string * string)) (last : string) : string :=
  match l with
  | [] => last
  | (text, name) :: l => text +:+ mapping name +:+ fill_template mapping l last
  end.

Lemma Expand_template mapping l last :
  Forall (λ p, has_char referenceCloser p.2 = false) l →
  Expand (template l last) mapping = fill_template mapping l last.
Proof.
  intros Hl. rewrite Expand_ref. generalize (le_n (String.length (template l last))).
  generalize (String.length (template l last)) at 2 3 as f. revert Hl.
  induction l as [|[text name] l IH]; intros Hl f Hf; cbn [template fill_template] in *.
  - pose proof (expand_escape f mapping last "") as He. rewrite !str_app_nil_r in He.
    rewrite He by done. by rewrite expand_ref_short, str_app_nil_r by (cbn; lia).
  - apply Forall_cons in Hl as [Hn Hl]. rewrite expand_escape by done. f_equal.
    rewrite str_length_app in Hf. rewrite expand_reference by (done || lia). f_equal.
    apply IH; [done|]. rewrite str_length_app in Hf. lia.
Qed.

(** C40: Expand, the loop with a buffer and a checkpoint, does what the definition from left to right does, and on any text
    made of arbitrary parts with their '$' doubled and of references $(name) it gives the parts back with each
    reference replaced by the value of its name. *)
Theorem Expand_correct mapping :
  (∀ input, Expand input mapping = expand_ref (String.length input) mapping input) ∧
  (∀ l last, Forall (λ p, has_char referenceCloser p.2 = false) l →
     Expand (template l last) mapping = fill_template mapping l last).
Proof. split; [intros input; apply Expand_ref|apply Expand_template]. Qed.

End Expansion.

Module Env.
Section Env.
(** The listers, the validation of variable names and the downward API of Kubernetes:
    ConvertDownwardAPIFieldLabel, ExtractFieldPathAsString, and the values of resource fields. *)
Context (GetConfigMap : string → option ConfigMap) (GetSecret : string → option Secret) (IsEnvVarName : string → bool)
  (ConvertDownwardAPIFieldLabel : string → string → result string) (ExtractFieldPathAsString : Pod → string → result string)
  (ExtractContainerResourceValue : ResourceFieldSelector → Container → result string)
  (ExtractResourceValueByContainerName : ResourceFieldSelector → Pod → string → result string).

Definition containerResourceRuntimeValue (fs : ResourceFieldSelector) (pod : Pod) (container : Container) : result string :=
  if decide (rs_ContainerName fs = "") then ExtractContainerResourceValue fs container
  else ExtractResourceValueByContainerName fs pod (rs_ContainerName fs).

Definition podFieldSelectorRuntimeValue (fs : ObjectFieldSelector) (pod : Pod) : result string :=
  internalFieldPath ← ConvertDownwardAPIFieldLabel (fs_APIVersion fs) (fs_FieldPath fs);
  if decide (internalFieldPath = "spec.nodeName") then Ok (sp_NodeName (pod_Spec pod))
  else if decide (internalFieldPath = "spec.serviceAccountName") then Ok (sp_ServiceAccountName (pod_Spec pod))
  else if decide (internalFieldPath = "status.hostIP") then Ok (ps_HostIP (pod_Status pod))
  else if decide (internalFieldPath = "status.podIP") then Ok (ps_PodIP (pod_Status pod))
  else ExtractFieldPathAsString pod internalFieldPath.

(** The variables of the services, in order. *)
Definition service_env (l : list (string * string)) : gmap string string :=
  foldl (λ m e, <[e.1 := e.2]> m) ∅ l.

(** The variables of the process that name the API server. *)
Definition equals : Ascii.ascii := Ascii.ascii_of_nat 61.
Definition add_process_env (m : gmap string string) (env : string) : gmap string string :=
  if prefixb "KUBERNETES_SERVICE" env || prefixb "KUBERNETES_PORT" env then
    match cut_at equals env with Some (k, v) => <[k := v]> m | None => m end
  else m.

(** tmpEnv and the two caches *)
Record state := { tmpEnv : gmap string string; configMaps : gmap string ConfigMap; secrets : gmap string Secret }.
Definition set_env (m : gmap string string) (s : state) : state :=
  {| tmpEnv := m; configMaps := configMaps s; secrets := secrets s |}.

(** The object from the cache, or from the lister and then into the cache. *)
Definition cached_cm (name : string) (s : state) : option ConfigMap * state :=
  match configMaps s !! name with
  | Some c => (Some c, s)
  | None =>
      match GetConfigMap name with
      | Some c => (Some c, {| tmpEnv := tmpEnv s; configMaps := <[name := c]> (configMaps s); secrets := secrets s |})
      | None => (None, s)
      end
  end.
Definition cached_secret (name : string) (s : state) : option Secret * state :=
  match secrets s !! name with
  | Some c => (Some c, s)
  | None =>
      match GetSecret name with
      | Some c => (Some c, {| tmpEnv := tmpEnv s; configMaps := configMaps s; secrets := <[name := c]> (secrets s) |})
      | None => (None, s)
      end
  end.

(** The entries of an object under their prefixed keys, those that are no variable names left out. *)
Definition prefixed (prefix : string) (data : gmap string string) : gmap string string :=
  filter (λ '(k, _), IsEnvVarName k = true) (kmap (λ k, prefix +:+ k) data).

(** One round of the loop over EnvFrom. *)
Definition env_from (s : state) (envFrom : EnvFromSource) : result state :=
  match ef_ConfigMapRef envFrom, ef_SecretRef envFrom with
  | Some cm, _ =>
      let '(c, s) := cached_cm (or_Name cm) s in
      match c with
      | Some c => Ok (set_env (prefixed (ef_Prefix envFrom) (cm_Data c) ∪ tmpEnv s) s)
      | None => if is_true (or_Optional cm) then Ok s else Err ("failed to get configmap " +:+ quote (or_Name cm))
      end
  | None, Some r =>
      let '(c, s) := cached_secret (or_Name r) s in
      match c with
      | Some c => Ok (set_env (prefixed (ef_Prefix envFrom) (sec_Data c) ∪ tmpEnv s) s)
      | None => if is_true (or_Optional r) then Ok s else Err ("failed to get secret " +:+ quote (or_Name r))
      end
  | None, None => Ok s
  end.

(** The value of a key of an object, [None] when the variable is skipped. *)
Definition key_value (data : option (gmap string string)) (r : KeyRef) (missing missing_key : string) : result (option string) :=
  match data with
  | None => if is_true (kr_Optional r) then Ok None else Err missing
  | Some m =>
      match m !! kr_Key r with
      | Some v => Ok (Some v)
      | None => if is_true (kr_Optional r) then Ok None else Err missing_key
      end
  end.

(** The value of a variable, [None] when it is skipped. *)
Definition env_value (pod : Pod) (ctr : Container) (s : state) (envVar : EnvVar) : result (option string) * state :=
  if decide (ev_Value envVar ≠ "") then
    (Ok (Some (Expansion.Expand (ev_Value envVar) (Expansion.MappingFuncFor [tmpEnv s]))), s)
  else
    match ev_ValueFrom envVar with
    | None => (Ok (Some ""), s)
    | Some src =>
        match es_FieldRef src, es_ResourceFieldRef src, es_ConfigMapKeyRef src, es_SecretKeyRef src with
        | Some f, _, _, _ => (v ← podFieldSelectorRuntimeValue f pod; Ok (Some v), s)
        | None, Some f, _, _ => (v ← containerResourceRuntimeValue f pod ctr; Ok (Some v), s)
        | None, None, Some r, _ =>
            let '(c, s) := cached_cm (kr_Name r) s in
            (key_value (cm_Data <$> c) r ("failed to get configmap " +:+ quote (kr_Name r))
               ("failed to find key " +:+ kr_Key r +:+ " in ConfigMap " +:+ pod_Namespace pod +:+ "/" +:+ kr_Name r), s)
        | None, None, None, Some r =>
            let '(c, s) := cached_secret (kr_Name r) s in
            (key_value (sec_Data <$> c) r ("failed to get secret " +:+ quote (kr_Name r))
               ("failed to find key " +:+ kr_Key r +:+ " in Secret " +:+ pod_Namespace pod +:+ "/" +:+ kr_Name r), s)
        | None, None, None, None => (Ok (Some ""), s)
        end
    end.
Definition env_var (pod : Pod) (ctr : Container) (s : state) (envVar : EnvVar) : result state :=
  let '(v, s) := env_value pod ctr s envVar in
  v ← v;
  Ok (match v with Some v => set_env (<[ev_Name envVar := v]> (tmpEnv s)) s | None => s end).

Definition env_froms (s : state) (l : list EnvFromSource) : result state := foldl (λ r e, s ← r; env_from s e) (Ok s) l.
Definition env_vars (pod : Pod) (ctr : Container) (s : state) (l : list EnvVar) : result state :=
  foldl (λ r e, s ← r; env_var pod ctr s e) (Ok s) l.

Definition init_state : state := {| tmpEnv := ∅; configMaps := ∅; secrets := ∅ |}.

(** [services] is envvars.FromServices of the listed services, [environ] is os.Environ() *)
Definition base_env (services : list (string * string)) (environ : list string) (pod : Pod) : gmap string string :=
  foldl add_process_env
    (if default true (sp_EnableServiceLinks (pod_Spec pod)) then service_env services else ∅) environ.
Definition resolveEnv (services : list (string * string)) (environ : list string) (pod : Pod) (ctr : Container) :
    result (gmap string string) :=
  s ← env_froms init_state (ctr_EnvFrom ctr);
  s ← env_vars pod ctr s (ctr_Env ctr);
  Ok (tmpEnv s ∪ base_env services environ pod).

(** ** The caches do not show *)

Definition coherent (s : state) : Prop :=
  (∀ n c, configMaps s !! n = Some c → GetConfigMap n = Some c) ∧ (∀ n c, secrets s !! n = Some c → GetSecret n = Some c).

Lemma cached_cm_spec n s :
  coherent s → ∃ s', cached_cm n s = (GetConfigMap n, s') ∧ tmpEnv s' = tmpEnv s ∧ coherent s'.
Proof.
  intros [H1 H2]. unfold cached_cm. destruct (configMaps s !! n) as [c|] eqn:Hc.
  - apply H1 in Hc as Hg. rewrite Hg. by exists s.
  - destruct (GetConfigMap n) as [c|] eqn:Hg; [|by exists s]. eexists. split; [done|]. split; [done|].
    split; [|done]. cbn. intros m d [ [<- <-]|[_ Hm] ]%lookup_insert_Some; auto.
Qed.
Lemma cached_secret_spec n s :
  coherent s → ∃ s', cached_secret n s = (GetSecret n, s') ∧ tmpEnv s' = tmpEnv s ∧ coherent s'.
Proof.
  intros [H1 H2]. unfold cached_secret. destruct (secrets s !! n) as [c|] eqn:Hc.
  - apply H2 in Hc as Hg. rewrite Hg. by exists s.
  - destruct (GetSecret n) as [c|] eqn:Hg; [|by exists s]. eexists. split; [done|]. split; [done|].
    split; [done|]. cbn. intros m d [ [<- <-]|[_ Hm] ]%lookup_insert_Some; auto.
Qed.

(** What a source contributes, by the listers alone. *)
Definition from_data (e : EnvFromSource) : option (gmap string string) :=
  match ef_ConfigMapRef e, ef_SecretRef e with
  | Some cm, _ => cm_Data <$> GetConfigMap (or_Name cm)
  | None, Some r => sec_Data <$> GetSecret (or_Name r)
  | None, None => Some ∅
  end.
Definition from_optional (e : EnvFromSource) : bool :=
  match ef_ConfigMapRef e, ef_SecretRef e with
  | Some r, _ | None, Some r => is_true (or_Optional r)
  | None, None => true
  end.
Definition from_ok (e : EnvFromSource) : Prop := is_Some (from_data e) ∨ from_optional e = true.
Definition from_map (e : EnvFromSource) : gmap string string := prefixed (ef_Prefix e) (default ∅ (from_data e)).

Lemma prefixed_empty p : prefixed p ∅ = ∅.
Proof. unfold prefixed. by rewrite kmap_empty, map_filter_empty. Qed.

Lemma env_from_spec s e :
  coherent s →
  match env_from s e with
  | Ok s' => from_ok e ∧ coherent s' ∧ tmpEnv s' = from_map e ∪ tmpEnv s
  | Err _ => ¬ from_ok e
  end.
Proof.
  intros Hs. unfold env_from, from_ok, from_map, from_data, from_optional.
  destruct (ef_ConfigMapRef e) as [r|]; [|destruct (ef_SecretRef e) as [r|] ].
  - destruct (cached_cm_spec (or_Name r) s Hs) as (s' & -> & Ht & Hc).
    destruct (GetConfigMap (or_Name r)) as [c|]; cbn.
    + split_and!; [by left; eexists|exact Hc|by rewrite Ht].
    + destruct (is_true (or_Optional r)); [|by intros [ [? ?]|?] ].
      split_and!; [by right|done|]. by rewrite prefixed_empty, Ht, (left_id_L ∅ (∪)).
  - destruct (cached_secret_spec (or_Name r) s Hs) as (s' & -> & Ht & Hc).
    destruct (GetSecret (or_Name r)) as [c|]; cbn.
    + split_and!; [by left; eexists|exact Hc|by rewrite Ht].
    + destruct (is_true (or_Optional r)); [|by intros [ [? ?]|?] ].
      split_and!; [by right|done|]. by rewrite prefixed_empty, Ht, (left_id_L ∅ (∪)).
  - split_and!; [by left; eexists|done|]. cbn. by rewrite prefixed_empty, (left_id_L ∅ (∪)).
Qed.

Lemma env_froms_snoc s l e : env_froms s (l ++ [e]) = (s ← env_froms s l; env_from s e).
Proof. unfold env_froms. by rewrite foldl_app. Qed.
Lemma env_vars_app pod ctr s l k : env_vars pod ctr s (l ++ k) = (s ← env_vars pod ctr s l; env_vars pod ctr s k).
Proof.
  unfold env_vars. rewrite foldl_app. destruct (foldl _ (Ok s) l) as [s'|e]; [done|]. cbn.
  induction k as [|x k IH]; [done|exact IH].
Qed.

Lemma env_froms_spec s l :
  coherent s →
  match env_froms s l with
  | Ok s' => Forall from_ok l ∧ coherent s' ∧
             ∀ k, tmpEnv s' !! k = match last (omap (λ e, from_map e !! k) l) with Some v => Some v | None => tmpEnv s !! k end
  | Err _ => ¬ Forall from_ok l
  end.
Proof.
  intros Hs. induction l as [|e l IH] using rev_ind; [done|]. rewrite env_froms_snoc.
  destruct (env_froms s l) as [s1|]; cbn [mbind result_bind].
  - destruct IH as (Hf & Hc & Hk). pose proof (env_from_spec s1 e Hc) as He.
    destruct (env_from s1 e) as [s2|]; [|intros [_ [? _]%Forall_cons]%Forall_app; done].
    destruct He as (He & Hc2 & Ht). split_and!; [by apply Forall_app; auto|done|].
    intros k. rewrite Ht, omap_app, last_app. cbn. destruct (from_map e !! k) as [v|] eqn:Hv; cbn.
    + by apply lookup_union_Some_l.
    + rewrite lookup_union_r by done. apply Hk.
  - intros [? _]%Forall_app. done.
Qed.

(** What a variable asks for, by the listers alone: whether it has a value, and whether it may be skipped. *)
Definition var_source (pod : Pod) (ctr : Container) (e : EnvVar) : result (option string) :=
  match ev_ValueFrom e with
  | None => Ok (Some "")
  | Some src =>
      match es_FieldRef src, es_ResourceFieldRef src, es_ConfigMapKeyRef src, es_SecretKeyRef src with
      | Some f, _, _, _ => v ← podFieldSelectorRuntimeValue f pod; Ok (Some v)
      | None, Some f, _, _ => v ← containerResourceRuntimeValue f pod ctr; Ok (Some v)
      | None, None, Some r, _ =>
          match GetConfigMap (kr_Name r) ≫= λ c, cm_Data c !! kr_Key r with
          | Some v => Ok (Some v)
          | None => if is_true (kr_Optional r) then Ok None else Err ""
          end
      | None, None, None, Some r =>
          match GetSecret (kr_Name r) ≫= λ c, sec_Data c !! kr_Key r with
          | Some v => Ok (Some v)
          | None => if is_true (kr_Optional r) then Ok None else Err ""
          end
      | None, None, None, None => Ok (Some "")
      end
  end.
Definition var_ok (pod : Pod) (ctr : Container) (e : EnvVar) : Prop :=
  ev_Value e ≠ "" ∨ is_Ok (var_source pod ctr e) = true.

(** The value of a variable where the variables before it have the values [m]. *)
Definition var_value (pod : Pod) (ctr : Container) (m : gmap string string) (e : EnvVar) : option string :=
  if decide (ev_Value e ≠ "") then Some (Expansion.Expand (ev_Value e) (Expansion.MappingFuncFor [m]))
  else match var_source pod ctr e with Ok v => v | Err _ => None end.

Lemma key_value_spec data r m1 m2 :
  match key_value data r m1 m2, (match data ≫= λ m, m !! kr_Key r with
                                 | Some v => Ok (Some v)
                                 | None => if is_true (kr_Optional r) then Ok None else Err ""
                                 end) with
  | Ok v, Ok w => v = w
  | Err _, Err _ => True
  | _, _ => False
  end.
Proof.
  unfold key_value. destruct data as [m|]; cbn; [destruct (m !! kr_Key r) as [v|]|]; cbn; try done; by destruct (is_true _).
Qed.

Lemma env_var_spec pod ctr s e :
  coherent s →
  match env_var pod ctr s e with
  | Ok s' => var_ok pod ctr e ∧ coherent s' ∧
             tmpEnv s' = match var_value pod ctr (tmpEnv s) e with Some v => <[ev_Name e := v]> (tmpEnv s) | None => tmpEnv s end
  | Err _ => ¬ var_ok pod ctr e
  end.
Proof.
  intros Hs. unfold env_var, env_value, var_ok, var_value.
  destruct (decide (ev_Value e ≠ "")) as [Hv|Hv]; [cbn; by split_and!; [left| |]|].
  unfold var_source. destruct (ev_ValueFrom e) as [src|]; [|cbn; by split_and!; [right| |] ].
  destruct (es_FieldRef src) as [f|].
  { destruct (podFieldSelectorRuntimeValue f pod) as [v|]; cbn; [by split_and!; [right| |]|naive_solver]. }
  destruct (es_ResourceFieldRef src) as [f|].
  { destruct (containerResourceRuntimeValue f pod ctr) as [v|]; cbn; [by split_and!; [right| |]|naive_solver]. }
  destruct (es_ConfigMapKeyRef src) as [r|]; [|destruct (es_SecretKeyRef src) as [r|]; [|cbn; by split_and!; [right| |] ] ].
  - destruct (cached_cm_spec (kr_Name r) s Hs) as (s' & -> & Ht & Hc).
    pose proof (key_value_spec (cm_Data <$> GetConfigMap (kr_Name r)) r
      ("failed to get configmap " +:+ quote (kr_Name r))
      ("failed to find key " +:+ kr_Key r +:+ " in ConfigMap " +:+ pod_Namespace pod +:+ "/" +:+ kr_Name r)) as Hk.
    rewrite option_fmap_bind in Hk. unfold compose in Hk. destruct (key_value _ _ _ _) as [v|]; cbn [mbind result_bind];
      (destruct (match GetConfigMap (kr_Name r) ≫= _ with Some _ => _ | None => _ end) as [w|]; [|try done]); try done;
      [subst w|naive_solver]. split_and!; [by right|by destruct v|by destruct v; cbn; rewrite Ht].
  - destruct (cached_secret_spec (kr_Name r) s Hs) as (s' & -> & Ht & Hc).
    pose proof (key_value_spec (sec_Data <$> GetSecret (kr_Name r)) r
      ("failed to get secret " +:+ quote (kr_Name r))
      ("failed to find key " +:+ kr_Key r +:+ " in Secret " +:+ pod_Namespace pod +:+ "/" +:+ kr_Name r)) as Hk.
    rewrite option_fmap_bind in Hk. unfold compose in Hk. destruct (key_value _ _ _ _) as [v|]; cbn [mbind result_bind];
      (destruct (match GetSecret (kr_Name r) ≫= _ with Some _ => _ | None => _ end) as [w|]; [|try done]); try done;
      [subst w|naive_solver]. split_and!; [by right|by destruct v|by destruct v; cbn; rewrite Ht].
Qed.

(** The variables declared one after the other, without caches and errors. *)
Definition declared (pod : Pod) (ctr : Container) (m : gmap string string) (l : list EnvVar) : gmap string string :=
  foldl (λ m e, match var_value pod ctr m e with Some v => <[ev_Name e := v]> m | None => m end) m l.

Lemma declared_other pod ctr m l k : k ∉ ev_Name <$> l → declared pod ctr m l !! k = m !! k.
Proof.
  revert m. induction l as [|e l IH]; intros m; [done|]. rewrite fmap_cons, not_elem_of_cons. intros [Hk Hl].
  cbn. fold (declared pod ctr m l). unfold declared in IH. rewrite IH by done.
  destruct (var_value pod ctr m e); [by rewrite lookup_insert_ne|done].
Qed.

Lemma env_vars_spec pod ctr s l :
  coherent s →
  match env_vars pod ctr s l with
  | Ok s' => Forall (var_ok pod ctr) l ∧ coherent s' ∧ tmpEnv s' = declared pod ctr (tmpEnv s) l
  | Err _ => ¬ Forall (var_ok pod ctr) l
  end.
Proof.
  intros Hs. induction l as [|e l IH] using rev_ind; [done|]. rewrite env_vars_app.
  destruct (env_vars pod ctr s l) as [s1|]; cbn [mbind result_bind].
  - destruct IH as (Hf & Hc & Hd). unfold env_vars. cbn [foldl mbind result_bind].
    pose proof (env_var_spec pod ctr s1 e Hc) as He.
    destruct (env_var pod ctr s1 e) as [s2|]; [|intros [_ [? _]%Forall_cons]%Forall_app; done].
    destruct He as (He & Hc2 & Ht). split_and!; [by apply Forall_app; auto|done|].
    unfold declared. rewrite foldl_app. cbn. fold (declared pod ctr (tmpEnv s) l). by rewrite <-Hd.
  - intros [? _]%Forall_app. done.
Qed.

(** ResolveEnv fails exactly when a required reference is missing: a source of EnvFrom that is neither optional nor found,
    or a variable without a value whose field, resource, object or key cannot be read and is not optional. *)
Lemma resolveEnv_ok services environ pod ctr :
  is_Ok (resolveEnv services environ pod ctr) = true ↔
  Forall from_ok (ctr_EnvFrom ctr) ∧ Forall (var_ok pod ctr) (ctr_Env ctr).
Proof.
  unfold resolveEnv. assert (coherent init_state) as H0 by done.
  pose proof (env_froms_spec _ (ctr_EnvFrom ctr) H0) as H1.
  destruct (env_froms _ _) as [s1|]; cbn [mbind result_bind]; [|naive_solver]. destruct H1 as (Hf & Hc & _).
  pose proof (env_vars_spec pod ctr _ (ctr_Env ctr) Hc) as H2.
  destruct (env_vars _ _ _ _) as [s2|]; cbn; naive_solver.
Qed.

(** The variables of the process that name the API server, and those of the services when the pod wants their links *)
Definition process_var (k env : string) : option string :=
  if prefixb "KUBERNETES_SERVICE" env || prefixb "KUBERNETES_PORT" env
  then match cut_at equals env with Some (k', v) => if decide (k' = k) then Some v else None | None => None end else None.
Definition service_var (k : string) (e : string * string) : option string := if decide (e.1 = k) then Some e.2 else None.
Lemma service_env_lookup l k : service_env l !! k = last (omap (service_var k) l).
Proof.
  unfold service_env. induction l as [|e l IH] using rev_ind; [done|]. rewrite foldl_app, omap_app, last_app. cbn. unfold service_var at 1.
  destruct (decide (e.1 = k)) as [->|Hk]; cbn; [by rewrite lookup_insert_eq|]. by rewrite lookup_insert_ne.
Qed.
Lemma base_env_lookup services environ pod k :
  base_env services environ pod !! k =
    match last (omap (process_var k) environ) with
    | Some v => Some v
    | None => if default true (sp_EnableServiceLinks (pod_Spec pod)) then last (omap (service_var k) services) else None
    end.
Proof.
  unfold base_env. set (m := if default true _ then _ else _).
  assert (m !! k = if default true (sp_EnableServiceLinks (pod_Spec pod)) then last (omap (service_var k) services) else None) as <-
    by (unfold m; destruct (default true _); [apply service_env_lookup|apply lookup_empty]).
  induction environ as [|e l IH] using rev_ind; [done|]. rewrite foldl_app, omap_app, last_app. cbn. unfold add_process_env at 1, process_var at 1.
  destruct (_ || _); [|exact IH]. destruct (cut_at equals e) as [ [k' v]|]; [|exact IH].
  destruct (decide (k' = k)) as [->|Hk]; cbn; [by rewrite lookup_insert_eq|by rewrite lookup_insert_ne].
Qed.

(** C36: the precedence of the sources of a variable. A declared variable that is not declared again later has its text, where that holds no
    reference (every dollar in it doubled), or the value of its source, where it has no text. A name that is not declared has the value
    of the last EnvFrom source that has it as a valid name; else that of the last variable of the process of this name that tells of the API
    server; else, when service links are not turned off, that of the services. *)
Theorem resolveEnv_precedence services environ pod ctr env :
  resolveEnv services environ pod ctr = Ok env →
  (∀ pre e post, ctr_Env ctr = pre ++ e :: post → ev_Name e ∉ ev_Name <$> post →
     (∀ text, text ≠ "" → ev_Value e = Expansion.escape text → env !! ev_Name e = Some text) ∧
     (∀ v, ev_Value e = "" → var_source pod ctr e = Ok (Some v) → env !! ev_Name e = Some v)) ∧
  (∀ k, k ∉ ev_Name <$> ctr_Env ctr →
     env !! k = match last (omap (λ e, from_map e !! k) (ctr_EnvFrom ctr)) with
                | Some v => Some v
                | None => match last (omap (process_var k) environ) with
                          | Some v => Some v
                          | None => if default true (sp_EnableServiceLinks (pod_Spec pod)) then last (omap (service_var k) services) else None
                          end
                end).
Proof.
  unfold resolveEnv. assert (coherent init_state) as H0 by done.
  pose proof (env_froms_spec _ (ctr_EnvFrom ctr) H0) as H1.
  destruct (env_froms _ _) as [s1|]; cbn [mbind result_bind]; [|done]. destruct H1 as (Hf & Hc & Hk1).
  pose proof (env_vars_spec pod ctr _ (ctr_Env ctr) Hc) as H2.
  destruct (env_vars _ _ _ _) as [s2|]; cbn; intros Henv; [|done]. simplify_eq. destruct H2 as (_ & _ & Hd). split.
  - intros pre e post Hl Hn.
    assert (∀ v, var_value pod ctr (declared pod ctr (tmpEnv s1) pre) e = Some v → (tmpEnv s2 ∪ base_env services environ pod) !! ev_Name e = Some v) as Hv.
    { intros v Hv. apply lookup_union_Some_l. rewrite Hd, Hl. unfold declared. rewrite foldl_app. cbn. fold (declared pod ctr (tmpEnv s1) pre). rewrite Hv.
      pose proof (declared_other pod ctr (<[ev_Name e := v]> (declared pod ctr (tmpEnv s1) pre)) post _ Hn) as Ho.
      unfold declared in Ho at 1. rewrite Ho. apply lookup_insert_eq. }
    split; [intros text Ht He|intros v He Hs]; apply Hv; unfold var_value.
    + rewrite He, (Expansion.Expand_template _ [] text) by constructor.
      rewrite decide_True; [done|]. destruct text; [done|]. cbn. by case_decide.
    + by rewrite decide_False, Hs by (by rewrite He; intros []).
  - intros k Hn. rewrite lookup_union, Hd, declared_other, base_env_lookup, Hk1 by done. cbn. rewrite lookup_empty.
    destruct (last (omap (λ e, from_map e !! k) (ctr_EnvFrom ctr))); [by destruct (last _) ; [|destruct (default true _); [destruct (last _)|] ]|].
    by destruct (last (omap (process_var k) environ)); [|destruct (default true _); [destruct (last _)|] ].
Qed.

End Env.
End Env.

Module VolumeData.
Section VolumeData.
Context (GetConfigMap : string → option ConfigMap) (GetSecret : string → option Secret).

(** Of the two maps of an object the one written last wins a common key: the binary data. *)
Definition volume_data (m : gmap string (gmap string string)) (vol : Volume) : result (gmap string (gmap string string)) :=
  match v_ConfigMap vol, v_Secret vol with
  | Some r, _ =>
      match GetConfigMap (mv_Name r) with
      | Some c => Ok (<[v_Name vol := cm_BinaryData c ∪ cm_Data c]> m)
      | None => if is_true (mv_Optional r) then Ok m else Err ("failed to get configmap " +:+ quote (mv_Name r))
      end
  | None, Some r =>
      match GetSecret (mv_Name r) with
      | Some c => Ok (<[v_Name vol := sec_Data c ∪ sec_StringData c]> m)
      | None => if is_true (mv_Optional r) then Ok m else Err ("failed to get secret " +:+ quote (mv_Name r))
      end
  | None, None => Ok m
  end.
Definition resolveVolumeData (pod : Pod) : result (gmap string (gmap string string)) :=
  foldl (λ r vol, m ← r; volume_data m vol) (Ok ∅) (sp_Volumes (pod_Spec pod)).

(** The data of a volume, and whether it may be missing. *)
Definition data_of (vol : Volume) : option (gmap string string) :=
  match v_ConfigMap vol, v_Secret vol with
  | Some r, _ => (λ c, cm_BinaryData c ∪ cm_Data c) <$> GetConfigMap (mv_Name r)
  | None, Some r => (λ c, sec_Data c ∪ sec_StringData c) <$> GetSecret (mv_Name r)
  | None, None => None
  end.
Definition required (vol : Volume) : bool :=
  match v_ConfigMap vol, v_Secret vol with
  | Some r, _ | None, Some r => negb (is_true (mv_Optional r))
  | None, None => false
  end.

Lemma volume_data_spec m vol :
  match volume_data m vol with
  | Ok m' => (required vol = true → is_Some (data_of vol)) ∧
             m' = match data_of vol with Some d => <[v_Name vol := d]> m | None => m end
  | Err _ => required vol = true ∧ data_of vol = None
  end.
Proof.
  unfold volume_data, data_of, required.
  destruct (v_ConfigMap vol) as [r|]; [|destruct (v_Secret vol) as [r|]; [|done] ].
  - destruct (GetConfigMap (mv_Name r)); cbn; [by split; [eauto|]|]. by destruct (is_true (mv_Optional r)).
  - destruct (GetSecret (mv_Name r)); cbn; [by split; [eauto|]|]. by destruct (is_true (mv_Optional r)).
Qed.

(** The data of the volumes of a pod. It is refused exactly when a ConfigMap or Secret that is not optional is
    missing; otherwise the entry of a name is the data of the last volume of that name that has some. *)
Lemma resolveVolumeData_correct pod :
  match resolveVolumeData pod with
  | Ok m => Forall (λ vol, required vol = true → is_Some (data_of vol)) (sp_Volumes (pod_Spec pod)) ∧
      ∀ name, m !! name = last (omap data_of (filter (λ v, v_Name v = name) (sp_Volumes (pod_Spec pod))))
  | Err _ => Exists (λ vol, required vol = true ∧ data_of vol = None) (sp_Volumes (pod_Spec pod))
  end.
Proof.
  unfold resolveVolumeData. generalize (sp_Volumes (pod_Spec pod)) as l.
  induction l as [|vol l IH] using rev_ind; [cbn; split; [done|]; intros; apply lookup_empty|].
  rewrite foldl_app. cbn [foldl]. destruct (foldl _ _ l) as [m|e]; cbn [mbind result_bind].
  - destruct IH as [Hf Hm]. pose proof (volume_data_spec m vol) as Hv. destruct (volume_data m vol) as [m'|e].
    + destruct Hv as [Hr ->]. split; [by apply Forall_app; auto|]. intros name.
      rewrite filter_app, omap_app, last_app, filter_cons, filter_nil.
      destruct (decide (v_Name vol = name)) as [<-|Hne]; cbn.
      * destruct (data_of vol); [by rewrite lookup_insert_eq|by rewrite Hm].
      * destruct (data_of vol); [rewrite lookup_insert_ne by done|]; by rewrite Hm.
    + apply Exists_app. right. by constructor.
  - apply Exists_app. by left.
Qed.

End VolumeData.
End VolumeData.

Module ImagePull.
Import PodOptions.
Section ImagePull.
(** The keyring of the kubelet and the parser of image names *)
Context (GetSecret : string → option Secret) (Keyring : Type) (MakeDockerKeyring : list Secret → result Keyring)
  (ParseImageName : string → result string) (Keyring_Lookup : Keyring → string → list ImageAuthConfig * bool).

Fixpoint get_secrets (names : list string) : result (list Secret) :=
  match names with
  | [] => Ok []
  | n :: names =>
      match GetSecret n with
      | None => Err ("failed to get secret " +:+ quote n)
      | Some s => l ← get_secrets names; Ok (s :: l)
      end
  end.

Definition auth_config (keyring : Keyring) (m : gmap string ImageAuthConfig) (ctr : Container) :
    result (gmap string ImageAuthConfig) :=
  repoToPull ← ParseImageName (ctr_Image ctr);
  let '(creds, withCredentials) := Keyring_Lookup keyring repoToPull in
  Ok (if withCredentials then foldl (λ m c, <[ctr_Image ctr := c]> m) m creds else m).
Definition resolveImagePullAuthConfig (pod : Pod) : result (gmap string ImageAuthConfig) :=
  secret ← get_secrets (sp_ImagePullSecrets (pod_Spec pod));
  keyring ← MakeDockerKeyring secret;
  foldl (λ r ctr, m ← r; auth_config keyring m ctr) (Ok ∅) (sp_Containers (pod_Spec pod)).

(** The credentials the keyring has for an image: the last ones found. *)
Definition credentials (keyring : Keyring) (image : string) : option ImageAuthConfig :=
  match ParseImageName image with
  | Ok repo => let '(creds, found) := Keyring_Lookup keyring repo in if found : bool then last creds else None
  | Err _ => None
  end.

Lemma foldl_insert_same (k : string) (l : list ImageAuthConfig) (m : gmap string ImageAuthConfig) j :
  foldl (λ m c, <[k := c]> m) m l !! j = if decide (k = j) then match last l with Some c => Some c | None => m !! j end else m !! j.
Proof.
  induction l as [|c l IH] using rev_ind; cbn; [by case_decide|]. rewrite foldl_app, last_snoc. cbn.
  case_decide; [subst; apply lookup_insert_eq|by rewrite lookup_insert_ne].
Qed.

Lemma auth_configs_spec keyring l :
  match foldl (λ r ctr, m ← r; auth_config keyring m ctr) (Ok ∅) l with
  | Ok m => Forall (λ ctr, is_Ok (ParseImageName (ctr_Image ctr)) = true) l ∧
      ∀ image, m !! image = if decide (image ∈ ctr_Image <$> l) then credentials keyring image else None
  | Err _ => Exists (λ ctr, is_Ok (ParseImageName (ctr_Image ctr)) = false) l
  end.
Proof.
  induction l as [|ctr l IH] using rev_ind; [done|].
  rewrite foldl_app. cbn [foldl]. destruct (foldl _ _ l) as [m|e]; cbn [mbind result_bind]; [|apply Exists_app; by left].
  destruct IH as [Hf Hm]. unfold auth_config.
  destruct (ParseImageName (ctr_Image ctr)) as [repo|e] eqn:Hp; cbn [mbind result_bind].
  2: { apply Exists_app. right. constructor. by rewrite Hp. }
  destruct (Keyring_Lookup keyring repo) as [creds found] eqn:Hl. split.
  { apply Forall_app. split; [done|]. repeat constructor. by rewrite Hp. }
  intros image. rewrite fmap_app. destruct (decide (ctr_Image ctr = image)) as [Hi|Hi].
  - rewrite (decide_True (P := image ∈ _)) by set_solver. unfold credentials. rewrite <-Hi, Hp, Hl.
    assert (m !! ctr_Image ctr = None ∨ m !! ctr_Image ctr = credentials keyring (ctr_Image ctr)) as Hold
      by (rewrite Hm; case_decide; auto).
    unfold credentials in Hold. rewrite Hp, Hl in Hold.
    destruct found; [|by destruct Hold].
    rewrite foldl_insert_same, decide_True by done. destruct (last creds); [done|by destruct Hold].
  - assert ((image ∈ (ctr_Image <$> l) ++ (ctr_Image <$> [ctr])) ↔ image ∈ ctr_Image <$> l) as Hin by set_solver.
    trans (m !! image); [by destruct found; rewrite ?foldl_insert_same, ?decide_False|].
    rewrite Hm. repeat case_decide; tauto.
Qed.

(** The credentials for the images of a pod. The pod is refused when a pull secret is missing, the secrets make no
    keyring or the image of a work container has no valid name; otherwise the images of the work containers, and no others (those
    of init containers neither), have the credentials found for them. *)
Lemma resolveImagePullAuthConfig_correct pod :
  match resolveImagePullAuthConfig pod with
  | Ok m => ∃ secrets keyring,
      Forall2 (λ n s, GetSecret n = Some s) (sp_ImagePullSecrets (pod_Spec pod)) secrets ∧
      MakeDockerKeyring secrets = Ok keyring ∧
      ∀ image, m !! image =
        if decide (image ∈ ctr_Image <$> sp_Containers (pod_Spec pod)) then credentials keyring image else None
  | Err _ =>
      Exists (λ n, GetSecret n = None) (sp_ImagePullSecrets (pod_Spec pod)) ∨
      (∃ secrets e, Forall2 (λ n s, GetSecret n = Some s) (sp_ImagePullSecrets (pod_Spec pod)) secrets ∧ MakeDockerKeyring secrets = Err e) ∨
      Exists (λ ctr, is_Ok (ParseImageName (ctr_Image ctr)) = false) (sp_Containers (pod_Spec pod))
  end.
Proof.
  unfold resolveImagePullAuthConfig.
  assert (match get_secrets (sp_ImagePullSecrets (pod_Spec pod)) with
          | Ok l => Forall2 (λ n s, GetSecret n = Some s) (sp_ImagePullSecrets (pod_Spec pod)) l
          | Err _ => Exists (λ n, GetSecret n = None) (sp_ImagePullSecrets (pod_Spec pod))
          end) as Hs.
  { generalize (sp_ImagePullSecrets (pod_Spec pod)) as l. induction l as [|n l IH]; cbn [get_secrets]; [done|].
    destruct (GetSecret n) as [s|] eqn:Hn; [|by constructor]. destruct (get_secrets l); cbn; by constructor. }
  destruct (get_secrets _) as [secrets|e]; cbn [mbind result_bind]; [|by left].
  destruct (MakeDockerKeyring secrets) as [keyring|e] eqn:Hk; cbn [mbind result_bind]; [|by right; left; eauto].
  pose proof (auth_configs_spec keyring (sp_Containers (pod_Spec pod))) as Ha.
  destruct (foldl _ _ _) as [m|e]; [|by auto]. exists secrets, keyring. by destruct Ha.
Qed.

End ImagePull.
End ImagePull.

Module Dns.

Fixpoint omit_loop (unique : gset string) (strs : list string) : list string :=
  match strs with
  | [] => []
  | str :: strs => if decide (str ∈ unique) then omit_loop unique strs else str :: omit_loop ({[str]} ∪ unique) strs
  end.
Definition omitDuplicates (strs : list string) : list string := omit_loop ∅ strs.

Definition colon : Ascii.ascii := Ascii.ascii_of_nat 58.
(** The entries of the first loop split at their first colon, those of the second have their name. *)
Definition parse_option (op : string) : string * string :=
  match cut_at colon op with Some (k, v) => (k, v) | None => (op, "") end.
Definition show_option (e : string * string) : string := if decide (e.2 = "") then e.1 else e.1 +:+ ":" +:+ e.2.
Definition merged_options (existing : list string) (options : list (string * option string)) : gmap string string :=
  foldl (λ m o, <[o.1 := default "" o.2]> m) (foldl (λ m op, let '(k, v) := parse_option op in <[k := v]> m) ∅ existing) options.
(** The order is the one of Go's map iteration, which is not specified. *)
Definition mergeDNSOptions (existing : list string) (options : list (string * option string)) : list string :=
  show_option <$> map_to_list (merged_options existing options).

(** config.DNS *)
Record DNSConfig := { dns : AranyaDNSConfig; ClusterDomain : string }.

Section Dns.
(** The tenant namespace, and the addresses the lookup of kube-dns.kube-system gives *)
Context (TenantNS : string) (kube_dns : list string).

Definition resolveDNSSettings (bareDefaults : DNSConfig) (pod : Pod) : result AranyaDNSConfig :=
  let clusterDomain := ClusterDomain bareDefaults in
  let searches := [TenantNS +:+ ".svc." +:+ clusterDomain; "svc." +:+ clusterDomain; clusterDomain]
                  ++ dns_Searches (dns bareDefaults) in
  let default_searches := omitDuplicates searches in
  let default_options := [] in
  let spec := pod_Spec pod in
  if decide (sp_DNSPolicy spec = DNSNone) then
    match sp_DNSConfig spec with
    | None => Err "unexpected nil dnsConfig for dnsPolicy none"
    | Some config =>
        Ok {| dns_Servers := omitDuplicates (dc_Nameservers config); dns_Searches := omitDuplicates (dc_Searches config);
              dns_Options := mergeDNSOptions [] (dc_Options config) |}
    end
  else if sp_HostNetwork spec && negb (bool_decide (sp_DNSPolicy spec = DNSClusterFirstWithHostNet)) then
    Ok {| dns_Servers := []; dns_Searches := []; dns_Options := [] |}
  else
    Ok {| dns_Servers := omitDuplicates kube_dns; dns_Searches := default_searches;
          dns_Options := match sp_DNSConfig spec with
                         | Some config => mergeDNSOptions default_options (dc_Options config)
                         | None => []
                         end |}.

Lemma omit_loop_spec unique strs :
  NoDup (omit_loop unique strs) ∧ (∀ s, s ∈ omit_loop unique strs ↔ s ∈ strs ∧ s ∉ unique) ∧
  omit_loop unique strs `sublist_of` strs.
Proof.
  revert unique. induction strs as [|s strs IH]; intros unique; cbn.
  - split_and!; [constructor|set_solver|constructor].
  - destruct (decide (s ∈ unique)) as [Hs|Hs].
    + destruct (IH unique) as (H1 & H2 & H3). split_and!; [done|set_solver|by constructor].
    + destruct (IH ({[s]} ∪ unique)) as (H1 & H2 & H3). split_and!.
      * constructor; [|done]. set_solver.
      * intros t. rewrite elem_of_cons, H2. destruct (decide (t = s)); set_solver.
      * by constructor.
Qed.

Lemma omitDuplicates_spec strs :
  NoDup (omitDuplicates strs) ∧ (∀ s, s ∈ omitDuplicates strs ↔ s ∈ strs) ∧ omitDuplicates strs `sublist_of` strs.
Proof.
  destruct (omit_loop_spec ∅ strs) as (H1 & H2 & H3). split_and!; [done| |done].
  intros s. unfold omitDuplicates. rewrite H2. set_solver.
Qed.

(** The value of a name: the last one given by the pod, else the last one that exists. *)
Definition option_value (existing : list string) (options : list (string * option string)) (name : string) : option string :=
  match last (filter (λ o, o.1 = name) options) with
  | Some o => Some (default "" o.2)
  | None => (λ op, (parse_option op).2) <$> last (filter (λ op, (parse_option op).1 = name) existing)
  end.

Lemma merged_options_lookup existing options name :
  merged_options existing options !! name = option_value existing options name.
Proof.
  unfold merged_options, option_value. induction options as [|o options IH] using rev_ind; cbn.
  - induction existing as [|op existing IH] using rev_ind; [apply lookup_empty|].
    rewrite foldl_app, filter_app, last_app, filter_cons, filter_nil. cbn.
    destruct (parse_option op) as [k v] eqn:Hp. cbn. destruct (decide (k = name)) as [->|Hne].
    + rewrite lookup_insert_eq. cbn. by rewrite Hp.
    + by rewrite lookup_insert_ne.
  - rewrite foldl_app, filter_app, last_app, filter_cons, filter_nil. cbn.
    destruct (decide (o.1 = name)) as [<-|Hne]; cbn; [apply lookup_insert_eq|by rewrite lookup_insert_ne].
Qed.

(** The DNS settings of a pod. They are refused exactly for policy None without a configuration; the servers and searches are
    without duplicates and in order: the pod's own with policy None, none at all on the host's network, and otherwise the
    cluster's servers and the configured searches after the cluster's three domains; and each option given by the pod is there
    once, with its last value. *)
Lemma resolveDNSSettings_correct bare pod :
  match resolveDNSSettings bare pod with
  | Err _ => sp_DNSPolicy (pod_Spec pod) = DNSNone ∧ sp_DNSConfig (pod_Spec pod) = None
  | Ok r =>
      let source (l : list string) (out : list string) :=
        NoDup out ∧ (∀ s, s ∈ out ↔ s ∈ l) ∧ out `sublist_of` l in
      let options (l : list (string * option string)) :=
        ∃ es, dns_Options r = show_option <$> es ∧ NoDup es.*1 ∧ ∀ k v, (k, v) ∈ es ↔ option_value [] l k = Some v in
      let domain := ClusterDomain bare in
      if decide (sp_DNSPolicy (pod_Spec pod) = DNSNone) then
        ∃ c, sp_DNSConfig (pod_Spec pod) = Some c ∧ source (dc_Nameservers c) (dns_Servers r) ∧
             source (dc_Searches c) (dns_Searches r) ∧ options (dc_Options c)
      else if sp_HostNetwork (pod_Spec pod) && negb (bool_decide (sp_DNSPolicy (pod_Spec pod) = DNSClusterFirstWithHostNet)) then
        dns_Servers r = [] ∧ dns_Searches r = [] ∧ dns_Options r = []
      else
        source kube_dns (dns_Servers r) ∧
        source ([TenantNS +:+ ".svc." +:+ domain; "svc." +:+ domain; domain] ++ dns_Searches (dns bare)) (dns_Searches r) ∧
        match sp_DNSConfig (pod_Spec pod) with Some c => options (dc_Options c) | None => dns_Options r = [] end
  end.
Proof.
  assert (∀ l, ∃ es, mergeDNSOptions [] l = show_option <$> es ∧ NoDup es.*1 ∧
    ∀ k v, (k, v) ∈ es ↔ option_value [] l k = Some v) as Hopt.
  { intros l. eexists. split; [done|]. split; [apply NoDup_fst_map_to_list|].
    intros k v. by rewrite elem_of_map_to_list, merged_options_lookup. }
  unfold resolveDNSSettings. destruct (decide (sp_DNSPolicy (pod_Spec pod) = DNSNone)) as [Hp|Hp].
  - destruct (sp_DNSConfig (pod_Spec pod)) as [c|]; [|done]. exists c.
    exact (conj eq_refl (conj (omitDuplicates_spec _) (conj (omitDuplicates_spec _) (Hopt _)))).
  - destruct (sp_HostNetwork (pod_Spec pod) && _); [done|].
    refine (conj (omitDuplicates_spec _) (conj (omitDuplicates_spec _) _)).
    destruct (sp_DNSConfig (pod_Spec pod)) as [c|]; [apply Hopt|done].
Qed.

End Dns.
End Dns.

Module VolumesInUse.
Import PodOptions.

(** corev1.AttachedVolume *)
Record AttachedVolume := { av_Name : string; av_DevicePath : string }.

Section Names.
(** The names of the volumes the containers mount, or use as devices (GetPodVolumeNames of the kubelet); the claims, the
    volumes bound to them and the plugin's names for volumes: (claim → volume), (volume spec → name), and the paths. *)
Context (uses : Pod → string → bool) (get_pvc : string → result string) (get_pv : string → result string)
  (csi_name : Volume → result string) (pv_name : string → result string) (GetUniqueVolumeName : string → string)
  (GetPersistentVolumeMountPath : string → string → string).

Definition unique_name (pod : Pod) (m : gmap string volumeNamePathPair) (vol : Volume) :
    result (gmap string volumeNamePathPair) :=
  if negb (uses pod (v_Name vol)) then Ok m else
  match v_CSI vol, v_PersistentVolumeClaim vol with
  | Some _, _ =>
      volName ← wrap_err "failed to generate volume name with csi plugin: " (csi_name vol);
      Ok (<[GetUniqueVolumeName volName := {| vnp_name := v_Name vol; vnp_path := "" |}]> m)
  | None, Some claim =>
      pvc ← wrap_err "failed to get pvc spec: " (get_pvc (pvc_ClaimName claim));
      pv ← wrap_err "failed to get pv referenced in pvc spec: " (get_pv pvc);
      volName ← wrap_err "failed to generate volume name with csi plugin: " (pv_name pv);
      Ok (<[GetUniqueVolumeName volName :=
             {| vnp_name := v_Name vol; vnp_path := GetPersistentVolumeMountPath (pod_UID pod) pvc |}]> m)
  | None, None => Ok m
  end.
Definition getUniqueVolumeNamesAndPaths (pod : Pod) : result (gmap string volumeNamePathPair) :=
  foldl (λ r vol, m ← r; unique_name pod m vol) (Ok ∅) (sp_Volumes (pod_Spec pod)).

(** The unique name of a claimed volume. *)
Definition claim_name (vol : Volume) : option string :=
  match v_CSI vol, v_PersistentVolumeClaim vol with
  | None, Some claim =>
      match (pvc ← get_pvc (pvc_ClaimName claim); pv ← get_pv pvc; pv_name pv) with
      | Ok n => Some (GetUniqueVolumeName n)
      | Err _ => None
      end
  | _, _ => None
  end.

(** Two mounted volumes of one claim have one entry: the first one is left without a path, and the pod cannot be
    created. *)
Lemma same_claim_twice pod vol1 vol2 m :
  sp_Volumes (pod_Spec pod) = [vol1; vol2] → v_Name vol1 ≠ v_Name vol2 →
  v_CSI vol1 = None → v_CSI vol2 = None → v_PersistentVolumeClaim vol1 = v_PersistentVolumeClaim vol2 →
  is_Some (v_PersistentVolumeClaim vol1) → uses pod (v_Name vol1) = true → uses pod (v_Name vol2) = true →
  getUniqueVolumeNamesAndPaths pod = Ok m → ∀ n p, m !! n = Some p → vnp_name p ≠ v_Name vol1.
Proof.
  intros Hv Hne Hc1 Hc2 Hpp [claim Hp] Hu1 Hu2 Hm n p Hn.
  unfold getUniqueVolumeNamesAndPaths, unique_name in Hm. rewrite Hv in Hm. cbn [foldl mbind result_bind] in Hm.
  rewrite Hu1, Hu2, Hc1, Hc2, <-Hpp, Hp in Hm. cbn [negb mbind result_bind] in Hm.
  destruct (get_pvc _) as [pvc|]; cbn [wrap_err mbind result_bind] in Hm; [|done].
  destruct (get_pv _) as [pv|]; cbn [wrap_err mbind result_bind] in Hm; [|done].
  destruct (pv_name _) as [vn|]; cbn [wrap_err mbind result_bind] in Hm; [|done].
  simplify_eq. rewrite insert_insert_eq in Hn. apply lookup_insert_Some in Hn as [ [_ <-]|[_ Hn] ]; [by cbn|].
  by rewrite lookup_empty in Hn.
Qed.

End Names.

Fixpoint remove_loop (volNames : gset string) (inUse : list string) (attached : list AttachedVolume) (i : nat) :
    outcome (list string * list AttachedVolume) :=
  match inUse with
  | [] => Ret ([], [])
  | n :: inUse =>
      if decide (n ∈ volNames) then remove_loop volNames inUse attached (S i)
      else match attached !! i with
           | None => Panic "index out of range"
           | Some a => '(u, v) ← remove_loop volNames inUse attached (S i); Ret (n :: u, a :: v)
           end
  end.
Definition removeVolumeInUse (oldVolumeInUse : list string) (oldVolumeAttached : list AttachedVolume)
    (volNames : gset string) : outcome (list string * list AttachedVolume) :=
  remove_loop volNames oldVolumeInUse oldVolumeAttached 0.

Definition name_le (a b : AttachedVolume) : Prop := String.le (av_Name a) (av_Name b).
#[export] Instance name_le_dec a b : Decision (name_le a b) := _.

(** The new volumes come in the order of Go's map iteration and are sorted afterwards; sort.Slice is any
    sort, and names that are equal are not to be expected. *)
Definition addVolumesInUse (oldVolumeInUse : list string) (oldVolumeAttached : list AttachedVolume)
    (volNames : gset string) : outcome (list string * list AttachedVolume) :=
  if decide (length oldVolumeAttached < length oldVolumeInUse)%nat then Panic "index out of range" else
  let new := filter (λ v, v ∉ oldVolumeInUse) (elements volNames) in
  Ret (merge_sort String.le (new ++ oldVolumeInUse),
       merge_sort name_le (((λ v, {| av_Name := v; av_DevicePath := "" |}) <$> new)
                           ++ take (length oldVolumeInUse) oldVolumeAttached)).

(** What the two lists of a node's status promise: sorted by name, without duplicates, and entry by entry
    about the same volume. *)
Definition in_step (inUse : list string) (attached : list AttachedVolume) : Prop :=
  av_Name <$> attached = inUse ∧ StronglySorted String.le inUse ∧ NoDup inUse.

Lemma remove_loop_spec volNames inUse attached i :
  av_Name <$> drop i attached = inUse →
  remove_loop volNames inUse attached i =
    Ret (filter (λ n, n ∉ volNames) inUse, filter (λ a, av_Name a ∉ volNames) (drop i attached)).
Proof.
  revert i. induction inUse as [|n inUse IH]; intros i Hi; cbn [remove_loop].
  - destruct (drop i attached); [done|by cbn in Hi].
  - destruct (drop i attached) as [|a rest] eqn:Hd; [done|]. cbn in Hi. injection Hi as Hn Hrest.
    assert (attached !! i = Some a) as Ha.
    { rewrite <-(Nat.add_0_r i), <-lookup_drop. by rewrite Hd. }
    assert (drop (S i) attached = rest) as Hd'.
    { replace (S i) with (i + 1)%nat by lia. rewrite <-drop_drop. by rewrite Hd. }
    rewrite Ha, IH by (by rewrite Hd'). rewrite Hd', !filter_cons, Hn.
    destruct (decide (n ∈ volNames)) as [Hin|Hin].
    + rewrite !decide_False by tauto. done.
    + rewrite !decide_True by done. done.
Qed.

Lemma filter_names (volNames : gset string) (attached : list AttachedVolume) :
  av_Name <$> filter (λ a, av_Name a ∉ volNames) attached = filter (λ n, n ∉ volNames) (av_Name <$> attached).
Proof.
  induction attached as [|a l IH]; [done|]. rewrite fmap_cons, !filter_cons. case_decide; cbn; by rewrite IH.
Qed.

#[export] Instance name_le_total : Total name_le.
Proof. intros a b. unfold name_le. apply (total String.le). Qed.
#[export] Instance name_le_trans : Transitive name_le.
Proof. intros a b c. unfold name_le. apply transitivity. Qed.

Lemma fmap_name_sorted (l : list AttachedVolume) : StronglySorted name_le l → StronglySorted String.le (av_Name <$> l).
Proof.
  induction 1 as [|a l Hl IH Ha]; [constructor|]. rewrite fmap_cons. constructor; [done|].
  apply Forall_fmap. exact Ha.
Qed.

Lemma addVolumesInUse_spec inUse attached volNames :
  in_step inUse attached →
  ∃ u a, addVolumesInUse inUse attached volNames = Ret (u, a) ∧ in_step u a ∧ ∀ n, n ∈ u ↔ n ∈ inUse ∨ n ∈ volNames.
Proof.
  intros (Hal & Hso & Hnd). unfold addVolumesInUse.
  assert (length attached = length inUse) as Hlen by (by rewrite <-Hal, length_fmap).
  rewrite decide_False by lia. rewrite (take_ge attached) by lia.
  set (new := filter (λ v, v ∉ inUse) (elements volNames)).
  set (u := merge_sort String.le (new ++ inUse)).
  set (a := merge_sort name_le (((λ v, {| av_Name := v; av_DevicePath := "" |}) <$> new) ++ attached)).
  assert (u ≡ₚ new ++ inUse) as Hu by apply merge_sort_Permutation.
  assert (StronglySorted String.le u) as Hus by (apply Sorted_StronglySorted; [apply _|apply Sorted_merge_sort; apply _]).
  assert (av_Name <$> a = u) as Hau.
  { apply (StronglySorted_unique String.le); [|done|].
    - apply fmap_name_sorted, Sorted_StronglySorted; [apply _|apply Sorted_merge_sort; apply _].
    - rewrite Hu. unfold a. rewrite merge_sort_Permutation, fmap_app, Hal. apply Permutation_app_tail.
      rewrite <-list_fmap_compose. by rewrite list_fmap_id. }
  exists u, a. split; [done|]. split.
  - split_and!; [done|done|]. rewrite Hu. apply NoDup_app. split_and!; [apply NoDup_filter, NoDup_elements| |done].
    intros x [Hx _]%list_elem_of_filter. done.
  - intros n. rewrite Hu. unfold new. rewrite elem_of_app, list_elem_of_filter, elem_of_elements.
    destruct (decide (n ∈ inUse)); tauto.
Qed.

Lemma remove_spec inUse attached volNames :
  in_step inUse attached →
  ∃ u a, removeVolumeInUse inUse attached volNames = Ret (u, a) ∧ in_step u a ∧ ∀ n, n ∈ u ↔ n ∈ inUse ∧ n ∉ volNames.
Proof.
  intros (Hal & Hso & Hnd). eexists _, _. split; [apply remove_loop_spec; by rewrite drop_0|]. rewrite drop_0. split.
  - split_and!; [by rewrite filter_names, Hal|by apply StronglySorted_filter|by apply NoDup_filter].
  - intros n. rewrite list_elem_of_filter. tauto.
Qed.

Lemma in_step_unique u v a b : in_step u a → in_step v b → (∀ n, n ∈ u ↔ n ∈ v) → u = v.
Proof.
  intros (_ & Hu & Hnu) (_ & Hv & Hnv) Hin. apply (StronglySorted_unique String.le); [done..|].
  by apply NoDup_Permutation.
Qed.

(** On lists in step, adding the volumes of a pod makes the lists contain exactly the old and the added names, and
    removing the volumes of a pod exactly the names that are not removed; neither panics, and both leave the
    lists in step (sorted, without duplicates, aligned). Removing what was just added, if it was not there, gives the
    old lists back. *)
Lemma volumes_in_use_correct inUse attached volNames :
  in_step inUse attached →
  ∃ u a, addVolumesInUse inUse attached volNames = Ret (u, a) ∧ in_step u a ∧
    (∀ n, n ∈ u ↔ n ∈ inUse ∨ n ∈ volNames) ∧
    ∃ u' a', removeVolumeInUse u a volNames = Ret (u', a') ∧ in_step u' a' ∧
      (∀ n, n ∈ u' ↔ n ∈ inUse ∧ n ∉ volNames) ∧
      ((∀ n, n ∈ volNames → n ∉ inUse) → u' = inUse).
Proof.
  intros Hs. destruct (addVolumesInUse_spec inUse attached volNames Hs) as (u & a & Hadd & Hs1 & Hin).
  destruct (remove_spec u a volNames Hs1) as (u' & a' & Hrem & Hs2 & Hin').
  exists u, a. split_and!; [done..|]. exists u', a'. split_and!; [done|done| |].
  - intros n. rewrite Hin', Hin. tauto.
  - intros Hdis. apply (in_step_unique _ _ a' attached); [done..|]. intros n. rewrite Hin', Hin. naive_solver.
Qed.

(** A volume two pods share is dropped from the lists with the first of them: after both were added, removing
    the volumes of one removes it although the other one still uses it. *)
Lemma shared_volume_dropped inUse attached v1 v2 n :
  in_step inUse attached → n ∈ v1 → n ∈ v2 →
  ∃ u a u2 a2 u3 a3, addVolumesInUse inUse attached v1 = Ret (u, a) ∧ addVolumesInUse u a v2 = Ret (u2, a2) ∧ n ∈ u2 ∧
    removeVolumeInUse u2 a2 v1 = Ret (u3, a3) ∧ n ∉ u3.
Proof.
  intros Hs H1 H2. destruct (addVolumesInUse_spec inUse attached v1 Hs) as (u & a & Ha & Hs1 & Hin1).
  destruct (addVolumesInUse_spec u a v2 Hs1) as (u2 & a2 & Ha2 & Hs2 & Hin2).
  destruct (remove_spec u2 a2 v1 Hs2) as (u3 & a3 & Hr & _ & Hin3).
  exists u, a, u2, a2, u3, a3. split_and!; [done|done|apply Hin2; auto|done|]. rewrite Hin3. tauto.
Qed.

End VolumesInUse.

Module Examples.

Lemma Expand_correct_witness :
  Expansion.Expand "price $$5 for $(USER)" (Expansion.MappingFuncFor [{["USER" := "me"]}]) = "price $5 for me".
Proof.
  assert (Expansion.template [("price $5 for ", "USER")] "" = "price $$5 for $(USER)") as <- by (by vm_compute).
  rewrite (proj2 (Expansion.Expand_correct _)); [by vm_compute|by repeat constructor].
Defined.

(** A container that declares [A=a$$b], whose value stands before that of the process, and takes what a config map has. *)
Definition var (name value : string) : EnvVar := {| ev_Name := name; ev_Value := value; ev_ValueFrom := None |}.
Definition ctr : Container := Samples.ctr "c" "i" [] [var "KUBERNETES_PORT_A" "a$$b"]
  [{| ef_Prefix := "P_"; ef_ConfigMapRef := Some {| or_Name := "cm"; or_Optional := None |}; ef_SecretRef := None |}].
Definition get_cm (n : string) : option ConfigMap :=
  if decide (n = "cm") then Some {| cm_Data := {["K" := "v"]}; cm_BinaryData := ∅ |} else None.
Definition resolve : result (gmap string string) :=
  Env.resolveEnv get_cm (λ _, None) (λ _, true) (λ _ p, Ok p) (λ _ _, Err "") (λ _ _, Err "") (λ _ _ _, Err "")
    [("WEB_HOST", "10.0.0.1")] ["KUBERNETES_PORT=tcp"; "KUBERNETES_PORT_A=x"; "HOME=/"] (Samples.pod "u" "p" (Samples.spec [] [] [ctr])) ctr.
Lemma resolve_Ok : ∃ env, resolve = Ok env.
Proof. destruct resolve as [env|e] eqn:E; [by exists env|]. assert (is_Ok resolve = true) as H by (vm_compute; reflexivity). by rewrite E in H. Qed.
Lemma resolveEnv_precedence_witness : ∃ env, resolve = Ok env ∧ env !! "KUBERNETES_PORT_A" = Some "a$b" ∧ env !! "P_K" = Some "v" ∧
  env !! "KUBERNETES_PORT" = Some "tcp" ∧ env !! "HOME" = None ∧ env !! "WEB_HOST" = Some "10.0.0.1".
Proof.
  destruct resolve_Ok as [env He]. exists env. split; [done|].
  destruct (Env.resolveEnv_precedence _ _ _ _ _ _ _ _ _ _ _ env He) as [Hvar Hother]. split_and!.
  - destruct (Hvar [] (var "KUBERNETES_PORT_A" "a$$b") []) as [Ht _]; [reflexivity|apply not_elem_of_nil|]. by apply (Ht "a$b").
  - rewrite Hother by (apply (bool_decide_unpack _); by vm_compute). by vm_compute.
  - rewrite Hother by (apply (bool_decide_unpack _); by vm_compute). by vm_compute.
  - rewrite Hother by (apply (bool_decide_unpack _); by vm_compute). by vm_compute.
  - rewrite Hother by (apply (bool_decide_unpack _); by vm_compute). by vm_compute.
Defined.
(** Not what the comment says: a reference to a variable of the process or of a service stays as it is. *)
Example service_reference_stays :
  Env.env_value (λ _, None) (λ _, None) (λ _ p, Ok p) (λ _ _, Err "") (λ _ _, Err "") (λ _ _ _, Err "") (Samples.pod "u" "p" (Samples.spec [] [] [])) ctr
    Env.init_state (var "B" "$(WEB_HOST)") = (Ok (Some "$(WEB_HOST)"), Env.init_state).
Proof. reflexivity. Qed.

Lemma volumes_in_use_correct_witness :
  ∃ u a u' a', VolumesInUse.addVolumesInUse ["m"] [{| VolumesInUse.av_Name := "m"; VolumesInUse.av_DevicePath := "" |}] {["a"; "z"]} = Ret (u, a) ∧
    VolumesInUse.removeVolumeInUse u a {["a"; "z"]} = Ret (u', a') ∧ u' = ["m"].
Proof.
  destruct (VolumesInUse.volumes_in_use_correct ["m"] [{| VolumesInUse.av_Name := "m"; VolumesInUse.av_DevicePath := "" |}]
    {["a"; "z"]}) as (u & a & Ha & _ & _ & u' & a' & Hr & _ & _ & Heq).
  { split_and!; [done|by repeat constructor|by apply NoDup_singleton]. }
  exists u, a, u', a'. split_and!; [done..|]. apply Heq. intros n Hn. rewrite list_elem_of_singleton. set_solver.
Defined.

End Examples.
