(* ===== verification/Admission.v ===== *)
(** * Admission of pods to a node

    src/pkg/virtualnode/pod/respod_admission.go, respod_finalizers.go, respod_helper.go, respod_compare.go,
    respod_reconcile.go and the pod bookkeeping of manager.go: which pods are admitted, created and deleted on the
    device. The reconciler of device pods (arhat.dev/pkg/reconcile) is its table of latest objects and the list of
    jobs given to it. *)
From S2P Require Import Prelude K8s Api Caches.
Open Scope Z_scope.

Definition FinalizerClusterNetwork : string := "aranya.arhat.dev/cluster-network".
Definition FinalizerClusterNetworkManager : string := "aranya.arhat.dev/cluster-network-manager".
Definition LabelRole : string := "arhat.dev/role".
Definition LabelRoleValueAbbot : string := "Abbot".
Definition ContainerNameAbbot : string := "abbot".

Module Compare.

Definition podRequiresRecreation (oldPod newPod : Pod) : bool :=
  let o := pod_Spec oldPod in
  let n := pod_Spec newPod in
  if negb (bool_decide (sp_Volumes o = sp_Volumes n)) then true
  else if negb (bool_decide (sp_EphemeralContainers o = sp_EphemeralContainers n)) then true
  else if negb (bool_decide (sp_SecurityContext o = sp_SecurityContext n)) then true
  else if negb (bool_decide (sp_RestartPolicy o = sp_RestartPolicy n)) then true
  else if negb (bool_decide (sp_ServiceAccountName o = sp_ServiceAccountName n)) then true
  else if negb (bool_decide (sp_HostNetwork o = sp_HostNetwork n)) then true
  else if negb (bool_decide (sp_HostIPC o = sp_HostIPC n)) then true
  else if negb (bool_decide (sp_HostPID o = sp_HostPID n)) then true
  else if negb (bool_decide (sp_ImagePullSecrets o = sp_ImagePullSecrets n)) then true
  else if negb (bool_decide (sp_Hostname o = sp_Hostname n)) then true
  else if negb (bool_decide (sp_HostAliases o = sp_HostAliases n)) then true
  else if negb (bool_decide (sp_DNSConfig o = sp_DNSConfig n)) then true
  else if negb (bool_decide (sp_DNSPolicy o = sp_DNSPolicy n)) then true
  else false.

End Compare.

Module Finalizers.

Fixpoint hasStringInSlice (ss : list string) (target : string) : bool :=
  match ss with [] => false | s :: ss => if decide (s = target) then true else hasStringInSlice ss target end.

Lemma hasStringInSlice_spec ss target : hasStringInSlice ss target = true ↔ target ∈ ss.
Proof.
  induction ss as [|s ss IH]; cbn; [split; [done|by intros ?%elem_of_nil]|]. rewrite elem_of_cons, <-IH.
  case_decide; naive_solver.
Qed.

Section Finalizers.
(** patch: what the API server answers to the merge patch from the first pod to the second *)
Context (Patch : Pod → Pod → result Pod).

(** The pod and the error: with an error the pod is the old one. *)
Definition patch (oldPod newPod : Pod) : Pod * option string :=
  match Patch oldPod newPod with Ok p => (p, None) | Err e => (oldPod, Some e) end.

Definition ensureFinalizer (pod : Pod) (finalizer : string) : Pod * option string :=
  if hasStringInSlice (pod_Finalizers pod) finalizer then (pod, None)
  else patch pod (set_finalizers (pod_Finalizers pod ++ [finalizer]) pod).
Definition removeFinalizer (pod : Pod) (finalizer : string) : Pod * option string :=
  if negb (hasStringInSlice (pod_Finalizers pod) finalizer) then (pod, None)
  else patch pod (set_finalizers (filter (λ f, f ≠ finalizer) (pod_Finalizers pod)) pod).
End Finalizers.

End Finalizers.

Module Manager.
Import PodCache.

(** sync/atomic.Value remembers the type of what was stored first. *)
Inductive gotype := T_UID | T_string.
Record Value := { v_type : gotype; v_value : string }.
Definition Store (t : gotype) (x : string) (v : Value) : outcome Value :=
  match v_type v, t with
  | T_UID, T_UID | T_string, T_string => Ret {| v_type := t; v_value := x |}
  | _, _ => Panic "sync/atomic: store of inconsistently typed value into Value"
  end.
(** v.Load().(types.UID) *)
Definition Load_UID (v : Value) : outcome string :=
  match v_type v with T_UID => Ret (v_value v) | T_string => Panic "interface conversion" end.

Record Manager := {
  nodeName : string; hostIP : string;
  podCache : PodCache; abbotPodUIDStore : Value;
  latest : gmap string string;               (** devPodRec: the object of each key *)
  jobs : list (JobAction * string);          (** jobs scheduled on devPodRec, oldest first *)
  events : list (string * string)            (** recorded events: reason and message *)
}.
Definition NewManager (nodeName hostIP : string) : Manager := {|
  nodeName := nodeName; hostIP := hostIP; podCache := NewPodCache;
  abbotPodUIDStore := {| v_type := T_UID; v_value := "" |}; latest := ∅; jobs := []; events := [] |}.

Definition set_cache (c : PodCache) (m : Manager) : Manager :=
  {| nodeName := nodeName m; hostIP := hostIP m; podCache := c; abbotPodUIDStore := abbotPodUIDStore m;
     latest := latest m; jobs := jobs m; events := events m |}.
Definition set_abbot (v : Value) (m : Manager) : Manager :=
  {| nodeName := nodeName m; hostIP := hostIP m; podCache := podCache m; abbotPodUIDStore := v;
     latest := latest m; jobs := jobs m; events := events m |}.
Definition set_rec (l : gmap string string) (j : list (JobAction * string)) (m : Manager) : Manager :=
  {| nodeName := nodeName m; hostIP := hostIP m; podCache := podCache m; abbotPodUIDStore := abbotPodUIDStore m;
     latest := l; jobs := j; events := events m |}.
Definition event (reason message : string) (m : Manager) : Manager :=
  {| nodeName := nodeName m; hostIP := hostIP m; podCache := podCache m; abbotPodUIDStore := abbotPodUIDStore m;
     latest := latest m; jobs := jobs m; events := events m ++ [(reason, message)] |}.

Definition podCreationDenied : string := "PodCreationDenied".
Definition podCreationAllowed : string := "PodCreationAllowed".
Definition podDeletionDenied : string := "PodDeletionDenied".
Definition podDeletionAllowed : string := "PodDeletionAllowed".

Definition getAbbotPod (m : Manager) : outcome (option Pod) :=
  podUID ← Load_UID (abbotPodUIDStore m);
  Ret (if decide (podUID = "") then None else GetByID podUID (podCache m)).
Definition hasAbbotPod (m : Manager) : outcome bool :=
  podUID ← Load_UID (abbotPodUIDStore m); Ret (negb (bool_decide (podUID = ""))).
(** The parameter is a string, and so is the stored value. *)
Definition setAbbotPod (podUID : string) (m : Manager) : outcome Manager :=
  v ← Store T_string podUID (abbotPodUIDStore m); Ret (set_abbot v m).

Definition isAbbotPod (pod : Pod) : bool :=
  bool_decide (pod_Labels pod !! LabelRole = Some LabelRoleValueAbbot) &&
  existsb (λ ctr, bool_decide (ctr_Name ctr = ContainerNameAbbot)) (sp_Containers (pod_Spec pod)).
Definition requireClusterNetwork (pod : Pod) : bool :=
  if negb (sp_HostNetwork (pod_Spec pod)) then true
  else bool_decide (sp_DNSPolicy (pod_Spec pod) = DNSClusterFirstWithHostNet).

Section Handlers.
(** Patch as above; the API server's answers to the deletion of a pod (an error that is not IsNotFound), and what the
    scheduling of a job answers. *)
Context (Patch : Pod → Pod → result Pod) (Delete_pod : string → option string)
  (Schedule_err : JobAction → string → option string).
Local Abbreviation ensureFinalizer := (Finalizers.ensureFinalizer Patch).
Local Abbreviation removeFinalizer := (Finalizers.removeFinalizer Patch).

(** (handled, result): a result is the error of a reconcile.Result, which makes the job run again *)
Definition admission : Type := bool * option string.

Definition admitPodCreation (pod : Pod) (m : Manager) : outcome (Manager * admission) :=
  let phase := ps_Phase (pod_Status pod) in
  if decide (phase = PodRunning ∨ phase = PodSucceeded ∨ phase = PodFailed) then
    Ret (set_cache (Update pod (podCache m)) m, (true, None))
  else if requireClusterNetwork pod then
    let result := Some "cluster network required, but abbot pod not running" in
    has ← hasAbbotPod m;
    if negb has then
      Ret (event podCreationDenied "Using cluster network, abbot pod required but not found" m, (true, result))
    else
      abbot ← getAbbotPod m;
      match abbot with
      | None => Ret (event podCreationDenied "abbot pod not found" m, (true, result))
      | Some abbotPod =>
          if negb (bool_decide (ps_Phase (pod_Status abbotPod) = PodRunning)) then
            Ret (event podCreationDenied "abbot pod not in running phase" m, (true, result))
          else
            let '(pod, err) := ensureFinalizer pod FinalizerClusterNetwork in
            match err with
            | Some e => Ret (event podCreationDenied ("Failed to ensure cluster network finalizer: " +:+ e) m,
                             (true, Some ("cluster network fianlizer not applied: " +:+ e)))
            | None =>
                let m := event podCreationAllowed "Owner ref to abbot pod set" m in
                Ret (set_cache (Update pod (podCache m)) m, (false, None))
            end
      end
  else if negb (isAbbotPod pod) then
    let m := event podCreationAllowed "Using host network" m in
    Ret (set_cache (Update pod (podCache m)) m, (false, None))
  else
    has ← hasAbbotPod m;
    if has : bool then
      Ret (event podCreationDenied "Already have abbot pod in this node" m,
           (true, Some "only one abbot pod can be deployed per node"))
    else
      let '(pod, err) := ensureFinalizer pod FinalizerClusterNetworkManager in
      match err with
      | Some e => Ret (event podCreationDenied "Failed to set cluster network manager finalizer to abbot pod" m,
                       (true, Some ("failed to add cluster network manager finalizer for abbot pod: " +:+ e)))
      | None =>
          m ← setAbbotPod (pod_UID pod) m;
          Ret (set_cache (Update pod (podCache m)) m, (false, None))
      end.

Definition admitPodDeletion (pod : Pod) (m : Manager) : outcome (Manager * admission) :=
  if requireClusterNetwork pod then
    has ← hasAbbotPod m;
    if negb has then
      Ret (event podDeletionDenied "Using cluster network, but abbot pod not found" m,
           (true, Some "cannot delete cluster network pod without abbot pod"))
    else
      let '(pod, err) := removeFinalizer pod FinalizerClusterNetwork in
      match err with
      | Some e => Ret (event podDeletionDenied ("Failed to remove cluster network finalizer: " +:+ e) m, (true, Some e))
      | None => Ret (event podDeletionAllowed "Deleting pod" m, (false, None))
      end
  else if negb (isAbbotPod pod) then Ret (event podDeletionAllowed "Deleting pod" m, (false, None))
  else if existsb requireClusterNetwork (GetAll (podCache m)) then
    Ret (event podDeletionDenied "Cluster network pod(s) exists, abbot pod is not going to be deleted" m,
         (true, Some "cannot delete abbot pod when cluster network pod deployed"))
  else
    let '(pod, err) := removeFinalizer pod FinalizerClusterNetworkManager in
    match err with
    | Some e => Ret (event podDeletionDenied ("Failed to remove cluster network manager finalizer: " +:+ e) m, (true, Some e))
    | None =>
        m ← setAbbotPod "" m;
        Ret (event podDeletionAllowed "Deleting pod" m, (false, None))
    end.

(** devPodRec.Update(key, nil, key) and devPodRec.Schedule *)
Definition rec_update (key : string) (m : Manager) : Manager := set_rec (<[key := key]> (latest m)) (jobs m) m.
Definition schedule (a : JobAction) (key : string) (m : Manager) : Manager * option string :=
  match Schedule_err a key with
  | Some e => (m, Some e)
  | None => (set_rec (latest m) (jobs m ++ [(a, key)]) m, None)
  end.

(** The end of onResourcePodUpdated. *)
Definition schedule_update (oldPod newPod : Pod) (m : Manager) : Manager * option string :=
  if negb (Compare.podRequiresRecreation oldPod newPod) then (m, None) else schedule ActionUpdate (pod_UID newPod) m.

Definition set_hostIP (ip : string) (p : Pod) : Pod :=
  let s := pod_Status p in
  set_status {| ps_Phase := ps_Phase s; ps_HostIP := ip; ps_PodIP := ps_PodIP s; ps_PodIPs := ps_PodIPs s;
                ps_InitContainerStatuses := ps_InitContainerStatuses s; ps_ContainerStatuses := ps_ContainerStatuses s |} p.

(** The result: [None] is nil, [Some e] a reconcile.Result with that error. *)
Definition onResourcePodUpdated (oldPod newPod : Pod) (m : Manager) : outcome (Manager * option string) :=
  if decide (pod_Name newPod = nodeName m) then Ret (m, None) else
  '(m, (handled, result)) ← admitPodCreation newPod m;
  if handled : bool then Ret (m, result) else
  match GetByID (pod_UID newPod) (podCache m) with
  | None => Ret (m, None)
  | Some _ =>
      let '(newPod, err) :=
        if negb (bool_decide (hostIP m = "")) && negb (bool_decide (ps_HostIP (pod_Status newPod) = hostIP m))
        then Finalizers.patch Patch newPod (set_hostIP (hostIP m) newPod) else (newPod, None) in
      match err with
      | Some e => Ret (m, Some e)
      | None =>
          let m := set_cache (Update newPod (podCache m)) m in
          let '(m, err) :=
            match latest m !! pod_UID newPod with
            | Some _ => (m, None)
            | None => schedule ActionAdd (pod_UID newPod) (rec_update (pod_UID newPod) m)
            end in
          match err with
          | Some e => Ret (m, Some e)
          | None => Ret (schedule_update oldPod newPod m)
          end
      end
  end.

Definition onResourcePodDeleting (pod : Pod) (m : Manager) : outcome (Manager * option string) :=
  match GetByID (pod_UID pod) (podCache m) with
  | None => Ret (m, Delete_pod (pod_Name pod))
  | Some _ =>
      '(m, (handled, result)) ← admitPodDeletion pod m;
      if handled : bool then Ret (m, result)
      else Ret (schedule ActionDelete (pod_UID pod) (rec_update (pod_UID pod) m))
  end.

(** The next action of the job, none for the virtual pod *)
Definition onResourcePodDeleted (pod : Pod) (m : Manager) : option JobAction :=
  if decide (pod_Name pod = nodeName m) then None else Some ActionDelete.

(** The device reports a pod (SyncDevicePods, UpdateMirrorPod): one that is not cached is to be deleted from it, and an error of the scheduling
    is only logged; the others are not a matter of the reconciler. *)
Definition device_reports (podUID : string) (m : Manager) : Manager :=
  match GetByID podUID (podCache m) with
  | Some _ => m
  | None => (schedule ActionDelete podUID (rec_update podUID m)).1
  end.
(** The end of a deletion: onRemotePodDeleted takes the pod from the cache, and the reconciler, which has no job of it any more, forgets the
    key. The list of the jobs then starts anew for it. *)
Definition forget (podUID : string) (m : Manager) : Manager :=
  set_cache (Delete podUID (podCache m)) (set_rec (delete podUID (latest m)) (filter (λ j, j.2 ≠ podUID) (jobs m)) m).

(** ** The handlers from a new manager on *)

(** The handlers of the reconciler of pods, the reports of the device, the end of deletions, and everything else that changes the cache
    (the status updates of pods, the marks of deleted ones): to any cache. *)
Inductive call :=
  | CUpdated (oldPod newPod : Pod)
  | CDeleting (pod : Pod)
  | CReported (podUID : string)
  | CForgotten (podUID : string)
  | CCached (c : PodCache).
Definition do_call (c : call) (m : Manager) : outcome (Manager * option string) :=
  match c with
  | CUpdated o n => onResourcePodUpdated o n m
  | CDeleting p => onResourcePodDeleting p m
  | CReported podUID => Ret (device_reports podUID m, None)
  | CForgotten podUID => Ret (forget podUID m, None)
  | CCached c => Ret (set_cache c m, None)
  end.

Inductive reachable (node host : string) : Manager → Prop :=
  | reachable_new : reachable node host (NewManager node host)
  | reachable_call m c m' r : reachable node host m → do_call c m = Ret (m', r) → reachable node host m'.

Definition no_abbot (m : Manager) : Prop := abbotPodUIDStore m = {| v_type := T_UID; v_value := "" |}.

Lemma no_abbot_has m : no_abbot m → hasAbbotPod m = Ret false.
Proof. intros H. unfold hasAbbotPod. by rewrite H. Qed.
Lemma no_abbot_set uid m : no_abbot m → setAbbotPod uid m = Panic "sync/atomic: store of inconsistently typed value into Value".
Proof. intros H. unfold setAbbotPod. by rewrite H. Qed.

(** What a manager without abbot pod does with a pod. *)
Lemma admitPodCreation_no_abbot pod m :
  no_abbot m →
  let phase := ps_Phase (pod_Status pod) in
  admitPodCreation pod m =
    if decide (phase = PodRunning ∨ phase = PodSucceeded ∨ phase = PodFailed)
    then Ret (set_cache (Update pod (podCache m)) m, (true, None))
    else if requireClusterNetwork pod
    then Ret (event podCreationDenied "Using cluster network, abbot pod required but not found" m,
              (true, Some "cluster network required, but abbot pod not running"))
    else if negb (isAbbotPod pod)
    then Ret (set_cache (Update pod (podCache m)) (event podCreationAllowed "Using host network" m), (false, None))
    else match (ensureFinalizer pod FinalizerClusterNetworkManager).2 with
         | Some e => Ret (event podCreationDenied "Failed to set cluster network manager finalizer to abbot pod" m,
                       (true, Some ("failed to add cluster network manager finalizer for abbot pod: " +:+ e)))
         | None => Panic "sync/atomic: store of inconsistently typed value into Value"
         end.
Proof.
  intros H. unfold admitPodCreation. rewrite (no_abbot_has m H). cbn [mbind outcome_bind negb].
  repeat case_match; try done. all: cbn in *; simplify_eq; try done.
  all: by rewrite no_abbot_set.
Qed.

Lemma admitPodDeletion_no_abbot pod m m' a :
  no_abbot m → admitPodDeletion pod m = Ret (m', a) → no_abbot m' ∧ podCache m' = podCache m.
Proof.
  intros H. unfold admitPodDeletion. rewrite (no_abbot_has m H). cbn [mbind outcome_bind negb].
  rewrite (no_abbot_set "" m H). intros Hr. by repeat (case_match; simplify_eq/=; try done).
Qed.

Lemma onResourcePodUpdated_no_abbot oldPod newPod m m' r :
  no_abbot m → onResourcePodUpdated oldPod newPod m = Ret (m', r) → no_abbot m'.
Proof.
  intros H. unfold onResourcePodUpdated. case_decide; [by intros [= <- <-]|].
  rewrite admitPodCreation_no_abbot by done. unfold schedule_update, schedule. intros Hr.
  by repeat (case_match; simplify_eq/=; try done).
Qed.
Lemma onResourcePodDeleting_no_abbot pod m m' r :
  no_abbot m → onResourcePodDeleting pod m = Ret (m', r) → no_abbot m'.
Proof.
  intros H. unfold onResourcePodDeleting. destruct (GetByID _ _); [|by intros [= <- <-]].
  destruct (admitPodDeletion pod m) as [ [m1 [h res] ]| |] eqn:Ha; cbn [mbind outcome_bind]; [|done|done].
  apply admitPodDeletion_no_abbot in Ha as [Hn _]; [|done]. unfold schedule.
  intros Hr. by repeat (case_match; simplify_eq/=; try done).
Qed.

Lemma reachable_no_abbot node host m : reachable node host m → no_abbot m.
Proof.
  induction 1 as [|m [o n|p|uid|uid|c] m' r Hm IH Hc]; [done|..]; cbn in Hc.
  - by eapply onResourcePodUpdated_no_abbot.
  - by eapply onResourcePodDeleting_no_abbot.
  - injection Hc as <- <-. unfold device_reports, schedule. by repeat case_match.
  - by injection Hc as <- <-.
  - by injection Hc as <- <-.
Qed.

(** The phase of a pod that has not been started. *)
Definition not_started (pod : Pod) : Prop :=
  ps_Phase (pod_Status pod) ≠ PodRunning ∧ ps_Phase (pod_Status pod) ≠ PodSucceeded ∧ ps_Phase (pod_Status pod) ≠ PodFailed.

(** Storing the uid of the abbot pod, a string, where a types.UID was stored crashes, so no state has an abbot pod:
    in every state reached from a new manager a pod that needs the cluster network and has not been started is refused and
    nothing is cached or scheduled for it, whatever other pods there are; and the abbot pod itself crashes the manager once
    its finalizer is set. *)
Lemma cluster_network_never_admitted node host m :
  reachable node host m →
  (∀ oldPod pod, not_started pod → requireClusterNetwork pod = true → pod_Name pod ≠ node →
     ∃ m' e, onResourcePodUpdated oldPod pod m = Ret (m', Some e) ∧
       podCache m' = podCache m ∧ jobs m' = jobs m ∧ latest m' = latest m) ∧
  (∀ oldPod pod, not_started pod → requireClusterNetwork pod = false → isAbbotPod pod = true → pod_Name pod ≠ node →
     match onResourcePodUpdated oldPod pod m with
     | Ret (m', r) => is_Some (ensureFinalizer pod FinalizerClusterNetworkManager).2 ∧ is_Some r ∧ podCache m' = podCache m
     | Panic _ => (ensureFinalizer pod FinalizerClusterNetworkManager).2 = None
     | Diverge => False
     end).
Proof.
  intros Hm. pose proof (reachable_no_abbot _ _ _ Hm) as Hn.
  assert (nodeName m = node) as Hnode.
  { clear Hn. induction Hm as [|m [o n|p|uid|uid|c] m' r Hm IH Hc]; [done|..]; cbn in Hc; pose proof (reachable_no_abbot _ _ _ Hm) as Hn;
      [| |injection Hc as <- <-; unfold device_reports, schedule; by repeat case_match|by injection Hc as <- <-..].
    - unfold onResourcePodUpdated in Hc. case_decide; [by simplify_eq|]. rewrite admitPodCreation_no_abbot in Hc by done.
      unfold schedule_update, schedule in Hc. by repeat (case_match; simplify_eq/=; try done).
    - unfold onResourcePodDeleting, admitPodDeletion in Hc. rewrite (no_abbot_has m Hn) in Hc. cbn [mbind outcome_bind negb] in Hc.
      rewrite (no_abbot_set "" m Hn) in Hc. unfold schedule in Hc. by repeat (case_match; simplify_eq/=; try done). }
  split; intros oldPod pod (Hp1 & Hp2 & Hp3) Hr; [intros Hne|intros Ha Hne];
    unfold onResourcePodUpdated; rewrite decide_False by congruence; rewrite admitPodCreation_no_abbot by done;
    rewrite decide_False by tauto; rewrite Hr.
  - by eexists _, _.
  - rewrite Ha. cbn [negb]. destruct ((ensureFinalizer pod _).2) as [e|]; cbn; [|done]. by eauto.
Qed.

(** The jobs a handler adds. *)
Definition added (m m' : Manager) (l : list (JobAction * string)) : Prop := jobs m' = jobs m ++ l.

(** What an update of a pod does in any reachable state, when jobs can be scheduled and patches keep uids. A pod that runs or has ended
    is cached and nothing is scheduled, whatever changed in it; a pod on the host's network that is not the abbot pod and has not been
    started is cached with the host's address, is scheduled for creation if the device reconciler does not know it, and then for
    an update exactly if a compared field of its spec changed. *)
Lemma onResourcePodUpdated_correct node host m oldPod pod m' r :
  reachable node host m → (∀ a k, Schedule_err a k = None) →
  (∀ o n p, Patch o n = Ok p → pod_UID p = pod_UID n) →
  pod_Name pod ≠ nodeName m → onResourcePodUpdated oldPod pod m = Ret (m', r) →
  (¬ not_started pod → r = None ∧ podCache m' = Update pod (podCache m) ∧ jobs m' = jobs m ∧ latest m' = latest m) ∧
  (not_started pod → requireClusterNetwork pod = false → isAbbotPod pod = false → r = None →
     ∃ p, GetByID (pod_UID pod) (podCache m') = Some p ∧
       (hostIP m = "" ∨ ps_HostIP (pod_Status pod) = hostIP m ∨ Patch pod (set_hostIP (hostIP m) pod) = Ok p) ∧
       latest m' !! pod_UID pod ≠ None ∧
       added m m' ((if decide (latest m !! pod_UID pod = None) then [(ActionAdd, pod_UID pod)] else []) ++
                   (if Compare.podRequiresRecreation oldPod p then [(ActionUpdate, pod_UID pod)] else []))).
Proof.
  intros Hm Hs Hpatch Hne. pose proof (reachable_no_abbot _ _ _ Hm) as Hn.
  unfold onResourcePodUpdated. rewrite decide_False by done. rewrite admitPodCreation_no_abbot by done.
  intros Hr. split.
  - intros Hns. rewrite decide_True in Hr by (unfold not_started in Hns; destruct (decide (ps_Phase (pod_Status pod) = PodRunning)),
      (decide (ps_Phase (pod_Status pod) = PodSucceeded)), (decide (ps_Phase (pod_Status pod) = PodFailed)); tauto).
    cbn in Hr. by simplify_eq.
  - intros (H1 & H2 & H3) Hc Ha ->. rewrite decide_False, Hc, Ha in Hr by tauto. cbn [negb mbind outcome_bind] in Hr.
    unfold GetByID at 1 in Hr. cbn [podCache set_cache event Update uidIndex] in Hr. rewrite lookup_insert_eq in Hr.
    cbn [hostIP set_cache event] in Hr.
    destruct (if negb (bool_decide (hostIP m = "")) && _ then _ else _) as [p err] eqn:Hp.
    destruct err as [e|]; [done|].
    assert (pod_UID p = pod_UID pod ∧
      (hostIP m = "" ∨ ps_HostIP (pod_Status pod) = hostIP m ∨ Patch pod (set_hostIP (hostIP m) pod) = Ok p) ∧ (p = pod ∨ Patch pod (set_hostIP (hostIP m) pod) = Ok p)) as (Hu & Hip & _).
    { destruct (negb _ && negb _) eqn:Hb; [|simplify_eq].
      - unfold Finalizers.patch in Hp. destruct (Patch pod _) as [q|] eqn:Hq; simplify_eq.
        apply Hpatch in Hq as Hq'. by auto.
      - split; [done|]. split; [|by left]. apply andb_false_iff in Hb as [Hb|Hb];
          apply negb_false_iff, bool_decide_eq_true in Hb; auto. }
    exists p. rewrite Hu in Hr. cbn [latest set_cache event] in Hr. unfold schedule_update, schedule in Hr.
    rewrite !Hs, Hu in Hr. unfold added.
    destruct (latest m !! pod_UID pod) as [x|] eqn:Hl; cbn in Hr;
      destruct (Compare.podRequiresRecreation oldPod p) eqn:Hrec; cbn in Hr; simplify_eq; cbn;
      unfold GetByID, Update; cbn; rewrite Hu, !lookup_insert_eq, ?Hl; split_and!; try done.
    all: by rewrite ?app_nil_r, <-?(assoc_L (++)).
Qed.








End Handlers.
End Manager.

Module Examples.
Import PodCache Manager.

Definition patch_ok (o n : Pod) : result Pod := Ok n.
Definition no_delete (n : string) : option string := None.
Definition schedule_ok (a : JobAction) (k : string) : option string := None.
Definition host_spec : PodSpec := {|
  sp_Volumes := []; sp_InitContainers := []; sp_Containers := []; sp_EphemeralContainers := []; sp_RestartPolicy := "Always";
  sp_TerminationGracePeriodSeconds := None; sp_DNSPolicy := "Default"; sp_ServiceAccountName := ""; sp_NodeName := "node";
  sp_HostNetwork := true; sp_HostPID := false; sp_HostIPC := false; sp_ShareProcessNamespace := None;
  sp_SecurityContext := None; sp_ImagePullSecrets := []; sp_Hostname := ""; sp_HostAliases := [];
  sp_DNSConfig := None; sp_EnableServiceLinks := None |}.
Definition host_pod : Pod := Samples.pod "u1" "web" host_spec.
Definition cluster_pod : Pod := Samples.pod "u2" "db" (Samples.spec [] [] []).
Definition m0 : Manager := NewManager "node" "10.0.0.1".
Definition run_host : outcome (Manager * option string) := onResourcePodUpdated patch_ok schedule_ok host_pod host_pod m0.
Lemma run_host_Ret : ∃ m, run_host = Ret (m, None).
Proof. eexists. by vm_compute. Qed.

Lemma cluster_network_never_admitted_witness :
  ∃ m m' e, run_host = Ret (m, None) ∧ onResourcePodUpdated patch_ok schedule_ok cluster_pod cluster_pod m = Ret (m', Some e).
Proof.
  destruct run_host_Ret as [m Hm].
  assert (reachable patch_ok no_delete schedule_ok "node" "10.0.0.1" m) as Hr
    by (eapply (reachable_call _ _ _ _ _ m0 (CUpdated host_pod host_pod)); [constructor|exact Hm]).
  destruct (cluster_network_never_admitted _ _ _ _ _ _ Hr) as [H _].
  destruct (H cluster_pod cluster_pod) as (m' & e & He & _); [done..|]. by exists m, m', e.
Defined.

Lemma onResourcePodUpdated_correct_witness :
  ∃ m, run_host = Ret (m, None) ∧ jobs m = [(ActionAdd, "u1")].
Proof.
  destruct run_host_Ret as [m Hm]. exists m. split; [done|].
  destruct (onResourcePodUpdated_correct patch_ok no_delete schedule_ok "node" "10.0.0.1" m0 host_pod host_pod m None) as [_ H];
    [constructor|done|by intros o n p [= ->]|done|exact Hm|].
  destruct H as (p & _ & Hp & _ & Hj); [done..|]. destruct Hp as [?|[?|Hp] ]; [done..|]. unfold patch_ok in Hp. simplify_eq.
  unfold added in Hj. rewrite Hj. by vm_compute.
Defined.


(** A pod that the device reports before it is cached is deleted from the device; its creation, when its turn comes, is not scheduled, as the
    reconciler knows the key by then. *)
Example reported_before_cached :
  match onResourcePodUpdated patch_ok schedule_ok host_pod host_pod (device_reports schedule_ok "u1" m0) with
  | Ret (m, r) => (jobs m, r, bool_decide (is_Some (GetByID "u1" (podCache m)))) | _ => ([], None, false)
  end = ([(ActionDelete, "u1")], None, true).
Proof. by vm_compute. Qed.

End Examples.
