(* ===== verification/DevicePod.v ===== *)
(** * Pods on the device

    src/pkg/virtualnode/pod/devpod_actions.go, devpod_reconcile.go, the status updates of manager.go, the
    commands run on the host in place of containers (respod_virtual.go), keepPVCAndInlineCSIOnly of
    zz_dummy_kube_impl.go, HandleMessages of connectivity/handler.go and GetPodIPs of util/convert/pod_cidrs.go.
    Everything outside (the API server, the device, the listers, files) answers by functions of the whole history. *)
From S2P Require Import Prelude GoNet K8s Api Caches PodTranslate PodResolve Admission.
Open Scope Z_scope.

Module Storage.

Definition set_mounts (l : list VolumeMount) (c : Container) : Container := {|
  ctr_Name := ctr_Name c; ctr_Image := ctr_Image c; ctr_Command := ctr_Command c; ctr_Args := ctr_Args c;
  ctr_WorkingDir := ctr_WorkingDir c; ctr_Ports := ctr_Ports c; ctr_EnvFrom := ctr_EnvFrom c; ctr_Env := ctr_Env c;
  ctr_VolumeMounts := l; ctr_LivenessProbe := ctr_LivenessProbe c; ctr_ReadinessProbe := ctr_ReadinessProbe c;
  ctr_Lifecycle := ctr_Lifecycle c; ctr_ImagePullPolicy := ctr_ImagePullPolicy c;
  ctr_SecurityContext := ctr_SecurityContext c; ctr_Stdin := ctr_Stdin c; ctr_TTY := ctr_TTY c;
  ctr_Requests := ctr_Requests c; ctr_Limits := ctr_Limits c |}.
Definition set_volumes (v : list Volume) (cs : list Container) (p : Pod) : Pod :=
  let s := pod_Spec p in {|
  pod_UID := pod_UID p; pod_Namespace := pod_Namespace p; pod_Name := pod_Name p; pod_Labels := pod_Labels p;
  pod_Annotations := pod_Annotations p; pod_Finalizers := pod_Finalizers p;
  pod_Spec := {| sp_Volumes := v; sp_InitContainers := sp_InitContainers s; sp_Containers := cs;
    sp_EphemeralContainers := sp_EphemeralContainers s; sp_RestartPolicy := sp_RestartPolicy s;
    sp_TerminationGracePeriodSeconds := sp_TerminationGracePeriodSeconds s; sp_DNSPolicy := sp_DNSPolicy s;
    sp_ServiceAccountName := sp_ServiceAccountName s; sp_NodeName := sp_NodeName s; sp_HostNetwork := sp_HostNetwork s;
    sp_HostPID := sp_HostPID s; sp_HostIPC := sp_HostIPC s; sp_ShareProcessNamespace := sp_ShareProcessNamespace s;
    sp_SecurityContext := sp_SecurityContext s; sp_ImagePullSecrets := sp_ImagePullSecrets s; sp_Hostname := sp_Hostname s;
    sp_HostAliases := sp_HostAliases s; sp_DNSConfig := sp_DNSConfig s; sp_EnableServiceLinks := sp_EnableServiceLinks s |};
  pod_Status := pod_Status p |}.

Definition claimed (v : Volume) : bool :=
  bool_decide (is_Some (v_PersistentVolumeClaim v)) || bool_decide (is_Some (v_CSI v)).

Definition out_of_range : string := "index out of range".
(** for j, vm := range l { if valid(vm) { mounts = append(mounts, po.Spec.Containers[i].VolumeMounts[j]) } } *)
Fixpoint keep_mounts (valid : string → bool) (cs : list Container) (i j : nat) (l : list VolumeMount) : outcome (list VolumeMount) :=
  match l with
  | [] => Ret []
  | vm :: l =>
      if valid (vm_Name vm) then
        match cs !! i ≫= λ c, ctr_VolumeMounts c !! j with
        | Some x => r ← keep_mounts valid cs i (S j) l; Ret (x :: r)
        | None => Panic out_of_range
        end
      else keep_mounts valid cs i (S j) l
  end.
(** One of the two loops: over the mounts of each of [ctrs], assigning to Containers[i]. *)
Fixpoint keep_loop (valid : string → bool) (i : nat) (mounts_of : list Container → nat → option (list VolumeMount)) (n : nat)
    (cs : list Container) : outcome (list Container) :=
  match n with
  | O => Ret cs
  | S n =>
      match mounts_of cs i with
      | None => Ret cs
      | Some l =>
          mounts ← keep_mounts valid cs i 0 l;
          match cs !! i with
          | Some c => keep_loop valid (S i) mounts_of n (<[i := set_mounts mounts c]> cs)
          | None => Panic out_of_range
          end
      end
  end.
Definition keepPVCAndInlineCSIOnly (p : Pod) : outcome Pod :=
  let volumes := filter (λ v, claimed v = true) (sp_Volumes (pod_Spec p)) in
  let valid name := bool_decide (name ∈ v_Name <$> volumes) in
  let inits := sp_InitContainers (pod_Spec p) in
  cs ← keep_loop valid 0 (λ _ i, ctr_VolumeMounts <$> inits !! i) (length inits) (sp_Containers (pod_Spec p));
  cs ← keep_loop valid 0 (λ cs i, ctr_VolumeMounts <$> cs !! i) (length cs) cs;
  Ret (set_volumes volumes cs p).

Definition keep (valid : string → bool) (l : list VolumeMount) : list VolumeMount := filter (λ vm, valid (vm_Name vm) = true) l.

Lemma keep_mounts_self valid cs i c l pre :
  cs !! i = Some c → ctr_VolumeMounts c = pre ++ l → keep_mounts valid cs i (length pre) l = Ret (keep valid l).
Proof.
  intros Hc. revert pre. unfold keep. induction l as [|vm l IH]; intros pre Hl; [done|]. cbn [keep_mounts]. rewrite filter_cons.
  assert (cs !! i ≫= (λ c, ctr_VolumeMounts c !! length pre) = Some vm) as Hx.
  { rewrite Hc. cbn. rewrite Hl. by apply list_lookup_middle. }
  specialize (IH (pre ++ [vm])). rewrite length_app, Nat.add_1_r in IH. rewrite <-(assoc_L (++)) in IH. cbn in IH.
  specialize (IH Hl). destruct (valid (vm_Name vm)); [rewrite Hx, IH|rewrite IH]; by case_decide.
Qed.

Lemma keep_loop_self valid n i cs :
  (i + n = length cs)%nat →
  keep_loop valid i (λ cs i, ctr_VolumeMounts <$> cs !! i) n cs =
    Ret (take i cs ++ ((λ c, set_mounts (keep valid (ctr_VolumeMounts c)) c) <$> drop i cs)).
Proof.
  revert i cs. induction n as [|n IH]; intros i cs Hl; cbn [keep_loop].
  - rewrite take_ge, drop_ge by lia. by rewrite app_nil_r.
  - destruct (lookup_lt_is_Some_2 cs i) as [c Hc]; [lia|]. rewrite Hc. cbn [fmap option_fmap option_map].
    rewrite (keep_mounts_self valid cs i c _ []) by done. cbn [mbind outcome_bind].
    rewrite IH by (rewrite length_insert; lia).
    rewrite (drop_S cs c i Hc), drop_insert_lt by lia.
    rewrite (take_S_r _ _ (set_mounts (keep valid (ctr_VolumeMounts c)) c)) by (apply list_lookup_insert_eq; lia).
    rewrite take_insert_ge by lia. by rewrite <-(assoc_L (++)).
Qed.

(** What is left of a pod for the storage of its claims. Without init containers: exactly the claimed and CSI volumes, and of
    every container exactly the mounts of those. With an init container that mounts no such volume, the first container loses all its
    mounts, those of claims too; with more init containers than containers the code crashes. *)
Lemma keepPVCAndInlineCSIOnly_correct p :
  let valid name := bool_decide (name ∈ v_Name <$> filter (λ v, claimed v = true) (sp_Volumes (pod_Spec p))) in
  (sp_InitContainers (pod_Spec p) = [] → ∃ q, keepPVCAndInlineCSIOnly p = Ret q ∧
     sp_Volumes (pod_Spec q) = filter (λ v, claimed v = true) (sp_Volumes (pod_Spec p)) ∧
     ctr_VolumeMounts <$> sp_Containers (pod_Spec q) = keep valid ∘ ctr_VolumeMounts <$> sp_Containers (pod_Spec p)) ∧
  (∀ i0 c0 cs, sp_InitContainers (pod_Spec p) = [i0] → sp_Containers (pod_Spec p) = c0 :: cs →
     keep valid (ctr_VolumeMounts i0) = [] → ∃ q, keepPVCAndInlineCSIOnly p = Ret q ∧
     ctr_VolumeMounts <$> sp_Containers (pod_Spec q) = [] :: (keep valid ∘ ctr_VolumeMounts <$> cs)) ∧
  (∀ i0, sp_InitContainers (pod_Spec p) = [i0] → sp_Containers (pod_Spec p) = [] → keepPVCAndInlineCSIOnly p = Panic out_of_range).
Proof.
  intros valid. unfold keepPVCAndInlineCSIOnly. fold valid. split_and!.
  - intros ->. cbn [keep_loop length mbind outcome_bind]. rewrite keep_loop_self by done. rewrite drop_0, take_0.
    eexists. split; [done|]. split; [done|]. cbn. rewrite <-list_fmap_compose. done.
  - intros i0 c0 cs -> -> Hk. cbn [keep_loop length lookup list_lookup fmap option_fmap option_map].
    assert (∀ j l, keep valid l = [] → keep_mounts valid (c0 :: cs) 0 j l = Ret []) as Hnone.
    { intros j l. revert j. induction l as [|vm l IH]; intros j Hl; [done|]. unfold keep in Hl. rewrite filter_cons in Hl.
      cbn [keep_mounts]. case_decide as Hv; [done|]. apply not_true_is_false in Hv. rewrite Hv. by apply IH. }
    rewrite Hnone by done. cbn [mbind outcome_bind insert list_insert]. rewrite keep_loop_self by done. rewrite drop_0, take_0.
    eexists. split; [done|]. cbn. rewrite <-list_fmap_compose. done.
  - intros i0 -> ->. cbn. destruct (ctr_VolumeMounts i0) as [|vm l]; [done|].
    assert (∀ j l, keep_mounts valid [] 0 j l = Ret [] ∨ keep_mounts valid [] 0 j l = Panic out_of_range) as Hp.
    { intros j l'. revert j. induction l' as [|x l' IH]; intros j; cbn; [by left|]. destruct (valid _); [by right|apply IH]. }
    by destruct (Hp 0%nat (vm :: l)) as [-> | ->].
Qed.

End Storage.

Module Device.
Import Status Container PodOptions VolumesInUse.


(** ** Messages, commands and the world *)

(** A message of the device: an error (one for which Msg.GetError is not nil), the status of a pod, a list of them,
    a list of so many images, or anything else. The error kinds are the integers of the protocol. *)
Definition ERR_NOT_FOUND : Z := 1.
Definition ERR_ALREADY_EXISTS : Z := 2.
Definition ERR_NOT_SUPPORTED : Z := 3.
Inductive Msg :=
  | MError (kind : Z) (description : string)
  | MPodStatus (ps : PodStatusMsg)
  | MPodStatusList (l : list PodStatusMsg)
  | MImageList (n : nat)
  | MOther.

(** The commands sent in a CMD_RUNTIME packet. *)
Inductive Packet :=
  | CMD_IMAGE_ENSURE (images : gmap string ImagePullSpec)
  | CMD_POD_ENSURE (cmd : PodEnsureCmd)
  | CMD_POD_DELETE (uid : string) (graceTime : Z) (hooks : gmap string (option ContainerAction))
  | CMD_POD_LIST (all : bool).

(** The manager's cache, its reconciler of device pods, and what it did to the outside so far. *)
Record World := {
  w_cache : PodCache.PodCache; w_latest : gmap string string; w_jobs : list (JobAction * string);
  w_updates : list Pod;                                  (** pod status updates sent *)
  w_nodes : list (list string * list AttachedVolume);    (** node status updates sent *)
  w_posts : list Packet;                                 (** commands posted to the device *)
  w_events : list (string * string)
}.
Definition set_cache c w := {| w_cache := c; w_latest := w_latest w; w_jobs := w_jobs w; w_updates := w_updates w;
  w_nodes := w_nodes w; w_posts := w_posts w; w_events := w_events w |}.
Definition set_rec l j w := {| w_cache := w_cache w; w_latest := l; w_jobs := j; w_updates := w_updates w;
  w_nodes := w_nodes w; w_posts := w_posts w; w_events := w_events w |}.
Definition add_update p w := {| w_cache := w_cache w; w_latest := w_latest w; w_jobs := w_jobs w; w_updates := w_updates w ++ [p];
  w_nodes := w_nodes w; w_posts := w_posts w; w_events := w_events w |}.
Definition add_node n w := {| w_cache := w_cache w; w_latest := w_latest w; w_jobs := w_jobs w; w_updates := w_updates w;
  w_nodes := w_nodes w ++ [n]; w_posts := w_posts w; w_events := w_events w |}.
Definition add_post p w := {| w_cache := w_cache w; w_latest := w_latest w; w_jobs := w_jobs w; w_updates := w_updates w;
  w_nodes := w_nodes w; w_posts := w_posts w ++ [p]; w_events := w_events w |}.
Definition add_event reason msg w := {| w_cache := w_cache w; w_latest := w_latest w; w_jobs := w_jobs w; w_updates := w_updates w;
  w_nodes := w_nodes w; w_posts := w_posts w; w_events := w_events w ++ [(reason, msg)] |}.

(** The outside: what the rest of the program and other systems answer, given everything that happened. *)
Record Outside := {
  nodeName : string; GetPodCIDR : bool → string; StorageEnabled : bool;
  (* the listers, the downward API, the services and the environment of the process (PodResolve.Env) *)
  GetConfigMap : string → option ConfigMap; GetSecret : string → option Secret; IsEnvVarName : string → bool;
  ConvertDownwardAPIFieldLabel : string → string → result string; ExtractFieldPathAsString : Pod → string → result string;
  ExtractContainerResourceValue : ResourceFieldSelector → Container → result string;
  ExtractResourceValueByContainerName : ResourceFieldSelector → Pod → string → result string;
  services : list (string * string); environ : list string;
  (* image credentials (PodResolve.ImagePull) *)
  Keyring : Type; MakeDockerKeyring : list Secret → result Keyring; ParseImageName : string → result string;
  Keyring_Lookup : Keyring → string → list ImageAuthConfig * bool;
  (* the namespace, the lookup of kube-dns and the configuration (PodResolve.Dns) *)
  TenantNS : string; kube_dns : list string; DNS : Dns.DNSConfig;
  (* volumes and claims (PodResolve.VolumesInUse) *)
  uses : Pod → string → bool; get_pvc : string → result string; get_pv : string → result string;
  csi_name : Volume → result string; pv_name : string → result string; GetUniqueVolumeName : string → string;
  GetPersistentVolumeMountPath : string → string → string;
  (* abbot's requests and the bandwidth annotations (PodTranslate.PodOptions) *)
  Request : Type; NewRequest : Network.ContainerNetworkEnsureRequest → result Request; Request_Marshal : Request → result string;
  ExtractBandwidth : gmap string string → option Z * option Z;
  parse_time : string → Z;
  GetPod : World → string → option Pod;                                          (** the lister *)
  UpdateStatus : World → Pod → option (bool * string);                           (** an error: is it NotFound, its text *)
  GetNode : World → option (list string * list AttachedVolume);
  UpdateNode : World → list string * list AttachedVolume → result (list string); (** the volumes in use of the answer *)
  PrepareStorage : World → Pod → list string → option string;
  CleanupStorage : World → Pod → option string;
  DeletePod : World → string → option string;                                    (** an error that is not NotFound *)
  PostCmd : World → Packet → result (list Msg);                                  (** the messages until the session closes *)
  Marshal_err : Packet → option string;
  Schedule_err : World → JobAction → string → option string;
  Unmarshal_net : string → result (list (string * list string));                 (** interfaces with their addresses *)
  Exec : list string → gmap string string → option (option Z * string);          (** an error: the code of an ErrorMsg, its text *)
  OpenLog : string → option string;
  Now : nat → bool → string                                                      (** of the i-th container: its start, its end *)
}.

(** A computation on the world, and one that may return an error. *)
Definition M (A : Type) : Type := World → outcome (World * A).
#[export] Instance M_ret : MRet M := λ A a w, Ret (w, a).
#[export] Instance M_bind : MBind M := λ A B f m w, '(w, a) ← m w; f a w.
Definition modify (f : World → World) : M unit := λ w, Ret (f w, tt).
Definition lift {A} (o : outcome A) : M A := λ w, a ← o; Ret (w, a).
(** if err != nil { return ..., err } *)
Definition try {A B} (m : M (result A)) (f : A → M (result B)) : M (result B) :=
  r ← m; match r with Ok a => f a | Err e => mret (Err e) end.
Notation "x ←! m ; k" := (try m (λ x, k)) (at level 20, m at level 100, k at level 200, only parsing).

Section Device.
Context (o : Outside).

(** ** The parts of a pod, resolved with the outside *)

Definition resolveEnv (pod : Pod) (ctr : Container) : result (gmap string string) :=
  Env.resolveEnv (GetConfigMap o) (GetSecret o) (IsEnvVarName o) (ConvertDownwardAPIFieldLabel o) (ExtractFieldPathAsString o)
    (ExtractContainerResourceValue o) (ExtractResourceValueByContainerName o) (services o) (environ o) pod ctr.
Definition resolveImagePullAuthConfig (pod : Pod) : result (gmap string ImageAuthConfig) :=
  ImagePull.resolveImagePullAuthConfig (GetSecret o) (Keyring o) (MakeDockerKeyring o) (ParseImageName o) (Keyring_Lookup o) pod.
Definition resolveVolumeData (pod : Pod) : result (gmap string (gmap string string)) :=
  VolumeData.resolveVolumeData (GetConfigMap o) (GetSecret o) pod.
Definition resolveDNSSettings (pod : Pod) : result AranyaDNSConfig :=
  Dns.resolveDNSSettings (TenantNS o) (kube_dns o) (DNS o) pod.
Definition getUniqueVolumeNamesAndPaths (pod : Pod) : result (gmap string volumeNamePathPair) :=
  VolumesInUse.getUniqueVolumeNamesAndPaths (uses o) (get_pvc o) (get_pv o) (csi_name o) (pv_name o) (GetUniqueVolumeName o)
    (GetPersistentVolumeMountPath o) pod.
Definition translate (volNames : list volumeNamePathPair) (pod : Pod) (envs : gmap string (gmap string string))
    (auth : gmap string ImageAuthConfig) (volumeData : gmap string (gmap string string)) (dns : AranyaDNSConfig) :
    outcome (result create_options) :=
  translatePodCreateOptions (Request o) (NewRequest o) (Request_Marshal o) (ExtractBandwidth o) (StorageEnabled o) volNames
    (GetPodCIDR o false) (GetPodCIDR o true) pod envs auth volumeData dns.

Definition JobSchedule (a : JobAction) (key : string) : M unit := λ w,
  let w := set_rec (<[key := key]> (w_latest w)) (w_jobs w) w in
  match Schedule_err o w a key with
  | Some _ => Ret (w, tt)
  | None => Ret (set_rec (w_latest w) (w_jobs w ++ [(a, key)]) w, tt)
  end.

(** ** Status updates *)

Definition getPod (name : string) : M (result Pod) := λ w,
  match GetPod o w name with
  | None => Ret (w, Err ("pod " +:+ quote name +:+ " not found"))
  | Some pod =>
      let c := if decide (pod_Name pod = nodeName o) then PodCache.Delete (pod_UID pod) (w_cache w)
               else PodCache.Update pod (w_cache w) in
      Ret (set_cache c w, Ok pod)
  end.

(** The loop: at most [tries] updates. The pod it ends with, or the error that ends everything. *)
Fixpoint update_loop (tries : nat) (pod : Pod) : M (result Pod) :=
  match tries with
  | O => mret (Ok pod)
  | S tries => λ w,
      let err := UpdateStatus o w pod in
      let w := add_update pod w in
      match err with
      | None => Ret (w, Ok pod)
      | Some (true, e) => Ret (w, Err e)
      | Some (false, _) =>
          '(w, r) ← getPod (pod_Name pod) w;
          update_loop tries (match r with Ok newPod => set_status (pod_Status pod) newPod | Err _ => pod end) w
      end
  end.
Definition tryCount : nat := 5.
Definition UpdatePodStatus (pod : Pod) : M (result Pod) :=
  pod ←! update_loop tryCount pod; getPod (pod_Name pod).

(** (ipv4, ipv6) of the addresses of the interfaces: the last ones, the loopback left out *)
Definition add_addr (acc : string * string) (addr : string) : string * string :=
  match ParseCIDR addr with
  | None => acc
  | Some (_, cidr, _, _) => if To4 (net_IP cidr) is None then (acc.1, addr) else (addr, acc.2)
  end.
Definition iface_addrs (acc : string * string) (iface : string * list string) : string * string :=
  if decide (iface.1 = "lo0") then acc else foldl add_addr acc iface.2.
(** convert.GetPodIPs *)
Definition GetPodIPs (ipv4 ipv6 : string) : string * list string :=
  ((if decide (ipv4 = "") then ipv6 else ipv4),
   (if decide (ipv4 = "") then [] else [ipv4]) ++ (if decide (ipv6 = "") then [] else [ipv6])).

Definition set_ips (ips : string * list string) (p : Pod) : Pod :=
  let s := pod_Status p in
  set_status {| ps_Phase := ps_Phase s; ps_HostIP := ps_HostIP s; ps_PodIP := ips.1; ps_PodIPs := ips.2;
                ps_InitContainerStatuses := ps_InitContainerStatuses s; ps_ContainerStatuses := ps_ContainerStatuses s |} p.

(** The pod with the status of a report of the device. *)
Definition mirror (st : PodStatusMsg) (forInitContainers : bool) (pod : Pod) : Pod :=
  let pod :=
    if forInitContainers then
      let '(_, cs) := resolveContainerStatus (parse_time o) (sp_InitContainers (pod_Spec pod)) st in
      set_init_phase (ps_Phase (pod_Status pod)) cs pod
    else
      let '(phase, cs) := resolveContainerStatus (parse_time o) (sp_Containers (pod_Spec pod)) st in
      set_phase phase cs pod in
  match Unmarshal_net o (psm_Network st) with
  | Err _ => pod
  | Ok ifaces => let '(v4, v6) := foldl iface_addrs ("", "") ifaces in set_ips (GetPodIPs v4 v6) pod
  end.

(** The pod after it, which the callers see through their pointer, and the error. *)
Definition UpdateMirrorPod (pod : option Pod) (devicePodStatus : option PodStatusMsg) (forInitContainers : bool) :
    M (option Pod * option string) := λ w,
  let update (pod : Pod) : M (option Pod * option string) := λ w,
    let pod := match devicePodStatus with Some st => mirror st forInitContainers pod | None => pod end in
    '(w, r) ← UpdatePodStatus pod w;
    Ret (w, (Some pod, match r with Ok _ => None | Err e => Some e end)) in
  match pod, devicePodStatus with
  | Some pod, _ => update pod w
  | None, None => Ret (w, (None, Some "pod cache not found for device pod status"))
  | None, Some st =>
      match PodCache.GetByID (psm_Uid st) (w_cache w) with
      | Some pod => update pod w
      | None => '(w, _) ← JobSchedule ActionDelete (psm_Uid st) w; Ret (w, (None, None))
      end
  end.

(** connectivity.HandleMessages: the handler's state and whether it has asked to stop; the rest is drained *)
Fixpoint HandleMessages {S} (onMsg : Msg → S → M (bool * S)) (msgs : list Msg) (s : S) : M S :=
  match msgs with
  | [] => mret s
  | msg :: msgs => '(exit, s) ← onMsg msg s; if exit : bool then mret s else HandleMessages onMsg msgs s
  end.

(** ** Commands on the host in place of containers *)

(** The commands of a container, one per argument, up to the first that fails. *)
Fixpoint exec_args (cmd : list string) (envs : gmap string string) (args : list string) : option (option Z * string) :=
  match args with
  | [] => None
  | arg :: args =>
      match Exec o (cmd ++ [arg]) envs with
      | Some e => Some e
      | None => exec_args cmd envs args
      end
  end.
Definition DefaultExitCodeOnError : Z := 128.
Definition exec_status (createdAt finishedAt : string) (err : option (option Z * string)) : DeviceStatus :=
  {| d_ContainerId := ""; d_ImageId := ""; d_CreatedAt := createdAt; d_StartedAt := createdAt; d_FinishedAt := finishedAt;
     d_ExitCode := match err with
                   | None => 0
                   | Some (Some code, _) => Network.wrap32 code
                   | Some (None, _) => DefaultExitCodeOnError
                   end;
     d_Reason := match err with Some (_, e) => e | None => "" end;
     d_Message := match err with Some _ => "CommandExecFailed" | None => "" end |}.
Fixpoint exec_containers (i : nat) (l : list ContainerSpec) (m : gmap string DeviceStatus) : gmap string DeviceStatus :=
  match l with
  | [] => m
  | ctr :: l =>
      let err := exec_args (cspec_Command ctr) (cspec_Envs ctr) (cspec_Args ctr) in
      let m := <[cspec_Name ctr := exec_status (Now o i false) (Now o i true) err]> m in
      if err is Some _ then m else exec_containers (S i) l m
  end.
Definition handleContainerAsHostExec (opts : PodEnsureCmd) : M (result PodStatusMsg) := λ w,
  if decide (pec_PodUid opts = "" ∨ pec_Namespace opts = "" ∨ pec_Name opts = "") then
    Ret (w, Err "invalid options: pod uid should not be empty")
  else
    match list_find (λ ctr, is_Some (OpenLog o (cspec_Name ctr))) (pec_Containers opts) with
    | Some (_, ctr) => Ret (w, Err (default "" (OpenLog o (cspec_Name ctr))))
    | None => Ret (w, Ok {| psm_Uid := pec_PodUid opts; psm_Network := "";
                            psm_Containers := exec_containers 0 (pec_Containers opts) ∅ |})
    end.

(** ** Creation *)

Definition hasPodCIDR : bool :=
  negb (bool_decide (GetPodCIDR o false = "")) || negb (bool_decide (GetPodCIDR o true = "")).

Fixpoint resolve_envs (pod : Pod) (l : list Container) (envs : gmap string (gmap string string)) :
    result (gmap string (gmap string string)) :=
  match l with
  | [] => Ok envs
  | ctr :: l => e ← resolveEnv pod ctr; resolve_envs pod l (<[ctr_Name ctr := e]> envs)
  end.

(** An error is recorded as an event with this reason, and returned behind the prefix. *)
Definition or_event {A} (reason prefix : string) (r : result A) : M (result A) := λ w,
  match r with Ok a => Ret (w, Ok a) | Err e => Ret (add_event reason e w, Err (prefix +:+ e)) end.

(** The storage of a pod's volumes: their names and paths. *)
Definition prepare_storage (pod : Pod) : M (result (gmap string volumeNamePathPair)) := λ w,
  if negb (StorageEnabled o) then Ret (w, Ok ∅) else
  match wrap_err "failed to get unique volume names: " (getUniqueVolumeNamesAndPaths pod) with
  | Err e => Ret (w, Err e)
  | Ok volNames =>
      if decide (volNames = ∅) then Ret (w, Ok volNames) else
      match GetNode o w with
      | None => Ret (w, Err "failed to get node")
      | Some (inUse, attached) =>
          node ← addVolumesInUse inUse attached (dom volNames);
          let r := UpdateNode o w node in
          let w := add_node node w in
          match r with
          | Err e => Ret (w, Err ("failed to update node volume in use: " +:+ e))
          | Ok inUse =>
              p ← Storage.keepPVCAndInlineCSIOnly pod;
              match PrepareStorage o w p inUse with
              | Some e => Ret (w, Err ("failed to setup storage: " +:+ e))
              | None => Ret (w, Ok volNames)
              end
          end
      end
  end.

(** Everything before the first command: the options of the creation. *)
Definition resolve_pod (pod : Pod) : M (result create_options) :=
  envs ←! or_event "FailedToResolveEnv" "" (resolve_envs pod (sp_Containers (pod_Spec pod)) ∅);
  auth ←! or_event "FailedToResolveImagePullAuthConfig" "" (resolveImagePullAuthConfig pod);
  volumeData ←! or_event "FailedToResolveVolumeData" "" (resolveVolumeData pod);
  dnsConfig ←! or_event "FailedToResolveDNSSettings" "failed to resolve dns settings: " (resolveDNSSettings pod);
  volNames ←! prepare_storage pod;
  r ← lift (translate (map_to_list volNames).*2 pod envs auth volumeData dnsConfig);
  or_event "FailedToGeneratePodCreationOptions" "failed to generate pod creation options: " r.

(** The latest pod with a new status, after its update. *)
Definition mark (status : Pod → outcome Pod) (pod : Pod) : M (result Pod) :=
  latestPod ←! getPod (pod_Name pod);
  pod ← lift (status latestPod);
  UpdatePodStatus pod.
Definition mark_creating : Pod → M (result Pod) :=
  mark (λ pod, let '(phase, cs) := newContainerCreatingStatus pod in Ret (set_phase phase cs pod)).
Definition mark_initializing : Pod → M (result Pod) :=
  mark (λ pod, '(phase, cs) ← newContainerInitializingStatus pod; Ret (set_init_phase phase cs pod)).

(** The error of a message that says so. *)
Definition ErrorMsg_Error (kind : Z) (description : string) : string :=
  (if kind =? 0 then "ERR_COMMON" else if kind =? 1 then "ERR_NOT_FOUND" else if kind =? 2 then "ERR_ALREADY_EXISTS"
   else if kind =? 3 then "ERR_NOT_SUPPORTED" else if kind =? 4 then "ERR_TIMEOUT" else pretty kind) +:+ "/" +:+ description.

(** The handler of the image messages; its state is err. *)
Definition on_image_msg (msg : Msg) (err : option string) : M (bool * option string) := λ w,
  match msg with
  | MError kind d => Ret (add_event "ImagePullError" d w, (true, Some (ErrorMsg_Error kind d)))
  | MImageList n =>
      Ret (if decide (n = 0%nat) then w else add_event "Pulled" "Successfully pulled all images" w, (false, err))
  | _ => Ret (w, (true, err))
  end.
Definition pull_images (images : gmap string ImagePullSpec) : M (result unit) :=
  if decide (images = ∅) then mret (Ok tt) else
  λ w,
    match Marshal_err o (CMD_IMAGE_ENSURE images) with
    | Some e => Ret (w, Err ("failed to marshal image ensure options: " +:+ e))
    | None =>
        match PostCmd o w (CMD_IMAGE_ENSURE images) with
        | Err e => Ret (add_event "FailedToPostImageEnsureCmd" e w, Err e)
        | Ok msgs =>
            let w := add_event "Pulling" "Pulling all images" (add_post (CMD_IMAGE_ENSURE images) w) in
            '(w, err) ← HandleMessages on_image_msg msgs None w;
            Ret (w, match err with Some e => Err e | None => Ok tt end)
        end
    end.

(** The handlers of the creation of init and work containers; their state is the pod and err. *)
Definition failed_status (for_init : bool) (pod : Pod) : Pod :=
  let '(phase, cs) := newContainerErrorStatus pod in
  if for_init then set_init_phase phase cs pod else set_phase phase cs pod.
Definition on_create_msg (for_init : bool) (msg : Msg) (s : Pod * option string) : M (bool * (Pod * option string)) := λ w,
  let '(pod, err) := s in
  match msg with
  | MError kind d =>
      if negb for_init && (kind =? ERR_ALREADY_EXISTS) then
        Ret (add_event "Started" "Reused existing container(s)" w, (true, (pod, err)))
      else
        let w := add_event (if for_init then "RunInitContainerError" else "RunContainerError") d w in
        let pod := failed_status for_init pod in
        '(w, _) ← UpdateMirrorPod (Some pod) None false w;
        Ret (w, (true, (pod, Some (ErrorMsg_Error kind d))))
  | MPodStatus ps =>
      let w := if for_init then add_event "PodInitialized" "Init container(s) created and finished" w
               else add_event "Started" "Container(s) created and started" w in
      '(w, (pod', _)) ← UpdateMirrorPod (Some pod) (Some ps) for_init w;
      Ret (w, (false, (default pod pod', err)))
  | _ => Ret (w, (true, (pod, err)))
  end.
Definition create_containers (for_init : bool) (cmd : PodEnsureCmd) (pod : Pod) : M (result unit) := λ w,
  match Marshal_err o (CMD_POD_ENSURE cmd) with
  | Some e => Ret (w, Err ("failed to marshal pod ensure options: " +:+ e))
  | None =>
      match PostCmd o w (CMD_POD_ENSURE cmd) with
      | Err e => Ret (add_event (if for_init then "PostCreateInitCmdError" else "PostCreateWorkCmdError") e w, Err e)
      | Ok msgs =>
          '(w, (_, err)) ← HandleMessages (on_create_msg for_init) msgs (pod, None) (add_post (CMD_POD_ENSURE cmd) w);
          Ret (w, match err with Some e => Err e | None => Ok tt end)
      end
  end.

(** Host commands in place of containers: whether the creation goes on (a failed status update ends it with success).
    The status of init containers is written over the one of the work containers too. *)
Definition host_exec (cmd : PodEnsureCmd) (pod : Pod) : M (result bool) :=
  podStatus ←! (λ w, '(w, r) ← handleContainerAsHostExec cmd w;
                     Ret (w, wrap_err "failed to handle work container as host exec: " r));
  latest ← getPod (pod_Name pod);
  let pod := match latest with Ok p => p | Err _ => pod end in
  '(_, err) ← UpdateMirrorPod (Some pod) (Some podStatus) false;
  mret (Ok (match err with None => true | Some _ => false end)).

Definition init_phase (opts : create_options) (pod : Pod) : M (result (bool * Pod)) :=
  match co_init opts with
  | None => mret (Ok (true, pod))
  | Some cmd =>
      pod ←! mark_initializing pod;
      if co_initHostExec opts then (go ←! host_exec cmd pod; mret (Ok (go, pod)))
      else (_ ←! create_containers true cmd pod; mret (Ok (true, pod)))
  end.
Definition work_phase (opts : create_options) (pod : Pod) : M (result unit) :=
  pod ←! mark_creating pod;
  if co_workHostExec opts then (_ ←! host_exec (co_work opts) pod; mret (Ok tt))
  else create_containers false (co_work opts) pod.

Definition CreateDevicePod (pod : Pod) : M (result unit) :=
  if negb hasPodCIDR && negb (sp_HostNetwork (pod_Spec pod)) then mret (Err "pod cidr does not exists") else
  opts ←! resolve_pod pod;
  pod ←! (if co_init opts is None then mark_creating pod else mret (Ok pod));
  _ ←! pull_images (co_images opts);
  p ←! init_phase opts pod;
  if p.1 : bool then work_phase opts p.2 else mret (Ok tt).

(** ** Deletion and synchronisation *)

Definition is_virtual (ctr : Container) : bool := bool_decide (ctr_Image ctr = VirtualImageNameHostExec).
(** The hooks of the containers; [None] when one of them is a host command. *)
Fixpoint pre_stop_hooks (l : list Container) (m : gmap string (option ContainerAction)) :
    outcome (option (gmap string (option ContainerAction))) :=
  match l with
  | [] => Ret (Some m)
  | ctr :: l =>
      if is_virtual ctr then Ret None else
      match ctr_Lifecycle ctr ≫= lc_PreStop with
      | None => pre_stop_hooks l m
      | Some h =>
          a ← translateHandler (Some h) (getNamedContainerPorts ctr);
          pre_stop_hooks l (<[ctr_Name ctr := a]> m)
      end
  end.

Definition on_delete_msg (hasPodObj : bool) (msg : Msg) (err : option string) : M (bool * option string) := λ w,
  match msg with
  | MError kind d =>
      if kind =? ERR_NOT_SUPPORTED then Ret (w, (true, None))
      else if kind =? ERR_NOT_FOUND then Ret (if hasPodObj then add_event "Deleted" d w else w, (true, None))
      else Ret (if hasPodObj then add_event "DeletePodError" d w else w, (true, Some d))
  | _ => Ret (if hasPodObj && bool_decide (err = None) then add_event "Killed" "Delete pod succeeded" w else w, (false, err))
  end.

(** time.Duration(g) * time.Second, in 64 bits *)
Definition wrap64 (x : Z) : Z := (x + 2 ^ 63) mod 2 ^ 64 - 2 ^ 63.
Definition grace_time (pod : Pod) : Z :=
  match sp_TerminationGracePeriodSeconds (pod_Spec pod) with
  | Some g => if 0 <? g then wrap64 (g * second) else 0
  | None => 0
  end.
Definition DeleteDevicePod (podUID : string) : M (result unit) := λ w,
  let podToDelete := PodCache.GetByID podUID (w_cache w) in
  let w := if podToDelete is Some _ then add_event "Killing" "Killing containers" w else w in
  hooks ← (match podToDelete with
           | None => Ret (Some ∅)
           | Some pod => pre_stop_hooks (sp_Containers (pod_Spec pod)) ∅
           end);
  match hooks with
  | None => Ret (w, Ok tt)
  | Some hooks =>
      let cmd := CMD_POD_DELETE podUID (match podToDelete with Some pod => grace_time pod | None => 0 end) hooks in
      match Marshal_err o cmd with
      | Some e => Ret (w, Err ("failed to marshal pod delete options: " +:+ e))
      | None =>
          match PostCmd o w cmd with
          | Err e => Ret (if podToDelete is Some _ then add_event "PostDeleteCmdError" e w else w, Err e)
          | Ok msgs =>
              '(w, err) ← HandleMessages (on_delete_msg (bool_decide (is_Some podToDelete))) msgs None (add_post cmd w);
              Ret (w, match err with Some e => Err e | None => Ok tt end)
          end
      end
  end.

(** The state of the list handler: the volumes collected and err. *)
Definition sync_state : Type := (list string * list AttachedVolume) * option string.
(** The loop over the pods of a list; [true] when it ends the handling of messages. *)
Fixpoint sync_pods (l : list PodStatusMsg) (s : sync_state) : M (bool * sync_state) :=
  match l with
  | [] => mret (false, s)
  | ps :: l => λ w,
      if decide (psm_Uid ps = "") then Ret (w, (true, s)) else
      match PodCache.GetByID (psm_Uid ps) (w_cache w) with
      | None => '(w, _) ← JobSchedule ActionDelete (psm_Uid ps) w; Ret (w, (true, s))
      | Some pod =>
          '(w, (pod', _)) ← UpdateMirrorPod (Some pod) (Some ps) false w;
          match getUniqueVolumeNamesAndPaths (default pod pod') with
          | Err e => Ret (w, (true, (s.1, Some ("failed to get unique volume names: " +:+ e))))
          | Ok volNames =>
              if decide (volNames = ∅) then sync_pods l s w
              else vols ← addVolumesInUse s.1.1 s.1.2 (dom volNames); sync_pods l (vols, s.2) w
          end
      end
  end.
Definition on_list_msg (msg : Msg) (s : sync_state) : M (bool * sync_state) :=
  match msg with
  | MError kind d => mret (true, (s.1, Some (ErrorMsg_Error kind d)))
  | MPodStatusList l => sync_pods l s
  | _ => mret (true, s)
  end.
Definition SyncDevicePods : M (result unit) := λ w,
  match Marshal_err o (CMD_POD_LIST true) with
  | Some _ => Ret (w, Err "failed to marshal pod list options")
  | None =>
      match PostCmd o w (CMD_POD_LIST true) with
      | Err e => Ret (w, Err e)
      | Ok msgs =>
          '(w, (vols, err)) ← HandleMessages on_list_msg msgs (([], []), None) (add_post (CMD_POD_LIST true) w);
          match err with
          | Some e => Ret (w, Err e)
          | None =>
              if decide (vols.1 = []) then Ret (w, Ok tt) else
              match GetNode o w with
              | None => Ret (w, Err "failed to get node")
              | Some _ =>
                  let r := UpdateNode o w vols in
                  let w := add_node vols w in
                  Ret (w, match r with Ok _ => Ok tt | Err e => Err ("failed to update node volume in use: " +:+ e) end)
              end
          end
      end
  end.

(** ** The handlers of the device reconciler *)

(** reconcile.Result: the next action and the error *)
Inductive reconcile_result :=
  | RNil
  | RErr (e : string)
  | RNext (a : JobAction).

Definition onRemotePodCreationRequested (podUID : string) : M reconcile_result := λ w,
  match PodCache.GetByID podUID (w_cache w) with
  | None => Ret (w, RNil)
  | Some pod => '(w, r) ← CreateDevicePod pod w; Ret (w, match r with Ok _ => RNil | Err e => RErr e end)
  end.

Definition onRemotePodUpdateRequested (podUID : string) : M reconcile_result := λ w,
  match PodCache.GetByID podUID (w_cache w) with
  | None => Ret (w, RNil)
  | Some pod =>
      '(w, r) ← DeleteDevicePod (pod_UID pod) w;
      match r with
      | Err e => Ret (w, RErr e)
      | Ok _ => '(w, r) ← CreateDevicePod pod w; Ret (w, match r with Ok _ => RNil | Err _ => RNext ActionAdd end)
      end
  end.

Definition onRemotePodDeletionRequested (podUID : string) : M reconcile_result := λ w,
  '(w, r) ← DeleteDevicePod podUID w;
  match r with
  | Err e => Ret (w, RErr e)
  | Ok _ => Ret (set_cache (PodCache.MarkDeletedInRemote podUID true (w_cache w)) w, RNext ActionCleanup)
  end.

(** The log directory is removed with best effort. *)
Definition onRemotePodDeleted (podUID : string) : M reconcile_result := λ w,
  match PodCache.GetByID podUID (w_cache w) with
  | None => Ret (w, RNil)
  | Some pod =>
      match getUniqueVolumeNamesAndPaths pod with
      | Err e => Ret (w, RErr e)
      | Ok volNames =>
          '(w, r) ← (if decide (volNames = ∅) then Ret (w, Ok tt) else
            match GetNode o w with
            | None => Ret (w, Err "failed to get node")
            | Some (inUse, attached) =>
                node ← removeVolumeInUse inUse attached (dom volNames);
                let r := UpdateNode o w node in
                Ret (add_node node w, match r with Ok _ => Ok tt | Err e => Err e end)
            end);
          match r with
          | Err e => Ret (w, RErr e)
          | Ok _ =>
              cleanup ← (if StorageEnabled o then p ← Storage.keepPVCAndInlineCSIOnly pod; Ret (CleanupStorage o w p) else Ret None);
              match cleanup with
              | Some e => Ret (w, RErr e)
              | None =>
                  match DeletePod o w (pod_Name pod) with
                  | Some e => Ret (w, RErr e)
                  | None => Ret (set_cache (PodCache.Delete podUID (w_cache w)) w, RNil)
                  end
              end
          end
      end
  end.

(** ** What is sent to the device *)

(** Computations that send nothing. *)
Definition quiet {A} (m : M A) : Prop := ∀ w w' a, m w = Ret (w', a) → w_posts w' = w_posts w.
(** Computations that send a prefix of [l], and all of it when they succeed. *)
Definition sends {A} (l : list Packet) (m : M (result A)) : Prop :=
  ∀ w w' r, m w = Ret (w', r) →
    ∃ k, w_posts w' = w_posts w ++ k ∧ k `prefix_of` l ∧ (is_Ok r = true → k = l).

(** Invert an equation between results. *)
Ltac ret_inv H := unfold mret, M_ret in H; cbn in H; simplify_eq.
Lemma quiet_ret {A} (a : A) : quiet (mret a).
Proof. intros w w' b Hr. by ret_inv Hr. Qed.
Lemma quiet_bind {A B} (m : M A) (f : A → M B) : quiet m → (∀ a, quiet (f a)) → quiet (m ≫= f).
Proof.
  intros Hm Hf w w' b Hr. cbn in Hr. unfold mbind, M_bind in Hr.
  destruct (m w) as [ [w1 a]| |] eqn:Hw; cbn in Hr; [|done|done]. rewrite (Hf a _ _ _ Hr). by eapply Hm.
Qed.
Lemma quiet_step {A B} (m : M A) (f : A → M B) w w' b :
  quiet m → (∀ a, quiet (f a)) → ('(w, a) ← m w; f a w) = Ret (w', b) → w_posts w' = w_posts w.
Proof. intros Hm Hf Hr. by apply (quiet_bind m f Hm Hf w w' b). Qed.
Lemma quiet_try {A B} (m : M (result A)) (f : A → M (result B)) : quiet m → (∀ a, quiet (f a)) → quiet (try m f).
Proof. intros Hm Hf. apply quiet_bind; [done|]. intros [a|e]; [apply Hf|apply quiet_ret]. Qed.
Lemma quiet_lift {A} (x : outcome A) : quiet (lift x).
Proof. intros w w' a Hr. unfold lift in Hr. destruct x; by ret_inv Hr. Qed.
Lemma quiet_sends {A} (m : M (result A)) : quiet m → sends [] m.
Proof. intros Hm w w' r Hr. exists []. rewrite app_nil_r. split_and!; [by eapply Hm|done|done]. Qed.

Lemma sends_try {A B} l1 l2 (m : M (result A)) (f : A → M (result B)) :
  sends l1 m → (∀ a, sends l2 (f a)) → sends (l1 ++ l2) (try m f).
Proof.
  intros Hm Hf w w' r Hr. unfold try, mbind, M_bind in Hr.
  destruct (m w) as [ [w1 [a|e] ]| |] eqn:Hw; cbn in Hr; [| |done|done].
  - destruct (Hm _ _ _ Hw) as (k1 & Hk1 & _ & Hok). destruct (Hf a _ _ _ Hr) as (k2 & Hk2 & Hp & Hok2).
    specialize (Hok eq_refl). subst k1. exists (l1 ++ k2). split_and!.
    + by rewrite Hk2, Hk1, (assoc_L (++)).
    + by apply prefix_app.
    + intros Hr2. by rewrite (Hok2 Hr2).
  - ret_inv Hr. destruct (Hm _ _ _ Hw) as (k1 & Hk1 & Hp & _). exists k1. split_and!; [done|by apply prefix_app_r|done].
Qed.

Lemma quiet_JobSchedule a key : quiet (JobSchedule a key).
Proof. intros w w' r Hr. unfold JobSchedule in Hr. by case_match; simplify_eq. Qed.
Lemma quiet_getPod name : quiet (getPod name).
Proof. intros w w' r Hr. unfold getPod in Hr. by case_match; simplify_eq. Qed.
Lemma quiet_update_loop n pod : quiet (update_loop n pod).
Proof.
  revert pod. induction n as [|n IH]; intros pod; [apply quiet_ret|]. intros w w' r Hr. cbn [update_loop] in Hr.
  destruct (UpdateStatus o w pod) as [ [ [] e]|]; [by simplify_eq| |by simplify_eq].
  change (w_posts w) with (w_posts (add_update pod w)).
  eapply (quiet_step (getPod (pod_Name pod))), Hr; [apply quiet_getPod|]. intros a. apply IH.
Qed.
Lemma quiet_UpdatePodStatus pod : quiet (UpdatePodStatus pod).
Proof. apply quiet_try; [apply quiet_update_loop|intros; apply quiet_getPod]. Qed.
Lemma quiet_update pod : quiet (λ w, '(w, r) ← UpdatePodStatus pod w;
  Ret (w, (Some pod, match r with Ok _ => None | Err e => Some e end))).
Proof. apply (quiet_bind (UpdatePodStatus pod)); [apply quiet_UpdatePodStatus|]. intros a w w' r Hr. by simplify_eq. Qed.
Lemma quiet_UpdateMirrorPod pod st i : quiet (UpdateMirrorPod pod st i).
Proof.
  intros w w' r Hr. unfold UpdateMirrorPod in Hr. destruct pod as [pod|]; [by eapply quiet_update|].
  destruct st as [st|]; [|by simplify_eq]. destruct (PodCache.GetByID _ _); [by eapply quiet_update|].
  eapply (quiet_step (JobSchedule ActionDelete (psm_Uid st))), Hr; [apply quiet_JobSchedule|].
  intros a w1 w2 r1 Hr1. by simplify_eq.
Qed.
Lemma quiet_or_event {A} reason p (r : result A) : quiet (or_event reason p r).
Proof. intros w w' x Hr. unfold or_event in Hr. by destruct r; simplify_eq. Qed.
Lemma quiet_prepare_storage pod : quiet (prepare_storage pod).
Proof.
  intros w w' r Hr. unfold prepare_storage in Hr. repeat (case_match; simplify_eq; try done).
  destruct (addVolumesInUse _ _ _) as [node| |]; cbn in Hr; [|done|done].
  destruct (UpdateNode o w node); [|by simplify_eq].
  destruct (Storage.keepPVCAndInlineCSIOnly pod); cbn in Hr; [|done|done]. by case_match; simplify_eq.
Qed.
Lemma quiet_resolve_pod pod : quiet (resolve_pod pod).
Proof.
  unfold resolve_pod. repeat (apply quiet_try; [apply quiet_or_event || apply quiet_prepare_storage|intros ?]).
  apply quiet_bind; [apply quiet_lift|]. intros r. apply quiet_or_event.
Qed.
Lemma quiet_mark st pod : quiet (mark st pod).
Proof.
  apply quiet_try; [apply quiet_getPod|]. intros p. apply quiet_bind; [apply quiet_lift|]. intros q. apply quiet_UpdatePodStatus.
Qed.
Lemma quiet_HandleMessages {S} (f : Msg → S → M (bool * S)) msgs s :
  (∀ msg s, quiet (f msg s)) → quiet (HandleMessages f msgs s).
Proof.
  intros Hf. revert s. induction msgs as [|msg msgs IH]; intros s; [apply quiet_ret|]. cbn [HandleMessages].
  apply quiet_bind; [apply Hf|]. intros [ [] s']; [apply quiet_ret|apply IH].
Qed.
Lemma quiet_on_image_msg msg err : quiet (on_image_msg msg err).
Proof. intros w w' r Hr. unfold on_image_msg in Hr. by repeat (case_match; simplify_eq). Qed.
Lemma quiet_on_create_msg i msg s : quiet (on_create_msg i msg s).
Proof.
  intros w w' r Hr. unfold on_create_msg in Hr. destruct s as [pod err].
  destruct msg as [kind d|ps|l|n|]; [|by destruct i;
    (eapply (quiet_step (UpdateMirrorPod (Some pod) (Some ps) _)) in Hr; [exact Hr|apply quiet_UpdateMirrorPod|intros [? ?] ??? ?; by simplify_eq])|by simplify_eq..].
  destruct (negb i && _); [by simplify_eq|].
  by destruct i; (eapply (quiet_step (UpdateMirrorPod (Some (failed_status _ pod)) None false)) in Hr;
    [exact Hr|apply quiet_UpdateMirrorPod|intros [? ?] ??? ?; by simplify_eq]).
Qed.

Definition image_packets (opts : create_options) : list Packet :=
  if decide (co_images opts = ∅) then [] else [CMD_IMAGE_ENSURE (co_images opts)].
Definition init_packets (opts : create_options) : list Packet :=
  match co_init opts with
  | Some cmd => if co_initHostExec opts then [] else [CMD_POD_ENSURE cmd]
  | None => []
  end.
Definition work_packets (opts : create_options) : list Packet :=
  if co_workHostExec opts then [] else [CMD_POD_ENSURE (co_work opts)].

Lemma sends_pull_images opts : sends (image_packets opts) (pull_images (co_images opts)).
Proof.
  unfold image_packets, pull_images. case_decide; [apply quiet_sends, quiet_ret|].
  intros w w' r Hr. destruct (Marshal_err o _); [simplify_eq; exists []; by rewrite app_nil_r; split_and!; [|apply prefix_nil|] |].
  destruct (PostCmd o w _) as [msgs|e]; [|simplify_eq; exists []; by rewrite app_nil_r; split_and!; [|apply prefix_nil|] ].
  destruct (HandleMessages _ _ _ _) as [ [w1 err]| |] eqn:Hh; cbn in Hr; [|done|done]. simplify_eq.
  apply quiet_HandleMessages in Hh; [|apply quiet_on_image_msg]. exists [CMD_IMAGE_ENSURE (co_images opts)].
  by split_and!.
Qed.
Lemma sends_create_containers i cmd pod : sends [CMD_POD_ENSURE cmd] (create_containers i cmd pod).
Proof.
  intros w w' r Hr. unfold create_containers in Hr.
  destruct (Marshal_err o _); [simplify_eq; exists []; by rewrite app_nil_r; split_and!; [|apply prefix_nil|] |].
  destruct (PostCmd o w _) as [msgs|e]; [|simplify_eq; exists []; by rewrite app_nil_r; split_and!; [|apply prefix_nil|] ].
  destruct (HandleMessages _ _ _ _) as [ [w1 [pod1 err] ]| |] eqn:Hh; cbn in Hr; [|done|done]. simplify_eq.
  apply quiet_HandleMessages in Hh; [|apply quiet_on_create_msg]. exists [CMD_POD_ENSURE cmd]. by split_and!.
Qed.
Lemma quiet_handleContainerAsHostExec cmd : quiet (handleContainerAsHostExec cmd).
Proof. intros w w' r Hr. unfold handleContainerAsHostExec in Hr. by repeat (case_match; simplify_eq). Qed.
Lemma quiet_host_exec cmd pod : quiet (host_exec cmd pod).
Proof.
  unfold host_exec. apply quiet_try.
  - apply (quiet_bind (handleContainerAsHostExec cmd)); [apply quiet_handleContainerAsHostExec|]. intros a w w' r Hr. by simplify_eq.
  - intros st. apply quiet_bind; [apply quiet_getPod|]. intros latest. apply quiet_bind; [apply quiet_UpdateMirrorPod|].
    intros [p err]. apply quiet_ret.
Qed.
Lemma sends_init_phase opts pod : sends (init_packets opts) (init_phase opts pod).
Proof.
  unfold init_packets, init_phase. destruct (co_init opts) as [cmd|]; [|apply quiet_sends, quiet_ret].
  destruct (co_initHostExec opts).
  - apply quiet_sends, quiet_try; [apply quiet_mark|]. intros p. apply quiet_try; [apply quiet_host_exec|]. intros. apply quiet_ret.
  - apply (sends_try [] [CMD_POD_ENSURE cmd]); [apply quiet_sends, quiet_mark|]. intros p.
    rewrite <-(app_nil_r [CMD_POD_ENSURE cmd]).
    apply sends_try; [apply sends_create_containers|]. intros. apply quiet_sends, quiet_ret.
Qed.
Lemma sends_work_phase opts pod : sends (work_packets opts) (work_phase opts pod).
Proof.
  unfold work_packets, work_phase. apply (sends_try []); [apply quiet_sends, quiet_mark|]. intros p.
  destruct (co_workHostExec opts); [|apply sends_create_containers].
  apply quiet_sends, quiet_try; [apply quiet_host_exec|]. intros. apply quiet_ret.
Qed.
Lemma init_phase_stops opts pod w w' p :
  init_phase opts pod w = Ret (w', Ok p) → p.1 = false →
  co_initHostExec opts = true ∧ ∃ q st w1 q' e, UpdateMirrorPod (Some q) (Some st) false w1 = Ret (w', (q', Some e)).
Proof.
  unfold init_phase. destruct (co_init opts) as [cmd|]; [|intros Hr Hp; by ret_inv Hr]. intros Hr Hp.
  unfold try, mbind, M_bind in Hr. destruct (mark_initializing pod w) as [ [w1 [q|e] ]| |]; cbn in Hr; try done. destruct (co_initHostExec opts).
  - split; [done|]. unfold host_exec, try, mbind, M_bind in Hr. cbn -[UpdateMirrorPod] in Hr.
    destruct (handleContainerAsHostExec cmd w1) as [ [w2 [st|e] ]| |]; cbn -[UpdateMirrorPod] in Hr; try done.
    destruct (getPod (pod_Name q) w2) as [ [w3 latest]| |]; cbn -[UpdateMirrorPod] in Hr; try done. set (q' := match latest with Ok p => p | Err _ => q end) in Hr.
    destruct (UpdateMirrorPod (Some q') (Some st) false w3) as [ [w4 [q2 [e|] ] ]| |] eqn:Hu; cbn -[UpdateMirrorPod] in Hr; try done; ret_inv Hr; try done.
    by exists q', st, w3, q2, e.
  - destruct (create_containers true cmd q w1) as [ [w2 [u|e] ]| |]; cbn in Hr; try done. by ret_inv Hr.
Qed.

(** C30: the commands of the creation of a pod. When the pod cannot be resolved nothing is sent and an error is returned; otherwise
    what is sent is a prefix of: the command for the images if there are any, the command for the init containers, the
    command for the work containers (each left out when it is replaced by host commands), in this order; and all of it when the
    creation succeeds, with one exception: when the init containers are host commands and the last thing done was to fail to write their
    status, the creation succeeds with nothing but the images sent. *)
Theorem CreateDevicePod_sends pod w w' r :
  CreateDevicePod pod w = Ret (w', r) →
  (w_posts w' = w_posts w ∧ is_Ok r = false) ∨
  ∃ w1 opts k, resolve_pod pod w = Ret (w1, Ok opts) ∧ w_posts w' = w_posts w ++ k ∧
    k `prefix_of` (image_packets opts ++ init_packets opts ++ work_packets opts) ∧
    (is_Ok r = true → k = image_packets opts ++ init_packets opts ++ work_packets opts ∨
       (co_initHostExec opts = true ∧ k = image_packets opts ∧ ∃ q st w2 q' e, UpdateMirrorPod (Some q) (Some st) false w2 = Ret (w', (q', Some e)))).
Proof.
  unfold CreateDevicePod. destruct (negb hasPodCIDR && _); [intros Hr; ret_inv Hr; by left|].
  intros Hr. unfold try at 1, mbind, M_bind in Hr.
  destruct (resolve_pod pod w) as [ [w1 [opts|e] ]| |] eqn:Hres; cbn [mbind outcome_bind] in Hr; [| |done|done].
  2: { ret_inv Hr. left. split; [by eapply quiet_resolve_pod|done]. }
  right. exists w1, opts.
  assert (w_posts w1 = w_posts w) as Hw1 by (by eapply quiet_resolve_pod). rewrite <-Hw1.
  set (rest := λ p : bool * Pod, if p.1 then work_phase opts p.2 else mret (Ok tt)) in *.
  set (first := if co_init opts is None then mark_creating pod else mret (Ok pod)) in *.
  assert (sends [] first) as Hfirst
    by (unfold first; destruct (co_init opts); apply quiet_sends; [apply quiet_ret|apply quiet_mark]).
  unfold try at 1, mbind, M_bind in Hr.
  destruct (first w1) as [ [w2 [p|e] ]| |] eqn:Hf; cbn [mbind outcome_bind] in Hr; [| |done|done].
  2: { ret_inv Hr. destruct (Hfirst _ _ _ Hf) as (k & Hk & Hp & _). exists k.
    split_and!; [done|done| |done]. apply prefix_nil_inv in Hp as ->. apply prefix_nil. }
  destruct (Hfirst _ _ _ Hf) as (k0 & Hk0 & _ & Hok0). rewrite (Hok0 eq_refl), app_nil_r in Hk0. rewrite <-Hk0.
  unfold try at 1, mbind, M_bind in Hr.
  destruct (pull_images (co_images opts) w2) as [ [w3 [u|e] ]| |] eqn:Hi; cbn [mbind outcome_bind] in Hr; [| |done|done];
    destruct (sends_pull_images opts _ _ _ Hi) as (k1 & Hk1 & Hp1 & Hok1).
  2: { ret_inv Hr. exists k1. split_and!; [done|done|by apply prefix_app_r|done]. }
  specialize (Hok1 eq_refl). subst k1.
  unfold try at 1, mbind, M_bind in Hr.
  destruct (init_phase opts p w3) as [ [w4 [q|e] ]| |] eqn:Hin; cbn [mbind outcome_bind] in Hr; [| |done|done];
    destruct (sends_init_phase opts p _ _ _ Hin) as (k2 & Hk2 & Hp2 & Hok2).
  2: { ret_inv Hr. exists (image_packets opts ++ k2).
    split_and!; [done|by rewrite Hk2, Hk1, (assoc_L (++))|by apply prefix_app, prefix_app_r|done]. }
  specialize (Hok2 eq_refl). subst k2. unfold rest in Hr. destruct (q.1) eqn:Hq.
  - destruct (sends_work_phase opts (q.2) _ _ _ Hr) as (k3 & Hk3 & Hp3 & Hok3).
    exists (image_packets opts ++ init_packets opts ++ k3). split_and!.
    + done.
    + by rewrite Hk3, Hk2, Hk1, !(assoc_L (++)).
    + by apply prefix_app, prefix_app.
    + intros Hr2. left. by rewrite (Hok3 Hr2).
  - ret_inv Hr. exists (image_packets opts ++ init_packets opts). split_and!.
    + done.
    + by rewrite Hk2, Hk1, (assoc_L (++)).
    + rewrite (assoc_L (++)). by apply prefix_app_r.
    + intros _. destruct (init_phase_stops opts p _ _ _ Hin Hq) as [Hh Hu]. right. split; [done|]. split; [|done].
      unfold init_packets. rewrite Hh. destruct (co_init opts); by rewrite app_nil_r.
Qed.

(** ** Status updates *)

Lemma getPod_total name w : ∃ w' r, getPod name w = Ret (w', r) ∧ w_updates w' = w_updates w ∧
  is_Ok r = bool_decide (is_Some (GetPod o w name)).
Proof.
  unfold getPod. destruct (GetPod o w name) as [p|]; eexists _, _; (split; [done|]); (split; [done|]);
    [by rewrite bool_decide_true|by rewrite bool_decide_false by (by intros [? ?])].
Qed.

Lemma update_loop_spec n pod w :
  ∃ w' r k, update_loop n pod w = Ret (w', r) ∧ w_updates w' = w_updates w ++ k ∧ (length k ≤ n)%nat ∧
    Forall (λ p, pod_Status p = pod_Status pod) k ∧
    (is_Ok r = false → ∃ w1 p e, UpdateStatus o w1 p = Some (true, e)) ∧
    ((∀ w1 p, ∃ e, UpdateStatus o w1 p = Some (false, e)) → length k = n).
Proof.
  revert pod w. induction n as [|n IH]; intros pod w.
  - exists w, (Ok pod), []. rewrite app_nil_r. by split_and!.
  - cbn [update_loop]. destruct (UpdateStatus o w pod) as [ [ [] e]|] eqn:Hu.
    + exists (add_update pod w), (Err e), [pod]. split_and!; [done|done|cbn; lia|by repeat constructor|by eauto|].
      intros Hall. destruct (Hall w pod) as [e' He']. congruence.
    + destruct (getPod_total (pod_Name pod) (add_update pod w)) as (w1 & r1 & Hg & Hw1 & _). rewrite Hg.
      cbn [mbind outcome_bind].
      set (next := match r1 with Ok newPod => set_status (pod_Status pod) newPod | Err _ => pod end).
      assert (pod_Status next = pod_Status pod) as Hn by (by unfold next; destruct r1).
      destruct (IH next w1) as (w' & r & k & Hl & Hk & Hlen & Hf & He & Hall). exists w', r, (pod :: k).
      split_and!; [done| |cbn; lia|constructor; [done|]|done|].
      * rewrite Hk, Hw1. cbn. by rewrite <-(assoc_L (++)).
      * eapply Forall_impl; [exact Hf|]. intros p Hp. congruence.
      * intros H. cbn. by rewrite Hall.
    + exists (add_update pod w), (Ok pod), [pod]. split_and!; [done|done|cbn; lia|by repeat constructor|done|].
      intros Hall. destruct (Hall w pod) as [e' He']. congruence.
Qed.

(** A status update always returns; it sends at most five updates, all with the status to be written, and fails only when
    the API server does not know the pod or the lister does not have it. In particular it succeeds, after exactly five updates, when every
    one of them fails with another error. *)
Lemma UpdatePodStatus_correct pod w :
  ∃ w' r k, UpdatePodStatus pod w = Ret (w', r) ∧ w_updates w' = w_updates w ++ k ∧ (length k ≤ 5)%nat ∧
    Forall (λ p, pod_Status p = pod_Status pod) k ∧
    (is_Ok r = false → (∃ w1 p e, UpdateStatus o w1 p = Some (true, e)) ∨ (∃ w1 n, GetPod o w1 n = None)) ∧
    ((∀ w1 p, ∃ e, UpdateStatus o w1 p = Some (false, e)) → (∀ w1 n, is_Some (GetPod o w1 n)) →
       is_Ok r = true ∧ length k = 5%nat).
Proof.
  destruct (update_loop_spec tryCount pod w) as (w1 & r1 & k & Hl & Hk & Hlen & Hf & He & Hall).
  unfold UpdatePodStatus, try, mbind, M_bind. rewrite Hl. cbn [mbind outcome_bind]. destruct r1 as [q|e].
  - destruct (getPod_total (pod_Name q) w1) as (w2 & r2 & Hg & Hw2 & Hok). rewrite Hg.
    exists w2, r2, k. split_and!; [done|congruence|done|done| |].
    + rewrite Hok. rewrite bool_decide_eq_false. intros Hn. right. exists w1, (pod_Name q). by apply eq_None_not_Some.
    + intros H1 H2. rewrite Hok, bool_decide_true by done. split; [done|]. by apply Hall.
  - exists w1, (Err e), k. split_and!; [done|done|done|done|by left; apply He|].
    intros H1 H2. destruct (He eq_refl) as (w2 & p & e2 & Hbad). destruct (H1 w2 p) as [e3 He3]. congruence.
Qed.

(** The addresses taken from a report are in CIDR notation, and so are the pod's: an address with its mask is no address. *)
Definition slash : Ascii.ascii := Ascii.ascii_of_nat 47.
Definition masked (s : string) : Prop := s = "" ∨ has_char slash s = true.
Lemma ParseCIDR_slash s r : ParseCIDR s = Some r → has_char slash s = true.
Proof.
  unfold ParseCIDR, has_char. change GoNet.slash with slash. destruct (cut_at slash s) as [p|]; [|done].
  intros _. apply bool_decide_true. by eexists.
Qed.
Lemma iface_addrs_masked l acc :
  masked acc.1 → masked acc.2 → masked (foldl iface_addrs acc l).1 ∧ masked (foldl iface_addrs acc l).2.
Proof.
  revert acc. induction l as [|i l IH]; intros acc H1 H2; [done|]. cbn [foldl].
  assert (masked (iface_addrs acc i).1 ∧ masked (iface_addrs acc i).2) as [? ?]; [|by apply IH].
  unfold iface_addrs. case_decide; [done|]. clear IH. revert acc H1 H2.
  induction (i.2) as [|a as' IH]; intros acc H1 H2; [done|]. cbn [foldl].
  apply IH; unfold add_addr; destruct (ParseCIDR a) as [ [ [ [ip cidr] n] b]|] eqn:Hp; try done;
    apply ParseCIDR_slash in Hp; destruct (To4 _); cbn; try done; by right.
Qed.
Lemma pod_ip_has_mask st i pod ifaces :
  Unmarshal_net o (psm_Network st) = Ok ifaces →
  Forall (λ ip, has_char slash ip = true) (ps_PodIPs (pod_Status (mirror st i pod))) ∧
  masked (ps_PodIP (pod_Status (mirror st i pod))).
Proof.
  intros Hu. unfold mirror. rewrite Hu. destruct (iface_addrs_masked ifaces ("", "")) as [H1 H2]; [by left..|].
  destruct (foldl iface_addrs ("", "") ifaces) as [v4 v6]. cbn in H1, H2. unfold set_ips, GetPodIPs, masked in *. cbn.
  destruct (decide (v4 = "")), (decide (v6 = "")); cbn; split; try (destruct H1, H2; by repeat constructor); try done.
Qed.

(** ** Deletion *)

(** The first error among the messages. *)
Fixpoint first_error (msgs : list Msg) : option (Z * string) :=
  match msgs with [] => None | MError k d :: _ => Some (k, d) | _ :: msgs => first_error msgs end.

Lemma delete_messages b msgs w :
  ∃ w', HandleMessages (on_delete_msg b) msgs None w =
    Ret (w', match first_error msgs with
             | Some (k, d) => if (k =? ERR_NOT_SUPPORTED) || (k =? ERR_NOT_FOUND) then None else Some d
             | None => None
             end).
Proof.
  revert w. induction msgs as [|msg msgs IH]; intros w; [by eexists|]. cbn [HandleMessages first_error].
  unfold mbind, M_bind, on_delete_msg. destruct msg as [k d| | | |]; cbn [mbind outcome_bind]; try apply IH.
  destruct (k =? ERR_NOT_SUPPORTED); cbn [orb]; [by eexists|]. by destruct (k =? ERR_NOT_FOUND); eexists.
Qed.

Lemma pre_stop_hooks_virtual l m r :
  pre_stop_hooks l m = Ret r → r = None ↔ Exists (λ ctr, ctr_Image ctr = VirtualImageNameHostExec) l.
Proof.
  revert m. induction l as [|ctr l IH]; intros m; cbn [pre_stop_hooks]; [intros [= <-]; by rewrite Exists_nil|].
  rewrite Exists_cons. unfold is_virtual. case_bool_decide as Hv; [intros [= <-]; naive_solver|].
  intros Hr. destruct (ctr_Lifecycle ctr ≫= lc_PreStop) as [h|].
  - destruct (translateHandler (Some h) _); cbn in Hr; [|done|done]. rewrite (IH _ Hr). tauto.
  - rewrite (IH _ Hr). tauto.
Qed.

(** The deletion of a pod on the device. For a cached pod with a host command nothing is sent and it succeeds; otherwise one deletion command for
    the uid is sent, with the grace time of the pod, unless it cannot be; and the deletion succeeds exactly when it was sent and the first
    error the device reports, if any, says that the pod is not there or deletion is not supported. *)
Lemma DeleteDevicePod_correct uid w w' r :
  DeleteDevicePod uid w = Ret (w', r) →
  let cached := PodCache.GetByID uid (w_cache w) in
  (∀ pod, cached = Some pod → Exists (λ ctr, ctr_Image ctr = VirtualImageNameHostExec) (sp_Containers (pod_Spec pod)) →
     r = Ok tt ∧ w_posts w' = w_posts w) ∧
  ((∀ pod, cached = Some pod → ¬ Exists (λ ctr, ctr_Image ctr = VirtualImageNameHostExec) (sp_Containers (pod_Spec pod))) →
     (w_posts w' = w_posts w ∧ is_Ok r = false) ∨
     ∃ hooks grace w1 msgs, w_posts w' = w_posts w ++ [CMD_POD_DELETE uid grace hooks] ∧
       PostCmd o w1 (CMD_POD_DELETE uid grace hooks) = Ok msgs ∧
       grace = (match cached with Some pod => grace_time pod | None => 0 end) ∧
       (is_Ok r = true ↔ ∀ k d, first_error msgs = Some (k, d) → k = ERR_NOT_SUPPORTED ∨ k = ERR_NOT_FOUND)).
Proof.
  unfold DeleteDevicePod. intros Hr. cbn zeta.
  set (w0 := if PodCache.GetByID uid (w_cache w) is Some _ then add_event "Killing" "Killing containers" w else w) in *.
  assert (w_posts w0 = w_posts w) as Hw0 by (unfold w0; by destruct (PodCache.GetByID _ _)).
  destruct (match PodCache.GetByID uid (w_cache w) with
            | None => Ret (Some ∅)
            | Some pod => pre_stop_hooks (sp_Containers (pod_Spec pod)) ∅
            end) as [hooks| |] eqn:Hh; cbn [mbind outcome_bind] in Hr; [|done|done].
  assert (∀ pod, PodCache.GetByID uid (w_cache w) = Some pod →
    hooks = None ↔ Exists (λ ctr, ctr_Image ctr = VirtualImageNameHostExec) (sp_Containers (pod_Spec pod))) as Hv.
  { intros pod Hp. rewrite Hp in Hh. by eapply pre_stop_hooks_virtual. }
  split.
  - intros pod Hp Hex. apply (Hv pod Hp) in Hex as ->. by simplify_eq.
  - intros Hno. destruct hooks as [hooks|].
    2: { destruct (PodCache.GetByID uid (w_cache w)) as [pod|] eqn:Hp; [|done]. exfalso. apply (Hno pod eq_refl). by apply (Hv pod). }
    destruct (Marshal_err o _); [simplify_eq; by left|].
    destruct (PostCmd o w0 _) as [msgs|e] eqn:Hpost; [|destruct (PodCache.GetByID uid (w_cache w)); simplify_eq; by left].
    right. eexists hooks, _, w0, msgs.
    destruct (delete_messages (bool_decide (is_Some (PodCache.GetByID uid (w_cache w)))) msgs
      (add_post (CMD_POD_DELETE uid (match PodCache.GetByID uid (w_cache w) with Some pod => grace_time pod | None => 0 end) hooks) w0))
      as [w2 Hm]. rewrite Hm in Hr. cbn in Hr. simplify_eq. split_and!; [|exact Hpost|done|].
    + assert (quiet (HandleMessages (on_delete_msg (bool_decide (is_Some (PodCache.GetByID uid (w_cache w))))) msgs None)) as Hq.
      { apply quiet_HandleMessages. intros msg s v v' x Hx. unfold on_delete_msg in Hx. by repeat (case_match; simplify_eq). }
      rewrite (Hq _ _ _ Hm). cbn. by rewrite Hw0.
    + destruct (first_error msgs) as [ [k d]|]; [|by split].
      destruct (Z.eqb_spec k ERR_NOT_SUPPORTED), (Z.eqb_spec k ERR_NOT_FOUND); cbn; naive_solver.
Qed.

(** ** Synchronisation and removal *)

(** Synchronisation stops at the first pod of the device's list that is not cached: it is scheduled for deletion, and the pods
    after it are neither updated nor scheduled for anything; the synchronisation still succeeds. *)
Lemma SyncDevicePods_stops w ps rest :
  Marshal_err o (CMD_POD_LIST true) = None → PostCmd o w (CMD_POD_LIST true) = Ok [MPodStatusList (ps :: rest)] →
  psm_Uid ps ≠ "" → PodCache.GetByID (psm_Uid ps) (w_cache w) = None →
  (∀ w1 a k, Schedule_err o w1 a k = None) →
  ∃ w', SyncDevicePods w = Ret (w', Ok tt) ∧ w_updates w' = w_updates w ∧ w_nodes w' = w_nodes w ∧
    w_cache w' = w_cache w ∧ w_jobs w' = w_jobs w ++ [(ActionDelete, psm_Uid ps)].
Proof.
  intros Hm Hp Hu Hc Hs. unfold SyncDevicePods. rewrite Hm, Hp.
  cbn [HandleMessages on_list_msg sync_pods]. unfold mbind at 2, M_bind. rewrite decide_False by done.
  cbn [w_cache add_post]. rewrite Hc. unfold JobSchedule. rewrite Hs. cbn. by eexists.
Qed.

(** After the device has deleted a pod: the pod leaves the cache exactly when everything else is done, that is its volumes are out of
    the node's lists, its storage is cleaned up and the API server has deleted it; on an error the cache is as before and the job runs again. *)
Lemma onRemotePodDeleted_correct uid w w' r :
  onRemotePodDeleted uid w = Ret (w', r) →
  match r with
  | RNext _ => False
  | RErr _ => w_cache w' = w_cache w
  | RNil =>
      (PodCache.GetByID uid (w_cache w) = None ∧ w' = w) ∨
      ∃ pod volNames w1, PodCache.GetByID uid (w_cache w) = Some pod ∧ getUniqueVolumeNamesAndPaths pod = Ok volNames ∧
        w_cache w' = PodCache.Delete uid (w_cache w) ∧ PodCache.GetByID uid (w_cache w') = None ∧
        DeletePod o w1 (pod_Name pod) = None ∧
        (volNames ≠ ∅ → ∃ inUse attached node, GetNode o w = Some (inUse, attached) ∧
           removeVolumeInUse inUse attached (dom volNames) = Ret node ∧ w_nodes w' = w_nodes w ++ [node]) ∧
        (StorageEnabled o = true → ∃ p, Storage.keepPVCAndInlineCSIOnly pod = Ret p ∧ CleanupStorage o w1 p = None)
  end.
Proof.
  unfold onRemotePodDeleted. destruct (PodCache.GetByID uid (w_cache w)) as [pod|] eqn:Hc; [|intros [= <- <-]; by left].
  destruct (getUniqueVolumeNamesAndPaths pod) as [volNames|e] eqn:Hv; [|by intros [= <- <-]].
  set (step := if decide (volNames = ∅) then _ else _).
  assert (∀ w1 x, step = Ret (w1, x) → w_cache w1 = w_cache w ∧ (x = Ok tt → volNames ≠ ∅ → ∃ inUse attached node,
     GetNode o w = Some (inUse, attached) ∧ removeVolumeInUse inUse attached (dom volNames) = Ret node ∧
     w_nodes w1 = w_nodes w ++ [node])) as Hstep.
  { intros w1 x. unfold step. case_decide; [by intros [= <- <-]|].
    destruct (GetNode o w) as [ [inUse attached]|]; [|by intros [= <- <-]].
    destruct (removeVolumeInUse inUse attached (dom volNames)) as [node| |] eqn:Hrem; cbn; [|done|done].
    intros [= <- <-]. split; [done|]. intros _ _. by exists inUse, attached, node. }
  clearbody step. destruct step as [ [w1 [ []|e] ]| |]; cbn [mbind outcome_bind]; [| |done|done];
    destruct (Hstep _ _ eq_refl) as [Hw1 Hnode]; [|by intros [= <- <-] ].
  specialize (Hnode eq_refl).
  destruct (if StorageEnabled o then _ else _) as [cleanup| |] eqn:Hcl; cbn [mbind outcome_bind]; [|done|done].
  destruct cleanup as [e|]; [by intros [= <- <-]|].
  destruct (DeletePod o w1 (pod_Name pod)) as [e|] eqn:Hdel; [by intros [= <- <-]|]. intros [= <- <-].
  right. exists pod, volNames, w1. split_and!; [done|done|by cbn; rewrite Hw1| |done|done|].
  - unfold PodCache.GetByID, PodCache.Delete. cbn. apply lookup_delete_eq.
  - intros Hs. rewrite Hs in Hcl. destruct (Storage.keepPVCAndInlineCSIOnly pod) as [p| |]; cbn in Hcl; [|done|done].
    exists p. split; [done|]. by simplify_eq.
Qed.

End Device.
End Device.

Module Examples.
Import Status PodOptions Device.

Definition ctr (name image : string) : Container := Samples.ctr name image [] [] [].
Definition pod1 : Pod := Samples.pod "u1" "web"
  {| sp_Volumes := []; sp_InitContainers := [ctr "setup" "busybox"]; sp_Containers := [ctr "web" "nginx"];
     sp_EphemeralContainers := []; sp_RestartPolicy := "Always"; sp_TerminationGracePeriodSeconds := Some 30;
     sp_DNSPolicy := "Default"; sp_ServiceAccountName := ""; sp_NodeName := "node"; sp_HostNetwork := true;
     sp_HostPID := false; sp_HostIPC := false; sp_ShareProcessNamespace := None; sp_SecurityContext := None;
     sp_ImagePullSecrets := []; sp_Hostname := ""; sp_HostAliases := []; sp_DNSConfig := None; sp_EnableServiceLinks := None |}.

(** A device that answers every command with [answers], an API server with the pod. *)
Definition outside (answers : Packet → list Msg) (update : option (bool * string)) : Outside := {|
  nodeName := "node"; GetPodCIDR := λ _, ""; StorageEnabled := false;
  GetConfigMap := λ _, None; GetSecret := λ _, None; IsEnvVarName := λ _, true;
  ConvertDownwardAPIFieldLabel := λ _ p, Ok p; ExtractFieldPathAsString := λ _ _, Err "";
  ExtractContainerResourceValue := λ _ _, Err ""; ExtractResourceValueByContainerName := λ _ _ _, Err "";
  services := []; environ := [];
  Keyring := unit; MakeDockerKeyring := λ _, Ok tt; ParseImageName := Ok; Keyring_Lookup := λ _ _, ([], false);
  TenantNS := "ns"; kube_dns := []; DNS := {| Dns.dns := PodTranslate.Examples.dns0; Dns.ClusterDomain := "cluster.local" |};
  uses := λ _ _, true; get_pvc := λ _, Err ""; get_pv := λ _, Err ""; csi_name := λ _, Err ""; pv_name := λ _, Err "";
  GetUniqueVolumeName := λ n, n; GetPersistentVolumeMountPath := λ _ _, "";
  Request := unit; NewRequest := λ _, Ok tt; Request_Marshal := λ _, Ok "req"; ExtractBandwidth := λ _, (None, None);
  parse_time := PodTranslate.Examples.parse_digit;
  GetPod := λ _ _, Some pod1; UpdateStatus := λ _ _, update; GetNode := λ _, Some ([], []); UpdateNode := λ _ n, Ok n.1;
  PrepareStorage := λ _ _ _, None; CleanupStorage := λ _ _, None; DeletePod := λ _ _, None;
  PostCmd := λ _ p, Ok (answers p); Marshal_err := λ _, None; Schedule_err := λ _ _ _, None;
  Unmarshal_net := λ _, Err ""; Exec := λ _ _, None; OpenLog := λ _, None; Now := λ _ _, "" |}.
Definition world0 : World := {|
  w_cache := PodCache.Update pod1 PodCache.NewPodCache; w_latest := ∅; w_jobs := []; w_updates := []; w_nodes := [];
  w_posts := []; w_events := [] |}.
Definition report : PodStatusMsg := {| psm_Uid := "u1"; psm_Network := ""; psm_Containers := ∅ |}.

(** The device refuses the init containers: the command for the work containers is not sent. *)
Definition refuse (p : Packet) : list Msg :=
  match p with CMD_IMAGE_ENSURE _ => [MImageList 2] | CMD_POD_ENSURE _ => [MError 0 "no"] | _ => [] end.
Definition create_web : outcome (World * result unit) := CreateDevicePod (outside refuse None) pod1 world0.
Lemma create_web_Ret : ∃ w, create_web = Ret (w, Err "ERR_COMMON/no") ∧ length (w_posts w) = 2%nat.
Proof. eexists. split; by vm_compute. Qed.
Lemma CreateDevicePod_sends_witness : ∃ w opts k, create_web = Ret (w, Err "ERR_COMMON/no") ∧ w_posts w = k ∧
  k `prefix_of` (image_packets opts ++ init_packets opts ++ work_packets opts).
Proof.
  destruct create_web_Ret as (w & Hw & Hl). exists w.
  destruct (CreateDevicePod_sends _ _ _ _ _ Hw) as [ [Hp _]|(w1 & opts & k & _ & Hk & Hpre & _)].
  - rewrite Hp in Hl. done.
  - exists opts, k. by split_and!.
Defined.

Lemma UpdatePodStatus_correct_witness :
  ∃ w r, UpdatePodStatus (outside refuse (Some (false, "timeout"))) pod1 world0 = Ret (w, r) ∧ is_Ok r = true ∧ length (w_updates w) = 5%nat.
Proof.
  destruct (UpdatePodStatus_correct (outside refuse (Some (false, "timeout"))) pod1 world0) as (w & r & k & Hr & Hk & _ & _ & _ & H).
  destruct H as [Hok Hl]; [by eexists|by eexists|]. exists w, r. split_and!; [done|done|]. by rewrite Hk.
Defined.

Lemma DeleteDevicePod_correct_witness :
  ∃ w r, DeleteDevicePod (outside (λ _, [MError ERR_NOT_FOUND "gone"]) None) "u1" world0 = Ret (w, r) ∧ is_Ok r = true ∧
    ∃ hooks, w_posts w = [CMD_POD_DELETE "u1" 30000000000 hooks].
Proof.
  destruct (DeleteDevicePod (outside (λ _, [MError ERR_NOT_FOUND "gone"]) None) "u1" world0) as [ [w r]| |] eqn:Hr;
    [|by vm_compute in Hr..]. exists w, r. split; [done|].
  destruct (DeleteDevicePod_correct _ _ _ _ _ Hr) as [_ H].
  destruct H as [ [_ Hbad]|(hooks & grace & w1 & msgs & Hp & Hm & Hg & Hok)].
  - intros pod Hpod. vm_compute in Hpod. simplify_eq. intros Hex. by apply Exists_exists in Hex as (c & ->%list_elem_of_singleton & Hc).
  - vm_compute in Hr. simplify_eq.
  - split.
    + apply Hok. intros k d Hfe. cbn in Hm. simplify_eq. cbn in Hfe. simplify_eq. by right.
    + exists hooks. rewrite Hp, Hg. by vm_compute.
Defined.

Lemma SyncDevicePods_stops_witness :
  ∃ w, SyncDevicePods (outside (λ _, [MPodStatusList [{| psm_Uid := "old"; psm_Network := ""; psm_Containers := ∅ |}; report] ]) None) world0
    = Ret (w, Ok tt) ∧ w_updates w = [].
Proof.
  destruct (SyncDevicePods_stops (outside (λ _, [MPodStatusList [{| psm_Uid := "old"; psm_Network := ""; psm_Containers := ∅ |}; report] ]) None)
    world0 {| psm_Uid := "old"; psm_Network := ""; psm_Containers := ∅ |} [report]) as (w & Hw & Hu & _); [done..|].
  by exists w.
Defined.

Lemma onRemotePodDeleted_correct_witness :
  ∃ w, onRemotePodDeleted (outside refuse None) "u1" world0 = Ret (w, RNil) ∧ PodCache.GetByID "u1" (w_cache w) = None.
Proof.
  destruct (onRemotePodDeleted (outside refuse None) "u1" world0) as [ [w r]| |] eqn:Hr; [|by vm_compute in Hr..].
  assert (r = RNil) as -> by (vm_compute in Hr; by simplify_eq).
  exists w. split; [done|].
  destruct (onRemotePodDeleted_correct _ _ _ _ _ Hr) as [ [Hn _]|(pod & vn & w1 & _ & _ & _ & Hn & _)]; [|done].
  by vm_compute in Hn.
Defined.

(** A claim mounted by the container of a pod with an init container that mounts nothing. *)
Definition claim_pod (inits : list Container) : Pod := Samples.pod "u" "p"
  (Samples.spec [PodTranslate.Examples.claim] inits [Samples.ctr "db" "pg" [PodTranslate.Examples.mount "data" "/a"] [] []]).
Lemma keepPVCAndInlineCSIOnly_correct_witness :
  (∃ q, Storage.keepPVCAndInlineCSIOnly (claim_pod []) = Ret q ∧
     ctr_VolumeMounts <$> sp_Containers (pod_Spec q) = [ [PodTranslate.Examples.mount "data" "/a"] ]) ∧
  (∃ q, Storage.keepPVCAndInlineCSIOnly (claim_pod [ctr "setup" "busybox"]) = Ret q ∧
     ctr_VolumeMounts <$> sp_Containers (pod_Spec q) = [ [] ]).
Proof.
  split.
  - destruct (Storage.keepPVCAndInlineCSIOnly_correct (claim_pod [])) as [H _].
    destruct (H eq_refl) as (q & Hq & _ & Hm). exists q. split; [done|]. rewrite Hm. by vm_compute.
  - destruct (Storage.keepPVCAndInlineCSIOnly_correct (claim_pod [ctr "setup" "busybox"])) as (_ & H & _).
    destruct (H (ctr "setup" "busybox") _ [] eq_refl eq_refl) as (q & Hq & Hm); [by vm_compute|].
    exists q. split; [done|]. rewrite Hm. done.
Defined.

End Examples.
