(* ===== verification/PodVolumes.v ===== *)
(** * The pods the volume manager sees

    src/pkg/virtualnode/pod/zz_dummy_kube_impl.go: the volume manager of the kubelet (vendored) asks a pod manager, a status provider and a
    container runtime which pods there are; aranya answers from its cache of pods. Module Adaptors: the answers. Module Populator: what
    the populator of the desired state of the world makes of them (kubelet/volumemanager/populator): whose volumes are to be mounted. *)
From S2P Require Import Prelude K8s Caches DevicePod.

Module Adaptors.
Import Caches.PodCache.
Definition zero_status : ContainerStatus :=
  {| cs_Name := ""; cs_State := {| cst_Waiting := None; cst_Running := None; cst_Terminated := None |}; cs_Ready := false; cs_Image := "";
     cs_ImageID := ""; cs_ContainerID := "" |}.
Section Adaptors.
Context (store : PodCache).
(** podStatusProviderForVolumeManager: a pod is running unless it has ended, and it has a container until the device has deleted it. *)
Definition GetPodStatus (uid : string) : option PodStatus :=
  match GetByID uid store with
  | None => None
  | Some po =>
      let phase := if decide (ps_Phase (pod_Status po) = PodFailed ∨ ps_Phase (pod_Status po) = PodSucceeded) then ps_Phase (pod_Status po) else PodRunning in
      Some {| ps_Phase := phase; ps_HostIP := ""; ps_PodIP := ""; ps_PodIPs := []; ps_InitContainerStatuses := [];
              ps_ContainerStatuses := if IsDeletedInRemote uid store then [] else [zero_status] |}
  end.
(** runtimeForVolumeManager: the pods by their uids, and how many containers they have *)
Definition runtime_GetPods : list (string * nat) :=
  omap (λ po, if IsDeletedInRemote (pod_UID po) store then None else Some (pod_UID po, 1%nat)) (GetAll store).
(** podManagerForVolumeManager *)
Definition GetPods : outcome (list Pod) :=
  foldr (λ po r, p ← Storage.keepPVCAndInlineCSIOnly po; l ← r; Ret (p :: l)) (Ret []) (GetAll store).
Definition GetPodByUID (uid : string) : outcome (option Pod * bool) :=
  match GetByID uid store with
  | None => Ret (None, false)
  | Some po => p ← Storage.keepPVCAndInlineCSIOnly po; Ret (Some p, false)
  end.
End Adaptors.
End Adaptors.

Module Populator.
Import Caches.PodCache Adaptors.
Section Populator.
(** metadata.deletionTimestamp is set *)
Context (deleting : Pod → bool) (store : PodCache).
Definition notRunning (l : list ContainerStatus) : bool :=
  forallb (λ s, negb (bool_decide (cst_Terminated (cs_State s) = None) && bool_decide (cst_Waiting (cs_State s) = None))) l.
Definition IsPodTerminated (pod : Pod) (s : PodStatus) : bool :=
  bool_decide (ps_Phase s = PodFailed) || bool_decide (ps_Phase s = PodSucceeded) || (deleting pod && notRunning (ps_ContainerStatuses s)).
Definition isPodTerminated (pod : Pod) : bool := IsPodTerminated pod (default (pod_Status pod) (GetPodStatus store (pod_UID pod))).
(** findAndAddNewPods: the pods whose volumes are added *)
Definition added : outcome (list Pod) := l ← GetPods store; Ret (filter (λ p, isPodTerminated p = false) l).
(** The first pod of that uid decides. *)
Definition running_containers (uid : string) : bool :=
  match list_find (λ r, r.1 = uid) (runtime_GetPods store) with Some (_, r) => (0 <? r.2)%nat | None => false end.
(** findAndRemoveDeletedPods, for a volume of the pod that is to be mounted: whether it stays. [mounted]: it is in the actual state. *)
Definition stays (uid : string) (mounted : bool) : outcome bool :=
  '(pod, podExists) ← GetPodByUID store uid;
  if podExists && match pod with Some p => negb (isPodTerminated p) | None => false end then Ret true
  else if running_containers uid then Ret true
  else Ret (negb mounted && podExists).
(** The errors of a pod's volumes are dropped at the end of a pass when the pod is not there. *)
Definition errors_kept (uid : string) : outcome bool := r ← GetPodByUID store uid; Ret r.2.
End Populator.

(** The cache as the pod manager keeps it: a pod is under its own uid. *)
Definition by_uid (store : PodCache) : Prop := ∀ uid p, GetByID uid store = Some p → pod_UID p = uid.
Lemma running_spec store uid : by_uid store →
  running_containers store uid = bool_decide (is_Some (GetByID uid store)) && negb (IsDeletedInRemote uid store).
Proof.
  intros Hu. unfold running_containers, runtime_GetPods, GetAll.
  assert (∀ l : list (string * Pod), (∀ k p, (k, p) ∈ l → pod_UID p = k) →
    match list_find (λ r : string * nat, r.1 = uid) (omap (λ po, if IsDeletedInRemote (pod_UID po) store then None else Some (pod_UID po, 1%nat)) l.*2)
      with Some (_, r) => (0 <? r.2)%nat | None => false end
    = bool_decide (uid ∈ l.*1) && negb (IsDeletedInRemote uid store)) as Hl.
  { induction l as [|[k p] l IH]; intros Hk; [done|]. rewrite !fmap_cons. cbn [snd fst omap list_omap].
    rewrite (Hk k p) by left. assert (∀ k p, (k, p) ∈ l → pod_UID p = k) as Hk' by (intros; apply Hk; by right). specialize (IH Hk').
    destruct (decide (k = uid)) as [->|Hne].
    - rewrite (bool_decide_true (uid ∈ uid :: l.*1)) by left. destruct (IsDeletedInRemote uid store) eqn:Hd; cbn.
      + etrans; [exact IH|]. by rewrite andb_false_r.
      + by rewrite decide_True.
    - assert (bool_decide (uid ∈ k :: l.*1) = bool_decide (uid ∈ l.*1)) as -> by (apply bool_decide_ext; rewrite elem_of_cons; naive_solver).
      destruct (IsDeletedInRemote k store); [done|]. cbn. rewrite decide_False by done. rewrite <- IH. by destruct (list_find _ _) as [ [? ?]|]. }
  etrans; [apply (Hl (map_to_list (uidIndex store))); intros k p Hp%elem_of_map_to_list; by apply Hu|]. f_equal. apply bool_decide_ext. unfold GetByID.
  rewrite list_elem_of_fmap. split.
  - intros ([k p] & -> & Hp%elem_of_map_to_list). by eexists.
  - intros [p Hp]. exists (uid, p). split; [done|by apply elem_of_map_to_list].
Qed.

(** Volumes follow the device. Of the volumes to be mounted those stay whose pod is cached and not yet deleted by the device, whether
    they are mounted already or not: no volume is taken from a pod the device may still run, also when the pod has ended or is being deleted;
    and when the device has deleted it they go in the next pass. *)
Lemma volumes_follow_device store uid mounted :
  by_uid store → (∀ p, GetByID uid store = Some p → ∃ q, Storage.keepPVCAndInlineCSIOnly p = Ret q) → ∀ deleting,
  stays deleting store uid mounted = Ret (bool_decide (is_Some (GetByID uid store)) && negb (IsDeletedInRemote uid store)).
Proof.
  intros Hu Hk deleting. rewrite <- running_spec by done. unfold stays, GetPodByUID. destruct (GetByID uid store) as [p|].
  - destruct (Hk p eq_refl) as [q ->]. cbn. destruct (running_containers store uid); [done|]. by rewrite andb_false_r.
  - cbn. destruct (running_containers store uid); [done|]. by rewrite andb_false_r.
Qed.
(** The errors of volumes do not last: GetPodByUID never says that a pod exists. *)
Lemma errors_dropped store uid b : errors_kept store uid = Ret b → b = false.
Proof.
  unfold errors_kept, GetPodByUID. destruct (GetByID uid store) as [p|]; [|by intros [= <-]].
  destruct (Storage.keepPVCAndInlineCSIOnly p); cbn; [|done..]. by intros [= <-].
Qed.
(** A pod the device has deleted and that nobody deletes otherwise is added again by every pass that follows one that has removed it. *)
Lemma deleted_pod_added deleting store p q :
  GetByID (pod_UID p) store = Some p → Storage.keepPVCAndInlineCSIOnly p = Ret q → pod_UID q = pod_UID p → ps_Phase (pod_Status p) = PodRunning →
  deleting q = false → isPodTerminated deleting store q = false.
Proof.
  intros Hp _ Hq Hr Hd. unfold isPodTerminated, IsPodTerminated, GetPodStatus. rewrite Hq, Hp. cbn. rewrite Hr, Hd. cbn.
  by repeat case_bool_decide.
Qed.
End Populator.

(** ** Examples: a pod the device runs, and after the device has deleted it *)
Module PodVolumesExamples.
Import Caches.PodCache.
Definition web : Pod := set_status {| ps_Phase := PodRunning; ps_HostIP := ""; ps_PodIP := ""; ps_PodIPs := []; ps_InitContainerStatuses := [];
  ps_ContainerStatuses := [] |} (Samples.pod "u1" "web" (Samples.spec [] [] [])).
Definition cached : PodCache := Update web NewPodCache.
Example volumes_of_running_pod :
  (Populator.stays (λ _, true) cached "u1" true, Populator.stays (λ _, true) (MarkDeletedInRemote "u1" true cached) "u1" true) = (Ret true, Ret false).
Proof. by vm_compute. Qed.
(** The volumes go, and the pod's are added again, until the pod is being deleted. *)
Example added_again :
  match Populator.added (λ _, false) (MarkDeletedInRemote "u1" true cached), Populator.added (λ _, true) (MarkDeletedInRemote "u1" true cached) with
  | Ret l, Ret l' => (pod_UID <$> l, pod_UID <$> l') | _, _ => ([], []) end = (["u1"], []).
Proof. by vm_compute. Qed.
End PodVolumesExamples.
