(* ===== verification/Cluster.v ===== *)
(** * The interface of the controllers to the cluster

    What the controllers of src/pkg/controller/edgedevice use of the API server, of the informer stores in
    front of it and of the table of virtual nodes, as a class over the type of worlds, and the
    documented behaviour of the API server the properties rely on, as laws of the class. The controllers are
    written against the interface; the examples give it an implementation. *)
From S2P Require Import Prelude GoNet K8s Api Caches.
Open Scope Z_scope.

(** What the controllers see of a virtual node (virtualnode.VirtualNode): the address of its kubelet listener, the address of its
    connectivity listener, its node cache and whether its device is connected. *)
Record VirtualNode := {
  vn_KubeletServerListener : option string; vn_ConnectivityServerListener : option string;
  vn_nodeStatusCache : NodeCache.NodeCache; vn_Connected : bool
}.

Class Cluster (W : Type) := {
  (* EdgeDevices: the informer's store and the API server, and the status update of a device *)
  edgeDevice_Store : string → W → option EdgeDevice;
  edgeDevice_Get : string → W → option EdgeDevice;
  edgeDevice_UpdateStatus : EdgeDevice → W → W * option KubeError;
  edgeDevice_Delete : string → W → W * option KubeError;
  (* virtual nodes *)
  virtualNodes_Get : string → W → option VirtualNode;
  vn_SetPodCIDRs : string → string → string → W → W;
  (* jobs *)
  nodeStatusRec_Schedule : string → W → W * option string;
  (* nodes: the informer's store and the API server *)
  node_Store : string → W → option Node;
  node_Get : string → W → Node + KubeError;
  node_Patch : Node → Node → W → W * option KubeError;         (** the merge patch from the first to the second *)
  node_PatchStatus : Node → Node → W → W * option KubeError;   (** utilnode.PatchNodeStatus *)
  node_PatchCIDRs : string → list string → W → W * option KubeError;
  node_UpdateStatus : Node → W → W * option KubeError;
  node_Create : Node → W → W * option KubeError;
  node_Delete : string → W → W * option KubeError;
  (* leases of nodes *)
  lease_Store : string → W → option Lease;
  lease_Get : string → W → Lease + KubeError;
  lease_Patch : Lease → Lease → W → W * option KubeError;
  lease_Update : Lease → W → W * option KubeError;
  lease_Create : Lease → W → W * option KubeError;
  lease_Delete : string → W → W * option KubeError;
  (* pods of a node, and the clock *)
  tenantPodsForNode : string → W → list Pod;
  now : W → Z
}.

(** Two nodes the API server has not changed where the controllers look. *)
Definition same_node (a b : Node) : Prop :=
  node_Name a = node_Name b ∧ node_Labels a = node_Labels b ∧ node_Annotations a = node_Annotations b ∧
  node_Taints a = node_Taints b ∧ node_Status a = node_Status b.
#[export] Instance same_node_equiv : Equivalence same_node.
Proof.
  split; [done| |].
  - intros a b (?&?&?&?&?). by split_and!.
  - intros a b c (?&?&?&?&?) (?&?&?&?&?). split_and!; congruence.
Qed.

(** The documented behaviour of the API server: a write that succeeds is seen by the next read. *)
Class ClusterLaws (W : Type) `{Cluster W} := {
  Patch_applies old new w w' :
    node_Get (node_Name new) w = inl old → node_Patch old new w = (w', None) →
    ∃ n, node_Get (node_Name new) w' = inl n ∧ same_node n new;
  PatchStatus_applies old new w w' :
    node_Get (node_Name new) w = inl old → node_PatchStatus old new w = (w', None) →
    ∃ n, node_Get (node_Name new) w' = inl n ∧ same_node n (set_node_status (node_Status new) old);
  PatchCIDRs_keeps name cidrs w old :
    node_Get name w = inl old →
    ∃ n, node_Get name (node_PatchCIDRs name cidrs w).1 = inl n ∧ same_node n old;
  Create_stores new w w' :
    node_Create new w = (w', None) → ∃ n, node_Get (node_Name new) w' = inl n ∧ same_node n new;
  Get_name name w n : node_Get name w = inl n → node_Name n = name;
  lease_Create_stores new w w' :
    lease_Create new w = (w', None) → lease_Get (le_Name new) w' = inl new;
  lease_Patch_applies old new w w' :
    lease_Get (le_Name new) w = inl old → lease_Patch old new w = (w', None) → lease_Get (le_Name new) w' = inl new;
  lease_Update_stores new w w' :
    lease_Update new w = (w', None) → lease_Get (le_Name new) w' = inl new
}.

(** The configuration of the controllers: constant.SysNS, the host of the process, and of vnConfig.Node
    what the node controller uses (times in nanoseconds, LeaseSeconds as an int32). *)
Record Config := {
  SysNS : string; hostNodeName : string; hostname : string; hostIP : string; hostNodeAddresses : list (string * string);
  RecreateIfPatchFailed : bool; LeaseEnabled : bool; LeaseSeconds : Z; MirrorSyncInterval : Z
}.

Definition getEdgeDeviceObject `{Cluster W} (name : string) (w : W) : option EdgeDevice :=
  match edgeDevice_Store name w with Some e => Some e | None => edgeDevice_Get name w end.

(** Object, and the error when there is none. *)
Definition getNodeObject `{Cluster W} (name : string) (w : W) : Node + KubeError :=
  match node_Store name w with Some n => inl n | None => node_Get name w end.
Definition getNodeLeaseObject `{Cluster W} (name : string) (w : W) : option Lease :=
  match lease_Store name w with
  | Some l => Some l
  | None => match lease_Get name w with inl l => Some l | inr _ => None end
  end.

Definition doNodeResourcePreCheck `{Cluster W} (name : string) (w : W) : option VirtualNode :=
  match virtualNodes_Get name w with
  | None => None
  | Some vn => match getEdgeDeviceObject name w with None => None | Some _ => Some vn end
  end.

(** The port of a listener (the text of the error for a port out of range is not told apart). *)
Definition getListenerPort (l : option string) : result Z :=
  match l with
  | None => Err "nil listener"
  | Some addr =>
      let port := match SplitHostPort addr with Some (_, p) => p | None => "" end in
      match ParseInt 32 port with
      | Some p => Ok p
      | None => Err ("strconv.ParseInt: parsing " +:+ quote port +:+ ": invalid syntax")
      end
  end.

(** ** Names (src/pkg/constant) *)
Definition LabelRole : string := "arhat.dev/role".
Definition LabelRoleValueNode : string := "Node".
Definition LabelRoleValueNodeLease : string := "NodeLease".
Definition LabelNamespace : string := "arhat.dev/namespace".
Definition LabelName : string := "arhat.dev/name".
Definition LabelArch : string := "arhat.dev/arch".
Definition LabelKubeRole : string := "kubernetes.io/role".
Definition LabelHostname : string := "kubernetes.io/hostname".
Definition LabelArchStable : string := "kubernetes.io/arch".
Definition LabelOSStable : string := "kubernetes.io/os".
Definition kubelet_LabelArch : string := "beta.kubernetes.io/arch".
Definition kubelet_LabelOS : string := "beta.kubernetes.io/os".
Definition TaintKeyNamespace : string := LabelNamespace.

(** ** A cluster for the examples

    An API server that never fails: a table of nodes and leases, with the calls it received. *)
Module Sample.

Inductive Call := CPatch (n : Node) | CPatchStatus (n : Node) | CPatchCIDRs (l : list string) | CUpdateStatus (n : Node)
  | CCreate (n : Node) | CDelete (name : string) | CSchedule (name : string) | CSetPodCIDRs (name ipv4 ipv6 : string)
  | CLease (l : Lease) | CDeleteLease (name : string) | CDevice (e : EdgeDevice) | CDeleteDevice (name : string).
Record World := {
  nodes : gmap string Node; leases : gmap string Lease; devices : gmap string EdgeDevice; vns : gmap string VirtualNode;
  pods : list Pod; clock : Z; calls : list Call
}.
Definition not_found (what : string) : KubeError := {| ke_NotFound := true; ke_Conflict := false; ke_Text := what +:+ " not found" |}.
Definition log (x : Call) (w : World) : World :=
  {| nodes := nodes w; leases := leases w; devices := devices w; vns := vns w; pods := pods w; clock := clock w; calls := calls w ++ [x] |}.
Definition set_nodes (m : gmap string Node) (w : World) : World :=
  {| nodes := m; leases := leases w; devices := devices w; vns := vns w; pods := pods w; clock := clock w; calls := calls w |}.
Definition set_leases (m : gmap string Lease) (w : World) : World :=
  {| nodes := nodes w; leases := m; devices := devices w; vns := vns w; pods := pods w; clock := clock w; calls := calls w |}.
Definition put (x : Call) (n : Node) (w : World) : World * option KubeError :=
  (log x (set_nodes (<[node_Name n := n]> (nodes w)) w), None).
Definition put_lease (l : Lease) (w : World) : World * option KubeError :=
  (log (CLease l) (set_leases (<[le_Name l := l]> (leases w)) w), None).
Definition get {A} (what : string) (m : gmap string A) (name : string) : A + KubeError :=
  match m !! name with Some a => inl a | None => inr (not_found what) end.

#[export] Instance sample : Cluster World := {
  edgeDevice_Store name w := devices w !! name;
  edgeDevice_Get _ _ := None;
  edgeDevice_UpdateStatus e w := (log (CDevice e) w, None);
  edgeDevice_Delete name w := (log (CDeleteDevice name) w, None);
  virtualNodes_Get name w := vns w !! name;
  vn_SetPodCIDRs name a b w := log (CSetPodCIDRs name a b) w;
  nodeStatusRec_Schedule name w := (log (CSchedule name) w, None);
  node_Store _ _ := None;
  node_Get name w := match get "node" (nodes w) name with
                     | inl n => if decide (node_Name n = name) then inl n else inr (not_found "node")
                     | inr e => inr e
                     end;
  node_Patch _ new w := put (CPatch new) new w;
  node_PatchStatus old new w := put (CPatchStatus new) (set_node_status (node_Status new) old) w;
  node_PatchCIDRs _ l w := (log (CPatchCIDRs l) w, None);
  node_UpdateStatus n w := put (CUpdateStatus n) n w;
  node_Create n w := put (CCreate n) n w;
  node_Delete name w := (log (CDelete name) (set_nodes (delete name (nodes w)) w), None);
  lease_Store _ _ := None;
  lease_Get name w := get "lease" (leases w) name;
  lease_Patch _ new w := put_lease new w;
  lease_Update l w := put_lease l w;
  lease_Create l w := put_lease l w;
  lease_Delete name w := (log (CDeleteLease name) (set_leases (delete name (leases w)) w), None);
  tenantPodsForNode _ w := pods w;
  now w := clock w
}.

Lemma put_get x n w w' : put x n w = (w', None) → node_Get (node_Name n) w' = inl n.
Proof.
  intros [= <-]. unfold node_Get, sample, get. cbn [nodes log set_nodes]. rewrite lookup_insert_eq.
  by case_decide.
Qed.
Lemma put_lease_get l w w' : put_lease l w = (w', None) → lease_Get (le_Name l) w' = inl l.
Proof. intros [= <-]. unfold lease_Get, sample, get. cbn [leases log set_leases]. by rewrite lookup_insert_eq. Qed.

#[export] Instance sample_laws : ClusterLaws World.
Proof.
  assert (∀ name w n, node_Get (W := World) name w = inl n → node_Name n = name) as Hname.
  { intros name w n. cbn. destruct (get _ _ _); [|done]. case_decide; [|done]. by intros [= <-]. }
  split.
  - intros old new w w' _ Hp. exists new. split; [exact (put_get _ _ _ _ Hp)|done].
  - intros old new w w' Hg Hp. exists (set_node_status (node_Status new) old). split; [|done].
    rewrite <-(Hname _ _ _ Hg). exact (put_get _ _ _ _ Hp).
  - intros name cidrs w old Hg. exists old. split; [exact Hg|done].
  - intros new w w' Hp. exists new. split; [exact (put_get _ _ _ _ Hp)|done].
  - done.
  - intros new w w'. apply put_lease_get.
  - intros old new w w' _. apply put_lease_get.
  - intros new w w'. apply put_lease_get.
Qed.

Definition mesh : NetworkMeshSpec :=
  {| mesh_InterfaceName := "mesh0"; mesh_MTU := 1420; mesh_ListenPort := 51820; mesh_RoutingTable := 0; mesh_FirewallMark := 0;
     mesh_IPv4Addr := ""; mesh_IPv6Addr := ""; mesh_ExtraAllowedCIDRs := [] |}.
Definition device (name : string) (labels : gmap string string) (taints : list Taint) (hooks : list FieldHook) : EdgeDevice :=
  {| ed_Name := name; ed_Namespace := "sys"; ed_ClusterName := ""; ed_Annotations := ∅;
     ed_Spec := {| spec_Connectivity := {| con_Method := "mqtt"; con_TLSSecretRef := None; con_UserPassRef := None;
                                            con_EventRef := {| lk_Name := ""; lk_Key := "" |}; con_IoTRef := {| lk_Name := ""; lk_Key := "" |};
                                            con_UnarySessionTimeout := None; con_Backoff := {| cb_InitialDelay := None; cb_MaxDelay := None; cb_Factor := "" |} |};
                   spec_NodeLabels := labels; spec_NodeAnnotations := None; spec_NodeTaints := taints; spec_FieldHooks := hooks;
                   spec_ClusterRolePermissions := ∅; spec_PodIPv4CIDR := "10.0.0.0/24"; spec_PodIPv6CIDR := "";
                   spec_RolePermissions := ∅; spec_VirtualPodRolePermissions := ∅; spec_NodeForceSyncInterval := None;
                   spec_NodeMetrics := None; spec_PodForceSyncInterval := None; spec_PodMetrics := None; spec_PodDNS := None;
                   spec_PodAllocatable := 0; spec_StorageEnabled := false; spec_NetworkEnabled := false; spec_Mesh := mesh;
                   spec_Peripherals := []; spec_MetricsReporters := [] |};
     ed_Status := {| eds_HostNode := ""; eds_MeshIPv4Addr := ""; eds_MeshIPv6Addr := "" |} |}.
Definition config : Config :=
  {| SysNS := "sys"; hostNodeName := "host-node"; hostname := "host"; hostIP := "1.2.3.4"; hostNodeAddresses := [("InternalIP", "1.2.3.4")];
     RecreateIfPatchFailed := true; LeaseEnabled := true; LeaseSeconds := 40; MirrorSyncInterval := 10000000000 |}.
Definition vnode (cache : NodeCache.NodeCache) : VirtualNode :=
  {| vn_KubeletServerListener := Some "[::]:10250"; vn_ConnectivityServerListener := None; vn_nodeStatusCache := cache; vn_Connected := true |}.
Definition world (n : list Node) (l : list Lease) (e : EdgeDevice) (v : VirtualNode) : World :=
  {| nodes := list_to_map ((λ n, (node_Name n, n)) <$> n); leases := list_to_map ((λ l, (le_Name l, l)) <$> l);
     devices := {[ed_Name e := e]}; vns := {[ed_Name e := v]}; pods := []; clock := 1000; calls := [] |}.

End Sample.
