(* ===== verification/NodeObject.v ===== *)
(** * Node objects

    src/pkg/controller/edgedevice/node.go and the label and listener helpers of util.go: the node object of a
    virtual node, its creation and repair, the handlers of the node reconcilers and the field hooks. *)
From S2P Require Import Prelude GoNet K8s Api Caches Cluster.
Open Scope Z_scope.

Module Labels.

Definition convertToGOARCH (arch : string) : string :=
  if decide (arch = "x86") then "386"
  else if HasPrefix arch "armv" then "arm"
  else if HasPrefix arch "mips" then TrimSuffix arch "hf"
  else arch.

(** The labels of the system information. *)
Definition system_labels (i : NodeSystemInfo) : gmap string string :=
  let arch := si_Architecture i in let os := si_OperatingSystem i in
  <[LabelArch := arch]> (<[LabelArchStable := convertToGOARCH arch]> (<[kubelet_LabelArch := convertToGOARCH arch]>
    (<[LabelOSStable := os]> {[kubelet_LabelOS := os]}))).

(** The first loop: a system label replaces the one of the extra information, and is added when the node does not have it. *)
Definition with_system_labels (sys nodeLabels extLabels : gmap string string) : gmap string string :=
  merge (λ v ext, match v with
                  | None => ext
                  | Some v => Some v
                  end)
    (filter (λ kv, is_Some (extLabels !! kv.1) ∨ nodeLabels !! kv.1 ≠ Some kv.2) sys) extLabels.
(** The entries the node does not have yet. *)
Definition not_set (have : gmap string string) (want : gmap string string) : gmap string string :=
  filter (λ kv, have !! kv.1 ≠ Some kv.2) want.

Definition getNodeLabelsAndAnnotationsToSet (nodeLabels nodeAnnotations : option (gmap string string)) (info : NodeSystemInfo)
    (extLabels extAnnotations : gmap string string) : gmap string string * gmap string string :=
  let nodeLabels := default ∅ nodeLabels in
  let extLabels := with_system_labels (system_labels info) nodeLabels extLabels in
  (not_set nodeLabels extLabels, not_set (default ∅ nodeAnnotations) extAnnotations).

(** ** What is to be set *)

Lemma with_system_labels_lookup sys node ext k :
  with_system_labels sys node ext !! k =
    match sys !! k with
    | Some v => if decide (is_Some (ext !! k) ∨ node !! k ≠ Some v) then Some v else None
    | None => ext !! k
    end.
Proof.
  unfold with_system_labels. rewrite lookup_merge, lookup_filter_if. unfold diag_None.
  destruct (sys !! k) as [v|]; cbn; [|by destruct (ext !! k)]. case_decide as Hd; [done|].
  destruct (ext !! k) eqn:He; [|done]. exfalso. apply Hd. by left.
Qed.

(** The labels wanted for a node: the system labels, and the extra ones that are not system labels. *)
Definition wanted_labels (info : NodeSystemInfo) (ext : gmap string string) : gmap string string :=
  system_labels info ∪ ext.

Lemma labels_to_set_lookup nodeLabels nodeAnnotations info ext extA k :
  (getNodeLabelsAndAnnotationsToSet nodeLabels nodeAnnotations info ext extA).1 !! k =
  not_set (default ∅ nodeLabels) (wanted_labels info ext) !! k.
Proof.
  unfold getNodeLabelsAndAnnotationsToSet, not_set, wanted_labels. cbn [fst]. generalize (system_labels info). intros sys.
  rewrite !lookup_filter_if, with_system_labels_lookup, lookup_union.
  destruct (sys !! k) as [v|].
  - rewrite union_Some_l. case_decide as Hd; [done|]. case_decide as Hg; [|done]. exfalso. apply Hd. by right.
  - by rewrite (left_id_L None _).
Qed.

Lemma labels_to_set nodeLabels nodeAnnotations info ext extA :
  getNodeLabelsAndAnnotationsToSet nodeLabels nodeAnnotations info ext extA =
  (not_set (default ∅ nodeLabels) (wanted_labels info ext), not_set (default ∅ nodeAnnotations) extA).
Proof.
  apply (f_equal2 pair (x1 := (getNodeLabelsAndAnnotationsToSet nodeLabels nodeAnnotations info ext extA).1)); [|done].
  apply map_eq. intros k. apply labels_to_set_lookup.
Qed.

(** Setting what is to be set leaves nothing to be set. *)
Lemma not_set_union have want : not_set (not_set have want ∪ have) want = ∅.
Proof.
  apply map_eq. intros k. unfold not_set. rewrite lookup_filter_if, lookup_empty. cbn [fst snd].
  destruct (want !! k) as [v|] eqn:Hw; [|done]. case_decide as Hg; [|done]. exfalso. apply Hg.
  rewrite lookup_union, lookup_filter_if, Hw. cbn [fst snd]. case_decide as Hd; [apply union_Some_l|].
  rewrite (left_id_L None _). destruct (decide (have !! k = Some v)); [done|]. by destruct Hd.
Qed.
Lemma not_set_empty have want : not_set have want = ∅ → ∀ k v, want !! k = Some v → have !! k = Some v.
Proof.
  intros He k v Hw. apply dec_stable. intros Hn. assert (not_set have want !! k = Some v) as Hs.
  { unfold not_set. by apply map_lookup_filter_Some_2. }
  by rewrite He, lookup_empty in Hs.
Qed.

End Labels.

Module NodeObject.
Import Labels.
Section NodeObject.
Context {W : Type} `{Cluster W} (c : Config).

(** ** The node of a device *)

Definition podCIDRs (spec : EdgeDeviceSpec) : list string :=
  match decide (spec_PodIPv4CIDR spec = ""), decide (spec_PodIPv6CIDR spec = "") with
  | left _, left _ => []
  | left _, right _ => [spec_PodIPv6CIDR spec]
  | right _, left _ => [spec_PodIPv4CIDR spec]
  | right _, right _ => [spec_PodIPv4CIDR spec; spec_PodIPv6CIDR spec]
  end.

Definition node_labels (edgeDevice : EdgeDevice) : gmap string string :=
  <[LabelHostname := hostname c]> (<[LabelNamespace := SysNS c]> (<[LabelRole := LabelRoleValueNode]>
    (<[LabelName := ed_Name edgeDevice]> (spec_NodeLabels (ed_Spec edgeDevice) ∪ {[LabelKubeRole := SysNS c]})))).
Definition namespace_taint (ns : string) : Taint :=
  {| t_Key := TaintKeyNamespace; t_Value := ns; t_Effect := TaintEffectNoSchedule |}.
Definition node_taints (edgeDevice : EdgeDevice) : list Taint :=
  namespace_taint (ed_Namespace edgeDevice) ::
    filter (λ t, t_Key t ≠ TaintKeyNamespace) (spec_NodeTaints (ed_Spec edgeDevice)).
Definition unknown_condition (type : string) : NodeCondition :=
  {| nc_Type := type; nc_Status := ConditionUnknown; nc_LastHeartbeatTime := 0; nc_LastTransitionTime := 0; nc_Reason := ""; nc_Message := "" |}.
Definition getNodeProviderID (namespace name : string) : string := "aranya://" +:+ namespace +:+ "/" +:+ name.

Definition newNodeForEdgeDevice (edgeDevice : EdgeDevice) (kubeletPort : Z) : Node := {|
  node_Name := ed_Name edgeDevice; node_UID := ""; node_Labels := Some (node_labels edgeDevice);
  node_Annotations := spec_NodeAnnotations (ed_Spec edgeDevice); node_ClusterName := ed_ClusterName edgeDevice;
  node_OwnerReferences := []; node_Taints := node_taints edgeDevice;
  node_PodCIDR := default "" (head (podCIDRs (ed_Spec edgeDevice))); node_PodCIDRs := podCIDRs (ed_Spec edgeDevice);
  node_ProviderID := getNodeProviderID (ed_Namespace edgeDevice) (ed_Name edgeDevice);
  node_Status := {| ns_Phase := ""; ns_Capacity := ∅;
                    ns_Conditions := unknown_condition <$> [NodeReady; NodeMemoryPressure; NodeDiskPressure; NodePIDPressure; NodeNetworkUnavailable];
                    ns_NodeInfo := empty_SystemInfo; ns_Allocatable := ∅; ns_Addresses := hostNodeAddresses c;
                    ns_KubeletPort := kubeletPort |} |}.

Definition checkNodeQualified (node : Node) (kubeletListener : option string) : bool :=
  match getListenerPort kubeletListener with
  | Err _ => false
  | Ok port =>
      bool_decide (map_get (node_Labels node) LabelRole = LabelRoleValueNode) &&
      bool_decide (Exists (λ t, t = namespace_taint (SysNS c)) (node_Taints node)) &&
      (ns_KubeletPort (node_Status node) =? port)
  end.

(** ** Repair of an existing node *)

Definition merge_taints (old new : list Taint) : list Taint :=
  match old with
  | [] => new
  | _ => (λ t, if decide (t_Key t = TaintKeyNamespace) then t
               else match list_find (λ o, t_Key t = t_Key o) old with Some (_, o) => o | None => t end) <$> new
  end.
(** The clone of the old node to patch to: annotations and labels are kept, of the taints those of the new node with
    the old values. *)
Definition merged (oldNode node : Node) : Node := {|
  node_Name := node_Name oldNode; node_UID := node_UID oldNode;
  node_Labels := match node_Labels oldNode with
                 | None => node_Labels node
                 | Some m => Some (delete LabelKubeRole (default ∅ (node_Labels node)) ∪ m)
                 end;
  node_Annotations := match node_Annotations oldNode with
                      | None => node_Annotations node
                      | Some m => Some (default ∅ (node_Annotations node) ∪ m)
                      end;
  node_ClusterName := node_ClusterName node; node_OwnerReferences := node_OwnerReferences node;
  node_Taints := merge_taints (node_Taints oldNode) (node_Taints node);
  node_PodCIDR := node_PodCIDR oldNode; node_PodCIDRs := node_PodCIDRs oldNode; node_ProviderID := node_ProviderID node;
  node_Status := node_Status oldNode |}.
Definition with_endpoints (oldNode node : Node) : Node :=
  let s := node_Status oldNode in
  set_node_status {| ns_Phase := ns_Phase s; ns_Capacity := ns_Capacity s; ns_Conditions := ns_Conditions s; ns_NodeInfo := ns_NodeInfo s;
                     ns_Allocatable := ns_Allocatable s; ns_Addresses := ns_Addresses (node_Status node);
                     ns_KubeletPort := ns_KubeletPort (node_Status node) |} oldNode.

(** At most [tries] attempts; [err] is the error of the last one. *)
Fixpoint patch_cidrs (tries : nat) (err : string) (name : string) (cidrs : list string) (w : W) : W * option string :=
  match tries with
  | O => (w, Some ("failed to update pod cidr: " +:+ err))
  | S tries =>
      match node_PatchCIDRs name cidrs w with
      | (w, None) => (w, None)
      | (w, Some e) => patch_cidrs tries (ke_Text e) name cidrs w
      end
  end.

Definition patch_node (name : string) (oldNode node : Node) (w : W) : W * option string :=
  match node_Patch oldNode (merged oldNode node) w with
  | (w, Some e) => (w, Some ("failed to patch node spec: " +:+ ke_Text e))
  | (w, None) =>
      match node_Get name w with
      | inr e => (w, Some ("failed to get patched node: " +:+ ke_Text e))
      | inl oldNode =>
          match node_PatchStatus oldNode (with_endpoints oldNode node) w with
          | (w, Some e) => (w, Some ("failed to patch node status: " +:+ ke_Text e))
          | (w, None) =>
              if decide (node_PodCIDRs node = []) then (w, None)
              else patch_cidrs 3 "" name (node_PodCIDRs node) w
          end
      end
  end.

Definition create_node (node : Node) (w : W) : W * option string :=
  match node_Create node w with (w, None) => (w, None) | (w, Some e) => (w, Some (ke_Text e)) end.

Definition ensureNodeObject (name : string) (kubeletListener : option string) (w : W) : W * option string :=
  match getEdgeDeviceObject name w with
  | None => (w, None)
  | Some edgeDeviceObj =>
      match getListenerPort kubeletListener with
      | Err e => (w, Some e)
      | Ok kubeletPort =>
          let node := newNodeForEdgeDevice edgeDeviceObj kubeletPort in
          match node_Get name w with
          | inl oldNode =>
              match patch_node name oldNode node w with
              | (w, None) => (w, None)
              | (w, Some _) =>
                  if RecreateIfPatchFailed c then
                    match node_Delete name w with
                    | (w, Some e) => if ke_NotFound e then create_node node w
                                     else (w, Some ("failed to delete old node: " +:+ ke_Text e))
                    | (w, None) => create_node node w
                    end
                  else (w, None)
              end
          | inr e => if ke_NotFound e then create_node node w else (w, Some ("failed to get old node: " +:+ ke_Text e))
          end
      end
  end.

(** ** Field hooks *)

(** gojq and textquery: a query is parsed and run over a node, with the value found if any; a value expression over it is
    evaluated to a text, with an error or not. *)
Context (Query Value : Type) (Parse : string → result Query) (RunQuery : Query → Node → result (Value * bool))
  (JQ : string → Value → string * option string).

Definition labels_prefix : string := "metadata.labels['".
Definition annotations_prefix : string := "metadata.annotations['".
Definition path_suffix : string := "']".
(** Whether a hook is about annotations, and the key; the target paths of all others are not supported. *)
Definition hook_target (fp : string) : option (bool * string) :=
  if HasPrefix fp labels_prefix && HasSuffix fp path_suffix then
    Some (false, TrimSuffix (TrimPrefix fp labels_prefix) path_suffix)
  else if HasPrefix fp annotations_prefix && HasSuffix fp path_suffix then
    Some (true, TrimSuffix (TrimPrefix fp annotations_prefix) path_suffix)
  else None.
Definition hook_value (h : FieldHook) (found : Value) : string :=
  if negb (bool_decide (fh_Value h = "")) then fh_Value h
  else if negb (bool_decide (fh_ValueExpression h = "")) then (JQ (fh_ValueExpression h) found).1
  else "".
(** m[key] = v: a nil map panics *)
Definition map_set (m : option (gmap string string)) (k v : string) : outcome (option (gmap string string)) :=
  match m with None => Panic "assignment to entry in nil map" | Some m => Ret (Some (<[k := v]> m)) end.
Definition set_field (annotation : bool) (key value : string) (n : Node) : outcome Node :=
  if annotation then a ← map_set (node_Annotations n) key value; Ret (set_node_metadata (node_Labels n) a n)
  else l ← map_set (node_Labels n) key value; Ret (set_node_metadata l (node_Annotations n) n).

(** One hook: [node] is the node as it was read, [data] the one the query sees, [updateNode] the node to update to so far. *)
Definition eval_hook (node data : Node) (updateNode : option Node) (h : FieldHook) : outcome (option Node) :=
  match Parse (fh_Query h) with
  | Err _ => Ret updateNode
  | Ok query =>
      match RunQuery query data with
      | Err _ | Ok (_, false) => Ret updateNode
      | Ok (found, true) =>
          let targetValue := hook_value h found in
          match hook_target (fh_TargetFieldPath h) with
          | None => Ret updateNode
          | Some (annotation, key) =>
              if decide (map_get (if annotation then node_Annotations node else node_Labels node) key = targetValue) then Ret updateNode
              else n ← set_field annotation key targetValue (default node updateNode); Ret (Some n)
          end
      end
  end.
Fixpoint eval_hooks (node data : Node) (updateNode : option Node) (hooks : list FieldHook) : outcome (option Node) :=
  match hooks with
  | [] => Ret updateNode
  | h :: hooks => u ← eval_hook node data updateNode h; eval_hooks node data u hooks
  end.

Definition evalNodeFiledHooksAndUpdateNode (node : Node) (vn : VirtualNode) (w : W) : outcome (W * option string) :=
  match getEdgeDeviceObject (node_Name node) w with
  | None => Ret (w, None)
  | Some device =>
      if decide (spec_FieldHooks (ed_Spec device) = []) then Ret (w, None) else
      let '(extLabels, extAnnotations) := NodeCache.RetrieveExtInfo (vn_nodeStatusCache vn) in
      let '(setLabels, setAnnotations) :=
        getNodeLabelsAndAnnotationsToSet (node_Labels node) (node_Annotations node) (ns_NodeInfo (node_Status node)) extLabels extAnnotations in
      let updateNode :=
        if decide (setLabels = ∅ ∧ setAnnotations = ∅) then None
        else Some (set_node_metadata (set_all (node_Labels node) setLabels) (set_all (node_Annotations node) setAnnotations) node) in
      updateNode ← eval_hooks node (default node updateNode) updateNode (spec_FieldHooks (ed_Spec device));
      match updateNode with
      | None => Ret (w, None)
      | Some updateNode =>
          let '(w, err) := node_Patch node updateNode w in Ret (w, ke_Text <$> err)
      end
  end.

(** ** The handlers *)

(** convert.GetPodCIDRWithIPVersion: its first result is for IPv4, its second for IPv6 *)
Definition add_cidr (acc : string * string) (cidr : string) : string * string :=
  match ParseCIDR cidr with
  | None => acc
  | Some (ip, _, _, _) => if To4 ip is None then (cidr, acc.2) else (acc.1, cidr)
  end.
Definition GetPodCIDRWithIPVersion (podCIDR : string) (podCIDRs : list string) : string * string :=
  foldl add_cidr ("", "") (podCIDR :: podCIDRs).

Definition to_result (r : option string) : Result := match r with None => RNil | Some e => RErr e end.

Definition onNodeEnsureRequested (name : string) (w : W) : W * Result :=
  match virtualNodes_Get name w with
  | None => (w, match getEdgeDeviceObject name w with None => RNil | Some _ => RErr "waiting for virtual node" end)
  | Some vn => let '(w, err) := ensureNodeObject name (vn_KubeletServerListener vn) w in (w, to_result err)
  end.

Definition onNodeUpdated (node : Node) (w : W) : outcome (W * Result) :=
  let name := node_Name node in
  match doNodeResourcePreCheck name w with
  | None => Ret (w, RNil)
  | Some vn =>
      match vn_KubeletServerListener vn with
      | None => Ret (w, RNil)
      | Some _ as listener =>
          let '(w, err) :=
            if checkNodeQualified node listener then
              let '(v4, v6) := GetPodCIDRWithIPVersion (node_PodCIDR node) (node_PodCIDRs node) in
              (vn_SetPodCIDRs name v4 v6 w, None)
            else
              match ensureNodeObject name listener w with
              | (w, Some e) => (w, Some e)
              | (w, None) => ((nodeStatusRec_Schedule name w).1, None)
              end in
          match err with
          | Some e => Ret (w, RErr e)
          | None => '(w, err) ← evalNodeFiledHooksAndUpdateNode node vn w; Ret (w, to_result err)
          end
      end
  end.

Definition onNodeDeleting (node : Node) (w : W) : W * Result :=
  match node_Delete (node_Name node) w with
  | (w, Some e) => (w, if ke_NotFound e then RNext ActionCleanup 0 else RErr (ke_Text e))
  | (w, None) => (w, RNext ActionCleanup 0)
  end.
Definition onNodeDeleted (node : Node) (w : W) : W * Result :=
  let name := node_Name node in
  match doNodeResourcePreCheck name w with
  | None => (w, RNil)
  | Some vn =>
      match vn_KubeletServerListener vn with
      | None => (w, RNil)
      | Some _ as listener => let '(w, err) := ensureNodeObject name listener w in (w, to_result err)
      end
  end.

(** ** Existing nodes are repaired *)

Lemma map_get_union_l (m1 m2 : gmap string string) k v : m1 !! k = Some v → map_get (Some (m1 ∪ m2)) k = v.
Proof. intros Hk. unfold map_get. cbn. rewrite (lookup_union_Some_l _ _ _ _ Hk). done. Qed.

(** The labels of a device's node other than the role Kubernetes shows, which belongs to the user. *)
Definition has_labels (edgeDevice : EdgeDevice) (n : Node) : Prop :=
  ∀ k v, k ≠ LabelKubeRole → node_labels edgeDevice !! k = Some v → map_get (node_Labels n) k = v.
Definition has_taints (edgeDevice : EdgeDevice) (n : Node) : Prop :=
  t_Key <$> node_Taints n = t_Key <$> node_taints edgeDevice ∧ namespace_taint (ed_Namespace edgeDevice) ∈ node_Taints n.

Lemma merge_taints_keys old new : t_Key <$> merge_taints old new = t_Key <$> new.
Proof.
  unfold merge_taints. destruct old as [|o old]; [done|]. rewrite <-list_fmap_compose. apply list_fmap_ext.
  intros _ t _. generalize (o :: old). intros l. cbn. case_decide; [done|].
  destruct (list_find _ _) as [ [j o']|] eqn:Hf; [|done]. apply list_find_Some in Hf as (_ & Hk & _). congruence.
Qed.
Lemma merge_taints_namespace old new t : t ∈ new → t_Key t = TaintKeyNamespace → t ∈ merge_taints old new.
Proof.
  intros Hin Hk. unfold merge_taints. destruct old as [|o old]; [done|]. apply list_elem_of_fmap. exists t.
  by rewrite decide_True.
Qed.

Lemma merged_labels edgeDevice port old : has_labels edgeDevice (merged old (newNodeForEdgeDevice edgeDevice port)).
Proof.
  intros k v Hk Hl. cbn [merged node_Labels newNodeForEdgeDevice]. destruct (node_Labels old) as [m|].
  - cbn [default]. apply map_get_union_l. by rewrite lookup_delete_ne by done.
  - unfold map_get. cbn [mbind option_bind default]. by rewrite Hl.
Qed.
Lemma merged_taints edgeDevice port old : has_taints edgeDevice (merged old (newNodeForEdgeDevice edgeDevice port)).
Proof.
  split; cbn [merged node_Taints newNodeForEdgeDevice]; [apply merge_taints_keys|].
  apply merge_taints_namespace; [apply list_elem_of_here|done].
Qed.

Lemma has_labels_qualified edgeDevice n port listener :
  getListenerPort listener = Ok port → ed_Namespace edgeDevice = SysNS c →
  has_labels edgeDevice n → has_taints edgeDevice n → ns_KubeletPort (node_Status n) = port →
  checkNodeQualified n listener = true.
Proof.
  intros Hp Hns Hl [_ Ht] Hport. unfold checkNodeQualified. rewrite Hp, Hport, Z.eqb_refl, andb_true_r.
  rewrite !bool_decide_true; [done| |].
  - apply Exists_exists. exists (namespace_taint (SysNS c)). split; [by rewrite <-Hns|done].
  - apply Hl; [done|]. unfold node_labels. rewrite !lookup_insert_ne by done. apply lookup_insert_eq.
Qed.

Lemma same_has_labels edgeDevice a b : same_node a b → has_labels edgeDevice b → has_labels edgeDevice a.
Proof. intros (_ & Hl & _) Hb k v Hk Hv. rewrite Hl. by apply Hb. Qed.
Lemma same_has_taints edgeDevice a b : same_node a b → has_taints edgeDevice b → has_taints edgeDevice a.
Proof. intros (_ & _ & _ & Ht & _) [H1 H2]. split; by rewrite Ht. Qed.

(** What the node controller wants of a device's node. *)
Definition repaired (edgeDevice : EdgeDevice) (port : Z) (n : Node) : Prop :=
  has_labels edgeDevice n ∧ has_taints edgeDevice n ∧ ns_KubeletPort (node_Status n) = port ∧
  ns_Addresses (node_Status n) = hostNodeAddresses c.
Lemma same_repaired edgeDevice port a b : same_node a b → repaired edgeDevice port b → repaired edgeDevice port a.
Proof.
  intros Hs (H1 & H2 & H3 & H4). assert (node_Status a = node_Status b) as Hst by apply Hs. unfold repaired. rewrite Hst.
  split_and!; [by eapply same_has_labels|by eapply same_has_taints|done|done].
Qed.
Lemma new_repaired edgeDevice port : repaired edgeDevice port (newNodeForEdgeDevice edgeDevice port).
Proof.
  split_and!; [|split; [done|apply list_elem_of_here]|done|done].
  intros k v _ Hv. unfold map_get. cbn [newNodeForEdgeDevice node_Labels mbind option_bind]. by rewrite Hv.
Qed.

Context `{!ClusterLaws W}.

Lemma patch_cidrs_keeps tries err name cidrs w n :
  node_Get name w = inl n → ∃ n', node_Get name (patch_cidrs tries err name cidrs w).1 = inl n' ∧ same_node n' n.
Proof.
  revert err w n. induction tries as [|tries IH]; intros err w n Hg; cbn [patch_cidrs]; [by exists n|].
  destruct (PatchCIDRs_keeps name cidrs w n Hg) as (n1 & Hg1 & Hs1).
  destruct (node_PatchCIDRs name cidrs w) as [w1 [e|] ]; cbn [fst] in *; [|by exists n1].
  destruct (IH (ke_Text e) w1 n1 Hg1) as (n2 & Hg2 & Hs2). exists n2. split; [done|]. by transitivity n1.
Qed.

Lemma patch_node_repaired edgeDevice port old w w' :
  node_Get (ed_Name edgeDevice) w = inl old →
  patch_node (ed_Name edgeDevice) old (newNodeForEdgeDevice edgeDevice port) w = (w', None) →
  ∃ n, node_Get (ed_Name edgeDevice) w' = inl n ∧ repaired edgeDevice port n.
Proof.
  set (name := ed_Name edgeDevice). set (node := newNodeForEdgeDevice edgeDevice port). intros Hg. unfold patch_node.
  assert (node_Name old = name) as Hname by by eapply Get_name.
  destruct (node_Patch old (merged old node) w) as [w1 [e|] ] eqn:Hp; [done|].
  destruct (Patch_applies old (merged old node) w w1) as (n1 & Hg1 & Hs1); [cbn; by rewrite Hname| exact Hp|].
  cbn [merged node_Name] in Hg1. rewrite Hname in Hg1. rewrite Hg1.
  destruct (node_PatchStatus n1 (with_endpoints n1 node) w1) as [w2 [e|] ] eqn:Hps; [done|].
  assert (node_Name n1 = name) as Hname1 by by eapply Get_name.
  destruct (PatchStatus_applies n1 (with_endpoints n1 node) w1 w2) as (n2 & Hg2 & Hs2); [by cbn; rewrite Hname1|done|].
  cbn [with_endpoints set_node_status node_Name] in Hg2. rewrite Hname1 in Hg2.
  assert (repaired edgeDevice port n2) as Hr2.
  { eapply same_repaired; [exact Hs2|]. split_and!; [| |done|done].
    - intros k v Hk Hv. cbn [set_node_status node_Labels]. destruct Hs1 as (_ & -> & _). by eapply merged_labels.
    - destruct Hs1 as (_ & _ & _ & Ht & _). pose proof (merged_taints edgeDevice port old) as [H1 H2].
      split; cbn [set_node_status node_Taints]; by rewrite Ht. }
  case_decide; [intros [= <-]; by exists n2|]. intros Hc.
  destruct (patch_cidrs_keeps 3 "" name (node_PodCIDRs node) w2 n2 Hg2) as (n3 & Hg3 & Hs3).
  rewrite Hc in Hg3. exists n3. split; [done|]. by eapply same_repaired.
Qed.

Lemma create_node_repaired edgeDevice port w w' :
  create_node (newNodeForEdgeDevice edgeDevice port) w = (w', None) →
  ∃ n, node_Get (ed_Name edgeDevice) w' = inl n ∧ repaired edgeDevice port n.
Proof.
  unfold create_node. destruct (node_Create _ w) as [w1 [e|] ] eqn:Hc; [done|]. intros [= <-].
  destruct (Create_stores _ _ _ Hc) as (n & Hg & Hs). exists n. split; [done|]. eapply same_repaired; [done|]. apply new_repaired.
Qed.

(** C31: when ensureNodeObject succeeds for a device of the system namespace, and nodes are recreated when their patch fails, the
    node in the API server has the labels of the device and of the controller, exactly the taint keys of the device with the
    namespace taint, the host's addresses and the port of the kubelet listener, whatever the node was before, and the node
    controller finds it qualified. *)
Theorem ensureNodeObject_correct name listener edgeDevice w w' :
  RecreateIfPatchFailed c = true → getEdgeDeviceObject name w = Some edgeDevice → ed_Name edgeDevice = name →
  ed_Namespace edgeDevice = SysNS c → ensureNodeObject name listener w = (w', None) →
  ∃ port n, getListenerPort listener = Ok port ∧ node_Get name w' = inl n ∧ repaired edgeDevice port n ∧
    checkNodeQualified n listener = true.
Proof.
  intros Hre Hed <- Hns. unfold ensureNodeObject. rewrite Hed, Hre.
  destruct (getListenerPort listener) as [port|e] eqn:Hp; [|done]. intros Hr. exists port.
  assert (∃ n, node_Get (ed_Name edgeDevice) w' = inl n ∧ repaired edgeDevice port n) as (n & Hg & Hn).
  { destruct (node_Get (ed_Name edgeDevice) w) as [old|e] eqn:Hg.
    - destruct (patch_node _ _ _ _) as [w1 [e|] ] eqn:Hpn; [|simplify_eq; by eapply patch_node_repaired].
      destruct (node_Delete _ _) as [w2 [e'|] ]; [destruct (ke_NotFound e'); [|done]|]; by eapply create_node_repaired.
    - destruct (ke_NotFound e); [|done]. by eapply create_node_repaired. }
  exists n. split_and!; [done|done|done|]. destruct Hn as (H1 & H2 & H3 & _). by eapply has_labels_qualified.
Qed.

(** A qualified node of a device without hooks is left alone: only its pod addresses are passed on. *)
Lemma onNodeUpdated_qualified node vn edgeDevice w :
  virtualNodes_Get (node_Name node) w = Some vn → getEdgeDeviceObject (node_Name node) w = Some edgeDevice →
  (∀ w', getEdgeDeviceObject (node_Name node) w' = Some edgeDevice) → spec_FieldHooks (ed_Spec edgeDevice) = [] →
  checkNodeQualified node (vn_KubeletServerListener vn) = true →
  let cidrs := GetPodCIDRWithIPVersion (node_PodCIDR node) (node_PodCIDRs node) in
  onNodeUpdated node w = Ret (vn_SetPodCIDRs (node_Name node) cidrs.1 cidrs.2 w, RNil).
Proof.
  intros Hvn Hed Hed' Hh Hq. unfold onNodeUpdated, doNodeResourcePreCheck. rewrite Hvn, Hed.
  destruct (vn_KubeletServerListener vn) as [l|] eqn:Hl; [|done]. rewrite Hq.
  destruct (GetPodCIDRWithIPVersion _ _) as [v4 v6] eqn:Hc. unfold evalNodeFiledHooksAndUpdateNode.
  by rewrite Hed', decide_True.
Qed.

(** ** Field hooks *)

(** What a hook does to the node: sets a label or an annotation, when its query finds something, its target is supported and the
    node as read has another value. *)
Definition hook_effect (node data : Node) (h : FieldHook) : option (bool * string * string) :=
  match Parse (fh_Query h) with
  | Ok query =>
      match RunQuery query data with
      | Ok (found, true) =>
          '(annotation, key) ← hook_target (fh_TargetFieldPath h);
          if decide (map_get (if annotation : bool then node_Annotations node else node_Labels node) key = hook_value h found) then None
          else Some (annotation, key, hook_value h found)
      | _ => None
      end
  | Err _ => None
  end.
Definition effect_for (annotation : bool) (key : string) (e : bool * string * string) : option string :=
  if decide (e.1 = (annotation, key)) then Some e.2 else None.
Definition field_map (annotation : bool) (n : Node) : option (gmap string string) :=
  if annotation then node_Annotations n else node_Labels n.

Lemma eval_hook_effect node data u h :
  eval_hook node data u h = match hook_effect node data h with
                            | None => Ret u
                            | Some (annotation, key, v) => n ← set_field annotation key v (default node u); Ret (Some n)
                            end.
Proof.
  unfold eval_hook, hook_effect. destruct (Parse (fh_Query h)) as [q|]; [|done].
  destruct (RunQuery q data) as [ [found [] ]|]; [|done|done].
  destruct (hook_target (fh_TargetFieldPath h)) as [ [a k]|]; [|done]. cbn. by case_decide.
Qed.

Lemma set_field_spec annotation key v n :
  is_Some (field_map annotation n) →
  ∃ n', set_field annotation key v n = Ret n' ∧ node_Name n' = node_Name n ∧
    ∀ a k, (is_Some (field_map a n') ↔ is_Some (field_map a n)) ∧
      map_get (field_map a n') k = default (map_get (field_map a n) k) (effect_for a k (annotation, key, v)).
Proof.
  intros [m Hm]. unfold set_field. unfold field_map in Hm. destruct annotation; rewrite Hm; cbn; eexists; (split; [done|]); (split; [done|]);
    intros a k; unfold effect_for, field_map; destruct a; cbn; rewrite ?Hm; (split; [done|]); try done; unfold map_get; cbn;
    case_decide as Hd; cbn.
  all: try (injection Hd as <-; by rewrite lookup_insert_eq).
  all: rewrite lookup_insert_ne by congruence; done.
Qed.

Lemma eval_hooks_spec node data hooks u :
  is_Some (node_Labels node) → is_Some (node_Annotations node) →
  (∀ n, u = Some n → is_Some (node_Labels n) ∧ is_Some (node_Annotations n)) →
  ∃ u', eval_hooks node data u hooks = Ret u' ∧
    (u' = None ↔ u = None ∧ omap (hook_effect node data) hooks = []) ∧
    ∀ a k, map_get (field_map a (default node u')) k =
      default (map_get (field_map a (default node u)) k) (last (omap (effect_for a k) (omap (hook_effect node data) hooks))).
Proof.
  intros Hl Ha. revert u. induction hooks as [|h hooks IH]; intros u Hu; cbn [eval_hooks].
  - exists u. split; [done|]. split; [naive_solver|done].
  - rewrite eval_hook_effect. cbn [omap list_omap]. destruct (hook_effect node data h) as [ [ [a k] v]|]; [|by apply IH].
    assert (is_Some (field_map a (default node u))) as Hf.
    { destruct u as [n|]; [destruct (Hu n eq_refl)|]; by destruct a. }
    destruct (set_field_spec a k v (default node u) Hf) as (n' & Hn & _ & Hspec). rewrite Hn. cbn [mbind outcome_bind].
    destruct (IH (Some n')) as (u' & Hr & Hnone & Hval).
    { intros n [= <-]. split; [apply (Hspec false "")|apply (Hspec true "")]; cbn; destruct u as [n|]; try done; by apply Hu. }
    exists u'. split; [done|]. split; [naive_solver|]. intros a2 k2. rewrite Hval. change (default node (Some n')) with n'. cbn [omap list_omap].
    destruct (Hspec a2 k2) as [_ Hs]. rewrite Hs.
    destruct (effect_for a2 k2 (a, k, v)) as [x|] eqn:He; [|done]. by rewrite last_cons; destruct (last _).
Qed.

(** The field hooks of a device. On a node with labels and annotations the evaluation ends; no patch is sent exactly when every label
    and annotation the device reports is set and no hook has an effect; otherwise one patch is sent, to a node with, for each key, the
    value of the last hook with an effect on it, or the value the device reports, or the one it has. *)
Lemma evalNodeFiledHooks_correct node vn edgeDevice w :
  getEdgeDeviceObject (node_Name node) w = Some edgeDevice → spec_FieldHooks (ed_Spec edgeDevice) ≠ [] →
  is_Some (node_Labels node) → is_Some (node_Annotations node) →
  let '(extLabels, extAnnotations) := NodeCache.RetrieveExtInfo (vn_nodeStatusCache vn) in
  let labels := not_set (default ∅ (node_Labels node)) (wanted_labels (ns_NodeInfo (node_Status node)) extLabels) in
  let annotations := not_set (default ∅ (node_Annotations node)) extAnnotations in
  let data := set_node_metadata (set_all (node_Labels node) labels) (set_all (node_Annotations node) annotations) node in
  let data := if decide (labels = ∅ ∧ annotations = ∅) then node else data in
  let effects := omap (hook_effect node data) (spec_FieldHooks (ed_Spec edgeDevice)) in
  if decide (labels = ∅ ∧ annotations = ∅ ∧ effects = []) then
    evalNodeFiledHooksAndUpdateNode node vn w = Ret (w, None)
  else
    ∃ n, evalNodeFiledHooksAndUpdateNode node vn w = (let '(w, err) := node_Patch node n w in Ret (w, ke_Text <$> err)) ∧
      ∀ a k, map_get (field_map a n) k = default (map_get (field_map a data) k) (last (omap (effect_for a k) effects)).
Proof.
  intros Hed Hh Hl Ha. destruct (NodeCache.RetrieveExtInfo (vn_nodeStatusCache vn)) as [extLabels extAnnotations] eqn:He.
  intros labels annotations data0 data effects. unfold evalNodeFiledHooksAndUpdateNode.
  rewrite Hed, (decide_False (P := spec_FieldHooks (ed_Spec edgeDevice) = [])) by done. rewrite He, labels_to_set. fold labels annotations data0.
  set (u := if decide (labels = ∅ ∧ annotations = ∅) then None else Some data0).
  assert (default node u = data) as Hu by (unfold u, data; by case_decide). rewrite Hu.
  destruct (eval_hooks_spec node data (spec_FieldHooks (ed_Spec edgeDevice)) u Hl Ha) as (u' & Hr & Hnone & Hval).
  { intros n. unfold u. case_decide; [done|]. intros [= <-]. unfold data0. cbn.
    destruct Hl as [l ->], Ha as [an ->]. cbn. split; by eexists. }
  rewrite Hr. cbn [mbind outcome_bind]. fold effects in Hnone, Hval. rewrite Hu in Hval.
  assert (u = None ↔ labels = ∅ ∧ annotations = ∅) as Hun by (unfold u; case_decide; naive_solver).
  case_decide as Hd.
  - assert (u' = None) as -> by (apply Hnone; naive_solver). done.
  - destruct u' as [n|]; [|exfalso; naive_solver]. exists n. by split.
Qed.

(** A hook for an annotation of a node without annotations panics. *)
Lemma hook_panics node h hooks key v :
  node_Annotations node = None → hook_effect node node h = Some (true, key, v) →
  eval_hooks node node None (h :: hooks) = Panic "assignment to entry in nil map".
Proof. intros Hn He. cbn [eval_hooks]. rewrite eval_hook_effect, He. unfold set_field. cbn. by rewrite Hn. Qed.

End NodeObject.
End NodeObject.

Module Examples.
Import Labels NodeObject Sample.

(** a device with a label and a taint, whose node lost its labels, whose taint was changed and whose port is stale *)
Definition dev : EdgeDevice := device "dev" {["zone" := "a"]} [{| t_Key := "k"; t_Value := "v"; t_Effect := "NoExecute" |}] [].
Definition stale : Node :=
  set_node_metadata (Some {[LabelKubeRole := "mine"]}) None
    {| node_Name := "dev"; node_UID := "1"; node_Labels := None; node_Annotations := None; node_ClusterName := ""; node_OwnerReferences := [];
       node_Taints := [{| t_Key := "k"; t_Value := "other"; t_Effect := "NoExecute" |}]; node_PodCIDR := ""; node_PodCIDRs := [];
       node_ProviderID := ""; node_Status := empty_NodeStatus |}.
Definition w0 : World := world [stale] [] dev (vnode (NodeCache.newNodeCache ∅ ∅)).
Lemma ensureNodeObject_correct_witness : ∃ w' port n,
  ensureNodeObject config "dev" (Some "[::]:10250") w0 = (w', None) ∧ getListenerPort (Some "[::]:10250") = Ok port ∧
  node_Get "dev" w' = inl n ∧ repaired config dev port n ∧ checkNodeQualified config n (Some "[::]:10250") = true.
Proof.
  destruct (ensureNodeObject config "dev" (Some "[::]:10250") w0) as [w' [e|] ] eqn:Hr; [by vm_compute in Hr|].
  destruct (ensureNodeObject_correct config "dev" (Some "[::]:10250") dev w0 w') as (port & n & H1 & H2 & H3 & H4);
    [reflexivity|reflexivity|reflexivity|reflexivity|exact Hr|].
  by exists w', port, n.
Defined.

(** the user's role label and the value of the taint are kept *)
Example stale_repaired :
  match node_Get "dev" (ensureNodeObject config "dev" (Some "[::]:10250") w0).1 with
  | inl n => map_get (node_Labels n) LabelKubeRole = "mine" ∧ map_get (node_Labels n) "zone" = "a" ∧
             node_Taints n = [namespace_taint "sys"; {| t_Key := "k"; t_Value := "other"; t_Effect := "NoExecute" |}]
  | inr _ => False
  end.
Proof. vm_compute. by split_and!. Qed.

(** an IPv4 range is passed on as the IPv6 one *)
Example cidr_versions_swapped : GetPodCIDRWithIPVersion "10.0.0.0/24" [] = ("", "10.0.0.0/24").
Proof. vm_compute. reflexivity. Qed.

(** a hook that copies the zone to an annotation, and one that overwrites it *)
Definition hook (target value : string) : FieldHook :=
  {| fh_Query := "q"; fh_TargetFieldPath := target; fh_Value := value; fh_ValueExpression := "" |}.
Definition dev2 : EdgeDevice := device "dev" ∅ [] [hook "metadata.annotations['zone']" "b"; hook "metadata.annotations['zone']" "c"].
Definition node2 : Node := set_node_metadata (Some ∅) (Some ∅) stale.
Definition w2 : World := world [node2] [] dev2 (vnode (NodeCache.newNodeCache ∅ ∅)).
Definition RunQuery (q : string) (n : Node) : result (string * bool) := Ok ("found", true).
Lemma evalNodeFiledHooks_correct_witness : ∃ n,
  evalNodeFiledHooksAndUpdateNode string string Ok RunQuery (λ _ v, (v, None)) node2 (vnode (NodeCache.newNodeCache ∅ ∅)) w2 =
    (let '(w, err) := node_Patch node2 n w2 in Ret (w, ke_Text <$> err)) ∧ map_get (node_Annotations n) "zone" = "c".
Proof.
  pose proof (evalNodeFiledHooks_correct string string Ok RunQuery (λ _ v, (v, None)) node2 (vnode (NodeCache.newNodeCache ∅ ∅))
    dev2 w2 eq_refl ltac:(discriminate) ltac:(by eexists) ltac:(by eexists)) as H.
  destruct (NodeCache.RetrieveExtInfo _) as [l a] eqn:E. injection E as <- <-. cbv zeta in H.
  rewrite decide_False in H by (intros (_ & _ & Hbad); vm_compute in Hbad; discriminate).
  destruct H as (n & Hn & Hv). exists n. split; [exact Hn|].
  etransitivity; [exact (Hv true "zone")|]. vm_compute. reflexivity.
Defined.

End Examples.
