(* ===== verification/NodeStatus.v ===== *)
(** * Node status

    src/pkg/controller/edgedevice/node_status.go: the labels, the resources and the conditions of the node of a virtual node, as its
    device reports them. *)
From S2P Require Import Prelude GoNet K8s Api Caches Cluster NodeObject.
Open Scope Z_scope.

Module Allocatable.

Definition Value64 (name : string) (l : ResourceList) : Z := Value (quantity name l).
Definition Milli64 (name : string) (l : ResourceList) : Z := MilliValue (quantity name l).

(** The limit of a container counts when it has one, otherwise the request. *)
Definition used (value : string → ResourceList → Z) (name : string) (ctr : Container) : Z :=
  if negb (Value64 name (ctr_Limits ctr) =? 0) then value name (ctr_Limits ctr) else value name (ctr_Requests ctr).

Record avail := { a_cpu : Z; a_mem : Z; a_storage : Z }.
Definition take_container (a : avail) (ctr : Container) : avail :=
  {| a_cpu := int64 (a_cpu a - used Milli64 ResourceCPU ctr); a_mem := int64 (a_mem a - used Value64 ResourceMemory ctr);
     a_storage := int64 (a_storage a - used Value64 ResourceEphemeralStorage ctr) |}.
Definition take_pod (a : avail) (pod : Pod) : avail := foldl take_container a (sp_Containers (pod_Spec pod)).

Definition getAllocatable (capacity : ResourceList) (pods : list Pod) : ResourceList :=
  let a := foldl take_pod {| a_cpu := Milli64 ResourceCPU capacity; a_mem := Value64 ResourceMemory capacity;
                             a_storage := Value64 ResourceEphemeralStorage capacity |} pods in
  let podAvail := int64 (Value64 ResourcePods capacity - Z.of_nat (length pods)) in
  let pos (x : Z) := if x <? 0 then 0 else x in
  <[ResourceCPU := NewMilliQuantity (pos (a_cpu a))]> (<[ResourceMemory := NewQuantity (pos (a_mem a))]>
    (<[ResourceEphemeralStorage := NewQuantity (pos (a_storage a))]> {[ResourcePods := NewQuantity (pos podAvail)]})).

(** ** What is left of a node *)

Definition containers (pods : list Pod) : list Container := pods ≫= λ p, sp_Containers (pod_Spec p).
Definition total (f : Container → Z) (l : list Container) : Z := foldr (λ ctr s, f ctr + s) 0 l.

Lemma take_pods a pods : foldl take_pod a pods = foldl take_container a (containers pods).
Proof.
  revert a. induction pods as [|p pods IH]; intros a; [done|]. cbn [foldl containers mbind list_bind].
  rewrite foldl_app. apply IH.
Qed.

(** Without an overflow the subtractions are the integers'. *)
Lemma take_containers (proj : avail → Z) (f : Container → Z) a l :
  (∀ a ctr, proj (take_container a ctr) = int64 (proj a - f ctr)) →
  Forall (λ ctr, 0 <= f ctr) l → proj a < 2 ^ 63 → - 2 ^ 63 <= proj a - total f l →
  proj (foldl take_container a l) = proj a - total f l.
Proof.
  intros Hp. revert a. induction l as [|ctr l IH]; intros a Hf Hhi Hlo; cbn [foldl total foldr] in *; [lia|].
  inversion Hf as [|? ? H1 H2]; subst. fold (total f l) in *.
  assert (0 <= total f l) by (clear -H2; induction H2 as [|? l ? ? IH]; cbn [total foldr]; [lia|]; fold (total f l) in *; lia).
  assert (proj (take_container a ctr) = proj a - f ctr) as Hs by (rewrite Hp; apply int64_small; lia).
  rewrite IH; [lia|done|lia|lia].
Qed.

Lemma ceil_div_mul v b : 0 < b → ceil_div (v * b) b = v.
Proof.
  intros Hb. unfold ceil_div. rewrite Z.sgn_mul, Z.abs_mul, (Z.sgn_pos b), (Z.abs_eq b) by lia.
  rewrite Z.mul_1_r, Z.div_add_l, (Z.div_small (b - 1)), Z.add_0_r, Z.mul_comm by lia. apply Z.abs_sgn.
Qed.

(** What a node can still allocate is, for each resource, its capacity less the limits (or requests) of all containers of its
    pods, and less the number of pods, but not below zero: no amount exceeds the capacity, provided the sums stay
    within 64 bits. *)
Lemma getAllocatable_correct capacity pods :
  let l := containers pods in
  let fits f cap := Forall (λ ctr, 0 <= f ctr) l ∧ 0 <= cap < 2 ^ 63 ∧ - 2 ^ 63 <= cap - total f l in
  let cpu := used Milli64 ResourceCPU in let mem := used Value64 ResourceMemory in
  let storage := used Value64 ResourceEphemeralStorage in
  fits cpu (Milli64 ResourceCPU capacity) → fits mem (Value64 ResourceMemory capacity) →
  fits storage (Value64 ResourceEphemeralStorage capacity) →
  0 <= Value64 ResourcePods capacity < 2 ^ 63 → Z.of_nat (length pods) <= 2 ^ 63 →
  let r := getAllocatable capacity pods in
  Milli64 ResourceCPU r = 0 `max` (Milli64 ResourceCPU capacity - total cpu l) ∧
  Value64 ResourceMemory r = 0 `max` (Value64 ResourceMemory capacity - total mem l) ∧
  Value64 ResourceEphemeralStorage r = 0 `max` (Value64 ResourceEphemeralStorage capacity - total storage l) ∧
  Value64 ResourcePods r = 0 `max` (Value64 ResourcePods capacity - Z.of_nat (length pods)).
Proof.
  intros l fits cpu mem storage Hcpu Hmem Hst Hpods Hlen r. unfold r, getAllocatable. rewrite take_pods. fold l.
  set (a := {| a_cpu := _; a_mem := _; a_storage := _ |}).
  rewrite (take_containers a_cpu cpu a l), (take_containers a_mem mem a l), (take_containers a_storage storage a l)
    by (first [done|apply Hcpu|apply Hmem|apply Hst]).
  cbn [a_cpu a_mem a_storage a]. rewrite int64_small by lia.
  assert (∀ x, (if x <? 0 then 0 else x) = 0 `max` x) as Hpos by (intros x; destruct (Z.ltb_spec x 0); lia).
  rewrite !Hpos. generalize (Milli64 ResourceCPU capacity - total cpu l), (Value64 ResourceMemory capacity - total mem l),
    (Value64 ResourceEphemeralStorage capacity - total storage l), (Value64 ResourcePods capacity - Z.of_nat (length pods)).
  intros x1 x2 x3 x4. unfold Milli64, Value64, quantity, MilliValue, Value, NewMilliQuantity, NewQuantity, ResourceList, Quantity.
  repeat (first [rewrite lookup_insert_eq|rewrite lookup_insert_ne by done|rewrite lookup_singleton_eq]). cbn [default]. unfold id.
  by rewrite !ceil_div_mul by lia.
Qed.

End Allocatable.

Module NodeStatus.
Import Labels Allocatable.

Definition checkNodeResourcesEqual (a b : ResourceList) : bool :=
  forallb (λ name, quantity name a =? quantity name b) [ResourceCPU; ResourcePods; ResourceMemory; ResourceEphemeralStorage].
Definition checkNodeInfoEqual (a b : NodeSystemInfo) : bool := bool_decide (a = b).

Definition newNodeNotReadyCondition (t : Z) : NodeCondition :=
  {| nc_Type := NodeReady; nc_Status := ConditionFalse; nc_LastHeartbeatTime := t; nc_LastTransitionTime := t;
     nc_Reason := "EdgeDevice disconnected"; nc_Message := "connectivity lost" |}.

Definition set_heartbeat (t : Z) (c : NodeCondition) : NodeCondition :=
  {| nc_Type := nc_Type c; nc_Status := nc_Status c; nc_LastHeartbeatTime := t; nc_LastTransitionTime := nc_LastTransitionTime c;
     nc_Reason := nc_Reason c; nc_Message := nc_Message c |}.
(** A condition that changes now. *)
Definition at_time (t : Z) (c : NodeCondition) : NodeCondition :=
  {| nc_Type := nc_Type c; nc_Status := nc_Status c; nc_LastHeartbeatTime := t; nc_LastTransitionTime := t;
     nc_Reason := nc_Reason c; nc_Message := nc_Message c |}.

(** What the loop over the conditions keeps: heartBeatRemain, whether the condition was found, updateStatus. *)
Record progress := { p_remain : Z; p_found : bool; p_update : bool }.

Section NodeStatus.
Context {W : Type} `{Cluster W} (c : Config).

Definition visit (expected : NodeCondition) (t : Z) (cur : NodeCondition) (p : progress) : NodeCondition * progress :=
  if decide (nc_Type expected ≠ nc_Type cur) then (cur, p)
  else if decide (nc_Status expected = nc_Status cur) then
    if LeaseEnabled c then (cur, {| p_remain := p_remain p; p_found := true; p_update := p_update p |})
    else
      let remain := nc_LastHeartbeatTime cur + MirrorSyncInterval c - t in
      (set_heartbeat t cur, {| p_remain := if remain <? p_remain p then remain else p_remain p; p_found := true; p_update := p_update p |})
  else (at_time t expected, {| p_remain := p_remain p; p_found := true; p_update := true |}).
Fixpoint visit_all (expected : NodeCondition) (t : Z) (l : list NodeCondition) (p : progress) : list NodeCondition * progress :=
  match l with
  | [] => ([], p)
  | cur :: l => let '(cur, p) := visit expected t cur p in let '(l, p) := visit_all expected t l p in (cur :: l, p)
  end.
Fixpoint resolve_conditions (expected : list NodeCondition) (t : Z) (l : list NodeCondition) (remain : Z) (update : bool) :
    list NodeCondition * Z * bool :=
  match expected with
  | [] => (l, remain, update)
  | e :: expected =>
      let '(l, p) := visit_all e t l {| p_remain := remain; p_found := false; p_update := update |} in
      if p_found p then resolve_conditions expected t l (p_remain p) (p_update p)
      else resolve_conditions expected t (l ++ [at_time t e]) (p_remain p) true
  end.

(** The status of the node of a connected device, whether it is to be written, and when to look again at the latest. *)
Definition connected_status (expected : NodeStatus) (pods : list Pod) (t : Z) (s : NodeStatus) : NodeStatus * bool * option Z :=
  let allocatable := getAllocatable (ns_Capacity expected) pods in
  let cap_ok := checkNodeResourcesEqual (ns_Capacity expected) (ns_Capacity s) in
  let all_ok := checkNodeResourcesEqual allocatable (ns_Allocatable s) in
  let info_ok := checkNodeInfoEqual (ns_NodeInfo expected) (ns_NodeInfo s) in
  let phase_ok := bool_decide (ns_Phase s = NodeRunning) in
  let '(conds, remain, update) :=
    resolve_conditions (ns_Conditions expected) t (ns_Conditions s) 0 (negb (cap_ok && all_ok && info_ok && phase_ok)) in
  let s := {| ns_Phase := NodeRunning; ns_Capacity := if cap_ok then ns_Capacity s else ns_Capacity expected; ns_Conditions := conds;
              ns_NodeInfo := if info_ok then ns_NodeInfo s else ns_NodeInfo expected;
              ns_Allocatable := if all_ok then ns_Allocatable s else allocatable;
              ns_Addresses := ns_Addresses s; ns_KubeletPort := ns_KubeletPort s |} in
  if LeaseEnabled c then (s, update, None)
  else if remain <? Z.quot (MirrorSyncInterval c) 5 then (s, true, None)
  else (s, update, Some (Z.quot (remain * 4) 5)).

(** The conditions of the node of a device that is not connected: the first Ready condition is not true. *)
Fixpoint not_ready (t : Z) (l : list NodeCondition) : list NodeCondition * bool :=
  match l with
  | [] => ([newNodeNotReadyCondition t], true)
  | x :: l =>
      if decide (nc_Type x = NodeReady) then
        if decide (nc_Status x = ConditionUnknown ∨ nc_Status x = ConditionFalse) then (x :: l, false)
        else (newNodeNotReadyCondition t :: l, true)
      else let '(l, u) := not_ready t l in (x :: l, u)
  end.
Definition disconnected_status (t : Z) (s : NodeStatus) : NodeStatus * bool :=
  let '(conds, update) := not_ready t (ns_Conditions s) in
  ({| ns_Phase := ns_Phase s; ns_Capacity := ns_Capacity s; ns_Conditions := conds; ns_NodeInfo := ns_NodeInfo s;
      ns_Allocatable := ns_Allocatable s; ns_Addresses := ns_Addresses s; ns_KubeletPort := ns_KubeletPort s |}, update).

(** The node with the labels and annotations it misses, and whether there are any. *)
Definition with_metadata (vn : VirtualNode) (node : Node) : Node * bool :=
  let expected := NodeCache.RetrieveStatus (vn_nodeStatusCache vn) (node_Status node) in
  let '(extLabels, extAnnotations) := NodeCache.RetrieveExtInfo (vn_nodeStatusCache vn) in
  let '(setLabels, setAnnotations) :=
    getNodeLabelsAndAnnotationsToSet (node_Labels node) (node_Annotations node) (ns_NodeInfo expected) extLabels extAnnotations in
  if decide (setLabels = ∅ ∧ setAnnotations = ∅) then (node, false)
  else (set_node_metadata (set_all (node_Labels node) setLabels) (set_all (node_Annotations node) setAnnotations) node, true).

(** The status part: the node to write, whether to write it, and when to look again. *)
Definition with_status (vn : VirtualNode) (expected : NodeStatus) (pods : list Pod) (t : Z) (node : Node) : Node * bool * option Z :=
  if vn_Connected vn then
    let '(s, update, after) := connected_status expected pods t (node_Status node) in (set_node_status s node, update, after)
  else let '(s, update) := disconnected_status t (node_Status node) in (set_node_status s node, update, None).

Definition onNodeStatusUpdated (newObj : Node) (w : W) : W * Result :=
  let name := node_Name newObj in
  match doNodeResourcePreCheck name w with
  | None => (w, RNil)
  | Some vn =>
      (* nil maps are made empty ones *)
      let node := set_node_metadata (Some (default ∅ (node_Labels newObj))) (Some (default ∅ (node_Annotations newObj))) newObj in
      let expected := NodeCache.RetrieveStatus (vn_nodeStatusCache vn) (node_Status node) in
      let '(updateNode, changed) := with_metadata vn node in
      let '(w, err) := if changed : bool then node_Patch node updateNode w else (w, None) in
      match err with
      | Some e => (w, RErr (ke_Text e))
      | None =>
          let '(node, updateStatus, after) := with_status vn expected (tenantPodsForNode name w) (now w) updateNode in
          let ret := match after with None => RNil | Some d => RNext ActionUpdate d end in
          if negb updateStatus then (w, ret)
          else
            match node_UpdateStatus node w with
            | (w, Some e) => (w, RErr (ke_Text e))
            | (w, None) => (w, ret)
            end
      end
  end.

(** ** Conditions *)

(** A list of conditions agrees with an expected one: it has its type, always with its status. *)
Definition agrees (e : NodeCondition) (l : list NodeCondition) : Prop :=
  nc_Type e ∈ nc_Type <$> l ∧ ∀ x, x ∈ l → nc_Type x = nc_Type e → nc_Status x = nc_Status e.

Lemma visit_all_spec e t l p l' p' :
  visit_all e t l p = (l', p') →
  nc_Type <$> l' = nc_Type <$> l ∧ (p_found p' = true ↔ p_found p = true ∨ nc_Type e ∈ nc_Type <$> l) ∧
  (∀ x, x ∈ l' → nc_Type x = nc_Type e → nc_Status x = nc_Status e) ∧
  (∀ x, x ∈ l' → nc_Type x ≠ nc_Type e → x ∈ l) ∧
  (p_update p = true → p_update p' = true) ∧ p_remain p' <= p_remain p.
Proof.
  revert p l' p'. induction l as [|cur l IH]; intros p l' p'; cbn [visit_all].
  { intros [= <- <-]. split_and!; [done| |by intros ? ?%elem_of_nil..|done|lia].
    split; [by left|]. by intros [?|?%elem_of_nil]. }
  destruct (visit e t cur p) as [cur1 p1] eqn:Hv. destruct (visit_all e t l p1) as [l1 p2] eqn:Hl. intros [= <- <-].
  destruct (IH p1 l1 p2 Hl) as (IH1 & IH2 & IH3 & IH4 & IH5 & IH6).
  assert (nc_Type cur1 = nc_Type cur ∧ (p_found p1 = true ↔ p_found p = true ∨ nc_Type e = nc_Type cur) ∧
    (nc_Type cur1 = nc_Type e → nc_Status cur1 = nc_Status e) ∧ (nc_Type cur1 ≠ nc_Type e → cur1 = cur) ∧
    (p_update p = true → p_update p1 = true) ∧ p_remain p1 <= p_remain p) as (V1 & V2 & V3 & V4 & V5 & V6).
  { unfold visit in Hv. clear -Hv.
    repeat (case_decide || case_match); simplify_eq/=; split_and!; try done; try naive_solver; bool_to_Z; lia. }
  cbn [fmap list_fmap]. rewrite V1. split_and!; [by f_equal| |intros x|intros x|by auto|lia].
  - rewrite IH2, V2, elem_of_cons. naive_solver.
  - rewrite elem_of_cons. intros [->|Hx]; [done|by apply IH3].
  - rewrite !elem_of_cons. intros [->|Hx] Hne; [left; by apply V4|right; by apply IH4].
Qed.

Lemma visit_all_agrees e t l p :
  LeaseEnabled c = true → agrees e l →
  visit_all e t l p = (l, {| p_remain := p_remain p; p_found := true; p_update := p_update p |}).
Proof.
  intros Hle [Hin Hst]. assert (∀ x, x ∈ l → nc_Type x = nc_Type e → nc_Status x = nc_Status e) as H1 by done. clear Hst.
  assert (∀ l p, (∀ x, x ∈ l → nc_Type x = nc_Type e → nc_Status x = nc_Status e) →
    visit_all e t l p = (l, {| p_remain := p_remain p; p_found := p_found p || bool_decide (nc_Type e ∈ nc_Type <$> l); p_update := p_update p |})) as Hg.
  { clear Hin H1 l p. induction l as [|cur l IH]; intros p Hst; cbn [visit_all].
    - destruct p as [r f u]. cbn. by rewrite orb_false_r.
    - unfold visit at 1. destruct (decide (nc_Type e ≠ nc_Type cur)) as [Hd|Hd].
      + cbv beta iota. rewrite IH by (intros x Hx; apply Hst; by right). do 3 f_equal. apply bool_decide_ext.
        cbn [fmap list_fmap]. rewrite elem_of_cons. naive_solver.
      + assert (nc_Type cur = nc_Type e) as Ht by (symmetry; by apply dec_stable).
        rewrite decide_True, Hle by (symmetry; apply Hst; [by left|done]). cbv beta iota.
        rewrite IH by (intros x Hx; apply Hst; by right). cbn [p_found p_remain p_update orb].
        rewrite (bool_decide_true (nc_Type e ∈ nc_Type <$> cur :: l)) by (cbn [fmap list_fmap]; rewrite Ht; left).
        by rewrite orb_true_r. }
  rewrite Hg by done. by rewrite bool_decide_true, orb_true_r.
Qed.

Lemma agrees_types e l l' :
  nc_Type <$> l' = nc_Type <$> l → (∀ x, x ∈ l' → nc_Type x = nc_Type e → x ∈ l) → agrees e l → agrees e l'.
Proof. intros Ht Hx [H1 H2]. split; [by rewrite Ht|]. intros x Hin Hty. apply H2; auto. Qed.
Lemma agrees_app e l x : agrees e l → nc_Type x ≠ nc_Type e → agrees e (l ++ [x]).
Proof.
  intros [H1 H2] Hne. split; [rewrite fmap_app, elem_of_app; by left|].
  intros y [Hy|Hy]%elem_of_app Ht; [by apply H2|]. apply list_elem_of_singleton in Hy as ->. done.
Qed.

(** The result agrees with all expected conditions when they have different types, and with what agreed before with other ones. *)
Lemma resolve_conditions_agrees expected t l remain update l' r' u' :
  NoDup (nc_Type <$> expected) → resolve_conditions expected t l remain update = (l', r', u') →
  Forall (λ e, agrees e l') expected ∧ ∀ e, nc_Type e ∉ nc_Type <$> expected → agrees e l → agrees e l'.
Proof.
  revert l remain update. induction expected as [|e expected IH]; intros l remain update Hnd; cbn [resolve_conditions].
  { intros [= <- <- <-]. by split. }
  cbn [fmap list_fmap] in *. apply NoDup_cons in Hnd as [Hni Hnd]. destruct (visit_all e t l _) as [l1 p] eqn:Hv.
  destruct (visit_all_spec _ _ _ _ _ _ Hv) as (V1 & V2 & V3 & V4 & _ & _). cbn in V2.
  assert (∀ e', nc_Type e' ∉ nc_Type e :: (nc_Type <$> expected) → agrees e' l → agrees e' l1) as Hkeep.
  { intros e' He'. apply agrees_types; [done|]. intros x Hx Ht. apply V4; [done|].
    intros Heq. apply He'. rewrite <-Ht, Heq. left. }
  destruct (p_found p) eqn:Hf; intros Hr; destruct (IH _ _ _ Hnd Hr) as [HA HK].
  - split; [constructor; [|done]|].
    + apply HK; [done|]. split; [rewrite V1; destruct V2 as [V2 _]; by destruct (V2 eq_refl)|done].
    + intros e' He' Ha. apply HK; [intros Hin; apply He'; by right|by apply Hkeep].
  - split; [constructor; [|done]|].
    + apply HK; [done|]. split; [rewrite fmap_app, elem_of_app; right; left|].
      intros x [Hx|Hx]%elem_of_app Ht; [by apply V3|]. by apply list_elem_of_singleton in Hx as ->.
    + intros e' He' Ha. apply HK; [intros Hin; apply He'; by right|].
      apply agrees_app; [by apply Hkeep|]. cbn. intros Heq. apply He'. rewrite <-Heq. left.
Qed.
Lemma resolve_conditions_settled expected t l remain :
  LeaseEnabled c = true → Forall (λ e, agrees e l) expected →
  resolve_conditions expected t l remain false = (l, remain, false).
Proof.
  intros Hle. induction 1 as [|e expected He _ IH]; cbn [resolve_conditions]; [done|].
  rewrite visit_all_agrees by done. exact IH.
Qed.
Lemma resolve_conditions_remain expected t l remain update l' r' u' :
  resolve_conditions expected t l remain update = (l', r', u') → r' <= remain.
Proof.
  revert l remain update. induction expected as [|e expected IH]; intros l remain update; cbn [resolve_conditions]; [intros [= <- <- <-]; lia|].
  destruct (visit_all e t l _) as [l1 p] eqn:Hv. destruct (visit_all_spec _ _ _ _ _ _ Hv) as (_ & _ & _ & _ & _ & V6).
  cbn in V6. destruct (p_found p); intros Hr; apply IH in Hr; lia.
Qed.

Lemma not_ready_settled t t' l : not_ready t' (not_ready t l).1 = ((not_ready t l).1, false).
Proof.
  induction l as [|x l IH]; [done|]. cbn [not_ready]. destruct (decide (nc_Type x = NodeReady)) as [Ht|Ht].
  - destruct (decide _) as [Hs|Hs]; cbn [fst not_ready]; [by rewrite !decide_True|done].
  - destruct (not_ready t l) as [l1 u]. cbn [fst not_ready] in *. by rewrite decide_False, IH.
Qed.

Lemma resources_equal_refl a : checkNodeResourcesEqual a a = true.
Proof. unfold checkNodeResourcesEqual. cbn [forallb]. by rewrite !Z.eqb_refl. Qed.

Definition cached (vn : VirtualNode) : NodeStatus := NodeCache.status (vn_nodeStatusCache vn).
Definition expected_of (vn : VirtualNode) (node : Node) : NodeStatus := NodeCache.RetrieveStatus (vn_nodeStatusCache vn) (node_Status node).

(** A written status is not written again. *)
Lemma connected_status_settled vn node pods t t' s u after node' :
  LeaseEnabled c = true → NoDup (nc_Type <$> ns_Conditions (cached vn)) →
  connected_status (expected_of vn node) pods t (node_Status node) = (s, u, after) →
  connected_status (expected_of vn node') pods t' s = (s, false, None) ∧ after = None.
Proof.
  intros Hle Hnd. unfold connected_status.
  change (ns_Capacity (expected_of vn node')) with (ns_Capacity (cached vn)).
  change (ns_Conditions (expected_of vn node')) with (ns_Conditions (cached vn)).
  change (ns_NodeInfo (expected_of vn node')) with (ns_NodeInfo (cached vn)).
  change (ns_Capacity (expected_of vn node)) with (ns_Capacity (cached vn)).
  change (ns_Conditions (expected_of vn node)) with (ns_Conditions (cached vn)).
  change (ns_NodeInfo (expected_of vn node)) with (ns_NodeInfo (cached vn)).
  destruct (resolve_conditions _ t (ns_Conditions (node_Status node)) 0 _) as [ [conds remain] update] eqn:Hr.
  rewrite Hle. intros [= <- <- <-]. cbn [ns_Phase ns_Capacity ns_Conditions ns_NodeInfo ns_Allocatable ns_Addresses ns_KubeletPort].
  destruct (resolve_conditions_agrees _ _ _ _ _ _ _ _ Hnd Hr) as [Ha _].
  assert (∀ cap a, checkNodeResourcesEqual cap (if checkNodeResourcesEqual cap a then a else cap) = true) as Heq.
  { intros cap a. destruct (checkNodeResourcesEqual cap a) eqn:E; [done|apply resources_equal_refl]. }
  assert (∀ i a, checkNodeInfoEqual i (if checkNodeInfoEqual i a then a else i) = true) as Hinfo.
  { intros i a. destruct (checkNodeInfoEqual i a) eqn:E; [done|by apply bool_decide_true]. }
  rewrite !Heq, Hinfo. cbn [andb]. rewrite bool_decide_true by done. cbn [andb negb].
  rewrite resolve_conditions_settled by done. done.
Qed.

Lemma with_status_settled vn node pods t t' node1 u after node2 :
  LeaseEnabled c = true → NoDup (nc_Type <$> ns_Conditions (cached vn)) →
  with_status vn (expected_of vn node) pods t node1 = (node2, u, after) → node_Status node1 = node_Status node →
  with_status vn (expected_of vn node2) pods t' node2 = (node2, false, None) ∧ after = None ∧
  node_Labels node2 = node_Labels node1 ∧ node_Annotations node2 = node_Annotations node1 ∧ node_Name node2 = node_Name node1.
Proof.
  intros Hle Hnd. unfold with_status. intros Hw Hs. rewrite Hs in Hw. destruct (vn_Connected vn).
  - destruct (connected_status _ pods t _) as [ [s u'] after'] eqn:Hc. simplify_eq.
    destruct (connected_status_settled vn node pods t t' s u after (set_node_status s node1) Hle Hnd Hc) as [H1 ->].
    cbn [set_node_status node_Status]. by rewrite H1.
  - unfold disconnected_status in *. pose proof (not_ready_settled t t' (ns_Conditions (node_Status node))) as Hn.
    destruct (not_ready t _) as [l1 u1]. simplify_eq. cbn [set_node_status node_Status ns_Conditions fst] in *. by rewrite Hn.
Qed.

Lemma with_metadata_settled vn node node1 changed :
  with_metadata vn node = (node1, changed) → is_Some (node_Labels node) → is_Some (node_Annotations node) →
  node_Status node1 = node_Status node ∧ node_Name node1 = node_Name node ∧ (changed = false → node1 = node) ∧
  is_Some (node_Labels node1) ∧ is_Some (node_Annotations node1) ∧
  ∀ node2, node_Labels node2 = node_Labels node1 → node_Annotations node2 = node_Annotations node1 → with_metadata vn node2 = (node2, false).
Proof.
  unfold with_metadata. destruct (NodeCache.RetrieveExtInfo _) as [ext extA].
  change (ns_NodeInfo (NodeCache.RetrieveStatus (vn_nodeStatusCache vn) (node_Status node))) with (ns_NodeInfo (cached vn)).
  rewrite labels_to_set. intros Hm [l Hl] [a Ha]. rewrite Hl, Ha in Hm. cbn [default] in Hm. unfold id in Hm.
  set (want := wanted_labels (ns_NodeInfo (cached vn)) ext) in *.
  case_decide as Hd; simplify_eq; split_and!; try done; try (rewrite ?Hl, ?Ha; by eexists).
  - intros node2 H1 H2. change (ns_NodeInfo (NodeCache.RetrieveStatus _ (node_Status node2))) with (ns_NodeInfo (cached vn)).
    rewrite labels_to_set, H1, H2, Hl, Ha. by rewrite decide_True.
  - intros node2 H1 H2. change (ns_NodeInfo (NodeCache.RetrieveStatus _ (node_Status node2))) with (ns_NodeInfo (cached vn)).
    rewrite labels_to_set, H1, H2. cbn [set_node_metadata node_Labels node_Annotations set_all default].
    rewrite decide_True; [done|]. split; apply not_set_union.
Qed.

(** The object the handler goes on with: nil maps are made empty ones. *)
Definition with_maps (newObj : Node) : Node := set_node_metadata (Some (default ∅ (node_Labels newObj))) (Some (default ∅ (node_Annotations newObj))) newObj.

(** A node whose labels or annotations change is patched and its status updated in the same round, from the object read before the patch. When
    neither fails, that too is a fixed point. *)
Lemma metadata_and_status_in_one_round newObj vn w w' r :
  LeaseEnabled c = true → doNodeResourcePreCheck (node_Name newObj) w = Some vn →
  NoDup (nc_Type <$> ns_Conditions (cached vn)) →
  onNodeStatusUpdated newObj w = (w', r) → (∀ e, r ≠ RErr e) →
  ∃ node' w1, r = RNil ∧ node_Name node' = node_Name newObj ∧
    (w1 = w ∨ ∃ old m, node_Patch old m w = (w1, None)) ∧ (w' = w1 ∨ node_UpdateStatus node' w1 = (w', None)) ∧
    ∀ w2, doNodeResourcePreCheck (node_Name newObj) w2 = Some vn →
      tenantPodsForNode (node_Name newObj) w2 = tenantPodsForNode (node_Name newObj) w1 →
      onNodeStatusUpdated node' w2 = (w2, RNil).
Proof.
  intros Hle Hvn Hnd. unfold onNodeStatusUpdated at 1. rewrite Hvn.
  set (node := set_node_metadata _ _ newObj). destruct (with_metadata vn node) as [node1 changed] eqn:Hm.
  destruct (with_metadata_settled _ _ _ _ Hm ltac:(by eexists) ltac:(by eexists)) as (M1 & M2 & M3 & [lb Hlb] & [an Han] & M4).
  destruct (if changed : bool then _ else _) as [w1 [e|] ] eqn:Hp; [by intros [= <- <-] Hr; destruct (Hr (ke_Text e))|].
  destruct (with_status vn _ _ _ node1) as [ [node2 u] after] eqn:Hs.
  assert (∀ t', with_status vn (expected_of vn node2) (tenantPodsForNode (node_Name newObj) w1) t' node2 = (node2, false, None)) as Hset.
  { intros t'. exact (proj1 (with_status_settled vn node _ _ t' _ _ _ _ Hle Hnd Hs M1)). }
  destruct (with_status_settled vn node _ _ 0 _ _ _ _ Hle Hnd Hs M1) as (_ & -> & S2 & S3 & S4).
  intros Hr Hne. exists node2, w1.
  assert (r = RNil ∧ (w' = w1 ∨ node_UpdateStatus node2 w1 = (w', None))) as [Hrn Hw].
  { destruct u; cbn [negb] in Hr; [|injection Hr as <- <-; by split; [|left] ].
    destruct (node_UpdateStatus node2 w1) as [w2 [e|] ]; injection Hr as <- <-; [by destruct (Hne (ke_Text e))|by split; [|right] ]. }
  split_and!; [done|by rewrite S4, M2| |done|].
  { destruct changed; [right; exists node, node1; exact Hp|left; by injection Hp]. }
  intros w2 Hvn2 Hpods. unfold onNodeStatusUpdated. rewrite S4, M2. cbn [node set_node_metadata node_Name]. rewrite Hvn2.
  assert (set_node_metadata (Some (default ∅ (node_Labels node2))) (Some (default ∅ (node_Annotations node2))) node2 = node2) as ->.
  { destruct node2. cbn in S2, S3 |- *. rewrite S2, S3, Hlb, Han. done. }
  rewrite (M4 node2 S2 S3). rewrite Hpods. fold (expected_of vn node2). by rewrite Hset.
Qed.

(** Without leases a connected node is written every time: the time that remains is never above the 0 it starts from, so the branch
    that waits is dead code for a positive interval. *)
Lemma heartbeat_always_written vn expected pods t node :
  LeaseEnabled c = false → vn_Connected vn = true → 5 <= MirrorSyncInterval c →
  ∃ node', with_status vn expected pods t node = (node', true, None).
Proof.
  intros Hle Hc Hi. unfold with_status, connected_status. rewrite Hc, Hle.
  destruct (resolve_conditions _ _ _ _ _) as [ [conds remain] update] eqn:Hr. apply resolve_conditions_remain in Hr.
  assert (1 <= Z.quot (MirrorSyncInterval c) 5) by (apply Z.quot_le_lower_bound; lia).
  rewrite (proj2 (Z.ltb_lt _ _)) by lia. by eexists.
Qed.

End NodeStatus.
End NodeStatus.

Module Examples.
Import Allocatable NodeStatus Sample.

Definition res (cpu mem : Z) : ResourceList := <[ResourceCPU := NewMilliQuantity cpu]> {[ResourceMemory := NewQuantity mem]}.
Definition limited (cpu mem : Z) : Container :=
  let k := Samples.ctr "c" "image" [] [] [] in
  {| ctr_Name := ctr_Name k; ctr_Image := ctr_Image k; ctr_Command := []; ctr_Args := []; ctr_WorkingDir := ""; ctr_Ports := [];
     ctr_EnvFrom := []; ctr_Env := []; ctr_VolumeMounts := []; ctr_LivenessProbe := None; ctr_ReadinessProbe := None; ctr_Lifecycle := None;
     ctr_ImagePullPolicy := ""; ctr_SecurityContext := None; ctr_Stdin := false; ctr_TTY := false;
     ctr_Requests := res 100 10; ctr_Limits := res cpu mem |}.
Definition capacity : ResourceList := <[ResourcePods := NewQuantity 5]> (res 2000 1000).
Definition pods2 : list Pod := [Samples.pod "1" "a" (Samples.spec [] [] [limited 1500 0]); Samples.pod "2" "b" (Samples.spec [] [] [limited 0 600])].
(** 1500 and 100 millicores of 2000 (the second limit is zero: the request counts), 10 and 600 bytes of 1000, 2 of 5 pods *)
Lemma getAllocatable_correct_witness :
  let r := getAllocatable capacity pods2 in
  Milli64 ResourceCPU r = 400 ∧ Value64 ResourceMemory r = 390 ∧ Value64 ResourceEphemeralStorage r = 0 ∧ Value64 ResourcePods r = 3.
Proof.
  assert (∀ f cap, forallb (λ x, 0 <=? f x) (containers pods2) && (0 <=? cap) && (cap <? 2 ^ 63) && (- 2 ^ 63 <=? cap - total f (containers pods2)) = true →
    Forall (λ x, 0 <= f x) (containers pods2) ∧ 0 <= cap < 2 ^ 63 ∧ - 2 ^ 63 <= cap - total f (containers pods2)) as Hf.
  { intros f cap Hb. rewrite !andb_true_iff in Hb. destruct Hb as [ [ [H1 H2] H3] H4]. apply Z.leb_le in H2, H4. apply Z.ltb_lt in H3.
    split_and!; try lia. apply Forall_forall. rewrite forallb_forall in H1. intros x Hx. apply Z.leb_le, H1. by apply list_elem_of_In. }
  assert (H := getAllocatable_correct capacity pods2). cbv zeta in H.
  destruct H as (H1 & H2 & H3 & H4);
    [apply Hf; vm_compute; reflexivity..|vm_compute; split; congruence|vm_compute; congruence|].
  cbv zeta. rewrite H1, H2, H3, H4. vm_compute. by split_and!.
Defined.

(** a device that reports two conditions, one of which the node has with another status *)
Definition cond (type status : string) : NodeCondition :=
  {| nc_Type := type; nc_Status := status; nc_LastHeartbeatTime := 0; nc_LastTransitionTime := 0; nc_Reason := ""; nc_Message := "" |}.
Definition cache : NodeCache.NodeCache :=
  NodeCache.UpdateConditions [cond NodeReady ConditionTrue; cond NodeDiskPressure ConditionFalse]
    (NodeCache.UpdateCapacity capacity (NodeCache.newNodeCache ∅ ∅)).
Definition vn0 : VirtualNode := vnode cache.
Definition node0 : Node := NodeObject.NodeObject.newNodeForEdgeDevice config (device "dev" ∅ [] []) 10250.
(** its node, with the labels and annotations of the device *)
Definition node1 : Node := (with_metadata vn0 (with_maps node0)).1.
End Examples.
