(* ===== verification/NodeLease.v ===== *)
(** * Node leases

    src/pkg/controller/edgedevice/node_lease.go, and the renewal of leases by updateLeaseWithRetry of
    src/pkg/virtualnode/manager.go. A lease is read through the informer's store or the API server and normalised to one version. *)
From S2P Require Import Prelude GoNet K8s Api Caches Cluster NodeObject.
Open Scope Z_scope.

Module NodeLease.
Import NodeObject(to_result).
Section NodeLease.
Context {W : Type} `{Cluster W} (c : Config).

(** The owner of a lease and the rest: (ownerOk, generalOk). *)
Definition owner_ok (lease : Lease) (node : Node) (ref : OwnerReference) : bool :=
  bool_decide (ref_Name ref = le_Name lease) && bool_decide (ref_Controller ref = None) && bool_decide (ref_UID ref = node_UID node) &&
  bool_decide (ref_Kind ref = "Node") && bool_decide (ref_APIVersion ref = "v1").
Definition general_ok (lease : Lease) (node : Node) : bool :=
  bool_decide (le_HolderIdentity lease = Some (node_Name node)) && bool_decide (le_LeaseDurationSeconds lease = Some (LeaseSeconds c)) &&
  bool_decide (map_get (le_Labels lease) LabelRole = LabelRoleValueNodeLease) &&
  bool_decide (map_get (le_Labels lease) LabelNamespace = SysNS c).
Definition checkNodeLeaseUpToDate (lease : Lease) (node : Node) (w : W) : bool * bool :=
  match doNodeResourcePreCheck (le_Name lease) w with
  | None => (true, true)
  | Some _ =>
      match le_OwnerReferences lease with
      | [ref] =>
          if decide (default ∅ (le_Labels lease) = ∅) then (owner_ok lease node ref, false)
          else (owner_ok lease node ref, general_ok lease node)
      | _ => (false, false)
      end
  end.

Definition newLeaseForNode (node : Node) (t : Z) : Lease := {|
  le_Name := node_Name node; le_Labels := Some (<[LabelRole := LabelRoleValueNodeLease]> {[LabelNamespace := SysNS c]});
  le_OwnerReferences := [{| ref_APIVersion := "v1"; ref_Kind := "Node"; ref_Name := node_Name node; ref_UID := node_UID node; ref_Controller := None |}];
  le_HolderIdentity := Some (node_Name node); le_LeaseDurationSeconds := Some (LeaseSeconds c); le_AcquireTime := Some t; le_RenewTime := Some t |}.

(** The old lease with the labels and the specification of the new one; its owner is not touched. *)
Definition updated_lease (oldLease lease : Lease) : Lease := {|
  le_Name := le_Name oldLease; le_Labels := set_all (le_Labels oldLease) (default ∅ (le_Labels lease));
  le_OwnerReferences := le_OwnerReferences oldLease; le_HolderIdentity := le_HolderIdentity lease;
  le_LeaseDurationSeconds := le_LeaseDurationSeconds lease; le_AcquireTime := le_AcquireTime lease; le_RenewTime := le_RenewTime lease |}.

Definition create_lease (lease : Lease) (w : W) : W * option string :=
  match lease_Create lease w with
  | (w, None) => (w, None)
  | (w, Some e) => (w, Some ("failed to create node lease: " +:+ ke_Text e))
  end.
Definition ensureNodeLease (node : Node) (w : W) : W * option string :=
  if negb (LeaseEnabled c) then (w, None) else
  let name := node_Name node in
  let lease := newLeaseForNode node (now w) in
  match getNodeLeaseObject name w with
  | None => create_lease lease w
  | Some oldLease =>
      let '(ownerOk, ok) := checkNodeLeaseUpToDate oldLease node w in
      if ownerOk && ok then (w, None)
      else
        let clone := updated_lease oldLease lease in
        match (if ownerOk then lease_Patch oldLease clone w else lease_Update clone w) with
        | (w, None) => (w, None)
        | (w, Some e) =>
            if ke_Conflict e then (w, Some (ke_Text e))
            else
              match lease_Delete name w with
              | (w, Some e) => if ke_NotFound e then create_lease lease w
                               else (w, Some ("failed to delete old node lease: " +:+ ke_Text e))
              | (w, None) => create_lease lease w
              end
        end
  end.

(** ** The handlers *)

Definition onNodeLeaseEnsureRequest (name : string) (w : W) : W * Result :=
  match getNodeObject name w with
  | inr _ => (w, match getEdgeDeviceObject name w with None => RNil | Some _ => RErr "waiting for node object" end)
  | inl node => let '(w, err) := ensureNodeLease node w in (w, to_result err)
  end.
Definition onNodeLeaseUpdated (lease : Lease) (w : W) : W * Result :=
  let name := le_Name lease in
  match doNodeResourcePreCheck name w, getNodeObject name w with
  | Some _, inl node =>
      let '(ownerOk, generalOk) := checkNodeLeaseUpToDate lease node w in
      if ownerOk && generalOk then (w, RNil) else let '(w, err) := ensureNodeLease node w in (w, to_result err)
  | _, _ => (w, RNil)
  end.
Definition onNodeLeaseDeleting (lease : Lease) (w : W) : W * Result :=
  match lease_Delete (le_Name lease) w with
  | (w, Some e) => (w, if ke_NotFound e then RNil else RErr (ke_Text e))
  | (w, None) => (w, RNil)
  end.
Definition onNodeLeaseDeleted (lease : Lease) (w : W) : W * Result :=
  let name := le_Name lease in
  match doNodeResourcePreCheck name w, getNodeObject name w with
  | Some _, inl node => let '(w, err) := ensureNodeLease node w in (w, to_result err)
  | _, _ => (w, RNil)
  end.

(** updateLeaseWithRetry: at most [tries] rounds; the lease comes from the cache, or from the API server after a conflict or
    when it is not cached. The error is the one of the last round. *)
Definition renew (lease : Lease) (t : Z) : Lease :=
  {| le_Name := le_Name lease; le_Labels := le_Labels lease; le_OwnerReferences := le_OwnerReferences lease;
     le_HolderIdentity := le_HolderIdentity lease; le_LeaseDurationSeconds := le_LeaseDurationSeconds lease;
     le_AcquireTime := le_AcquireTime lease; le_RenewTime := Some t |}.
Fixpoint update_lease_loop (tries : nat) (name : string) (requireLatestLease : bool) (err : option string) (w : W) : W * option string :=
  match tries with
  | O => (w, err)
  | S tries =>
      let lease := match (if requireLatestLease then None else getNodeLeaseObject name w) with
                   | Some l => inl l
                   | None => lease_Get name w
                   end in
      match lease with
      | inr e => update_lease_loop tries name requireLatestLease (Some (ke_Text e)) w
      | inl lease =>
          match lease_Update (renew lease (now w)) w with
          | (w, None) => (w, None)
          | (w, Some e) => update_lease_loop tries name (ke_Conflict e) (Some (ke_Text e)) w
          end
      end
  end.
Definition updateLeaseWithRetry (name : string) (w : W) : W * option string := update_lease_loop 5 name false None w.

(** ** What the lease is afterwards *)
Context `{!ClusterLaws W}.

Lemma updated_general old node t : le_Name old = node_Name node → general_ok (updated_lease old (newLeaseForNode node t)) node = true.
Proof.
  intros Hn. unfold general_ok. cbn [updated_lease newLeaseForNode le_HolderIdentity le_LeaseDurationSeconds le_Labels default].
  rewrite !bool_decide_true; [done| | |done|done]; unfold id; destruct (le_Labels old) as [m|]; cbn [set_all]; unfold map_get;
    cbn [mbind option_bind default]; unfold id.
  - by rewrite (lookup_union_Some_l _ _ _ (SysNS c)) by (by rewrite lookup_insert_ne, lookup_singleton_eq by done).
  - by rewrite lookup_insert_ne, lookup_singleton_eq by done.
  - by rewrite (lookup_union_Some_l _ _ _ LabelRoleValueNodeLease) by apply lookup_insert_eq.
  - by rewrite lookup_insert_eq.
Qed.
Lemma new_up_to_date node t w :
  is_Some (doNodeResourcePreCheck (node_Name node) w) → checkNodeLeaseUpToDate (newLeaseForNode node t) node w = (true, true).
Proof.
  intros [vn Hvn]. unfold checkNodeLeaseUpToDate. cbn [newLeaseForNode le_Name le_OwnerReferences]. rewrite Hvn.
  unfold owner_ok, general_ok. cbn [ref_Name ref_Controller ref_UID ref_Kind ref_APIVersion le_Name le_HolderIdentity le_LeaseDurationSeconds le_Labels].
  rewrite decide_False.
  - rewrite !bool_decide_true; try done.
  - cbn [default]. unfold id. apply insert_non_empty.
Qed.
Lemma create_lease_stores lease w w' : create_lease lease w = (w', None) → lease_Get (le_Name lease) w' = inl lease.
Proof. unfold create_lease. destruct (lease_Create lease w) as [w1 [e|] ] eqn:Hc; [done|]. intros [= <-]. by eapply lease_Create_stores. Qed.

(** When ensureNodeLease succeeds, the lease of the node in the API server is up to date: it is the old one if nothing was wrong with
    it; without an old one, or when it could not be changed, it is a new lease owned by the node; otherwise it is the old one with
    the wanted holder, duration and labels, and with its old owner, whether that is the node or not. *)
Lemma ensureNodeLease_correct node w w' :
  LeaseEnabled c = true → is_Some (doNodeResourcePreCheck (node_Name node) w) →
  (∀ old, getNodeLeaseObject (node_Name node) w = Some old → le_Name old = node_Name node ∧ lease_Get (node_Name node) w = inl old) →
  ensureNodeLease node w = (w', None) →
  ∃ l, lease_Get (node_Name node) w' = inl l ∧
    match getNodeLeaseObject (node_Name node) w with
    | None => l = newLeaseForNode node (now w)
    | Some old =>
        (w' = w ∧ l = old ∧ checkNodeLeaseUpToDate old node w = (true, true)) ∨ l = newLeaseForNode node (now w) ∨
        (general_ok l node = true ∧ le_OwnerReferences l = le_OwnerReferences old ∧ le_Name l = le_Name old)
    end.
Proof.
  intros Hle Hvn Hold. unfold ensureNodeLease. rewrite Hle. cbn [negb].
  set (lease := newLeaseForNode node (now w)). destruct (getNodeLeaseObject (node_Name node) w) as [old|].
  2: { intros Hc. exists lease. split; [by apply (create_lease_stores lease) in Hc|done]. }
  destruct (Hold old eq_refl) as [Hname Hget]. destruct (checkNodeLeaseUpToDate old node w) as [ownerOk ok] eqn:Hck.
  destruct (ownerOk && ok) eqn:Hb.
  { intros [= <-]. apply andb_true_iff in Hb as [-> ->]. exists old. by split; [|left]. }
  destruct (if ownerOk then _ else _) as [w1 [e|] ] eqn:Hw.
  - destruct (ke_Conflict e); [done|].
    destruct (lease_Delete (node_Name node) w1) as [w2 [e'|] ]; [destruct (ke_NotFound e'); [|done]|]; intros Hc; exists lease;
      (split; [by apply (create_lease_stores lease) in Hc|by right; left]).
  - intros [= <-]. exists (updated_lease old lease). split.
    + rewrite <-Hname. change (le_Name old) with (le_Name (updated_lease old lease)).
      destruct ownerOk; [eapply (lease_Patch_applies old)|by eapply lease_Update_stores]; [|exact Hw]. cbn. by rewrite Hname.
    + right. right. split_and!; [by apply updated_general|done|done].
Qed.

(** A lease with a wrong owner is written again and again: the update that succeeds does not repair the owner. *)
Lemma wrong_owner_kept old node t w :
  is_Some (doNodeResourcePreCheck (le_Name old) w) → (checkNodeLeaseUpToDate old node w).1 = false →
  (checkNodeLeaseUpToDate (updated_lease old (newLeaseForNode node t)) node w).1 = false.
Proof.
  intros [vn Hvn]. unfold checkNodeLeaseUpToDate. cbn [updated_lease le_Name le_OwnerReferences]. rewrite Hvn.
  destruct (le_OwnerReferences old) as [|ref [|? ?] ]; try done. intros Ho. by repeat case_decide.
Qed.

(** ** Renewal *)

(** A renewal that succeeds has stored a lease renewed at the time of its last round; one that fails made five attempts. *)
Lemma update_lease_loop_spec tries name latest err w w' r :
  update_lease_loop tries name latest err w = (w', r) → (tries = 0%nat → is_Some err) →
  match r with
  | None => ∃ l t, lease_Get (le_Name l) w' = inl l ∧ le_RenewTime l = Some t
  | Some _ => True
  end.
Proof.
  revert latest err w. induction tries as [|tries IH]; intros latest err w; cbn [update_lease_loop].
  { intros [= <- <-] He. by destruct (He eq_refl) as [e ->]. }
  intros Hr _. destruct (match _ with Some l => inl l | None => lease_Get name w end) as [l|e].
  - destruct (lease_Update (renew l (now w)) w) as [w1 [e|] ] eqn:Hu; [by eapply IH|].
    injection Hr as <- <-. exists (renew l (now w)), (now w). split; [by eapply lease_Update_stores|done].
  - by eapply IH.
Qed.

End NodeLease.
End NodeLease.

Module Examples.
Import NodeLease Sample.
Definition node : Node := NodeObject.newNodeForEdgeDevice config (device "dev" ∅ [] []) 10250.
(** a lease whose owner is another node *)
Definition foreign : Lease :=
  {| le_Name := "dev"; le_Labels := None;
     le_OwnerReferences := [{| ref_APIVersion := "v1"; ref_Kind := "Node"; ref_Name := "other"; ref_UID := "9"; ref_Controller := None |}];
     le_HolderIdentity := None; le_LeaseDurationSeconds := None; le_AcquireTime := None; le_RenewTime := None |}.
Definition w0 : World := world [node] [foreign] (device "dev" ∅ [] []) (vnode (NodeCache.newNodeCache ∅ ∅)).
Definition ensured : World * option string := ensureNodeLease config node w0.
Lemma ensureNodeLease_correct_witness : ∃ l, ensured.2 = None ∧ lease_Get "dev" ensured.1 = inl l ∧
  general_ok config l node = true ∧ le_OwnerReferences l = le_OwnerReferences foreign.
Proof.
  destruct ensured as [w' r] eqn:Hr. assert (ensured.2 = None) as Hnil by (vm_compute; reflexivity). rewrite Hr in Hnil. cbn in Hnil. subst r.
  destruct (ensureNodeLease_correct config node w0 w') as (l & Hl & Hc);
    [reflexivity|vm_compute; eexists; reflexivity|intros old Hold; vm_compute in Hold; injection Hold as <-; split; vm_compute; reflexivity|exact Hr|].
  exists l. assert (lease_Get "dev" ensured.1 = inl (updated_lease foreign (newLeaseForNode config node 1000))) as Hg by (vm_compute; reflexivity).
  rewrite Hr in Hg. cbn [fst] in Hg. change (node_Name node) with "dev" in Hl. rewrite Hg in Hl. injection Hl as <-.
  split_and!; [done|exact Hg|vm_compute; reflexivity|reflexivity].
Defined.
End Examples.
