(* ===== verification/VirtualNode.v ===== *)
(** * Virtual nodes

    src/pkg/virtualnode/remote_actions.go (what a device reports of its node, and the messages that belong to no session),
    src/pkg/virtualnode/manager.go (the table of virtual nodes and their periodic work, in four timeout queues) and
    src/pkg/virtualnode/network/manager.go (the pod CIDRs). The device and the other managers answer by arguments; what is asked of them
    is recorded. Times and durations are nanoseconds. *)
From S2P Require Import Prelude Session Connectivity K8s Api Caches TimeoutQueue.
Open Scope Z_scope.

(** ** Reports of the device *)
Module NodeReport.

(** aranyagopb.NodeCondition, NodeConditions, NodeResources (unsigned 64-bit) and NodeStatusMsg; the enumeration as its integers *)
Definition NODE_CONDITION_UNKNOWN : Z := 0.
Definition NODE_CONDITION_HEALTHY : Z := 1.
Definition NODE_CONDITION_UNHEALTHY : Z := 2.
Record NodeConditions := { Ready : Z; Memory : Z; Disk : Z; Pid : Z; Network : Z }.
Record NodeResources := { CpuCount : Z; MemoryBytes : Z; StorageBytes : Z }.
Record SystemInfo := {
  Os : string; Arch : string; OsImage : string; KernelVersion : string; MachineId : string; SystemUuid : string; BootId : string
}.
Record NodeStatusMsg := {
  msg_SystemInfo : option SystemInfo; msg_Capacity : option NodeResources; msg_Conditions : option NodeConditions;
  msg_ExtInfo : list NodeCache.NodeExtInfo
}.

Definition translateNodeResourcesCapacity (res : NodeResources) (maxPods : Z) : ResourceList :=
  {[ResourceCPU := NewQuantity (int64 (CpuCount res)); ResourceMemory := NewQuantity (int64 (MemoryBytes res));
    ResourcePods := NewQuantity maxPods; ResourceEphemeralStorage := NewQuantity (int64 (StorageBytes res))]}.

Definition translate (condition : Z) : string :=
  if condition =? NODE_CONDITION_HEALTHY then ConditionFalse
  else if condition =? NODE_CONDITION_UNHEALTHY then ConditionTrue else ConditionUnknown.
Definition translateReady (condition : Z) : string :=
  if condition =? NODE_CONDITION_HEALTHY then ConditionTrue
  else if condition =? NODE_CONDITION_UNHEALTHY then ConditionFalse else ConditionUnknown.
(** The types and the statuses of the result. *)
Definition statuses (cond : NodeConditions) : list (string * string) :=
  [(NodeReady, translateReady (Ready cond)); (NodeMemoryPressure, translate (Memory cond)); (NodeDiskPressure, translate (Disk cond));
   (NodePIDPressure, translate (Pid cond)); (NodeNetworkUnavailable, translate (Network cond))].

(** The loop over the previous conditions, on the transition time of one of the result. *)
Definition transition (now : Z) (current : string * string) (time : Z) (last : NodeCondition) : Z :=
  if negb (bool_decide (nc_Type last = current.1)) then time
  else if bool_decide (nc_Status last = current.2) && negb (nc_LastTransitionTime last =? 0) then nc_LastTransitionTime last
  else now.
Definition translateNodeConditions (now : Z) (prev : list NodeCondition) (cond : NodeConditions) : list NodeCondition :=
  (λ current, let t := foldl (transition now current) 0 prev in
     {| nc_Type := current.1; nc_Status := current.2; nc_LastHeartbeatTime := now;
        nc_LastTransitionTime := if t =? 0 then now else t; nc_Reason := ""; nc_Message := "" |}) <$> statuses cond.

(** *** The transition times of a history of reports *)
Fixpoint reports (prev : list NodeCondition) (l : list (Z * NodeConditions)) : list NodeCondition :=
  match l with [] => prev | (now, cond) :: l => reports (translateNodeConditions now prev cond) l end.
(** What a watcher of one condition notes: its status and when it last became that. *)
Definition watch (f : NodeConditions → string) (seen : string * Z) (report : Z * NodeConditions) : string * Z :=
  if decide (seen.1 = f report.2) then seen else (f report.2, report.1).
Definition watched (f : NodeConditions → string) (first : Z * NodeConditions) (l : list (Z * NodeConditions)) : string * Z :=
  foldl (watch f) (f first.2, first.1) l.
Definition status_of (ty : string) (cond : NodeConditions) : string := default "" (list_to_map (M := gmap string string) (statuses cond) !! ty).
Definition types : list string := [NodeReady; NodeMemoryPressure; NodeDiskPressure; NodePIDPressure; NodeNetworkUnavailable].

Lemma types_NoDup : NoDup types.
Proof. apply (bool_decide_unpack (NoDup _)). vm_compute. exact I. Qed.
Lemma statuses_types cond : statuses cond = (λ ty, (ty, status_of ty cond)) <$> types.
Proof. by destruct cond. Qed.

(** The conditions a history of watchers stands for. *)
Definition conditions (heartbeat : Z) (seen : string → string * Z) : list NodeCondition :=
  (λ ty, {| nc_Type := ty; nc_Status := (seen ty).1; nc_LastHeartbeatTime := heartbeat; nc_LastTransitionTime := (seen ty).2;
            nc_Reason := ""; nc_Message := "" |}) <$> types.

Lemma transition_skip now cur l t : cur.1 ∉ nc_Type <$> l → foldl (transition now cur) t l = t.
Proof.
  revert t. induction l as [|x l IH]; intros t Hn; [done|]. apply not_elem_of_cons in Hn as [Hx Hl]. cbn.
  unfold transition at 2. rewrite bool_decide_false by done. cbn [negb]. by apply IH.
Qed.
Lemma transition_one now cur l t x :
  NoDup (nc_Type <$> l) → x ∈ l → nc_Type x = cur.1 → foldl (transition now cur) t l = transition now cur 0 x.
Proof.
  intros Hnd (l1 & l2 & ->)%list_elem_of_split Hx. rewrite fmap_app in Hnd. cbn in Hnd. apply NoDup_app in Hnd as (_ & Hd & Hnd).
  apply NoDup_cons in Hnd as [Hni _]. rewrite Hx in Hni. rewrite foldl_app. cbn [foldl].
  rewrite (transition_skip now cur l1) by (intros Hin; apply (Hd _ Hin); rewrite Hx; left).
  rewrite transition_skip by done. unfold transition. rewrite bool_decide_true by done. done.
Qed.

Lemma translate_step now hb seen cond :
  (∀ ty, ty ∈ types → (seen ty).2 ≠ 0) → now ≠ 0 →
  translateNodeConditions now (conditions hb seen) cond = conditions now (λ ty, watch (status_of ty) (seen ty) (now, cond)).
Proof.
  intros Hs Hnow. unfold translateNodeConditions. rewrite statuses_types, <- list_fmap_compose. apply list_fmap_ext.
  intros i ty Hi%list_elem_of_lookup_2. cbn [compose].
  assert (nc_Type <$> conditions hb seen = types) as Hty by done.
  rewrite (transition_one _ _ _ _ {| nc_Type := ty; nc_Status := (seen ty).1; nc_LastHeartbeatTime := hb; nc_LastTransitionTime := (seen ty).2;
    nc_Reason := ""; nc_Message := "" |}); [|rewrite Hty; apply types_NoDup|apply list_elem_of_fmap; by exists ty|done].
  unfold transition, watch. cbn [nc_Type nc_Status nc_LastTransitionTime fst snd]. rewrite bool_decide_true by done. cbn [negb].
  specialize (Hs ty Hi). destruct (seen ty) as [s since]. cbn [fst snd] in *. apply Z.eqb_neq in Hs, Hnow. rewrite Hs.
  destruct (decide (s = status_of ty cond)) as [->|Hne].
  - rewrite bool_decide_true by done. cbn. by rewrite Hs.
  - rewrite bool_decide_false by done. cbn. by rewrite Hnow.
Qed.
Lemma conditions_ext hb seen seen' : (∀ ty, ty ∈ types → seen ty = seen' ty) → conditions hb seen = conditions hb seen'.
Proof. intros H. apply list_fmap_ext. intros i ty Hi%list_elem_of_lookup_2. by rewrite H. Qed.

Lemma reports_conditions l hb seen :
  (∀ ty, ty ∈ types → (seen ty).2 ≠ 0) → Forall (λ r, r.1 ≠ 0) l →
  reports (conditions hb seen) l = conditions (default hb (fst <$> last l)) (λ ty, foldl (watch (status_of ty)) (seen ty) l).
Proof.
  revert hb seen. induction l as [|[now cond] l IH]; intros hb seen Hs Hl; [done|]. apply Forall_cons in Hl as [Hnow Hl]. cbn [reports foldl].
  rewrite translate_step by done. rewrite IH; [|intros ty Hty; unfold watch; case_decide; [by apply Hs|done]|done].
  rewrite last_cons. by destruct (last l).
Qed.
Lemma translate_first now cond : translateNodeConditions now [] cond = conditions now (λ ty, (status_of ty cond, now)).
Proof. unfold translateNodeConditions. rewrite statuses_types, <- list_fmap_compose. done. Qed.

Lemma watched_status f first l : (watched f first l).1 = f (default first (last l)).2.
Proof.
  unfold watched. induction l as [|r l IH] using rev_ind; [done|]. rewrite foldl_app, last_snoc. cbn. unfold watch. by case_decide.
Qed.

(** Where the status of a history last changed. *)
Definition changed_at (f : NodeConditions → string) (h : list (Z * NodeConditions)) (i : nat) (now : Z) (s : string) : Prop :=
  (∃ c, h !! i = Some (now, c)) ∧ (∀ j r, (i ≤ j)%nat → h !! j = Some r → f r.2 = s) ∧
  (∀ j r, i = S j → h !! j = Some r → f r.2 ≠ s).
Lemma watched_since f first l : ∃ i, changed_at f (first :: l) i (watched f first l).2 (watched f first l).1.
Proof.
  induction l as [|r l [i [ [c Hi] [Hsame Hdiff] ] ] ] using rev_ind.
  { exists 0%nat. split_and!; [by exists first.2; destruct first| |done]. intros j r _ Hj. apply list_lookup_singleton_Some in Hj as [_ <-]. done. }
  change (first :: l ++ [r]) with ((first :: l) ++ [r]). unfold watched. rewrite foldl_app. cbn [foldl]. change (foldl (watch f) (f first.2, first.1) l) with (watched f first l).
  pose proof (watched_status f first l) as Hst. unfold watch. destruct (decide ((watched f first l).1 = f r.2)) as [Heq|Hne].
  - exists i. split_and!.
    + exists c. by apply lookup_app_l_Some.
    + intros j x Hle [Hj|[_ Hj] ]%lookup_app_Some; [by eapply Hsame|]. apply list_lookup_singleton_Some in Hj as [_ <-]. done.
    + intros j x -> [Hj|[Hge Hj] ]%lookup_app_Some; [by eapply Hdiff|]. apply lookup_lt_Some in Hi. lia.
  - exists (length (first :: l)). cbn [fst snd]. split_and!.
    + exists r.2. rewrite lookup_app_r, Nat.sub_diag by done. by destruct r.
    + intros j x Hle [Hj|[_ Hj] ]%lookup_app_Some; [apply lookup_lt_Some in Hj; lia|]. apply list_lookup_singleton_Some in Hj as [_ <-]. done.
    + intros j x Hlen Hj. rewrite lookup_app_l in Hj by lia. cbn in Hlen. injection Hlen as <-.
      assert (x = default first (last l)) as ->; [|by rewrite <- Hst].
      assert (last (first :: l) = Some x) as Hx by by rewrite last_lookup. rewrite last_cons in Hx. destruct (last l); by injection Hx.
Qed.

(** After any history of reports, the conditions of the node are the five conditions, in their order, each with the time of the last
    report as its heartbeat, the status of the last report, and as its transition time the time of the report since which it has that
    status: all the reports from it on have the status, and the one before it, if there is one, has not. *)
Lemma conditions_history first l :
  Forall (λ r, r.1 ≠ 0) (first :: l) →
  ∃ seen, reports [] (first :: l) = conditions (default first (last l)).1 seen ∧
    ∀ ty, ty ∈ types → (seen ty).1 = status_of ty (default first (last l)).2 ∧
      ∃ i, changed_at (status_of ty) (first :: l) i (seen ty).2 (seen ty).1.
Proof.
  intros [Hf Hl]%Forall_cons. exists (λ ty, watched (status_of ty) first l). split.
  - destruct first as [now cond]. cbn [reports]. rewrite translate_first, reports_conditions by done.
    f_equal. by destruct (last l).
  - intros ty _. split; [apply watched_status|apply watched_since].
Qed.

(** ** The node cache of a virtual node *)
Section updateNodeCache.
Context (Float : Type) (Float_Parse : string → result Float) (Float_Text : Float → string)
  (Float_zero : Float) (Float_Add : Float → Float → Float) (Float_Neg : Float → Float).
Definition UpdateExtInfo := NodeCache.UpdateExtInfo Float Float_Parse Float_Text Float_zero Float_Add Float_Neg.

Definition NODE_INFO_DYN : Z := 0.
Definition NODE_INFO_ALL : Z := 1.
Definition nodeSystemInfo (i : SystemInfo) : NodeSystemInfo := {|
  si_OperatingSystem := Os i; si_Architecture := Arch i; si_OSImage := OsImage i; si_KernelVersion := KernelVersion i;
  si_MachineID := MachineId i; si_SystemUUID := SystemUuid i; si_BootID := BootId i;
  si_ContainerRuntimeVersion := ""; si_KubeletVersion := ""; si_KubeProxyVersion := "" |}.

Definition updateNodeCache (maxPods now : Z) (msg : NodeStatusMsg) (action : Z) (n : NodeCache.NodeCache) : NodeCache.NodeCache :=
  let n := match msg_SystemInfo msg with Some i => NodeCache.UpdateSystemInfo (Some (nodeSystemInfo i)) n | None => n end in
  let n := match msg_Conditions msg with
           | Some c => NodeCache.UpdateConditions
                         (translateNodeConditions now (ns_Conditions (NodeCache.RetrieveStatus n empty_NodeStatus)) c) n
           | None => n
           end in
  let n := match msg_Capacity msg with Some c => NodeCache.UpdateCapacity (translateNodeResourcesCapacity c maxPods) n | None => n end in
  let n := if action =? NODE_INFO_ALL then (UpdateExtInfo (msg_ExtInfo msg) n).1 else n in
  NodeCache.UpdatePhase NodeRunning n.

Lemma UpdateExtInfo_status st l n :
  UpdateExtInfo l (NodeCache.set_status st n) = (NodeCache.set_status st (UpdateExtInfo l n).1, (UpdateExtInfo l n).2).
Proof.
  unfold UpdateExtInfo, NodeCache.UpdateExtInfo.
  change (NodeCache.apply_infos Float Float_Parse Float_Text Float_zero Float_Add Float_Neg (NodeCache.set_status st n) l (∅, ∅))
    with (NodeCache.apply_infos Float Float_Parse Float_Text Float_zero Float_Add Float_Neg n l (∅, ∅)).
  by destruct (NodeCache.apply_infos _ _ _ _ _ _ _ _ _) as [ [? ?]|].
Qed.
Lemma UpdateExtInfo_keeps l n : NodeCache.status (UpdateExtInfo l n).1 = NodeCache.status n.
Proof. unfold UpdateExtInfo, NodeCache.UpdateExtInfo. by destruct (NodeCache.apply_infos _ _ _ _ _ _ _ _ _) as [ [? ?]|]. Qed.
Lemma capacity_not_empty c maxPods : translateNodeResourcesCapacity c maxPods ≠ ∅.
Proof.
  intros He. assert (translateNodeResourcesCapacity c maxPods !! ResourceCPU = None) as Hn by (rewrite He; apply lookup_empty).
  unfold translateNodeResourcesCapacity, ResourceList, Quantity in Hn. by rewrite lookup_insert_eq in Hn.
Qed.

(** What a report changes: exactly the parts it has. The status that the node then gets is Running with the reported system
    information, capacity and conditions where the report has them and the former ones where it has not; the labels and annotations of
    the extension information change only on a full report, and then all together or, when an entry is wrong, not at all. *)
Lemma updateNodeCache_correct maxPods now msg action n s :
  let n' := updateNodeCache maxPods now msg action n in
  let old := NodeCache.RetrieveStatus n s in
  NodeCache.RetrieveStatus n' s =
    {| ns_Phase := NodeRunning;
       ns_Capacity := match msg_Capacity msg with Some c => translateNodeResourcesCapacity c maxPods | None => ns_Capacity old end;
       ns_Conditions := match msg_Conditions msg with Some c => translateNodeConditions now (ns_Conditions old) c | None => ns_Conditions old end;
       ns_NodeInfo := match msg_SystemInfo msg with Some i => nodeSystemInfo i | None => ns_NodeInfo old end;
       ns_Allocatable := ns_Allocatable s; ns_Addresses := ns_Addresses s; ns_KubeletPort := ns_KubeletPort s |} ∧
  NodeCache.RetrieveExtInfo n' =
    (if action =? NODE_INFO_ALL then NodeCache.RetrieveExtInfo (UpdateExtInfo (msg_ExtInfo msg) n).1 else NodeCache.RetrieveExtInfo n).
Proof.
  intros n' old. subst n'. unfold updateNodeCache.
  set (n1 := match msg_SystemInfo msg with Some _ => _ | None => n end).
  set (n2 := match msg_Conditions msg with Some _ => _ | None => n1 end).
  set (n3 := match msg_Capacity msg with Some _ => _ | None => n2 end).
  assert (∃ st, n3 = NodeCache.set_status st n ∧ ns_Capacity st = match msg_Capacity msg with
      Some c => translateNodeResourcesCapacity c maxPods | None => ns_Capacity old end ∧
    ns_Conditions st = match msg_Conditions msg with
      Some c => translateNodeConditions now (ns_Conditions old) c | None => ns_Conditions old end ∧
    ns_NodeInfo st = match msg_SystemInfo msg with Some i => nodeSystemInfo i | None => ns_NodeInfo old end) as (st & -> & H1 & H2 & H3).
  { exists (NodeCache.status n3). subst n3 n2 n1. destruct msg as [i cap cond ext]. cbn [msg_SystemInfo msg_Capacity msg_Conditions].
    unfold NodeCache.UpdateCapacity, NodeCache.UpdateConditions.
    destruct cap as [c|]; [rewrite decide_False by apply capacity_not_empty|]; destruct cond as [k|], i, n; try rewrite decide_False by done; done. }
  unfold NodeCache.UpdatePhase. rewrite decide_False by done. destruct (action =? NODE_INFO_ALL).
  - rewrite UpdateExtInfo_status. unfold NodeCache.RetrieveStatus. cbn. by rewrite H1, H2, H3.
  - unfold NodeCache.RetrieveStatus. cbn. by rewrite H1, H2, H3.
Qed.

(** ** Asking the device *)

(** A message of the session: an error (when Msg.GetError is not nil), a node status, or anything else. *)
Inductive Msg := MError (text : string) | MNodeStatus (ns : NodeStatusMsg) | MOther.
(** What PostCmd answers: an error, or the messages up to the end of the session. *)
Fixpoint on_msgs (maxPods : Z) (action : Z) (now : nat → Z) (i : nat) (msgs : list Msg) (n : NodeCache.NodeCache) :
    NodeCache.NodeCache * option string :=
  match msgs with
  | [] => (n, None)
  | MError e :: _ => (n, Some e)
  | MNodeStatus ns :: msgs => on_msgs maxPods action now (S i) msgs (updateNodeCache maxPods (now i) ns action n)
  | MOther :: _ => (n, None)
  end.
(** [now i] is the time at which the i-th message is handled. *)
Definition SyncDeviceNodeStatus (maxPods : Z) (action : Z) (answer : result (list Msg)) (now : nat → Z) (n : NodeCache.NodeCache) :
    NodeCache.NodeCache * option string :=
  match answer with
  | Err e => (n, Some e)
  | Ok msgs => let '(n, err) := on_msgs maxPods action now 0 msgs n in (n, (λ e, "failed to sync node status: " +:+ e) <$> err)
  end.

(** ** Messages of no session *)

(** A message on the channel of GlobalMessages, by its kind, with what its body decodes to. *)
Inductive GlobalMsg :=
  | MSG_STATE (s : option (bool * string))  (** online or offline, and the id of the device; [None] when it does not decode *)
  | MSG_NODE_STATUS (ns : option NodeStatusMsg)
  | MSG_DATA (sid : Z) (decodes : bool)     (** MSG_DATA_DEFAULT and MSG_DATA_STDERR *)
  | MSG_RUNTIME (ps : option string) (psl : option (list string))  (** the uids of the pods of a pod status and of a list of them *)
  | MSG_IGNORED.                            (** network, peripheral, storage and error messages, and unknown ones *)
(** What the handler asks of the others, in order. *)
Inductive Call :=
  | OnConnected (id : string)       (** [id] is what the callback returns when the first sync passes *)
  | OnDisconnected (id : string)
  | ScheduleNodeSync
  | CMD_SESSION_CLOSE (sid : Z)
  | UpdateMirrorPod (uid : string).
Definition handleGlobalMsg (maxPods now : Z) (msg : GlobalMsg) (n : NodeCache.NodeCache) : NodeCache.NodeCache * list Call :=
  match msg with
  | MSG_STATE None => (n, [])
  | MSG_STATE (Some (true, id)) => (n, [OnConnected (if decide (id = "") then "default" else id)])
  | MSG_STATE (Some (false, id)) => (n, [OnDisconnected id])
  | MSG_NODE_STATUS None => (n, [])
  | MSG_NODE_STATUS (Some ns) =>
      let action := if decide (msg_ExtInfo ns = []) then NODE_INFO_DYN else NODE_INFO_ALL in
      (updateNodeCache maxPods now ns action n, [ScheduleNodeSync])
  | MSG_DATA sid false => (n, [])
  | MSG_DATA sid true => (n, [CMD_SESSION_CLOSE sid])
  | MSG_RUNTIME ps psl => (n, (UpdateMirrorPod <$> option_list ps) ++ (UpdateMirrorPod <$> default [] psl))
  | MSG_IGNORED => (n, [])
  end.

(** Caching the i-th, the next, ... report. *)
Definition cache_all (maxPods action : Z) (now : nat → Z) (i : nat) (l : list NodeStatusMsg) (n : NodeCache.NodeCache) : NodeCache.NodeCache :=
  foldl (λ n p, updateNodeCache maxPods p.1 p.2 action n) n (zip (now <$> seq i (length l)) l).
Lemma on_msgs_spec maxPods action now i l tl n :
  on_msgs maxPods action now i ((MNodeStatus <$> l) ++ tl) n =
    on_msgs maxPods action now (i + length l) tl (cache_all maxPods action now i l n).
Proof.
  revert i n. induction l as [|ns l IH]; intros i n; cbn [fmap list_fmap app on_msgs length]; [by rewrite Nat.add_0_r|].
  by rewrite IH, Nat.add_succ_r.
Qed.

(** Asking a device for its node: when the command can not be posted, its error is returned and nothing changes; otherwise every node
    status up to the first other message is cached, in order, and the others are dropped. It fails exactly when that first other message
    is an error of the device: an unexpected message, or none at all, counts as success. *)
Lemma SyncDeviceNodeStatus_correct maxPods action now n :
  (∀ e, SyncDeviceNodeStatus maxPods action (Err e) now n = (n, Some e)) ∧
  ∀ l tl, (∀ ns, head tl ≠ Some (MNodeStatus ns)) →
    SyncDeviceNodeStatus maxPods action (Ok ((MNodeStatus <$> l) ++ tl)) now n =
      (cache_all maxPods action now 0 l n,
       match head tl with Some (MError e) => Some ("failed to sync node status: " +:+ e) | _ => None end).
Proof.
  split; [done|]. intros l tl Htl. unfold SyncDeviceNodeStatus. rewrite on_msgs_spec.
  destruct tl as [|[e|ns|] tl]; cbn; try done. by destruct (Htl ns).
Qed.
End updateNodeCache.

(** A device without an id that comes online is kept as "default"; when it says that it goes offline the empty id is removed, which is not
    there: the node stays connected. *)
Lemma OnConnected_devices {W} (id : string) (m m1 : Manager.baseManager) (w w1 : W) :
  Manager.OnConnected (λ w, (w, id)) m w = Ret (m1, w1) → id ≠ "" → Manager.b_stopped m = false →
  Manager.b_connectedDevices m1 = {[id]} ∪ Manager.b_connectedDevices m.
Proof.
  intros H Hid Hs. unfold Manager.OnConnected in H. rewrite decide_False, Hs in H by done.
  repeat (case_match; [by injection H as <- _|]). unfold Manager.close_chan in H.
  repeat case_match; cbn [mbind outcome_bind] in H; [done|]. by injection H as <- _.
Qed.
Lemma unnamed_device_stays {W} (m m1 : Manager.baseManager) (w w1 : W) now :
  Manager.OnConnected (λ w, (w, "default")) m w = Ret (m1, w1) → Manager.b_stopped m = false →
  ∃ m2, Manager.OnDisconnected (λ w, (w, "", false)) now m1 w1 = Ret (m2, w1) ∧ "default" ∈ Manager.b_connectedDevices m2 ∧
        Manager.b_closed m2 = Manager.b_closed m1.
Proof.
  intros H Hs. apply OnConnected_devices in H; [|done|done]. unfold Manager.OnDisconnected.
  assert (∀ X : gset string, "default" ∈ X → (size X =? 0)%nat = false) as Hsz.
  { intros X Hin. apply Nat.eqb_neq. intros Hn. apply size_empty_inv in Hn. set_solver. }
  rewrite Hsz by (rewrite H; set_solver). set (m2 := Manager.set_devices _ m1). exists m2.
  assert ("default" ∈ Manager.b_connectedDevices m2) as Hin by (cbn; rewrite H; set_solver). rewrite (Hsz _ Hin). done.
Qed.
End NodeReport.

(** ** The table of virtual nodes and their periodic work *)
Module VnManager.

Definition REJECTION_INITIAL_CHECK_FAILURE : Z := 3.
Definition REJECTION_INTERNAL_SERVER_ERROR : Z := 4.

(** A virtual node: its name and the intervals of its options. *)
Record VirtualNode := { name : string; ForceSyncInterval : Z; PodForceSyncInterval : Z }.
(** What the manager asks of virtual nodes. *)
Inductive Call :=
  | SyncDeviceNodeStatus (node : string) (kind : Z)
  | SyncDevicePods (node : string)
  | Reject (node : string) (reason : Z) (message : string)
  | ScheduleNodeSync (node : string)
  | updateLeaseWithRetry (node : string)
  | ForceClose (node : string).
Abbreviation Queue := (TimeoutQueue (K := string) (V := Z)).
Record Manager := {
  nodes : gmap string VirtualNode;
  nodeForceSyncQ : Queue; podForceSyncQ : Queue; mirrorUpdateQ : Queue; leaseUpdateQ : Queue;
  leaseEnabled : bool; nodeUpdateInterval : Z; leaseUpdateInterval : Z;
  calls : list Call
}.
Definition set_nodes (ns : gmap string VirtualNode) (m : Manager) : Manager :=
  {| nodes := ns; nodeForceSyncQ := nodeForceSyncQ m; podForceSyncQ := podForceSyncQ m; mirrorUpdateQ := mirrorUpdateQ m;
     leaseUpdateQ := leaseUpdateQ m; leaseEnabled := leaseEnabled m; nodeUpdateInterval := nodeUpdateInterval m;
     leaseUpdateInterval := leaseUpdateInterval m; calls := calls m |}.
Definition set_queues (a b c d : Queue) (m : Manager) : Manager :=
  {| nodes := nodes m; nodeForceSyncQ := a; podForceSyncQ := b; mirrorUpdateQ := c; leaseUpdateQ := d; leaseEnabled := leaseEnabled m;
     nodeUpdateInterval := nodeUpdateInterval m; leaseUpdateInterval := leaseUpdateInterval m; calls := calls m |}.
Definition call (c : Call) (m : Manager) : Manager :=
  {| nodes := nodes m; nodeForceSyncQ := nodeForceSyncQ m; podForceSyncQ := podForceSyncQ m; mirrorUpdateQ := mirrorUpdateQ m;
     leaseUpdateQ := leaseUpdateQ m; leaseEnabled := leaseEnabled m; nodeUpdateInterval := nodeUpdateInterval m;
     leaseUpdateInterval := leaseUpdateInterval m; calls := calls m ++ [c] |}.

Definition Second : Z := 1000000000.
Definition DefaultMirrorNodeSyncInterval : Z := 10 * Second.
Definition DefaultNodeLeaseUpdateInterval : Z := 10 * Second.
Definition NewVirtualNodeManager (mirrorSyncInterval leaseInterval : Z) (leaseEnabled : bool) : Manager :=
  {| nodes := ∅; nodeForceSyncQ := NewTimeoutQueue; podForceSyncQ := NewTimeoutQueue; mirrorUpdateQ := NewTimeoutQueue;
     leaseUpdateQ := NewTimeoutQueue; leaseEnabled := leaseEnabled;
     nodeUpdateInterval := if mirrorSyncInterval <? Second then DefaultMirrorNodeSyncInterval else mirrorSyncInterval;
     leaseUpdateInterval := if leaseInterval <? Second then DefaultNodeLeaseUpdateInterval else leaseInterval; calls := [] |}.

Definition doPerQueue (f : Queue → outcome Queue) (m : Manager) : outcome Manager :=
  a ← f (nodeForceSyncQ m); b ← f (podForceSyncQ m); c ← f (mirrorUpdateQ m); d ← f (leaseUpdateQ m); Ret (set_queues a b c d m).
Definition Start (m : Manager) : outcome Manager := doPerQueue (λ q, Ret (TimeoutQueue.Start q)) m.

(** q.Forbid(name); q.Remove(name) *)
Definition forget (n : string) (q : Queue) : outcome Queue := '(q, _) ← Remove n (Forbid n q); Ret q.
Definition OnVirtualNodeDisconnected (vn : VirtualNode) (m : Manager) : outcome Manager :=
  m ← doPerQueue (forget (name vn)) m; Ret (call (ScheduleNodeSync (name vn)) m).

(** What the first sync of a device gives: the error of the node sync, that of the pod sync, with whether it says that the device
    does not support pods, the time of each offer and wait.Jitter(_, .2). *)
Record Initial := { nodeSync : option string; podSync : option (bool * string); at_ : nat → Z; Jitter : Z → Z }.

(** OfferWithDelay, or the rejection when it fails. *)
Definition reject (vn : VirtualNode) (reason : Z) (message : string) (m : Manager) : outcome (Manager * bool) :=
  Ret (call (Reject (name vn) reason message) m, false).
(** What follows the two syncs. *)
Definition schedule (vn : VirtualNode) (i : Initial) (supportPod : bool) (m : Manager) : outcome (Manager * bool) :=
  let offer k interval delay q := OfferWithDelay (at_ i k) (name vn) interval delay q in
  let (a, err) := if 0 <? ForceSyncInterval vn then offer 0%nat (ForceSyncInterval vn) (ForceSyncInterval vn) (nodeForceSyncQ m)
                  else (nodeForceSyncQ m, None) in
  let m := set_queues a (podForceSyncQ m) (mirrorUpdateQ m) (leaseUpdateQ m) m in
  if err is Some _ then reject vn REJECTION_INTERNAL_SERVER_ERROR "force pod sync schedule failure" m else
  let (b, err) := if (0 <? PodForceSyncInterval vn) && supportPod
                  then offer 1%nat (PodForceSyncInterval vn) (PodForceSyncInterval vn) (podForceSyncQ m) else (podForceSyncQ m, None) in
  let m := set_queues (nodeForceSyncQ m) b (mirrorUpdateQ m) (leaseUpdateQ m) m in
  if err is Some _ then reject vn REJECTION_INTERNAL_SERVER_ERROR "force pod sync schedule failure" m else
  if leaseEnabled m then
    c ← forget (name vn) (mirrorUpdateQ m);
    let (d, err) := offer 2%nat (leaseUpdateInterval m) (Jitter i (leaseUpdateInterval m)) (leaseUpdateQ m) in
    let m := set_queues (nodeForceSyncQ m) (podForceSyncQ m) c d m in
    if err is Some _ then reject vn REJECTION_INTERNAL_SERVER_ERROR "lease update failure" m else Ret (m, true)
  else
    d ← forget (name vn) (leaseUpdateQ m);
    let (c, err) := offer 2%nat (nodeUpdateInterval m) (Jitter i (nodeUpdateInterval m)) (mirrorUpdateQ m) in
    let m := set_queues (nodeForceSyncQ m) (podForceSyncQ m) c d m in
    if err is Some _ then reject vn REJECTION_INTERNAL_SERVER_ERROR "mirror node sync failure" m else Ret (m, true).
Definition connect (vn : VirtualNode) (i : Initial) (m : Manager) : outcome (Manager * bool) :=
  m ← doPerQueue (λ q, Ret (Allow (name vn) q)) m;
  let m := call (SyncDeviceNodeStatus (name vn) NodeReport.NODE_INFO_ALL) m in
  match nodeSync i with
  | Some _ => reject vn REJECTION_INITIAL_CHECK_FAILURE "failed to pass initial node sync" m
  | None =>
      let m := call (SyncDevicePods (name vn)) m in
      match podSync i with
      | Some (false, _) => reject vn REJECTION_INITIAL_CHECK_FAILURE "failed to pass initial pod sync" m
      | Some (true, _) => schedule vn i false m
      | None => schedule vn i true m
      end
  end.
Definition OnVirtualNodeConnected (vn : VirtualNode) (i : Initial) (m : Manager) : outcome (Manager * bool) :=
  '(m, allow) ← connect vn i m;
  if allow : bool then Ret (m, true) else m ← OnVirtualNodeDisconnected vn m; Ret (m, false).

Definition Add (vn : VirtualNode) (m : Manager) : outcome (Manager * option string) :=
  match nodes m !! name vn with
  | Some _ => Ret (m, Some "node with same name already exists")
  | None => m ← doPerQueue (forget (name vn)) (set_nodes (<[name vn := vn]> (nodes m)) m); Ret (m, None)
  end.
Definition Get (n : string) (m : Manager) : option VirtualNode := nodes m !! n.
Definition All (m : Manager) : gmap string VirtualNode := nodes m.
Definition Delete (n : string) (m : Manager) : Manager :=
  match nodes m !! n with Some srv => set_nodes (delete n (nodes m)) (call (ForceClose n) m) | None => m end.

(** The four consumers, on one datum that is due: whether the node is connected, the error of the work and the clock. *)
Record Due := { connected : bool; failure : option string; now : Z; next : Z → Z }.
Definition consume (work : string → Call) (reason : string → string) (again : VirtualNode → Queue → Queue) (put : Queue → Manager → Manager)
    (q : Manager → Queue) (t : TimeoutData (K := string) (V := Z)) (d : Due) (m : Manager) : Manager :=
  match Get (Key t) m with
  | None => m
  | Some vn =>
      if connected d then
        let m := call (work (name vn)) m in
        match failure d with
        | Some e => call (Reject (name vn) REJECTION_INTERNAL_SERVER_ERROR (reason e)) m
        | None => put (again vn (q m)) m
        end
      else m
  end.
Definition consumeForceNodeSync (t : TimeoutData) (d : Due) : Manager → Manager :=
  consume (λ n, SyncDeviceNodeStatus n NodeReport.NODE_INFO_DYN) id (λ _ q, (OfferWithDelay (now d) (Key t) (Data t) (next d (Data t)) q).1)
    (λ q m, set_queues q (podForceSyncQ m) (mirrorUpdateQ m) (leaseUpdateQ m) m) nodeForceSyncQ t d.
Definition consumeForcePodSync (t : TimeoutData) (d : Due) : Manager → Manager :=
  consume SyncDevicePods id (λ _ q, (OfferWithDelay (now d) (Key t) (Data t) (next d (Data t)) q).1)
    (λ q m, set_queues (nodeForceSyncQ m) q (mirrorUpdateQ m) (leaseUpdateQ m) m) podForceSyncQ t d.
Definition consumeMirrorNodeSync (t : TimeoutData) (d : Due) (m : Manager) : Manager :=
  consume ScheduleNodeSync id (λ vn q, (OfferWithDelay (now d) (name vn) (nodeUpdateInterval m) (next d (nodeUpdateInterval m)) q).1)
    (λ q m, set_queues (nodeForceSyncQ m) (podForceSyncQ m) q (leaseUpdateQ m) m) mirrorUpdateQ t d m.
Definition consumeLeaseUpdate (t : TimeoutData) (d : Due) (m : Manager) : Manager :=
  consume updateLeaseWithRetry (λ _, "lease update failure")
    (λ vn q, (OfferWithDelay (now d) (name vn) (leaseUpdateInterval m) (next d (leaseUpdateInterval m)) q).1)
    (λ q m, set_queues (nodeForceSyncQ m) (podForceSyncQ m) (mirrorUpdateQ m) q m) leaseUpdateQ t d m.

(** *** One queue *)

(** The queue that forgets a name: it refuses it, holds it once less, and is the same for the others. *)
Definition of_name (n : string) (d : list (TimeoutData (K := string) (V := Z))) : list TimeoutData := filter (λ x, Key x = n) d.
Definition forgets (n : string) (q q' : Queue) : Prop :=
  TimeoutQueue.wf q' ∧ n ∈ blackList q' ∧ length (of_name n (data q')) = pred (length (of_name n (data q))) ∧
  (∀ n', n' ≠ n → of_name n' (data q') = of_name n' (data q)) ∧ running q' = running q ∧ stopped q' = stopped q.

Lemma Forbid_wf n (q : Queue) : TimeoutQueue.wf q → TimeoutQueue.wf (Forbid n q).
Proof. intros Hq. constructor; apply Hq. Qed.
Lemma Allow_wf n (q : Queue) : TimeoutQueue.wf q → TimeoutQueue.wf (Allow n q).
Proof. intros Hq. constructor; apply Hq. Qed.

Lemma forget_spec n q : TimeoutQueue.wf q → ∃ q', forget n q = Ret q' ∧ forgets n q q'.
Proof.
  intros Hq. destruct (Remove_wf n _ (Forbid_wf n q Hq)) as (q' & r & Hr & Hwf & Hnone & Hsome). unfold forget. rewrite Hr.
  exists q'. split; [done|]. destruct r as [v|].
  - destruct Hsome as (i & x & Hi & Hk & _ & Hd & Hb & Hrun & Hst). cbn in Hi, Hd, Hb, Hrun, Hst.
    pose proof (take_drop_middle _ _ _ Hi) as Hm.
    split; [done|]. split; [rewrite Hb; set_solver|]. rewrite Hd. unfold of_name. split_and!; [| |done|done].
    + rewrite <- Hm at 3. rewrite !filter_app, filter_cons, decide_True by done. rewrite !length_app. cbn. lia.
    + intros n' Hn'. rewrite <- Hm at 3. rewrite !filter_app, filter_cons, decide_False by congruence. done.
  - subst q'. split; [done|]. split; [cbn; set_solver|]. split_and!; try done.
    destruct Hnone as [Hn _]. specialize (Hn eq_refl). unfold of_name.
    assert (filter (λ x, Key x = n) (data q) = []) as Hf.
    { apply length_zero_iff_nil, length_filter_0. intros x Hx <-. apply Hn, list_elem_of_fmap. by exists x. }
    cbn. by rewrite Hf.
Qed.

(** *** The manager *)
Record wf (m : Manager) : Prop := {
  wf_node : TimeoutQueue.wf (nodeForceSyncQ m); wf_pod : TimeoutQueue.wf (podForceSyncQ m);
  wf_mirror : TimeoutQueue.wf (mirrorUpdateQ m); wf_lease : TimeoutQueue.wf (leaseUpdateQ m);
  wf_names : ∀ n vn, nodes m !! n = Some vn → name vn = n;
  wf_one : if leaseEnabled m then data (mirrorUpdateQ m) = [] else data (leaseUpdateQ m) = []
}.
Definition unavailable (n : string) (m m' : Manager) : Prop :=
  forgets n (nodeForceSyncQ m) (nodeForceSyncQ m') ∧ forgets n (podForceSyncQ m) (podForceSyncQ m') ∧
  forgets n (mirrorUpdateQ m) (mirrorUpdateQ m') ∧ forgets n (leaseUpdateQ m) (leaseUpdateQ m').

Lemma forgets_nil n q q' : forgets n q q' → data q = [] → data q' = [].
Proof.
  intros (_ & _ & Hl & Ho & _) Hd. rewrite Hd in *. destruct (data q') as [|x l] eqn:Hq; [done|].
  destruct (decide (Key x = n)) as [Hx|Hx].
  - unfold of_name in Hl. rewrite filter_cons, decide_True in Hl by done. done.
  - specialize (Ho _ Hx). unfold of_name in Ho. by rewrite filter_cons, decide_True in Ho.
Qed.

Lemma forget_all n m :
  wf m → ∃ m', doPerQueue (forget n) m = Ret m' ∧ unavailable n m m' ∧ wf m' ∧ nodes m' = nodes m ∧ calls m' = calls m ∧
    leaseEnabled m' = leaseEnabled m.
Proof.
  intros Hm. unfold doPerQueue.
  destruct (forget_spec n _ (wf_node m Hm)) as (a & -> & Ha), (forget_spec n _ (wf_pod m Hm)) as (b & -> & Hb),
    (forget_spec n _ (wf_mirror m Hm)) as (c & -> & Hc), (forget_spec n _ (wf_lease m Hm)) as (d & -> & Hd).
  cbn [mbind outcome_bind]. eexists. split; [done|]. split_and!; try done.
  pose proof (wf_one m Hm) as Hone.
  constructor; cbn; try (apply Ha || apply Hb || apply Hc || apply Hd); [apply Hm|].
  destruct (leaseEnabled m); by eapply forgets_nil.
Qed.

Lemma disconnect_spec vn m :
  wf m → ∃ m', OnVirtualNodeDisconnected vn m = Ret m' ∧ wf m' ∧ unavailable (name vn) m m' ∧ nodes m' = nodes m ∧
    calls m' = calls m ++ [ScheduleNodeSync (name vn)].
Proof.
  intros Hm. unfold OnVirtualNodeDisconnected. destruct (forget_all (name vn) m Hm) as (m1 & -> & Hu & Hm1 & Hn & Hc & _).
  cbn [mbind outcome_bind]. eexists. split; [done|]. split_and!; try done; [by destruct Hm1|apply Hu..|cbn; by rewrite Hc].
Qed.
(** When a device is lost, its virtual node leaves all the periodic work: each of the four queues refuses its name from then on, holds
    it once less than before (so not at all when it was there at most once), and keeps everything of the other nodes; and the status of
    its node is brought up to date. *)
Lemma OnVirtualNodeDisconnected_correct vn m :
  wf m → ∃ m', OnVirtualNodeDisconnected vn m = Ret m' ∧ wf m' ∧ unavailable (name vn) m m' ∧ nodes m' = nodes m ∧
    calls m' = calls m ++ [ScheduleNodeSync (name vn)] ∧
    ∀ t v w, (OfferWithDelay t (name vn) v w (nodeForceSyncQ m')).2 ≠ None ∧ (OfferWithDelay t (name vn) v w (podForceSyncQ m')).2 ≠ None ∧
             (OfferWithDelay t (name vn) v w (mirrorUpdateQ m')).2 ≠ None ∧ (OfferWithDelay t (name vn) v w (leaseUpdateQ m')).2 ≠ None.
Proof.
  intros Hm. destruct (disconnect_spec vn m Hm) as (m' & Hd & Hw & Hu & Hn & Hc). exists m'. split_and!; try done; [apply Hu..|].
  intros t v w. assert (∀ q q', forgets (name vn) q q' → (OfferWithDelay t (name vn) v w q').2 ≠ None) as Href.
  { intros q q' (_ & Hb & _). unfold OfferWithDelay, OfferWithTime. rewrite bool_decide_true by done. by repeat case_match. }
  split_and!; eapply Href; apply Hu.
Qed.

Definition started (q : Queue) : Prop := running q = true ∧ stopped q = false.
Definition entry (t : Z) (n : string) (interval delay : Z) : TimeoutData (K := string) (V := Z) :=
  {| Key := n; Data := interval; expireAt := t + delay |}.
Lemma offer_ok t n v w q :
  TimeoutQueue.wf q → started q → n ∉ blackList q →
  ∃ q', OfferWithDelay t n v w q = (q', None) ∧ TimeoutQueue.wf q' ∧ data q' = data q ++ [entry t n v w] ∧ blackList q' = blackList q ∧
        started q'.
Proof.
  intros Hq [Hr Hs] Hb. pose proof (OfferWithTime_wf n v (t + w) q Hq) as Hwf. revert Hwf. unfold OfferWithDelay, OfferWithTime.
  rewrite Hr, Hs, bool_decide_false by done. cbn [negb fst]. intros Hwf. eexists. split; [done|]. by split_and!.
Qed.

(** When the first sync passes: no error of the node sync, nor of the pod sync but that pods are not supported. *)
Definition passes (i : Initial) : bool :=
  match nodeSync i, podSync i with None, None | None, Some (true, _) => true | _, _ => false end.
Definition all_started (m : Manager) : Prop :=
  started (nodeForceSyncQ m) ∧ started (podForceSyncQ m) ∧ started (mirrorUpdateQ m) ∧ started (leaseUpdateQ m).

Lemma allow_all n m :
  wf m → wf (set_queues (Allow n (nodeForceSyncQ m)) (Allow n (podForceSyncQ m)) (Allow n (mirrorUpdateQ m)) (Allow n (leaseUpdateQ m)) m).
Proof. intros Hm. constructor; cbn; try apply Allow_wf; apply Hm. Qed.
(** A queue that the first sync may offer to. *)
Lemma offer_if (b : bool) t n v w q :
  TimeoutQueue.wf q → started q → n ∉ blackList q →
  ∃ q', (if b then OfferWithDelay t n v w q else (q, None)) = (q', None) ∧ TimeoutQueue.wf q' ∧
        data q' = data q ++ (if b then [entry t n v w] else []) ∧ blackList q' = blackList q ∧ started q'.
Proof.
  intros Hq Hs Hb. destruct b.
  - destruct (offer_ok t n v w q Hq Hs Hb) as (q' & He & Hw & Hd & Hl & Hr). by exists q'.
  - exists q. by rewrite app_nil_r.
Qed.

Definition accepts (n : string) (m : Manager) : Prop :=
  (n ∉ blackList (nodeForceSyncQ m)) ∧ (n ∉ blackList (podForceSyncQ m)) ∧ (n ∉ blackList (mirrorUpdateQ m)) ∧ (n ∉ blackList (leaseUpdateQ m)).
(** The periodic work of a node that has connected. *)
Definition scheduled (vn : VirtualNode) (i : Initial) (supportPod : bool) (m m' : Manager) : Prop :=
  data (nodeForceSyncQ m') = data (nodeForceSyncQ m) ++
    (if 0 <? ForceSyncInterval vn then [entry (at_ i 0) (name vn) (ForceSyncInterval vn) (ForceSyncInterval vn)] else []) ∧
  data (podForceSyncQ m') = data (podForceSyncQ m) ++
    (if (0 <? PodForceSyncInterval vn) && supportPod
     then [entry (at_ i 1) (name vn) (PodForceSyncInterval vn) (PodForceSyncInterval vn)] else []) ∧
  if leaseEnabled m
  then data (leaseUpdateQ m') = data (leaseUpdateQ m) ++
         [entry (at_ i 2) (name vn) (leaseUpdateInterval m) (Jitter i (leaseUpdateInterval m))] ∧
       name vn ∈ blackList (mirrorUpdateQ m') ∧ data (mirrorUpdateQ m') = []
  else data (mirrorUpdateQ m') = data (mirrorUpdateQ m) ++
         [entry (at_ i 2) (name vn) (nodeUpdateInterval m) (Jitter i (nodeUpdateInterval m))] ∧
       name vn ∈ blackList (leaseUpdateQ m') ∧ data (leaseUpdateQ m') = [].
(** The queues run, and take the node in for the work that is configured. *)
Definition working (n : string) (m : Manager) : Prop :=
  all_started m ∧ (n ∉ blackList (nodeForceSyncQ m)) ∧ (n ∉ blackList (podForceSyncQ m)) ∧
  (n ∉ blackList (if leaseEnabled m then leaseUpdateQ m else mirrorUpdateQ m)).
(** The queues run, and refuse the node. *)
Definition resting (n : string) (m : Manager) : Prop :=
  all_started m ∧ n ∈ blackList (nodeForceSyncQ m) ∧ n ∈ blackList (podForceSyncQ m) ∧ n ∈ blackList (mirrorUpdateQ m) ∧
  n ∈ blackList (leaseUpdateQ m).
Lemma unavailable_resting n m m' : unavailable n m m' → all_started m → resting n m'.
Proof.
  intros (H1 & H2 & H3 & H4) (S1 & S2 & S3 & S4).
  destruct H1 as (_ & B1 & _ & _ & R1 & T1), H2 as (_ & B2 & _ & _ & R2 & T2), H3 as (_ & B3 & _ & _ & R3 & T3), H4 as (_ & B4 & _ & _ & R4 & T4).
  unfold resting, all_started, started in *. rewrite R1, R2, R3, R4, T1, T2, T3, T4. done.
Qed.

Lemma schedule_spec vn i supportPod m :
  wf m → all_started m → accepts (name vn) m →
  ∃ m', schedule vn i supportPod m = Ret (m', true) ∧ wf m' ∧ nodes m' = nodes m ∧ calls m' = calls m ∧ scheduled vn i supportPod m m' ∧
    working (name vn) m' ∧ leaseEnabled m' = leaseEnabled m.
Proof.
  intros Hm (H1 & H2 & H3 & H4) (A1 & A2 & A3 & A4). unfold schedule, scheduled. cbv beta zeta.
  destruct (offer_if (0 <? ForceSyncInterval vn) (at_ i 0) (name vn) (ForceSyncInterval vn) (ForceSyncInterval vn) _ (wf_node m Hm) H1 A1)
    as (a & -> & Ha & Hda & Hba & Hsa).
  cbn [set_queues nodeForceSyncQ podForceSyncQ mirrorUpdateQ leaseUpdateQ leaseEnabled nodeUpdateInterval leaseUpdateInterval].
  destruct (offer_if ((0 <? PodForceSyncInterval vn) && supportPod) (at_ i 1) (name vn) (PodForceSyncInterval vn) (PodForceSyncInterval vn) _
    (wf_pod m Hm) H2 A2) as (b & -> & Hb & Hdb & Hbb & Hsb).
  cbn [set_queues nodeForceSyncQ podForceSyncQ mirrorUpdateQ leaseUpdateQ leaseEnabled nodeUpdateInterval leaseUpdateInterval].
  pose proof (wf_one m Hm) as Hone. destruct (leaseEnabled m) eqn:Hl.
  - destruct (forget_spec (name vn) _ (wf_mirror m Hm)) as (c & -> & Hc).
    destruct (offer_ok (at_ i 2) (name vn) (leaseUpdateInterval m) (Jitter i (leaseUpdateInterval m)) _ (wf_lease m Hm) H4 A4) as (d & -> & Hd & Hdd & Hbd & Hsd).
    cbn [mbind outcome_bind]. eexists. split; [done|]. pose proof (forgets_nil _ _ _ Hc Hone) as Hcn.
    split_and!; try done; [|apply Hc|unfold working, all_started; cbn; rewrite Hl, Hba, Hbb, Hbd; split_and!; try done; destruct Hc as (_ & _ & _ & _ & Hr & Hst), H3; split; congruence].
    constructor; cbn; try done; [apply Hc|apply Hm|by rewrite Hl].
  - destruct (forget_spec (name vn) _ (wf_lease m Hm)) as (d & -> & Hd).
    destruct (offer_ok (at_ i 2) (name vn) (nodeUpdateInterval m) (Jitter i (nodeUpdateInterval m)) _ (wf_mirror m Hm) H3 A3) as (c & -> & Hc & Hdc & Hbc & Hsc).
    cbn [mbind outcome_bind]. eexists. split; [done|]. pose proof (forgets_nil _ _ _ Hd Hone) as Hdn.
    split_and!; try done; [|apply Hd|unfold working, all_started; cbn; rewrite Hl, Hba, Hbb, Hbc; split_and!; try done; destruct Hd as (_ & _ & _ & _ & Hr & Hst), H4; split; congruence].
    constructor; cbn; try done; [apply Hd|apply Hm|by rewrite Hl].
Qed.

Lemma call_wf c m : wf m → wf (call c m).
Proof. intros []. by constructor. Qed.

(** The first sync of a device that comes online, when the queues run. It passes exactly when its node can be read and its pods too, or
    are not supported. Then all its periodic work is scheduled: the forced node sync and, with pod support, the forced pod sync when they
    have intervals, and either the renewal of its lease or the mirror update of its status, as configured, the other being refused and
    empty. Otherwise the device is rejected with the reason, its name leaves all four queues and its status is brought up to date. *)
Lemma OnVirtualNodeConnected_correct vn i m :
  wf m → all_started m →
  ∃ m', OnVirtualNodeConnected vn i m = Ret (m', passes i) ∧ wf m' ∧ nodes m' = nodes m ∧
    if passes i
    then scheduled vn i (bool_decide (podSync i = None)) m m' ∧ working (name vn) m' ∧
         calls m' = calls m ++ [SyncDeviceNodeStatus (name vn) NodeReport.NODE_INFO_ALL; SyncDevicePods (name vn)]
    else unavailable (name vn) m m' ∧ ∃ sync what,
         calls m' = calls m ++ SyncDeviceNodeStatus (name vn) NodeReport.NODE_INFO_ALL :: sync ++
           [Reject (name vn) REJECTION_INITIAL_CHECK_FAILURE ("failed to pass initial " +:+ what +:+ " sync"); ScheduleNodeSync (name vn)].
Proof.
  intros Hm Hst. unfold OnVirtualNodeConnected, connect, passes. cbn [doPerQueue mbind outcome_bind].
  pose proof (allow_all (name vn) m Hm) as Hm1. set (m1 := set_queues _ _ _ _ m) in *.
  set (m2 := call (SyncDeviceNodeStatus _ _) m1). pose proof (call_wf _ _ Hm1 : wf m2) as Hm2.
  set (m3 := call (SyncDevicePods _) m2). pose proof (call_wf _ _ Hm2 : wf m3) as Hm3.
  destruct (nodeSync i) as [e|].
  { unfold reject. cbn [mbind outcome_bind].
    match goal with |- context [OnVirtualNodeDisconnected vn ?x] => destruct (disconnect_spec vn x (call_wf _ _ Hm2)) as (m' & -> & Hw & Hu & Hn & Hc) end.
    exists m'. split_and!; try done; [apply Hu..|]. exists [], "node". rewrite Hc. cbn. by rewrite <- !app_assoc. }
  assert (∀ b, ∃ m', schedule vn i b m3 = Ret (m', true) ∧ wf m' ∧ nodes m' = nodes m3 ∧ calls m' = calls m3 ∧ scheduled vn i b m3 m' ∧ working (name vn) m') as Hsch.
  { intros b. destruct (schedule_spec vn i b m3 Hm3 Hst) as (m' & E & Hw & Hn & Hc & Hs & Hk & _); [unfold accepts; cbn; set_solver|].
    exists m'. by split_and!. }
  destruct (podSync i) as [ [ [|] e]|].
  - destruct (Hsch false) as (m' & -> & Hw & Hn & Hc & Hs & Hk). exists m'. split; [done|]. split; [done|]. split; [done|]. split; [done|]. split; [done|]. rewrite Hc. cbn. by rewrite <- app_assoc.
  - unfold reject. cbn [mbind outcome_bind].
    match goal with |- context [OnVirtualNodeDisconnected vn ?x] => destruct (disconnect_spec vn x (call_wf _ _ Hm3)) as (m' & -> & Hw & Hu & Hn & Hc) end.
    exists m'. split_and!; try done; [apply Hu..|]. exists [SyncDevicePods (name vn)], "pod". rewrite Hc. cbn. by rewrite <- !app_assoc.
  - destruct (Hsch true) as (m' & -> & Hw & Hn & Hc & Hs & Hk). exists m'. split; [done|]. split; [done|]. split; [done|]. split; [done|]. split; [done|]. rewrite Hc. cbn. by rewrite <- app_assoc.
Qed.

(** *** Runs *)

(** What can happen to a manager: its start, the controllers that add and delete nodes, devices that come and go, the timers of the
    four queues, and the consumers on what is due; only one of the two kinds of updates has a consumer. *)
Inductive step (m : Manager) : Manager → Prop :=
  | StepStart m' : Start m = Ret m' → step m m'
  | StepAdd vn m' e : Add vn m = Ret (m', e) → step m m'
  | StepDelete n : step m (Delete n m)
  | StepConnected vn i m' b : OnVirtualNodeConnected vn i m = Ret (m', b) → step m m'
  | StepDisconnected vn m' : OnVirtualNodeDisconnected vn m = Ret m' → step m m'
  | StepNodeTimer swaps t q due :
      in_range (length (data (nodeForceSyncQ m))) swaps → sort swaps t (nodeForceSyncQ m) = Ret (q, due) →
      step m (set_queues q (podForceSyncQ m) (mirrorUpdateQ m) (leaseUpdateQ m) m)
  | StepPodTimer swaps t q due :
      in_range (length (data (podForceSyncQ m))) swaps → sort swaps t (podForceSyncQ m) = Ret (q, due) →
      step m (set_queues (nodeForceSyncQ m) q (mirrorUpdateQ m) (leaseUpdateQ m) m)
  | StepMirrorTimer swaps t q due :
      in_range (length (data (mirrorUpdateQ m))) swaps → sort swaps t (mirrorUpdateQ m) = Ret (q, due) →
      step m (set_queues (nodeForceSyncQ m) (podForceSyncQ m) q (leaseUpdateQ m) m)
  | StepLeaseTimer swaps t q due :
      in_range (length (data (leaseUpdateQ m))) swaps → sort swaps t (leaseUpdateQ m) = Ret (q, due) →
      step m (set_queues (nodeForceSyncQ m) (podForceSyncQ m) (mirrorUpdateQ m) q m)
  | StepForceNodeSync t d : step m (consumeForceNodeSync t d m)
  | StepForcePodSync t d : step m (consumeForcePodSync t d m)
  | StepMirrorNodeSync t d : leaseEnabled m = false → step m (consumeMirrorNodeSync t d m)
  | StepLeaseUpdate t d : leaseEnabled m = true → step m (consumeLeaseUpdate t d m).
Inductive reachable (mirror lease : Z) (enabled : bool) : Manager → Prop :=
  | reach_new : reachable mirror lease enabled (NewVirtualNodeManager mirror lease enabled)
  | reach_step m m' : reachable mirror lease enabled m → step m m' → reachable mirror lease enabled m'.

Lemma offer_wf t n v w (q : Queue) : TimeoutQueue.wf q → TimeoutQueue.wf (OfferWithDelay t n v w q).1.
Proof. apply OfferWithTime_wf. Qed.
Lemma wf_set_queues a b c d m :
  wf m → TimeoutQueue.wf a → TimeoutQueue.wf b → TimeoutQueue.wf c → TimeoutQueue.wf d →
  (if leaseEnabled m then data c = [] else data d = []) → wf (set_queues a b c d m).
Proof. intros Hm ?????. constructor; cbn; try done. apply Hm. Qed.

Lemma schedule_wf vn i b m : wf m → ∃ m' ok, schedule vn i b m = Ret (m', ok) ∧ wf m' ∧ leaseEnabled m' = leaseEnabled m.
Proof.
  intros Hm. unfold schedule, reject. cbv beta zeta.
  set (na := if 0 <? ForceSyncInterval vn then _ else _).
  assert (TimeoutQueue.wf na.1) as Ha by (subst na; destruct (0 <? ForceSyncInterval vn); [apply offer_wf|]; apply Hm).
  destruct na as [a ea]. cbn [fst] in Ha.
  assert (wf (set_queues a (podForceSyncQ m) (mirrorUpdateQ m) (leaseUpdateQ m) m)) as Hm1 by (apply wf_set_queues; try done; apply Hm).
  destruct ea; [eexists _, _; split; [done|]; split; [by apply call_wf|done]|].
  cbn [set_queues nodeForceSyncQ podForceSyncQ mirrorUpdateQ leaseUpdateQ leaseEnabled nodeUpdateInterval leaseUpdateInterval].
  set (nb := if (0 <? PodForceSyncInterval vn) && b then _ else _).
  assert (TimeoutQueue.wf nb.1) as Hb by (subst nb; destruct ((0 <? PodForceSyncInterval vn) && b); [apply offer_wf|]; apply Hm).
  destruct nb as [b' eb]. cbn [fst] in Hb.
  assert (wf (set_queues a b' (mirrorUpdateQ m) (leaseUpdateQ m) m)) as Hm2 by (apply wf_set_queues; try done; apply Hm).
  destruct eb; [eexists _, _; split; [done|]; split; [by apply call_wf|done]|].
  pose proof (wf_one m Hm) as Hone. destruct (leaseEnabled m) eqn:Hl.
  - destruct (forget_spec (name vn) _ (wf_mirror m Hm)) as (c & -> & Hc). cbn [mbind outcome_bind].
    pose proof (offer_wf (at_ i 2) (name vn) (leaseUpdateInterval m) (Jitter i (leaseUpdateInterval m)) _ (wf_lease m Hm)) as Hd.
    destruct (OfferWithDelay _ _ _ _ (leaseUpdateQ m)) as [d [e|] ]; eexists _, _; (split; [done|]); (split; [|done]); try apply call_wf;
      (constructor; cbn; [done|done|apply Hc|done|apply Hm|rewrite Hl; by eapply forgets_nil]).
  - destruct (forget_spec (name vn) _ (wf_lease m Hm)) as (d & -> & Hd). cbn [mbind outcome_bind].
    pose proof (offer_wf (at_ i 2) (name vn) (nodeUpdateInterval m) (Jitter i (nodeUpdateInterval m)) _ (wf_mirror m Hm)) as Hc.
    destruct (OfferWithDelay _ _ _ _ (mirrorUpdateQ m)) as [c [e|] ]; eexists _, _; (split; [done|]); (split; [|done]); try apply call_wf;
      (constructor; cbn; [done|done|done|apply Hd|apply Hm|rewrite Hl; by eapply forgets_nil]).
Qed.
Lemma connected_wf vn i m :
  wf m → ∃ m' b, OnVirtualNodeConnected vn i m = Ret (m', b) ∧ wf m' ∧ leaseEnabled m' = leaseEnabled m.
Proof.
  intros Hm. unfold OnVirtualNodeConnected.
  assert (∃ m1 b, connect vn i m = Ret (m1, b) ∧ wf m1 ∧ leaseEnabled m1 = leaseEnabled m) as (m1 & b & -> & Hm1 & Hl1).
  { unfold connect. cbn [doPerQueue mbind outcome_bind]. pose proof (allow_all (name vn) m Hm) as Hm0.
    set (m0 := set_queues _ _ _ _ m) in *. unfold reject.
    destruct (nodeSync i); [eexists _, _; split; [done|]; split; [by do 2 apply call_wf|done]|].
    set (m1 := call (SyncDevicePods _) _). assert (wf m1) as Hm1 by (by do 2 apply call_wf).
    destruct (podSync i) as [ [ [|] ?]|]; [exact (schedule_wf vn i false m1 Hm1)| |exact (schedule_wf vn i true m1 Hm1)].
    eexists _, _. split; [done|]. split; [by apply call_wf|done]. }
  cbn [mbind outcome_bind]. destruct b; [by eexists _, _|].
  destruct (forget_all (name vn) m1 Hm1) as (m2 & Hf & _ & Hm2 & _ & _ & Hl2). unfold OnVirtualNodeDisconnected. rewrite Hf.
  cbn [mbind outcome_bind]. eexists _, _. split; [done|]. split; [by apply call_wf|]. cbn. congruence.
Qed.
Lemma consume_wf work reason again put q t d m :
  wf m → (∀ m' vn, wf m' → leaseEnabled m' = leaseEnabled m → wf (put (again vn (q m')) m')) →
  wf (consume work reason again put q t d m).
Proof.
  intros Hm Hp. unfold consume. destruct (Get (Key t) m) as [vn|]; [|done]. destruct (connected d); [|done].
  destruct (failure d); [by do 2 apply call_wf|]. apply Hp; [by apply call_wf|done].
Qed.

Lemma consume_lease work reason again put q t d m :
  (∀ q m, leaseEnabled (put q m) = leaseEnabled m) → leaseEnabled (consume work reason again put q t d m) = leaseEnabled m.
Proof.
  intros Hp. unfold consume. destruct (Get (Key t) m) as [vn|]; [|done]. destruct (connected d); [|done].
  destruct (failure d); [done|]. by rewrite Hp.
Qed.

Lemma sort_nil swaps t (q q' : Queue) due :
  TimeoutQueue.wf q → in_range (length (data q)) swaps → sort swaps t q = Ret (q', due) →
  TimeoutQueue.wf q' ∧ (data q = [] → data q' = []).
Proof.
  intros Hq Hr Hs. destruct (sort_wf swaps t q Hq Hr) as (q1 & due1 & Hs1 & Hw & _ & _ & _ & Hp). rewrite Hs in Hs1. injection Hs1 as <- <-.
  split; [done|]. intros Hn. rewrite Hn in Hp. symmetry in Hp. apply Permutation_nil_l in Hp. symmetry in Hp. by apply app_eq_nil in Hp as [? _].
Qed.

Lemma manager_step_wf m m' : wf m → step m m' → wf m' ∧ leaseEnabled m' = leaseEnabled m.
Proof.
  intros Hm Hs. pose proof (wf_one m Hm) as Hone.
  destruct Hs as [m' Hs|vn m' e Ha|n|vn i m' b Hc|vn m' Hd|swaps t q due Hr Hs|swaps t q due Hr Hs|swaps t q due Hr Hs|swaps t q due Hr Hs
                 |t d|t d|t d Hl|t d Hl].
  - injection Hs as <-. split; [|done].
    assert (∀ q : Queue, TimeoutQueue.wf q → TimeoutQueue.wf (TimeoutQueue.Start q) ∧ data (TimeoutQueue.Start q) = data q) as Hq.
    { intros q Hq. unfold TimeoutQueue.Start. destruct (running q); [done|]. split; [|done]. constructor; apply Hq. }
    apply wf_set_queues; try apply Hq; try apply Hm. destruct (leaseEnabled m); [by rewrite (proj2 (Hq _ (wf_mirror m Hm)))|by rewrite (proj2 (Hq _ (wf_lease m Hm)))].
  - unfold Add in Ha. destruct (nodes m !! name vn) as [x|] eqn:Hx; [by injection Ha as <- _|].
    assert (wf (set_nodes (<[name vn := vn]> (nodes m)) m)) as Hm1.
    { constructor; cbn; try apply Hm. intros n x. destruct (decide (name vn = n)) as [<-|Hne];
        [rewrite lookup_insert_eq; by intros [= <-]|rewrite lookup_insert_ne by done; apply Hm]. }
    destruct (forget_all (name vn) _ Hm1) as (m2 & Hf & _ & Hm2 & _ & _ & Hl). rewrite Hf in Ha. cbn [mbind outcome_bind] in Ha.
    by injection Ha as <- _.
  - unfold Delete. destruct (nodes m !! n); [|done]. split; [|done]. constructor; cbn; try apply Hm.
    intros n' x [_ Hx]%lookup_delete_Some. by apply Hm.
  - destruct (connected_wf vn i m Hm) as (m1 & b1 & Hc1 & Hw & Hl). rewrite Hc in Hc1. by injection Hc1 as <- _.
  - unfold OnVirtualNodeDisconnected in Hd. destruct (forget_all (name vn) m Hm) as (m1 & Hf & _ & Hm1 & _ & _ & Hl).
    rewrite Hf in Hd. injection Hd as <-. split; [by apply call_wf|exact Hl].
  - destruct (sort_nil _ _ _ _ _ (wf_node m Hm) Hr Hs) as [Hw _]. split; [|done]. apply wf_set_queues; try done; apply Hm.
  - destruct (sort_nil _ _ _ _ _ (wf_pod m Hm) Hr Hs) as [Hw _]. split; [|done]. apply wf_set_queues; try done; apply Hm.
  - destruct (sort_nil _ _ _ _ _ (wf_mirror m Hm) Hr Hs) as [Hw Hn]. split; [|done]. apply wf_set_queues; try done; try apply Hm.
    destruct (leaseEnabled m); [by apply Hn|done].
  - destruct (sort_nil _ _ _ _ _ (wf_lease m Hm) Hr Hs) as [Hw Hn]. split; [|done]. apply wf_set_queues; try done; try apply Hm.
    destruct (leaseEnabled m); [done|by apply Hn].
  - split; [|by apply consume_lease]. apply consume_wf; [done|]. intros m' vn Hm' Hl.
    apply wf_set_queues; try done; try apply offer_wf; try apply Hm'.
  - split; [|by apply consume_lease]. apply consume_wf; [done|]. intros m' vn Hm' Hl.
    apply wf_set_queues; try done; try apply offer_wf; try apply Hm'.
  - split; [|by apply consume_lease]. apply consume_wf; [done|]. intros m' vn Hm' Hl'.
    apply wf_set_queues; try done; try apply offer_wf; try apply Hm'. pose proof (wf_one m' Hm') as H1. rewrite Hl', Hl in *. done.
  - split; [|by apply consume_lease]. apply consume_wf; [done|]. intros m' vn Hm' Hl'.
    apply wf_set_queues; try done; try apply offer_wf; try apply Hm'. pose proof (wf_one m' Hm') as H1. rewrite Hl', Hl in *. done.
Qed.

(** The periodic work in every run, whatever devices come and go: with leases on, no node is ever queued for the mirror update of its
    status, and with leases off none for the renewal of its lease; every name of the table is that of its node; the four queues stay well
    formed, so that nothing panics; and a device can always connect and disconnect. *)
Lemma one_periodic_update mirror lease enabled m :
  reachable mirror lease enabled m →
  (if enabled then Remains (mirrorUpdateQ m) = [] else Remains (leaseUpdateQ m) = []) ∧
  (∀ n vn, Get n m = Some vn → name vn = n) ∧
  TimeoutQueue.wf (nodeForceSyncQ m) ∧ TimeoutQueue.wf (podForceSyncQ m) ∧ TimeoutQueue.wf (mirrorUpdateQ m) ∧
  TimeoutQueue.wf (leaseUpdateQ m) ∧
  (∀ vn i, ∃ m' b, OnVirtualNodeConnected vn i m = Ret (m', b)) ∧ (∀ vn, ∃ m', OnVirtualNodeDisconnected vn m = Ret m').
Proof.
  intros Hr. assert (wf m ∧ leaseEnabled m = enabled) as [Hm Hl].
  { induction Hr as [|m m' _ [IH1 IH2] Hs]; [|destruct (manager_step_wf _ _ IH1 Hs); split; [done|congruence] ].
    split; [|done]. assert (TimeoutQueue.wf (NewTimeoutQueue : Queue)) as Hq.
    { constructor; cbn; [intros k i; by rewrite lookup_empty|by intros x ?%elem_of_nil]. }
    constructor; cbn; try done. by destruct enabled. }
  pose proof (wf_one m Hm) as Hone. rewrite Hl in Hone. split_and!; try apply Hm; [done| |].
  - intros vn i. destruct (connected_wf vn i m Hm) as (m' & b & Hc & _). by exists m', b.
  - intros vn. destruct (disconnect_spec vn m Hm) as (m' & Hd & _). by exists m'.
Qed.

(** A second message that the device is online, with no disconnection between, schedules all the periodic work a second time: the queues
    then hold the name twice, and the disconnection takes out one of the two. *)
Definition dev : VirtualNode := {| name := "dev"; ForceSyncInterval := 60; PodForceSyncInterval := 0 |}.
Definition first_sync : Initial := {| nodeSync := None; podSync := None; at_ := λ _, 1000; Jitter := id |}.
Definition started_manager : outcome Manager := Start (NewVirtualNodeManager Second Second true).
Definition online (m : Manager) : outcome Manager := '(m, _) ← OnVirtualNodeConnected dev first_sync m; Ret m.
Example online_twice :
  (m ← started_manager; m ← online m; m ← online m; Ret (Key <$> Remains (nodeForceSyncQ m), Key <$> Remains (leaseUpdateQ m))) =
    Ret (["dev"; "dev"], ["dev"; "dev"]) ∧
  (m ← started_manager; m ← online m; m ← online m; m ← OnVirtualNodeDisconnected dev m;
   Ret (Key <$> Remains (nodeForceSyncQ m), Key <$> Remains (leaseUpdateQ m))) = Ret (["dev"], ["dev"]).
Proof. split; by vm_compute. Qed.
End VnManager.

(** ** The pod CIDRs *)
Module NetworkManager.
Record Manager := { ExtraAllowedCIDRs : list string; podIPv4CIDRStore : string; podIPv6CIDRStore : string }.
Definition NewManager (extra : list string) : Manager := {| ExtraAllowedCIDRs := extra; podIPv4CIDRStore := ""; podIPv6CIDRStore := "" |}.
Definition GetPodCIDR (ipv6 : bool) (m : Manager) : string := if ipv6 then podIPv6CIDRStore m else podIPv4CIDRStore m.
Definition SetPodCIDRs (ipv4 ipv6 : string) (m : Manager) : Manager :=
  let m := if decide (ipv4 ≠ "" ∧ ipv4 ≠ GetPodCIDR false m)
           then {| ExtraAllowedCIDRs := ExtraAllowedCIDRs m; podIPv4CIDRStore := ipv4; podIPv6CIDRStore := podIPv6CIDRStore m |} else m in
  if decide (ipv6 ≠ "" ∧ ipv6 ≠ GetPodCIDR true m)
  then {| ExtraAllowedCIDRs := ExtraAllowedCIDRs m; podIPv4CIDRStore := podIPv4CIDRStore m; podIPv6CIDRStore := ipv6 |} else m.
Definition hasPodCIDR (m : Manager) : bool := bool_decide (GetPodCIDR false m ≠ "") || bool_decide (GetPodCIDR true m ≠ "").
Definition AllowedCIDRs (m : Manager) : list string :=
  ExtraAllowedCIDRs m ++ (if decide (GetPodCIDR false m = "") then [] else [GetPodCIDR false m]) ++
                         (if decide (GetPodCIDR true m = "") then [] else [GetPodCIDR true m]).

(** Of a history of assignments the last that is not empty, of each family, is kept. *)
Definition last_given (given : list string) : string := default "" (last (filter (λ s, s ≠ "") given)).
Lemma last_given_snoc l s : last_given (l ++ [s]) = if decide (s = "") then last_given l else s.
Proof.
  unfold last_given. rewrite filter_app, filter_cons. cbn [filter list_filter].
  destruct (decide (s = "")) as [->|Hs]; [by rewrite decide_False, app_nil_r by (intros Hn; by apply Hn)|].
  rewrite decide_True by done. by rewrite last_snoc.
Qed.
Lemma SetPodCIDRs_spec a b m :
  ExtraAllowedCIDRs (SetPodCIDRs a b m) = ExtraAllowedCIDRs m ∧
  GetPodCIDR false (SetPodCIDRs a b m) = (if decide (a = "") then GetPodCIDR false m else a) ∧
  GetPodCIDR true (SetPodCIDRs a b m) = (if decide (b = "") then GetPodCIDR true m else b).
Proof.
  unfold SetPodCIDRs. destruct (decide (a = "")) as [->|Ha], (decide (b = "")) as [->|Hb];
    repeat case_decide; cbn in *; split_and!; try done; tauto || (destruct_and?; done) || idtac.
  all: match goal with H : ¬ (_ ∧ _) |- _ => apply not_and_l in H as [H|H]; [done|apply dec_stable in H; done] end.
Qed.
Lemma AllowedCIDRs_last extra h :
  let m := foldl (λ m p, SetPodCIDRs p.1 p.2 m) (NewManager extra) h in
  GetPodCIDR false m = last_given h.*1 ∧ GetPodCIDR true m = last_given h.*2 ∧
  AllowedCIDRs m = extra ++ filter (λ s, s ≠ "") [last_given h.*1; last_given h.*2].
Proof.
  set (m := foldl _ _ h). cbv zeta.
  assert (ExtraAllowedCIDRs m = extra ∧ GetPodCIDR false m = last_given h.*1 ∧ GetPodCIDR true m = last_given h.*2) as (He & H4 & H6).
  { subst m. induction h as [|[a b] h IH] using rev_ind; [done|]. rewrite foldl_app, !fmap_app. cbn [foldl fmap list_fmap fst snd].
    rewrite !last_given_snoc. destruct (SetPodCIDRs_spec a b (foldl (λ m p, SetPodCIDRs p.1 p.2 m) (NewManager extra) h)) as (-> & -> & ->).
    by destruct IH as (-> & -> & ->). }
  unfold AllowedCIDRs. rewrite He, H4, H6. split_and!; [done|done|]. f_equal.
  unfold filter, list_filter. by repeat (case_decide; cbn).
Qed.
End NetworkManager.

Module VirtualNodeExamples.
Import NodeReport VnManager.
Definition healthy : NodeConditions := {| Ready := 1; Memory := 1; Disk := 1; Pid := 1; Network := 1 |}.
Definition full_disk : NodeConditions := {| Ready := 1; Memory := 1; Disk := 2; Pid := 1; Network := 1 |}.
Example disk_fills :
  (λ c, (nc_Type c, nc_Status c, nc_LastTransitionTime c)) <$> reports [] [(10, healthy); (20, full_disk); (30, full_disk)] =
    [(NodeReady, "True", 10); (NodeMemoryPressure, "False", 10); (NodeDiskPressure, "True", 20); (NodePIDPressure, "False", 10);
     (NodeNetworkUnavailable, "False", 10)].
Proof. reflexivity. Qed.
Lemma conditions_history_witness :
  ∃ seen, reports [] [(10, healthy); (20, full_disk)] = conditions 20 seen ∧ (seen NodeDiskPressure).1 = "True".
Proof.
  destruct (conditions_history (10, healthy) [(20, full_disk)]) as (seen & Hr & Hs); [by repeat constructor|].
  exists seen. split; [exact Hr|]. destruct (Hs NodeDiskPressure) as [H _]; [|exact H].
  apply (bool_decide_unpack (NodeDiskPressure ∈ types)). vm_compute. exact I.
Defined.

Definition m0 : Manager := match started_manager with Ret m => m | _ => NewVirtualNodeManager Second Second true end.
Definition m1 : Manager := match OnVirtualNodeConnected dev first_sync m0 with Ret (m, _) => m | _ => m0 end.
Lemma m0_wf : VnManager.wf m0.
Proof.
  assert (TimeoutQueue.wf (TimeoutQueue.Start NewTimeoutQueue : Queue)) as Hq.
  { constructor; cbn; [intros k i; by rewrite lookup_empty|by intros x ?%elem_of_nil]. }
  constructor; done.
Qed.
Lemma m0_started : all_started m0.
Proof. done. Qed.
Lemma OnVirtualNodeConnected_correct_witness :
  Key <$> Remains (leaseUpdateQ m1) = ["dev"] ∧ ∃ m', OnVirtualNodeConnected dev first_sync m0 = Ret (m', true).
Proof.
  split; [vm_compute; reflexivity|].
  destruct (OnVirtualNodeConnected_correct dev first_sync m0 m0_wf m0_started) as (m' & H & _). exists m'. exact H.
Defined.
Lemma m1_wf : VnManager.wf m1.
Proof. destruct (connected_wf dev first_sync m0 m0_wf) as (m' & b & Hc & Hw & _). unfold m1. by rewrite Hc. Qed.
Lemma OnVirtualNodeDisconnected_correct_witness :
  ∃ m', OnVirtualNodeDisconnected dev m1 = Ret m' ∧ (OfferWithDelay 0 "dev" 60 60 (nodeForceSyncQ m')).2 ≠ None.
Proof.
  destruct (OnVirtualNodeDisconnected_correct dev m1 m1_wf) as (m' & H & _ & _ & _ & _ & Ho).
  exists m'. split; [exact H|]. destruct (Ho 0 60 60) as [H1 _]. exact H1.
Defined.
Lemma one_periodic_update_witness : Remains (mirrorUpdateQ m1) = [] ∧ Remains (leaseUpdateQ m1) ≠ [].
Proof.
  assert (reachable Second Second true m1) as Hr.
  { eapply reach_step; [eapply reach_step; [apply reach_new|apply (StepStart _ m0); vm_compute; reflexivity]|].
    apply (StepConnected m0 dev first_sync m1 true). vm_compute. reflexivity. }
  destruct (one_periodic_update Second Second true m1 Hr) as [H _]. split; [exact H|vm_compute; discriminate].
Defined.
End VirtualNodeExamples.
