(* ===== verification/Peripheral.v ===== *)
(** * Peripherals

    What an EdgeDevice says of its peripherals and metrics reporters, translated to the commands of the device
    (preparePeripheralOptions and createPeripheralConnector of src/pkg/controller/edgedevice), and the peripheral manager of a virtual
    node (src/pkg/virtualnode/peripheral) that has the device carry them out. Bytes are strings; the device answers by arguments. *)
From S2P Require Import Prelude GoNet K8s Api.
Open Scope Z_scope.

(** ** Connectors *)
Module Connector.

Definition accessMap (d1 d2 : gmap string string) (key : string) : option string :=
  match d1 !! key with Some v => Some v | None => d2 !! key end.

(** strings.ToUpper on ASCII; the versions looked up are ASCII. *)
Definition upper (c : Ascii.ascii) : Ascii.ascii :=
  let n := Ascii.nat_of_ascii c in if ((97 <=? n) && (n <=? 122))%nat then Ascii.ascii_of_nat (n - 32) else c.
Fixpoint ToUpper (s : string) : string :=
  match s with EmptyString => EmptyString | String c s => String (upper c) (ToUpper s) end.

(** The versions and cipher suites, with the values of crypto/tls. *)
Definition VersionTLS12 : Z := 0x0303.
Definition VersionTLS13 : Z := 0x0304.
Definition tlsVersions : gmap string Z :=
  list_to_map [("TLS10", 0x0301); ("TLS11", 0x0302); ("TLS12", VersionTLS12); ("TLS13", VersionTLS13)].
Definition cipherSuites : gmap string Z := list_to_map [
  ("TLS_RSA_WITH_RC4_128_SHA", 0x0005); ("TLS_RSA_WITH_3DES_EDE_CBC_SHA", 0x000a); ("TLS_RSA_WITH_AES_128_CBC_SHA", 0x002f);
  ("TLS_RSA_WITH_AES_256_CBC_SHA", 0x0035); ("TLS_RSA_WITH_AES_128_CBC_SHA256", 0x003c); ("TLS_RSA_WITH_AES_128_GCM_SHA256", 0x009c);
  ("TLS_RSA_WITH_AES_256_GCM_SHA384", 0x009d); ("TLS_ECDHE_ECDSA_WITH_RC4_128_SHA", 0xc007);
  ("TLS_ECDHE_ECDSA_WITH_AES_128_CBC_SHA", 0xc009); ("TLS_ECDHE_ECDSA_WITH_AES_256_CBC_SHA", 0xc00a);
  ("TLS_ECDHE_RSA_WITH_RC4_128_SHA", 0xc011); ("TLS_ECDHE_RSA_WITH_3DES_EDE_CBC_SHA", 0xc012);
  ("TLS_ECDHE_RSA_WITH_AES_128_CBC_SHA", 0xc013); ("TLS_ECDHE_RSA_WITH_AES_256_CBC_SHA", 0xc014);
  ("TLS_ECDHE_ECDSA_WITH_AES_128_CBC_SHA256", 0xc023); ("TLS_ECDHE_RSA_WITH_AES_128_CBC_SHA256", 0xc027);
  ("TLS_ECDHE_RSA_WITH_AES_128_GCM_SHA256", 0xc02f); ("TLS_ECDHE_ECDSA_WITH_AES_128_GCM_SHA256", 0xc02b);
  ("TLS_ECDHE_RSA_WITH_AES_256_GCM_SHA384", 0xc030); ("TLS_ECDHE_ECDSA_WITH_AES_256_GCM_SHA384", 0xc02c);
  ("TLS_ECDHE_RSA_WITH_CHACHA20_POLY1305", 0xcca8); ("TLS_ECDHE_ECDSA_WITH_CHACHA20_POLY1305", 0xcca9);
  ("TLS_AES_128_GCM_SHA256", 0x1301); ("TLS_AES_256_GCM_SHA384", 0x1302); ("TLS_CHACHA20_POLY1305_SHA256", 0x1303);
  ("TLS_FALLBACK_SCSV", 0x5600);
  ("TLS_ECDHE_ECDSA_WITH_AES_128_CCM", 0xc0ac); ("TLS_ECDHE_ECDSA_WITH_AES_128_CCM_8", 0xc0ae);
  ("TLS_PSK_WITH_AES_128_CCM", 0xc0a4); ("TLS_PSK_WITH_AES_128_CCM_8", 0xc0a8); ("TLS_PSK_WITH_AES_128_GCM_SHA256", 0x00a8)].

(** aranyagopb.TLSConfig and Connectivity *)
Record TLSConfig := {
  ServerName : string; InsecureSkipVerify : bool; MinVersion : Z; MaxVersion : Z; CipherSuites : list Z; NextProtos : list string;
  Cert : string; Key : string; CaCert : string
}.
Record Connectivity := { Method : string; Target : string; Params : gmap string string; Tls : option TLSConfig }.

Definition TLSCertKey : string := "tls.crt".
Definition TLSPrivateKeyKey : string := "tls.key".
Definition TLSCaCertKey : string := "ca.crt".

Section Connector.
Context (getSysSecretObject : string → option Secret).

Fixpoint cipher_values (l : list string) : result (list Z) :=
  match l with
  | [] => Ok []
  | s :: l => match cipherSuites !! s with
              | None => Err ("unsupported cipher suite: " +:+ quote s)
              | Some v => vs ← cipher_values l; Ok (v :: vs)
              end
  end.
(** The bytes of the certificate, the key and the certificate of the authority. *)
Definition cert_data (ref : option string) : result (string * string * string) :=
  match ref with
  | None => Ok ("", "", "")
  | Some name =>
      match getSysSecretObject name with
      | None => Err ("failed to retrieve connectivity tls cert data from secret " +:+ quote "nil")
      | Some s => let get := accessMap (sec_StringData s) (sec_Data s) in
                  Ok (default "" (get TLSCertKey), default "" (get TLSPrivateKeyKey), default "" (get TLSCaCertKey))
      end
  end.
Definition tls_config (t : PeripheralTLSConfig) : result TLSConfig :=
  cs ← cipher_values (ptls_CipherSuites t);
  '(cert, key, ca) ← cert_data (ptls_CertSecretRef t);
  Ok {| ServerName := ptls_ServerName t; InsecureSkipVerify := ptls_InsecureSkipVerify t;
        MinVersion := default VersionTLS12 (tlsVersions !! ToUpper (ptls_MinVersion t));
        MaxVersion := default VersionTLS13 (tlsVersions !! ToUpper (ptls_MaxVersion t));
        CipherSuites := cs; NextProtos := ptls_NextProtos t; Cert := cert; Key := key; CaCert := ca |}.
Definition createPeripheralConnector (spec : PeripheralConnectivitySpec) : result Connectivity :=
  tls ← match pcs_TLS spec with None => Ok None | Some t => c ← tls_config t; Ok (Some c) end;
  Ok {| Method := pcs_Method spec; Target := pcs_Target spec; Params := pcs_Params spec; Tls := tls |}.

(** When a connector can be made: its cipher suites are known and its secret is there. *)
Definition connector_ok (spec : PeripheralConnectivitySpec) : Prop :=
  ∀ t, pcs_TLS spec = Some t →
    (∀ s, s ∈ ptls_CipherSuites t → is_Some (cipherSuites !! s)) ∧
    (∀ name, ptls_CertSecretRef t = Some name → is_Some (getSysSecretObject name)).
Lemma cipher_values_ok l : (∃ vs, cipher_values l = Ok vs) ↔ ∀ s, s ∈ l → is_Some (cipherSuites !! s).
Proof.
  induction l as [|s l IH]; cbn [cipher_values]; [split; [by intros _ s ?%elem_of_nil|by exists []]|].
  destruct (cipherSuites !! s) as [v|] eqn:Hs.
  - split.
    + intros [vs Hvs] x [->|Hx]%elem_of_cons; [by rewrite Hs|]. apply IH; [|done].
      destruct (cipher_values l) as [vs'|]; [by exists vs'|done].
    + intros Ha. destruct (proj2 IH) as [vs ->]; [intros x Hx; apply Ha; by right|by exists (v :: vs)].
  - split; [by intros [? ?]|]. intros Ha. destruct (Ha s) as [v Hv]; [by left|congruence].
Qed.
Lemma cert_data_ok ref : (∃ d, cert_data ref = Ok d) ↔ ∀ name, ref = Some name → is_Some (getSysSecretObject name).
Proof.
  destruct ref as [name|]; cbn; [|split; [done|by eexists] ]. destruct (getSysSecretObject name) as [s|] eqn:Hn; split.
  - intros _ ? [= <-]. by rewrite Hn.
  - by eexists.
  - by intros [? ?].
  - intros Ha. destruct (Ha name eq_refl) as [? ?]. congruence.
Qed.
Lemma createPeripheralConnector_ok spec : (∃ c, createPeripheralConnector spec = Ok c) ↔ connector_ok spec.
Proof.
  unfold createPeripheralConnector, connector_ok. destruct (pcs_TLS spec) as [t|]; cbn [mbind result_bind]; [|split; [done|by eexists] ].
  unfold tls_config. pose proof (cipher_values_ok (ptls_CipherSuites t)) as Hc. pose proof (cert_data_ok (ptls_CertSecretRef t)) as Hd.
  destruct (cipher_values _) as [vs|e], (cert_data _) as [ [[cert key] ca]|e']; cbn [mbind result_bind]; (split; [intros [? Ho]; try done|intros Ha; destruct (Ha t eq_refl) as [Hs Hn] ]).
  - intros ? [= <-]. split; [apply Hc; by eexists|apply Hd; by eexists].
  - by eexists.
  - by apply Hd in Hn as [? ?].
  - by apply Hc in Hs as [? ?].
  - by apply Hc in Hs as [? ?].
Qed.
End Connector.
End Connector.

(** ** The options of the peripheral manager *)
Module Options.
Import Connector.

(** aranyagopb: the enumerations as their integers *)
Definition PERIPHERAL_TYPE_NORMAL : Z := 1.
Definition PERIPHERAL_TYPE_METRICS_REPORTER : Z := 2.
Definition REPORT_WITH_NODE_METRICS : Z := 0.
Definition REPORT_WITH_STANDALONE_CLIENT : Z := 2.
Definition METRICS_VALUE_TYPE_UNTYPED : Z := 0.
Definition METRICS_VALUE_TYPE_COUNTER : Z := 1.
Definition METRICS_VALUE_TYPE_GAUGE : Z := 2.

Record PeripheralOperation := { OperationId : string; op_Params : gmap string string }.
Record PeripheralMetric := {
  m_Name : string; PeripheralParams : gmap string string; ValueType : Z; ReportMethod : Z; ReporterName : string;
  ReporterParams : gmap string string
}.
Record PeripheralEnsureCmd := {
  Kind : Z; Name : string; Connector : Connectivity; Operations : list PeripheralOperation; Metrics : list PeripheralMetric
}.
Record Options := { MetricsReporters : gmap string PeripheralEnsureCmd; Peripherals : gmap string PeripheralEnsureCmd }.

Definition VirtualContainerNameHost : string := "host".

(** errors.Wrap of the connector's error *)
Definition connector_of (getSysSecretObject : string → option Secret) (spec : PeripheralConnectivitySpec) : result Connectivity :=
  wrap_err "failed to create peripheral connector: " (createPeripheralConnector getSysSecretObject spec).

Definition report_method (s : string) : result Z :=
  if bool_decide (s = "WithNodeMetrics" ∨ s = "") then Ok REPORT_WITH_NODE_METRICS
  else if bool_decide (s = "WithReporter") then Ok REPORT_WITH_STANDALONE_CLIENT
  else Err ("unsupported metrics report method " +:+ quote s).
Definition value_type (s : string) : Z :=
  if bool_decide (s = "gauge") then METRICS_VALUE_TYPE_GAUGE
  else if bool_decide (s = "counter") then METRICS_VALUE_TYPE_COUNTER else METRICS_VALUE_TYPE_UNTYPED.
Fixpoint metrics_of (l : list PeripheralMetricSpec) : result (list PeripheralMetric) :=
  match l with
  | [] => Ok []
  | m :: l =>
      method ← report_method (pms_ReportMethod m);
      ms ← metrics_of l;
      Ok ({| m_Name := pms_Name m; PeripheralParams := pms_Params m; ValueType := value_type (pms_ValueType m); ReportMethod := method;
             ReporterName := pms_ReporterName m; ReporterParams := pms_ReporterParams m |} :: ms)
  end.
Definition operation_of (op : PeripheralOperationSpec) : PeripheralOperation := {| OperationId := pos_Name op; op_Params := pos_Params op |}.

Section Options.
Context (getSysSecretObject : string → option Secret) (IsDNS1123Label : string → list string).

(** One metrics reporter, and one peripheral; the keys of the maps are the names seen. *)
Definition reporter_step (mrs : gmap string PeripheralEnsureCmd) (mr : PeripheralBaseSpec) : result (gmap string PeripheralEnsureCmd) :=
  let name := pbs_Name mr in
  if bool_decide (name = "") then Err "invalid empty metrics reporter name"
  else if bool_decide (is_Some (mrs !! name)) then Err ("duplicate metrics reporter name " +:+ quote name)
  else
    conn ← connector_of getSysSecretObject (pbs_Connector mr);
    Ok (<[name := {| Kind := PERIPHERAL_TYPE_METRICS_REPORTER; Name := name; Connector := conn; Operations := []; Metrics := [] |}]> mrs).
Definition peripheral_step (peripherals : gmap string PeripheralEnsureCmd) (d : PeripheralSpec) : result (gmap string PeripheralEnsureCmd) :=
  let name := pbs_Name (per_Base d) in
  if bool_decide (name = "" ∨ name = VirtualContainerNameHost) then Err ("invalid peripheral name " +:+ quote name)
  else if bool_decide (IsDNS1123Label name ≠ []) then
    Err ("peripheral name " +:+ quote name +:+ " is not a valid dns label: " +:+ GoNet.join ", " (IsDNS1123Label name))
  else if bool_decide (is_Some (peripherals !! name)) then Err ("duplicate peripheral name " +:+ quote name)
  else
    metrics ← metrics_of (per_Metrics d);
    conn ← connector_of getSysSecretObject (pbs_Connector (per_Base d));
    Ok (<[name := {| Kind := PERIPHERAL_TYPE_NORMAL; Name := name; Connector := conn; Operations := operation_of <$> per_Operations d;
                     Metrics := metrics |}]> peripherals).
Fixpoint steps {A} (step : gmap string PeripheralEnsureCmd → A → result (gmap string PeripheralEnsureCmd))
    (m : gmap string PeripheralEnsureCmd) (l : list A) : result (gmap string PeripheralEnsureCmd) :=
  match l with [] => Ok m | x :: l => m ← step m x; steps step m l end.
Definition preparePeripheralOptions (ed : EdgeDevice) : result Options :=
  mrs ← steps reporter_step ∅ (spec_MetricsReporters (ed_Spec ed));
  peripherals ← steps peripheral_step ∅ (spec_Peripherals (ed_Spec ed));
  Ok {| MetricsReporters := mrs; Peripherals := peripherals |}.

(** What makes an entry acceptable, and its command. *)
Definition method_ok (m : PeripheralMetricSpec) : Prop := pms_ReportMethod m ∈ ["WithNodeMetrics"; ""; "WithReporter"].
Definition reporter_ok (mr : PeripheralBaseSpec) : Prop := pbs_Name mr ≠ "" ∧ connector_ok getSysSecretObject (pbs_Connector mr).
Definition peripheral_ok (d : PeripheralSpec) : Prop :=
  let name := pbs_Name (per_Base d) in
  name ≠ "" ∧ name ≠ VirtualContainerNameHost ∧ IsDNS1123Label name = [] ∧ Forall method_ok (per_Metrics d) ∧
  connector_ok getSysSecretObject (pbs_Connector (per_Base d)).
Definition describes_reporter (mr : PeripheralBaseSpec) (cmd : PeripheralEnsureCmd) : Prop :=
  Kind cmd = PERIPHERAL_TYPE_METRICS_REPORTER ∧ Name cmd = pbs_Name mr ∧ Operations cmd = [] ∧ Metrics cmd = [] ∧
  createPeripheralConnector getSysSecretObject (pbs_Connector mr) = Ok (Connector cmd).
Definition describes_peripheral (d : PeripheralSpec) (cmd : PeripheralEnsureCmd) : Prop :=
  Kind cmd = PERIPHERAL_TYPE_NORMAL ∧ Name cmd = pbs_Name (per_Base d) ∧ Operations cmd = operation_of <$> per_Operations d ∧
  metrics_of (per_Metrics d) = Ok (Metrics cmd) ∧
  createPeripheralConnector getSysSecretObject (pbs_Connector (per_Base d)) = Ok (Connector cmd).

Lemma report_method_ok s : (∃ r, report_method s = Ok r) ↔ s ∈ ["WithNodeMetrics"; ""; "WithReporter"].
Proof. unfold report_method. rewrite !elem_of_cons, elem_of_nil. repeat case_bool_decide; naive_solver. Qed.
Lemma metrics_of_ok l : (∃ ms, metrics_of l = Ok ms) ↔ Forall method_ok l.
Proof.
  induction l as [|m l IH]; cbn [metrics_of]; [split; [by constructor|by eexists]|].
  rewrite Forall_cons, <-IH. unfold method_ok. rewrite <-report_method_ok.
  destruct (report_method _) as [r|e]; cbn [mbind result_bind]; [|naive_solver].
  destruct (metrics_of l) as [ms|e]; cbn [mbind result_bind]; naive_solver.
Qed.
Lemma connector_of_Ok spec c :
  connector_of getSysSecretObject spec = Ok c ↔ createPeripheralConnector getSysSecretObject spec = Ok c.
Proof. unfold connector_of, wrap_err. destruct (createPeripheralConnector _ spec); naive_solver. Qed.

(** A step that adds the entry of an acceptable value under a name not seen. *)
Definition adds {A} (name : A → string) (ok : A → Prop) (describes : A → PeripheralEnsureCmd → Prop)
    (step : gmap string PeripheralEnsureCmd → A → result (gmap string PeripheralEnsureCmd)) : Prop :=
  ∀ m x, match step m x with
         | Ok m' => ok x ∧ m !! name x = None ∧ ∃ cmd, describes x cmd ∧ m' = <[name x := cmd]> m
         | Err _ => ¬ ok x ∨ is_Some (m !! name x)
         end.
Lemma reporter_step_adds : adds pbs_Name reporter_ok describes_reporter reporter_step.
Proof.
  intros m mr. unfold reporter_step, reporter_ok. case_bool_decide as Hn; [by left; intros [? ?]|]. case_bool_decide as Hm; [by right|].
  rewrite <-eq_None_not_Some in Hm.
  destruct (connector_of _ _) as [c|e] eqn:Hc; cbn [mbind result_bind]; rewrite <-createPeripheralConnector_ok.
  - apply connector_of_Ok in Hc. split; [split; [done|by exists c]|split; [done|] ]. eexists. split; [|reflexivity]. done.
  - left. intros [_ [c Ho%connector_of_Ok]]. congruence.
Qed.
Lemma peripheral_step_adds : adds (pbs_Name ∘ per_Base) peripheral_ok describes_peripheral peripheral_step.
Proof.
  intros m d. unfold peripheral_step, peripheral_ok. cbn [compose]. cbv zeta. case_bool_decide as Hn; [left; naive_solver|].
  case_bool_decide as Hl; [by left; intros (_ & _ & ? & _)|]. case_bool_decide as Hm; [by right|].
  rewrite <-eq_None_not_Some in Hm. pose proof (metrics_of_ok (per_Metrics d)) as Hmo.
  destruct (metrics_of _) as [ms|e] eqn:Hms; cbn [mbind result_bind]; [|left; naive_solver].
  destruct (connector_of _ _) as [c|e] eqn:Hc; cbn [mbind result_bind]; rewrite <-createPeripheralConnector_ok.
  - apply connector_of_Ok in Hc. split; [split_and!; [naive_solver|naive_solver|done|apply Hmo; by eexists|by exists c]|split; [done|] ]. eexists. split; [|reflexivity]. done.
  - left. intros (_ & _ & _ & _ & [c Ho%connector_of_Ok]). congruence.
Qed.

(** Steps that add: they succeed on acceptable values with different names, and give every name its entry. *)
Lemma steps_adds {A} name ok describes (step : gmap string PeripheralEnsureCmd → A → _) l m :
  adds name ok describes step →
  match steps step m l with
  | Ok m' => Forall ok l ∧ NoDup (name <$> l) ∧ (∀ k, k ∉ name <$> l → m' !! k = m !! k) ∧
             (∀ x, x ∈ l → m !! name x = None ∧ ∃ cmd, m' !! name x = Some cmd ∧ describes x cmd)
  | Err _ => ¬ (Forall ok l ∧ NoDup (name <$> l) ∧ ∀ x, x ∈ l → m !! name x = None)
  end.
Proof.
  intros Hs. revert m. induction l as [|x l IH]; intros m; cbn [steps].
  { split_and!; [constructor|constructor|done|]. by intros ? ?%elem_of_nil. }
  specialize (Hs m x). destruct (step m x) as [m1|e]; cbn [mbind result_bind].
  - destruct Hs as (Hok & Hm & cmd & Hd & ->). specialize (IH (<[name x := cmd]> m)). cbn [fmap list_fmap].
    destruct (steps step _ l) as [m'|e].
    + destruct IH as (Hl & Hnd & Hk & Hx).
      assert (name x ∉ name <$> l) as Hni.
      { intros (y & Hy & Hin)%list_elem_of_fmap. destruct (Hx y Hin) as [Hn _]. rewrite <-Hy, lookup_insert_eq in Hn. done. }
      split_and!; [by constructor|by constructor| |].
      * intros k [Hne Hkl]%not_elem_of_cons. rewrite Hk, lookup_insert_ne; done.
      * intros y [->|Hy]%elem_of_cons; [split; [done|]; exists cmd; split; [|done]; rewrite Hk by done; apply lookup_insert_eq|].
        destruct (Hx y Hy) as [Hn Hc]. split; [|done]. rewrite lookup_insert_ne in Hn; [done|].
        intros Heq. apply Hni. rewrite Heq. by apply list_elem_of_fmap_2.
    + intros ([_ Hl]%Forall_cons & [Hni Hnd]%NoDup_cons & Hx). apply IH. split_and!; [done|done|]. intros y Hy.
      rewrite lookup_insert_ne; [apply Hx; by right|]. intros Heq. apply Hni. rewrite Heq. by apply list_elem_of_fmap_2.
  - intros ([Hok _]%Forall_cons & _ & Hx). destruct Hs as [?|[c Hc]]; [done|]. rewrite (Hx x) in Hc by left. done.
Qed.

Lemma dom_of_names {A} (name : A → string) (P : A → PeripheralEnsureCmd → Prop) (m : gmap string PeripheralEnsureCmd) l :
  (∀ k, k ∉ name <$> l → m !! k = (∅ : gmap string PeripheralEnsureCmd) !! k) →
  (∀ x, x ∈ l → ∃ cmd, m !! name x = Some cmd ∧ P x cmd) → dom m = list_to_set (name <$> l).
Proof.
  intros Hk Hx. apply set_eq. intros k. rewrite elem_of_dom, elem_of_list_to_set. split.
  - intros [c Hc]. destruct (decide (k ∈ name <$> l)) as [|Hn]; [done|]. by rewrite (Hk _ Hn), lookup_empty in Hc.
  - intros (x & -> & Hin)%list_elem_of_fmap. destruct (Hx x Hin) as (c & Hc & _). by exists c.
Qed.

(** What the specification has to be. *)
Definition spec_ok (ed : EdgeDevice) : Prop :=
  let reporters := spec_MetricsReporters (ed_Spec ed) in let peripherals := spec_Peripherals (ed_Spec ed) in
  Forall reporter_ok reporters ∧ NoDup (pbs_Name <$> reporters) ∧
  Forall peripheral_ok peripherals ∧ NoDup ((pbs_Name ∘ per_Base) <$> peripherals).

(** PreparePeripheralOptions succeeds exactly on specifications whose metrics reporters and peripherals have acceptable, different
    names (reporters and peripherals apart), known report methods and connectors that can be made; its two maps have an entry for every
    one of them, that describes it, and no other. *)
Lemma preparePeripheralOptions_correct ed :
  match preparePeripheralOptions ed with
  | Err _ => ¬ spec_ok ed
  | Ok o =>
      spec_ok ed ∧
      (∀ mr, mr ∈ spec_MetricsReporters (ed_Spec ed) → ∃ cmd, MetricsReporters o !! pbs_Name mr = Some cmd ∧ describes_reporter mr cmd) ∧
      (∀ d, d ∈ spec_Peripherals (ed_Spec ed) → ∃ cmd, Peripherals o !! pbs_Name (per_Base d) = Some cmd ∧ describes_peripheral d cmd) ∧
      dom (MetricsReporters o) = list_to_set (pbs_Name <$> spec_MetricsReporters (ed_Spec ed)) ∧
      dom (Peripherals o) = list_to_set ((pbs_Name ∘ per_Base) <$> spec_Peripherals (ed_Spec ed))
  end.
Proof.
  unfold preparePeripheralOptions, spec_ok. cbv zeta.
  pose proof (steps_adds _ _ _ _ (spec_MetricsReporters (ed_Spec ed)) ∅ reporter_step_adds) as Hr.
  pose proof (steps_adds _ _ _ _ (spec_Peripherals (ed_Spec ed)) ∅ peripheral_step_adds) as Hp.
  destruct (steps reporter_step _ _) as [mrs|e]; cbn [mbind result_bind]; [|intros (? & ? & _); apply Hr; split_and!; done].
  destruct (steps peripheral_step _ _) as [ps|e]; cbn [mbind result_bind]; [|intros (_ & _ & ? & ?); apply Hp; split_and!; done].
  destruct Hr as (? & ? & Hrk & Hrx), Hp as (? & ? & Hpk & Hpx). cbn [MetricsReporters Peripherals]. split_and!; try done.
  - intros mr Hin. by apply Hrx.
  - intros d Hin. by apply Hpx.
  - exact (dom_of_names _ _ _ _ Hrk (λ x Hx, proj2 (Hrx x Hx))).
  - exact (dom_of_names _ _ _ _ Hpk (λ x Hx, proj2 (Hpx x Hx))).
Qed.
End Options.
End Options.

(** ** The peripheral manager *)
Module PeripheralManager.
Import Options.

Definition PERIPHERAL_STATE_CONNECTED : Z := 2.
Definition CMD_PERIPHERAL_LIST : Z := 51.
Definition CMD_PERIPHERAL_ENSURE : Z := 52.
Definition CMD_PERIPHERAL_DELETE : Z := 53.
Definition CMD_PERIPHERAL_OPERATE : Z := 54.
Definition CMD_PERIPHERAL_COLLECT_METRICS : Z := 55.

Record PeripheralStatusMsg := { ps_Kind : Z; ps_Name : string; ps_State : Z }.
(** A message, decoded; [MOther] is one of another kind. *)
Inductive Msg :=
  | MError (e : string) | MStatus (s : PeripheralStatusMsg) | MStatusList (l : list PeripheralStatusMsg)
  | MOperationResult (data : list string) | MOther.
(** What PostCmd answers: an error and no channel, or the messages that come before the channel is closed. *)
Inductive posted := PostErr (e : string) | Posted (msgs : list Msg).

(** connectivity.HandleMessages: the rest is drained once the handler has asked to stop *)
Fixpoint HandleMessages {S} (onMsg : Msg → S → bool * S) (msgs : list Msg) (s : S) : S :=
  match msgs with
  | [] => s
  | msg :: msgs => let '(exit, s) := onMsg msg s in if exit : bool then s else HandleMessages onMsg msgs s
  end.

(** The map of pointers of the code; a missing key reads as nil. *)
Abbreviation cmds := (gmap string (option PeripheralEnsureCmd)).

(** *** One connection of the device *)
Record plan := { devicesToRemove : gset string; failedPeripherals : cmds; ensuredPeripherals : cmds; failedMRs : cmds; ensuredMRs : cmds }.
Definition no_plan : plan :=
  {| devicesToRemove := ∅; failedPeripherals := ∅; ensuredPeripherals := ∅; failedMRs := ∅; ensuredMRs := ∅ |}.
Definition remove (name : string) (p : plan) : plan :=
  {| devicesToRemove := {[name]} ∪ devicesToRemove p; failedPeripherals := failedPeripherals p;
     ensuredPeripherals := ensuredPeripherals p; failedMRs := failedMRs p; ensuredMRs := ensuredMRs p |}.
Definition put (is_mr ensured : bool) (d : PeripheralEnsureCmd) (p : plan) : plan :=
  let ins (here : bool) (m : cmds) : cmds := if here then <[Name d := Some d]> m else m in
  {| devicesToRemove := devicesToRemove p;
     failedPeripherals := ins (negb is_mr && negb ensured) (failedPeripherals p);
     ensuredPeripherals := ins (negb is_mr && ensured) (ensuredPeripherals p);
     failedMRs := ins (is_mr && negb ensured) (failedMRs p); ensuredMRs := ins (is_mr && ensured) (ensuredMRs p) |}.
Definition classify (o : Options) (p : plan) (ds : PeripheralStatusMsg) : plan :=
  let check (is_mr : bool) (options : gmap string PeripheralEnsureCmd) :=
    match options !! ps_Name ds with
    | Some d => put is_mr (bool_decide (ps_Name ds = Name d) && (ps_State ds =? PERIPHERAL_STATE_CONNECTED)) d p
    | None => remove (ps_Name ds) p
    end in
  if ps_Kind ds =? PERIPHERAL_TYPE_NORMAL then check false (Peripherals o)
  else if ps_Kind ds =? PERIPHERAL_TYPE_METRICS_REPORTER then check true (MetricsReporters o)
  else remove (ps_Name ds) p.
Definition on_list_msg (o : Options) (msg : Msg) (st : plan * option string) : bool * (plan * option string) :=
  match msg with
  | MError e => (true, (st.1, Some e))
  | MStatusList l => (false, (foldl (classify o) st.1 l, st.2))
  | _ => (true, st)
  end.
(** From the listing to what the two goroutines work on; nothing when the listing failed. *)
Definition list_peripherals (o : Options) (answer : posted) : option plan :=
  match answer with
  | PostErr _ => None
  | Posted msgs => match HandleMessages (on_list_msg o) msgs (no_plan, None) with (p, None) => Some p | (_, Some _) => None end
  end.

(** *** Removing and ensuring *)
Definition on_remove_msg (msg : Msg) (todo : gset string) : bool * gset string :=
  match msg with MStatusList l => (false, todo ∖ list_to_set (ps_Name <$> l)) | _ => (true, todo) end.
Definition removePeripherals (todo : gset string) (answer : posted) : gset string :=
  if decide (todo = ∅) then todo
  else match answer with PostErr _ => todo | Posted msgs => HandleMessages on_remove_msg msgs todo end.

(** nextRound[d.Name] = failedPeripherals[d.Name] *)
Definition again (failed : cmds) (d : PeripheralEnsureCmd) (next : cmds) : cmds := <[Name d := mjoin (failed !! Name d)]> next.
Definition on_ensure_msg (failed : cmds) (d : PeripheralEnsureCmd) (msg : Msg) (next : cmds) : bool * cmds :=
  match msg with
  | MStatus s => (false, if ps_State s =? PERIPHERAL_STATE_CONNECTED then next else again failed d next)
  | _ => (true, again failed d next)
  end.
(** The answer to an ensure command; after an error HandleMessages ranges over the nil channel. *)
Definition ensure_one (failed : cmds) (answer : PeripheralEnsureCmd → posted) (next : outcome cmds) (dev : string * option PeripheralEnsureCmd)
    : outcome cmds :=
  next ← next;
  match dev.2 with
  | None => Panic "nil pointer"
  | Some d => match answer d with
              | PostErr _ => Diverge
              | Posted msgs => Ret (HandleMessages (on_ensure_msg failed d) msgs next)
              end
  end.
(** The devices in an order of the runtime's choice; the result does not depend on it. *)
Definition ensurePeripherals (failed : cmds) (answer : PeripheralEnsureCmd → posted) : outcome cmds :=
  foldl (ensure_one failed answer) (Ret ∅) (map_to_list failed).

(** A goroutine's loop while the device is connected, with the answers of every round. *)
Fixpoint ensure_rounds (failed : cmds) (rounds : list (PeripheralEnsureCmd → posted)) : outcome (cmds * list (PeripheralEnsureCmd → posted)) :=
  if decide (failed = ∅) then Ret (failed, rounds)
  else match rounds with
       | [] => Ret (failed, [])
       | answer :: rounds => failed ← ensurePeripherals failed answer; ensure_rounds failed rounds
       end.
(** Metrics reporters first. *)
Definition ensure_all (p : plan) (rounds : list (PeripheralEnsureCmd → posted)) : outcome (cmds * cmds) :=
  '(mrs, rounds) ← ensure_rounds (failedMRs p) rounds;
  if decide (mrs = ∅) then '(ps, _) ← ensure_rounds (failedPeripherals p) rounds; Ret (mrs, ps) else Ret (mrs, failedPeripherals p).
Fixpoint remove_rounds (todo : gset string) (rounds : list posted) : gset string :=
  match rounds with [] => todo | answer :: rounds => remove_rounds (removePeripherals todo answer) rounds end.

(** *** Operations and metrics on demand *)
Section Operate.
Context (EncodeToString : string → string) (write : string → option string).

(** Every datum a line; what a write answers is kept in the error, which is dropped in the end. *)
Definition on_operate_msg (msg : Msg) (st : list string * option string) : bool * (list string * option string) :=
  match msg with
  | MError e => (true, (st.1, Some e))
  | MOperationResult data =>
      (false, (st.1 ++ (EncodeToString <$> data), foldl (λ _ d, write (EncodeToString d)) st.2 data))
  | _ => (true, st)
  end.
(** The command posted, the lines written and the error returned. *)
Definition Operate (answer : posted) : Z * list string * option string :=
  match answer with
  | PostErr _ => (CMD_PERIPHERAL_OPERATE, [], Some "failed to post device operate cmd")
  | Posted msgs => let '(lines, _) := HandleMessages on_operate_msg msgs ([], None) in (CMD_PERIPHERAL_OPERATE, lines, None)
  end.
End Operate.
Definition on_collect_msg (msg : Msg) (err : option string) : bool * option string :=
  match msg with MError e => (true, Some e) | _ => (false, err) end.
Definition CollectMetrics (answer : posted) : Z * option string :=
  match answer with
  | PostErr _ => (CMD_PERIPHERAL_OPERATE, Some "failed to post peripheral metrics collect cmd")
  | Posted msgs => (CMD_PERIPHERAL_OPERATE, HandleMessages on_collect_msg msgs None)
  end.

(** *** What the manager does with a listing *)
Definition keyed (m : gmap string PeripheralEnsureCmd) : Prop := ∀ k d, m !! k = Some d → Name d = k.
Definition is_connected (ds : PeripheralStatusMsg) : bool := ps_State ds =? PERIPHERAL_STATE_CONNECTED.
(** The map of the options a status is about. *)
Definition configured (o : Options) (ds : PeripheralStatusMsg) : option PeripheralEnsureCmd :=
  if ps_Kind ds =? PERIPHERAL_TYPE_NORMAL then Peripherals o !! ps_Name ds
  else if ps_Kind ds =? PERIPHERAL_TYPE_METRICS_REPORTER then MetricsReporters o !! ps_Name ds else None.
(** The commands of the statuses of a kind that are configured and (not) connected. *)
Definition chosen (o : Options) (kind : Z) (connected : bool) (ds : PeripheralStatusMsg) : option PeripheralEnsureCmd :=
  if (ps_Kind ds =? kind) && Bool.eqb (is_connected ds) connected then configured o ds else None.
Definition insert_all (ds : list PeripheralEnsureCmd) (m : cmds) : cmds := foldl (λ m d, <[Name d := Some d]> m) m ds.
Definition plan_of (o : Options) (l : list PeripheralStatusMsg) : plan := {|
  devicesToRemove := list_to_set (ps_Name <$> filter (λ ds, configured o ds = None) l);
  failedPeripherals := insert_all (omap (chosen o PERIPHERAL_TYPE_NORMAL false) l) ∅;
  ensuredPeripherals := insert_all (omap (chosen o PERIPHERAL_TYPE_NORMAL true) l) ∅;
  failedMRs := insert_all (omap (chosen o PERIPHERAL_TYPE_METRICS_REPORTER false) l) ∅;
  ensuredMRs := insert_all (omap (chosen o PERIPHERAL_TYPE_METRICS_REPORTER true) l) ∅ |}.
Fixpoint listed (msgs : list Msg) : list PeripheralStatusMsg :=
  match msgs with MStatusList l :: msgs => l ++ listed msgs | _ => [] end.
Fixpoint listing_error (msgs : list Msg) : option string :=
  match msgs with MStatusList _ :: msgs => listing_error msgs | MError e :: _ => Some e | _ => None end.

Lemma classify_snoc o l ds :
  keyed (Peripherals o) → keyed (MetricsReporters o) → classify o (plan_of o l) ds = plan_of o (l ++ [ds]).
Proof.
  intros Hp Hm. unfold plan_of, classify. rewrite filter_app, fmap_app, list_to_set_app_L, !omap_app. unfold insert_all. rewrite !foldl_app.
  cbn [omap list_omap]. rewrite filter_cons, filter_nil. unfold chosen, configured, is_connected.
  destruct (Z.eqb_spec (ps_Kind ds) PERIPHERAL_TYPE_NORMAL) as [->|Hn].
  { change (PERIPHERAL_TYPE_NORMAL =? PERIPHERAL_TYPE_METRICS_REPORTER) with false. cbn [andb].
    destruct (Peripherals o !! ps_Name ds) as [d|] eqn:Hd.
    - rewrite decide_False, (bool_decide_true (ps_Name ds = Name d)) by (done || by rewrite (Hp _ _ Hd)).
      destruct (ps_State ds =? _); cbn; by rewrite union_empty_r_L.
    - rewrite decide_True by done. unfold remove. cbn [devicesToRemove]. destruct (ps_State ds =? _); cbn; f_equal; set_solver. }
  destruct (Z.eqb_spec (ps_Kind ds) PERIPHERAL_TYPE_METRICS_REPORTER) as [_|Hr]; cbn [andb].
  - destruct (MetricsReporters o !! ps_Name ds) as [d|] eqn:Hd.
    + rewrite decide_False, (bool_decide_true (ps_Name ds = Name d)) by (done || by rewrite (Hm _ _ Hd)).
      destruct (ps_State ds =? _); cbn; by rewrite union_empty_r_L.
    + rewrite decide_True by done. unfold remove. destruct (ps_State ds =? _); cbn; f_equal; set_solver.
  - rewrite decide_True by done. unfold remove. cbn. f_equal. set_solver.
Qed.
Lemma classify_all o l l' :
  keyed (Peripherals o) → keyed (MetricsReporters o) → foldl (classify o) (plan_of o l') l = plan_of o (l' ++ l).
Proof.
  intros Hp Hm. revert l'. induction l as [|ds l IH]; intros l'; cbn [foldl]; [by rewrite app_nil_r|].
  by rewrite classify_snoc, IH, <-app_assoc.
Qed.
Lemma on_list_msgs o l' msgs :
  keyed (Peripherals o) → keyed (MetricsReporters o) →
  HandleMessages (on_list_msg o) msgs (plan_of o l', None) = (plan_of o (l' ++ listed msgs), listing_error msgs).
Proof.
  intros Hp Hm. revert l'. induction msgs as [|[e|s|l|data|] msgs IH]; intros l'; cbn -[plan_of classify app]; rewrite ?app_nil_r; try done.
  by rewrite classify_all, IH, <-app_assoc.
Qed.

(** *** Ensuring *)
(** Every message says the device is connected. *)
Definition ensured_by (msgs : list Msg) : bool :=
  forallb (λ msg, match msg with MStatus s => is_connected s | _ => false end) msgs.
Definition ensures (answer : PeripheralEnsureCmd → posted) (d : PeripheralEnsureCmd) : bool :=
  match answer d with Posted msgs => ensured_by msgs | PostErr _ => false end.
Lemma on_ensure_msgs failed d msgs next :
  HandleMessages (on_ensure_msg failed d) msgs next =
  if ensured_by msgs then next else again failed d next.
Proof.
  assert (∀ next, again failed d (again failed d next) = again failed d next) as Hi by (intros; apply insert_insert_eq).
  revert next. induction msgs as [|[e|s|l|data|] msgs IH]; intros next; try done.
  change (ensured_by (MStatus s :: msgs)) with (is_connected s && ensured_by msgs). unfold is_connected. cbn -[ensured_by].
  destruct (ps_State s =? _); rewrite IH; cbn -[ensured_by]; [done|]. destruct (ensured_by msgs); by rewrite ?Hi.
Qed.

Definition answered (answer : PeripheralEnsureCmd → posted) (d : PeripheralEnsureCmd) : bool :=
  match answer d with Posted _ => true | PostErr _ => false end.
(** The devices that stay for the next round. *)
Definition left_over (answer : PeripheralEnsureCmd → posted) (failed : gmap string PeripheralEnsureCmd) : gmap string PeripheralEnsureCmd :=
  filter (λ kd, ensures answer kd.2 = false) failed.

Lemma ensure_fold (failed : gmap string PeripheralEnsureCmd) answer l (next : gmap string PeripheralEnsureCmd) :
  keyed failed → (∀ k d, (k, d) ∈ l → failed !! k = Some d) → NoDup l.*1 → (∀ k d, (k, d) ∈ l → next !! k = None) →
  foldl (ensure_one (Some <$> failed) answer) (Ret (Some <$> next)) (prod_map id Some <$> l) =
  if forallb (λ kd, answered answer kd.2) l
  then Ret (Some <$> (list_to_map (filter (λ kd, ensures answer kd.2 = false) l) ∪ next)) else Diverge.
Proof.
  intros Hk. revert next. induction l as [|[k d] l IH]; intros next Hl Hnd Hn; [cbn; by rewrite (left_id_L ∅ _)|].
  apply NoDup_cons in Hnd as [Hni Hnd]. assert (failed !! k = Some d) as Hd by (apply Hl; by left). pose proof (Hk _ _ Hd) as Hname.
  assert (∀ m, foldl (ensure_one (Some <$> failed) answer) Diverge m = Diverge) as Hdiv by (induction m; done).
  cbn [fmap list_fmap foldl forallb prod_map]. unfold ensure_one at 2, answered at 1. cbn [snd mbind outcome_bind id].
  rewrite filter_cons. cbn [snd].
  destruct (answer d) as [e|msgs] eqn:Ha; cbn [andb]; [apply Hdiv|]. rewrite on_ensure_msgs.
  assert (ensures answer d = ensured_by msgs) as -> by (unfold ensures; by rewrite Ha). destruct (ensured_by msgs).
  - rewrite decide_False by done. apply IH; [intros; apply Hl; by right|done|intros ? ? ?; eapply Hn; by right].
  - rewrite decide_True by done. unfold again. rewrite Hname, lookup_fmap, Hd. cbn [fmap option_fmap option_map mjoin option_join].
    rewrite <-fmap_insert. rewrite IH; [|intros; apply Hl; by right|done|].
    + destruct (forallb _ l); [|done]. f_equal. cbn [list_to_map foldr uncurry]. f_equal.
      rewrite <-insert_union_l, <-insert_union_r; [done|]. apply not_elem_of_list_to_map_1. intros (x & -> & Hx)%list_elem_of_fmap.
      apply list_elem_of_filter in Hx as [_ Hx]. apply Hni. cbn. by apply (list_elem_of_fmap_2 fst).
    + intros k' d' Hin. rewrite lookup_insert_ne; [eapply Hn; by right|]. intros <-. apply Hni. by apply (list_elem_of_fmap_2 fst _ (k, d')).
Qed.
Lemma ensurePeripherals_spec (failed : gmap string PeripheralEnsureCmd) answer :
  keyed failed →
  ensurePeripherals (Some <$> failed) answer =
  if forallb (λ kd, answered answer kd.2) (map_to_list failed) then Ret (Some <$> left_over answer failed) else Diverge.
Proof.
  intros Hk. unfold ensurePeripherals. rewrite map_to_list_fmap.
  pose proof (ensure_fold failed answer (map_to_list failed) ∅ Hk) as He. rewrite fmap_empty in He. rewrite He.
  - rewrite (right_id_L ∅ (∪)), <-map_filter_alt. done.
  - intros k d. by rewrite elem_of_map_to_list.
  - apply NoDup_fst_map_to_list.
  - intros k d _. apply lookup_empty.
Qed.

(** A device with the same answer in every round stays. *)
Definition stubborn (rounds : list (PeripheralEnsureCmd → posted)) (m : gmap string PeripheralEnsureCmd) : gmap string PeripheralEnsureCmd :=
  filter (λ kd, Forall (λ answer, ensures answer kd.2 = false) rounds) m.
Definition all_answered (rounds : list (PeripheralEnsureCmd → posted)) : Prop := Forall (λ answer, ∀ d, answered answer d = true) rounds.
Lemma keyed_filter P `{∀ x, Decision (P x)} m : keyed m → keyed (filter P m).
Proof. intros Hk k d [Hd _]%map_lookup_filter_Some. by apply Hk. Qed.
Lemma stubborn_cons answer rounds m : stubborn (answer :: rounds) m = stubborn rounds (left_over answer m).
Proof.
  apply map_eq. intros k. unfold stubborn, left_over. rewrite !lookup_filter_if. destruct (m !! k) as [d|]; [|done]. cbn [snd].
  pose proof (Forall_cons (λ a, ensures a d = false) answer rounds). repeat case_decide; naive_solver.
Qed.
Lemma stubborn_nil m : stubborn [] m = m.
Proof. apply map_filter_id. by constructor. Qed.
Lemma ensure_rounds_spec m rounds :
  keyed m → all_answered rounds →
  ∃ first rest, rounds = first ++ rest ∧ ensure_rounds (Some <$> m) rounds = Ret (Some <$> stubborn first m, rest) ∧
    (stubborn first m = ∅ ∨ rest = []).
Proof.
  revert m. induction rounds as [|answer rounds IH]; intros m Hk Ha; cbn [ensure_rounds].
  { exists [], []. rewrite stubborn_nil. split; [done|]. split; [by case_decide|by right]. }
  case_decide as He.
  { apply fmap_empty_inv in He as ->. exists [], (answer :: rounds). rewrite stubborn_nil. split_and!; [done|by rewrite fmap_empty|by left]. }
  apply Forall_cons in Ha as [Ha Hr]. rewrite ensurePeripherals_spec by done.
  rewrite (proj2 (List.forallb_forall _ _)) by (intros; apply Ha). cbn [mbind outcome_bind].
  destruct (IH (left_over answer m)) as (first & rest & -> & -> & Hs); [by apply keyed_filter|done|].
  exists (answer :: first), rest. by rewrite stubborn_cons.
Qed.

(** As long as every command could be posted, the ensuring of what a listing left to do ends with exactly the metrics reporters that
    no round of the first rounds ensured; the peripherals get the rounds left when there is no such reporter, and none of them is
    asked for before; and at the end exactly those stay that no round ensured. A device is ensured when all that it answers is that it
    is connected. *)
Lemma ensure_all_correct p mrs ps rounds :
  keyed mrs → keyed ps → failedMRs p = Some <$> mrs → failedPeripherals p = Some <$> ps → all_answered rounds →
  ∃ first second rest, rounds = first ++ second ++ rest ∧
    ensure_all p rounds = Ret (Some <$> stubborn first mrs, Some <$> stubborn second ps) ∧
    (stubborn first mrs ≠ ∅ → second ++ rest = []) ∧ (stubborn second ps ≠ ∅ → rest = []).
Proof.
  intros Hkm Hkp Hm Hp Ha. unfold ensure_all. rewrite Hm, Hp.
  destruct (ensure_rounds_spec mrs rounds Hkm Ha) as (first & rounds' & -> & -> & Hs). cbn [mbind outcome_bind].
  case_decide as He.
  - apply fmap_empty_inv in He. apply Forall_app in Ha as [_ Ha].
    destruct (ensure_rounds_spec ps rounds' Hkp Ha) as (second & rest & -> & -> & Hs2). cbn [mbind outcome_bind].
    exists first, second, rest. split_and!; [done|done|done|by destruct Hs2].
  - destruct Hs as [Hs| ->]; [by rewrite Hs, fmap_empty in He|]. exists first, [], []. by rewrite stubborn_nil.
Qed.

(** *** What a listing leaves to do *)
Definition reported (l : list PeripheralStatusMsg) (kind : Z) (connected : bool) (name : string) : Prop :=
  Exists (λ ds, ps_Kind ds = kind ∧ ps_Name ds = name ∧ is_connected ds = connected) l.
#[export] Instance reported_dec l kind connected name : Decision (reported l kind connected name).
Proof. unfold reported. solve_decision. Defined.

Lemma insert_all_lookup (ref : gmap string PeripheralEnsureCmd) ds (m : cmds) k :
  (∀ d, d ∈ ds → ref !! Name d = Some d) →
  insert_all ds m !! k = if decide (k ∈ Name <$> ds) then Some <$> ref !! k else m !! k.
Proof.
  revert m. induction ds as [|d ds IH]; intros m Hr; [by rewrite decide_False by apply not_elem_of_nil|].
  unfold insert_all in *. cbn [foldl]. rewrite IH by (intros; apply Hr; by right). cbn [fmap list_fmap].
  case_decide as Hin; case_decide as Hin'; [done|by destruct Hin'; right| |].
  - apply elem_of_cons in Hin' as [->|?]; [|done]. rewrite lookup_insert_eq, (Hr d) by (by left). done.
  - rewrite lookup_insert_ne; [done|]. intros <-. apply Hin'. by left.
Qed.
Lemma insert_all_chosen o kind connected (ref : gmap string PeripheralEnsureCmd) l :
  keyed ref → (∀ ds, ps_Kind ds = kind → configured o ds = ref !! ps_Name ds) →
  insert_all (omap (chosen o kind connected) l) ∅ = Some <$> filter (λ kd, reported l kind connected kd.1) ref.
Proof.
  intros Hk Hc.
  assert (∀ d, d ∈ omap (chosen o kind connected) l ↔ ref !! Name d = Some d ∧ reported l kind connected (Name d)) as Hin.
  { intros d. rewrite list_elem_of_omap. unfold reported. rewrite Exists_exists. unfold chosen. split.
    - intros (ds & Hds & Hd). case_match eqn:Hb; [|done]. apply andb_true_iff in Hb as [Hkind%Z.eqb_eq Hcon%Bool.eqb_prop].
      rewrite Hc in Hd by done. pose proof (Hk _ _ Hd) as ->. split; [done|]. by exists ds.
    - intros (Hd & ds & Hds & Hkind & Hn & Hcon). exists ds. split; [done|]. rewrite Hc, Hn, Hkind, Hcon, Z.eqb_refl, Bool.eqb_reflx by done. done. }
  apply map_eq. intros k. rewrite (insert_all_lookup ref) by (intros d Hd; by apply Hin). rewrite lookup_fmap, lookup_filter_if.
  destruct (ref !! k) as [d|] eqn:Hd; cbn [fst].
  - pose proof (Hk _ _ Hd) as Hn. assert (k ∈ Name <$> omap (chosen o kind connected) l ↔ reported l kind connected k) as Hiff.
    { rewrite list_elem_of_fmap. split; [intros (d' & -> & Hd'); by apply Hin in Hd' as [_ ?]|]. intros Hr. exists d. split; [done|].
      apply Hin. rewrite Hn. done. }
    rewrite (decide_ext _ _ _ _ Hiff). by case_decide.
  - case_decide; [done|by rewrite lookup_empty].
Qed.

(** What the manager makes of a device's listing. With an error in it nothing is done; otherwise it removes exactly the names listed
    under a kind under which they are not configured, and ensures exactly the configured reporters and peripherals that are listed in
    a state other than connected: one that is not listed at all is left alone. *)
Lemma list_peripherals_correct o msgs :
  keyed (Peripherals o) → keyed (MetricsReporters o) →
  match list_peripherals o (Posted msgs) with
  | None => is_Some (listing_error msgs)
  | Some p =>
      listing_error msgs = None ∧
      (∀ name, name ∈ devicesToRemove p ↔ ∃ ds, ds ∈ listed msgs ∧ ps_Name ds = name ∧ configured o ds = None) ∧
      failedPeripherals p = Some <$> filter (λ kd, reported (listed msgs) PERIPHERAL_TYPE_NORMAL false kd.1) (Peripherals o) ∧
      failedMRs p = Some <$> filter (λ kd, reported (listed msgs) PERIPHERAL_TYPE_METRICS_REPORTER false kd.1) (MetricsReporters o)
  end.
Proof.
  intros Hp Hm. unfold list_peripherals. pose proof (on_list_msgs o [] msgs Hp Hm) as Hl.
  change (plan_of o []) with no_plan in Hl. rewrite Hl. destruct (listing_error msgs) as [e|]; [done|].
  split; [done|]. unfold plan_of. cbn [devicesToRemove failedPeripherals failedMRs app]. split_and!.
  - intros name. rewrite elem_of_list_to_set, list_elem_of_fmap. setoid_rewrite list_elem_of_filter. naive_solver.
  - apply insert_all_chosen; [done|]. intros ds Hk. unfold configured. by rewrite Hk.
  - apply insert_all_chosen; [done|]. intros ds Hk. unfold configured. by rewrite Hk.
Qed.

(** What is removed in the rounds: a name goes as soon as a round's listing has it. *)
Lemma on_remove_msgs msgs todo : HandleMessages on_remove_msg msgs todo = todo ∖ list_to_set (ps_Name <$> listed msgs).
Proof.
  revert todo. induction msgs as [|[e|s|l|data|] msgs IH]; intros todo; cbn; try set_solver.
  rewrite IH, fmap_app, list_to_set_app_L. set_solver.
Qed.
Lemma removePeripherals_correct todo answer :
  removePeripherals todo answer = match answer with PostErr _ => todo | Posted msgs => todo ∖ list_to_set (ps_Name <$> listed msgs) end.
Proof.
  unfold removePeripherals. case_decide as Ht; [|destruct answer; [done|apply on_remove_msgs] ]. destruct answer; set_solver.
Qed.

(** A command that could not be posted leaves the goroutine waiting for messages of a channel that is nil. *)
Lemma ensure_blocks failed answer k d :
  keyed failed → failed !! k = Some d → answered answer d = false → ensurePeripherals (Some <$> failed) answer = Diverge.
Proof.
  intros Hk Hd Ha. rewrite ensurePeripherals_spec by done. destruct (forallb _ _) eqn:Hf; [|done]. exfalso.
  pose proof (proj1 (List.forallb_forall _ _) Hf (k, d)) as Hx. cbn in Hx. rewrite Ha in Hx. discriminate Hx.
  apply list_elem_of_In. by apply elem_of_map_to_list.
Qed.
(** The error of the device is dropped. *)
Lemma Operate_drops_error enc write e : Operate enc write (Posted [MError e]) = (CMD_PERIPHERAL_OPERATE, [], None).
Proof. done. Qed.
(** The collection of metrics is posted as an operation, whatever is answered. *)
Lemma CollectMetrics_command answer : (CollectMetrics answer).1 = CMD_PERIPHERAL_OPERATE.
Proof. by destruct answer. Qed.
End PeripheralManager.

(** ** Examples *)
Module PeripheralExamples.
Import Connector Options PeripheralManager.

Definition conn : Connectivity := {| Method := "serial"; Target := "/dev/ttyS0"; Params := ∅; Tls := None |}.
Definition cmd (kind : Z) (name : string) : PeripheralEnsureCmd :=
  {| Kind := kind; Name := name; Connector := conn; Operations := []; Metrics := [] |}.
Definition opts : Options := {|
  MetricsReporters := {["mr" := cmd 2 "mr"]};
  Peripherals := {["lamp" := cmd 1 "lamp"; "fan" := cmd 1 "fan"; "door" := cmd 1 "door"]} |}.
Definition status (kind : Z) (name : string) (state : Z) : PeripheralStatusMsg := {| ps_Kind := kind; ps_Name := name; ps_State := state |}.
Definition listing : list Msg := [MStatusList [status 1 "lamp" 2; status 1 "fan" 3]; MStatusList [status 2 "mr" 1; status 1 "old" 2] ].
Lemma keyed_opts : keyed (Peripherals opts) ∧ keyed (MetricsReporters opts).
Proof. split; refine (bool_decide_unpack (map_Forall (λ k d, Name d = k) _) _); vm_compute; exact I. Qed.
(** The door is configured but not listed: it is not ensured. *)
Definition plan1 : plan := {| devicesToRemove := {["old"]}; failedPeripherals := {["fan" := Some (cmd 1 "fan")]};
  ensuredPeripherals := {["lamp" := Some (cmd 1 "lamp")]}; failedMRs := {["mr" := Some (cmd 2 "mr")]}; ensuredMRs := ∅ |}.
Example listing_plan : list_peripherals opts (Posted listing) = Some plan1.
Proof. vm_compute. reflexivity. Qed.
Example list_peripherals_correct_witness :
  devicesToRemove plan1 = {["old"]} ∧
  ∀ name, name ∈ devicesToRemove plan1 ↔ ∃ ds, ds ∈ listed listing ∧ ps_Name ds = name ∧ configured opts ds = None.
Proof.
  split; [reflexivity|]. destruct keyed_opts as [Hp Hm].
  pose proof (list_peripherals_correct opts listing Hp Hm) as H. rewrite listing_plan in H. exact (proj1 (proj2 H)).
Defined.

(** The reporter is ensured in the second round, the fan in the third. *)
Definition yes : posted := Posted [MStatus (status 1 "" 2)].
Definition no : posted := Posted [MError "busy"].
Definition rounds1 : list (PeripheralEnsureCmd → posted) := [λ _, no; λ _, yes; λ _, yes].
Example ensure_all_correct_witness :
  ensure_all plan1 rounds1 = Ret (∅, ∅) ∧
  ∃ first second rest, rounds1 = first ++ second ++ rest ∧
    ensure_all plan1 rounds1 = Ret (Some <$> stubborn first {["mr" := cmd 2 "mr"]}, Some <$> stubborn second {["fan" := cmd 1 "fan"]}) ∧
    (stubborn first {["mr" := cmd 2 "mr"]} ≠ ∅ → second ++ rest = []) ∧ (stubborn second {["fan" := cmd 1 "fan"]} ≠ ∅ → rest = []).
Proof.
  split; [vm_compute; reflexivity|]. apply ensure_all_correct.
  - refine (bool_decide_unpack (map_Forall (λ k d, Name d = k) _) _). vm_compute. exact I.
  - refine (bool_decide_unpack (map_Forall (λ k d, Name d = k) _) _). vm_compute. exact I.
  - reflexivity.
  - reflexivity.
  - repeat constructor.
Defined.
(** As long as the reporter is not ensured the peripherals are not asked for. *)
Example reporter_starves : ensure_all plan1 [λ d, if Kind d =? 2 then no else yes; λ d, if Kind d =? 2 then no else yes] =
  Ret (failedMRs plan1, failedPeripherals plan1).
Proof. vm_compute. reflexivity. Qed.
End PeripheralExamples.
