(* ===== verification/Rbac.v ===== *)
(** * Managed roles

    The roles aranya keeps for the pods and the nodes of its devices: src/pkg/controller/edgedevice/role_pod_tenant.go and
    role_pod_sys.go (Module PodRoles: the two files have the same rules and the same check, of other pods) and node_clusterrole.go
    (Module NodeClusterRoles). What the role for tenant pods grants on logs and port forwards, and under a device that overrides it in part, is
    in the rules ([role_rules_spec]) and not in the theorem on what it is meant to grant. Objects of the informers and answers of the API server are arguments; the calls made are results. *)
From S2P Require Import Prelude K8s Api Cluster.

(** ** Rules *)
Module Rules.

Record PolicyRule := { APIGroups : list string; Resources : list string; Verbs : list string; ResourceNames : list string }.
(** rbacv1.Role and ClusterRole (which has no namespace) *)
Record Role := { r_Name : string; r_Namespace : string; r_Labels : option (gmap string string); r_Rules : list PolicyRule }.

(** What the API server reads in a list of verbs and in a rule: no resource names are all of them. *)
Definition permits (verbs : list string) (verb : string) : Prop := verb ∈ verbs ∨ "*" ∈ verbs.
Definition allows (verb resource name : string) (r : PolicyRule) : Prop :=
  "" ∈ APIGroups r ∧ resource ∈ Resources r ∧ permits (Verbs r) verb ∧ (ResourceNames r = [] ∨ name ∈ ResourceNames r).
Definition grants (rules : list PolicyRule) (verb resource name : string) : Prop := Exists (allows verb resource name) rules.

Definition rule (resource : string) (verbs names : list string) : PolicyRule :=
  {| APIGroups := [""]; Resources := [resource]; Verbs := verbs; ResourceNames := names |}.
(** sets.String.List *)
Definition List (X : gset string) : list string := merge_sort String.le (elements X).

Definition containsAll (real expected : list string) : bool := 
  bool_decide (list_to_set expected ∖ list_to_set real =@{gset string} ∅).
Lemma containsAll_spec real expected : containsAll real expected = true ↔ ∀ v, v ∈ expected → v ∈ real.
Proof.
  unfold containsAll. rewrite bool_decide_eq_true. split; [|set_solver].
  intros Hd v Hv. destruct (decide (v ∈ real)) as [|Hn]; [done|]. exfalso. assert (v ∈ (∅ : gset string)) as Hx; [rewrite <-Hd; set_solver|set_solver].
Qed.

Lemma elem_of_List x X : x ∈ List X ↔ x ∈ X.
Proof. unfold List. by rewrite merge_sort_Permutation, elem_of_elements. Qed.
Lemma List_nil X : List X = [] ↔ X = ∅.
Proof.
  split; [|by intros ->]. intros Hl. apply elem_of_equiv_empty_L. intros x Hx. rewrite <-elem_of_List, Hl in Hx. by apply elem_of_nil in Hx.
Qed.
Lemma allows_rule verb resource name res verbs names :
  names ≠ [] → allows verb resource name (rule res verbs names) ↔ resource = res ∧ permits verbs verb ∧ name ∈ names.
Proof. intros Hn. unfold allows. cbn. rewrite !list_elem_of_singleton. naive_solver. Qed.
Lemma grants_app l1 l2 verb resource name : grants (l1 ++ l2) verb resource name ↔ grants l1 verb resource name ∨ grants l2 verb resource name.
Proof. apply Exists_app. Qed.
Lemma grants_nil verb resource name : ¬ grants [] verb resource name.
Proof. unfold grants. rewrite Exists_nil. tauto. Qed.

(** *** Bringing a role up to date *)
Inductive Call := CUpdate (r : Role) | CDelete (name : string) | CCreate (r : Role).
(** What the API server answers to the update, the deletion and the creation. *)
Record Answers := { a_Update : option KubeError; a_Delete : option KubeError; a_Create : option KubeError }.

Definition clone_role (old role : Role) : Role :=
  {| r_Name := r_Name old; r_Namespace := r_Namespace old; r_Labels := Some (default ∅ (r_Labels role) ∪ default ∅ (r_Labels old));
     r_Rules := r_Rules role |}.
Definition create_role (role : Role) (a : Answers) : list Call * option string := ([CCreate role], ke_Text <$> a_Create a).
(** ensureTenantPodRole, ensureVirtualPodRole and ensureNodeClusterRole, of the new role and the one found *)
Definition ensure_role (upToDate : Role → bool) (role : Role) (old : option Role) (a : Answers) : list Call * option string :=
  match old with
  | None => create_role role a
  | Some old =>
      if upToDate old then ([], None)
      else
        let update := CUpdate (clone_role old role) in
        match a_Update a with
        | None => ([update], None)
        | Some e =>
            if ke_Conflict e then ([update], Some (ke_Text e))
            else match a_Delete a with
                 | Some e' => if ke_NotFound e' then let '(cs, r) := create_role role a in (update :: CDelete (r_Name role) :: cs, r)
                              else ([update; CDelete (r_Name role)], Some ("failed to delete old cluster role: " +:+ ke_Text e'))
                 | None => let '(cs, r) := create_role role a in (update :: CDelete (r_Name role) :: cs, r)
                 end
        end
  end.
(** The role in the API server after the calls, when they did not fail. *)
Definition stored (old : option Role) (cs : list Call) : option Role :=
  match last cs with Some (CUpdate r) | Some (CCreate r) => Some r | Some (CDelete _) => None | None => old end.
Lemma ensure_role_correct upToDate role old a cs :
  ensure_role upToDate role old a = (cs, None) →
  match old with
  | Some o => (upToDate o = true ∧ cs = []) ∨ (upToDate o = false ∧ ∃ r, stored old cs = Some r ∧ r_Rules r = r_Rules role ∧ (r = clone_role o role ∨ r = role))
  | None => stored old cs = Some role
  end.
Proof.
  unfold ensure_role, create_role, stored. destruct old as [o|]; [|by intros [= <- _] ].
  destruct (upToDate o); [intros [= <-]; by left|]. intros He. right. split; [done|].
  destruct (a_Update a) as [e|]; [|injection He as [= <-]; cbn; naive_solver].
  destruct (ke_Conflict e); [done|]. destruct (a_Delete a) as [e'|]; [destruct (ke_NotFound e'); [|done]|];
    injection He as [= <- _]; cbn; naive_solver.
Qed.
(** The roles in an order of the runtime's choice, up to the first error. *)
Fixpoint ensure_all (ensure : string → list Call * option string) (names : list string) : list Call * Result :=
  match names with
  | [] => ([], RNil)
  | n :: names =>
      match ensure n with
      | (cs, Some e) => (cs, RErr e)
      | (cs, None) => let '(cs', r) := ensure_all ensure names in (cs ++ cs', r)
      end
  end.
(** The object of the informer's store, or else what the API server has. *)
Definition get_role (store client : string → option Role) (name : string) : option Role :=
  match store name with Some r => Some r | None => client name end.
End Rules.

(** ** Roles for pods *)
Module PodRoles.
Import Rules.

(** The accumulators of the loop over the pods. *)
Record Acc := {
  policies : list PolicyRule; podsWithDefaultPodVerbs : gset string; podsWithDefaultStatusVerbs : gset string;
  podsAllowExec : gset string; podsAllowAttach : gset string; podsAllowLog : gset string; podsAllowPortForward : gset string
}.
Definition no_acc : Acc := {| policies := []; podsWithDefaultPodVerbs := ∅; podsWithDefaultStatusVerbs := ∅; podsAllowExec := ∅;
  podsAllowAttach := ∅; podsAllowLog := ∅; podsAllowPortForward := ∅ |}.
(** A pod that gets permissions, its device, and the permissions the device gives by role. *)
Record Target := { t_Pod : string; t_EdgeDevice : string; t_Roles : gmap string PodRolePermissions }.

Definition insert_if (b : bool) (name : string) (X : gset string) : gset string := if b then {[name]} ∪ X else X.
Definition is_nil {A} (l : list A) : bool := match l with [] => true | _ => false end.

Section Role.
Context (roleName : string) (roleSpec : PodRolePermissions).

(** An unset permission of the device is the default of the role. *)
Definition allowed (f : PodRolePermissions → option bool) (t : Target) : bool :=
  match t_Roles t !! roleName with None => is_true (f roleSpec) | Some p => default (is_true (f roleSpec)) (f p) end.
Definition visit (a : Acc) (t : Target) : Acc :=
  let '(pols, podNames, statusNames) :=
    match t_Roles t !! roleName with
    | None => ([], [t_Pod t], [t_Pod t])
    | Some p =>
        ((if is_nil (prp_PodVerbs p) then [] else [rule "pods" (prp_PodVerbs p) [t_Pod t] ]) ++
         (if is_nil (prp_StatusVerbs p) then [] else [rule "pods/status" (prp_StatusVerbs p) [t_Pod t] ]),
         if is_nil (prp_PodVerbs p) then [t_EdgeDevice t] else [],
         if is_nil (prp_StatusVerbs p) then [t_EdgeDevice t] else [])
    end in
  {| policies := policies a ++ pols;
     podsWithDefaultPodVerbs := list_to_set podNames ∪ podsWithDefaultPodVerbs a;
     podsWithDefaultStatusVerbs := list_to_set statusNames ∪ podsWithDefaultStatusVerbs a;
     podsAllowExec := insert_if (allowed prp_AllowExec t) (t_Pod t) (podsAllowExec a);
     podsAllowAttach := insert_if (allowed prp_AllowAttach t) (t_Pod t) (podsAllowAttach a);
     podsAllowLog := insert_if (allowed prp_AllowLog t) (t_Pod t) (podsAllowLog a);
     podsAllowPortForward := insert_if (allowed prp_AllowPortForward t) (t_Pod t) (podsAllowPortForward a) |}.
Definition rule_if (resource : string) (verbs : list string) (X : gset string) : list PolicyRule :=
  if decide (X = ∅) then [] else [rule resource verbs (List X)].
Definition rules_of (a : Acc) : list PolicyRule :=
  policies a ++
  rule_if "pods" (prp_PodVerbs roleSpec) (podsWithDefaultPodVerbs a) ++
  rule_if "pods/status" (prp_StatusVerbs roleSpec) (podsWithDefaultStatusVerbs a) ++
  rule_if "pods/attach" ["create"] (podsAllowAttach a) ++
  rule_if "pods/exec" ["create"] (podsAllowExec a) ++
  rule_if "pods/portforward" ["create"] (podsAllowPortForward a) ++
  rule_if "pods/log" ["get"] (podsAllowLog a).
Definition role_rules (ts : list Target) : list PolicyRule := rules_of (foldl visit no_acc ts).

(** *** What the rules grant *)

(** What a pod gives rise to: in its own name what the device or the role says, and in the name of its device the role's verbs when the
    device has permissions for the role without verbs. *)
Definition verbs_grant (f : PodRolePermissions → list string) (t : Target) (verb name : string) : Prop :=
  match t_Roles t !! roleName with
  | None => name = t_Pod t ∧ permits (f roleSpec) verb
  | Some p => if is_nil (f p) then name = t_EdgeDevice t ∧ permits (f roleSpec) verb else name = t_Pod t ∧ permits (f p) verb
  end.
Definition flag_grants (f : PodRolePermissions → option bool) (only : string) (t : Target) (verb name : string) : Prop :=
  allowed f t = true ∧ name = t_Pod t ∧ permits [only] verb.
Definition gives (t : Target) (verb resource name : string) : Prop :=
  (resource = "pods" ∧ verbs_grant prp_PodVerbs t verb name) ∨ (resource = "pods/status" ∧ verbs_grant prp_StatusVerbs t verb name) ∨
  (resource = "pods/attach" ∧ flag_grants prp_AllowAttach "create" t verb name) ∨
  (resource = "pods/exec" ∧ flag_grants prp_AllowExec "create" t verb name) ∨
  (resource = "pods/portforward" ∧ flag_grants prp_AllowPortForward "create" t verb name) ∨
  (resource = "pods/log" ∧ flag_grants prp_AllowLog "get" t verb name).

Lemma grants_rule_if res verbs X verb resource name :
  grants (rule_if res verbs X) verb resource name ↔ resource = res ∧ permits verbs verb ∧ name ∈ X.
Proof.
  unfold rule_if. case_decide as HX; [subst X; split; [by intros ?%grants_nil|set_solver]|].
  unfold grants. rewrite Exists_cons, Exists_nil, allows_rule by (by rewrite List_nil). rewrite elem_of_List. tauto.
Qed.
Lemma grants_one res verbs x verb resource name :
  grants [rule res verbs [x] ] verb resource name ↔ resource = res ∧ permits verbs verb ∧ name = x.
Proof. unfold grants. rewrite Exists_cons, Exists_nil, allows_rule by done. rewrite list_elem_of_singleton. tauto. Qed.
Lemma elem_of_insert_if b x X y : y ∈ insert_if b x X ↔ (b = true ∧ y = x) ∨ y ∈ X.
Proof. destruct b; cbn; set_solver. Qed.

Lemma grants_rules_of a verb resource name :
  grants (rules_of a) verb resource name ↔
  grants (policies a) verb resource name ∨
  (resource = "pods" ∧ permits (prp_PodVerbs roleSpec) verb ∧ name ∈ podsWithDefaultPodVerbs a) ∨
  (resource = "pods/status" ∧ permits (prp_StatusVerbs roleSpec) verb ∧ name ∈ podsWithDefaultStatusVerbs a) ∨
  (resource = "pods/attach" ∧ permits ["create"] verb ∧ name ∈ podsAllowAttach a) ∨
  (resource = "pods/exec" ∧ permits ["create"] verb ∧ name ∈ podsAllowExec a) ∨
  (resource = "pods/portforward" ∧ permits ["create"] verb ∧ name ∈ podsAllowPortForward a) ∨
  (resource = "pods/log" ∧ permits ["get"] verb ∧ name ∈ podsAllowLog a).
Proof. unfold rules_of. by rewrite !grants_app, !grants_rule_if. Qed.

Lemma visit_grants a t verb resource name :
  grants (rules_of (visit a t)) verb resource name ↔ grants (rules_of a) verb resource name ∨ gives t verb resource name.
Proof.
  rewrite !grants_rules_of. unfold visit, gives, flag_grants, verbs_grant.
  destruct (t_Roles t !! roleName) as [p|];
    cbn [policies podsWithDefaultPodVerbs podsWithDefaultStatusVerbs podsAllowExec podsAllowAttach podsAllowLog podsAllowPortForward];
    rewrite !grants_app, !elem_of_union, !elem_of_insert_if.
  - destruct (is_nil (prp_PodVerbs p)), (is_nil (prp_StatusVerbs p)); cbn [list_to_set foldr];
      rewrite ?grants_one, ?elem_of_union, ?elem_of_empty, ?elem_of_singleton; pose proof (grants_nil verb resource name); tauto.
  - cbn [list_to_set foldr]. rewrite ?elem_of_union, ?elem_of_empty, ?elem_of_singleton. pose proof (grants_nil verb resource name). tauto.
Qed.
Lemma role_rules_spec ts verb resource name :
  grants (role_rules ts) verb resource name ↔ ∃ t, t ∈ ts ∧ gives t verb resource name.
Proof.
  unfold role_rules.
  assert (∀ a, grants (rules_of (foldl visit a ts)) verb resource name ↔
    grants (rules_of a) verb resource name ∨ ∃ t, t ∈ ts ∧ gives t verb resource name) as Ha.
  { induction ts as [|t ts IH]; intros a; cbn [foldl].
    - split; [by left|]. by intros [?|(t & ?%elem_of_nil & _)].
    - rewrite IH, visit_grants. setoid_rewrite elem_of_cons. naive_solver. }
  rewrite Ha, grants_rules_of. cbn. pose proof (grants_nil verb resource name). rewrite !elem_of_empty. tauto.
Qed.
(** Every rule is of one resource and of named objects. *)
Definition restricted (r : PolicyRule) : Prop := APIGroups r = [""] ∧ length (Resources r) = 1%nat ∧ ResourceNames r ≠ [].
Lemma rule_if_restricted res verbs X : Forall restricted (rule_if res verbs X).
Proof. unfold rule_if. case_decide; [constructor|]. repeat constructor. cbn. by rewrite List_nil. Qed.
Lemma role_rules_restricted ts : Forall restricted (role_rules ts).
Proof.
  unfold role_rules. assert (∀ a, Forall restricted (policies a) → Forall restricted (policies (foldl visit a ts))) as Ha.
  { induction ts as [|t ts IH]; intros a Hp; [done|]. apply IH. unfold visit. destruct (t_Roles t !! roleName) as [p|]; cbn [policies].
    - rewrite !Forall_app. split; [done|]. destruct (is_nil (prp_PodVerbs p)), (is_nil (prp_StatusVerbs p)); repeat constructor; done.
    - by rewrite app_nil_r. }
  unfold rules_of. rewrite !Forall_app. split_and!; try apply rule_if_restricted. apply Ha. constructor.
Qed.
End Role.

Section Roles.
Context (getEdgeDeviceObject : string → option EdgeDevice) (SysNS TenantNS : string).
Definition LabelRoleValuePodRole : string := "PodRole".

(** The pods of the tenant's store that are no virtual pods and run on a device, and the virtual pods. *)
Definition tenant_target (pod : Pod) : option Target :=
  match getEdgeDeviceObject (pod_Name pod) with
  | Some _ => None
  | None => ed ← getEdgeDeviceObject (sp_NodeName (pod_Spec pod));
            Some {| t_Pod := pod_Name pod; t_EdgeDevice := ed_Name ed; t_Roles := spec_RolePermissions (ed_Spec ed) |}
  end.
Definition virtual_target (pod : Pod) : option Target :=
  ed ← getEdgeDeviceObject (pod_Name pod);
  Some {| t_Pod := pod_Name pod; t_EdgeDevice := ed_Name ed; t_Roles := spec_VirtualPodRolePermissions (ed_Spec ed) |}.
Definition new_role (ns roleName : string) (rules : list PolicyRule) : Role :=
  {| r_Name := roleName; r_Namespace := ns; r_Labels := Some {[LabelRole := LabelRoleValuePodRole]}; r_Rules := rules |}.
Definition newTenantPodRoleForAllEdgeDevices (roleName : string) (roleSpec : PodRolePermissions) (pods : list Pod) : Role :=
  new_role TenantNS roleName (role_rules roleName roleSpec (omap tenant_target pods)).
Definition newVirtualPodRole (roleName : string) (roleSpec : PodRolePermissions) (pods : list Pod) : Role :=
  new_role SysNS roleName (role_rules roleName roleSpec (omap virtual_target pods)).

(** *** The check of a role that is there *)

(** The permissions in force while the names of a rule are gone through: what a device overrides stays overridden for the names that
    follow. *)
Definition override (cur spec : PodRolePermissions) : PodRolePermissions := {|
  prp_PodVerbs := if is_nil (prp_PodVerbs spec) then prp_PodVerbs cur else prp_PodVerbs spec;
  prp_StatusVerbs := if is_nil (prp_StatusVerbs spec) then prp_StatusVerbs cur else prp_StatusVerbs spec;
  prp_AllowExec := match prp_AllowExec spec with Some b => Some b | None => prp_AllowExec cur end;
  prp_AllowAttach := match prp_AllowAttach spec with Some b => Some b | None => prp_AllowAttach cur end;
  prp_AllowPortForward := match prp_AllowPortForward spec with Some b => Some b | None => prp_AllowPortForward cur end;
  prp_AllowLog := match prp_AllowLog spec with Some b => Some b | None => prp_AllowLog cur end |}.
Definition requiredVerbs (cur : PodRolePermissions) (resource : string) : option (list string) :=
  let flag (b : option bool) := Some (if is_true b then ["create"] else []) in
  if bool_decide (resource = "pods") then Some (prp_PodVerbs cur)
  else if bool_decide (resource = "pods/status") then Some (prp_StatusVerbs cur)
  else if bool_decide (resource = "pods/log") then flag (prp_AllowLog cur)
  else if bool_decide (resource = "pods/exec") then flag (prp_AllowExec cur)
  else if bool_decide (resource = "pods/attach") then flag (prp_AllowAttach cur)
  else if bool_decide (resource = "pods/portforward") then flag (prp_AllowPortForward cur) else None.
(** The names of a rule: the names seen, or [None] when something does not match. [resolve] is the permissions by role of the device of
    a pod of that name. *)
Fixpoint check_names (resolve : string → option (gmap string PodRolePermissions)) (roleName resource : string) (verbs : list string)
    (names : list string) (cur : PodRolePermissions) (seen : gset string) : option (gset string) :=
  match names with
  | [] => Some seen
  | n :: names =>
      roles ← resolve n;
      let cur := match roles !! roleName with Some spec => override cur spec | None => cur end in
      required ← requiredVerbs cur resource;
      if (length verbs =? length required)%nat && containsAll verbs required
      then check_names resolve roleName resource verbs names cur ({[n]} ∪ seen) else None
  end.
Fixpoint check_rules (resolve : string → option (gmap string PodRolePermissions)) (roleName : string) (crSpec : PodRolePermissions)
    (rules : list PolicyRule) (seen : gset string) : option (gset string) :=
  match rules with
  | [] => Some seen
  | p :: rules =>
      match APIGroups p, Resources p with
      | [""], [resource] =>
          seen ← check_names resolve roleName resource (Verbs p) (ResourceNames p) crSpec seen;
          check_rules resolve roleName crSpec rules seen
      | _, _ => None
      end
  end.
Definition check_role (managed : gmap string PodRolePermissions) (ns : string)
    (resolve : string → option (gmap string PodRolePermissions)) (requiredResourceNames : gset string) (obj : Role) : bool :=
  match managed !! r_Name obj with
  | None => true
  | Some crSpec =>
      if negb (bool_decide (map_get (r_Labels obj) LabelRole = LabelRoleValuePodRole)) then false
      else if negb (bool_decide (map_get (r_Labels obj) LabelNamespace = ns)) then false
      else match check_rules resolve (r_Name obj) crSpec (r_Rules obj) ∅ with
           | None => false
           | Some podNames => (size podNames =? size requiredResourceNames)%nat && bool_decide (requiredResourceNames ⊆ podNames)
           end
  end.
Definition checkTenantPodRoleUpToDate (tenantPodRoles : gmap string PodRolePermissions) (getTenantPodObject : string → option Pod)
    (tenantPodNames : gset string) (obj : Role) : bool :=
  check_role tenantPodRoles TenantNS (λ podName,
    match getEdgeDeviceObject podName with
    | Some _ => None
    | None => pod ← getTenantPodObject podName; ed ← getEdgeDeviceObject (sp_NodeName (pod_Spec pod));
              Some (spec_RolePermissions (ed_Spec ed))
    end) tenantPodNames obj.
Definition checkVirtualPodRoleUpToDate (vpRoles : gmap string PodRolePermissions) (virtualPodNames : gset string) (obj : Role) : bool :=
  check_role vpRoles SysNS (λ podName, ed ← getEdgeDeviceObject podName; Some (spec_VirtualPodRolePermissions (ed_Spec ed)))
    virtualPodNames obj.

(** What the two files ensure of a managed role. *)
Definition ensureTenantPodRole (tenantPodRoles : gmap string PodRolePermissions) (getTenantPodObject : string → option Pod)
    (tenantPodNames : gset string) (pods : list Pod) (name : string) (old : option Role) (a : Answers) : list Call * option string :=
  match tenantPodRoles !! name with
  | None => ([], None)
  | Some roleSpec =>
      ensure_role (checkTenantPodRoleUpToDate tenantPodRoles getTenantPodObject tenantPodNames)
        (newTenantPodRoleForAllEdgeDevices name roleSpec pods) old a
  end.
Definition ensureVirtualPodRole (vpRoles : gmap string PodRolePermissions) (virtualPodNames : gset string) (pods : list Pod)
    (name : string) (old : option Role) (a : Answers) : list Call * option string :=
  match vpRoles !! name with
  | None => ([], None)
  | Some roleSpec =>
      ensure_role (checkVirtualPodRoleUpToDate vpRoles virtualPodNames) (newVirtualPodRole name roleSpec pods) old a
  end.

Definition onTenantPodRoleEnsureRequested (tenantPodRoles : gmap string PodRolePermissions) (getTenantPodObject : string → option Pod)
    (tenantPodNames : gset string) (pods : list Pod) (store client : string → option Role) (a : string → Answers) : list Call * Result :=
  ensure_all (λ n, ensureTenantPodRole tenantPodRoles getTenantPodObject tenantPodNames pods n (get_role store client n) (a n))
    (map_to_list tenantPodRoles).*1.
Definition onVirtualPodRoleEnsureRequested (vpRoles : gmap string PodRolePermissions) (virtualPodNames : gset string) (pods : list Pod)
    (store client : string → option Role) (a : string → Answers) : list Call * Result :=
  ensure_all (λ n, ensureVirtualPodRole vpRoles virtualPodNames pods n (get_role store client n) (a n)) (map_to_list vpRoles).*1.

(** *** What the roles grant *)

(** The permissions in force for a pod: what its device sets for the role, and the role's own where the device sets nothing *)
Definition in_force (roleName : string) (roleSpec : PodRolePermissions) (ed : EdgeDevice) : PodRolePermissions :=
  match spec_RolePermissions (ed_Spec ed) !! roleName with None => roleSpec | Some p => override roleSpec p end.
Definition permitted (perms : PodRolePermissions) (verb resource : string) : Prop :=
  (resource = "pods" ∧ permits (prp_PodVerbs perms) verb) ∨ (resource = "pods/status" ∧ permits (prp_StatusVerbs perms) verb) ∨
  (resource = "pods/attach" ∧ is_true (prp_AllowAttach perms) = true ∧ permits ["create"] verb) ∨
  (resource = "pods/exec" ∧ is_true (prp_AllowExec perms) = true ∧ permits ["create"] verb).
Lemma gives_in_force roleName roleSpec pod ed verb resource name :
  (∀ p, spec_RolePermissions (ed_Spec ed) !! roleName = Some p → prp_PodVerbs p ≠ [] ∧ prp_StatusVerbs p ≠ []) →
  resource ∈ ["pods"; "pods/status"; "pods/attach"; "pods/exec"] →
  gives roleName roleSpec {| t_Pod := pod; t_EdgeDevice := ed_Name ed; t_Roles := spec_RolePermissions (ed_Spec ed) |} verb resource name ↔
  name = pod ∧ permitted (in_force roleName roleSpec ed) verb resource.
Proof using.
  clear getEdgeDeviceObject SysNS TenantNS. intros Hset Hres. unfold gives, flag_grants, verbs_grant, allowed, in_force, permitted. cbn [t_Roles t_Pod t_EdgeDevice].
  assert (resource ≠ "pods/portforward" ∧ resource ≠ "pods/log") as [Hp Hl].
  { repeat (apply elem_of_cons in Hres as [->|Hres]; [done|]). by apply elem_of_nil in Hres. }
  destruct (spec_RolePermissions (ed_Spec ed) !! roleName) as [p|]; [|tauto]. destruct (Hset p eq_refl) as [H1 H2].
  destruct p as [pv sv ex at_ pf lg]. cbn in H1, H2 |- *. destruct pv; [done|]. destruct sv; [done|]. cbn. destruct ex, at_; cbn; tauto.
Qed.
(** The devices of tenant pods set, for a role, either nothing or the verbs of both kinds. *)
Definition whole_overrides (roleName : string) (pods : list Pod) : Prop := ∀ pod ed p, pod ∈ pods →
  getEdgeDeviceObject (pod_Name pod) = None → getEdgeDeviceObject (sp_NodeName (pod_Spec pod)) = Some ed →
  spec_RolePermissions (ed_Spec ed) !! roleName = Some p → prp_PodVerbs p ≠ [] ∧ prp_StatusVerbs p ≠ [].
(** C33: The role for tenant pods grants a verb on pods, their status, attach and exec under a name exactly when a pod of that name, which is no
    virtual pod, runs on a device of aranya and the permissions in force for it say so: those of the device for the role, and the role's own
    where the device sets none; when no device with permissions for the role leaves out the verbs of pods or those of their status. And
    no rule of the role is without the names of objects. *)
Theorem tenant_role_grants roleName roleSpec pods verb resource name :
  whole_overrides roleName pods → resource ∈ ["pods"; "pods/status"; "pods/attach"; "pods/exec"] →
  Forall restricted (r_Rules (newTenantPodRoleForAllEdgeDevices roleName roleSpec pods)) ∧
  (grants (r_Rules (newTenantPodRoleForAllEdgeDevices roleName roleSpec pods)) verb resource name ↔
   ∃ pod ed, pod ∈ pods ∧ pod_Name pod = name ∧ getEdgeDeviceObject name = None ∧ getEdgeDeviceObject (sp_NodeName (pod_Spec pod)) = Some ed ∧
     permitted (in_force roleName roleSpec ed) verb resource).
Proof using getEdgeDeviceObject TenantNS.
  intros Hw Hres. cbn [r_Rules newTenantPodRoleForAllEdgeDevices new_role]. split; [apply role_rules_restricted|].
  rewrite role_rules_spec. setoid_rewrite list_elem_of_omap. unfold tenant_target. split.
  - intros (t & (pod & Hin & Ht) & Hg). destruct (getEdgeDeviceObject (pod_Name pod)) eqn:Hv; [done|].
    destruct (getEdgeDeviceObject (sp_NodeName _)) as [ed|] eqn:He; [|done]. injection Ht as <-.
    apply gives_in_force in Hg as [-> Hg]; [|intros p Hp; by eapply Hw|done]. by exists pod, ed.
  - intros (pod & ed & Hin & <- & Hv & He & Hg). eexists. split; [exists pod; rewrite Hv, He; done|].
    apply gives_in_force; [intros p Hp; by eapply Hw|done|done].
Qed.

(** The verbs of a device that overrides the role only in part are granted under another name: its pods are left without. *)
Lemma partial_override_grants_nothing roleName roleSpec pod ed p verb :
  getEdgeDeviceObject (pod_Name pod) = None → getEdgeDeviceObject (sp_NodeName (pod_Spec pod)) = Some ed → ed_Name ed ≠ pod_Name pod →
  spec_RolePermissions (ed_Spec ed) !! roleName = Some p → prp_PodVerbs p = [] →
  ¬ grants (r_Rules (newTenantPodRoleForAllEdgeDevices roleName roleSpec [pod])) verb "pods" (pod_Name pod).
Proof.
  intros Hv He Hne Hp Hnil. cbn [r_Rules newTenantPodRoleForAllEdgeDevices new_role]. rewrite role_rules_spec. intros (t & Ht & Hg).
  cbn in Ht. unfold tenant_target in Ht. rewrite Hv, He in Ht. cbn in Ht. apply list_elem_of_singleton in Ht as ->.
  destruct Hg as [ [_ Hg]|[ [? _]|[ [? _]|[ [? _]|[ [? _]|[? _] ] ] ] ] ]; try done.
  unfold verbs_grant in Hg. cbn in Hg. rewrite Hp, Hnil in Hg. cbn in Hg. by destruct Hg as [? _].
Qed.

(** What the check accepts of the names of a rule. *)
Lemma check_names_seen resolve roleName resource verbs names cur seen seen' :
  check_names resolve roleName resource verbs names cur seen = Some seen' →
  seen' = list_to_set names ∪ seen ∧ ∀ n, n ∈ names → is_Some (resolve n).
Proof.
  revert cur seen. induction names as [|n names IH]; intros cur seen; cbn [check_names].
  { intros [= <-]. split; [cbn; set_solver|by intros ? ?%elem_of_nil]. }
  destruct (resolve n) as [roles|] eqn:Hr; [|done]. cbn [mbind option_bind]. destruct (requiredVerbs _ _) as [req|]; [|done]. cbn [mbind option_bind].
  destruct (_ && _); [|done]. intros [-> Hn]%IH. split; [cbn; set_solver|].
  intros x [->|Hx]%elem_of_cons; [by rewrite Hr|by apply Hn].
Qed.
Lemma check_rules_seen resolve roleName crSpec rules seen seen' :
  check_rules resolve roleName crSpec rules seen = Some seen' →
  seen' = list_to_set (rules ≫= ResourceNames) ∪ seen ∧ ∀ p n, p ∈ rules → n ∈ ResourceNames p → is_Some (resolve n).
Proof.
  revert seen. induction rules as [|p rules IH]; intros seen; cbn [check_rules].
  { intros [= <-]. split; [cbn; set_solver|by intros ? ? ?%elem_of_nil]. }
  destruct (APIGroups p) as [| [|? ?] [|? ?] ]; try done. destruct (Resources p) as [|resource [|? ?] ]; try done.
  destruct (check_names _ _ _ _ _ _ _) as [seen1|] eqn:Hn; [|done]. cbn [mbind option_bind]. apply check_names_seen in Hn as [-> Hn].
  intros [-> Hr]%IH. split; [cbn [mbind list_bind]; rewrite list_to_set_app_L; set_solver|].
  intros q n [->|Hq]%elem_of_cons Hin; [by apply Hn|by eapply Hr].
Qed.

(** A managed role that the check accepts names in its rules exactly the pods it has to: each of them in some rule, and none that is
    not a pod of a device (a virtual pod neither). *)
Lemma accepted_role_names tenantPodRoles getTenantPodObject tenantPodNames role roleSpec :
  tenantPodRoles !! r_Name role = Some roleSpec →
  checkTenantPodRoleUpToDate tenantPodRoles getTenantPodObject tenantPodNames role = true →
  (∀ name, name ∈ tenantPodNames ↔ ∃ r, r ∈ r_Rules role ∧ name ∈ ResourceNames r) ∧
  ∀ r name, r ∈ r_Rules role → name ∈ ResourceNames r →
    getEdgeDeviceObject name = None ∧ ∃ pod, getTenantPodObject name = Some pod ∧ is_Some (getEdgeDeviceObject (sp_NodeName (pod_Spec pod))).
Proof.
  intros Hm. unfold checkTenantPodRoleUpToDate, check_role. rewrite Hm. case_bool_decide; [|done]. case_bool_decide; [|done]. cbn [negb].
  destruct (check_rules _ _ _ _ _) as [seen|] eqn:Hc; [|done]. intros [Hs%Nat.eqb_eq Hsub%bool_decide_eq_true]%andb_true_iff.
  apply check_rules_seen in Hc as [-> Hr]. split.
  - assert (tenantPodNames = list_to_set (r_Rules role ≫= ResourceNames) ∪ ∅) as ->.
    { apply set_subseteq_size_eq; [done|lia]. }
    intros name. rewrite elem_of_union, elem_of_empty, elem_of_list_to_set, list_elem_of_bind. naive_solver.
  - intros r name Hin Hn. specialize (Hr r name Hin Hn). destruct (getEdgeDeviceObject name); [by destruct Hr|].
    split; [done|]. destruct (getTenantPodObject name) as [pod|]; cbn in Hr; [|by destruct Hr]. exists pod. split; [done|].
    destruct (getEdgeDeviceObject _); [done|by destruct Hr].
Qed.

(** The roles created never pass the check: they lack the label of the namespace. *)
Lemma new_role_outdated tenantPodRoles getTenantPodObject names roleName roleSpec pods :
  TenantNS ≠ "" → tenantPodRoles !! roleName = Some roleSpec →
  checkTenantPodRoleUpToDate tenantPodRoles getTenantPodObject names (newTenantPodRoleForAllEdgeDevices roleName roleSpec pods) = false.
Proof.
  intros Hns Hm. unfold checkTenantPodRoleUpToDate, check_role. cbn [r_Name newTenantPodRoleForAllEdgeDevices new_role r_Labels]. rewrite Hm.
  rewrite bool_decide_true by reflexivity. cbn [negb]. rewrite bool_decide_false; [done|]. unfold map_get. cbn. by apply not_eq_sym.
Qed.
(** The rule for logs, with the verb get, never passes either. *)
Lemma log_rule_refused resolve roleName cur n names seen :
  check_names resolve roleName "pods/log" ["get"] (n :: names) cur seen = None.
Proof.
  cbn [check_names]. destruct (resolve n) as [roles|]; [|done]. cbn [mbind option_bind]. unfold requiredVerbs.
  rewrite bool_decide_false, bool_decide_false, bool_decide_true by done. cbn [mbind option_bind]. by destruct (is_true _).
Qed.
(** A rule without names grants its verbs on every pod, and the check passes over it. *)
Lemma unnamed_rule_accepted resolve roleName crSpec resource verbs rules seen :
  check_rules resolve roleName crSpec (rule resource verbs [] :: rules) seen = check_rules resolve roleName crSpec rules seen.
Proof. done. Qed.
End Roles.
End PodRoles.

(** ** Cluster roles for nodes *)
Module NodeClusterRoles.
Import Rules PodRoles.

Definition LabelRoleValueNodeClusterRole : string := "NodeClusterRole".

Section ClusterRole.
Context (SysNS : string) (nodeClusterRoles : gmap string NodeClusterRolePermissions).
(** The store of the informer, in its order, and the lookup by name. *)
Context (edgeDevices : list EdgeDevice) (getEdgeDeviceObject : string → option EdgeDevice).

Definition verbs_of (crName : string) (f : NodeClusterRolePermissions → list string) (resource : string) (ed : EdgeDevice)
    : list PolicyRule * list string :=
  let nodeCRs := spec_ClusterRolePermissions (ed_Spec ed) in
  if decide (nodeCRs = ∅) then ([], [ed_Name ed])
  else match nodeCRs !! crName with
       | None => ([], [])
       | Some p => if is_nil (f p) then ([], [ed_Name ed]) else ([rule resource (f p) [ed_Name ed] ], [])
       end.
(** The policies, and the names with the default verbs of nodes and of their status. *)
Definition visit_device (crName : string) (acc : list PolicyRule * list string * list string) (ed : EdgeDevice)
    : list PolicyRule * list string * list string :=
  let '(policies, nodeNames, statusNames) := acc in
  let '(rs1, ns1) := verbs_of crName ncp_NodeVerbs "nodes" ed in
  let '(rs2, ns2) := verbs_of crName ncp_StatusVerbs "nodes/status" ed in
  (policies ++ rs1 ++ rs2, nodeNames ++ ns1, statusNames ++ ns2).
Definition default_rule (resource : string) (verbs names : list string) : list PolicyRule :=
  if is_nil names then [] else [rule resource verbs names].
Definition newNodeClusterRoleForAllEdgeDevices (crName : string) (crSpec : NodeClusterRolePermissions) : Role :=
  let '(policies, nodeNames, statusNames) := foldl (visit_device crName) ([], [], []) edgeDevices in
  {| r_Name := crName; r_Namespace := "";
     r_Labels := Some {[LabelRole := LabelRoleValueNodeClusterRole; LabelNamespace := SysNS]};
     r_Rules := policies ++ default_rule "nodes" (ncp_NodeVerbs crSpec) nodeNames
                         ++ default_rule "nodes/status" (ncp_StatusVerbs crSpec) statusNames |}.

(** The verbs a rule needs: those of the device when it is the only one named. *)
Definition override_cr (roleName : string) (crSpec : NodeClusterRolePermissions) (names : list string) : option NodeClusterRolePermissions :=
  match names with
  | [name] =>
      ed ← getEdgeDeviceObject name;
      match spec_ClusterRolePermissions (ed_Spec ed) !! roleName with
      | None => Some crSpec
      | Some spec => Some {| ncp_NodeVerbs := if is_nil (ncp_NodeVerbs spec) then ncp_NodeVerbs crSpec else ncp_NodeVerbs spec;
                             ncp_StatusVerbs := if is_nil (ncp_StatusVerbs spec) then ncp_StatusVerbs crSpec else ncp_StatusVerbs spec |}
      end
  | _ => Some crSpec
  end.
Definition check_cr_rule (roleName : string) (crSpec : NodeClusterRolePermissions) (p : PolicyRule) : bool :=
  if is_nil (ResourceNames p) then false
  else match APIGroups p, Resources p with
       | [""], [resource] =>
           match override_cr roleName crSpec (ResourceNames p) with
           | None => false
           | Some spec => if bool_decide (resource = "nodes") then containsAll (Verbs p) (ncp_NodeVerbs spec)
                          else if bool_decide (resource = "nodes/status") then containsAll (Verbs p) (ncp_StatusVerbs spec) else false
           end
       | _, _ => false
       end.
(** The names after the "/" of the keys of the store; a key is the namespace and the name. *)
Definition checkNodeClusterRoleUpToDate (obj : Role) : bool :=
  match nodeClusterRoles !! r_Name obj with
  | None => true
  | Some crSpec =>
      if negb (bool_decide (map_get (r_Labels obj) LabelRole = LabelRoleValueNodeClusterRole)) then false
      else if negb (bool_decide (map_get (r_Labels obj) LabelNamespace = SysNS)) then false
      else forallb (check_cr_rule (r_Name obj) crSpec) (r_Rules obj) &&
           let nodeNames : gset string := list_to_set (r_Rules obj ≫= ResourceNames) in
           (length edgeDevices =? size nodeNames)%nat && bool_decide (nodeNames ∖ list_to_set (ed_Name <$> edgeDevices) = ∅)
  end.
Definition ensureNodeClusterRole (name : string) (old : option Role) (a : Answers) : list Call * option string :=
  match nodeClusterRoles !! name with
  | None => ([], None)
  | Some crSpec => ensure_role checkNodeClusterRoleUpToDate (newNodeClusterRoleForAllEdgeDevices name crSpec) old a
  end.
Definition onNodeClusterRoleEnsureRequested (store client : string → option Role) (a : string → Answers) : list Call * Result :=
  ensure_all (λ n, ensureNodeClusterRole n (get_role store client n) (a n)) (map_to_list nodeClusterRoles).*1.
(** The handlers of the reconciler: what a role that was changed or deleted gives rise to. *)
Definition onNodeClusterRoleUpdated (new : Role) (old : option Role) (a : Answers) : list Call * Result :=
  if checkNodeClusterRoleUpToDate new then ([], RNil)
  else let '(cs, r) := ensureNodeClusterRole (r_Name new) old a in (cs, match r with None => RNil | Some e => RErr e end).
Definition onNodeClusterRoleDeleting (obj : Role) (a : Answers) : list Call * Result :=
  ([CDelete (r_Name obj)],
   match a_Delete a with
   | Some e => if ke_NotFound e then RNext ActionCleanup 0 else RErr (ke_Text e)
   | None => RNext ActionCleanup 0
   end).
Definition onNodeClusterRoleDeleted (obj : Role) (old : option Role) (a : Answers) : list Call * Result :=
  let '(cs, r) := ensureNodeClusterRole (r_Name obj) old a in (cs, match r with None => RNil | Some e => RErr e end).

(** *** The role the controller writes, and its own check *)

Definition rules1 (crName : string) (ed : EdgeDevice) : list PolicyRule :=
  (verbs_of crName ncp_NodeVerbs "nodes" ed).1 ++ (verbs_of crName ncp_StatusVerbs "nodes/status" ed).1.
Definition names_with (crName : string) (f : NodeClusterRolePermissions → list string) : list string :=
  edgeDevices ≫= λ ed, (verbs_of crName f "" ed).2.
Lemma verbs_of_names crName f res res' ed : (verbs_of crName f res ed).2 = (verbs_of crName f res' ed).2.
Proof. unfold verbs_of. case_decide; [done|]. destruct (_ !! crName) as [p|]; [|done]. by destruct (is_nil (f p)). Qed.
Lemma new_rules crName crSpec :
  r_Rules (newNodeClusterRoleForAllEdgeDevices crName crSpec) =
  (edgeDevices ≫= rules1 crName) ++ default_rule "nodes" (ncp_NodeVerbs crSpec) (names_with crName ncp_NodeVerbs)
                                 ++ default_rule "nodes/status" (ncp_StatusVerbs crSpec) (names_with crName ncp_StatusVerbs).
Proof.
  unfold newNodeClusterRoleForAllEdgeDevices, names_with.
  assert (∀ l p n s, foldl (visit_device crName) (p, n, s) l =
    (p ++ (l ≫= rules1 crName), n ++ (l ≫= λ ed, (verbs_of crName ncp_NodeVerbs "" ed).2),
     s ++ (l ≫= λ ed, (verbs_of crName ncp_StatusVerbs "" ed).2))) as Hf.
  { induction l as [|ed l IH]; intros p n s; cbn [foldl]; [cbn; by rewrite !app_nil_r|]. unfold visit_device at 2.
    unfold rules1. cbn [mbind list_bind].
    destruct (verbs_of crName ncp_NodeVerbs "nodes" ed) as [rs1 ns1] eqn:H1, (verbs_of crName ncp_StatusVerbs "nodes/status" ed) as [rs2 ns2] eqn:H2.
    rewrite IH. cbn [mbind list_bind]. rewrite (verbs_of_names crName ncp_NodeVerbs "" "nodes"), (verbs_of_names crName ncp_StatusVerbs "" "nodes/status").
    rewrite H1, H2. cbn [fst snd]. by rewrite !app_assoc. }
  rewrite Hf. done.
Qed.

(** A device has no permissions by role, or has some for this one. *)
Definition mentioned (crName : string) (ed : EdgeDevice) : Prop :=
  spec_ClusterRolePermissions (ed_Spec ed) = ∅ ∨ is_Some (spec_ClusterRolePermissions (ed_Spec ed) !! crName).
Lemma verbs_of_cases crName f res ed :
  ((verbs_of crName f res ed).1 = [] ∧ (verbs_of crName f res ed).2 = [] ∧ ¬ mentioned crName ed) ∨
  (mentioned crName ed ∧ (verbs_of crName f res ed).1 = [] ∧ (verbs_of crName f res ed).2 = [ed_Name ed] ∧
    ∀ p, spec_ClusterRolePermissions (ed_Spec ed) !! crName = Some p → f p = []) ∨
  (mentioned crName ed ∧ (verbs_of crName f res ed).2 = [] ∧ ∃ p, spec_ClusterRolePermissions (ed_Spec ed) !! crName = Some p ∧ f p ≠ [] ∧
    (verbs_of crName f res ed).1 = [rule res (f p) [ed_Name ed] ]).
Proof.
  unfold verbs_of, mentioned. case_decide as He.
  - right; left. split_and!; [by left|done|done|]. intros p. by rewrite He, lookup_empty.
  - destruct (_ !! crName) as [p|] eqn:Hp.
    + destruct (f p) as [|v vs] eqn:Hf; cbn [is_nil].
      * right; left. split_and!; [by right|done|done|]. by intros ? [= <-].
      * right; right. split_and!; [by right|done|]. exists p. by rewrite Hf.
    + left. split_and!; [done|done|]. intros [?|[? ?] ]; congruence.
Qed.

Context (Hstore : ∀ ed, ed ∈ edgeDevices → getEdgeDeviceObject (ed_Name ed) = Some ed) (Hnd : NoDup (ed_Name <$> edgeDevices)).

Lemma default_names_spec crName f name :
  name ∈ names_with crName f ↔ ∃ ed, ed ∈ edgeDevices ∧ name = ed_Name ed ∧ mentioned crName ed ∧
    ∀ p, spec_ClusterRolePermissions (ed_Spec ed) !! crName = Some p → f p = [].
Proof.
  unfold names_with. rewrite list_elem_of_bind. split.
  - intros (ed & Hn & Hin). exists ed. destruct (verbs_of_cases crName f "" ed) as [(_&He&_)|[(Hm&_&He&Hp)|(_&He&_)] ]; rewrite He in Hn.
    + by apply elem_of_nil in Hn.
    + by apply list_elem_of_singleton in Hn.
    + by apply elem_of_nil in Hn.
  - intros (ed & Hin & -> & Hm & Hp). exists ed. split; [|done].
    destruct (verbs_of_cases crName f "" ed) as [(_&_&?)|[(_&_&He&_)|(_&_&p&Hp'&Hne&_)] ]; [done|rewrite He; by left|]. by destruct Hne; apply Hp.
Qed.
(** The default verbs pass for the names that have them, whichever they are. *)
Lemma default_rule_checked crName crSpec f res :
  (f = ncp_NodeVerbs ∧ res = "nodes") ∨ (f = ncp_StatusVerbs ∧ res = "nodes/status") →
  Forall (λ p, check_cr_rule crName crSpec p = true) (default_rule res (f crSpec) (names_with crName f)).
Proof.
  intros Hf. unfold default_rule. destruct (names_with crName f) as [|n names] eqn:Hn; [constructor|]. cbn [is_nil]. apply Forall_singleton.
  unfold check_cr_rule. cbn [ResourceNames rule is_nil APIGroups Resources Verbs].
  assert (∃ spec, override_cr crName crSpec (n :: names) = Some spec ∧ f spec = f crSpec) as (spec & -> & Hs).
  { unfold override_cr. destruct names as [|n' names]; [|by exists crSpec].
    destruct (proj1 (default_names_spec crName f n)) as (ed & Hin & -> & _ & Hp); [rewrite Hn; by left|].
    rewrite Hstore by done. cbn [mbind option_bind]. destruct (_ !! crName) as [p|] eqn:Hp'; [|by exists crSpec].
    eexists. split; [reflexivity|]. specialize (Hp p eq_refl). destruct Hf as [ [-> _]|[-> _] ]; cbn; by rewrite Hp. }
  destruct Hf as [ [-> ->]|[-> ->] ]; repeat case_bool_decide; try done; apply containsAll_spec; by rewrite Hs.
Qed.
Lemma rules1_checked crName crSpec ed :
  ed ∈ edgeDevices → Forall (λ p, check_cr_rule crName crSpec p = true) (rules1 crName ed).
Proof.
  intros Hin.
  assert (∀ f res, (f = ncp_NodeVerbs ∧ res = "nodes") ∨ (f = ncp_StatusVerbs ∧ res = "nodes/status") →
    Forall (λ p, check_cr_rule crName crSpec p = true) (verbs_of crName f res ed).1) as Hx.
  { intros f res Hf. destruct (verbs_of_cases crName f res ed) as [(->&_)|[(_&->&_)|(_&_&p&Hp&Hne&->)] ]; [constructor|constructor|].
    apply Forall_singleton. unfold check_cr_rule. cbn [ResourceNames rule is_nil APIGroups Resources Verbs override_cr].
    rewrite Hstore by done. cbn [mbind option_bind]. rewrite Hp.
    destruct Hf as [ [-> ->]|[-> ->] ]; repeat case_bool_decide; try done; apply containsAll_spec; cbn;
      [destruct (ncp_NodeVerbs p)|destruct (ncp_StatusVerbs p)]; done. }
  unfold rules1. apply Forall_app. split; apply Hx; auto.
Qed.
Lemma all_names crName crSpec name :
  name ∈ r_Rules (newNodeClusterRoleForAllEdgeDevices crName crSpec) ≫= ResourceNames ↔
  ∃ ed, ed ∈ edgeDevices ∧ name = ed_Name ed ∧ mentioned crName ed.
Proof.
  rewrite new_rules, !bind_app, !elem_of_app.
  assert (∀ res verbs names, default_rule res verbs names ≫= ResourceNames = names) as Hd by (intros ?? []; cbn; by rewrite ?app_nil_r).
  rewrite !Hd, !default_names_spec. split.
  - intros [Hn|[(ed&?&?&?&_)|(ed&?&?&?&_)] ]; [|by exists ed|by exists ed].
    apply list_elem_of_bind in Hn as (r & Hn & Hr). apply list_elem_of_bind in Hr as (ed & Hr & Hin). exists ed. unfold rules1 in Hr.
    apply elem_of_app in Hr.
    destruct Hr as [Hr|Hr];
      [destruct (verbs_of_cases crName ncp_NodeVerbs "nodes" ed) as [(He&_)|[(_&He&_)|(Hm&_&p&_&_&He)] ]
      |destruct (verbs_of_cases crName ncp_StatusVerbs "nodes/status" ed) as [(He&_)|[(_&He&_)|(Hm&_&p&_&_&He)] ] ];
      rewrite He in Hr; try (by apply elem_of_nil in Hr); apply list_elem_of_singleton in Hr as ->; cbn in Hn;
      apply list_elem_of_singleton in Hn as ->; done.
  - intros (ed & Hin & -> & Hm).
    destruct (verbs_of_cases crName ncp_NodeVerbs "nodes" ed) as [(_&_&?)|[(_&_&_&Hp)|(_&_&p&_&_&He)] ]; [done|right; left; by exists ed|].
    left. apply list_elem_of_bind. exists (rule "nodes" (ncp_NodeVerbs p) [ed_Name ed]). split; [by left|].
    apply list_elem_of_bind. exists ed. split; [|done]. unfold rules1. rewrite He. by left.
Qed.

(** The cluster role the controller writes passes its own check, so that its update events come to an end, exactly when every device
    either has no permissions by role or has some for this role; a device with permissions for other roles only is in no rule, and the
    role is found outdated for ever. *)
Lemma written_role_passes crName crSpec :
  nodeClusterRoles !! crName = Some crSpec →
  checkNodeClusterRoleUpToDate (newNodeClusterRoleForAllEdgeDevices crName crSpec) = true ↔ ∀ ed, ed ∈ edgeDevices → mentioned crName ed.
Proof.
  intros Hm. pose proof (all_names crName crSpec) as Hn. pose proof (new_rules crName crSpec) as Hr.
  unfold checkNodeClusterRoleUpToDate. set (role := newNodeClusterRoleForAllEdgeDevices crName crSpec) in *.
  assert (r_Name role = crName ∧ map_get (r_Labels role) LabelRole = LabelRoleValueNodeClusterRole ∧
          map_get (r_Labels role) LabelNamespace = SysNS) as (-> & -> & ->).
  { unfold role, newNodeClusterRoleForAllEdgeDevices. by destruct (foldl _ _ _) as [ [? ?] ?]. }
  rewrite Hm, !bool_decide_true by done. cbn [negb]. cbv zeta.
  assert (forallb (check_cr_rule crName crSpec) (r_Rules role) = true) as ->.
  { apply List.forallb_forall. intros p Hp%list_elem_of_In. rewrite Hr, !elem_of_app in Hp.
    destruct Hp as [Hp|[Hp|Hp] ].
    - apply list_elem_of_bind in Hp as (ed & Hp & Hin). pose proof (rules1_checked crName crSpec ed Hin) as Hf. rewrite Forall_forall in Hf. by apply Hf.
    - pose proof (default_rule_checked crName crSpec ncp_NodeVerbs "nodes" ltac:(auto)) as Hf. rewrite Forall_forall in Hf. by apply Hf.
    - pose proof (default_rule_checked crName crSpec ncp_StatusVerbs "nodes/status" ltac:(auto)) as Hf. rewrite Forall_forall in Hf. by apply Hf. }
  cbn [andb]. set (names := list_to_set (r_Rules role ≫= ResourceNames) : gset string).
  assert (names ⊆ list_to_set (ed_Name <$> edgeDevices)) as Hsub.
  { intros x Hx. unfold names in Hx. rewrite elem_of_list_to_set, Hn in Hx. destruct Hx as (ed & Hin & -> & _).
    apply elem_of_list_to_set, list_elem_of_fmap. by exists ed. }
  assert (size (list_to_set (ed_Name <$> edgeDevices) : gset string) = length edgeDevices) as Hsize
    by (rewrite size_list_to_set, length_fmap by done; done).
  rewrite andb_true_iff, Nat.eqb_eq, bool_decide_eq_true. split.
  - intros [Hl _] ed Hin.
    assert (names = list_to_set (ed_Name <$> edgeDevices)) as He by (apply set_subseteq_size_eq; [done|lia]).
    assert (ed_Name ed ∈ names) as Hx by (rewrite He; apply elem_of_list_to_set, list_elem_of_fmap; by exists ed).
    unfold names in Hx. rewrite elem_of_list_to_set, Hn in Hx. destruct Hx as (ed' & Hin' & Heq & Hm').
    pose proof (Hstore _ Hin) as H1. rewrite Heq, Hstore in H1 by done. by injection H1 as <-.
  - intros Ha. assert (names = list_to_set (ed_Name <$> edgeDevices)) as ->.
    { apply set_eq. intros x. split; [apply Hsub|]. intros Hx. unfold names. rewrite elem_of_list_to_set, Hn.
      rewrite elem_of_list_to_set, list_elem_of_fmap in Hx. destruct Hx as (ed & -> & Hin). exists ed. auto. }
    split; [lia|set_solver].
Qed.
End ClusterRole.
End NodeClusterRoles.

(** ** Examples *)
Module RbacExamples.
Import Rules PodRoles NodeClusterRoles.

Definition no_perms : PodRolePermissions := {| prp_PodVerbs := []; prp_StatusVerbs := []; prp_AllowExec := None; prp_AllowAttach := None;
  prp_AllowPortForward := None; prp_AllowLog := None |}.
Definition viewer : PodRolePermissions := {| prp_PodVerbs := ["get"; "list"]; prp_StatusVerbs := ["get"]; prp_AllowExec := Some true;
  prp_AllowAttach := None; prp_AllowPortForward := None; prp_AllowLog := Some true |}.
Definition ncp (v s : list string) : NodeClusterRolePermissions := {| ncp_NodeVerbs := v; ncp_StatusVerbs := s |}.
Definition with_roles (roles : gmap string PodRolePermissions) (cr : gmap string NodeClusterRolePermissions) (name : string) : EdgeDevice :=
  let d := Sample.device name ∅ [] [] in let s := ed_Spec d in
  {| ed_Name := name; ed_Namespace := ed_Namespace d; ed_ClusterName := ""; ed_Annotations := ∅;
     ed_Spec := {| spec_Connectivity := spec_Connectivity s; spec_NodeLabels := ∅; spec_NodeAnnotations := None; spec_NodeTaints := [];
                   spec_FieldHooks := []; spec_ClusterRolePermissions := cr; spec_PodIPv4CIDR := ""; spec_PodIPv6CIDR := "";
                   spec_RolePermissions := roles; spec_VirtualPodRolePermissions := ∅; spec_NodeForceSyncInterval := None;
                   spec_NodeMetrics := None; spec_PodForceSyncInterval := None; spec_PodMetrics := None; spec_PodDNS := None;
                   spec_PodAllocatable := 0%Z; spec_StorageEnabled := false; spec_NetworkEnabled := false;
                   spec_Mesh := spec_Mesh s; spec_Peripherals := []; spec_MetricsReporters := [] |};
     ed_Status := ed_Status d |}.
Definition on_node (node name : string) : Pod :=
  let s := Samples.spec [] [] [] in
  Samples.pod name name {| sp_Volumes := []; sp_InitContainers := []; sp_Containers := []; sp_EphemeralContainers := [];
    sp_RestartPolicy := ""; sp_TerminationGracePeriodSeconds := None; sp_DNSPolicy := ""; sp_ServiceAccountName := ""; sp_NodeName := node;
    sp_HostNetwork := false; sp_HostPID := false; sp_HostIPC := false; sp_ShareProcessNamespace := None; sp_SecurityContext := None;
    sp_ImagePullSecrets := []; sp_Hostname := ""; sp_HostAliases := []; sp_DNSConfig := None; sp_EnableServiceLinks := None |}.

(** Two pods: one on a device with the defaults of the role, one on a device that overrides the verbs of the status only. *)
Definition devs : gmap string EdgeDevice :=
  {["plain" := with_roles ∅ ∅ "plain";
    "special" := with_roles {["viewer" := {| prp_PodVerbs := []; prp_StatusVerbs := ["patch"]; prp_AllowExec := Some false;
      prp_AllowAttach := None; prp_AllowPortForward := None; prp_AllowLog := None |}]} ∅ "special"]}.
Definition get (name : string) : option EdgeDevice := devs !! name.
Definition pods : list Pod := [on_node "plain" "web"; on_node "special" "db"; on_node "other" "alien"].
(** The verbs for pods of the second device come under the device's name. *)
Example tenant_rules : r_Rules (newTenantPodRoleForAllEdgeDevices get "tenant" "viewer" viewer pods) =
  [rule "pods/status" ["patch"] ["db"]; rule "pods" ["get"; "list"] ["special"; "web"]; rule "pods/status" ["get"] ["web"];
   rule "pods/exec" ["create"] ["web"]; rule "pods/log" ["get"] ["db"; "web"] ].
Proof. vm_compute. reflexivity. Qed.

(** A device that sets the verbs of both kinds: its pods are watched, and not entered, though the role says so. *)
Definition strict : gmap string EdgeDevice :=
  {["plain" := with_roles ∅ ∅ "plain";
    "strict" := with_roles {["viewer" := {| prp_PodVerbs := ["watch"]; prp_StatusVerbs := ["get"]; prp_AllowExec := Some false;
      prp_AllowAttach := None; prp_AllowPortForward := None; prp_AllowLog := None |}]} ∅ "strict"]}.
Definition strict_get (name : string) : option EdgeDevice := strict !! name.
Definition two_pods : list Pod := [on_node "plain" "web"; on_node "strict" "db"].
Lemma tenant_role_grants_witness :
  let rules := r_Rules (newTenantPodRoleForAllEdgeDevices strict_get "tenant" "viewer" viewer two_pods) in
  grants rules "create" "pods/exec" "web" ∧ (grants rules "create" "pods/exec" "db" → False).
Proof.
  assert (whole_overrides strict_get "viewer" two_pods) as Hw.
  { intros pod ed p [->|[->|?%elem_of_nil]%elem_of_cons]%elem_of_cons _ He Hp; [| |done]; vm_compute in He; injection He as <-; vm_compute in Hp; [done|].
    injection Hp as <-. done. }
  split.
  - apply (tenant_role_grants strict_get "tenant" "viewer" viewer two_pods "create" "pods/exec" "web" Hw); [do 3 right; left|].
    exists (on_node "plain" "web"), (with_roles ∅ ∅ "plain"). split; [left|]. split; [reflexivity|]. split; [vm_compute; reflexivity|].
    split; [vm_compute; reflexivity|]. right. right. right. split; [reflexivity|]. split; [vm_compute; reflexivity|]. left. left.
  - intros Hg. apply (tenant_role_grants strict_get "tenant" "viewer" viewer two_pods "create" "pods/exec" "db" Hw) in Hg; [|do 3 right; left].
    destruct Hg as (pod & ed & [->|[->|?%elem_of_nil]%elem_of_cons]%elem_of_cons & Hn & _ & He & Hg); [discriminate| |done].
    vm_compute in He. injection He as <-. destruct Hg as [ [? _]|[ [? _]|[ [? _]|[_ [Hg _] ] ] ] ]; try discriminate; vm_compute in Hg; discriminate.
Defined.

Definition getPod (name : string) : option Pod := if bool_decide (name = "web") then Some (on_node "plain" "web") else None.
Definition labelled : Role := {| r_Name := "viewer"; r_Namespace := "tenant";
  r_Labels := Some {[LabelRole := LabelRoleValuePodRole; LabelNamespace := "tenant"]};
  r_Rules := [rule "pods" ["list"; "get"] ["web"]; rule "pods/exec" ["create"] ["web"] ] |}.
Example accepted_role_names_witness :
  checkTenantPodRoleUpToDate get "tenant" {["viewer" := viewer]} getPod {["web"]} labelled = true ∧
  (∀ name, name ∈ ({["web"]} : gset string) ↔ ∃ r, r ∈ r_Rules labelled ∧ name ∈ ResourceNames r).
Proof.
  split; [vm_compute; reflexivity|]. apply (accepted_role_names get "tenant" {["viewer" := viewer]} getPod {["web"]} labelled viewer);
    vm_compute; reflexivity.
Defined.
(** With the labels in place a rule for all pods passes. *)
Example unrestricted_accepted :
  checkTenantPodRoleUpToDate get "tenant" {["viewer" := viewer]} getPod {["web"]}
    {| r_Name := "viewer"; r_Namespace := "tenant"; r_Labels := r_Labels labelled; r_Rules := rule "pods" ["*"] [] :: r_Rules labelled |} = true.
Proof. vm_compute. reflexivity. Qed.

Definition cdevs : list EdgeDevice := [with_roles ∅ ∅ "a"; with_roles ∅ {["nodes" := ncp ["get"] [] ]} "b"; with_roles ∅ ∅ "c"].
Definition cget (name : string) : option EdgeDevice := find (λ ed, bool_decide (ed_Name ed = name)) cdevs.
Example written_role_passes_witness :
  r_Rules (newNodeClusterRoleForAllEdgeDevices "sys" cdevs "nodes" (ncp ["list"] ["get"])) =
    [rule "nodes" ["get"] ["b"]; rule "nodes" ["list"] ["a"; "c"]; rule "nodes/status" ["get"] ["a"; "b"; "c"] ] ∧
  (checkNodeClusterRoleUpToDate "sys" {["nodes" := ncp ["list"] ["get"] ]} cdevs cget
     (newNodeClusterRoleForAllEdgeDevices "sys" cdevs "nodes" (ncp ["list"] ["get"])) = true ↔
   ∀ ed, ed ∈ cdevs → mentioned "nodes" ed).
Proof.
  split; [vm_compute; reflexivity|]. apply written_role_passes.
  - intros ed [->|[->|[->|?%elem_of_nil]%elem_of_cons]%elem_of_cons]%elem_of_cons; vm_compute; reflexivity || done.
  - refine (bool_decide_unpack (NoDup _) _). vm_compute. exact I.
  - vm_compute. reflexivity.
Defined.
(** A device with permissions for another role only. *)
Example unmentioned_device :
  checkNodeClusterRoleUpToDate "sys" {["nodes" := ncp ["list"] ["get"] ]} [with_roles ∅ {["other" := ncp ["get"] [] ]} "a"]
    (λ _, Some (with_roles ∅ {["other" := ncp ["get"] [] ]} "a"))
    (newNodeClusterRoleForAllEdgeDevices "sys" [with_roles ∅ {["other" := ncp ["get"] [] ]} "a"] "nodes" (ncp ["list"] ["get"])) = false.
Proof. vm_compute. reflexivity. Qed.
End RbacExamples.
