(* ===== verification/EdgeDevice.v ===== *)
(** * The controller of EdgeDevices

    src/pkg/controller/edgedevice: the configuration of a virtual node (conf/virtualnode.go, Module Conf), the secrets of the mesh
    (secret_sys.go, Module Secrets), the timed sessions of all devices (edgedevice.go, Module TimedSessions), the making and unmaking of
    virtual nodes (Module Instances), their options (Module CreationOptions) and the handlers of the reconcilers of EdgeDevices and virtual nodes (Module Handlers). What the
    steps of another component answer is an argument. *)
From S2P Require Import Prelude GoNet K8s Api TimeoutQueue Ipam Cluster.
Open Scope Z_scope.

(** ** The configuration of a virtual node *)
Module Conf.

Definition Millisecond : Z := 1000000.

Section Conf.
(** float64: strconv.ParseFloat (its value, also when it fails) and > 1 *)
Context {F : Type} (ParseFloat : string → F) (gt_one : F → bool).

(** VirtualnodeConfig: what OverrideWith can change and what it copies. [n_Rest] and [p_Rest] are the fields of the node and pod
    configuration no EdgeDevice changes. *)
Record NodeConfig (R : Type) := { n_ForceSyncInterval : Z; n_Metrics : list (string * MetricsConfig); n_Rest : R }.
Record PodConfig (R : Type) := {
  p_ForceSyncInterval : Z; p_DNS : AranyaDNSConfig; p_Metrics : MetricsConfig; p_Allocatable : Z; p_Rest : R
}.
Record ConnectivityConfig := { c_UnarySessionTimeout : Z; c_InitialDelay : Z; c_MaxDelay : Z; c_Factor : F }.
Record StorageConfig := { s_Enabled : bool; s_RootDir : string; s_KubeletRegistrationDir : string; s_KubeletPluginsDir : string }.
Record WireguardConfig := { w_PreSharedKey : string; w_KeepaliveSeconds : Z }.
Record NetworkConfig := { net_Enabled : bool; net_Driver : string; net_Wireguard : WireguardConfig }.
Context {RN RP : Type}.
Record VirtualnodeConfig := {
  Node : NodeConfig RN; Pod : PodConfig RP; Storage : StorageConfig; Network : NetworkConfig; Connectivity : ConnectivityConfig
}.
Definition zero_Storage : StorageConfig := {| s_Enabled := false; s_RootDir := ""; s_KubeletRegistrationDir := ""; s_KubeletPluginsDir := "" |}.
Definition zero_Network : NetworkConfig := {| net_Enabled := false; net_Driver := ""; net_Wireguard := {| w_PreSharedKey := ""; w_KeepaliveSeconds := 0 |} |}.

(** The new value where the guard of the code lets it in, else the old one. *)
Definition override {A} (new : option A) (ok : A → bool) (old : A) : A :=
  match new with Some a => if ok a then a else old | None => old end.
Definition set_enabled (b : bool) (s : StorageConfig) : StorageConfig :=
  {| s_Enabled := b; s_RootDir := s_RootDir s; s_KubeletRegistrationDir := s_KubeletRegistrationDir s; s_KubeletPluginsDir := s_KubeletPluginsDir s |}.
Definition set_net_enabled (b : bool) (s : NetworkConfig) : NetworkConfig :=
  {| net_Enabled := b; net_Driver := net_Driver s; net_Wireguard := net_Wireguard s |}.
Definition OverrideWith (c : VirtualnodeConfig) (spec : EdgeDeviceSpec) : VirtualnodeConfig :=
  let conn := spec_Connectivity spec in
  let backoff := con_Backoff conn in
  let factor := if bool_decide (cb_Factor backoff = "") then None else Some (ParseFloat (cb_Factor backoff)) in
  (* newConfig starts with the node, the pod and the connectivity of c *)
  let newStorage := zero_Storage in let newNetwork := zero_Network in
  {| Node := {| n_ForceSyncInterval := override (spec_NodeForceSyncInterval spec) (λ _, true) (n_ForceSyncInterval _ (Node c));
                n_Metrics := match spec_NodeMetrics spec with Some m => [("", m)] | None => n_Metrics _ (Node c) end;
                n_Rest := n_Rest _ (Node c) |};
     Pod := {| p_ForceSyncInterval := override (spec_PodForceSyncInterval spec) (λ _, true) (p_ForceSyncInterval _ (Pod c));
               p_DNS := override (spec_PodDNS spec) (λ _, true) (p_DNS _ (Pod c));
               p_Metrics := override (spec_PodMetrics spec) (λ _, true) (p_Metrics _ (Pod c));
               p_Allocatable := if 0 <? spec_PodAllocatable spec then spec_PodAllocatable spec else p_Allocatable _ (Pod c);
               p_Rest := p_Rest _ (Pod c) |};
     Storage := set_enabled (spec_StorageEnabled spec && s_Enabled newStorage) newStorage;
     Network := set_net_enabled (spec_NetworkEnabled spec && net_Enabled newNetwork) newNetwork;
     Connectivity := {|
       c_UnarySessionTimeout := override (con_UnarySessionTimeout conn) (λ t, Millisecond <=? t) (c_UnarySessionTimeout (Connectivity c));
       c_InitialDelay := override (cb_InitialDelay backoff) (λ t, 100 * Millisecond <? t) (c_InitialDelay (Connectivity c));
       c_MaxDelay := override (cb_MaxDelay backoff) (λ t, 100 * Millisecond <? t) (c_MaxDelay (Connectivity c));
       c_Factor := override factor gt_one (c_Factor (Connectivity c)) |} |}.

(** A configuration whose durations and factor an EdgeDevice cannot make worse than it may set them. *)
Definition sane (c : VirtualnodeConfig) : Prop :=
  Millisecond <= c_UnarySessionTimeout (Connectivity c) ∧ 100 * Millisecond < c_InitialDelay (Connectivity c) ∧
  100 * Millisecond < c_MaxDelay (Connectivity c) ∧ gt_one (c_Factor (Connectivity c)) = true ∧ 0 < p_Allocatable _ (Pod c).
Lemma override_inv {A} (P : A → Prop) new ok old : (∀ a, ok a = true → P a) → P old → P (override new ok old).
Proof. intros Hok Hold. unfold override. destruct new as [a|]; [|done]. destruct (ok a) eqn:Ha; [by apply Hok|done]. Qed.
(** No EdgeDevice spoils the timers, the backoff and the number of pods. *)
Lemma OverrideWith_sane c spec : sane c → sane (OverrideWith c spec).
Proof.
  intros (H1 & H2 & H3 & H4 & H5). unfold sane, OverrideWith. cbn [Connectivity c_UnarySessionTimeout c_InitialDelay c_MaxDelay c_Factor Pod p_Allocatable].
  split_and!; try (apply override_inv; [|done]); try (intros a Ha; bool_to_Z; done).
  destruct (Z.ltb_spec 0 (spec_PodAllocatable spec)); done.
Qed.
(** The storage and the network are disabled whatever the configuration and the device say: the configuration of the process is not read. *)
Lemma never_enabled c spec : s_Enabled (Storage (OverrideWith c spec)) = false ∧ net_Enabled (Network (OverrideWith c spec)) = false.
Proof. unfold OverrideWith. cbn. by rewrite !andb_false_r. Qed.
End Conf.
Arguments VirtualnodeConfig F RN RP : clear implicits.
End Conf.

(** ** The secrets of the mesh *)
Module Secrets.

Definition WireguardKeyLength : nat := 32.
Definition MeshConfigKeyWireguardPrivateKey : string := "wireguard.private-key".
(** The API's Secret with its bytes; [StringData] as bytes too *)
Record Secret := { StringData : gmap string (list Z); Data : gmap string (list Z) }.
Definition accessMap (d1 d2 : gmap string (list Z)) (key : string) : option (list Z) :=
  match d1 !! key with Some v => Some v | None => d2 !! key end.

(** The bytes of crypto/rand, or its error; three bits of the key are fixed. *)
Definition clamp (i : nat) (b : Z) : Z :=
  if decide (i = 0%nat) then Z.land b 248 else if decide (i = 31%nat) then Z.lor (Z.land b 127) 64 else b.
Definition generateWireguardPrivateKey (random : result (list Z)) : result (list Z) :=
  match random with
  | Err e => Err ("failed to read random bytes: " +:+ e)
  | Ok key => Ok (imap clamp key)
  end.
Definition newSecretForMesh (random : result (list Z)) : result Secret :=
  match generateWireguardPrivateKey random with
  | Err e => Err ("failed to generate wireguard private key: " +:+ e)
  | Ok wgPk => Ok {| StringData := ∅; Data := {[MeshConfigKeyWireguardPrivateKey := wgPk]} |}
  end.
Definition private_key (s : Secret) : option (list Z) := accessMap (StringData s) (Data s) MeshConfigKeyWireguardPrivateKey.
Definition key_ok (s : Secret) : bool :=
  match private_key s with Some k => bool_decide (length k = WireguardKeyLength) | None => false end.

Inductive Call := CreateSecret (s : Secret) | UpdateSecret (s : Secret).
(** [get] is the secret mesh-config.<name> of the API server, [write] the answer to the creation or the update. *)
Definition ensureMeshConfig (meshNetworkEnabled enabled : bool) (get : Secret + KubeError) (random : result (list Z)) (write : Secret → result Secret)
    : list Call * result (option Secret) :=
  if negb meshNetworkEnabled || negb enabled then ([], Ok None)
  else match get with
       | inr e =>
           if ke_NotFound e then
             match newSecretForMesh random with
             | Err e => ([], Err ("failed to generate mesh secret: " +:+ e))
             | Ok s => ([CreateSecret s], match write s with Ok s => Ok (Some s) | Err e => Err ("failed to create mesh secret: " +:+ e) end)
             end
           else ([], Err ("failed to check existing mesh secret: " +:+ ke_Text e))
       | inl old =>
           if key_ok old then ([], Ok (Some old))
           else match newSecretForMesh random with
                | Err e => ([], Err ("failed to generate mesh secret for update: " +:+ e))
                | Ok s => ([UpdateSecret s], match write s with Ok s => Ok (Some s) | Err e => Err ("failed to update invalid mesh secret: " +:+ e) end)
                end
       end.

(** Bytes, and the form of a private key of Curve25519. *)
Definition is_byte (b : Z) : Prop := 0 <= b < 256.
Definition clamped (k : list Z) : Prop :=
  length k = WireguardKeyLength ∧ Forall is_byte k ∧
  (∀ b, k !! 0%nat = Some b → b mod 8 = 0) ∧ (∀ b, k !! 31%nat = Some b → 64 <= b < 128).
Definition byte_list : list Z := Z.of_nat <$> seq 0 256.
Lemma byte_in b : is_byte b → b ∈ byte_list.
Proof. intros [H1 H2]. apply list_elem_of_fmap. exists (Z.to_nat b). rewrite Z2Nat.id by done. split; [done|]. apply elem_of_seq. lia. Qed.
(** Checked on the 256 bytes. *)
Definition clamp_check : bool :=
  forallb (λ b, (clamp 0 b mod 8 =? 0) && (0 <=? clamp 0 b) && (clamp 0 b <? 256) && (64 <=? clamp 31 b) && (clamp 31 b <? 128)) byte_list.
Lemma clamp_bytes b :
  is_byte b → clamp 0 b mod 8 = 0 ∧ is_byte (clamp 0 b) ∧ 64 <= clamp 31 b < 128.
Proof.
  intros Hb%byte_in. assert (clamp_check = true) as Hc by (vm_compute; reflexivity).
  pose proof (proj1 (List.forallb_forall _ _) Hc b (proj1 (list_elem_of_In _ _) Hb)) as Hx. cbv beta in Hx. bool_to_Z. unfold is_byte. lia.
Qed.
Lemma clamp_other i b : i ≠ 0%nat → i ≠ 31%nat → clamp i b = b.
Proof. intros H0 H31. unfold clamp. by rewrite !decide_False. Qed.
Lemma generated_clamped random key :
  generateWireguardPrivateKey (Ok random) = Ok key → length random = WireguardKeyLength → Forall is_byte random → clamped key.
Proof.
  cbn [generateWireguardPrivateKey]. intros [= <-] Hl Hb. rewrite Forall_lookup in Hb. split_and!.
  - by rewrite length_imap.
  - apply Forall_lookup. intros i x. rewrite list_lookup_imap. intros (b & Hi & ->)%fmap_Some. specialize (Hb i b Hi).
    pose proof (clamp_bytes b Hb) as (_ & H0 & H31). destruct (decide (i = 0%nat)) as [->|Hi0]; [done|].
    destruct (decide (i = 31%nat)) as [->|Hi31]; [unfold is_byte; lia|]. by rewrite clamp_other.
  - intros x. rewrite list_lookup_imap. intros (b & Hi & ->)%fmap_Some. by apply clamp_bytes, (Hb 0%nat).
  - intros x. rewrite list_lookup_imap. intros (b & Hi & ->)%fmap_Some. by apply clamp_bytes, (Hb 31%nat).
Qed.

(** EnsureMeshConfig on a mesh that is enabled: a secret with a key of 32 bytes is left alone, so that a device keeps its key; in every
    other case that succeeds the API server was given, once, a key of 32 bytes in the form of Curve25519. *)
Lemma ensureMeshConfig_correct get random write cs s :
  length random = WireguardKeyLength → Forall is_byte random →
  ensureMeshConfig true true get (Ok random) write = (cs, Ok s) →
  (∃ old, get = inl old ∧ key_ok old = true ∧ cs = [] ∧ s = Some old) ∨
  (∃ new key, (cs = [CreateSecret new] ∧ (∃ e, get = inr e ∧ ke_NotFound e = true) ∨ cs = [UpdateSecret new] ∧ ∃ old, get = inl old ∧ key_ok old = false) ∧
     private_key new = Some key ∧ clamped key ∧ ∃ stored, write new = Ok stored ∧ s = Some stored).
Proof.
  intros Hl Hb. unfold ensureMeshConfig. cbn [negb orb]. unfold newSecretForMesh.
  destruct (generateWireguardPrivateKey (Ok random)) as [key|] eqn:Hk; [|done]. pose proof (generated_clamped _ _ Hk Hl Hb) as Hc.
  set (new := {| StringData := ∅; Data := {[MeshConfigKeyWireguardPrivateKey := key]} |}).
  assert (private_key new = Some key) as Hp by (unfold private_key, accessMap, new; cbn [StringData Data]; by rewrite lookup_empty, lookup_singleton_eq).
  destruct get as [old|e].
  - destruct (key_ok old) eqn:Hok; [intros [= <- <-]; left; by exists old|].
    intros [= <- Hs]. right. exists new, key. split; [right; split; [done|by exists old]|]. split_and!; [done|done|].
    destruct (write new) as [stored|]; [|done]. injection Hs as <-. by exists stored.
  - destruct (ke_NotFound e) eqn:He; [|done]. intros [= <- Hs]. right. exists new, key. split; [left; split; [done|by exists e]|].
    split_and!; [done|done|]. destruct (write new) as [stored|]; [|done]. injection Hs as <-. by exists stored.
Qed.

(** What a basic-auth secret gives for a reference to a user and password. *)
Definition SecretTypeBasicAuth : string := "kubernetes.io/basic-auth".
Definition getUserPassFromSecret (get : string → option (string * Secret)) (name : string) : result (list Z * list Z) :=
  match get name with
  | None => Err ("failed to get secret " +:+ quote name)
  | Some (type, s) =>
      if bool_decide (type = SecretTypeBasicAuth) then Ok (default [] (Data s !! "username"), default [] (Data s !! "password"))
      else Err "non basic auth secret found by userPassRef"
  end.

(** crypto/tls's Config, and the parsers of crypto/x509 as arguments: a pair, and the certificates of a text. *)
Record TLSConfig (Cert : Type) := {
  ServerName : list Z; InsecureSkipVerify : bool; RootCAs : option (list Cert); ClientCAs : option (list Cert);
  RequireAndVerifyClientCert : bool; Certificates : list (list Z * list Z)
}.
Definition createTLSConfigFromSysSecret {Cert} (X509KeyPair : list Z → list Z → option string) (certs : list Z → list Cert)
    (get : string → option Secret) (ref : option string) : result (option (TLSConfig Cert)) :=
  match ref with
  | None => Ok None
  | Some name =>
      if bool_decide (name = "") then
        Ok (Some {| ServerName := []; InsecureSkipVerify := false; RootCAs := None; ClientCAs := None; RequireAndVerifyClientCert := false; Certificates := [] |})
      else match get name with
           | None => Err ("failed to get secret " +:+ quote name)
           | Some s =>
               let d := Data s in
               let conf roots pairs := Ok (Some {|
                 ServerName := default [] (d !! "serverName"); InsecureSkipVerify := bool_decide (is_Some (d !! "insecureSkipVerify"));
                 RootCAs := roots; ClientCAs := certs <$> d !! "client_ca.crt";
                 RequireAndVerifyClientCert := bool_decide (is_Some (d !! "client_ca.crt")); Certificates := pairs |}) in
               let roots := certs <$> d !! "ca.crt" in
               match d !! "tls.crt", d !! "tls.key" with
               | Some cert, Some key => match X509KeyPair cert key with
                                        | Some e => Err ("failed to load x509 key pair: " +:+ e)
                                        | None => conf roots [(cert, key)]
                                        end
               | Some cert, None => if decide (length (certs cert) = 0%nat) then Err "failed to append certificates" else conf (Some (certs cert)) []
               | None, _ => conf roots []
               end
           end
  end.
(** A certificate without a key takes the place of the certificate of the authority, and authenticates nobody. *)
Lemma cert_without_key {Cert} pair certs (get : string → option Secret) name s cert :
  name ≠ "" → get name = Some s → Data s !! "tls.crt" = Some cert → Data s !! "tls.key" = None → certs cert ≠ [] →
  ∃ c : TLSConfig Cert, createTLSConfigFromSysSecret pair certs get (Some name) = Ok (Some c) ∧ RootCAs _ c = Some (certs cert) ∧ Certificates _ c = [].
Proof.
  intros Hn Hg Hc Hk Hne. unfold createTLSConfigFromSysSecret. rewrite bool_decide_false by done. rewrite Hg, Hc, Hk.
  case_decide as Hl; [by apply nil_length_inv in Hl|]. by eexists.
Qed.
End Secrets.

(** ** The timed sessions of all devices

    One timeout queue and one map serve the sessions of all devices. A value of the queue is a function to call, here its number. *)
Module TimedSessions.

(** The keys given to the queue, an interface{}: sessionTimeoutKey, and the bare identifier DelTimedSession gives. *)
Inductive QKey := SessionKey (name : string) (sid : Z) | Sid (sid : Z).
#[export] Instance QKey_eq : EqDecision QKey.
Proof. solve_decision. Defined.
#[export] Instance QKey_countable : Countable QKey.
Proof.
  refine (inj_countable' (λ k, match k with SessionKey n s => inl (n, s) | Sid s => inr s end)
    (λ k, match k with inl (n, s) => SessionKey n s | inr s => Sid s end) _). by intros [].
Defined.
Abbreviation Queue := (TimeoutQueue (K := QKey) (V := nat)).
Record State := { timedSessionsTQ : Queue; timedSessions : gset (string * Z); handled : list nat }.
Definition init : State := {| timedSessionsTQ := Start NewTimeoutQueue; timedSessions := ∅; handled := [] |}.

Definition AddTimedStreamCreation (name : string) (now timeout : Z) (sid : Z) (handler : nat) (s : State) : State :=
  {| timedSessionsTQ := (OfferWithDelay now (SessionKey name sid) handler timeout (timedSessionsTQ s)).1;
     timedSessions := timedSessions s; handled := handled s |}.
Definition AddTimedSession (name : string) (now timeout : Z) (sid : Z) (handler : nat) (s : State) : State :=
  {| timedSessionsTQ := (OfferWithDelay now (SessionKey name sid) handler timeout (timedSessionsTQ s)).1;
     timedSessions := {[(name, sid)]} ∪ timedSessions s; handled := handled s |}.
Definition DelTimedSession (name : string) (sid : Z) (s : State) : outcome State :=
  '(q, _) ← Remove (Sid sid) (timedSessionsTQ s);
  Ret {| timedSessionsTQ := q; timedSessions := timedSessions s ∖ {[(name, sid)]}; handled := handled s |}.
Definition GetTimedSessions (name : string) (s : State) : list Z :=
  omap (λ k, if bool_decide (k.1 = name) then Some k.2 else None) (elements (timedSessions s)).
(** The goroutine on a datum the queue has let out; every key it put in is a sessionTimeoutKey. *)
Definition on_timeout (s : State) (x : TimeoutData (K := QKey) (V := nat)) : outcome State :=
  match Key x with
  | SessionKey name sid => Ret {| timedSessionsTQ := timedSessionsTQ s; timedSessions := timedSessions s ∖ {[(name, sid)]}; handled := handled s ++ [Data x] |}
  | Sid _ => Panic "interface conversion"
  end.
Fixpoint on_timeouts (s : State) (l : list (TimeoutData (K := QKey) (V := nat))) : outcome State :=
  match l with [] => Ret s | x :: l => s ← on_timeout s x; on_timeouts s l end.
Definition expire (swaps : list (nat * nat)) (now : Z) (s : State) : outcome State :=
  '(q, due) ← sort swaps now (timedSessionsTQ s);
  on_timeouts {| timedSessionsTQ := q; timedSessions := timedSessions s; handled := handled s |} due.

Inductive Op :=
  | OAddStream (name : string) (now timeout sid : Z) (handler : nat) | OAdd (name : string) (now timeout sid : Z) (handler : nat)
  | ODel (name : string) (sid : Z).
Definition run_op (s : State) (o : Op) : outcome State :=
  match o with
  | OAddStream n t d sid h => Ret (AddTimedStreamCreation n t d sid h s)
  | OAdd n t d sid h => Ret (AddTimedSession n t d sid h s)
  | ODel n sid => DelTimedSession n sid s
  end.
Fixpoint run_ops (s : State) (l : list Op) : outcome State := match l with [] => Ret s | o :: l => s ← run_op s o; run_ops s l end.
(** The timeouts the operations have asked for: the key, the handler and the time. *)
Definition asked (o : Op) : list (TimeoutData (K := QKey) (V := nat)) :=
  match o with
  | OAddStream n t d sid h | OAdd n t d sid h => [ {| Key := SessionKey n sid; Data := h; expireAt := t + d |} ]
  | ODel _ _ => []
  end.
(** The sessions that stay after the operations, in a set. *)
Definition live (X : gset (string * Z)) (o : Op) : gset (string * Z) :=
  match o with OAddStream _ _ _ _ _ => X | OAdd n _ _ sid _ => {[(n, sid)]} ∪ X | ODel n sid => X ∖ {[(n, sid)]} end.

Definition inv (s : State) : Prop :=
  TimeoutQueue.wf (timedSessionsTQ s) ∧ running (timedSessionsTQ s) = true ∧ stopped (timedSessionsTQ s) = false ∧ blackList (timedSessionsTQ s) = ∅ ∧
  Forall (λ x, ∃ n sid, Key x = SessionKey n sid) (data (timedSessionsTQ s)).
Lemma Offer_open k v t (q : Queue) :
  running q = true → stopped q = false → blackList q = ∅ →
  ∃ i, (OfferWithTime k v t q).1 = set_data (data q ++ [ {| Key := k; Data := v; expireAt := t |} ]) i q.
Proof. intros Hr Hs Hb. unfold OfferWithTime. rewrite Hr, Hs, Hb. cbn. by eexists. Qed.
Lemma run_op_inv s o :
  inv s → ∃ s', run_op s o = Ret s' ∧ inv s' ∧ data (timedSessionsTQ s') = data (timedSessionsTQ s) ++ asked o ∧
    timedSessions s' = live (timedSessions s) o ∧ handled s' = handled s.
Proof.
  intros (Hw & Hr & Hs & Hb & Hk).
  assert (∀ n t d sid h, let q := (OfferWithDelay t (SessionKey n sid) h d (timedSessionsTQ s)).1 in
    (TimeoutQueue.wf q ∧ running q = true ∧ stopped q = false ∧ blackList q = ∅ ∧ Forall (λ x, ∃ n sid, Key x = SessionKey n sid) (data q)) ∧
    data q = data (timedSessionsTQ s) ++ [ {| Key := SessionKey n sid; Data := h; expireAt := t + d |} ]) as Ho.
  { intros n t d sid h q. pose proof (OfferWithTime_wf (SessionKey n sid) h (t + d) _ Hw) as Hwq. unfold q, OfferWithDelay.
    destruct (Offer_open (SessionKey n sid) h (t + d) _ Hr Hs Hb) as [i Hi]. rewrite Hi in *. cbn. split; [|done]. split_and!; try done.
    apply Forall_app. split; [done|]. apply Forall_singleton. by exists n, sid. }
  destruct o as [n t d sid h|n t d sid h|n sid]; cbn [run_op asked live].
  - destruct (Ho n t d sid h) as [Hi Hd]. by eexists.
  - destruct (Ho n t d sid h) as [Hi Hd]. by eexists.
  - unfold DelTimedSession. destruct (Remove_wf (Sid sid) _ Hw) as (q & r & -> & Hwq & Hnone & Hr'). cbn [mbind outcome_bind].
    assert (r = None) as ->.
    { apply Hnone. intros (x & Hx & Hin)%list_elem_of_fmap. rewrite Forall_forall in Hk. destruct (Hk x Hin) as (? & ? & He). congruence. }
    subst q. eexists. split; [done|]. split; [done|]. by rewrite app_nil_r.
Qed.

(** Timed sessions: after any operations of any devices (before the next timeout) the sessions listed for a device are those added and
    not deleted since, but no timeout is ever cancelled: the queue has one for every session and stream asked for. *)
Lemma timeouts_never_cancelled ops :
  ∃ s, run_ops init ops = Ret s ∧ data (timedSessionsTQ s) = ops ≫= asked ∧
    ∀ name sid, sid ∈ GetTimedSessions name s ↔ (name, sid) ∈ foldl live ∅ ops.
Proof.
  assert (∀ s, inv s → ∃ s', run_ops s ops = Ret s' ∧ data (timedSessionsTQ s') = data (timedSessionsTQ s) ++ (ops ≫= asked) ∧
    timedSessions s' = foldl live (timedSessions s) ops) as Ha.
  { induction ops as [|o ops IH]; intros s Hs; cbn [run_ops]; [exists s; by rewrite app_nil_r|].
    destruct (run_op_inv s o Hs) as (s1 & -> & Hi & Hd & Ht & _). cbn [mbind outcome_bind].
    destruct (IH s1 Hi) as (s' & -> & Hd' & Ht'). exists s'. split; [done|]. rewrite Hd', Hd, Ht', Ht. by rewrite <-app_assoc. }
  destruct (Ha init) as (s & Hr & Hd & Ht).
  { split_and!; try done. constructor; [intros k i; cbn; by rewrite lookup_empty|intros x ?%elem_of_nil; done]. }
  exists s. split; [done|]. split; [done|]. intros name sid. change (timedSessions init) with (∅ : gset (string * Z)) in Ht. rewrite <-Ht. unfold GetTimedSessions. rewrite list_elem_of_omap. split.
  - intros ([n k] & Hin & Hb). cbn in Hb. case_bool_decide; [|done]. injection Hb as ->. subst n. by apply elem_of_elements.
  - intros Hin. exists (name, sid). split; [by apply elem_of_elements|]. cbn. by rewrite bool_decide_true.
Qed.
End TimedSessions.

(** ** The connectivity options of a virtual node *)
Module ConnectivityOptions.
Import Secrets.

Section Options.
Context {Cert : Type} (X509KeyPair : list Z → list Z → option string) (certs : list Z → list Cert).
(** The secrets of the cluster with their types, and whether a listener can be made (its error). *)
Context (getSysSecretObject : string → option (string * Secret)) (listen : option string).
Abbreviation TLS := (option (TLSConfig Cert)).

(** connectivity.Options: at most one of its five *)
Inductive Options :=
  | GRPCOpts (tls : TLS) | MQTTOpts (tls : TLS) (user password : list Z) | AMQPOpts (tls : TLS) (user password : list Z)
  | AzureIoTHubOpts (eventHub iotHub : list Z) | GCPIoTCoreOpts (pubsub cloudIoT : list Z).

Definition tls_of (ref : option string) : result TLS :=
  createTLSConfigFromSysSecret X509KeyPair certs (λ n, snd <$> getSysSecretObject n) ref.
Definition user_pass (ref : option string) : result (list Z * list Z) :=
  match ref with
  | None => Ok ([], [])
  | Some n => if bool_decide (n = "") then Ok ([], []) else getUserPassFromSecret getSysSecretObject n
  end.
(** generateAzureIoTHubOpts and generateGCPPubSubOpts: two values of one secret or two; [first] is the one looked up first. *)
Definition two_values (invalid missing first_name second_name : string) (first second : LocalSecretKeyReference) : result (list Z * list Z) :=
  if bool_decide ("" ∈ [lk_Name first; lk_Name second; lk_Key first; lk_Key second]) then Err invalid
  else match getSysSecretObject (lk_Name first) with
       | None => Err ("failed to get referenced " +:+ first_name +:+ " secret " +:+ quote (lk_Name first))
       | Some (_, s1) =>
           match (if bool_decide (lk_Name first = lk_Name second) then Some s1 else snd <$> getSysSecretObject (lk_Name second)) with
           | None => Err ("failed to get referenced " +:+ second_name +:+ " secret " +:+ quote (lk_Name second))
           | Some s2 =>
               let v1 := default [] (accessMap (StringData s1) (Data s1) (lk_Key first)) in
               let v2 := default [] (accessMap (StringData s2) (Data s2) (lk_Key second)) in
               if bool_decide (v1 = [] ∨ v2 = []) then Err missing else Ok (v1, v2)
           end
       end.
Definition generateAzureIoTHubOpts (event iot : LocalSecretKeyReference) : result Options :=
  '(v1, v2) ← two_values "invalid config: iot hub or event hub ref has empty field" "some of referenced connection strings not found"
                "iot hub" "event hub" iot event;
  Ok (AzureIoTHubOpts v2 v1).
Definition generateGCPPubSubOpts (pubsub iot : LocalSecretKeyReference) : result Options :=
  '(v1, v2) ← two_values "invalid config: pubsub or cloud iot ref has empty field" "some of referenced credentials not found"
                "pub sub" "iot hub" pubsub iot;
  Ok (GCPIoTCoreOpts v1 v2).
Definition prepareConnectivityOptions (c : ConnectivitySpec) : result Options :=
  if bool_decide (con_Method c = "gcp-iot-core") then wrap_err "failed to generate gcp pub/sub opts: " (generateGCPPubSubOpts (con_EventRef c) (con_IoTRef c))
  else if bool_decide (con_Method c = "azure-iot-hub") then
    wrap_err "failed to generate azure iot hub opts: " (generateAzureIoTHubOpts (con_EventRef c) (con_IoTRef c))
  else if bool_decide (con_Method c = "grpc") then
    tls ← tls_of (con_TLSSecretRef c);
    match listen with Some e => Err e | None => Ok (GRPCOpts tls) end
  else if bool_decide (con_Method c = "mqtt") then
    tls ← tls_of (con_TLSSecretRef c); '(u, p) ← user_pass (con_UserPassRef c); Ok (MQTTOpts tls u p)
  else if bool_decide (con_Method c = "amqp") then
    tls ← tls_of (con_TLSSecretRef c); '(u, p) ← user_pass (con_UserPassRef c); Ok (AMQPOpts tls u p)
  else Err ("unsupported connectivity method: " +:+ con_Method c).

(** Credentials of a cloud method are never empty. *)
Lemma two_values_nonempty i m n1 n2 r1 r2 v1 v2 : two_values i m n1 n2 r1 r2 = Ok (v1, v2) → v1 ≠ [] ∧ v2 ≠ [].
Proof.
  unfold two_values. case_bool_decide; [done|]. destruct (getSysSecretObject (lk_Name r1)) as [ [? s1]|]; [|done].
  destruct (if bool_decide _ then _ else _) as [s2|]; [|done]. cbv zeta. case_bool_decide as Hv; [done|]. intros [= <- <-]. naive_solver.
Qed.
End Options.
End ConnectivityOptions.

(** ** The network options of a virtual node *)
Module NetworkOptions.
Import Conf Ipam.IPAddressManager.

Record WireguardOpts := {
  LogLevel : string; PreSharedKey : string; PrivateKey : string; KeepaliveSeconds : Z; ListenPort : Z; RoutingTable : Z; FirewallMark : Z
}.
Record Options := {
  PublicAddresses : list string; InterfaceName : string; MTU : Z; Provider : string; ExtraAllowedCIDRs : list string;
  Addresses : list string; WgOpts : option WireguardOpts
}.
Definition no_options : Options :=
  {| PublicAddresses := []; InterfaceName := ""; MTU := 0; Provider := ""; ExtraAllowedCIDRs := []; Addresses := []; WgOpts := None |}.
Definition int32 (x : Z) : Z := (x + 2 ^ 31) mod 2 ^ 32 - 2 ^ 31.

(** The address asked for: of the specification, else of the status; without its prefix length when it has one. *)
Definition address_request (spec status : string) : string :=
  let req := if bool_decide (spec = "") then status else spec in
  if bool_decide (req = "") then req else match ParseCIDR req with Some (ip, _, _, _) => ip_string ip | None => req end.
Definition allocate (family : string) (m : option IPAddressManager) (req : string) : outcome (option IPAddressManager * result string) :=
  match m with
  | None => Ret (None, Ok "")
  | Some m =>
      '(m, r) ← AllocateM (ParseIP req) m;
      Ret (Some m, match r with Ok (ip, _) => Ok (ip_string ip) | Err e => Err ("failed to allocate " +:+ family +:+ " address: " +:+ e) end)
  end.
Definition nonempty (s : string) : list string := if bool_decide (s = "") then [] else [s].

Section Network.
Context (EncodeToString : list Z → string) (PublicAddrs : list string).
(** What is left once the addresses are there. *)
Definition network_options (ed : EdgeDevice) (net : NetworkConfig) (secret : option Secrets.Secret) (addresses : list string) : outcome (result Options) :=
  let mesh := spec_Mesh (ed_Spec ed) in
  if bool_decide (addresses = []) then Ret (Err "no ip address allocated")
  else if negb (bool_decide (net_Driver net = "wireguard")) then Ret (Err ("unknown backend driver: " +:+ net_Driver net))
  else match secret with
       | None => Panic "nil pointer dereference"
       | Some s =>
           match Secrets.private_key s with
           | None => Ret (Err "no private key for wireguard mesh")
           | Some k => Ret (Ok {|
               PublicAddresses := PublicAddrs; InterfaceName := mesh_InterfaceName mesh; MTU := mesh_MTU mesh;
               Provider := "aranya:mesh:" +:+ ed_Name ed; ExtraAllowedCIDRs := mesh_ExtraAllowedCIDRs mesh; Addresses := addresses;
               WgOpts := Some {| LogLevel := "debug"; PreSharedKey := w_PreSharedKey (net_Wireguard net); PrivateKey := EncodeToString k;
                                 KeepaliveSeconds := int32 (w_KeepaliveSeconds (net_Wireguard net)); ListenPort := int32 (mesh_ListenPort mesh);
                                 RoutingTable := int32 (mesh_RoutingTable mesh); FirewallMark := int32 (mesh_FirewallMark mesh) |} |})
           end
       end.
Definition prepareNetworkOptions (ed : EdgeDevice) (net : NetworkConfig) (secret : option Secrets.Secret)
    (v4 v6 : option IPAddressManager) : outcome (option IPAddressManager * option IPAddressManager * result Options) :=
  if negb (net_Enabled net) then Ret (v4, v6, Ok no_options)
  else match v4, v6 with
  | None, None => Ret (v4, v6, Err "no mesh ip cidr configured")
  | _, _ =>
      let mesh := spec_Mesh (ed_Spec ed) in
      '(v4, r4) ← allocate "ipv4" v4 (address_request (mesh_IPv4Addr mesh) (eds_MeshIPv4Addr (ed_Status ed)));
      match r4 with
      | Err e => Ret (v4, v6, Err e)
      | Ok ipv4 =>
          '(v6, r6) ← allocate "ipv6" v6 (address_request (mesh_IPv6Addr mesh) (eds_MeshIPv6Addr (ed_Status ed)));
          match r6 with
          | Err e => Ret (v4, v6, Err e)
          | Ok ipv6 => r ← network_options ed net secret (nonempty ipv4 ++ nonempty ipv6); Ret (v4, v6, r)
          end
      end
  end.
End Network.
End NetworkOptions.

(** ** The other options of a virtual node *)
Module CreationOptions.
Section CreationOptions.
Context {W : Type} `{Cluster W} {F RN RP L : Type} (ParseFloat : string → F) (gt_one : F → bool).
(** The interval of the mirror sync is in the part of the configuration no EdgeDevice changes. *)
Context (MirrorSyncInterval : RN → Z).
Record NodeOptions := {
  no_ForceSyncInterval : Z; no_MirrorNodeSyncInterval : Z; no_Labels : option (gmap string string); no_Annotations : option (gmap string string)
}.
(** The node may not exist yet: then it has no labels and annotations to keep. *)
Definition prepareNodeOptions (name : string) (vnConfig : Conf.VirtualnodeConfig F RN RP) (w : W) : result NodeOptions :=
  let opts labels annotations := {|
    no_ForceSyncInterval := Conf.n_ForceSyncInterval _ (Conf.Node vnConfig); no_MirrorNodeSyncInterval := MirrorSyncInterval (Conf.n_Rest _ (Conf.Node vnConfig));
    no_Labels := labels; no_Annotations := annotations |} in
  match getNodeObject name w with
  | inl node => Ok (opts (node_Labels node) (node_Annotations node))
  | inr e => if ke_NotFound e then Ok (opts None None) else Err ("failed to check node object: " +:+ ke_Text e)
  end.
Record MetricsOptions := { mo_NodeMetrics : list (string * MetricsConfig); mo_RuntimeMetrics : MetricsConfig }.
Definition prepareMetricsOptions (vnConfig : Conf.VirtualnodeConfig F RN RP) : MetricsOptions :=
  {| mo_NodeMetrics := Conf.n_Metrics _ (Conf.Node vnConfig); mo_RuntimeMetrics := Conf.p_Metrics _ (Conf.Pod vnConfig) |}.
Record StorageOptions := { so_StorageRootDir : string; so_KubeletRegistrationDir : string; so_KubeletPluginsDir : string; so_CSIDriverLister : L; so_Component : string }.
Definition prepareStorageOptions (name : string) (csiDriverLister : L) (vnConfig : Conf.VirtualnodeConfig F RN RP) : option StorageOptions :=
  let storage := Conf.Storage vnConfig in
  if negb (Conf.s_Enabled storage) then None
  else Some {| so_StorageRootDir := Conf.s_RootDir storage; so_KubeletRegistrationDir := Conf.s_KubeletRegistrationDir storage;
               so_KubeletPluginsDir := Conf.s_KubeletPluginsDir storage; so_CSIDriverLister := csiDriverLister;
               so_Component := "aranya-storage-manager," +:+ name |}.
(** An EdgeDevice that sets its metrics has them collected whatever the OS of its device, and one that does not, those of the process. *)
Lemma metrics_of_device c spec :
  prepareMetricsOptions (Conf.OverrideWith ParseFloat gt_one c spec) =
  {| mo_NodeMetrics := match spec_NodeMetrics spec with Some m => [("", m)] | None => Conf.n_Metrics _ (Conf.Node c) end;
     mo_RuntimeMetrics := default (Conf.p_Metrics _ (Conf.Pod c)) (spec_PodMetrics spec) |}.
Proof. unfold prepareMetricsOptions, Conf.OverrideWith, Conf.override. cbn. by destruct (spec_PodMetrics spec). Qed.
(** No virtual node ever has a storage manager: instantiateEdgeDevice prepares its options from the configuration OverrideWith gives. *)
Lemma storage_never_prepared name lister c spec : prepareStorageOptions name lister (Conf.OverrideWith ParseFloat gt_one c spec) = None.
Proof. unfold prepareStorageOptions. by destruct (Conf.never_enabled ParseFloat gt_one c spec) as [-> _]. Qed.
End CreationOptions.
End CreationOptions.

(** ** Making and unmaking virtual nodes

    What instantiateEdgeDevice holds for one device name: listeners, connectivity managers and virtual nodes, each called by the number of
    the instantiation that made it. *)
Module Instances.

Inductive Request := RNode | RLease | RVirtualPod | RNetwork | RConnectivityService | RStart (i : nat).
Record World := {
  table : option nat;       (** the virtual node of the name in the manager of virtual nodes *)
  fresh : nat;
  kubelet : gset nat;       (** open listeners of kubelet servers *)
  grpc : gset nat;          (** open listeners of gRPC servers *)
  managers : gset nat;      (** connectivity managers not closed *)
  vnodes : gset nat;        (** virtual nodes made and not force-closed *)
  started : gset nat;
  requests : list Request
}.
Definition init : World :=
  {| table := None; fresh := 0; kubelet := ∅; grpc := ∅; managers := ∅; vnodes := ∅; started := ∅; requests := [] |}.
Definition upd (t : option nat) (k g m v : gset nat) (w : World) : World :=
  {| table := t; fresh := fresh w; kubelet := k; grpc := g; managers := m; vnodes := v; started := started w; requests := requests w |}.
Definition request (r : Request) (w : World) : World :=
  {| table := table w; fresh := fresh w; kubelet := kubelet w; grpc := grpc w; managers := managers w; vnodes := vnodes w;
     started := match r with RStart i => {[i]} ∪ started w | _ => started w end; requests := requests w ++ [r] |}.
Definition next (w : World) : World :=
  {| table := table w; fresh := S (fresh w); kubelet := kubelet w; grpc := grpc w; managers := managers w; vnodes := vnodes w;
     started := started w; requests := requests w |}.
Definition close_kubelet (i : nat) (w : World) : World := upd (table w) (kubelet w ∖ {[i]}) (grpc w) (managers w) (vnodes w) w.
(** The manager of a gRPC device closes its server, and that its listener. *)
Definition close_manager (i : nat) (w : World) : World := upd (table w) (kubelet w) (grpc w ∖ {[i]}) (managers w ∖ {[i]}) (vnodes w) w.
(** VirtualNode.ForceClose *)
Definition ForceClose (i : nat) (w : World) : World :=
  upd (table w) (kubelet w ∖ {[i]}) (grpc w ∖ {[i]}) (managers w ∖ {[i]}) (vnodes w ∖ {[i]}) w.
(** Manager.Add and Manager.Delete of the virtual nodes *)
Definition Add (i : nat) (w : World) : World * option string :=
  match table w with
  | Some _ => (w, Some "node with same name already exists")
  | None => (upd (Some i) (kubelet w) (grpc w) (managers w) (vnodes w) w, None)
  end.
Definition Delete (w : World) : World :=
  match table w with
  | Some i => ForceClose i (upd None (kubelet w) (grpc w) (managers w) (vnodes w) w)
  | None => w
  end.

(** What the steps of an instantiation answer: an error each. [a_conn] is whether the options of the connectivity come with a gRPC
    listener; [a_options] are the answers of the preparation of the other options. *)
Record Answers := {
  a_found : bool; a_mesh : option string; a_cert : option string; a_listen : option string; a_client : option string;
  a_conn : result bool; a_options : list (option string); a_manager : option string;
  a_node : option string; a_leaseEnabled : bool; a_lease : option string; a_pod : option string; a_netEnabled : bool; a_net : option string;
  a_svcEnabled : bool; a_svc : option string
}.
(** A step that fails ends the function; a deferred function runs when the function ends with an error. *)
Definition step_err (e : option string) (k : World → World * option string) (w : World) : World * option string :=
  match e with Some e => (w, Some e) | None => k w end.
Definition defer (f : World → World) (k : World → World * option string) (w : World) : World * option string :=
  match k w with (w', Some e) => (f w', Some e) | r => r end.
Definition first_error (l : list (option string)) : option string := foldr (λ e r, match e with Some _ => e | None => r end) None l.
Definition ask (r : Request) (e : option string) (k : World → World * option string) (w : World) : World * option string :=
  step_err e k (request r w).
Definition ask_if (b : bool) (r : Request) (e : option string) (k : World → World * option string) : World → World * option string :=
  if b then ask r e k else k.

Definition instantiateEdgeDevice (a : Answers) (w : World) : World * option string :=
  let i := fresh w in
  let w := next w in
  if negb (a_found a) then (w, None)
  else step_err (a_mesh a) (step_err (a_cert a) (step_err (a_listen a) (λ w,
    defer (close_kubelet i)                                                     (* httpListener *)
      (step_err (a_client a) (defer (close_kubelet i)                           (* the TLS listener on it *)
        (λ w, match a_conn a with
              | Err e => (w, Some e)                                            (* closes its own listener *)
              | Ok is_grpc =>
                  let w := upd (table w) (kubelet w) (if is_grpc : bool then {[i]} ∪ grpc w else grpc w) (managers w) (vnodes w) w in
                  step_err (first_error (a_options a)) (step_err (a_manager a) (λ w,
                    let w := upd (table w) (kubelet w) (grpc w) ({[i]} ∪ managers w) (vnodes w) w in
                    defer (close_manager i) (λ w,
                      let w := upd (table w) (kubelet w) (grpc w) (managers w) ({[i]} ∪ vnodes w) w in
                      defer (ForceClose i) (λ w,
                        let '(w, err) := Add i w in
                        let '(w, err) := match err with Some _ => Add i (Delete w) | None => (w, None) end in
                        step_err err (defer Delete
                          (ask RNode (a_node a) (ask_if (a_leaseEnabled a) RLease (a_lease a) (ask RVirtualPod (a_pod a)
                          (ask_if (a_netEnabled a) RNetwork (a_net a)
                          (ask_if (a_svcEnabled a) RConnectivityService (a_svc a) (λ w, (request (RStart i) w, None)))))))) w) w) w)) w
              end))) (upd (table w) ({[i]} ∪ kubelet w) (grpc w) (managers w) (vnodes w) w)))) w.

(** *** Every run of the handlers of one device name *)

(** An instantiation; the deletion of an update or a deletion of the device; a goroutine of a started virtual node ends, which deletes the
    virtual node of its name. *)
Inductive Op := OInstantiate (a : Answers) | ODelete | OExit (i : nat).
Definition run_op (w : World) (o : Op) : World :=
  match o with
  | OInstantiate a => (instantiateEdgeDevice a w).1
  | ODelete => Delete w
  | OExit i => if bool_decide (i ∈ started w) then Delete w else w
  end.
Definition run (l : list Op) : World := foldl run_op init l.

(** At most one virtual node: what is open belongs to the one in the table. *)
Record inv (w : World) : Prop := {
  inv_fresh : ∀ i, i ∈ kubelet w ∪ grpc w ∪ managers w ∪ vnodes w ∪ started w → (i < fresh w)%nat;
  inv_kubelet : ∀ i, i ∈ kubelet w → table w = Some i;
  inv_managers : ∀ i, i ∈ managers w → table w = Some i;
  inv_vnodes : ∀ i, i ∈ vnodes w → table w = Some i;
  inv_table : ∀ i, table w = Some i → i ∈ vnodes w ∧ i ∈ kubelet w ∧ i ∈ managers w
}.
Lemma init_inv : inv init.
Proof. split; cbn; set_solver. Qed.
Lemma Delete_node_inv w : inv w → inv (Delete w) ∧ table (Delete w) = None ∧ fresh (Delete w) = fresh w ∧ started (Delete w) = started w.
Proof.
  intros Hw. unfold Delete. destruct (table w) as [i|] eqn:Ht; [|done]. split; [|done].
  pose proof (inv_fresh w Hw) as Hf. pose proof (inv_kubelet w Hw) as Hk. pose proof (inv_managers w Hw) as Hm. pose proof (inv_vnodes w Hw) as Hv.
  rewrite Ht in Hk, Hm, Hv. split; cbn.
  - intros j Hj. apply Hf. set_solver.
  - intros j [Hj Hne]%elem_of_difference. specialize (Hk j Hj). set_solver.
  - intros j [Hj Hne]%elem_of_difference. specialize (Hm j Hj). set_solver.
  - intros j [Hj Hne]%elem_of_difference. specialize (Hv j Hj). set_solver.
  - done.
Qed.

(** What an instantiation leaves behind: on success its virtual node, started, in the place of the former one; on an error what was
    there, or nothing when it had taken the former one's place; the gRPC listener stays open when the options after it failed. *)
Definition leaked (a : Answers) : bool :=
  a_found a && negb (bool_decide (is_Some (a_mesh a))) && negb (bool_decide (is_Some (a_cert a))) && negb (bool_decide (is_Some (a_listen a))) &&
  negb (bool_decide (is_Some (a_client a))) && (if a_conn a is Ok true then true else false) &&
  (bool_decide (is_Some (first_error (a_options a))) || bool_decide (is_Some (a_manager a))).
Definition took_over (a : Answers) : bool :=
  a_found a && negb (bool_decide (is_Some (a_mesh a))) && negb (bool_decide (is_Some (a_cert a))) && negb (bool_decide (is_Some (a_listen a))) &&
  negb (bool_decide (is_Some (a_client a))) && (if a_conn a is Ok _ then true else false) &&
  negb (bool_decide (is_Some (first_error (a_options a)))) && negb (bool_decide (is_Some (a_manager a))).

(** The requests change nothing but what was requested, and start the virtual node when all were accepted. *)
Definition same (w w' : World) : Prop :=
  table w' = table w ∧ fresh w' = fresh w ∧ kubelet w' = kubelet w ∧ grpc w' = grpc w ∧ managers w' = managers w ∧ vnodes w' = vnodes w.
Definition asks (i : nat) (k : World → World * option string) : Prop :=
  ∀ w, same w (k w).1 ∧ started (k w).1 = match (k w).2 with None => {[i]} ∪ started w | Some _ => started w end.
Lemma asks_start i : asks i (λ w, (request (RStart i) w, None)).
Proof. intros w. by split_and!. Qed.
Lemma asks_ask i r e k : (∀ j, r ≠ RStart j) → asks i k → asks i (ask r e k).
Proof.
  intros Hr Hk w. unfold ask, step_err. assert (started (request r w) = started w) as Hs by (destruct r as [| | | | |j]; [done..|by destruct (Hr j)]).
  destruct e as [e|]; [by split_and!|]. destruct (Hk (request r w)) as [(?&?&?&?&?&?) Hst]. rewrite Hst, Hs. by split_and!.
Qed.
Lemma asks_ask_if i b r e k : (∀ j, r ≠ RStart j) → asks i k → asks i (ask_if b r e k).
Proof. intros Hr Hk. destruct b; [by apply asks_ask|done]. Qed.
Definition request_all (a : Answers) (i : nat) : World → World * option string :=
  ask RNode (a_node a) (ask_if (a_leaseEnabled a) RLease (a_lease a) (ask RVirtualPod (a_pod a)
  (ask_if (a_netEnabled a) RNetwork (a_net a) (ask_if (a_svcEnabled a) RConnectivityService (a_svc a) (λ w, (request (RStart i) w, None)))))).
Lemma request_all_asks a i : asks i (request_all a i).
Proof. unfold request_all. repeat (apply asks_ask || apply asks_ask_if || apply asks_start || done). Qed.

(** From the addition to the table on. *)
Definition add_and_start (a : Answers) (i : nat) (w : World) : World * option string :=
  let '(w, err) := Add i w in
  let '(w, err) := match err with Some _ => Add i (Delete w) | None => (w, None) end in
  step_err err (defer Delete (request_all a i)) w.
Definition take_over (i : nat) (w : World) : World := upd (Some i) (kubelet (Delete w)) (grpc (Delete w)) (managers (Delete w)) (vnodes (Delete w)) (Delete w).
Lemma Delete_table w : table (Delete w) = None.
Proof. unfold Delete. by destruct (table w) eqn:Ht. Qed.
Lemma add_and_start_spec a i w :
  ∃ w', same (take_over i w) w' ∧ add_and_start a i w =
    match (add_and_start a i w).2 with None => (w', None) | Some e => (Delete w', Some e) end ∧
    started w' = match (add_and_start a i w).2 with None => {[i]} ∪ started (Delete w) | Some _ => started (Delete w) end.
Proof.
  assert (add_and_start a i w = defer Delete (request_all a i) (take_over i w)) as ->.
  { unfold add_and_start, take_over. unfold Add at 1. destruct (table w) as [j|] eqn:Ht.
    - unfold Add. rewrite Delete_table. done.
    - assert (Delete w = w) as -> by (unfold Delete; by rewrite Ht). done. }
  destruct (request_all_asks a i (take_over i w)) as [Hs Hst]. unfold defer.
  destruct (request_all a i (take_over i w)) as [w' [e|] ]; cbn in *; by exists w'.
Qed.
Lemma instantiate_eq a w :
  instantiateEdgeDevice a w =
  if negb (took_over a) then (instantiateEdgeDevice a w)
  else let i := fresh w in let w0 := next w in
       let w1 := upd (table w) ({[i]} ∪ kubelet w) (if a_conn a is Ok true then {[i]} ∪ grpc w else grpc w) ({[i]} ∪ managers w) ({[i]} ∪ vnodes w) w0 in
       match add_and_start a i w1 with
       | (w', None) => (w', None)
       | (w', Some e) => (close_kubelet i (close_kubelet i (close_manager i (ForceClose i w'))), Some e)
       end.
Proof.
  unfold took_over, instantiateEdgeDevice.
  destruct (a_found a); cbn [negb andb]; [|done]. destruct (a_mesh a); cbn [is_Some step_err]; [done|]. destruct (a_cert a); [done|].
  destruct (a_listen a); [done|]. destruct (a_client a); [done|]. destruct (a_conn a) as [b|]; [|done].
  destruct (first_error (a_options a)) eqn:Hf; [done|]. destruct (a_manager a) eqn:Hm; [reflexivity|].
  cbn [negb andb]. cbv zeta. set (i := fresh w).
  set (w1 := upd (table w) ({[i]} ∪ kubelet w) (if b then {[i]} ∪ grpc w else grpc w) ({[i]} ∪ managers w) ({[i]} ∪ vnodes w) (next w)).
  transitivity (defer (close_kubelet i) (λ _, defer (close_kubelet i) (λ _, defer (close_manager i) (λ _,
    defer (ForceClose i) (λ _, add_and_start a i w1) w1) w1) w1) w1).
  - destruct b; reflexivity.
  - unfold defer. subst w1. destruct b; destruct (add_and_start a i _) as [w' [e|] ]; reflexivity.
Qed.
Lemma not_taken a w :
  fresh w ∉ kubelet w → took_over a = false →
  (instantiateEdgeDevice a w).1 =
    upd (table w) (kubelet w) (if leaked a then {[fresh w]} ∪ grpc w else grpc w) (managers w) (vnodes w) (next w) ∧
  ((instantiateEdgeDevice a w).2 = None ↔ a_found a = false).
Proof.
  intros Hi. unfold took_over, leaked, instantiateEdgeDevice.
  assert (∀ X : gset nat, fresh w ∉ X → ({[fresh w]} ∪ X) ∖ {[fresh w]} ∖ {[fresh w]} = X) as Hdd by set_solver.
  assert (∀ X : gset nat, fresh w ∉ X → ({[fresh w]} ∪ X) ∖ {[fresh w]} = X) as Hd by set_solver.
  destruct (a_found a); cbn [negb andb]; [|done]. destruct (a_mesh a); [done|]. destruct (a_cert a); [done|].
  destruct (a_listen a); [done|]. destruct (a_client a) as [e|].
  { intros _. split; [|done]. unfold defer, step_err, close_kubelet. cbn. by rewrite Hd. }
  destruct (a_conn a) as [b|]; [|intros _; split; [|done]; unfold defer, step_err, close_kubelet; cbn; by rewrite Hdd].
  destruct (first_error (a_options a)) as [e|] eqn:Hf; cbn [step_err].
  { intros _. split; [|done]. unfold defer, close_kubelet. cbn. rewrite Hdd by done. by destruct b. }
  destruct (a_manager a) as [e|] eqn:Hm; cbn [step_err]; [|done].
  intros _. split; [|done]. unfold defer, close_kubelet. cbn. rewrite Hdd by done. by destruct b.
Qed.
Lemma leaked_not_taken a : leaked a = true → took_over a = false.
Proof.
  unfold leaked, took_over. destruct (first_error (a_options a)), (a_manager a); cbn; rewrite ?andb_false_r; done.
Qed.

(** What a virtual node finds when it takes over: only what is its own is open. *)
Definition made (a : Answers) (w : World) : World :=
  upd (table w) ({[fresh w]} ∪ kubelet w) (if a_conn a is Ok true then {[fresh w]} ∪ grpc w else grpc w) ({[fresh w]} ∪ managers w)
    ({[fresh w]} ∪ vnodes w) (next w).
Definition alone (i : nat) (w : World) : Prop :=
  table w = Some i ∧ kubelet w = {[i]} ∧ managers w = {[i]} ∧ vnodes w = {[i]} ∧ fresh w = S i ∧ ∀ x, x ∈ grpc w → (x < S i)%nat.
Lemma only_table (X : gset nat) w i : (∀ j, j ∈ X → table w = Some j) → table w = Some i → X ∖ {[i]} = ∅.
Proof. intros HX Ht. apply elem_of_equiv_empty_L. intros x [Hx Hn]%elem_of_difference. specialize (HX x Hx). set_solver. Qed.
Lemma none_table (X : gset nat) w : (∀ j, j ∈ X → table w = Some j) → table w = None → X = ∅.
Proof. intros HX Ht. apply elem_of_equiv_empty_L. intros x Hx. specialize (HX x Hx). congruence. Qed.
Lemma take_over_alone a w : inv w → alone (fresh w) (take_over (fresh w) (made a w)).
Proof.
  intros Hw. pose proof (inv_fresh w Hw) as Hlt.
  assert (∀ x, x ∈ grpc (made a w) → (x < S (fresh w))%nat) as Hg.
  { intros x Hx. cbn in Hx. assert (x ∈ {[fresh w]} ∪ grpc w) as [->%elem_of_singleton|Hx']%elem_of_union; [|lia|].
    - destruct (a_conn a) as [ []|]; set_solver.
    - assert (x < fresh w)%nat by (apply Hlt; set_solver). lia. }
  unfold take_over. unfold Delete. change (table (made a w)) with (table w). destruct (table w) as [j|] eqn:Ht.
  - assert (∀ X : gset nat, (∀ x, x ∈ X → table w = Some x) → ({[fresh w]} ∪ X) ∖ {[j]} = {[fresh w]}) as HX.
    { intros X H. pose proof (only_table X w j H Ht) as He. assert (j < fresh w)%nat by (apply Hlt; pose proof (proj1 (inv_table w Hw j Ht)); set_solver).
      apply set_eq. intros x. rewrite elem_of_difference, elem_of_union, !elem_of_singleton. split.
      - intros [ [Hx|Hx] Hn]; [done|]. assert (x ∈ X ∖ {[j]}) as Hin by set_solver. rewrite He in Hin. set_solver.
      - intros ->. split; [by left|lia]. }
    unfold alone. cbn. split_and!; try done; [by apply HX, (inv_kubelet w)|by apply HX, (inv_managers w)|by apply HX, (inv_vnodes w)|].
    intros x [Hx _]%elem_of_difference. by apply Hg.
  - unfold alone. cbn. split_and!; try done;
      [rewrite (none_table (kubelet w) w)|rewrite (none_table (managers w) w)|rewrite (none_table (vnodes w) w)];
      try apply (right_id_L ∅ _); try done; [by apply (inv_kubelet w)|by apply (inv_managers w)|by apply (inv_vnodes w)].
Qed.
Lemma alone_same i w w' : alone i w → same w w' → alone i w'.
Proof. intros (?&?&?&?&?&Hg) (Ht&Hf&Hk&Hgr&Hm&Hv). unfold alone. rewrite Ht, Hf, Hk, Hgr, Hm, Hv. done. Qed.
Lemma alone_inv i w : alone i w → (∀ x, x ∈ started w → (x < S i)%nat) → inv w.
Proof.
  intros (Ht&Hk&Hm&Hv&Hf&Hg) Hs. split; rewrite ?Ht, ?Hk, ?Hm, ?Hv, ?Hf; [|set_solver..].
  intros x Hx. rewrite !elem_of_union, !elem_of_singleton in Hx.
  destruct Hx as [ [ [ [->|Hx]| ->]| ->]|Hx]; [lia|by apply Hg|lia|lia|by apply Hs].
Qed.
(** The deferred functions of an instantiation that failed leave nothing of it. *)
Definition closed (i : nat) (w : World) : World := close_kubelet i (close_kubelet i (close_manager i (ForceClose i (Delete w)))).
Lemma alone_closed i w :
  alone i w → (∀ x, x ∈ started w → (x < S i)%nat) →
  inv (closed i w) ∧ table (closed i w) = None ∧ fresh (closed i w) = S i ∧ started (closed i w) = started w ∧ i ∉ grpc (closed i w).
Proof.
  intros (Ht&Hk&Hm&Hv&Hf&Hg) Hs. unfold closed, Delete. rewrite Ht. cbn. rewrite Hk, Hm, Hv.
  split; [|split_and!; [done|done|done|set_solver] ]. split; cbn; rewrite ?Hf; [|set_solver..].
  intros x Hx. destruct (decide (x ∈ started w)) as [|Hns]; [by apply Hs|]. apply Hg. set_solver.
Qed.

Lemma instantiate_lemma a w :
  inv w →
  let r := instantiateEdgeDevice a w in
  inv r.1 ∧ fresh r.1 = S (fresh w) ∧
  match r.2 with
  | None => if a_found a then table r.1 = Some (fresh w) ∧ started r.1 = {[fresh w]} ∪ started w
            else table r.1 = table w ∧ started r.1 = started w
  | Some _ => table r.1 = (if took_over a then None else table w) ∧ started r.1 = started w ∧ (fresh w ∈ grpc r.1 ↔ leaked a = true)
  end.
Proof.
  intros Hw r. unfold r. clear r. pose proof (inv_fresh w Hw) as Hlt.
  assert (∀ X : gset nat, (∀ x, x ∈ X → x ∈ kubelet w ∪ grpc w ∪ managers w ∪ vnodes w ∪ started w) → fresh w ∉ X) as Hnew.
  { intros X HX Hin. specialize (Hlt _ (HX _ Hin)). lia. }
  destruct (took_over a) eqn:Hta.
  - rewrite instantiate_eq, Hta. cbn [negb]. cbv zeta. change (upd (table w) _ _ _ _ _) with (made a w).
    destruct (add_and_start_spec a (fresh w) (made a w)) as (w' & Hs & -> & Hst). pose proof (alone_same _ _ _ (take_over_alone a w Hw) Hs) as Hal.
    assert (started (Delete (made a w)) = started w) as Hsd by (unfold Delete; cbn; by destruct (table w)). rewrite Hsd in Hst.
    assert (∀ x, x ∈ started w' → (x < S (fresh w))%nat) as Hsl.
    { intros x Hx. assert (x ∈ {[fresh w]} ∪ started w) as [->%elem_of_singleton|Hx']%elem_of_union; [|lia|].
      - rewrite Hst in Hx. destruct (add_and_start _ _ _).2; set_solver.
      - assert (x < fresh w)%nat by (apply Hlt; set_solver). lia. }
    destruct (add_and_start a (fresh w) (made a w)).2 as [e|]; cbn [fst snd].
    + destruct (alone_closed _ _ Hal Hsl) as (Hi & Ht & Hf & Hstc & Hg). split; [done|]. split; [done|].
      split; [done|]. split; [exact (eq_trans Hstc Hst)|]. split; [done|]. intros Hlk%leaked_not_taken. congruence.
    + split; [by eapply alone_inv|]. destruct Hal as (Ht & _ & _ & _ & Hf & _). split; [done|].
      assert (a_found a = true) as -> by (unfold took_over in Hta; by bool_to_Z). done.
  - destruct (not_taken a w) as [H1 H2]; [apply Hnew; set_solver|done|].
    destruct (instantiateEdgeDevice a w) as [w' e]. cbn [fst snd] in *. subst w'.
    split; [|split; [done|] ].
    + split; cbn; [|by apply inv_kubelet|by apply inv_managers|by apply inv_vnodes|by apply inv_table].
      intros x Hx. assert (x = fresh w ∨ x ∈ kubelet w ∪ grpc w ∪ managers w ∪ vnodes w ∪ started w) as [->|Hx'];
        [destruct (leaked a); set_solver|lia|]. specialize (Hlt x Hx'). lia.
    + destruct e as [e|]; cbn.
      * split; [done|]. split; [done|]. destruct (leaked a); [set_solver|]. split; [|done]. intros Hin. exfalso. by apply (Hnew (grpc w)); [set_solver|].
      * rewrite (proj1 H2) by done. done.
Qed.
Lemma run_inv l : inv (run l).
Proof.
  unfold run. assert (∀ w, inv w → inv (foldl run_op w l)) as Ha; [|apply Ha, init_inv].
  induction l as [|o l IH]; intros w Hw; [done|]. cbn [foldl]. apply IH. destruct o as [a| |i]; cbn [run_op].
  - by apply instantiate_lemma.
  - by apply Delete_node_inv.
  - case_bool_decide; [by apply Delete_node_inv|done].
Qed.

(** C38: Instantiating a device from any state that satisfies the invariant. If it succeeds (and the device was there) the virtual node made is
    the one in the table, started; if it fails, the table is as before, or empty when the new virtual node had taken the place of the
    former one. Either way what is open (listeners of kubelet servers, connectivity managers, virtual nodes) belongs to the virtual node
    in the table. After a failure the gRPC listener it made is open exactly when a preparation after that of the connectivity, or the
    making of the connectivity manager, failed: it is lost. *)
Theorem instantiateEdgeDevice_correct a w :
  inv w →
  let r := instantiateEdgeDevice a w in
  inv r.1 ∧ fresh r.1 = S (fresh w) ∧
  match r.2 with
  | None => if a_found a then table r.1 = Some (fresh w) ∧ started r.1 = {[fresh w]} ∪ started w
            else table r.1 = table w ∧ started r.1 = started w
  | Some _ => table r.1 = (if took_over a then None else table w) ∧ started r.1 = started w ∧ (fresh w ∈ grpc r.1 ↔ leaked a = true)
  end.
Proof. exact (instantiate_lemma a w). Qed.

(** The gRPC listeners after an instantiation: the one it made, when that is in the table or lost, and those of before, but for the one of
    the virtual node it has replaced. *)
Lemma grpc_after a w x :
  inv w → x ∈ grpc (instantiateEdgeDevice a w).1 →
  (x = fresh w ∧ (table (instantiateEdgeDevice a w).1 = Some x ∨ (leaked a = true ∧ is_Some (instantiateEdgeDevice a w).2))) ∨
  (x ∈ grpc w ∧ (table w = Some x → table (instantiateEdgeDevice a w).1 = Some x)).
Proof.
  intros Hw. pose proof (inv_fresh w Hw) as Hlt. destruct (took_over a) eqn:Hta.
  - rewrite instantiate_eq, Hta. cbn [negb]. cbv zeta. change (upd (table w) _ _ _ _ _) with (made a w).
    destruct (add_and_start_spec a (fresh w) (made a w)) as (w' & (Ht & _ & _ & Hg & _) & -> & _).
    assert (x ∈ grpc w' → x = fresh w ∨ (x ∈ grpc w ∧ table w ≠ Some x)) as Hin.
    { rewrite Hg. unfold take_over, Delete. cbn. destruct (table w) as [j|] eqn:Hj; cbn.
      - intros [Hx Hn]%elem_of_difference. destruct (decide (x = fresh w)) as [|Hne]; [by left|right]. split; [|set_solver].
        destruct (a_conn a) as [ []|]; [|done..]. set_solver.
      - intros Hx. destruct (decide (x = fresh w)) as [|Hne]; [by left|right]. split; [|done]. destruct (a_conn a) as [ []|]; [|done..]. set_solver. }
    destruct (add_and_start a (fresh w) (made a w)).2 as [e|]; cbn [fst snd].
    + assert (table w' = Some (fresh w)) as Ht' by (by rewrite Ht). unfold Delete. rewrite Ht'. cbn.
      rewrite !elem_of_difference. intros [ [ [Hx Hn] _] _]. destruct (Hin Hx) as [->|[? ?] ]; [set_solver|]. by right.
    + intros [->|[? ?] ]%Hin; [left|by right]. split; [done|]. left. by rewrite Ht.
  - assert (fresh w ∉ kubelet w) as Hk by (intros Hx; assert (fresh w < fresh w)%nat by (apply Hlt; set_solver); lia).
    destruct (not_taken a w Hk Hta) as [-> He]. cbn. destruct (leaked a) eqn:Hl; [|by right].
    intros [->%elem_of_singleton|Hx]%elem_of_union; [left|by right]. split; [done|]. right. split; [done|].
    destruct (instantiateEdgeDevice a w).2; [by eexists|]. exfalso. unfold leaked in Hl. by rewrite (proj1 He) in Hl.
Qed.
Lemma Delete_grpc w x : x ∈ grpc (Delete w) → x ∈ grpc w ∧ table w ≠ Some x.
Proof. unfold Delete. destruct (table w) as [j|]; cbn; [set_solver|done]. Qed.
Lemma grpc_owner l i : i ∈ grpc (run l) → table (run l) = Some i ∨
  ∃ pre a post, l = pre ++ OInstantiate a :: post ∧ i = fresh (run pre) ∧ leaked a = true ∧ is_Some (instantiateEdgeDevice a (run pre)).2.
Proof.
  induction l as [|o l IH] using rev_ind; [done|]. unfold run. rewrite foldl_app. cbn [foldl]. fold (run l).
  assert (∀ w', (i ∈ grpc w' → i ∈ grpc (run l) ∧ (table (run l) = Some i → table w' = Some i)) → i ∈ grpc w' → table w' = Some i ∨
    ∃ pre a post, l ++ [o] = pre ++ OInstantiate a :: post ∧ i = fresh (run pre) ∧ leaked a = true ∧ is_Some (instantiateEdgeDevice a (run pre)).2) as Hk.
  { intros w' H Hi. destruct (H Hi) as [Hg Ht]. destruct (IH Hg) as [|(pre & a & post & -> & Hr)]; [left; auto|right].
    exists pre, a, (post ++ [o]). by rewrite <-(assoc_L (++)). }
  destruct o as [a| |j]; cbn [run_op].
  - intros Hi. destruct (grpc_after a (run l) i (run_inv l) Hi) as [ [-> [H|[Hl He] ] ]|H]; [by left|right; by exists l, a, []|by apply Hk].
  - apply Hk. intros [? ?]%Delete_grpc. done.
  - apply Hk. case_bool_decide; [intros [? ?]%Delete_grpc|]; done.
Qed.

(** C12: Over any run of instantiations, deletions and ends of virtual nodes, failures included, there is at most one virtual node of a
    device: every kubelet listener, connectivity manager and virtual node that is open belongs to the one in the table, whose own are open. A
    gRPC listener that is open belongs to it too, or was left by an instantiation that failed after it had made the listener
    and before it had the connectivity manager: that one is lost. *)
Theorem one_virtual_node l i :
  (i ∈ kubelet (run l) ∪ managers (run l) ∪ vnodes (run l) → table (run l) = Some i) ∧
  (table (run l) = Some i → i ∈ vnodes (run l) ∧ i ∈ kubelet (run l) ∧ i ∈ managers (run l)) ∧
  (i ∈ grpc (run l) → table (run l) = Some i ∨
     ∃ pre a post, l = pre ++ OInstantiate a :: post ∧ i = fresh (run pre) ∧ leaked a = true ∧ is_Some (instantiateEdgeDevice a (run pre)).2).
Proof.
  pose proof (run_inv l) as Hw. split_and!; [|apply (inv_table _ Hw)|apply grpc_owner].
  intros Hi. rewrite !elem_of_union in Hi.
  destruct Hi as [ [Hi|Hi]|Hi]; [by apply (inv_kubelet _ Hw)|by apply (inv_managers _ Hw)|by apply (inv_vnodes _ Hw)].
Qed.

(** A goroutine of a virtual node that was replaced deletes its successor, and nothing makes a new one. *)
Lemma late_exit_deletes_successor w i :
  i ∈ started w → table w ≠ Some i → table (run_op w (OExit i)) = None.
Proof. intros Hi _. cbn. rewrite bool_decide_true by done. apply Delete_table. Qed.
End Instances.

(** ** The handlers *)
Module Handlers.

#[export] Instance FieldHook_eq : EqDecision FieldHook.
Proof. solve_decision. Defined.
#[export] Instance NetworkMeshSpec_eq : EqDecision NetworkMeshSpec.
Proof. solve_decision. Defined.
#[export] Instance PeripheralTLSConfig_eq : EqDecision PeripheralTLSConfig.
Proof. solve_decision. Defined.
#[export] Instance PeripheralConnectivitySpec_eq : EqDecision PeripheralConnectivitySpec.
Proof. solve_decision. Defined.
#[export] Instance PeripheralBaseSpec_eq : EqDecision PeripheralBaseSpec.
Proof. solve_decision. Defined.
#[export] Instance PeripheralOperationSpec_eq : EqDecision PeripheralOperationSpec.
Proof. solve_decision. Defined.
#[export] Instance PeripheralMetricSpec_eq : EqDecision PeripheralMetricSpec.
Proof. solve_decision. Defined.
#[export] Instance PeripheralSpec_eq : EqDecision PeripheralSpec.
Proof. solve_decision. Defined.
#[export] Instance PodRolePermissions_eq : EqDecision PodRolePermissions.
Proof. solve_decision. Defined.
#[export] Instance NodeClusterRolePermissions_eq : EqDecision NodeClusterRolePermissions.
Proof. solve_decision. Defined.
#[export] Instance LocalSecretKeyReference_eq : EqDecision LocalSecretKeyReference.
Proof. solve_decision. Defined.
#[export] Instance ConnectivityBackoff_eq : EqDecision ConnectivityBackoff.
Proof. solve_decision. Defined.
#[export] Instance ConnectivitySpec_eq : EqDecision ConnectivitySpec.
Proof. solve_decision. Defined.
#[export] Instance MetricsConfig_eq : EqDecision MetricsConfig.
Proof. solve_decision. Defined.
#[export] Instance AranyaDNSConfig_eq : EqDecision AranyaDNSConfig.
Proof. solve_decision. Defined.
#[export] Instance EdgeDeviceSpec_eq : EqDecision EdgeDeviceSpec.
Proof. solve_decision. Defined.

(** What the handlers do to their reconcilers, the API server and the virtual nodes. [VnRec old new] is the update of the object
    cache of the virtual nodes' reconciler. *)
Inductive Call :=
  | UpdateStatus (ed : EdgeDevice) | RequestNodeClusterRoleEnsure | VnRec (old : option EdgeDevice) (new : EdgeDevice)
  | Schedule (action : JobAction) (name : string) | DeleteVirtualNode (name : string) | Instantiate (name : string)
  | RequestConnectivityServiceEnsure | DeleteNode (name : string) | DeleteEdgeDevice (name : string).

(** A call, and what to do when it did not fail. *)
Definition call (c : list Call) (e : option string) (k : list Call * Result) : list Call * Result :=
  match e with Some e => (c, RErr e) | None => let '(cs, r) := k in (c ++ cs, r) end.
Definition set_host (host : string) (ed : EdgeDevice) : EdgeDevice :=
  {| ed_Name := ed_Name ed; ed_Namespace := ed_Namespace ed; ed_ClusterName := ed_ClusterName ed; ed_Annotations := ed_Annotations ed; ed_Spec := ed_Spec ed;
     ed_Status := {| eds_HostNode := host; eds_MeshIPv4Addr := eds_MeshIPv4Addr (ed_Status ed); eds_MeshIPv6Addr := eds_MeshIPv6Addr (ed_Status ed) |} |}.

Definition onEdgeDeviceResAdded (hostNodeName : string) (status role sched : option string) (ed : EdgeDevice) : list Call * Result :=
  let rest := call [RequestNodeClusterRoleEnsure] role (call [VnRec None ed; Schedule ActionUpdate (ed_Name ed)] sched ([], RNil)) in
  if bool_decide (eds_HostNode (ed_Status ed) = hostNodeName) then rest else call [UpdateStatus (set_host hostNodeName ed)] status rest.
Definition checkEdgeDeviceUpdated (old new : EdgeDevice) : bool := negb (bool_decide (ed_Spec old = ed_Spec new)).
Definition onEdgeDeviceResUpdated (sched : option string) (old new : EdgeDevice) : list Call * Result :=
  if negb (checkEdgeDeviceUpdated old new) then ([], RNil)
  else call [VnRec (Some old) new; Schedule ActionUpdate (ed_Name old)] sched ([], RNil).
Definition onEdgeDeviceResDeleting (sched : option string) (ed : EdgeDevice) : list Call * Result :=
  call [VnRec None ed; Schedule ActionDelete (ed_Name ed)] sched ([], RNil).
(** [managed] is whether there is a virtual node of that name; a failed schedule is not retried. *)
Definition onEdgeDeviceResDeleted (managed : bool) (role sched : option string) (ed : EdgeDevice) : list Call * Result :=
  call [RequestNodeClusterRoleEnsure] role
    (if managed then ([VnRec None ed; Schedule ActionDelete (ed_Name ed)], RNil) else ([], RNil)).

(** The handlers of the reconciler of virtual nodes. *)
Definition onEdgeDeviceCreationRequested (instantiated : option string) (ed : EdgeDevice) : list Call * Result :=
  call [Instantiate (ed_Name ed)] instantiated ([], RNil).
Definition onEdgeDeviceUpdateRequested (sched : option string) (new : EdgeDevice) : list Call * Result :=
  call [DeleteVirtualNode (ed_Name new); Schedule ActionAdd (ed_Name new)] sched ([], RNil).
Definition onEdgeDeviceDeletionRequested (ed : EdgeDevice) : list Call * Result :=
  ([DeleteVirtualNode (ed_Name ed)], RNext ActionCleanup 0).
Definition unless_not_found (prefix : string) (e : option KubeError) : option string :=
  match e with Some e => if ke_NotFound e then None else Some (prefix +:+ ke_Text e) | None => None end.
Definition onEdgeDeviceCleanup (svc : option string) (node device : option KubeError) (ed : EdgeDevice) : list Call * Result :=
  call [RequestConnectivityServiceEnsure] (match svc with Some e => Some ("failed to ensure connectivity service object: " +:+ e) | None => None end)
    (call [DeleteNode (ed_Name ed)] (unless_not_found "failed to delete node object: " node)
      (call [DeleteEdgeDevice (ed_Name ed)] (unless_not_found "failed to delete edge device object: " device) ([], RNil))).

(** A change of the specification, and nothing else, replaces the virtual node. *)
Lemma onEdgeDeviceResUpdated_schedules sched old new :
  Schedule ActionUpdate (ed_Name old) ∈ (onEdgeDeviceResUpdated sched old new).1 ↔ ed_Spec old ≠ ed_Spec new.
Proof.
  unfold onEdgeDeviceResUpdated, checkEdgeDeviceUpdated, call. case_bool_decide as Hs; cbn.
  - split; [by intros ?%elem_of_nil|done].
  - destruct sched; cbn; rewrite !elem_of_cons; naive_solver.
Qed.
(** A cleanup that ends without an error has deleted the node object, then the device; one with an error stops where it failed. *)
Lemma onEdgeDeviceCleanup_correct svc node device ed :
  let r := onEdgeDeviceCleanup svc node device ed in
  (r.2 = RNil → r.1 = [RequestConnectivityServiceEnsure; DeleteNode (ed_Name ed); DeleteEdgeDevice (ed_Name ed)] ∧
    (∀ e, node = Some e → ke_NotFound e = true) ∧ (∀ e, device = Some e → ke_NotFound e = true)) ∧
  (DeleteEdgeDevice (ed_Name ed) ∈ r.1 → svc = None ∧ ∀ e, node = Some e → ke_NotFound e = true).
Proof.
  unfold onEdgeDeviceCleanup, unless_not_found, call.
  destruct svc as [e|]; cbn; [split; [done|by intros [?|?%elem_of_nil]%elem_of_cons]|].
  destruct node as [e|]; [destruct (ke_NotFound e) eqn:He|]; destruct device as [e'|]; try destruct (ke_NotFound e') eqn:He'; cbn;
    rewrite ?elem_of_cons, ?elem_of_nil; naive_solver.
Qed.
End Handlers.

(** ** Examples *)
Module EdgeDeviceExamples.
Import Instances.

Definition good : Answers := {|
  a_found := true; a_mesh := None; a_cert := None; a_listen := None; a_client := None; a_conn := Ok true; a_options := [None; None];
  a_manager := None; a_node := None; a_leaseEnabled := true; a_lease := None; a_pod := None; a_netEnabled := false; a_net := None;
  a_svcEnabled := true; a_svc := None |}.
Definition bad_option : Answers := {|
  a_found := true; a_mesh := None; a_cert := None; a_listen := None; a_client := None; a_conn := Ok true; a_options := [None; Some "duplicate peripheral name"];
  a_manager := None; a_node := None; a_leaseEnabled := true; a_lease := None; a_pod := None; a_netEnabled := false; a_net := None;
  a_svcEnabled := true; a_svc := None |}.
Example instantiateEdgeDevice_correct_witness :
  (instantiateEdgeDevice good init).2 = None ∧
  let r := instantiateEdgeDevice good init in
  inv r.1 ∧ fresh r.1 = S (fresh init) ∧
  match r.2 with
  | None => if a_found good then table r.1 = Some (fresh init) ∧ started r.1 = {[fresh init]} ∪ started init
            else table r.1 = table init ∧ started r.1 = started init
  | Some _ => table r.1 = (if took_over good then None else table init) ∧ started r.1 = started init ∧ (fresh init ∈ grpc r.1 ↔ leaked good = true)
  end.
Proof. split; [reflexivity|]. apply (instantiateEdgeDevice_correct good init init_inv). Defined.
Example one_virtual_node_witness :
  vnodes (run [OInstantiate good; OInstantiate good]) = {[1%nat]} ∧ table (run [OInstantiate good; OInstantiate good]) = Some 1%nat.
Proof.
  split; [vm_compute; reflexivity|]. apply (proj1 (one_virtual_node [OInstantiate good; OInstantiate good] 1%nat)).
  refine (bool_decide_unpack _ _). vm_compute. exact I.
Defined.
(** Two failures for the same reason leave two gRPC listeners open. *)
Example grpc_listeners_lost : grpc (run [OInstantiate bad_option; OInstantiate bad_option]) = {[0%nat; 1%nat]} ∧ table (run [OInstantiate bad_option]) = None.
Proof. split; vm_compute; reflexivity. Qed.
(** The device is updated, and a goroutine of the former virtual node ends late: the device has no virtual node. *)
Example late_exit : table (run [OInstantiate good; ODelete; OInstantiate good]) = Some 1%nat ∧
  table (run [OInstantiate good; ODelete; OInstantiate good; OExit 0]) = None.
Proof. split; vm_compute; reflexivity. Qed.

Definition random : list Z := replicate 32 255.
Example ensureMeshConfig_correct_witness :
  let new := {| Secrets.StringData := ∅; Secrets.Data := {["wireguard.private-key" := [248] ++ replicate 30 255 ++ [127] ]} |} in
  let get := inr {| ke_NotFound := true; ke_Conflict := false; ke_Text := "" |} in
  Secrets.ensureMeshConfig true true get (Ok random) Ok = ([Secrets.CreateSecret new], Ok (Some new)) ∧
  ((∃ old, get = inl old ∧ Secrets.key_ok old = true ∧ [Secrets.CreateSecret new] = [] ∧ Some new = Some old) ∨
   (∃ s key, ([Secrets.CreateSecret new] = [Secrets.CreateSecret s] ∧ (∃ e, get = inr e ∧ ke_NotFound e = true) ∨
              [Secrets.CreateSecret new] = [Secrets.UpdateSecret s] ∧ ∃ old, get = inl old ∧ Secrets.key_ok old = false) ∧
     Secrets.private_key s = Some key ∧ Secrets.clamped key ∧ ∃ stored, Ok s = Ok stored ∧ Some new = Some stored)).
Proof.
  intros new get. split; [vm_compute; reflexivity|]. apply (Secrets.ensureMeshConfig_correct get random Ok).
  - reflexivity.
  - apply Forall_replicate. unfold Secrets.is_byte. lia.
  - vm_compute. reflexivity.
Defined.

(** A device with a fixed address in the mesh: the address is not given back, and the second virtual node cannot be made. *)
Definition fixed : EdgeDevice :=
  let d := Cluster.Sample.device "dev" ∅ [] [] in let s := ed_Spec d in
  {| ed_Name := "dev"; ed_Namespace := "sys"; ed_ClusterName := ""; ed_Annotations := ∅;
     ed_Spec := s; ed_Status := {| eds_HostNode := ""; eds_MeshIPv4Addr := "10.0.0.1/30"; eds_MeshIPv6Addr := "" |} |}.
Definition net : Conf.NetworkConfig := {| Conf.net_Enabled := true; Conf.net_Driver := "wireguard";
  Conf.net_Wireguard := {| Conf.w_PreSharedKey := ""; Conf.w_KeepaliveSeconds := 25 |} |}.
Definition secret : Secrets.Secret := {| Secrets.StringData := ∅; Secrets.Data := {["wireguard.private-key" := random]} |}.
Definition errors (r : result NetworkOptions.Options) : option string := match r with Ok _ => None | Err e => Some e end.
Example address_kept :
  ('(v4, v6, r1) ← NetworkOptions.prepareNetworkOptions (λ _, "") [] fixed net (Some secret) (Some Ipam.Examples.manager30) None;
   '(_, _, r2) ← NetworkOptions.prepareNetworkOptions (λ _, "") [] fixed net (Some secret) v4 v6;
   Ret (errors r1, errors r2)) = Ret (None, Some "failed to allocate ipv4 address: failed to allocate specific ip").
Proof. vm_compute. reflexivity. Qed.
End EdgeDeviceExamples.
