(* ===== verification/PodControllers.v ===== *)
(** * The controllers of pods

    src/pkg/controller/edgedevice/pod_tenant.go (Module TenantPods: the names of the pods on devices, and the jobs the pods' events give
    the virtual nodes) and pod_sys.go (Module VirtualPods: the pods that stand for the devices; Module VirtualStatus: their status once the device is online, of
    pod/respod_virtual.go and edgedevice.go). Objects of the informers and answers of the
    API server are arguments; calls are recorded. *)
From S2P Require Import Prelude GoNet K8s Api Cluster Rbac.

(** ** Tenant pods *)
Module TenantPods.

Inductive Call :=
  | RequestRoleEnsure
  | SchedulePodJob (node : string) (action : JobAction) (old : option Pod) (new : Pod).
Record State := { tenantPods : gset string; calls : list Call }.
Definition call (c : Call) (s : State) : State := {| tenantPods := tenantPods s; calls := calls s ++ [c] |}.

(** The set is only ever inserted into; the results compare the sizes before and after. *)
Definition insert_name (name : string) (s : State) : State := {| tenantPods := {[name]} ∪ tenantPods s; calls := calls s |}.
Definition addTenantPod (name : string) (s : State) : State * bool :=
  let s' := insert_name name s in (s', (size (tenantPods s) <? size (tenantPods s'))%nat).
Definition removeTenantPod (name : string) (s : State) : State * bool :=
  let s' := insert_name name s in (s', (size (tenantPods s') <? size (tenantPods s))%nat).
Definition getTenantPodNames (s : State) : list string := Rules.List (tenantPods s).

Section Handlers.
Context (getEdgeDeviceObject : string → option EdgeDevice) (virtualNodes_Get : string → bool).
(** What the request for the roles and the scheduling of a job answer. *)
Context (role job : option string).

Definition to_result (e : option string) (ok : Result) : Result := match e with Some e => RErr e | None => ok end.
Definition isVirtualPod (pod : Pod) : bool := bool_decide (is_Some (getEdgeDeviceObject (pod_Name pod))).
Definition host (pod : Pod) : option EdgeDevice := getEdgeDeviceObject (sp_NodeName (pod_Spec pod)).
(** A job for the virtual node of a device. *)
Definition schedule_on (ed : EdgeDevice) (action : JobAction) (old : option Pod) (new : Pod) (s : State) : State * Result :=
  if virtualNodes_Get (ed_Name ed) then (call (SchedulePodJob (ed_Name ed) action old new) s, to_result job RNil)
  else (s, RErr "failed to find virtual node").

Definition onTenantPodAdded (pod : Pod) (s : State) : State * Result :=
  if isVirtualPod pod then (s, RNil)
  else match host pod with
       | None => (s, RNil)
       | Some _ => let '(s, _) := addTenantPod (pod_Name pod) s in
                   (call RequestRoleEnsure s, to_result role (RNext ActionUpdate 3000000000))
       end.
Definition onTenantPodUpdated (old new : Pod) (s : State) : State * Result :=
  if isVirtualPod new then (s, RNil)
  else match host new with
       | Some ed => let '(s, _) := addTenantPod (pod_Name new) s in schedule_on ed ActionUpdate (Some old) new s
       | None =>
           let oldNode := sp_NodeName (pod_Spec old) in
           if bool_decide (oldNode = sp_NodeName (pod_Spec new)) then (s, RNil)
           else if virtualNodes_Get oldNode then (call (SchedulePodJob oldNode ActionDelete (Some old) new) s, to_result job RNil) else (s, RNil)
       end.
Definition onTenantPodDeleting (pod : Pod) (s : State) : State * Result :=
  if isVirtualPod pod then (s, RNil)
  else match host pod with None => (s, RNil) | Some ed => schedule_on ed ActionDelete None pod s end.
Definition onTenantPodDeleted (pod : Pod) (s : State) : State * Result :=
  if isVirtualPod pod then (s, RNil)
  else match host pod with
       | None => (s, RNil)
       | Some ed =>
           let '(s, removed) := removeTenantPod (pod_Name pod) s in
           if removed : bool then
             let s := call RequestRoleEnsure s in
             match role with Some e => (s, RErr e) | None => schedule_on ed ActionCleanup None pod s end
           else schedule_on ed ActionCleanup None pod s
       end.

(** *** Events *)
Inductive Event := EAdded (pod : Pod) | EUpdated (old new : Pod) | EDeleting (pod : Pod) | EDeleted (pod : Pod).
Definition handle (e : Event) : State → State * Result :=
  match e with
  | EAdded p => onTenantPodAdded p | EUpdated o n => onTenantPodUpdated o n | EDeleting p => onTenantPodDeleting p | EDeleted p => onTenantPodDeleted p
  end.
Definition subject (e : Event) : Pod := match e with EAdded p | EUpdated _ p | EDeleting p | EDeleted p => p end.
Definition action_of (e : Event) : JobAction :=
  match e with EAdded _ => ActionInvalid | EUpdated _ _ => ActionUpdate | EDeleting _ => ActionDelete | EDeleted _ => ActionCleanup end.
Definition run (l : list Event) (s : State) : State := foldl (λ s e, (handle e s).1) s l.
(** What an event is to schedule: the job on the device of the pod's node, or the deletion on the device it has left. *)
Definition expected (e : Event) : option Call :=
  let pod := subject e in
  if isVirtualPod pod then None
  else match host pod with
       | Some ed => match e with
                    | EAdded _ => None
                    | EUpdated old _ => if virtualNodes_Get (ed_Name ed) then Some (SchedulePodJob (ed_Name ed) ActionUpdate (Some old) pod) else None
                    | _ => if virtualNodes_Get (ed_Name ed) then Some (SchedulePodJob (ed_Name ed) (action_of e) None pod) else None
                    end
       | None => match e with
                 | EUpdated old _ => let n := sp_NodeName (pod_Spec old) in
                     if bool_decide (n ≠ sp_NodeName (pod_Spec pod)) && virtualNodes_Get n then Some (SchedulePodJob n ActionDelete (Some old) pod) else None
                 | _ => None
                 end
       end.
(** An event puts the name into the set. *)
Definition noted (e : Event) : option string :=
  if isVirtualPod (subject e) then None
  else match host (subject e), e with Some _, EDeleting _ => None | Some _, _ => Some (pod_Name (subject e)) | None, _ => None end.

Lemma removeTenantPod_inserts name s : removeTenantPod name s = (insert_name name s, false).
Proof. unfold removeTenantPod. f_equal. apply Nat.ltb_ge. apply subseteq_size. cbn. set_solver. Qed.
Lemma schedule_on_spec ed action old new s :
  (schedule_on ed action old new s).1 =
  {| tenantPods := tenantPods s;
     calls := calls s ++ if virtualNodes_Get (ed_Name ed) then [SchedulePodJob (ed_Name ed) action old new] else [] |}.
Proof. unfold schedule_on. destruct (virtualNodes_Get _); [done|]. rewrite app_nil_r. by destruct s. Qed.
(** A request for the roles: only when a pod is added. *)
Definition requested (e : Event) : list Call :=
  match e, noted e with EAdded _, Some _ => [RequestRoleEnsure] | _, _ => [] end.
Lemma handle_spec e s :
  (handle e s).1 = {| tenantPods := list_to_set (option_list (noted e)) ∪ tenantPods s;
                      calls := calls s ++ requested e ++ option_list (expected e) |}.
Proof.
  assert (∀ s, s = {| tenantPods := list_to_set (option_list None) ∪ tenantPods s; calls := calls s ++ [] |}) as Hs.
  { intros [t c]. cbn. by rewrite app_nil_r, (left_id_L ∅ (∪)). }
  assert (∀ n, list_to_set (option_list (Some n)) = {[n]} ∪ (∅ : gset string)) as Hn by done.
  unfold requested, noted, expected. destruct e as [p|o p|p|p]; cbn [subject handle action_of];
    unfold onTenantPodAdded, onTenantPodUpdated, onTenantPodDeleting, onTenantPodDeleted; destruct (isVirtualPod p); try apply Hs;
    destruct (host p) as [ed|]; try apply Hs; rewrite ?Hn.
  - cbn. unfold call, insert_name. cbn. by rewrite (right_id_L ∅ (∪)).
  - cbn [addTenantPod]. rewrite schedule_on_spec. cbn [insert_name tenantPods calls]. rewrite (right_id_L ∅ (∪)). by destruct (virtualNodes_Get _).
  - destruct (bool_decide (sp_NodeName (pod_Spec o) = _)) eqn:Hb.
    + apply bool_decide_eq_true in Hb. rewrite bool_decide_false by auto. apply Hs.
    + apply bool_decide_eq_false in Hb. rewrite bool_decide_true by auto. cbn [andb].
      destruct (virtualNodes_Get _); [|apply Hs]. cbn. by rewrite (left_id_L ∅ (∪)).
  - rewrite schedule_on_spec. cbn. rewrite (left_id_L ∅ (∪)). by destruct (virtualNodes_Get _).
  - rewrite removeTenantPod_inserts, schedule_on_spec. cbn. rewrite (right_id_L ∅ (∪)). by destruct (virtualNodes_Get _).
Qed.

(** Over any history of pod events the jobs scheduled are exactly those expected, in the order of the events: updates, deletions and
    cleanups of pods that are no virtual pods on the device of their node, and the deletion on the device a pod has left. The set of
    tenant pods has every name that was ever added, updated or deleted on a device: no name leaves it, and the roles are requested
    anew only when a pod is added, never when one is deleted. *)
Lemma events_correct l s :
  calls (run l s) = calls s ++ (l ≫= λ e, requested e ++ option_list (expected e)) ∧
  tenantPods (run l s) = list_to_set (omap noted l) ∪ tenantPods s.
Proof.
  revert s. induction l as [|e l IH]; intros s; [cbn; by rewrite app_nil_r, (left_id_L ∅ (∪))|].
  cbn [run foldl]. unfold run in IH. destruct (IH (handle e s).1) as [-> ->]. rewrite handle_spec. cbn [calls tenantPods mbind list_bind omap list_omap].
  split; [by rewrite <-!app_assoc|]. destruct (noted e) as [n|]; cbn; [set_solver|by rewrite (left_id_L ∅ (∪))].
Qed.
End Handlers.
End TenantPods.

(** ** Virtual pods *)
Module VirtualPods.

Definition VirtualContainerNameHost : string := "host".
Definition VirtualImageNameHost : string := "virtualimage.arhat.dev/host".
Definition VirtualImageNamePeripheral : string := "virtualimage.arhat.dev/peripheral".
Definition PullIfNotPresent : string := "IfNotPresent".

(** What the objects share: no ports, mounts, environment or resources. *)
Definition virtual_ctr (name image : string) (command : list string) (stdin tty : bool) : Container := {|
  ctr_Name := name; ctr_Image := image; ctr_Command := command; ctr_Args := []; ctr_WorkingDir := ""; ctr_Ports := []; ctr_EnvFrom := [];
  ctr_Env := []; ctr_VolumeMounts := []; ctr_LivenessProbe := None; ctr_ReadinessProbe := None; ctr_Lifecycle := None;
  ctr_ImagePullPolicy := PullIfNotPresent; ctr_SecurityContext := None; ctr_Stdin := stdin; ctr_TTY := tty; ctr_Requests := ∅; ctr_Limits := ∅ |}.
Definition virtual_spec (node : string) (ctrs : list Container) : PodSpec := {|
  sp_Volumes := []; sp_InitContainers := []; sp_Containers := ctrs; sp_EphemeralContainers := []; sp_RestartPolicy := "";
  sp_TerminationGracePeriodSeconds := None; sp_DNSPolicy := ""; sp_ServiceAccountName := ""; sp_NodeName := node; sp_HostNetwork := false;
  sp_HostPID := false; sp_HostIPC := false; sp_ShareProcessNamespace := None; sp_SecurityContext := None; sp_ImagePullSecrets := [];
  sp_Hostname := ""; sp_HostAliases := []; sp_DNSConfig := None; sp_EnableServiceLinks := None |}.

Section Pods.
Context (SysNS : string) (IsDNS1123Label : string → list string).

Definition command_of (op : PeripheralOperationSpec) : string :=
  if bool_decide (pos_PseudoCommand op = "") then pos_Name op else pos_PseudoCommand op +:+ " (" +:+ pos_Name op +:+ ")".
Definition peripheral_ctr (d : PeripheralSpec) : result Container :=
  let name := pbs_Name (per_Base d) in
  if bool_decide (name = "" ∨ name = VirtualContainerNameHost) then Err ("invalid device name " +:+ quote name)
  else if bool_decide (IsDNS1123Label name ≠ []) then
    Err ("device name " +:+ quote name +:+ " is not a valid dns label: " +:+ GoNet.join ", " (IsDNS1123Label name))
  else Ok (virtual_ctr name VirtualImageNamePeripheral (command_of <$> per_Operations d) false false).
Fixpoint peripheral_ctrs (l : list PeripheralSpec) : result (list Container) :=
  match l with [] => Ok [] | d :: l => c ← peripheral_ctr d; cs ← peripheral_ctrs l; Ok (c :: cs) end.
(** The toleration of every taint is not a field of the model's PodSpec. *)
Definition newVirtualPodForEdgeDevice (device : EdgeDevice) : result Pod :=
  cs ← peripheral_ctrs (spec_Peripherals (ed_Spec device));
  Ok {| pod_UID := ""; pod_Namespace := SysNS; pod_Name := ed_Name device; pod_Labels := ∅; pod_Annotations := ∅; pod_Finalizers := [];
        pod_Spec := virtual_spec (ed_Name device) (virtual_ctr VirtualContainerNameHost VirtualImageNameHost [] true true :: cs);
        pod_Status := {| ps_Phase := ""; ps_HostIP := ""; ps_PodIP := ""; ps_PodIPs := []; ps_InitContainerStatuses := []; ps_ContainerStatuses := [] |} |}.

Definition same_words (real expected : list string) : bool :=
  (length real =? length expected)%nat && Rules.containsAll real expected.
Definition check_ctr (realCtr expectedCtr : Container) : bool :=
  bool_decide (ctr_Name realCtr = ctr_Name expectedCtr) && bool_decide (ctr_Image realCtr = ctr_Image expectedCtr) &&
  Bool.eqb (ctr_Stdin realCtr) (ctr_Stdin expectedCtr) && Bool.eqb (ctr_TTY realCtr) (ctr_TTY expectedCtr) &&
  same_words (ctr_Command realCtr) (ctr_Command expectedCtr) && same_words (ctr_Args realCtr) (ctr_Args expectedCtr).
(** The containers in pairs: their numbers are equal by then. *)
Fixpoint check_ctrs (real expected : list Container) : bool :=
  match real, expected with r :: real, e :: expected => check_ctr r e && check_ctrs real expected | _, _ => true end.
Definition checkVirtualPodUpToDate (realPod expectedPod : Pod) : bool :=
  let real := sp_Containers (pod_Spec realPod) in let expected := sp_Containers (pod_Spec expectedPod) in
  if negb (bool_decide (sp_InitContainers (pod_Spec realPod) = [])) then false
  else if negb (length real =? length expected)%nat then false
  else check_ctrs real expected.

Inductive Call := DeletePod (name : string) | CreatePod (p : Pod).
(** [old] is the pod of the informer or of the API server; the new pod is given as the real one to the check, the old one as the
    expected one. *)
Definition ensureVirtualPod (device : EdgeDevice) (old : option Pod) (delete : option KubeError) (create : option string) : list Call * option string :=
  match newVirtualPodForEdgeDevice device with
  | Err e => ([], Some ("failed to generate virtual pod object: " +:+ e))
  | Ok pod =>
      let made (cs : list Call) := (cs ++ [CreatePod pod], match create with Some e => Some ("failed to create virtual pod: " +:+ e) | None => None end) in
      match old with
      | None => made []
      | Some oldPod =>
          if checkVirtualPodUpToDate pod oldPod then ([], None)
          else match delete with
               | Some e => if ke_NotFound e then made [DeletePod (ed_Name device)]
                           else ([DeletePod (ed_Name device)], Some ("failed to delete invalid virtual pod at once: " +:+ ke_Text e))
               | None => made [DeletePod (ed_Name device)]
               end
      end
  end.

(** A pod that stands for a device: the host, and a container for every peripheral, with its commands in any order. *)
Definition stands_for (device : EdgeDevice) (p : Pod) : Prop :=
  ∃ host ctrs, sp_Containers (pod_Spec p) = host :: ctrs ∧
    ctr_Name host = VirtualContainerNameHost ∧ ctr_Image host = VirtualImageNameHost ∧ ctr_Stdin host = true ∧ ctr_TTY host = true ∧
    Forall2 (λ c d, ctr_Name c = pbs_Name (per_Base d) ∧ ctr_Image c = VirtualImageNamePeripheral ∧
                    length (ctr_Command c) = length (per_Operations d) ∧ (∀ w, w ∈ ctr_Command c → w ∈ command_of <$> per_Operations d))
      ctrs (spec_Peripherals (ed_Spec device)).
Definition ctr_of (d : PeripheralSpec) : Container :=
  virtual_ctr (pbs_Name (per_Base d)) VirtualImageNamePeripheral (command_of <$> per_Operations d) false false.
Lemma peripheral_ctrs_Ok l cs : peripheral_ctrs l = Ok cs → cs = ctr_of <$> l.
Proof.
  revert cs. induction l as [|d l IH]; intros cs; cbn [peripheral_ctrs]; [by intros [= <-]|].
  unfold peripheral_ctr. case_bool_decide; [done|]. case_bool_decide; [done|]. cbn [mbind result_bind].
  destruct (peripheral_ctrs l) as [cs'|]; [|done]. intros [= <-]. by rewrite (IH cs').
Qed.
Lemma same_words_spec real expected : same_words real expected = true ↔ length real = length expected ∧ ∀ w, w ∈ expected → w ∈ real.
Proof. unfold same_words. by rewrite andb_true_iff, Nat.eqb_eq, Rules.containsAll_spec. Qed.
Lemma same_words_refl l : same_words l l = true.
Proof. by apply same_words_spec. Qed.
Lemma check_ctrs_spec real expected :
  length real = length expected → check_ctrs real expected = true → Forall2 (λ r e, check_ctr r e = true) real expected.
Proof.
  revert expected. induction real as [|r real IH]; intros [|e expected]; cbn; [constructor|done|done|].
  intros [= Hl] [? ?]%andb_true_iff. constructor; [done|by apply IH].
Qed.
Lemma checked_stands_for device pod old :
  newVirtualPodForEdgeDevice device = Ok pod → checkVirtualPodUpToDate pod old = true → stands_for device old.
Proof.
  unfold newVirtualPodForEdgeDevice. destruct (peripheral_ctrs _) as [cs|] eqn:Hcs; [|done]. intros [= <-]. apply peripheral_ctrs_Ok in Hcs as ->.
  unfold checkVirtualPodUpToDate. cbn [pod_Spec virtual_spec sp_Containers sp_InitContainers]. rewrite bool_decide_true by done. cbn [negb].
  destruct (Nat.eqb_spec (length (virtual_ctr VirtualContainerNameHost VirtualImageNameHost [] true true :: (ctr_of <$> spec_Peripherals (ed_Spec device))))
    (length (sp_Containers (pod_Spec old)))) as [Hl|]; [|done]. cbn [negb]. intros Hc. apply check_ctrs_spec in Hc; [|done].
  unfold stands_for. destruct (sp_Containers (pod_Spec old)) as [|h ctrs]; [by inversion Hc|]. apply Forall2_cons in Hc as [Hh Hc]. exists h, ctrs. split; [done|].
  unfold check_ctr in Hh. cbn in Hh. bool_to_Z. repeat match goal with H : bool_decide _ = true |- _ => apply bool_decide_eq_true in H end.
  destruct (ctr_Stdin h), (ctr_TTY h); try done. split_and!; try done. apply Forall2_fmap_l in Hc. apply Forall2_flip. eapply Forall2_impl; [exact Hc|].
  intros d c Hdc. unfold check_ctr in Hdc. cbn in Hdc. bool_to_Z.
  repeat match goal with H : bool_decide _ = true |- _ => apply bool_decide_eq_true in H end.
  match goal with H : same_words (command_of <$> _) _ = true |- _ => apply same_words_spec in H as [Hlen Hin] end.
  rewrite length_fmap in Hlen. done.
Qed.
Lemma new_checked device pod : newVirtualPodForEdgeDevice device = Ok pod → checkVirtualPodUpToDate pod pod = true.
Proof.
  intros Hn. unfold checkVirtualPodUpToDate. rewrite Nat.eqb_refl. cbn [negb].
  assert (sp_InitContainers (pod_Spec pod) = []) as ->.
  { unfold newVirtualPodForEdgeDevice in Hn. destruct (peripheral_ctrs _); [|done]. by injection Hn as <-. }
  rewrite bool_decide_true by done. cbn [negb]. induction (sp_Containers (pod_Spec pod)) as [|c l IH]; [done|]. cbn. rewrite IH.
  unfold check_ctr. rewrite !same_words_refl, !Bool.eqb_reflx, !bool_decide_true by done. done.
Qed.

(** When ensureVirtualPod succeeds, the pod there is the one that was found and stands for the device, or the one made for it, after the
    one found was deleted; and the pod made stands for the device and passes the check, so that it is not made again. *)
Lemma ensureVirtualPod_correct device old del cre cs :
  ensureVirtualPod device old del cre = (cs, None) →
  ∃ pod, newVirtualPodForEdgeDevice device = Ok pod ∧ stands_for device pod ∧ ensureVirtualPod device (Some pod) del cre = ([], None) ∧
    ((∃ o, old = Some o ∧ cs = [] ∧ stands_for device o) ∨ (old = None ∧ cs = [CreatePod pod]) ∨
     (∃ o, old = Some o ∧ checkVirtualPodUpToDate pod o = false ∧ cs = [DeletePod (ed_Name device); CreatePod pod])).
Proof.
  unfold ensureVirtualPod. destruct (newVirtualPodForEdgeDevice device) as [pod|] eqn:Hn; [|done]. pose proof (new_checked _ _ Hn) as Hc. intros Hr.
  exists pod. split; [done|]. split; [by eapply checked_stands_for|]. split; [by rewrite Hc|].
  destruct old as [o|]; [|right; left; destruct cre; [done|]; by injection Hr as <-].
  destruct (checkVirtualPodUpToDate pod o) eqn:Ho; [injection Hr as <-; left; exists o; split_and!; [done|done|by eapply checked_stands_for]|].
  right; right. exists o. split; [done|]. split; [done|].
  destruct del as [e|]; [destruct (ke_NotFound e); [|done]|]; destruct cre; try done; by injection Hr as <-.
Qed.

(** The requests of the reconcilers: nothing to do without a device, else the pod is ensured. *)
Definition onVirtualPodEnsueRequested (getEdgeDeviceObject : string → option EdgeDevice) (old : option Pod) (delete : option KubeError)
    (create : option string) (name : string) : list Call * Result :=
  match getEdgeDeviceObject name with
  | None => ([], RNil)
  | Some ed => let '(cs, r) := ensureVirtualPod ed old delete create in (cs, match r with Some e => RErr e | None => RNil end)
  end.
Definition onSysPodDeleted (getEdgeDeviceObject : string → option EdgeDevice) (old : option Pod) (delete : option KubeError)
    (create : option string) (pod : Pod) : list Call * Result :=
  onVirtualPodEnsueRequested getEdgeDeviceObject old delete create (pod_Name pod).
Definition onSysPodDeleting (getEdgeDeviceObject : string → option EdgeDevice) (delete : option string) (pod : Pod) : list Call * Result :=
  match getEdgeDeviceObject (pod_Name pod) with
  | None => ([], RNil)
  | Some _ => ([DeletePod (pod_Name pod)], match delete with Some e => RErr e | None => RNext ActionCleanup 0 end)
  end.
(** The names after the first "/" of the keys of the store. *)
Definition getVirtualPodNames (keys : list string) : list string :=
  Rules.List (list_to_set (omap (λ k, snd <$> GoNet.cut_at GoNet.slash k) keys)).
End Pods.
End VirtualPods.

(** ** The status of the virtual pod once its device is online

    updateVirtualPodToRunningPhase of pod/respod_virtual.go, and the function preparePodOptions gives it to write the status. The conditions
    of the pod are not fields of the model's PodStatus. *)
Module VirtualStatus.
Import VirtualPods.
Definition VirtualImageIDHost : string := "virtualimage://host".
Definition VirtualImageIDPeripheral : string := "virtualimage://peripheral".
Definition VirtualContainerIDHost : string := "virtualcontainer://host".
Definition VirtualContainerIDPeripheral : string := "virtualcontainer://peripheral".
Definition running_ctr (now : Z) (c : Container) : ContainerStatus :=
  let host := bool_decide (ctr_Name c = VirtualContainerNameHost) in
  {| cs_Name := ctr_Name c; cs_State := {| cst_Waiting := None; cst_Running := Some now; cst_Terminated := None |}; cs_Ready := true;
     cs_Image := if host then VirtualImageNameHost else VirtualImageNamePeripheral;
     cs_ImageID := if host then VirtualImageIDHost else VirtualImageIDPeripheral;
     cs_ContainerID := if host then VirtualContainerIDHost else VirtualContainerIDPeripheral |}.
Definition running_status (now : Z) (pod : Pod) : PodStatus :=
  {| ps_Phase := PodRunning; ps_HostIP := ""; ps_PodIP := ""; ps_PodIPs := []; ps_InitContainerStatuses := [];
     ps_ContainerStatuses := running_ctr now <$> sp_Containers (pod_Spec pod) |}.

Section Status.
(** The store of the informer and the update of the status *)
Context {W : Type} (sysPod : W → option Pod) (UpdateStatus : Pod → W → W * option KubeError).
(** UpdateVirtualPodStatus repeats until it succeeds, the pod is not found or gone from the store; [attempts] bounds it. *)
Fixpoint retry (attempts : nat) (w : W) : outcome W :=
  match attempts with
  | O => Diverge
  | S attempts =>
      match sysPod w with
      | None => Ret w
      | Some po => match UpdateStatus po w with
                   | (w, None) => Ret w
                   | (w, Some e) => if ke_NotFound e then Ret w else retry attempts w
                   end
      end
  end.
Definition UpdateVirtualPodStatus (attempts : nat) (po : Pod) (w : W) : outcome W :=
  match UpdateStatus po w with (w, None) => Ret w | (w, Some _) => retry attempts w end.
(** [virtualPod]: GetVirtualPod gives an empty pod when there is none. *)
Definition updateVirtualPodToRunningPhase (attempts : nat) (virtualPod : Pod) (now : Z) (w : W) : outcome W :=
  UpdateVirtualPodStatus attempts (set_status (running_status now virtualPod) virtualPod) w.

(** The status is written at once, or a retry writes the pod of the store, as it is there: the new status is lost. *)
Lemma running_status_written attempts pod now w w' :
  updateVirtualPodToRunningPhase attempts pod now w = Ret w' →
  UpdateStatus (set_status (running_status now pod) pod) w = (w', None) ∨
  (∃ w1 e, UpdateStatus (set_status (running_status now pod) pod) w = (w1, Some e) ∧
     ((∃ w2, sysPod w2 = None ∧ w' = w2) ∨ ∃ w2 po, sysPod w2 = Some po ∧ (UpdateStatus po w2).1 = w')).
Proof.
  unfold updateVirtualPodToRunningPhase, UpdateVirtualPodStatus. destruct (UpdateStatus _ w) as [w1 [e|] ]; [|intros [= <-]; by left].
  intros Hr. right. exists w1, e. split; [done|]. revert w1 Hr. induction attempts as [|n IH]; intros w1; cbn [retry]; [done|].
  destruct (sysPod w1) as [po|] eqn:Es; [|intros [= <-]; left; by exists w1].
  destruct (UpdateStatus po w1) as [w2 [e'|] ] eqn:Eu; [|intros [= <-]; right; exists w1, po; by rewrite Eu].
  destruct (ke_NotFound e'); [intros [= <-]; right; exists w1, po; by rewrite Eu|apply IH].
Qed.
End Status.
End VirtualStatus.

(** ** Examples *)
Module PodControllerExamples.
Import TenantPods.

Definition dev (name : string) : option EdgeDevice := if bool_decide (name = "edge") then Some (Cluster.Sample.device "edge" ∅ [] []) else None.
Definition web : Pod := RbacExamples.on_node "edge" "web".
(** The pod is added and deleted: its name stays, and its deletion asks for no roles. *)
Example deleted_name_stays :
  run dev (λ _, true) None None [EAdded web; EUpdated web web; EDeleting web; EDeleted web] {| tenantPods := ∅; calls := [] |} =
  {| tenantPods := {["web"]};
     calls := [RequestRoleEnsure; SchedulePodJob "edge" ActionUpdate (Some web) web; SchedulePodJob "edge" ActionDelete None web;
               SchedulePodJob "edge" ActionCleanup None web] |}.
Proof. vm_compute. reflexivity. Qed.

Import VirtualPods.
Definition lamp : EdgeDevice :=
  let d := Cluster.Sample.device "edge" ∅ [] [] in d.
Definition lamp_pod : Pod := match newVirtualPodForEdgeDevice "sys" (λ _, []) lamp with Ok p => p | Err _ => web end.
Example ensureVirtualPod_correct_witness :
  ∃ pod, newVirtualPodForEdgeDevice "sys" (λ _, []) lamp = Ok pod ∧ stands_for lamp pod ∧
    ensureVirtualPod "sys" (λ _, []) lamp (Some pod) None None = ([], None) ∧
    ((∃ o, Some web = Some o ∧ [DeletePod "edge"; CreatePod lamp_pod] = [] ∧ stands_for lamp o) ∨
     (Some web = None ∧ [DeletePod "edge"; CreatePod lamp_pod] = [CreatePod pod]) ∨
     (∃ o, Some web = Some o ∧ checkVirtualPodUpToDate pod o = false ∧
        [DeletePod "edge"; CreatePod lamp_pod] = [DeletePod (ed_Name lamp); CreatePod pod])).
Proof. apply (ensureVirtualPod_correct "sys" (λ _, []) lamp (Some web) None None [DeletePod "edge"; CreatePod lamp_pod]). vm_compute. reflexivity. Defined.

(** A conflict in the update: the device is online and its virtual pod stays as it was. *)
Import VirtualStatus.
Definition conflict_once (po : Pod) (w : Pod * bool) : (Pod * bool) * option KubeError :=
  if w.2 then ((w.1, false), Some {| ke_NotFound := false; ke_Conflict := true; ke_Text := "conflict" |}) else ((po, false), None).
Example running_status_lost :
  updateVirtualPodToRunningPhase (λ w : Pod * bool, Some w.1) conflict_once 1 lamp_pod 5 (lamp_pod, true) = Ret (lamp_pod, false) ∧
  ps_Phase (pod_Status lamp_pod) = "" ∧
  updateVirtualPodToRunningPhase (λ w : Pod * bool, Some w.1) conflict_once 1 lamp_pod 5 (lamp_pod, false) =
    Ret (set_status (running_status 5 lamp_pod) lamp_pod, false).
Proof. by vm_compute. Qed.
End PodControllerExamples.
