(* ===== verification/CloudProvider.v ===== *)
(** * The cloud provider

    src/pkg/controller/edgedevice/cloudprovider.go: what the controller answers to the cloud controller manager, which takes every device
    of the system namespace for an instance. An answer is Go's pair of a value and an error. *)
From S2P Require Import Prelude GoNet Api Cluster NodeObject.
Open Scope Z_scope.

(** ** strings.SplitN(s, sep, 2), when it finds the separator *)
Fixpoint after (p s : string) : option string :=
  match p, s with
  | EmptyString, _ => Some s
  | String a p, String b s => if decide (a = b) then after p s else None
  | _, _ => None
  end.
Fixpoint Cut (sep s : string) : option (string * string) :=
  match after sep s with
  | Some r => Some ("", r)
  | None => match s with EmptyString => None | String a s => '(l, r) ← Cut sep s; Some (String a l, r) end
  end.

Lemma after_Some p s r : after p s = Some r ↔ s = p +:+ r.
Proof.
  revert s. induction p as [|a p IH]; intros s; cbn [after]; [by split; [intros [= ->]|intros ->]|].
  rewrite str_app_cons. destruct s as [|b s]; [done|]. case_decide as Hab; [subst; rewrite IH; split; congruence|].
  split; [done|]. intros [= ? _]. by destruct Hab.
Qed.
Lemma Cut_Some sep s l r : Cut sep s = Some (l, r) → s = l +:+ sep +:+ r.
Proof.
  revert l. induction s as [|a s IH]; intros l; cbn [Cut].
  - destruct (after sep "") eqn:Ha; [|done]. intros [= <- <-]. by apply after_Some in Ha.
  - destruct (after sep (String a s)) eqn:Ha; [intros [= <- <-]; by apply after_Some in Ha|].
    destruct (Cut sep s) as [ [l' r']|]; cbn; [|done]. intros [= <- <-]. rewrite str_app_cons. f_equal. by apply IH.
Qed.

(** ** The methods of the interface *)
Definition LabelInstanceType : string := "beta.kubernetes.io/instance-type".
Definition LabelInstanceTypeStable : string := "node.kubernetes.io/instance-type".
Definition LabelZoneFailureDomain : string := "failure-domain.beta.kubernetes.io/zone".
Definition LabelZoneFailureDomainStable : string := "topology.kubernetes.io/zone".
Definition LabelZoneRegion : string := "failure-domain.beta.kubernetes.io/region".
Definition LabelZoneRegionStable : string := "topology.kubernetes.io/region".

Module Provider.
Section Provider.
Context {W : Type} `{Cluster W} (c : Config).
(** cloudprovider.NotImplemented *)
Context (NotImplemented : string).

Definition ProviderName : string := "aranya".
Definition getNodeProviderID (namespace name : string) : string := ProviderName +:+ "://" +:+ namespace +:+ "/" +:+ name.
Definition getEdgeDeviceNameFromProviderID (providerID : string) : result string :=
  match Cut "://" providerID with
  | None => Err ("invalid providerID " +:+ quote providerID)
  | Some (p0, p1) =>
      if decide (p0 = ProviderName) then
        match cut_at slash p1 with
        | None => Err ("invalid aranya providerID " +:+ quote p1)
        | Some (ns, name) => if decide (ns = SysNS c) then Ok name else Err "not managed by this aranya provider"
        end
      else Err ("unsupported providerID " +:+ quote providerID)
  end.

Definition no_device (name : string) : string := "no such edge device for node name " +:+ quote name.

Definition InstanceExists (name : string) (w : W) : bool * option string :=
  match getEdgeDeviceObject name w with None => (true, Some (no_device name)) | Some _ => (true, None) end.
Definition InstanceShutdown (name : string) (w : W) : bool * option string := (false, None).

Definition Addresses := list (string * string).
Definition NodeAddresses (name : string) (w : W) : result Addresses :=
  match getEdgeDeviceObject name w with None => Err (no_device name) | Some _ => Ok (hostNodeAddresses c) end.
Definition InstanceID (name : string) (w : W) : result string :=
  match getEdgeDeviceObject name w with
  | None => Err (no_device name)
  | Some ed => Ok (getNodeProviderID (ed_Namespace ed) (ed_Name ed))
  end.

(** The annotation for the node under the stable key, else that of the device itself under the old key; nothing without annotations for
    the node. *)
Definition annotation (ed : EdgeDevice) (stable old : string) : string :=
  let anns := default ∅ (spec_NodeAnnotations (ed_Spec ed)) in
  if decide (anns = ∅) then ""
  else match anns !! stable with
       | Some v => v
       | None => default "" (ed_Annotations ed !! old)
       end.
Definition InstanceType (name : string) (w : W) : result string :=
  match getEdgeDeviceObject name w with
  | None => Err (no_device name)
  | Some ed => Ok (annotation ed LabelInstanceTypeStable LabelInstanceType)
  end.
Record Zone := { FailureDomain : string; Region : string }.
Definition GetZoneByNodeName (name : string) (w : W) : result Zone :=
  match getEdgeDeviceObject name w with
  | None => Err (no_device name)
  | Some ed => Ok {| FailureDomain := annotation ed LabelZoneFailureDomainStable LabelZoneFailureDomain;
                     Region := annotation ed LabelZoneRegionStable LabelZoneRegion |}
  end.

Record Metadata := { ProviderID : string; Type_ : string; Addrs : Addresses }.
Definition InstanceMetadata (name : string) (w : W) : result Metadata :=
  addrs ← NodeAddresses name w;
  ty ← InstanceType name w;
  Ok {| ProviderID := getNodeProviderID "" name; Type_ := ty; Addrs := addrs |}.

(** By provider ID *)
Definition NodeAddressesByProviderID (id : string) (w : W) : result Addresses :=
  name ← getEdgeDeviceNameFromProviderID id; NodeAddresses name w.
Definition InstanceTypeByProviderID (id : string) (w : W) : result string :=
  match getEdgeDeviceNameFromProviderID id with
  | Err e => Err ("failed to get instance type from providerID " +:+ quote id +:+ ": " +:+ e)
  | Ok name => InstanceType name w
  end.
Definition InstanceExistsByProviderID (id : string) (w : W) : bool * option string :=
  match getEdgeDeviceNameFromProviderID id with
  | Err e => (true, Some e)
  | Ok name => (bool_decide (is_Some (getEdgeDeviceObject name w)), None)
  end.
Definition InstanceShutdownByProviderID (id : string) (w : W) : bool * option string :=
  match getEdgeDeviceNameFromProviderID id with Err e => (false, Some e) | Ok _ => (false, None) end.
Definition GetZoneByProviderID (id : string) (w : W) : result Zone :=
  name ← getEdgeDeviceNameFromProviderID id; GetZoneByNodeName name w.

(** The interfaces the controller claims to implement, and the methods of those it does not *)
Definition LoadBalancer : bool := false.
Definition InstancesV2 : bool := true.
Definition Instances : bool := true.
Definition Zones : bool := false.
Definition Clusters : bool := false.
Definition Routes : bool := false.
Definition HasClusterID : bool := false.
Definition CurrentNodeName (hostname : string) : result string := Ok (hostNodeName c).
Definition GetLoadBalancer : bool * option string := (false, Some NotImplemented).
Definition EnsureLoadBalancer : option string := Some NotImplemented.
Definition UpdateLoadBalancer : option string := Some NotImplemented.
Definition EnsureLoadBalancerDeleted : option string := Some NotImplemented.
Definition AddSSHKeyToAllInstances : option string := Some NotImplemented.
Definition GetZone : result Zone := Err NotImplemented.
Definition ListClusters : result (list string) := Err NotImplemented.
Definition Master : result string := Err NotImplemented.
Definition ListRoutes : option string := Some NotImplemented.
Definition CreateRoute : option string := Some NotImplemented.
Definition DeleteRoute : option string := Some NotImplemented.

(** ** Provider IDs *)

Lemma getNodeProviderID_Cut ns name : Cut "://" (getNodeProviderID ns name) = Some (ProviderName, ns +:+ "/" +:+ name).
Proof. done. Qed.

Lemma name_of_provider_id id name :
  has_char slash (SysNS c) = false →
  getEdgeDeviceNameFromProviderID id = Ok name ↔ id = getNodeProviderID (SysNS c) name.
Proof.
  intros Hns. unfold getEdgeDeviceNameFromProviderID. split.
  - destruct (Cut "://" id) as [ [p0 p1]|] eqn:Hc; [|done]. apply Cut_Some in Hc as ->. case_decide; [subst p0|done].
    destruct (cut_at slash p1) as [ [ns nm]|] eqn:Hs; [|done]. case_decide; [subst ns|done]. intros [= ->].
    apply cut_at_Some in Hs as [-> _]. done.
  - intros ->. rewrite getNodeProviderID_Cut. rewrite decide_True by done.
    change ("/" +:+ name) with (String slash name). rewrite cut_at_prefix by done. by rewrite decide_True.
Qed.

(** The ID of an instance (InstanceID) names the device again, no other text does, and every question asked by that ID is answered
    like the one asked by name; an instance that is gone is reported as such only when it is asked for by ID. *)
Lemma by_id_as_by_name name ed w :
  has_char slash (SysNS c) = false →
  getEdgeDeviceObject name w = Some ed → ed_Name ed = name → ed_Namespace ed = SysNS c →
  ∃ id, InstanceID name w = Ok id ∧ (∀ id' name', getEdgeDeviceNameFromProviderID id' = Ok name' → name' = name → id' = id) ∧
    NodeAddressesByProviderID id w = NodeAddresses name w ∧ InstanceTypeByProviderID id w = InstanceType name w ∧
    GetZoneByProviderID id w = GetZoneByNodeName name w ∧ InstanceExistsByProviderID id w = InstanceExists name w ∧
    InstanceShutdownByProviderID id w = InstanceShutdown name w ∧
    ∀ w', getEdgeDeviceObject name w' = None →
      InstanceExistsByProviderID id w' = (false, None) ∧ (InstanceExists name w').1 = true ∧ is_Some (InstanceExists name w').2.
Proof.
  intros Hns Hed <- Hn. exists (getNodeProviderID (SysNS c) (ed_Name ed)).
  pose proof (proj2 (name_of_provider_id _ (ed_Name ed) Hns) eq_refl) as Hid.
  unfold InstanceID, NodeAddressesByProviderID, InstanceTypeByProviderID, GetZoneByProviderID, InstanceExistsByProviderID,
    InstanceShutdownByProviderID, InstanceExists. rewrite Hid, Hed, Hn. split_and!; try done.
  - intros id' name' Hi ->. by apply name_of_provider_id in Hi.
  - by intros w' ->.
Qed.

(** The ID in the metadata of an instance has no namespace: no question by that ID is answered. *)
Lemma metadata_id_refused name w md :
  SysNS c ≠ "" →
  InstanceMetadata name w = Ok md → getEdgeDeviceNameFromProviderID (ProviderID md) = Err "not managed by this aranya provider".
Proof.
  intros Hns. unfold InstanceMetadata. destruct (NodeAddresses name w); cbn [mbind result_bind]; [|done].
  destruct (InstanceType name w); cbn [mbind result_bind]; [|done]. intros [= <-]. cbn [ProviderID].
  unfold getEdgeDeviceNameFromProviderID. rewrite getNodeProviderID_Cut, decide_True by done.
  change ("" +:+ "/" +:+ name) with (String slash name). cbn [cut_at]. rewrite decide_True by done. by rewrite decide_False.
Qed.
End Provider.
End Provider.

Module CloudProviderExamples.
Import Provider Sample.

Definition typed (anns : option (gmap string string)) (own : gmap string string) : EdgeDevice :=
  let ed := device "dev" ∅ [] [] in
  {| ed_Name := ed_Name ed; ed_Namespace := ed_Namespace ed; ed_ClusterName := ""; ed_Annotations := own;
     ed_Spec := {| spec_Connectivity := spec_Connectivity (ed_Spec ed); spec_NodeLabels := ∅; spec_NodeAnnotations := anns;
                   spec_NodeTaints := []; spec_FieldHooks := []; spec_ClusterRolePermissions := ∅; spec_PodIPv4CIDR := ""; spec_PodIPv6CIDR := "";
                   spec_RolePermissions := ∅; spec_VirtualPodRolePermissions := ∅; spec_NodeForceSyncInterval := None;
                   spec_NodeMetrics := None; spec_PodForceSyncInterval := None; spec_PodMetrics := None; spec_PodDNS := None;
                   spec_PodAllocatable := 0; spec_StorageEnabled := false; spec_NetworkEnabled := false; spec_Mesh := mesh;
                   spec_Peripherals := []; spec_MetricsReporters := [] |};
     ed_Status := ed_Status ed |}.
Definition w0 : World := world [] [] (device "dev" ∅ [] []) (vnode (Caches.NodeCache.newNodeCache ∅ ∅)).

Lemma by_id_as_by_name_witness :
  InstanceID "dev" w0 = Ok "aranya://sys/dev" ∧
  ∃ id, InstanceID "dev" w0 = Ok id ∧ InstanceExistsByProviderID config id w0 = InstanceExists "dev" w0.
Proof.
  split; [by vm_compute|].
  destruct (by_id_as_by_name config "dev" (device "dev" ∅ [] []) w0) as (id & H1 & _ & _ & _ & _ & H2 & _); [by vm_compute..|].
  by exists id.
Defined.

(** The type of an instance under the old key is read from the annotations of the device, not from those for its node. *)
Example old_key_of_node :
  annotation (typed (Some {[LabelInstanceType := "small"]}) ∅) LabelInstanceTypeStable LabelInstanceType = "" ∧
  annotation (typed (Some {["x" := "y"]}) {[LabelInstanceType := "small"]}) LabelInstanceTypeStable LabelInstanceType = "small" ∧
  annotation (typed None {[LabelInstanceType := "small"]}) LabelInstanceTypeStable LabelInstanceType = "".
Proof. by vm_compute. Qed.
End CloudProviderExamples.
