(* ===== verification/NodeCert.v ===== *)
(** * Node certificates

    src/pkg/controller/edgedevice/node_cert.go and node_cert_util.go: the serving certificate of the kubelet of a virtual node. A secret
    holds the key, the signing request and the certificate; the certificate comes from a CertificateSigningRequest of the cluster. Key
    generation, the formats of crypto/x509 and encoding/pem and the API server are arguments; bytes are strings. *)
From S2P Require Import Prelude GoNet Api Cluster.
Open Scope Z_scope.

(** ** TLS versions and cipher suites *)
Module TLSOptions.

Definition upper (a : Ascii.ascii) : Ascii.ascii :=
  let n := Ascii.nat_of_ascii a in if decide (97 <= n <= 122)%nat then Ascii.ascii_of_nat (n - 32) else a.
(** strings.ToUpper, of ASCII text *)
Fixpoint ToUpper (s : string) : string := match s with EmptyString => EmptyString | String a s => String (upper a) (ToUpper s) end.

Definition VersionTLS10 : Z := 769.
Definition VersionTLS11 : Z := 770.
Definition VersionTLS12 : Z := 771.
Definition VersionTLS13 : Z := 772.
Definition versions : gmap string Z :=
  <["TLS10" := VersionTLS10]> (<["TLS11" := VersionTLS11]> (<["TLS12" := VersionTLS12]> {["TLS13" := VersionTLS13]})).
Definition getTLSVersion (v : string) (def : Z) : result Z :=
  if decide (v = "") then Ok def
  else match versions !! ToUpper v with Some r => Ok r | None => Err ("unsupported tls version " +:+ quote v) end.

(** The suites known (tlshelper.CipherSuites) are an argument; the error is go.uber.org/multierr's list of errors, [] for nil. *)
Definition getCipherSuites (known : gmap string Z) (cs : list string) : list Z * list string :=
  (omap (λ s, known !! s) cs,
   omap (λ s, match known !! s with Some _ => None | None => Some ("unsupported cipher suite " +:+ quote s) end) cs).

Record Config := { MinTLSVersion : string; MaxTLSVersion : string; CipherSuites : list string }.
(** What init sets: certMinTLSVersion, certMaxTLSVersion, certCipherSuites (nil is []) *)
Definition init (known : gmap string Z) (config : Config) : result (Z * Z * list Z) :=
  min ← getTLSVersion (MinTLSVersion config) VersionTLS12;
  max ← getTLSVersion (MinTLSVersion config) VersionTLS13;
  match getCipherSuites known (CipherSuites config) with
  | (suites, []) => Ok (min, max, suites)
  | (_, errs) => Err (join "; " errs)
  end.

Lemma getCipherSuites_spec known cs :
  (getCipherSuites known cs).2 = [] ↔ ∀ s, s ∈ cs → is_Some (known !! s).
Proof.
  cbn. induction cs as [|s cs IH]; [split; [by intros _ ? ?%elem_of_nil|done]|]. cbn [omap list_omap].
  destruct (known !! s) as [v|] eqn:Hs.
  - rewrite IH. split; [intros Hall x [->|Hx]%elem_of_cons; eauto|intros Hall x Hx; apply Hall; by right].
  - split; [done|]. intros Hall. destruct (Hall s ltac:(left)) as [? Hx]. by rewrite Hs in Hx.
Qed.

(** The versions accepted are between TLS 1.0 and 1.3, the least is never above the greatest, and the suites are the known ones. *)
Lemma init_ordered known config min max suites :
  init known config = Ok (min, max, suites) →
  VersionTLS10 <= min <= max ∧ max <= VersionTLS13 ∧ length suites = length (CipherSuites config).
Proof.
  unfold init, getTLSVersion. intros Hi.
  assert (∀ v r, versions !! v = Some r → VersionTLS10 <= r <= VersionTLS13) as Hv.
  { intros v r Hr. assert (map_Forall (λ _ r, VersionTLS10 <= r <= VersionTLS13) versions) as Hall
      by (refine (bool_decide_unpack _ _); vm_compute; exact I). by apply (Hall v). }
  pose proof (getCipherSuites_spec known (CipherSuites config)) as Hcs.
  assert (length suites = length (CipherSuites config) ∧ VersionTLS10 <= min <= max ∧ max <= VersionTLS13) as (? & ? & ?); [|done].
  destruct (getCipherSuites known (CipherSuites config)) as [ss errs] eqn:Hg.
  assert (errs = [] → length ss = length (CipherSuites config)) as Hlen.
  { intros ->. cbn [snd] in Hcs. destruct Hcs as [Hcs _]. specialize (Hcs eq_refl). unfold getCipherSuites in Hg. injection Hg as <- _.
    clear -Hcs. revert Hcs. induction (CipherSuites config) as [|s cs IH]; intros Hall; [done|]. cbn [omap list_omap].
    destruct (Hall s ltac:(left)) as [v ->]. cbn [length]. f_equal. apply IH. intros x Hx. apply Hall. by right. }
  case_decide; cbn [mbind result_bind] in Hi.
  - destruct errs; [|done]. simplify_eq. split; [by apply Hlen|]. unfold VersionTLS10, VersionTLS12, VersionTLS13. lia.
  - destruct (versions !! _) as [r|] eqn:Hr; cbn [mbind result_bind] in Hi; [|done]. destruct errs; [|done]. simplify_eq.
    split; [by apply Hlen|]. apply Hv in Hr. lia.
Qed.
(** MaxTLSVersion is not read: with a least version set, that is the only version. *)
Lemma max_is_min known config min max suites :
  MinTLSVersion config ≠ "" → init known config = Ok (min, max, suites) → max = min.
Proof.
  intros Hm. unfold init, getTLSVersion. rewrite !decide_False by done. destruct (versions !! _); cbn [mbind result_bind]; [|done].
  destruct (getCipherSuites _ _) as [ss [|e errs] ]; [|done]. by intros [= <- <- _].
Qed.
End TLSOptions.

(** ** Keys and requests in PEM *)
Module PEM.
Section PEM.
Record Block := { b_Type : string; b_Headers : gmap string string; b_Bytes : string }.
(** What ParsePKCS8PrivateKey answers, as the type switch tells the keys apart *)
Inductive PrivateKey := KeyRSA (k : string) | KeyECDSA (k : string) | KeyEd25519 (k : string) | KeyOther.
Context (Decode : string → option Block) (Contains : string → string → bool)
  (DecryptPEMBlock : Block → string → result string)
  (ParsePKCS8PrivateKey : string → result PrivateKey) (ParsePKCS1PrivateKey : string → result string) (ParseECPrivateKey : string → result string).
(** asn1.Unmarshal of a oneAsymmetricKey: whether its algorithm is Ed25519, the bytes of the key, and the rest; of a curvePrivateKey *)
Context (Unmarshal_asym : string → result (bool * string * string)) (Unmarshal_seed : string → result (string * string))
  (NewKeyFromSeed : string → string).

Definition parseEd25519PrivateKey (der : string) : result string :=
  '(ed25519, key, rest) ← Unmarshal_asym der;
  if negb (bool_decide (rest = "")) then Err "oneAsymmetricKey too long"
  else if negb ed25519 then Err "incorrect ed25519 object identifier"
  else '(seed, rest) ← Unmarshal_seed key;
       if negb (bool_decide (rest = "")) then Err "curvePrivateKey too long" else Ok (NewKeyFromSeed seed).

Definition key_der (p : Block) (password : string) : result string :=
  match b_Headers p !! "Proc-Type" with
  | Some procType =>
      if Contains procType "ENCRYPTED" then
        if decide (password = "") then Err "private key password not provided"
        else wrap_err "failed to decrypt pem block: " (DecryptPEMBlock p password)
      else Ok (b_Bytes p)
  | None => Ok (b_Bytes p)
  end.
Definition parsePEMEncodedPrivateKey (keyPEM password : string) : result PrivateKey :=
  match Decode keyPEM with
  | None => Err "no private key block found"
  | Some p =>
      keyDER ← key_der p password;
      generalKey ← match ParsePKCS8PrivateKey keyDER with
                   | Ok k => Ok k
                   | Err _ => match ParsePKCS1PrivateKey keyDER with
                              | Ok k => Ok (KeyRSA k)
                              | Err _ => match ParseECPrivateKey keyDER with
                                         | Ok k => Ok (KeyECDSA k)
                                         | Err _ => match parseEd25519PrivateKey keyDER with
                                                    | Ok k => Ok (KeyEd25519 k)
                                                    | Err _ => Err "failed to parse private key"
                                                    end
                                         end
                              end
                   end;
      match generalKey with KeyOther => Err "failed to parse private key" | _ => Ok generalKey end
  end.

Context {CSR : Type} (TrimSpace : string → string) (ParseCertificateRequest : string → result CSR).
Definition parsePEMEncodedCSR (text : string) : result CSR :=
  let text := TrimSpace text in
  match Decode text with
  | Some p =>
      if decide (b_Type p ≠ "NEW CERTIFICATE REQUEST" ∧ b_Type p ≠ "CERTIFICATE REQUEST") then Err "unexpected non csr pem block"
      else ParseCertificateRequest (b_Bytes p)
  | None => ParseCertificateRequest text
  end.

(** A key that is read can sign; no key is read from an encrypted block without a password. *)
Lemma parsed_key keyPEM password k :
  parsePEMEncodedPrivateKey keyPEM password = Ok k →
  k ≠ KeyOther ∧ ∃ p, Decode keyPEM = Some p ∧
    (password = "" → ∀ t, b_Headers p !! "Proc-Type" = Some t → Contains t "ENCRYPTED" = false).
Proof.
  unfold parsePEMEncodedPrivateKey. destruct (Decode keyPEM) as [p|]; [|done]. intros Hp. split.
  - destruct (key_der p password); cbn [mbind result_bind] in Hp; [|done].
    destruct (match ParsePKCS8PrivateKey a with Ok k => _ | Err _ => _ end) as [k'|]; cbn [mbind result_bind] in Hp; [|done].
    by destruct k'; simplify_eq.
  - exists p. split; [done|]. intros -> t Ht. unfold key_der in Hp. rewrite Ht in Hp. destruct (Contains t "ENCRYPTED"); [|done].
    by rewrite decide_True in Hp.
Qed.
End PEM.
End PEM.

(** ** The certificate of a node *)

(** The secret of a certificate and the signing request of the cluster *)
Record CertSecret := { cs_Name : string; cs_Labels : gmap string string; cs_Type : string; cs_Data : gmap string string }.
Definition set_data (d : gmap string string) (s : CertSecret) : CertSecret :=
  {| cs_Name := cs_Name s; cs_Labels := cs_Labels s; cs_Type := cs_Type s; cs_Data := d |}.
Record CSRCondition := { cc_Type : string; cc_Status : string; cc_Reason : string; cc_Message : string }.
Record CSRObject := {
  co_Name : string; co_Request : string; co_SignerName : string; co_Groups : list string; co_Usages : list string;
  co_Conditions : list CSRCondition; co_Certificate : string
}.
Definition add_condition (x : CSRCondition) (r : CSRObject) : CSRObject :=
  {| co_Name := co_Name r; co_Request := co_Request r; co_SignerName := co_SignerName r; co_Groups := co_Groups r;
     co_Usages := co_Usages r; co_Conditions := co_Conditions r ++ [x]; co_Certificate := co_Certificate r |}.
Definition CertificateApproved : string := "Approved".
Definition CertificateDenied : string := "Denied".
Definition TLSPrivateKeyKey : string := "tls.key".
Definition TLSCertKey : string := "tls.crt".
Definition CSRKey : string := "tls.csr".
Definition LabelRoleValueCertificate : string := "NodeCertificate".

(** x509.CertificateRequest, and what x509.ParseCertificateRequest gives of the addresses in one *)
Record CertificateRequest := {
  CommonName : string; Country : string; Province : string; Locality : string; Organization : string; OrganizationalUnit : string;
  DNSNames : list string; IPAddresses : list (list Z)
}.
Record NodeCertSpec := { cert_Country : string; cert_State : string; cert_Locality : string; cert_OrgUnit : string }.

(** The API server for secrets and signing requests, the informer's store of secrets, whose objects are shared with its readers, and
    the random source of the process. *)
Class CertAPI (W Key : Type) := {
  secret_Store : string → W → option CertSecret;
  secret_Store_write : CertSecret → W → W;                          (** what a write to an object of the store does to it *)
  secret_Get : string → W → CertSecret + KubeError;
  secret_Create : CertSecret → W → W * option KubeError;
  secret_Update : CertSecret → W → W * option KubeError;
  secret_Delete : string → W → W * option KubeError;
  csr_Get : string → W → CSRObject + KubeError;
  csr_Create : CSRObject → W → W * (CSRObject + KubeError);
  csr_UpdateApproval : CSRObject → W → W * (CSRObject + KubeError);
  csr_Delete : string → W → W * option KubeError;
  GenerateKey : W → W * result Key;
  CreateCertificateRequest : CertificateRequest → Key → W → W * result string    (** generatePEMEncodedCSR *)
}.

Module Server.
Section Server.
Context {W Key Cert : Type} `{CertAPI W Key}.
(** PEM of a key and of a request, and a certificate with its key *)
Context (MarshalECPrivateKey : Key → result string) (parsePEMEncodedPrivateKey : string → result Key)
  (parsePEMEncodedCSR : string → result (list string * list (list Z))) (X509KeyPair : string → string → result Cert).
Context (certAutoApprove : bool).

Definition getCertSecretObject (name : string) (w : W) : (CertSecret * bool) + KubeError :=
  match secret_Store name w with
  | Some s => inl (s, true)
  | None => match secret_Get name w with inl s => inl (s, false) | inr e => inr e end
  end.

Definition dns_name (a : string * string) : option string :=
  if decide (a.1 ∈ ["Hostname"; "InternalDNS"; "ExternalDNS"]) then Some a.2 else None.
Definition ip_address (a : string * string) : option (list Z) :=
  if decide (a.1 ∈ ["InternalIP"; "ExternalIP"]) then Some (slice (ParseIP a.2)) else None.
Definition request (name : string) (info : NodeCertSpec) (addrs : list (string * string)) : CertificateRequest :=
  {| CommonName := "system:node:" +:+ name; Country := cert_Country info; Province := cert_State info; Locality := cert_Locality info;
     Organization := "system:nodes"; OrganizationalUnit := cert_OrgUnit info;
     DNSNames := omap dns_name addrs; IPAddresses := omap ip_address addrs |}.
Definition object_name (hostNodeName name : string) : string := "kubelet-tls." +:+ hostNodeName +:+ "." +:+ name.
(** Whether every address is one of the old request's: as the text of an address there or as a name. *)
Definition covers (old : list string * list (list Z)) (addrs : list (string * string)) : bool :=
  bool_decide (Forall (λ a, a.2 ∈ (ip_string <$> old.2) ++ old.1) addrs).

(** What the first part of the code has found out: the secret and whether it is the store's, needToGetKubeCSR, needToCreateKubeCSR,
    and the key, the request and the certificate. *)
Record Plan := {
  p_Secret : CertSecret; p_Shared : bool; p_GetKubeCSR : bool; p_CreateKubeCSR : bool; p_Key : string; p_CSR : string; p_Cert : string
}.

Definition new_secret (name csr key : string) : CertSecret :=
  {| cs_Name := name; cs_Labels := {[LabelRole := LabelRoleValueCertificate]}; cs_Type := "kubernetes.io/tls";
     cs_Data := <[CSRKey := csr]> (<[TLSPrivateKeyKey := key]> {[TLSCertKey := ""]}) |}.
Definition plan_new (objName : string) (certReq : CertificateRequest) (w : W) : W * result Plan :=
  match GenerateKey w with
  | (w, Err e) => (w, Err e)
  | (w, Ok privateKey) =>
      match CreateCertificateRequest certReq privateKey w with
      | (w, Err e) => (w, Err e)
      | (w, Ok csrBytes) =>
          match MarshalECPrivateKey privateKey with
          | Err e => (w, Err e)
          | Ok privateKeyBytes =>
              let s := new_secret objName csrBytes privateKeyBytes in
              match secret_Create s w with
              | (w, Some e) => (w, Err (ke_Text e))
              | (w, None) => (w, Ok {| p_Secret := s; p_Shared := false; p_GetKubeCSR := true; p_CreateKubeCSR := false;
                                       p_Key := privateKeyBytes; p_CSR := csrBytes; p_Cert := "" |})
              end
          end
      end
  end.

Definition plan_old (certReq : CertificateRequest) (addrs : list (string * string)) (s : CertSecret) (shared : bool) (w : W) : W * result Plan :=
  match cs_Data s !! TLSPrivateKeyKey with
  | None => (w, Err "invalid secret, missing private key")
  | Some privateKeyBytes =>
      let certBytes := default "" (cs_Data s !! TLSCertKey) in
      let needToGetKubeCSR := bool_decide (certBytes = "") in
      let plan get create csr := {| p_Secret := s; p_Shared := shared; p_GetKubeCSR := get; p_CreateKubeCSR := create;
                                    p_Key := privateKeyBytes; p_CSR := csr; p_Cert := certBytes |} in
      match cs_Data s !! CSRKey with
      | None => (w, if needToGetKubeCSR then Err "invalid secret, missing csr" else Ok (plan false false ""))
      | Some csrBytes =>
          match parsePEMEncodedCSR csrBytes with
          | Err e => (w, Err ("failed to parse old csr: " +:+ e))
          | Ok oldCSR =>
              if covers oldCSR addrs then (w, Ok (plan needToGetKubeCSR false csrBytes))
              else match parsePEMEncodedPrivateKey privateKeyBytes with
                   | Err e => (w, Err e)
                   | Ok key =>
                       match CreateCertificateRequest certReq key w with
                       | (w, Err e) => (w, Err e)
                       | (w, Ok csrBytes) => (w, Ok (plan true true csrBytes))
                       end
                   end
          end
      end
  end.

Definition new_csr (objName csr : string) : CSRObject :=
  {| co_Name := objName; co_Request := csr; co_SignerName := "kubernetes.io/kubelet-serving";
     co_Groups := ["system:nodes"; "system:authenticated"]; co_Usages := ["key encipherment"; "digital signature"; "server auth"];
     co_Conditions := []; co_Certificate := "" |}.
(** A delete whose error is fatal unless there was nothing to delete *)
Definition delete_csr (objName : string) (w : W) : W * option string :=
  match csr_Delete objName w with
  | (w, Some e) => (w, if ke_NotFound e then None else Some (ke_Text e))
  | (w, None) => (w, None)
  end.
(** The signing request of the cluster: the one there is, or a new one in its place. *)
Definition recreate_csr (objName csr : string) (w : W) : W * result CSRObject :=
  match delete_csr objName w with
  | (w, Some e) => (w, Err e)
  | (w, None) => match csr_Create (new_csr objName csr) w with
                 | (w, inl r) => (w, Ok r)
                 | (w, inr e) => (w, Err (ke_Text e))
                 end
  end.
Definition kube_csr (objName : string) (create : bool) (csr : string) (w : W) : W * result CSRObject :=
  match csr_Get objName w with
  | inr e => if ke_NotFound e then recreate_csr objName csr w else (w, Err (ke_Text e))
  | inl r => if create then recreate_csr objName csr w else (w, Ok r)
  end.
Definition decided (r : CSRObject) : bool :=
  existsb (λ x, bool_decide (cc_Type x ∈ [CertificateApproved; CertificateDenied])) (co_Conditions r).
Definition approval (name : string) : CSRCondition :=
  {| cc_Type := CertificateApproved; cc_Status := "True"; cc_Reason := "AranyaAutoApprove";
     cc_Message := "This CSR was approved by aranya controller for EdgeDevice " +:+ quote name |}.
Definition approve (name : string) (r : CSRObject) (w : W) : W * result CSRObject :=
  if negb (decided r) && certAutoApprove then
    match csr_UpdateApproval (add_condition (approval name) r) w with
    | (w, inl r) => (w, Ok r)
    | (w, inr e) => (w, Err (ke_Text e))
    end
  else (w, Ok r).

(** Under needToGetKubeCSR: the certificate. The secret of the store is written before the one of the API server. *)
Definition obtain (name objName : string) (p : Plan) (w : W) : W * result string :=
  match kube_csr objName (p_CreateKubeCSR p) (p_CSR p) w with
  | (w, Err e) => (w, Err e)
  | (w, Ok r) =>
      match approve name r w with
      | (w, Err e) => (w, Err e)
      | (w, Ok r) =>
          if decide (co_Certificate r = "") then (w, Err "certificate not issued")
          else
            let s := set_data (<[TLSCertKey := co_Certificate r]> (cs_Data (p_Secret p))) (p_Secret p) in
            let w := if p_Shared p then secret_Store_write s w else w in
            match secret_Update s w with
            | (w, Some e) => (w, Err (ke_Text e))
            | (w, None) => match delete_csr objName w with
                           | (w, Some e) => (w, Err e)
                           | (w, None) => (w, Ok (co_Certificate r))
                           end
            end
      end
  end.

Definition plan (name hostNodeName : string) (info : NodeCertSpec) (addrs : list (string * string)) (w : W) : W * result Plan :=
  let objName := object_name hostNodeName name in
  match getCertSecretObject objName w with
  | inl (s, shared) => plan_old (request name info addrs) addrs s shared w
  | inr e => if ke_NotFound e then plan_new objName (request name info addrs) w else (w, Err (ke_Text e))
  end.
Definition ensureKubeletServerCert (name hostNodeName : string) (info : NodeCertSpec) (addrs : list (string * string)) (w : W) : W * result Cert :=
  let objName := object_name hostNodeName name in
  match plan name hostNodeName info addrs w with
  | (w, Err e) => (w, Err e)
  | (w, Ok p) =>
      match (if p_GetKubeCSR p then obtain name objName p w else (w, Ok (p_Cert p))) with
      | (w, Err e) => (w, Err e)
      | (w, Ok certBytes) =>
          match X509KeyPair certBytes (p_Key p) with
          | Ok cert => (w, Ok cert)
          | Err e => ((secret_Delete objName w).1, Err e)
          end
      end
  end.
(** ** Where a certificate comes from *)

(** A request that is for all the addresses, as the text of an address or as a name *)
Definition names_all (csr : string) (addrs : list (string * string)) : Prop :=
  ∃ old, parsePEMEncodedCSR csr = Ok old ∧ ∀ a, a ∈ addrs → a.2 ∈ (ip_string <$> old.2) ++ old.1.
Lemma covers_all old addrs : covers old addrs = true → ∀ a, a ∈ addrs → a.2 ∈ (ip_string <$> old.2) ++ old.1.
Proof. unfold covers. rewrite bool_decide_eq_true, Forall_forall. done. Qed.
(** A secret with key and certificate whose request, if it has one, is for all the addresses. *)
Definition good_secret (addrs : list (string * string)) (s : CertSecret) (key crt : string) : Prop :=
  cs_Data s !! TLSPrivateKeyKey = Some key ∧ cs_Data s !! TLSCertKey = Some crt ∧ crt ≠ "" ∧
  ∀ csr, cs_Data s !! CSRKey = Some csr → names_all csr addrs.
(** The request for the certificate of a key: made from the names and addresses of the node with that key, or found, and for all of them. *)
Definition request_of (certReq : CertificateRequest) (addrs : list (string * string)) (key csr : string) : Prop :=
  (∃ k w0 w1, CreateCertificateRequest certReq k w0 = (w1, Ok csr) ∧ (MarshalECPrivateKey k = Ok key ∨ parsePEMEncodedPrivateKey key = Ok k)) ∨
  names_all csr addrs.

Lemma plan_old_Ok certReq addrs s shared w w' p :
  plan_old certReq addrs s shared w = (w', Ok p) →
  p_Secret p = s ∧ cs_Data s !! TLSPrivateKeyKey = Some (p_Key p) ∧
  (p_GetKubeCSR p = false → w' = w ∧ good_secret addrs s (p_Key p) (p_Cert p)) ∧
  (p_GetKubeCSR p = true → request_of certReq addrs (p_Key p) (p_CSR p)).
Proof.
  unfold plan_old, good_secret, request_of. destruct (cs_Data s !! TLSPrivateKeyKey) as [key|] eqn:Hk; [|done]. cbv zeta.
  assert (bool_decide (default "" (cs_Data s !! TLSCertKey) = "") = false →
    cs_Data s !! TLSCertKey = Some (default "" (cs_Data s !! TLSCertKey)) ∧ default "" (cs_Data s !! TLSCertKey) ≠ "") as Hcrt.
  { rewrite bool_decide_eq_false. by destruct (cs_Data s !! TLSCertKey). }
  destruct (cs_Data s !! CSRKey) as [csr|] eqn:Hcsr.
  - destruct (parsePEMEncodedCSR csr) as [old|] eqn:Hp; [|done]. destruct (covers old addrs) eqn:Hc.
    + pose proof (covers_all _ _ Hc) as Hall. assert (names_all csr addrs) as Hn by (by exists old).
      intros [= <- <-]. cbn. split_and!; [done|done| |by right]. intros Hg. destruct (Hcrt Hg). split_and!; try done. by intros ? [= <-].
    + destruct (parsePEMEncodedPrivateKey key) as [k|] eqn:Hkey; [|done]. destruct (CreateCertificateRequest _ _ _) as [w1 [csr'|?] ] eqn:Hr; [|done].
      intros [= <- <-]. cbn. split_and!; [done..|]. intros _. left. exists k, w, w1. auto.
  - destruct (bool_decide _) eqn:Hg; [done|]. intros [= <- <-]. cbn. split_and!; [done|done| |done]. intros _. destruct (Hcrt eq_refl). done.
Qed.
Lemma plan_new_Ok objName certReq addrs w w' p :
  plan_new objName certReq w = (w', Ok p) →
  p_GetKubeCSR p = true ∧ cs_Data (p_Secret p) !! TLSPrivateKeyKey = Some (p_Key p) ∧ request_of certReq addrs (p_Key p) (p_CSR p).
Proof.
  unfold plan_new. destruct (GenerateKey w) as [w1 [k|] ]; [|done]. destruct (CreateCertificateRequest _ _ _) as [w2 [csr|] ] eqn:Hr; [|done].
  destruct (MarshalECPrivateKey k) as [key|] eqn:Hk; [|done]. destruct (secret_Create _ _) as [w3 [?|] ]; [done|]. intros [= <- <-]. split; [done|].
  cbn [p_Secret p_Key p_CSR new_secret cs_Data]. rewrite lookup_insert_ne by done. rewrite lookup_insert_eq. split; [done|]. left. exists k, w1, w2. auto.
Qed.

(** Where the certificate is from: the signing request of the cluster, which was there or has been made of the bytes. *)
Definition issued_from (name objName csr crt : string) (w' : W) : Prop :=
  ∃ w0 w1 r r', (csr_Get objName w0 = inl r ∧ w1 = w0 ∨ csr_Create (new_csr objName csr) w0 = (w1, inl r)) ∧
    approve name r w1 = (w', Ok r') ∧ co_Certificate r' = crt.
Lemma kube_csr_Ok objName create csr w w' r :
  kube_csr objName create csr w = (w', Ok r) →
  (csr_Get objName w = inl r ∧ w' = w) ∨ ∃ w0, csr_Create (new_csr objName csr) w0 = (w', inl r).
Proof.
  assert (recreate_csr objName csr w = (w', Ok r) → ∃ w0, csr_Create (new_csr objName csr) w0 = (w', inl r)) as Hc.
  { unfold recreate_csr. destruct (delete_csr objName w) as [w1 [e|] ]; [done|]. destruct (csr_Create _ w1) as [w2 [r2|e] ] eqn:E; [|done].
    intros [= <- <-]. eauto. }
  unfold kube_csr. destruct (csr_Get objName w) as [r0|e]; [destruct create; [auto|]|destruct (ke_NotFound e); [auto|done] ].
  intros [= <- <-]. by left.
Qed.
Lemma obtain_Ok name objName p w w' crt :
  obtain name objName p w = (w', Ok crt) →
  crt ≠ "" ∧ ∃ w0 w1 w2 e, issued_from name objName (p_CSR p) crt w0 ∧
    secret_Update (set_data (<[TLSCertKey := crt]> (cs_Data (p_Secret p))) (p_Secret p)) w1 = (w2, None) ∧
    csr_Delete objName w2 = (w', e) ∧ (∀ x, e = Some x → ke_NotFound x = true).
Proof.
  unfold obtain. destruct (kube_csr _ _ _ _) as [w1 [r|] ] eqn:Hr; [|done]. destruct (approve _ _ _) as [w2 [r'|] ] eqn:Ha; [|done].
  assert (issued_from name objName (p_CSR p) (co_Certificate r') w2) as Hi
    by (destruct (kube_csr_Ok _ _ _ _ _ _ Hr) as [H1|[w0 H1] ]; [exists w, w1, r, r'|exists w0, w1, r, r']; auto).
  case_decide as Hne; [done|]. destruct (secret_Update _ _) as [w3 [?|] ] eqn:Hu; [done|]. unfold delete_csr.
  destruct (csr_Delete _ _) as [w4 [x|] ] eqn:Hd.
  - destruct (ke_NotFound x) eqn:Hx; [|done]. intros [= <- <-]. split; [done|]. eexists w2, _, w3, _. split_and!; [done|exact Hu|exact Hd|]. by intros ? [= <-].
  - intros [= <- <-]. split; [done|]. eexists w2, _, w3, _. split_and!; [done|exact Hu|exact Hd|done].
Qed.

(** What the request of a node asks for. *)
Lemma request_names name info addrs :
  CommonName (request name info addrs) = "system:node:" +:+ name ∧
  (∀ x, x ∈ DNSNames (request name info addrs) ↔ ∃ ty, ty ∈ ["Hostname"; "InternalDNS"; "ExternalDNS"] ∧ (ty, x) ∈ addrs) ∧
  (∀ x, x ∈ IPAddresses (request name info addrs) ↔ ∃ ty a, ty ∈ ["InternalIP"; "ExternalIP"] ∧ (ty, a) ∈ addrs ∧ x = slice (ParseIP a)).
Proof.
  cbn. unfold dns_name, ip_address. split_and!; [done|..]; intros x; rewrite list_elem_of_omap; split.
  - intros ([ty a] & Hin & Hx). case_decide; simplify_eq/=. eauto.
  - intros (ty & Hty & Hin). exists (ty, x). cbn. by rewrite decide_True.
  - intros ([ty a] & Hin & Hx). case_decide; simplify_eq/=. eauto.
  - intros (ty & a & Hty & Hin & ->). exists (ty, a). cbn. by rewrite decide_True.
Qed.

(** C19: where a certificate that is served comes from. It belongs to the key of the secret. Either the secret has both, and nothing is written:
    its request, if it has one, is for all addresses of the host. Or it is the one in the signing request of the cluster under the node's
    name, stored now in the secret next to its key, and the signing request is deleted: one that was there, taken as it is, or one made of a
    request for this key that is for all addresses of the host, by what it says or as it was made of them. The request the controller
    makes is for the node's name, with its names and addresses and no others. *)
Theorem served_certificate name hostNodeName info addrs w w' cert :
  ensureKubeletServerCert name hostNodeName info addrs w = (w', Ok cert) →
  let objName := object_name hostNodeName name in let certReq := request name info addrs in
  (∃ key crt, X509KeyPair crt key = Ok cert ∧ crt ≠ "" ∧
    ((w' = w ∧ ∃ s b, getCertSecretObject objName w = inl (s, b) ∧ good_secret addrs s key crt) ∨
     (∃ s csr w0 w1 w2 e, request_of certReq addrs key csr ∧ issued_from name objName csr crt w0 ∧
        cs_Data s !! TLSPrivateKeyKey = Some key ∧ cs_Data s !! TLSCertKey = Some crt ∧ secret_Update s w1 = (w2, None) ∧
        csr_Delete objName w2 = (w', e) ∧ (∀ x, e = Some x → ke_NotFound x = true)))) ∧
  CommonName certReq = "system:node:" +:+ name ∧
  (∀ x, x ∈ DNSNames certReq ↔ ∃ ty, ty ∈ ["Hostname"; "InternalDNS"; "ExternalDNS"] ∧ (ty, x) ∈ addrs) ∧
  (∀ x, x ∈ IPAddresses certReq ↔ ∃ ty a, ty ∈ ["InternalIP"; "ExternalIP"] ∧ (ty, a) ∈ addrs ∧ x = slice (ParseIP a)).
Proof.
  intros He. cbv zeta. split; [|apply request_names]. revert He.
  unfold ensureKubeletServerCert. destruct (plan _ _ _ _ w) as [w1 [p|] ] eqn:Hplan; [|done].
  assert (cs_Data (p_Secret p) !! TLSPrivateKeyKey = Some (p_Key p) ∧
          (p_GetKubeCSR p = true → request_of (request name info addrs) addrs (p_Key p) (p_CSR p)) ∧
          (p_GetKubeCSR p = false → w1 = w ∧ ∃ b, getCertSecretObject (object_name hostNodeName name) w = inl (p_Secret p, b) ∧
             good_secret addrs (p_Secret p) (p_Key p) (p_Cert p))) as (Hkey & Hreq & Hold).
  { unfold plan in Hplan. destruct (getCertSecretObject _ w) as [ [s b]|e] eqn:Hg.
    - apply plan_old_Ok in Hplan as (-> & Hk & Hx & Hy). split; [done|]. split; [done|]. intros Hf. destruct (Hx Hf). eauto.
    - destruct (ke_NotFound e); [|done]. apply (plan_new_Ok _ _ addrs) in Hplan as (Ht & Hk & Hr). split; [done|]. split; [done|congruence]. }
  destruct (p_GetKubeCSR p) eqn:Hget.
  - destruct (obtain _ _ _ _) as [w2 [crt|] ] eqn:Ho; [|done]. apply obtain_Ok in Ho as (Hne & w0 & w3 & w4 & e & Hi & Hu & Hd & He).
    destruct (X509KeyPair crt (p_Key p)) eqn:Hx; [|done]. intros [= <- <-]. exists (p_Key p), crt. split_and!; [done|done|]. right.
    exists (set_data (<[TLSCertKey := crt]> (cs_Data (p_Secret p))) (p_Secret p)), (p_CSR p), w0, w3, w4, e. cbn [set_data cs_Data].
    rewrite lookup_insert_ne, lookup_insert_eq by done. by split_and!; [apply Hreq|..].
  - destruct (X509KeyPair (p_Cert p) (p_Key p)) eqn:Hx; [|done]. intros [= <- <-]. destruct (Hold eq_refl) as [-> (b & Hs & Hgood)].
    exists (p_Key p), (p_Cert p). split_and!; [done|apply Hgood|]. left. eauto.
Qed.

(** ** After the addresses of the host have changed *)

(** What the API server does: a signing request is created without a certificate, an approval issues none (the signer works later), and
    neither they nor the deletion of a request touch the secrets; nor does signing with the key. *)
Class SignerLaws := {
  created_without_cert o w w' r : csr_Create o w = (w', inl r) → co_Certificate r = "";
  approved_without_cert o w w' r : csr_UpdateApproval o w = (w', inl r) → co_Certificate r = co_Certificate o;
  create_keeps o w n : getCertSecretObject n (csr_Create o w).1 = getCertSecretObject n w;
  approve_keeps o w n : getCertSecretObject n (csr_UpdateApproval o w).1 = getCertSecretObject n w;
  delete_keeps o w n : getCertSecretObject n (csr_Delete o w).1 = getCertSecretObject n w;
  request_keeps r k w n : getCertSecretObject n (CreateCertificateRequest r k w).1 = getCertSecretObject n w
}.
Context `{SignerLaws}.

(** The secret has a request that is not for all addresses. *)
Definition stale (objName : string) (addrs : list (string * string)) (w : W) : Prop :=
  ∃ s b csr old, getCertSecretObject objName w = inl (s, b) ∧ cs_Data s !! CSRKey = Some csr ∧ parsePEMEncodedCSR csr = Ok old ∧
    covers old addrs = false.

Lemma approve_facts name r w :
  (∀ n, getCertSecretObject n (approve name r w).1 = getCertSecretObject n w) ∧
  ∀ r', (approve name r w).2 = Ok r' → co_Certificate r' = co_Certificate r.
Proof.
  unfold approve. destruct (_ && _); [|split; [done|by intros ? [= <-] ] ].
  pose proof (approve_keeps (add_condition (approval name) r) w) as Hk.
  destruct (csr_UpdateApproval _ w) as [w1 [r1|e] ] eqn:Ha; cbn in Hk |- *; split; try done.
  intros r' [= <-]. by apply approved_without_cert in Ha.
Qed.
Lemma delete_facts objName w n : getCertSecretObject n (delete_csr objName w).1 = getCertSecretObject n w.
Proof. unfold delete_csr. pose proof (delete_keeps objName w n). by destruct (csr_Delete objName w) as [w1 [e|] ]. Qed.
Lemma recreate_facts objName csr w :
  (∀ n, getCertSecretObject n (recreate_csr objName csr w).1 = getCertSecretObject n w) ∧
  ∀ r, (recreate_csr objName csr w).2 = Ok r → co_Certificate r = "".
Proof.
  unfold recreate_csr. pose proof (delete_facts objName w) as Hd. destruct (delete_csr objName w) as [w1 [e|] ]; cbn [fst] in Hd; [done|].
  pose proof (create_keeps (new_csr objName csr) w1) as Hk.
  destruct (csr_Create _ w1) as [w2 [r|e] ] eqn:Hc; cbn in Hk |- *; (split; [intros n; by rewrite Hk, Hd|]); [|done].
  intros r' [= <-]. by apply created_without_cert in Hc.
Qed.
Lemma kube_csr_facts objName csr w :
  (∀ n, getCertSecretObject n (kube_csr objName true csr w).1 = getCertSecretObject n w) ∧
  ∀ r, (kube_csr objName true csr w).2 = Ok r → co_Certificate r = "".
Proof.
  unfold kube_csr. destruct (csr_Get objName w) as [r0|e0]; [apply recreate_facts|].
  destruct (ke_NotFound e0); [apply recreate_facts|done].
Qed.
Lemma obtain_recreated name objName p w :
  p_CreateKubeCSR p = true →
  (∀ n, getCertSecretObject n (obtain name objName p w).1 = getCertSecretObject n w) ∧ ∃ e, (obtain name objName p w).2 = Err e.
Proof.
  intros Hp. unfold obtain. rewrite Hp. destruct (kube_csr_facts objName (p_CSR p) w) as [Hk Hr].
  destruct (kube_csr _ _ _ _) as [w1 [r|e] ]; cbn [fst snd] in *; [|eauto]. specialize (Hr r eq_refl).
  destruct (approve_facts name r w1) as [Hk1 Hr1]. destruct (approve name r w1) as [w2 [r'|e] ]; cbn [fst snd] in *.
  - rewrite (Hr1 r' eq_refl), Hr. cbn [decide]. case_decide; [|done]. split; [|eauto]. intros n. cbn. by rewrite Hk1, Hk.
  - split; [|eauto]. intros n. by rewrite Hk1, Hk.
Qed.

(** The controller tries again, or anything else happens that leaves the secret of the certificate alone: the signer issues, the
    informer catches up, requests are approved by hand. *)
Inductive next (name hostNodeName : string) (info : NodeCertSpec) (addrs : list (string * string)) (w : W) : W → Prop :=
  | next_ensure : next name hostNodeName info addrs w (ensureKubeletServerCert name hostNodeName info addrs w).1
  | next_other w' : getCertSecretObject (object_name hostNodeName name) w' = getCertSecretObject (object_name hostNodeName name) w →
                    next name hostNodeName info addrs w w'.

Lemma stale_ensure name hostNodeName info addrs w :
  stale (object_name hostNodeName name) addrs w →
  stale (object_name hostNodeName name) addrs (ensureKubeletServerCert name hostNodeName info addrs w).1 ∧
  ∃ e, (ensureKubeletServerCert name hostNodeName info addrs w).2 = Err e.
Proof.
  intros (s & b & csr & old & Hs & Hc & Hp & Hco).
  assert (∀ w', getCertSecretObject (object_name hostNodeName name) w' = getCertSecretObject (object_name hostNodeName name) w →
          stale (object_name hostNodeName name) addrs w') as Hst by (intros w' Hw'; exists s, b, csr, old; by rewrite Hw').
  unfold ensureKubeletServerCert, plan. rewrite Hs. unfold plan_old. rewrite Hc, Hp, Hco. cbv zeta.
  destruct (cs_Data s !! TLSPrivateKeyKey) as [key|]; [|eauto].
  destruct (parsePEMEncodedPrivateKey key) as [k|]; [|eauto].
  pose proof (request_keeps (request name info addrs) k w) as Hr.
  destruct (CreateCertificateRequest _ k w) as [w1 [csr'|e] ]; cbn [fst] in Hr; [|cbn; eauto]. cbn [p_GetKubeCSR].
  destruct (obtain_recreated name (object_name hostNodeName name)
    {| p_Secret := s; p_Shared := b; p_GetKubeCSR := true; p_CreateKubeCSR := true; p_Key := key; p_CSR := csr';
       p_Cert := default "" (cs_Data s !! TLSCertKey) |} w1 eq_refl) as [Hk [e He] ].
  destruct (obtain _ _ _ w1) as [w2 r2]. cbn [fst snd] in *. subst r2. cbn [fst snd]. split; [|eauto]. apply Hst. by rewrite Hk, Hr.
Qed.

(** When the addresses of the host no longer are those of the stored request, the node never gets a certificate again, whatever the
    signer does and however often the controller tries: each attempt deletes the signing request that was, or is about to be, granted. *)
Lemma stale_request_never_served name hostNodeName info addrs w w' :
  stale (object_name hostNodeName name) addrs w → rtc (next name hostNodeName info addrs) w w' →
  stale (object_name hostNodeName name) addrs w' ∧ ∃ e, (ensureKubeletServerCert name hostNodeName info addrs w').2 = Err e.
Proof.
  intros Hw Hr. assert (stale (object_name hostNodeName name) addrs w') as Hs; [|split; [done|by apply stale_ensure] ].
  induction Hr as [w|w w1 w2 Hn _ IH]; [done|]. apply IH. destruct Hn as [|w1 Ho]; [by apply stale_ensure|].
  destruct Hw as (s & b & csr & old & Hs & Hrest). exists s, b, csr, old. by rewrite Ho.
Qed.
End Server.
End Server.

Module NodeCertExamples.
Import Server.

(** An API server that never fails, with a signer that issues in a step of its own; the informer's store is that of the server. Keys are
    numbered, a request is the list of its addresses. *)
Record World := { secrets : gmap string CertSecret; csrs : gmap string CSRObject; keys : nat }.
Definition not_found : KubeError := {| ke_NotFound := true; ke_Conflict := false; ke_Text := "not found" |}.
Definition get {A} (m : gmap string A) (k : string) : A + KubeError := match m !! k with Some a => inl a | None => inr not_found end.
Definition set_secrets (m : gmap string CertSecret) (w : World) : World := {| secrets := m; csrs := csrs w; keys := keys w |}.
Definition set_csrs (m : gmap string CSRObject) (w : World) : World := {| secrets := secrets w; csrs := m; keys := keys w |}.
Definition comma : Ascii.ascii := Ascii.ascii_of_nat 44.
#[export] Instance sample : CertAPI World string := {
  secret_Store n w := secrets w !! n;
  secret_Store_write s w := set_secrets (<[cs_Name s := s]> (secrets w)) w;
  secret_Get n w := get (secrets w) n;
  secret_Create s w := (set_secrets (<[cs_Name s := s]> (secrets w)) w, None);
  secret_Update s w := (set_secrets (<[cs_Name s := s]> (secrets w)) w, None);
  secret_Delete n w := (set_secrets (delete n (secrets w)) w, None);
  csr_Get n w := get (csrs w) n;
  csr_Create o w := (set_csrs (<[co_Name o := o]> (csrs w)) w,
    inl {| co_Name := co_Name o; co_Request := co_Request o; co_SignerName := co_SignerName o; co_Groups := co_Groups o;
           co_Usages := co_Usages o; co_Conditions := []; co_Certificate := "" |});
  csr_UpdateApproval o w := (set_csrs (<[co_Name o := o]> (csrs w)) w, inl o);
  csr_Delete n w := (set_csrs (delete n (csrs w)) w, match csrs w !! n with None => Some not_found | Some _ => None end);
  GenerateKey w := ({| secrets := secrets w; csrs := csrs w; keys := S (keys w) |}, Ok ("key" +:+ pretty (keys w)));
  CreateCertificateRequest r k w := (w, Ok (join "," (DNSNames r ++ (ip_string <$> IPAddresses r))))
}.
Definition parse_csr (t : string) : result (list string * list (list Z)) :=
  let ts := split_on comma t in
  Ok (filter (λ t, ParseIP t = None) ts, omap ParseIP ts).
Definition sign (r : CSRObject) : CSRObject :=
  if bool_decide (Exists (λ x, cc_Type x = CertificateApproved) (co_Conditions r)) then
    {| co_Name := co_Name r; co_Request := co_Request r; co_SignerName := co_SignerName r; co_Groups := co_Groups r; co_Usages := co_Usages r;
       co_Conditions := co_Conditions r; co_Certificate := "crt:" +:+ co_Request r |}
  else r.
Definition signer (w : World) : World := set_csrs (sign <$> csrs w) w.
Definition info : NodeCertSpec := {| cert_Country := ""; cert_State := ""; cert_Locality := ""; cert_OrgUnit := "" |}.
Definition ensure (addrs : list (string * string)) (w : World) : World * result (string * string) :=
  ensureKubeletServerCert (λ k, Ok k) (λ k, Ok k) parse_csr (λ c k, Ok (c, k)) true "dev" "host" info addrs w.

Definition addrs : list (string * string) := [("Hostname", "h1"); ("InternalIP", "10.0.0.1")].
Definition moved : list (string * string) := [("Hostname", "h1"); ("InternalIP", "10.0.0.2")].
Definition empty : World := {| secrets := ∅; csrs := ∅; keys := 0 |}.
Definition w1 : World := (ensure addrs empty).1.
Definition w2 : World := (ensure addrs (signer w1)).1.

(** The first attempt makes the secret and the request, the one after the signer gets the certificate, later ones find it. *)
Example issuance :
  (ensure addrs empty).2 = Err "certificate not issued" ∧ (ensure addrs (signer w1)).2 = Ok ("crt:h1,10.0.0.1", "key0") ∧
  csrs w2 = ∅ ∧ ensure addrs w2 = (w2, Ok ("crt:h1,10.0.0.1", "key0")).
Proof. by vm_compute. Qed.

Lemma served_certificate_witness :
  (ensure addrs (signer w1)).2 = Ok ("crt:h1,10.0.0.1", "key0") ∧
  ∃ key crt, (crt, key) = ("crt:h1,10.0.0.1", "key0") ∧ crt ≠ "".
Proof.
  split; [by vm_compute|].
  destruct (served_certificate (λ k, Ok k) (λ k, Ok k) parse_csr (λ c k, Ok (c, k)) true "dev" "host" info addrs (signer w1) w2
    ("crt:h1,10.0.0.1", "key0")) as [(key & crt & Hx & Hne & _) _]; [by vm_compute|]. exists key, crt. cbn in Hx. by simplify_eq.
Defined.

(** A request that is there is taken as it is: the host moves before the certificate is issued, the request is made again, and the host moves
    back. The certificate that is served is for the address the host does not have any more. *)
Example moved_back : (ensure addrs (signer (ensure moved w1).1)).2 = Ok ("crt:h1,10.0.0.2", "key0").
Proof. by vm_compute. Qed.

#[export] Instance sample_laws : SignerLaws (W := World) (Key := string).
Proof.
  constructor; try done.
  - by intros o w w' r [= <- <-].
  - by intros o w w' r [= <- <-].
Qed.

(** After the host has moved, signing does not help. *)
Lemma stale_request_never_served_witness :
  ∃ w', rtc (next (λ k, Ok k) (λ k, Ok k) parse_csr (λ c k, Ok (c, k)) true "dev" "host" info moved) w2 w' ∧
    bool_decide (csrs w' = ∅) = false ∧ ∃ e, (ensure moved w').2 = Err e.
Proof.
  set (wa := (ensure moved w2).1). set (wb := signer wa).
  exists wb. assert (rtc (next (λ k, Ok k) (λ k, Ok k) parse_csr (λ c k, Ok (c, k)) true "dev" "host" info moved) w2 wb) as Hr.
  { eapply rtc_l; [apply next_ensure|]. apply rtc_once, next_other. by vm_compute. }
  split; [exact Hr|]. split; [by vm_compute|].
  destruct (stale_request_never_served (λ k, Ok k) (λ k, Ok k) parse_csr (λ c k, Ok (c, k)) true "dev" "host" info moved w2 wb) as [_ He];
    [|exact Hr|exact He].
  eexists _, _, _, _. split_and!; [by vm_compute..].
Defined.
End NodeCertExamples.
