(* ===== verification/Services.v ===== *)
(** * The service of the device connections

    src/pkg/controller/edgedevice/svc_conn.go: the Kubernetes service through which devices reach the gRPC listeners of their virtual
    nodes, one port for each. The API server of services and the table of virtual nodes are an interface. *)
From S2P Require Import Prelude GoNet K8s Api Cluster.
Open Scope Z_scope.

(** ** intstr *)
(** strconv.Atoi(s), its value also when it fails *)
Definition Atoi (s : string) : Z := ParseInt_value 64 s.
Definition IntValue (x : IntOrString) : Z := if ios_Type x =? 1 then Atoi (ios_StrVal x) else ios_IntVal x.

Record ServicePort := { sp_Name : string; sp_Protocol : string; sp_Port : Z; sp_TargetPort : IntOrString }.
Record Service := {
  svc_Name : string; svc_Namespace : string; svc_Labels : option (gmap string string); svc_Ports : list ServicePort;
  svc_Selector : option (gmap string string)
}.
Definition LabelRoleValueConnectivity : string := "Connectivity".

Class ServiceAPI (W : Type) := {
  virtualNodes_All : W → gmap string VirtualNode;
  svc_Get : string → W → Service + KubeError;
  svc_Update : Service → W → W * option KubeError;
  svc_Patch : Service → Service → W → W * option KubeError;   (** the strategic merge patch from the first to the second *)
  svc_Create : Service → W → W * option KubeError;
  svc_Delete : string → W → W * option KubeError;
  connSvcReqRec_Schedule : W → W * option (bool * string)      (** whether the error is ErrJobDuplicated, and its text *)
}.

Module ConnService.
Section ConnService.
Context {W : Type} `{ServiceAPI W} (ns connectivityService : string).

Definition port_name_le (a b : ServicePort) : Prop := String.le (sp_Name a) (sp_Name b).
#[local] Instance port_name_le_dec a b : Decision (port_name_le a b) := decide (String.le (sp_Name a) (sp_Name b)).

Definition service_port (x : string * VirtualNode) : option ServicePort :=
  match vn_ConnectivityServerListener x.2 with
  | None => None
  | Some l => let port := match getListenerPort (Some l) with Ok p => p | Err _ => 0 end in
              Some {| sp_Name := x.1; sp_Protocol := "TCP"; sp_Port := port;
                      sp_TargetPort := {| ios_Type := 0; ios_IntVal := port; ios_StrVal := "" |} |}
  end.
Definition getAllRequiredServicePorts (w : W) : list ServicePort :=
  merge_sort port_name_le (omap service_port (map_to_list (virtualNodes_All w))).
Definition newServiceForAllEdgeDevices (w : W) : Service :=
  {| svc_Name := connectivityService; svc_Namespace := ns; svc_Labels := Some {[LabelRole := LabelRoleValueConnectivity]};
     svc_Ports := getAllRequiredServicePorts w; svc_Selector := None |}.

(** One turn of the loop over the ports of the service: the required ports not seen yet, hasUnknownPort, upToDate. *)
Definition check_port (acc : gmap string Z * bool * bool) (p : ServicePort) : gmap string Z * bool * bool :=
  let '(requiredPorts, hasUnknownPort, upToDate) := acc in
  let rp := default 0 (requiredPorts !! sp_Name p) in
  (delete (sp_Name p) requiredPorts,
   hasUnknownPort || bool_decide (requiredPorts !! sp_Name p = None),
   upToDate && (sp_Port p =? rp) && (IntValue (sp_TargetPort p) =? rp)).
(** (hasUnknownPort, upToDate) *)
Definition checkServiceUpToDate (svc : Service) (allPorts : list ServicePort) : bool * bool :=
  if decide (connectivityService ≠ svc_Name svc) then (false, true)
  else
    let upToDate := bool_decide (map_get (svc_Labels svc) LabelRole = LabelRoleValueConnectivity) &&
                    (length (svc_Ports svc) =? length allPorts)%nat in
    let requiredPorts := foldl (λ m p, <[sp_Name p := sp_Port p]> m) ∅ allPorts in
    let '(requiredPorts, hasUnknownPort, upToDate) := foldl check_port (requiredPorts, false, upToDate) (svc_Ports svc) in
    (hasUnknownPort, upToDate && bool_decide (requiredPorts = ∅)).

(** What an existing service is updated to. *)
Definition updated (oldSvc svc : Service) : Service :=
  {| svc_Name := svc_Name oldSvc; svc_Namespace := svc_Namespace oldSvc;
     svc_Labels := match svc_Labels oldSvc with
                   | None => svc_Labels svc
                   | Some l => Some (default ∅ (svc_Labels svc) ∪ l)
                   end;
     svc_Ports := svc_Ports svc; svc_Selector := svc_Selector svc |}.
Definition create_service (svc : Service) (w : W) : W * result unit :=
  if decide (svc_Ports svc = []) then (w, Ok tt)
  else match svc_Create svc w with
       | (w, Some e) => (w, Err ("failed to create connectivity service object: " +:+ ke_Text e))
       | (w, None) => (w, Ok tt)
       end.
(** The update of the old service, if one is needed. *)
Definition write_service (oldSvc clone : Service) (check : bool * bool) (w : W) : W * option KubeError :=
  if check.1 : bool then svc_Update clone w
  else if negb check.2 then svc_Patch oldSvc clone w
  else (w, None).
Definition ensureConnectivityService (w : W) : W * result unit :=
  if decide (connectivityService = "") then (w, Ok tt)
  else
    let svc := newServiceForAllEdgeDevices w in
    match svc_Get connectivityService w with
    | inl oldSvc =>
        match write_service oldSvc (updated oldSvc svc) (checkServiceUpToDate oldSvc (svc_Ports svc)) w with
        | (w, None) => (w, Ok tt)
        | (w, Some e) =>
            if ke_Conflict e then (w, Err (ke_Text e))
            else match svc_Delete connectivityService w with
                 | (w, Some e) => if ke_NotFound e then create_service svc w
                                  else (w, Err ("failed to delete old service: " +:+ ke_Text e))
                 | (w, None) => create_service svc w
                 end
        end
    | inr e => if ke_NotFound e then create_service svc w else (w, Err ("failed to get old service: " +:+ ke_Text e))
    end.

(** The handlers *)
Definition requestConnectivityServiceEnsure (w : W) : W * option string :=
  if decide (connectivityService = "") then (w, None)
  else match connSvcReqRec_Schedule w with
       | (w, Some (false, e)) => (w, Some ("failed to schedule connectivity service ensure: " +:+ e))
       | (w, _) => (w, None)
       end.
Definition answer (r : W * result unit) : W * Result := (r.1, match r.2 with Ok _ => RNil | Err e => RErr e end).
Definition onServiceEnsureRequested (w : W) : W * Result :=
  if decide (connectivityService = "") then (w, RNil) else answer (ensureConnectivityService w).
Definition onServiceUpdated (newSvc : Service) (w : W) : W * Result :=
  if decide (connectivityService ≠ svc_Name newSvc) then (w, RNil)
  else match checkServiceUpToDate newSvc (getAllRequiredServicePorts w) with
       | (false, true) => (w, RNil)
       | _ => answer (ensureConnectivityService w)
       end.
Definition onServiceDeleting (svc : Service) (w : W) : W * Result :=
  match svc_Delete (svc_Name svc) w with
  | (w, Some e) => (w, if ke_NotFound e then RNext ActionCleanup 0 else RErr (ke_Text e))
  | (w, None) => (w, RNext ActionCleanup 0)
  end.
Definition onServiceDeleted (svc : Service) (w : W) : W * Result :=
  if decide (connectivityService ≠ svc_Name svc) then (w, RNil) else answer (ensureConnectivityService w).

(** ** The check of the ports *)

Definition port_of (p : ServicePort) : string * Z := (sp_Name p, sp_Port p).

Lemma check_port_bad ports m u t : u = true ∨ t = false → (foldl check_port (m, u, t) ports).1.2 = true ∨ (foldl check_port (m, u, t) ports).2 = false.
Proof.
  revert m u t. induction ports as [|p ports IH]; intros m u t Hb; [done|]. cbn [foldl check_port]. apply IH.
  destruct Hb as [-> | ->]; cbn; [by left|by right].
Qed.
Lemma check_ports_spec ports m :
  let r := foldl check_port (m, false, true) ports in
  (r.1.2 = false ∧ r.2 = true ∧ r.1.1 = ∅) ↔
  Forall (λ p, IntValue (sp_TargetPort p) = sp_Port p) ports ∧ map_to_list m ≡ₚ port_of <$> ports.
Proof.
  cbv zeta. revert m. induction ports as [|p ports IH]; intros m.
  - cbn. rewrite Permutation_nil_r, map_to_list_empty_iff. split; [by intros (_ & _ & ?)|by intros [_ ?] ].
  - cbn [foldl check_port fmap list_fmap]. rewrite Forall_cons. destruct (m !! sp_Name p) as [rp|] eqn:Hm.
    + change (default 0 (Some rp)) with rp. rewrite bool_decide_false by done. cbn [orb andb].
      destruct (Z.eqb_spec (sp_Port p) rp) as [Hp|Hp]; cbn [andb].
      * destruct (Z.eqb_spec (IntValue (sp_TargetPort p)) rp) as [Ht|Ht]; cbn [andb].
        -- rewrite IH. rewrite <-(map_to_list_delete m (sp_Name p) rp) by done. subst rp.
           change (port_of p) with (sp_Name p, sp_Port p). split; [intros [? ?]; split_and!; [congruence|done|by constructor]|].
           intros [ [_ ?] ?%Permutation_cons_inv]. done.
        -- split; [|intros [ [? _] _]; congruence]. intros (H1 & H2 & _). destruct (check_port_bad ports (delete (sp_Name p) m) false false); [by right| |]; congruence.
      * split.
        -- intros (H1 & H2 & _). destruct (check_port_bad ports (delete (sp_Name p) m) false false); [by right| |]; congruence.
        -- intros [_ Hperm]. exfalso. apply Hp. assert ((sp_Name p, sp_Port p) ∈ map_to_list m) as Hin by (rewrite Hperm; left).
           apply elem_of_map_to_list in Hin. congruence.
    + rewrite bool_decide_true by done. cbn [orb]. set (up := true && _ && _). clearbody up. split.
      * intros (H1 & H2 & _).
        destruct (check_port_bad ports (delete (sp_Name p) m) true up (or_introl eq_refl)); congruence.
      * intros [_ Hperm]. exfalso. assert ((sp_Name p, sp_Port p) ∈ map_to_list m) as Hin by (rewrite Hperm; left).
        apply elem_of_map_to_list in Hin. congruence.
Qed.

Lemma required_ports (allPorts : list ServicePort) :
  NoDup (sp_Name <$> allPorts) → map_to_list (foldl (λ m p, <[sp_Name p := sp_Port p]> m) ∅ allPorts) ≡ₚ port_of <$> allPorts.
Proof.
  intros Hnd. assert (∀ m : gmap string Z, (∀ p, p ∈ allPorts → m !! sp_Name p = None) →
    map_to_list (foldl (λ m p, <[sp_Name p := sp_Port p]> m) m allPorts) ≡ₚ (port_of <$> allPorts) ++ map_to_list m) as Hgen.
  { induction allPorts as [|p ports IH]; intros m Hm; [done|]. cbn [foldl fmap list_fmap] in *. apply NoDup_cons in Hnd as [Hp Hnd].
    rewrite (IH Hnd); [|intros q Hq; rewrite lookup_insert_ne; [apply Hm; by right|]; intros He; apply Hp; rewrite He; by apply list_elem_of_fmap_2].
    rewrite map_to_list_insert by (apply Hm; left). cbn. by rewrite Permutation_middle. }
  rewrite Hgen by done. by rewrite map_to_list_empty, app_nil_r.
Qed.
Lemma check_correct svc allPorts :
  svc_Name svc = connectivityService → NoDup (sp_Name <$> allPorts) →
  checkServiceUpToDate svc allPorts = (false, true) ↔
  map_get (svc_Labels svc) LabelRole = LabelRoleValueConnectivity ∧
  Forall (λ p, IntValue (sp_TargetPort p) = sp_Port p) (svc_Ports svc) ∧ (port_of <$> svc_Ports svc) ≡ₚ (port_of <$> allPorts).
Proof.
  intros Hn Hnd. unfold checkServiceUpToDate. rewrite decide_False by (by intros []).
  pose proof (required_ports allPorts Hnd) as Hreq. set (m := foldl _ ∅ allPorts) in *. clearbody m.
  pose proof (check_ports_spec (svc_Ports svc) m) as Hspec. cbv zeta in Hspec. rewrite Hreq in Hspec.
  destruct (bool_decide (map_get _ _ = _)) eqn:Hl; [apply bool_decide_eq_true in Hl|apply bool_decide_eq_false in Hl]; cbn [andb].
  - destruct (Nat.eqb_spec (length (svc_Ports svc)) (length allPorts)) as [Hlen|Hlen].
    + destruct (foldl check_port _ _) as [ [r u] t]; cbn [fst snd] in Hspec. split.
      * intros [= -> Ht]. apply andb_true_iff in Ht as [-> Hr]. apply bool_decide_eq_true in Hr. split; [done|].
        destruct Hspec as [Hspec _]. destruct Hspec as [? Hp]; [done|]. split; [done|by symmetry].
      * intros (_ & Hf & Hp). destruct Hspec as [_ Hspec]. destruct Hspec as (-> & -> & ->); [by split|]. by rewrite bool_decide_true.
    + split; [|intros (_ & _ & Hp%Permutation_length); by rewrite !length_fmap in Hp].
      clear Hspec. pose proof (check_port_bad (svc_Ports svc) m false false (or_intror eq_refl)) as Hb.
      destruct (foldl check_port _ _) as [ [r u] t]; cbn [fst snd] in Hb. destruct Hb as [-> | ->]; [done|]. cbn. congruence.
  - split; [|by intros (? & _)].
    clear Hspec. pose proof (check_port_bad (svc_Ports svc) m false false (or_intror eq_refl)) as Hb.
    destruct (foldl check_port _ _) as [ [r u] t]; cbn [fst snd] in Hb. destruct Hb as [-> | ->]; [done|]. cbn. congruence.
Qed.

(** ** The ports that are required *)

Lemma required_perm w : getAllRequiredServicePorts w ≡ₚ omap service_port (map_to_list (virtualNodes_All w)).
Proof. apply merge_sort_Permutation. Qed.
Lemma service_port_name x p : service_port x = Some p → sp_Name p = x.1 ∧ IntValue (sp_TargetPort p) = sp_Port p.
Proof. unfold service_port. destruct (vn_ConnectivityServerListener x.2); [|done]. by intros [= <-]. Qed.
Lemma required_NoDup w : NoDup (sp_Name <$> getAllRequiredServicePorts w).
Proof.
  rewrite required_perm. pose proof (NoDup_fst_map_to_list (virtualNodes_All w)) as Hnd.
  induction (map_to_list (virtualNodes_All w)) as [|x l IH]; [constructor|]. apply NoDup_cons in Hnd as [Hx Hnd]. cbn [omap list_omap].
  destruct (service_port x) as [p|] eqn:Hp; [|by apply IH]. apply service_port_name in Hp as [Hp _]. apply NoDup_cons. split; [|by apply IH].
  rewrite Hp. intros (q & Hq & (y & Hy & Hs)%list_elem_of_omap)%list_elem_of_fmap. apply Hx. apply service_port_name in Hs as [Hs _].
  rewrite Hq, Hs. by apply list_elem_of_fmap_2.
Qed.
Lemma required_ok w : Forall (λ p, IntValue (sp_TargetPort p) = sp_Port p) (getAllRequiredServicePorts w).
Proof.
  rewrite required_perm. apply Forall_forall. intros p (x & _ & Hp)%list_elem_of_omap. by apply service_port_name in Hp as [_ ?].
Qed.
(** The port a device is reached by. *)
Definition reached_by (w : W) (name : string) (port : Z) : Prop :=
  ∃ vn l, virtualNodes_All w !! name = Some vn ∧ vn_ConnectivityServerListener vn = Some l ∧
    port = match getListenerPort (Some l) with Ok p => p | Err _ => 0 end.
Lemma required_elem w name port : (name, port) ∈ port_of <$> getAllRequiredServicePorts w ↔ reached_by w name port.
Proof.
  rewrite required_perm. rewrite list_elem_of_fmap. unfold reached_by. split.
  - intros (p & Hp & ([n vn] & Hin & Hs)%list_elem_of_omap). apply elem_of_map_to_list in Hin. unfold service_port in Hs. cbn [snd fst] in Hs.
    destruct (vn_ConnectivityServerListener vn) as [l|] eqn:Hl; [|done]. injection Hs as <-. injection Hp as -> ->. eauto.
  - intros (vn & l & Hvn & Hl & ->). eexists. split; [|apply list_elem_of_omap; exists (name, vn); split; [by apply elem_of_map_to_list|]; unfold service_port; cbn [snd fst]; by rewrite Hl]. done.
Qed.

(** ** The service *)

(** What the API server does with a write that succeeds; a patch is computed from the object it is applied to. *)
Class ServiceLaws := {
  Update_stores s w w' : svc_Update s w = (w', None) → svc_Get (svc_Name s) w' = inl s;
  Patch_stores old new w w' : svc_Get (svc_Name new) w = inl old → svc_Patch old new w = (w', None) → svc_Get (svc_Name new) w' = inl new;
  Create_stores s w w' : svc_Create s w = (w', None) → svc_Get (svc_Name s) w' = inl s;
  Get_name n w s : svc_Get n w = inl s → svc_Name s = n
}.
Context `{ServiceLaws}.

(** The service has the ports of the devices, and its update event is answered without a call. *)
Definition serves (w : W) (s : Service) : Prop :=
  svc_Name s = connectivityService ∧ checkServiceUpToDate s (getAllRequiredServicePorts w) = (false, true).

Lemma serves_written w s :
  svc_Name s = connectivityService → map_get (svc_Labels s) LabelRole = LabelRoleValueConnectivity →
  svc_Ports s = getAllRequiredServicePorts w → serves w s.
Proof.
  intros Hn Hl Hp. split; [done|]. apply check_correct; [done|apply required_NoDup|]. rewrite Hp. split_and!; [done|apply required_ok|done].
Qed.
Lemma updated_serves w old : svc_Name old = connectivityService → serves w (updated old (newServiceForAllEdgeDevices w)).
Proof.
  intros Hn. apply serves_written; [done| |done]. unfold map_get, updated. cbn [svc_Labels newServiceForAllEdgeDevices default].
  destruct (svc_Labels old) as [l|]; cbn [mbind option_bind]; [|by rewrite lookup_singleton_eq].
  unfold id. by rewrite lookup_union, lookup_singleton_eq, union_Some_l.
Qed.
Lemma create_service_correct w0 w w' :
  create_service (newServiceForAllEdgeDevices w0) w = (w', Ok tt) →
  (∃ s, svc_Get connectivityService w' = inl s ∧ serves w0 s) ∨ (getAllRequiredServicePorts w0 = [] ∧ w' = w).
Proof.
  unfold create_service. case_decide as Hp; [by intros [= <-]; right|].
  destruct (svc_Create _ _) as [w1 [e|] ] eqn:Hc; [done|]. intros [= <-]. left. eexists. split; [exact (Create_stores _ _ _ Hc)|].
  apply serves_written; [done| |done]. exact (f_equal (default "") (lookup_singleton_eq _ _)).
Qed.

(** After a successful ensureConnectivityService the service has one port for each virtual node with a gRPC listener, by the name
    of the device and to the port of its listener, and no other; its own update event changes nothing more. Only when no device has a
    listener there may be no service. *)
Lemma connectivity_service_correct w w' :
  connectivityService ≠ "" → ensureConnectivityService w = (w', Ok tt) →
  (∃ s, svc_Get connectivityService w' = inl s ∧ (∀ name port, (name, port) ∈ port_of <$> svc_Ports s ↔ reached_by w name port) ∧
     NoDup (sp_Name <$> svc_Ports s) ∧ Forall (λ p, IntValue (sp_TargetPort p) = sp_Port p) (svc_Ports s) ∧
     ∀ w2, virtualNodes_All w2 = virtualNodes_All w → onServiceUpdated s w2 = (w2, RNil)) ∨
  (getAllRequiredServicePorts w = [] ∧
     ((w' = w ∧ ∃ e, svc_Get connectivityService w = inr e ∧ ke_NotFound e = true) ∨
      ∃ w1 e, svc_Delete connectivityService w1 = (w', e) ∧ (∀ x, e = Some x → ke_NotFound x = true))).
Proof.
  intros Hne Hens.
  assert ((∃ s, svc_Get connectivityService w' = inl s ∧ serves w s) ∨ (getAllRequiredServicePorts w = [] ∧
     ((w' = w ∧ ∃ e, svc_Get connectivityService w = inr e ∧ ke_NotFound e = true) ∨
      ∃ w1 e, svc_Delete connectivityService w1 = (w', e) ∧ (∀ x, e = Some x → ke_NotFound x = true)))) as [(s & Hs & Hsv)|?]; [|left|by right].
  - revert Hens. unfold ensureConnectivityService. rewrite decide_False by done.
    destruct (svc_Get connectivityService w) as [old|e] eqn:Hg.
    + pose proof (Get_name _ _ _ Hg) as Hon. destruct (write_service _ _ _ _) as [w1 [e|] ] eqn:Hw.
      * destruct (ke_Conflict e); [done|]. destruct (svc_Delete _ _) as [w2 [e'|] ] eqn:Hd.
        -- destruct (ke_NotFound e') eqn:Hnf; [|done]. intros [?|[? ->] ]%create_service_correct; [by left|]. right. split; [done|]. right.
           exists w1, (Some e'). split; [done|]. by intros ? [= <-].
        -- intros [?|[? ->] ]%create_service_correct; [by left|]. right. split; [done|]. right. by exists w1, None.
      * intros [= <-]. left. unfold write_service in Hw.
        destruct (checkServiceUpToDate old _) as [u t] eqn:Hck. cbn [fst snd] in Hw. destruct u; [|destruct t; cbn [negb] in Hw].
        -- eexists. split; [|by apply updated_serves]. apply Update_stores in Hw. cbn [updated svc_Name] in Hw. by rewrite Hon in Hw.
        -- injection Hw as <-. exists old. split; [done|]. split; done.
        -- eexists. split; [|by apply updated_serves]. apply Patch_stores in Hw; cbn [updated svc_Name] in *; by rewrite Hon in *.
    + destruct (ke_NotFound e) eqn:Hnf; [|done]. intros [?|[? ->] ]%create_service_correct; [by left|]. right. eauto 6.
  - exists s. destruct Hsv as [Hn Hck]. pose proof Hck as Hck'. apply check_correct in Hck' as (_ & Hf & Hp); [|done|apply required_NoDup].
    split_and!; [done| | |done|].
    + intros name port. rewrite Hp. apply required_elem.
    + replace (sp_Name <$> svc_Ports s) with ((port_of <$> svc_Ports s).*1) by (by rewrite <-list_fmap_compose).
      rewrite Hp, <-list_fmap_compose. apply required_NoDup.
    + intros w2 Hw2. unfold onServiceUpdated, getAllRequiredServicePorts. rewrite Hw2, decide_False by (by intros []).
      fold (getAllRequiredServicePorts w). by rewrite Hck.
Qed.
End ConnService.
End ConnService.

Module ServiceExamples.
Import ConnService Sample.

(** An API server that never fails, and a table of virtual nodes. *)
Record World := { service : option Service; vns : gmap string VirtualNode; writes : nat }.
Definition put (s : option Service) (w : World) : World := {| service := s; vns := vns w; writes := S (writes w) |}.
#[export] Instance sample : ServiceAPI World := {
  virtualNodes_All w := vns w;
  svc_Get n w := match service w with
                 | Some s => if decide (svc_Name s = n) then inl s else inr (Sample.not_found "service")
                 | None => inr (Sample.not_found "service")
                 end;
  svc_Update s w := (put (Some s) w, None);
  svc_Patch _ s w := (put (Some s) w, None);
  svc_Create s w := (put (Some s) w, None);
  svc_Delete _ w := (put None w, None);
  connSvcReqRec_Schedule w := (w, None)
}.
#[export] Instance sample_laws : ServiceLaws (W := World).
Proof.
  constructor; cbn.
  - intros s w w' [= <-]. cbn. by rewrite decide_True.
  - intros old new w w' _ [= <-]. cbn. by rewrite decide_True.
  - intros s w w' [= <-]. cbn. by rewrite decide_True.
  - intros n w s. destruct (service w); [|done]. case_decide; [|done]. by intros [= <-].
Qed.
Definition listening (addr : option string) : VirtualNode :=
  {| vn_KubeletServerListener := None; vn_ConnectivityServerListener := addr; vn_nodeStatusCache := Caches.NodeCache.newNodeCache ∅ ∅;
     vn_Connected := false |}.
Definition table : gmap string VirtualNode :=
  <["b" := listening (Some "[::]:4000")]> (<["a" := listening (Some "[::]:4001")]> {["mqtt" := listening None]}).
Definition old : Service :=
  {| svc_Name := "conn"; svc_Namespace := "sys"; svc_Labels := None;
     svc_Ports := [ {| sp_Name := "gone"; sp_Protocol := "TCP"; sp_Port := 1; sp_TargetPort := {| ios_Type := 0; ios_IntVal := 1; ios_StrVal := "" |} |} ];
     svc_Selector := None |}.
Definition w0 : World := {| service := Some old; vns := table; writes := 0 |}.

Lemma connectivity_service_correct_witness :
  let w1 := (ensureConnectivityService "sys" "conn" w0).1 in
  writes w1 = 1%nat ∧ (∃ s, svc_Get "conn" w1 = inl s ∧ onServiceUpdated "sys" "conn" s w1 = (w1, RNil)) ∨
  getAllRequiredServicePorts w0 = [].
Proof.
  intros w1. destruct (connectivity_service_correct "sys" "conn" w0 w1) as [(s & Hs & _ & _ & _ & Hu)|[He _] ]; [done|by vm_compute| |by right].
  left. split; [by vm_compute|]. exists s. split; [done|]. apply Hu. by vm_compute.
Defined.
Example ports : port_of <$> getAllRequiredServicePorts w0 = [("a", 4001); ("b", 4000)].
Proof. by vm_compute. Qed.
End ServiceExamples.
