(* ===== verification/PortForward.v ===== *)
(** * Port forwarding

    src/pkg/virtualnode/pod/devpod_http_port_forward.go: the pairs of streams of a port-forward connection (Module Pairs; those
    of a websocket, Module WebSocket), the forwarding of one pair to the device (Module Forward) and a forward to the host with its packet
    protocol (Module Custom). A stream is known by a
    number; what is written to it and when it is closed is in a log. *)
From S2P Require Import Prelude GoNet SeqQueue Session Connectivity.
Open Scope Z_scope.

(** ** Pairs of streams *)
Module Pairs.

Definition StreamTypeData : string := "data".
Definition StreamTypeError : string := "error".

(** A stream with the headers streamType, port and requestID; an unset header is "". *)
Record httpStream := { hs_ID : nat; hs_Type : string; hs_Port : string; hs_RequestID : string }.
(** The handler that the stream connection calls: the stream is passed on, or an error. *)
Definition validateNewHTTPStream (s : httpStream) : result httpStream :=
  if decide (hs_Port s = "") then Err (quote "port" +:+ " header is required")
  else match ParseUint 16 (hs_Port s) with
       | None => Err ("unable to parse " +:+ quote (hs_Port s) +:+ " as a port")
       | Some port =>
           if port <? 1 then Err ("port " +:+ quote (hs_Port s) +:+ " must be > 0")
           else if decide (hs_Type s = "") then Err (quote "streamType" +:+ " header is required")
           else if decide (hs_Type s ≠ StreamTypeError ∧ hs_Type s ≠ StreamTypeData) then Err ("invalid stream type " +:+ quote (hs_Type s))
           else Ok s
       end.

Record stream := { reqID : string; creationFailAt : Z; port : Z; dataStream : option nat; errorStream : option nat }.
Definition prepared (s : stream) : bool :=
  bool_decide (is_Some (dataStream s)) && bool_decide (is_Some (errorStream s)) && (0 <? port s).

Inductive Effect := WriteErr (id : nat) (text : string) | CloseStream (id : nat) | Start (s : stream).
Definition writeErr (text : string) (s : stream) : list Effect :=
  match errorStream s with Some e => [WriteErr e text] | None => [] end.
Definition close (reason : string) (s : stream) : list Effect :=
  (if decide (reason = "") then [] else writeErr ("[" +:+ reqID s +:+ "]: " +:+ reason) s) ++
  (match dataStream s with Some d => [CloseStream d] | None => [] end) ++
  (match errorStream s with Some e => [CloseStream e] | None => [] end).

Definition set_data (id : nat) (p : Z) (s : stream) : stream :=
  {| reqID := reqID s; creationFailAt := creationFailAt s; port := p; dataStream := Some id; errorStream := errorStream s |}.
Definition set_error (id : nat) (s : stream) : stream :=
  {| reqID := reqID s; creationFailAt := creationFailAt s; port := port s; dataStream := dataStream s; errorStream := Some id |}.

(** handleNewHTTPStream: the pair, whether it is forwarded from now on, and the error. *)
Definition handleNewHTTPStream (s : stream) (hs : httpStream) : stream * bool * option string :=
  if decide (hs_Type hs = StreamTypeData) then
    match dataStream s with
    | Some _ => (s, false, Some "data stream already assigned")
    | None => let s := set_data (hs_ID hs) (ParseInt_value 32 (hs_Port hs)) s in (s, prepared s, None)
    end
  else if decide (hs_Type hs = StreamTypeError) then
    match errorStream s with
    | Some _ => (s, false, Some "error stream already assigned")
    | None => let s := set_error (hs_ID hs) s in (s, prepared s, None)
    end
  else (s, false, None).

(** The loop of handleHTTPPortForward: its map of pairs, whether it still runs, and what it has done. *)
Record State := { streamPairs : gmap string stream; running : bool; log : list Effect }.
Inductive event := NewStream (hs : httpStream) (now : Z) | TimeoutCheck (now : Z) | Closed.
Definition streamCreationTimeout_default : Z := 30000000000.

Section Loop.
Context (streamCreationTimeout : Z).
Definition expired (now : Z) (s : stream) : bool := (creationFailAt s <? now) && negb (prepared s).
Definition step (ev : event) (st : State) : State :=
  if negb (running st) then st else
  match ev with
  | Closed =>
      {| streamPairs := streamPairs st; running := false; log := log st ++ (map_to_list (streamPairs st)).*2 ≫= close "" |}
  | TimeoutCheck now =>
      let old := filter (λ p, expired now p.2 = true) (streamPairs st) in
      {| streamPairs := filter (λ p, expired now p.2 = false) (streamPairs st); running := true;
         log := log st ++ (map_to_list old).*2 ≫= close "stream creation timeout" |}
  | NewStream hs now =>
      let fresh := {| reqID := hs_RequestID hs; creationFailAt := now + streamCreationTimeout; port := 0; dataStream := None; errorStream := None |} in
      let s := default fresh (streamPairs st !! hs_RequestID hs) in
      let '(s, start, err) := handleNewHTTPStream s hs in
      {| streamPairs := <[hs_RequestID hs := s]> (streamPairs st); running := true;
         log := log st ++ (if start : bool then [Start s] else []) ++ (match err with Some e => writeErr e s | None => [] end) |}
  end.
Definition init : State := {| streamPairs := ∅; running := true; log := [] |}.
Definition run (evs : list event) : State := foldl (λ st ev, step ev st) init evs.

Definition started (l : list Effect) : list stream := omap (λ e, if e is Start s then Some s else None) l.

(** *** What is accepted *)
Lemma validate_spec s :
  validateNewHTTPStream s = Ok s ↔
  (∃ p, ParseUint 16 (hs_Port s) = Some p ∧ 1 <= p) ∧ (hs_Type s = StreamTypeData ∨ hs_Type s = StreamTypeError).
Proof.
  unfold validateNewHTTPStream. case_decide as Hp; [rewrite Hp; split; [done|by intros [ (p & ? & _) _] ]|].
  destruct (ParseUint 16 (hs_Port s)) as [p|] eqn:Hpp; [|split; [done|by intros [ (p & ? & _) _] ] ].
  destruct (Z.ltb_spec p 1) as [Hlt|Hge]; [split; [done|intros [ (p' & ? & ?) _]; simplify_eq; lia]|].
  case_decide as Ht; [split; [done|rewrite Ht; by intros [_ [|] ] ]|]. case_decide as Hty.
  - split; [done|]. intros [_ [|] ]; naive_solver.
  - split; [|done]. intros _. split; [eauto|]. destruct (decide (hs_Type s = StreamTypeData)); [by left|].
    right. destruct (decide (hs_Type s = StreamTypeError)); [done|]. by destruct Hty.
Qed.

(** The value of a valid port is the same in both ways the code parses it. *)
Lemma valid_port s p : ParseUint 16 s = Some p → ParseInt_value 32 s = p ∧ p < 65536.
Proof.
  unfold ParseUint, ParseInt_value, ParseInt. destruct (parse_uint s) as [n|] eqn:Hn; cbn [mbind option_bind]; [|done].
  destruct (Z.ltb_spec n (2 ^ 16)) as [Hlt|]; [|done]. intros [= <-]. split; [|lia].
  destruct s as [|c s']; [done|]. cbn [parse_uint] in Hn. cbn [parse_digits] in Hn.
  assert (c ≠ Ascii.ascii_of_nat 45 ∧ c ≠ Ascii.ascii_of_nat 43) as [H1 H2] by (split; intros ->; by cbn in Hn).
  rewrite !decide_False by done. cbn [parse_uint parse_digits]. rewrite Hn. cbn [mbind option_bind].
  destruct (Z.ltb_spec n (2 ^ (32 - 1))); [done|lia].
Qed.

(** *** The invariant of the loop *)

(** The pair was put together from streams that arrived with its request ID. *)
Definition made_of (seen : list httpStream) (s : stream) : Prop :=
  (∀ d, dataStream s = Some d → ∃ hs, hs ∈ seen ∧ hs_ID hs = d ∧ hs_Type hs = StreamTypeData ∧ hs_RequestID hs = reqID s ∧
     port s = ParseInt_value 32 (hs_Port hs)) ∧
  (∀ e, errorStream s = Some e → ∃ hs, hs ∈ seen ∧ hs_ID hs = e ∧ hs_Type hs = StreamTypeError ∧ hs_RequestID hs = reqID s).
Record inv (seen : list httpStream) (st : State) : Prop := {
  inv_pairs id s : streamPairs st !! id = Some s → reqID s = id ∧ made_of seen s;
  inv_started s : s ∈ started (log st) ↔ streamPairs st !! reqID s = Some s ∧ prepared s = true;
  inv_once : NoDup (reqID <$> started (log st))
}.
Definition streams (evs : list event) : list httpStream := omap (λ ev, if ev is NewStream hs _ then Some hs else None) evs.

Lemma made_of_mono seen seen' s : (∀ hs, hs ∈ seen → hs ∈ seen') → made_of seen s → made_of seen' s.
Proof. intros Hsub [Hd He]. split; [intros d Hx; destruct (Hd d Hx) as (hs & ? & ?)|intros e Hx; destruct (He e Hx) as (hs & ? & ?)]; eauto. Qed.
Lemma started_app l1 l2 : started (l1 ++ l2) = started l1 ++ started l2.
Proof. apply omap_app. Qed.
Lemma started_close r (l : list stream) : started (l ≫= close r) = [].
Proof.
  induction l as [|s l IH]; [done|]. cbn [mbind list_bind]. rewrite started_app, IH, app_nil_r. unfold close, writeErr.
  by destruct (decide (r = "")), (dataStream s), (errorStream s).
Qed.

Lemma handle_stream_spec seen s hs s' start err :
  handleNewHTTPStream s hs = (s', start, err) → made_of seen s → reqID s = hs_RequestID hs →
  reqID s' = reqID s ∧ made_of (seen ++ [hs]) s' ∧
  (if start then prepared s = false ∧ prepared s' = true else s' = s ∨ prepared s = false ∧ prepared s' = false).
Proof.
  intros Hh [Hd He] Hid. assert (made_of (seen ++ [hs]) s) as Hs
    by (apply (made_of_mono seen); [intros x Hx; apply elem_of_app; by left|done]).
  assert (hs ∈ seen ++ [hs]) as Hin by (apply elem_of_app; right; by left). unfold handleNewHTTPStream in Hh. case_decide as Ht.
  - destruct (dataStream s) as [d|] eqn:Hds; [injection Hh as <- <- _; auto|]. injection Hh as <- <- _. split_and!; [done| |].
    + destruct Hs as [_ Hs]. split; [|exact Hs]. intros d [= <-]. exists hs. done.
    + assert (prepared s = false) as Hp by (unfold prepared; by rewrite Hds). destruct (prepared (set_data _ _ s)); auto.
  - case_decide as Ht2; [|injection Hh as <- <- _; auto].
    destruct (errorStream s) as [e|] eqn:Hes; [injection Hh as <- <- _; auto|]. injection Hh as <- <- _. split_and!; [done| |].
    + destruct Hs as [Hs _]. split; [exact Hs|]. intros e [= <-]. exists hs. done.
    + assert (prepared s = false) as Hp by (unfold prepared; rewrite Hes; by rewrite andb_false_r). destruct (prepared (set_error _ s)); auto.
Qed.
Lemma started_err err s : started (match err with Some e => writeErr e s | None => [] end) = [].
Proof. destruct err; [|done]. unfold writeErr. by destruct (errorStream s). Qed.

Lemma new_stream_inv seen st hs now :
  inv seen st → running st = true → inv (seen ++ [hs]) (step (NewStream hs now) st).
Proof.
  intros Hi Hrun. unfold step. rewrite Hrun. cbn [negb]. set (fresh := {| reqID := _ |}).
  set (s := default fresh (streamPairs st !! hs_RequestID hs)).
  assert (reqID s = hs_RequestID hs ∧ made_of seen s ∧
    ((streamPairs st !! hs_RequestID hs = Some s) ∨ (streamPairs st !! hs_RequestID hs = None ∧ prepared s = false))) as (Hid & Hm & Hlk).
  { unfold s. destruct (streamPairs st !! hs_RequestID hs) as [s1|] eqn:Hs; cbn [default id].
    - destruct (inv_pairs _ _ Hi _ _ Hs). by split_and!; [| |left].
    - split_and!; [done|by split|by right]. }
  clearbody s. destruct (handleNewHTTPStream s hs) as [ [s' start] err] eqn:Hh.
  destruct (handle_stream_spec _ _ _ _ _ _ Hh Hm Hid) as (Hid' & Hm' & Hp). rewrite Hid in Hid'.
  assert (∀ x, x ∈ started (log st) → reqID x = hs_RequestID hs → x = s ∧ prepared s = true) as Hsame.
  { intros x [Hx Hxp]%(inv_started _ _ Hi) He. rewrite He in Hx. destruct Hlk as [Hlk|[Hlk _] ]; [|congruence].
    assert (x = s) as -> by congruence. done. }
  constructor; cbn [streamPairs log].
  - intros id x Hx. apply lookup_insert_Some in Hx as [ [<- <-]|[? Hx] ]; [done|].
    destruct (inv_pairs _ _ Hi _ _ Hx). split; [done|]. apply (made_of_mono seen); [|done]. intros y Hy. apply elem_of_app. by left.
  - intros x. rewrite !started_app, started_err, app_nil_r, elem_of_app.
    destruct (decide (reqID x = hs_RequestID hs)) as [He|Hne].
    + rewrite He, lookup_insert_eq. destruct start; cbn [started omap list_omap].
      * rewrite list_elem_of_singleton. destruct Hp as [Hp Hp']. split.
        -- intros [Hx| ->]; [|done]. destruct (Hsame x Hx He) as [_ ?]. congruence.
        -- intros [ [= ->] _]. by right.
      * rewrite elem_of_nil. split.
        -- intros [Hx|[] ]. destruct (Hsame x Hx He) as [-> Hpx]. destruct Hp as [-> |[Hp _] ]; [done|congruence].
        -- intros [ [= <-] Hxp]. left. destruct Hp as [-> |[_ Hp] ]; [|congruence]. apply (inv_started _ _ Hi).
           destruct Hlk as [Hlk|[_ Hlk] ]; [by rewrite Hid|congruence].
    + rewrite lookup_insert_ne by done. rewrite (inv_started _ _ Hi x). destruct start; cbn [started omap list_omap].
      * rewrite list_elem_of_singleton. split; [intros [?| ->]; [done|by rewrite Hid' in Hne]|by left].
      * rewrite elem_of_nil. by split; [intros [?|[] ]|left].
  - rewrite !started_app, started_err, app_nil_r, fmap_app. destruct start; [|by rewrite app_nil_r; apply (inv_once _ _ Hi)].
    cbn. apply NoDup_app. split_and!; [apply (inv_once _ _ Hi)| |apply NoDup_singleton].
    intros k (x & -> & Hx)%list_elem_of_fmap Hk. apply list_elem_of_singleton in Hk. rewrite Hid' in Hk.
    destruct (Hsame x Hx Hk) as [_ ?]. destruct Hp. congruence.
Qed.
Lemma timeout_inv seen st now : inv seen st → running st = true → inv seen (step (TimeoutCheck now) st).
Proof.
  intros Hi Hrun. unfold step. rewrite Hrun. cbn [negb]. constructor; cbn [streamPairs log].
  - intros id x [Hx _]%map_lookup_filter_Some. by apply (inv_pairs _ _ Hi).
  - intros x. rewrite started_app, started_close, app_nil_r, (inv_started _ _ Hi x), map_lookup_filter_Some. cbn [snd].
    split; [intros [? Hp]; split_and!; [done| |done]; unfold expired; by rewrite Hp, andb_false_r|by intros [ [? _] ?] ].
  - rewrite started_app, started_close, app_nil_r. apply Hi.
Qed.
Lemma closed_inv seen st : inv seen st → running st = true → inv seen (step Closed st).
Proof.
  intros Hi Hrun. unfold step. rewrite Hrun. cbn [negb]. constructor; cbn [streamPairs log]; try (intros x; rewrite ?started_app, ?started_close, ?app_nil_r); try apply Hi.
  rewrite started_app, started_close, app_nil_r. apply Hi.
Qed.

Lemma run_pairs_snoc evs ev : run (evs ++ [ev]) = step ev (run evs).
Proof. unfold run. by rewrite foldl_app. Qed.
Lemma run_pairs_inv evs : inv (streams evs) (run evs).
Proof.
  induction evs as [|ev evs IH] using rev_ind.
  - constructor; cbn; [done|intros s; by rewrite elem_of_nil, lookup_empty; split; [|intros [] ]|constructor].
  - rewrite run_pairs_snoc. unfold streams. rewrite omap_app. fold (streams evs). destruct (running (run evs)) eqn:Hr.
    + destruct ev as [hs now|now|]; cbn [omap list_omap]; rewrite ?app_nil_r; [by apply new_stream_inv|by apply timeout_inv|by apply closed_inv].
    + unfold step. rewrite Hr. cbn [negb]. destruct IH as [H1 H2 H3]. constructor; [|done|done]. intros id s Hs.
      destruct (H1 _ _ Hs) as [? Hm]. split; [done|]. apply (made_of_mono (streams evs)); [|done]. intros y Hy. apply elem_of_app. by left.
Qed.

(** C34: over any sequence of streams, checks and the end of the connection, when all streams have passed the validation: a pair is
    forwarded when and only when it has both its streams, once, with the port its data stream asked for; both streams came with its
    request ID. No complete pair is ever dropped, and after a check no incomplete pair is older than the timeout. *)
Theorem pairs_forwarded_once evs :
  Forall (λ hs, validateNewHTTPStream hs = Ok hs) (streams evs) →
  let st := run evs in
  NoDup (reqID <$> started (log st)) ∧
  (∀ s, s ∈ started (log st) ↔ streamPairs st !! reqID s = Some s ∧ is_Some (dataStream s) ∧ is_Some (errorStream s)) ∧
  (∀ s, s ∈ started (log st) → ∃ d e, d ∈ streams evs ∧ e ∈ streams evs ∧
     dataStream s = Some (hs_ID d) ∧ errorStream s = Some (hs_ID e) ∧ hs_Type d = StreamTypeData ∧ hs_Type e = StreamTypeError ∧
     hs_RequestID d = reqID s ∧ hs_RequestID e = reqID s ∧ ParseUint 16 (hs_Port d) = Some (port s) ∧ 1 <= port s < 65536) ∧
  (∀ now id s, running st = true → streamPairs (step (TimeoutCheck now) st) !! id = Some s →
     prepared s = true ∨ now <= creationFailAt s).
Proof.
  intros Hv st. pose proof (run_pairs_inv evs) as Hi. fold st in Hi. rewrite Forall_forall in Hv.
  assert (∀ s d, made_of (streams evs) s → dataStream s = Some d → ∃ hs, hs ∈ streams evs ∧ hs_ID hs = d ∧ hs_Type hs = StreamTypeData ∧
    hs_RequestID hs = reqID s ∧ ParseUint 16 (hs_Port hs) = Some (port s) ∧ 1 <= port s < 65536) as Hport.
  { intros s d [Hd _] Hds. destruct (Hd d Hds) as (hs & Hin & Hid & Ht & Hr & Hp). exists hs.
    destruct (proj1 (validate_spec hs) (Hv hs Hin)) as [ (p & Hpp & Hge) _]. destruct (valid_port _ _ Hpp) as [Hval Hlt].
    rewrite Hp, Hval. split_and!; try done. }
  assert (∀ s, streamPairs st !! reqID s = Some s → prepared s = true ↔ is_Some (dataStream s) ∧ is_Some (errorStream s)) as Hprep.
  { intros s Hs. destruct (inv_pairs _ _ Hi _ _ Hs) as [_ Hm]. unfold prepared. rewrite !andb_true_iff, !bool_decide_eq_true, Z.ltb_lt.
    split; [by intros [? _]|]. intros [ [d Hd] He]. destruct (Hport s d Hm Hd) as (hs & _ & _ & _ & _ & _ & ?). rewrite Hd. split; [by split|lia]. }
  split_and!.
  - apply Hi.
  - intros s. rewrite (inv_started _ _ Hi). split; intros [Hs Hp]; (split; [done|]); by apply Hprep.
  - intros s [Hs Hp]%(inv_started _ _ Hi). destruct (inv_pairs _ _ Hi _ _ Hs) as [_ Hm]. apply Hprep in Hp as [ [d Hd] [e He] ]; [|done].
    destruct (Hport s d Hm Hd) as (hd & ? & <- & ? & ? & ? & ?). destruct Hm as [_ Hm]. destruct (Hm e He) as (he & ? & <- & ? & ?).
    exists hd, he. done.
  - intros now id s Hrun. unfold step. rewrite Hrun. cbn [negb streamPairs]. intros [_ Hx]%map_lookup_filter_Some.
    cbn [snd] in Hx. unfold expired in Hx. apply andb_false_iff in Hx as [Hx|Hx]; bool_to_Z; [by right|by left].
Qed.
End Loop.
End Pairs.

(** ** The data of a stream, to the device *)
Module Forward.

Definition MaxBufSize : Z := 1024 * 1024.
Definition EOF : string := "EOF".

Section Forward.
Import Manager.
Context {W : Type} (marshal_cmd : Cmd → list Z) (sendData : list Z → bool → W → W * option string).

Definition bufSize (m : baseManager) : Z := Z.min (b_maxDataSize m) MaxBufSize.

(** What a Read of the stream answers, and the manager as it is when the data is posted. *)
Record read := { r_Data : list Z; r_Err : option string; r_Manager : baseManager }.
Definition upstream (sid seq : Z) (completed : bool) (data : list Z) (m : baseManager) (w : W) : outcome (W * option string) :=
  '(_, w, r) ← PostData marshal_cmd sendData sid CMD_DATA_UPSTREAM seq completed data m w; Ret (w, p_err r).

(** The read routine: the world, the next sequence number and what was written to the error stream; without another Read to answer it
    waits. *)
Fixpoint read_loop (sid : Z) (reads : list read) (seq : Z) (w : W) : outcome (W * Z * list string) :=
  match reads with
  | [] => Diverge
  | r :: reads =>
      let errs := match r_Err r with Some e => if decide (e = EOF) then [] else ["read: " +:+ e] | None => [] end in
      if bool_decide (is_Some (r_Err r)) && bool_decide (r_Data r = []) then Ret (w, seq, errs)
      else
        '(w, err) ← upstream sid seq false (r_Data r) (r_Manager r) w;
        match err with
        | Some e => Ret (w, wrap64 (seq + 1), errs ++ ["post: " +:+ e])
        | None => '(w, seq, errs') ← read_loop sid reads (wrap64 (seq + 1)) w; Ret (w, seq, errs ++ errs')
        end
  end.
(** The whole routine, once the device is ready, with the end of the data; [last] is the manager then. *)
Definition upload (sid : Z) (ready : bool) (reads : list read) (last : baseManager) (w : W) : outcome (W * list string) :=
  '(w, seq, errs) ← (if ready then read_loop sid reads 0 w else Ret (w, 0, []));
  '(w, _) ← upstream sid seq true [] last w;
  Ret (w, errs).

(** The command a pair of streams starts the forwarding with: for the host, or for a pod by the runtime of the device. *)
Inductive Start := HostForward (uid network address : string) (port : Z) | RuntimeForward (uid network address : string) (port : Z).
Definition start_cmd (podUID : string) (s : Pairs.stream) : Start :=
  if decide (podUID = "") then HostForward podUID "tcp" "" (Pairs.port s) else RuntimeForward podUID "tcp" "" (Pairs.port s).

(** doPortForward up to its routines: the session of the forwarding, or what is done to the pair when there is none. *)
Record opened := { o_sid : Z; o_msgCh : option nat; o_ready : option nat }.
Context (marshal_start : Start → result (list Z)) (marshal_packet : Z → list Z → result (list Z)) (cmd_name : Z → string)
  (marshal_session_close : Z → list Z) (unmarshal_err : list Z → option (Z * string)) (err_text : Z * string → string).
Definition PKT_PORT_FORWARD : Z := 6.
Definition open_forward (podUID : string) (s : Pairs.stream) (m : baseManager) (w : W)
    : outcome (baseManager * W * (opened + list Pairs.Effect)) :=
  let pfCmd := marshal_start (start_cmd podUID s) in
  let command : result (Z * result (list Z)) :=
    if decide (podUID = "") then Ok (CMD_PORT_FORWARD, pfCmd)
    else data ← pfCmd; Ok (CMD_RUNTIME, marshal_packet PKT_PORT_FORWARD data) in
  match command with
  | Err e => Ret (m, w, inr (Pairs.close ("prepare: " +:+ e) s))
  | Ok (kind, payload) =>
    '(m, w, p) ← PostStreamCmd marshal_cmd cmd_name sendData kind (Some payload) (Wr <$> Pairs.dataStream s) (Wr <$> Pairs.errorStream s) false None m w;
    match ps_err p with
    | Some e => Ret (m, w, inr (Pairs.close ("prepare: " +:+ e) s))
    | None => Ret (m, w, inl {| o_sid := ps_realSid p; o_msgCh := ps_msgCh p; o_ready := ps_ready p |})
    end
  end.

(** The write routine, over the messages of the session until its channel is closed: the first one ends the pair, the rest is drained. *)
Definition on_forward_msg (s : Pairs.stream) (msg : Msg) : list Pairs.Effect :=
  match GetError unmarshal_err msg with
  | Some e => Pairs.close ("error happened in remote: " +:+ err_text e) s
  | None => Pairs.close ("unexpected non data msg " +:+ pretty (m_Kind msg)) s
  end.
Definition write_routine (s : Pairs.stream) (msgs : list Msg) : list Pairs.Effect :=
  (match msgs with [] => [] | msg :: _ => on_forward_msg s msg end) ++ Pairs.close "" s.

(** The read routine to its end: the upload, and the session closed. [last] is the manager then. *)
Definition read_routine (sid : Z) (ready : bool) (reads : list read) (last : baseManager) (w : W) : outcome (baseManager * W * list string) :=
  '(w, errs) ← upload sid ready reads last w;
  '(m, w, _) ← PostCmd marshal_cmd sendData sid CMD_SESSION_CLOSE (Some (Ok (marshal_session_close sid))) last w;
  Ret (m, w, errs).

(** Whatever the pair was told, both its streams are closed in the end. *)
Lemma write_routine_closes s msgs id : Pairs.dataStream s = Some id ∨ Pairs.errorStream s = Some id →
  Pairs.CloseStream id ∈ write_routine s msgs.
Proof.
  intros Hid. unfold write_routine. apply elem_of_app. right. unfold Pairs.close. rewrite decide_True by done. cbn [app].
  destruct Hid as [-> | ->]; set_solver.
Qed.

(** *** What reaches the device *)
Context (sent : list Z → W → W).
Hypothesis Hsend : ∀ bs w, sendData bs true w = (sent bs w, None).
Abbreviation send_cmds cs w := (foldl (λ w c, sent (marshal_cmd c) w) w cs).

Definition open_manager (n : Z) (m : baseManager) : Prop := b_stopped m = false ∧ b_maxDataSize m = n.

Lemma upstream_sent sid seq completed data m w n :
  open_manager n m → sid ≠ 0 → 0 < n → Z.of_nat (length data) <= n → 0 <= seq < 2 ^ 64 →
  upstream sid seq completed data m w = Ret (sent (marshal_cmd (the_cmd CMD_DATA_UPSTREAM sid seq completed data)) w, None).
Proof.
  intros [Hs Hn] Hsid Hpos Hlen Hseq. unfold upstream, PostData. rewrite Hs. change (CMD_DATA_UPSTREAM =? CMD_SESSION_CLOSE) with false.
  change (is_stream_cmd CMD_DATA_UPSTREAM) with false. change (_ || (CMD_DATA_UPSTREAM =? CMD_DATA_UPSTREAM)) with true.
  destruct (Z.eqb_spec sid 0); [done|]. rewrite (doPostData_spec marshal_cmd sendData sent Hsend) by (try done; lia). rewrite Hn.
  assert (pieces (length data) (Z.to_nat n) data = [data]) as ->.
  { destruct (length data) as [|k] eqn:Hl; [done|]. cbn [pieces]. rewrite Hl. destruct (Nat.ltb_spec (Z.to_nat n) (S k)); [lia|done]. }
  cbn [mbind outcome_bind commands imap foldl andb p_err]. cbn. rewrite andb_true_r, Z.add_0_r.
  unfold wrap64. by rewrite Z.mod_small by lia.
Qed.

Definition going (n : Z) (r : read) : Prop :=
  (r_Err r = None ∨ r_Data r ≠ []) ∧ Z.of_nat (length (r_Data r)) <= n ∧ open_manager n (r_Manager r).
Definition stops (r : read) : Prop := is_Some (r_Err r) ∧ r_Data r = [].

Definition data_cmds (sid seq : Z) (datas : list (list Z)) : list Cmd :=
  imap (λ i d, the_cmd CMD_DATA_UPSTREAM sid (wrap64 (seq + Z.of_nat i)) false d) datas.
Lemma data_cmds_cons sid seq d datas :
  0 <= seq < 2 ^ 64 → data_cmds sid seq (d :: datas) = the_cmd CMD_DATA_UPSTREAM sid seq false d :: data_cmds sid (wrap64 (seq + 1)) datas.
Proof.
  intros Hs. unfold data_cmds. cbn [imap]. f_equal.
  - f_equal. unfold wrap64. rewrite Z.add_0_r. by apply Z.mod_small.
  - apply imap_ext. intros i x _. cbn [compose]. f_equal. unfold wrap64. rewrite Zplus_mod_idemp_l. f_equal. lia.
Qed.
Lemma data_cmds_snoc sid seq datas d :
  data_cmds sid seq (datas ++ [d]) =
  data_cmds sid seq datas ++ [the_cmd CMD_DATA_UPSTREAM sid (wrap64 (seq + Z.of_nat (length datas))) false d].
Proof. unfold data_cmds. rewrite imap_app. cbn. by rewrite Nat.add_0_r. Qed.
(** the data and its end, as the chunks of one message *)
Lemma upload_cmds sid datas :
  commands CMD_DATA_UPSTREAM sid 0 true (datas ++ [ [] ]) =
  data_cmds sid 0 datas ++ [the_cmd CMD_DATA_UPSTREAM sid (wrap64 (Z.of_nat (length datas))) true [] ].
Proof.
  unfold commands, data_cmds. rewrite imap_app, length_app. cbn [imap compose length]. rewrite Nat.add_0_r.
  rewrite (Nat.add_1_r (length datas)), Nat.eqb_refl. f_equal. apply imap_ext. intros i d Hi. apply lookup_lt_Some in Hi. f_equal.
  by destruct (Nat.eqb_spec (S i) (S (length datas))); [lia|].
Qed.
Lemma upload_reassembles sid datas order i :
  let chunks := datas ++ [ [] ] in Z.of_nat (length chunks) < 2 ^ 64 →
  (∀ j, j ∈ order ++ [i] → (j < length chunks)%nat) → ¬ covers chunks order → covers chunks (order ++ [i]) →
  ∃ cs q out, mapM (λ j, commands CMD_DATA_UPSTREAM sid 0 true chunks !! j) (order ++ [i]) = Some cs ∧
    receive_cmds cs NewSeqQueue [] = Ret (q, out, replicate (length order) false ++ [true]) ∧ concat out.*2 = concat datas.
Proof.
  intros chunks Hlen Hin Hnot Hall.
  destruct (commands_reassemble CMD_DATA_UPSTREAM sid chunks order i) as (cs & q & out & ? & ? & Hc);
    [unfold chunks; rewrite length_app; cbn; lia|done..|]. exists cs, q, out. split_and!; [done|done|]. rewrite Hc. unfold chunks.
  rewrite concat_app. cbn. by rewrite app_nil_r.
Qed.

Lemma read_loop_sent sid n datas r rest seq w :
  sid ≠ 0 → 0 < n → Forall (going n) datas → stops r → 0 <= seq < 2 ^ 64 →
  ∃ errs, read_loop sid (datas ++ r :: rest) seq w =
    Ret (send_cmds (data_cmds sid seq (r_Data <$> datas)) w, wrap64 (seq + Z.of_nat (length datas)), errs).
Proof.
  intros Hsid Hn Hd [Hre Hrd]. revert seq w. induction datas as [|d datas IH]; intros seq w Hseq.
  - cbn [app read_loop]. rewrite !bool_decide_true by done. cbn [andb]. eexists. cbn. unfold wrap64. rewrite Z.add_0_r, Z.mod_small by lia. done.
  - apply Forall_cons in Hd as [ (Hgo & Hlen & Hm) Hd]. cbn [app read_loop].
    assert (bool_decide (is_Some (r_Err d)) && bool_decide (r_Data d = []) = false) as ->.
    { destruct Hgo as [-> |Hgo]; [done|]. by rewrite (bool_decide_false (r_Data d = [])), andb_false_r by done. }
    rewrite (upstream_sent sid seq false (r_Data d) _ w n) by done. cbn [mbind outcome_bind].
    assert (0 <= wrap64 (seq + 1) < 2 ^ 64) as Hseq' by (apply Z.mod_pos_bound; lia).
    destruct (IH Hd (wrap64 (seq + 1)) (sent (marshal_cmd (the_cmd CMD_DATA_UPSTREAM sid seq false (r_Data d))) w) Hseq') as [errs ->].
    cbn [mbind outcome_bind]. eexists. cbn [fmap list_fmap length]. rewrite data_cmds_cons by done. cbn [foldl]. do 3 f_equal.
    unfold wrap64. rewrite Zplus_mod_idemp_l. f_equal. lia.
Qed.
(** C11: over a transport that is up, everything read from a stream reaches the device in order and completely: each read goes out as one
    numbered command, the end as a last one, and a device that puts the commands together with a sequence queue gets exactly the data
    read, and the end, in whatever order and however often the commands arrive. *)
Theorem uploaded_data_reassembles sid n datas r rest last w :
  sid ≠ 0 → 0 < n → Forall (going n) datas → stops r → open_manager n last → Z.of_nat (length datas) < 2 ^ 64 - 1 →
  let chunks := (r_Data <$> datas) ++ [ [] ] in
  (∃ errs, upload sid true (datas ++ r :: rest) last w = Ret (send_cmds (commands CMD_DATA_UPSTREAM sid 0 true chunks) w, errs)) ∧
  ∀ order i, (∀ j, j ∈ order ++ [i] → (j < length chunks)%nat) → ¬ covers chunks order → covers chunks (order ++ [i]) →
    ∃ cs q out, mapM (λ j, commands CMD_DATA_UPSTREAM sid 0 true chunks !! j) (order ++ [i]) = Some cs ∧
      receive_cmds cs NewSeqQueue [] = Ret (q, out, replicate (length order) false ++ [true]) ∧
      concat out.*2 = concat (r_Data <$> datas).
Proof.
  intros Hsid Hn Hd Hr Hl Hlen chunks.
  assert (length chunks = S (length datas)) as Hcl by (unfold chunks; rewrite length_app, length_fmap; cbn; lia). split.
  - destruct (read_loop_sent sid n datas r rest 0 w Hsid Hn Hd Hr ltac:(lia)) as [errs E]. exists errs. unfold upload. rewrite E.
    cbn [mbind outcome_bind]. rewrite (upstream_sent sid _ true [] last _ n); [|done|done|done|cbn; lia|apply Z.mod_pos_bound; lia].
    cbn [mbind outcome_bind]. do 2 f_equal. unfold chunks. by rewrite upload_cmds, foldl_app, length_fmap.
  - intros order i Hin Hnot Hall. apply (upload_reassembles sid (r_Data <$> datas) order i); [fold chunks; lia|done..].
Qed.
(** The end of the data is the end of the session: when the read routine has ended, however it did, the session is not in the table any
    more, and what the device still sends on it is dropped. *)
Lemma read_routine_ends sid ready reads last w m' w' errs : SessionManager.table_inv (b_sessions last) → b_stopped last = false →
  read_routine sid ready reads last w = Ret (m', w', errs) → SessionManager.m_sessions (b_sessions m') !! sid = None.
Proof.
  intros Hinv Hst. unfold read_routine. destruct (upload _ _ _ _ _) as [[w1 e1]| |]; cbn [mbind outcome_bind]; [|done..].
  cbn [PostCmd]. unfold PostData. rewrite Hst. change (CMD_SESSION_CLOSE =? CMD_SESSION_CLOSE) with true. cbv iota zeta.
  destruct (doPostData _ _ _ _ _ _ _ _ _ _) as [[[w2 l2] e2]| |]; cbn; [|done..]. intros [= <- _ _]. cbn.
  destruct (SessionManager.Delete_inv sid _ Hinv) as [_ ->]. apply lookup_delete_eq.
Qed.
End Forward.
End Forward.

(** ** Pairs over a websocket *)
Module WebSocket.

(** Two channels for every port, the data's and the one for errors. Each pair is greeted with its port. *)
Definition channels (ports : list Z) : nat := length ports * 2.
Definition pair_of (i : nat) (p : Z) : Pairs.stream :=
  {| Pairs.reqID := ""; Pairs.creationFailAt := 0; Pairs.port := p; Pairs.dataStream := Some (i * 2)%nat; Pairs.errorStream := Some (i * 2 + 1)%nat |}.
Definition pairs (ports : list Z) : list Pairs.stream := imap pair_of ports.
(** binary.LittleEndian.PutUint16 *)
Definition portBytes (p : Z) : list Z := let u := p mod 2 ^ 16 in [Z.land u 255; Z.shiftr u 8].
Definition greetings (ports : list Z) : list (nat * list Z) :=
  concat (imap (λ i p, [(i * 2, portBytes p); (i * 2 + 1, portBytes p)]%nat) ports).

(** Every port has one pair, complete from the start, whose channels are those of no other pair; and the client can read the port. *)
Lemma pairs_spec ports : Forall (λ p, 0 < p < 2 ^ 16) ports →
  (Pairs.port <$> pairs ports = ports) ∧ Forall (λ s, Pairs.prepared s = true) (pairs ports) ∧
  (∀ i j s1 s2 c, pairs ports !! i = Some s1 → pairs ports !! j = Some s2 →
     (Pairs.dataStream s1 = Some c ∨ Pairs.errorStream s1 = Some c) → (Pairs.dataStream s2 = Some c ∨ Pairs.errorStream s2 = Some c) →
     i = j ∧ (c < channels ports)%nat) ∧
  Forall (λ p, match portBytes p with [lo; hi] => lo + 256 * hi = p | _ => False end) ports.
Proof.
  intros Hp. unfold pairs. split; [|split; [|split] ].
  - apply list_eq. intros i. rewrite list_lookup_fmap, list_lookup_imap. by destruct (ports !! i).
  - apply Forall_lookup. intros i s Hs. rewrite list_lookup_imap in Hs. apply fmap_Some in Hs as (p & Hl & ->).
    pose proof (Forall_lookup_1 _ _ _ _ Hp Hl) as [? _]. unfold Pairs.prepared. cbn. by apply Z.ltb_lt.
  - intros i j s1 s2 c H1 H2 Hc1 Hc2. rewrite list_lookup_imap in H1, H2. apply fmap_Some in H1 as (p1 & Hl1 & ->), H2 as (p2 & Hl2 & ->).
    cbn in Hc1, Hc2. apply lookup_lt_Some in Hl1. unfold channels.
    assert (c = i * 2 ∨ c = i * 2 + 1)%nat by (destruct Hc1 as [ [= <-]|[= <-] ]; auto).
    assert (c = j * 2 ∨ c = j * 2 + 1)%nat by (destruct Hc2 as [ [= <-]|[= <-] ]; auto). lia.
  - eapply Forall_impl; [exact Hp|]. intros p Hr. cbn beta in Hr. cbn [portBytes]. rewrite Z.mod_small by lia.
    change 255 with (Z.ones 8). rewrite Z.land_ones, Z.shiftr_div_pow2 by lia. pose proof (Z.div_mod p (2 ^ 8)). lia.
Qed.
End WebSocket.

(** ** encoding/binary's unsigned varints *)
Module Uvarint.

(** binary.PutUvarint; a 64-bit integer has at most ten bytes. *)
Fixpoint put (fuel : nat) (x : Z) : list Z :=
  match fuel with
  | O => []
  | S fuel => if x <? 128 then [x] else Z.lor (x mod 256) 128 :: put fuel (Z.shiftr x 7)
  end.
Definition PutUvarint (x : Z) : list Z := put 10 x.
(** binary.ReadUvarint: what was read and the rest of the input; None is an error, of the input or an overflow. [n] is the number of bytes
    that may still come. *)
Fixpoint read (n : nat) (x s : Z) (bs : list Z) : option (Z * list Z) :=
  match n, bs with
  | O, _ | _, [] => None
  | S n, b :: bs =>
      if b <? 128 then if bool_decide (n = 0%nat) && (1 <? b) then None else Some (Z.lor x (wrap64 (Z.shiftl b s)), bs)
      else read n (Z.lor x (wrap64 (Z.shiftl (Z.land b 127) s))) (s + 7) bs
  end.
Definition ReadUvarint (bs : list Z) : option (Z * list Z) := read 10 0 0 bs.

Lemma lor_pow a b s : 0 <= s → 0 <= a < 2 ^ s → Z.lor a (b * 2 ^ s) = a + b * 2 ^ s.
Proof.
  intros Hs Ha. rewrite <-Z.shiftl_mul_pow2 by done. rewrite <-Z.add_lor_land.
  assert (Z.land a (Z.shiftl b s) = 0) as ->; [|lia]. apply Z.bits_inj'. intros n Hn. rewrite Z.land_spec, Z.bits_0.
  destruct (Z.lt_ge_cases n s) as [Hlt|Hge]; [by rewrite Z.shiftl_spec_low, andb_false_r by done|].
  destruct (Z.eq_dec a 0) as [->|]; [by rewrite Z.testbit_0_l|]. rewrite (Z.bits_above_log2 a n); [done|lia|].
  apply Z.log2_lt_pow2; [lia|]. apply Z.lt_le_trans with (2 ^ s); [lia|]. by apply Z.pow_le_mono_r.
Qed.
Lemma low_byte x : 0 <= x → Z.land (Z.lor (x mod 256) 128) 127 = x mod 128 ∧ 128 <= Z.lor (x mod 256) 128.
Proof.
  intros Hx. assert (∀ b, (b < 256)%nat → Z.land (Z.lor (Z.of_nat b) 128) 127 = Z.of_nat b mod 128 ∧ 128 <= Z.lor (Z.of_nat b) 128) as Hbyte.
  { intros b Hb.
    assert (Forall (λ b, Z.land (Z.lor (Z.of_nat b) 128) 127 = Z.of_nat b mod 128 ∧ 128 <= Z.lor (Z.of_nat b) 128) (seq 0 256)) as Hall
      by (refine (bool_decide_unpack _ _); vm_compute; exact I).
    rewrite Forall_forall in Hall. apply Hall, elem_of_seq. lia. }
  destruct (Hbyte (Z.to_nat (x mod 256))) as [H1 H2]; [pose proof (Z.mod_pos_bound x 256); lia|].
  rewrite Z2Nat.id in H1, H2 by (apply Z.mod_pos_bound; lia). split; [|done]. rewrite H1.
  by rewrite Z.mod_mod_divide by (by exists 2).
Qed.

Lemma put_length fuel x : (length (put fuel x) <= fuel)%nat.
Proof. revert x. induction fuel as [|fuel IH]; intros x; cbn [put]; [done|]. destruct (x <? 128); cbn [length]; [lia|]. specialize (IH (Z.shiftr x 7)). lia. Qed.
Lemma put_bytes fuel x : 0 <= x → Forall is_byte (put fuel x).
Proof.
  revert x. induction fuel as [|fuel IH]; intros x Hx; cbn [put]; [constructor|]. destruct (Z.ltb_spec x 128).
  - apply Forall_singleton. unfold is_byte. lia.
  - constructor; [|apply IH; rewrite Z.shiftr_div_pow2 by lia; apply Z.div_pos; lia].
    destruct (low_byte x Hx) as [_ Hge]. unfold is_byte. split; [lia|]. pose proof (Z.mod_pos_bound x 256 ltac:(lia)).
    destruct (Z.eq_dec (Z.lor (x mod 256) 128) 0) as [->|]; [lia|]. change (Z.lor (x mod 256) 128 < 2 ^ 8). apply Z.log2_lt_pow2; [lia|].
    rewrite Z.log2_lor by lia. change (Z.log2 128) with 7. apply Z.max_lub_lt; [|lia].
    destruct (Z.eq_dec (x mod 256) 0) as [->|]; [cbn; lia|]. apply Z.log2_lt_pow2; lia.
Qed.

(** Reading goes on where [x], of [s] bits, stops. *)
Lemma read_put n x s y rest :
  0 <= s → 0 <= x < 2 ^ s → 0 <= y → x + y * 2 ^ s < 2 ^ 64 → s + 7 * Z.of_nat n = 70 → (0 < n)%nat →
  read n x s (put n y ++ rest) = Some (x + y * 2 ^ s, rest).
Proof.
  revert x s y. induction n as [|n IH]; intros x s y Hs Hx Hy Hlt Hn Hpos; [lia|]. cbn [put].
  assert (0 < 2 ^ s) as Hp by (apply Z.pow_pos_nonneg; lia).
  destruct (Z.ltb_spec y 128) as [Hsmall|Hbig]; cbn [app read].
  - destruct (Z.ltb_spec y 128); [|lia].
    assert (bool_decide (n = 0%nat) && (1 <? y) = false) as ->.
    { destruct (decide (n = 0%nat)) as [->|]; [|by rewrite bool_decide_false]. cbn [Z.of_nat] in Hn. assert (s = 63) as -> by lia.
      rewrite bool_decide_true by done. cbn [andb]. apply Z.ltb_ge. change (2 ^ 64) with (2 * 2 ^ 63) in Hlt. nia. }
    unfold wrap64. rewrite Z.shiftl_mul_pow2, Z.mod_small, lor_pow by (try done; nia). done.
  - destruct (low_byte y Hy) as [Hl Hge]. destruct (Z.ltb_spec (Z.lor (y mod 256) 128) 128); [lia|]. rewrite Hl.
    pose proof (Z.mod_pos_bound y 128 ltac:(lia)). pose proof (Z.div_mod y 128 ltac:(lia)) as Hdm.
    unfold wrap64. rewrite Z.shiftl_mul_pow2, Z.mod_small, lor_pow by (try done; nia).
    rewrite Z.shiftr_div_pow2 by lia. change (2 ^ 7) with 128.
    assert (2 ^ (s + 7) = 128 * 2 ^ s) as Hpow by (rewrite Z.pow_add_r by lia; change (2 ^ 7) with 128; lia).
    assert (0 < n)%nat.
    { destruct n; [|lia]. cbn [Z.of_nat] in Hn. assert (s = 63) as -> by lia. change (2 ^ 64) with (2 * 2 ^ 63) in Hlt. nia. }
    rewrite IH; [|lia|nia|apply Z.div_pos; lia|nia|lia|done]. do 2 f_equal. nia.
Qed.
Lemma uvarint_roundtrip x rest : 0 <= x < 2 ^ 64 → ReadUvarint (PutUvarint x ++ rest) = Some (x, rest).
Proof.
  intros Hx. unfold ReadUvarint, PutUvarint. rewrite (read_put 10 0 0 x rest); [|lia..]. by rewrite Z.pow_0_r, Z.mul_1_r.
Qed.
Lemma read_shorter n x s bs r rest : read n x s bs = Some (r, rest) → (length rest < length bs)%nat.
Proof.
  revert x s bs. induction n as [|n IH]; intros x s bs; [done|]. cbn [read]. destruct bs as [|b bs]; [done|].
  destruct (b <? 128); [destruct (_ && _); [done|]; intros [= _ <-]; cbn; lia|]. intros Hr%IH. cbn. lia.
Qed.
End Uvarint.

(** ** The packet protocol of a forward to the host *)
Module Custom.
Import Uvarint.

Definition newline : Z := 10.
Definition carriage_return : Z := 13.
Fixpoint cut_line (bs : list Z) : option (list Z * list Z) :=
  match bs with
  | [] => None
  | b :: bs => if b =? newline then Some ([], bs) else '(l, r) ← cut_line bs; Some (b :: l, r)
  end.
Definition drop_cr (l : list Z) : list Z :=
  match last l with Some b => if b =? carriage_return then take (length l - 1) l else l | None => l end.
(** textproto's ReadLine: the line without its end and the rest; the last line may have no end. None is io.EOF. *)
Definition ReadLine (bs : list Z) : option (list Z * list Z) :=
  match cut_line bs with
  | Some (l, r) => Some (drop_cr l, r)
  | None => if decide (bs = []) then None else Some (bs, [])
  end.
(** "port-forward" *)
Definition start_message : list Z := [112; 111; 114; 116; 45; 102; 111; 114; 119; 97; 114; 100].
Fixpoint find_start (tries : nat) (bs : list Z) : option (list Z) :=
  match tries with
  | O => None
  | S tries => match ReadLine bs with
               | None => None
               | Some (line, rest) => if decide (line = start_message) then Some rest else find_start tries rest
               end
  end.

(** CustomPortForwardOptions, and what is done to the request and its connection until the routines run. *)
Record CustomPortForwardOptions := { cp_Packet : bool; cp_Network : string; cp_Address : string; cp_Port : Z }.
Inductive Effect := HttpErr (code : Z) (text : string) | Header (sid maxPayloadSize : Z) | CloseCanWrite | CloseConn.

Section Open.
Import Manager.
Context {W : Type} (marshal_cmd : Cmd → list Z) (sendData : list Z → bool → W → W * option string) (cmd_name : Z → string)
  (marshal_custom : CustomPortForwardOptions → result (list Z)).
(** [decoded] is the body of the request; [hijacked] the outcome of taking the connection over; [conn] is its writer, [canWrite] the channel
    made for the session; [header] the error of writing the header of the answer. *)
Definition doCustomPortForward (decoded : result CustomPortForwardOptions) (hijacked : bool) (conn canWrite : nat) (header : option string)
    (m : baseManager) (w : W) : outcome (baseManager * W * list Effect * option (CustomPortForwardOptions * Z)) :=
  match decoded with
  | Err e => Ret (m, w, [HttpErr 400 e], None)
  | Ok opts =>
    if negb hijacked then Ret (m, w, [HttpErr 500 "unable to hijack response"], None) else
    '(m, w, p) ← PostStreamCmd marshal_cmd cmd_name sendData CMD_PORT_FORWARD (Some (marshal_custom opts)) (Some (Wr conn)) None
                   (cp_Packet opts) (Some canWrite) m w;
    match ps_err p with
    | Some _ => Ret (m, w, [CloseCanWrite; CloseConn], None)
    | None =>
      let answer := Header (ps_realSid p) (b_maxDataSize m) in
      match header with
      | Some _ => Ret (m, w, [answer; CloseCanWrite; CloseConn], None)
      | None => Ret (m, w, [answer; CloseCanWrite], Some (opts, ps_realSid p))
      end
    end
  end.

(** The device's data waits for the header: the signal it waits for is given once, after the header if there is one. *)
Lemma header_first decoded hijacked conn canWrite header m w m' w' effects served :
  doCustomPortForward decoded hijacked conn canWrite header m w = Ret (m', w', effects, served) →
  (∃ l, effects = l ++ [CloseCanWrite] ∨ effects = l ++ [CloseCanWrite; CloseConn] ∨ ∃ c t, effects = l ++ [HttpErr c t]) ∧
  (is_Some served → ∃ sid n, effects = [Header sid n; CloseCanWrite]).
Proof.
  unfold doCustomPortForward. destruct decoded as [opts|e]; [|intros [= _ _ <- <-]; split; [exists []; naive_solver|by intros [? ?] ] ].
  destruct hijacked; cbn [negb]; [|intros [= _ _ <- <-]; split; [exists []; naive_solver|by intros [? ?] ] ].
  destruct (PostStreamCmd _ _ _ _ _ _ _ _ _ _ _) as [[[m1 w1] p]| |]; cbn [mbind outcome_bind]; [|done..].
  destruct (ps_err p); [intros [= _ _ <- <-]; split; [exists []; naive_solver|by intros [? ?] ]|].
  destruct header; intros [= _ _ <- <-]; (split; [exists [Header (ps_realSid p) (b_maxDataSize m1)]; naive_solver|]); [by intros [? ?]|eauto].
Qed.
(** When the header cannot be written, the connection is closed and the session is left: in the table, and open at the device. *)
Lemma failed_header_leaks opts conn canWrite e m w m' w' p :
  PostStreamCmd marshal_cmd cmd_name sendData CMD_PORT_FORWARD (Some (marshal_custom opts)) (Some (Wr conn)) None (cp_Packet opts)
    (Some canWrite) m w = Ret (m', w', p) → ps_err p = None →
  doCustomPortForward (Ok opts) true conn canWrite (Some e) m w =
    Ret (m', w', [Header (ps_realSid p) (b_maxDataSize m'); CloseCanWrite; CloseConn], None).
Proof. intros E Hp. unfold doCustomPortForward. cbn [negb]. rewrite E. cbn [mbind outcome_bind]. by rewrite Hp. Qed.
End Open.

Section Custom.
(** sendData, by PostEncodedData *)
Context {W : Type} (sendData : list Z → bool → W → W * option string).

Fixpoint packets (fuel : nat) (maxSize : Z) (ensureSend : bool) (bs : list Z) (w : W) : outcome W :=
  match fuel with
  | O => Diverge
  | S fuel =>
      match ReadUvarint bs with
      | None => Ret w
      | Some (size, rest) =>
          if maxSize <? size then Ret w
          else if (length rest <? Z.to_nat size)%nat then Ret w
          else
            let '(w, err) := sendData (take (Z.to_nat size) rest) ensureSend w in
            if bool_decide (is_Some err) && ensureSend then Ret w
            else packets fuel maxSize ensureSend (drop (Z.to_nat size) rest) w
      end
  end.
(** The read routine over all that the client ever sends, then the end of the data and the session (as in Forward), which is [finish]. *)
Definition read_custom (maxSize : Z) (packet : bool) (bs : list Z) (w : W) : outcome W :=
  match find_start 5 bs with
  | None => Ret w
  | Some rest => packets (S (length rest)) maxSize (negb packet) rest w
  end.

(** The routine always ends: every packet takes a byte at least. *)
Lemma packets_total fuel maxSize ensureSend bs w : (length bs < fuel)%nat → ∃ w', packets fuel maxSize ensureSend bs w = Ret w'.
Proof.
  revert bs w. induction fuel as [|fuel IH]; intros bs w Hf; [lia|]. cbn [packets].
  destruct (ReadUvarint bs) as [ [size rest]|] eqn:Hr; [|eauto]. apply read_shorter in Hr.
  destruct (maxSize <? size); [eauto|]. destruct (length rest <? Z.to_nat size)%nat; [eauto|].
  destruct (sendData _ _ _) as [w1 err]. destruct (_ && _); [eauto|]. apply IH. rewrite length_drop. lia.
Qed.

(** What a client sends: some lines, the start message, and the packets with their sizes. *)
Definition frame (d : list Z) : list Z := PutUvarint (Z.of_nat (length d)) ++ d.
Definition line_ok (l : list Z) : Prop := (newline ∉ l) ∧ drop_cr l ≠ start_message.
Definition client (lines : list (list Z)) (ds : list (list Z)) : list Z :=
  (lines ≫= (λ l, l ++ [newline])) ++ (start_message ++ [newline] ++ (ds ≫= frame)).

Lemma cut_line_app l rest : newline ∉ l → cut_line (l ++ newline :: rest) = Some (l, rest).
Proof.
  induction l as [|b l IH]; intros Hn; [done|]. cbn. destruct (Z.eqb_spec b newline) as [->|]; [exfalso; apply Hn; left|].
  rewrite IH by (intros ?; apply Hn; by right). done.
Qed.
Lemma find_start_client lines tries rest :
  (length lines < tries)%nat → Forall line_ok lines →
  find_start tries ((lines ≫= (λ l, l ++ [newline])) ++ start_message ++ newline :: rest) = Some rest.
Proof.
  revert tries. induction lines as [|l lines IH]; intros tries Ht Hok; (destruct tries as [|tries]; [cbn in Ht; lia|]); cbn [find_start].
  - cbn [mbind list_bind app]. unfold ReadLine. rewrite (cut_line_app start_message) by (by apply (bool_decide_unpack _)).
    by rewrite decide_True.
  - apply Forall_cons in Hok as [ [Hn Hs] Hok]. cbn [mbind list_bind]. rewrite <-!app_assoc. cbn [app]. unfold ReadLine.
    rewrite cut_line_app, decide_False by done. apply IH; [cbn in Ht; lia|done].
Qed.

Context (sent : list Z → W → W).
Lemma packets_sent fuel maxSize ensureSend ds w :
  (∀ bs w, sendData bs ensureSend w = (sent bs w, None)) → maxSize < 2 ^ 64 →
  Forall (λ d, Z.of_nat (length d) <= maxSize) ds → (length (ds ≫= frame) < fuel)%nat →
  packets fuel maxSize ensureSend (ds ≫= frame) w = Ret (foldl (λ w d, sent d w) w ds).
Proof.
  intros Hsend Hmax Hd. revert fuel w. induction ds as [|d ds IH]; intros fuel w Hf; (destruct fuel as [|fuel]; [lia|]); [done|].
  apply Forall_cons in Hd as [Hdl Hd]. change ((d :: ds) ≫= frame) with (frame d ++ (ds ≫= frame)) in *.
  set (rest := ds ≫= frame) in *. assert (frame d ++ rest = PutUvarint (Z.of_nat (length d)) ++ d ++ rest) as E
    by (unfold frame; by rewrite app_assoc). rewrite E in *. cbn [packets].
  rewrite uvarint_roundtrip by lia. destruct (Z.ltb_spec maxSize (Z.of_nat (length d))); [lia|].
  rewrite Nat2Z.id. destruct (Nat.ltb_spec (length (d ++ rest)) (length d)); [rewrite length_app in *; lia|].
  rewrite take_app_length, drop_app_length, Hsend. rewrite bool_decide_false by (by intros [? ?]). cbn [andb foldl].
  apply IH; [done|]. rewrite !length_app in Hf. assert (0 < length (PutUvarint (Z.of_nat (length d))))%nat; [|lia].
  unfold PutUvarint. cbn [put]. destruct (_ <? 128); cbn [length]; lia.
Qed.

(** C35: the packet protocol of a forward is read back exactly: after at most four other lines and the start message, each packet the
    client frames, up to the size the manager allows, is posted as it was, in order, and nothing else is; the routine ends with the
    client's data. *)
Theorem client_packets_posted maxSize packet lines ds w :
  (∀ bs w, sendData bs (negb packet) w = (sent bs w, None)) → maxSize < 2 ^ 64 → (length lines <= 4)%nat → Forall line_ok lines →
  Forall (λ d, Z.of_nat (length d) <= maxSize) ds →
  read_custom maxSize packet (client lines ds) w = Ret (foldl (λ w d, sent d w) w ds).
Proof.
  intros Hsend Hmax Hl Hok Hd. unfold read_custom, client. cbn [app]. rewrite find_start_client by (try done; lia).
  apply packets_sent; try done. lia.
Qed.
End Custom.
End Custom.

Module PortForwardExamples.

Definition data1 : Pairs.httpStream := {| Pairs.hs_ID := 1; Pairs.hs_Type := "data"; Pairs.hs_Port := "8080"; Pairs.hs_RequestID := "r" |}.
Definition error1 : Pairs.httpStream := {| Pairs.hs_ID := 2; Pairs.hs_Type := "error"; Pairs.hs_Port := "8080"; Pairs.hs_RequestID := "r" |}.
Definition lonely : Pairs.httpStream := {| Pairs.hs_ID := 3; Pairs.hs_Type := "data"; Pairs.hs_Port := "81"; Pairs.hs_RequestID := "q" |}.
Definition evs : list Pairs.event :=
  [Pairs.NewStream error1 0; Pairs.NewStream lonely 1; Pairs.NewStream data1 2; Pairs.NewStream data1 3; Pairs.TimeoutCheck 100; Pairs.Closed].
Example log_of_evs :
  let pair := {| Pairs.reqID := "r"; Pairs.creationFailAt := 50; Pairs.port := 8080; Pairs.dataStream := Some 1%nat; Pairs.errorStream := Some 2%nat |} in
  Pairs.log (Pairs.run 50 evs) =
    [Pairs.Start pair; Pairs.WriteErr 2 "data stream already assigned"; Pairs.CloseStream 3; Pairs.CloseStream 1; Pairs.CloseStream 2].
Proof. by vm_compute. Qed.
Lemma pairs_forwarded_once_witness :
  length (Pairs.started (Pairs.log (Pairs.run 50 evs))) = 1%nat ∧ NoDup (Pairs.reqID <$> Pairs.started (Pairs.log (Pairs.run 50 evs))).
Proof.
  split; [by vm_compute|]. apply (Pairs.pairs_forwarded_once 50 evs). repeat constructor.
Defined.

Import Forward Connectivity.Examples.
Definition rd (d : list Z) (e : option string) : read := {| r_Data := d; r_Err := e; r_Manager := new_grpc |}.
Definition n : Z := Manager.b_maxDataSize new_grpc.
Lemma uploaded_data_reassembles_witness :
  let reads := [rd [1; 2] None; rd [] None; rd [3] (Some EOF)] in
  ∃ errs, upload enc_cmd wire_send 5 true (reads ++ [rd [] (Some EOF)]) new_grpc [] =
    Ret (enc_cmd <$> Manager.commands CMD_DATA_UPSTREAM 5 0 true [ [1; 2]; []; [3]; [] ], errs).
Proof.
  intros reads. destruct (uploaded_data_reassembles enc_cmd wire_send wire_sent (λ _ _, eq_refl) 5 n reads (rd [] (Some EOF)) [] new_grpc [])
    as [ [errs E] _]; [done|by vm_compute| |by split|by split|by vm_compute|exists errs; by rewrite E].
  repeat (apply Forall_cons; split; [|try apply Forall_nil; try done]);
    (split_and!; [|by vm_compute|done]); [by left|by left|by right].
Defined.

(** "hi", the start message and two packets, one empty *)
Definition sent_by_client : list Z := Custom.client [ [104; 105] ] [ [7; 8; 9]; [] ].
Lemma client_packets_posted_witness :
  sent_by_client = [104; 105; 10] ++ Custom.start_message ++ [10; 3; 7; 8; 9; 0] ∧
  Custom.read_custom wire_send 1000 false sent_by_client [] = Ret [ [7; 8; 9]; [] ].
Proof.
  split; [by vm_compute|].
  unfold sent_by_client. rewrite (Custom.client_packets_posted wire_send wire_sent 1000 false [ [104; 105] ] [ [7; 8; 9]; [] ] []);
    [done|done|done|cbn; lia| |].
  - apply Forall_singleton. split; [|done]. by apply (bool_decide_unpack _).
  - repeat constructor; cbn; lia.
Defined.
End PortForwardExamples.
