(* ===== verification/PodHttp.v ===== *)
(** * The kubelet's requests about pods

    src/pkg/virtualnode/pod: respod_http_handler.go, devpod_http_handler.go and logs.go. What the handlers of logs, exec, attach and
    port-forward requests answer: an HTTP error, a command for the device, an operation of a peripheral, a file of the host. The
    transport of the streams is in PortForward.v and Connectivity.v; the formats of commands and packets are those of the protocol, kept
    as data. *)
From S2P Require Import Prelude GoNet K8s SeqQueue Session Connectivity Caches PortForward.
Open Scope Z_scope.

(** runtimepb.PacketType *)
Definition PKT_EXEC : Z := 2.
Definition PKT_ATTACH : Z := 3.
Definition PKT_LOGS : Z := 4.
Definition PKT_TTY_RESIZE : Z := 5.
Definition PKT_PORT_FORWARD : Z := 6.
Definition VirtualContainerNameHost : string := "host".

(** A time is its nanoseconds, the zero time None. *)
Record LogsCmd := {
  lc_PodUid : string; lc_Container : string; lc_Follow : bool; lc_Timestamp : bool; lc_Since : option Z; lc_TailLines : Z; lc_BytesLimit : Z;
  lc_Previous : bool; lc_Path : string
}.
Record ExecOrAttachCmd := {
  ea_PodUid : string; ea_Container : string; ea_Stdin : bool; ea_Stdout : bool; ea_Stderr : bool; ea_Tty : bool; ea_Command : list string
}.
Inductive Body := BLogs (c : LogsCmd) | BExec (c : ExecOrAttachCmd).
(** A command: its kind, and the kind of the packet when it is for the runtime. *)
Record Posted := { po_Kind : Z; po_Packet : option Z; po_Body : Body }.
Definition host_cmd (kind : Z) (b : Body) : Posted := {| po_Kind := kind; po_Packet := None; po_Body := b |}.
Definition runtime_cmd (packet : Z) (b : Body) : Posted := {| po_Kind := CMD_RUNTIME; po_Packet := Some packet; po_Body := b |}.

(** corev1.PodLogOptions *)
Record PodLogOptions := {
  lo_Container : string; lo_Follow : bool; lo_Previous : bool; lo_SinceSeconds : option Z; lo_SinceTime : option Z; lo_Timestamps : bool;
  lo_TailLines : option Z; lo_LimitBytes : option Z
}.
Definition set_container (c : string) (o : PodLogOptions) : PodLogOptions :=
  {| lo_Container := c; lo_Follow := lo_Follow o; lo_Previous := lo_Previous o; lo_SinceSeconds := lo_SinceSeconds o;
     lo_SinceTime := lo_SinceTime o; lo_Timestamps := lo_Timestamps o; lo_TailLines := lo_TailLines o; lo_LimitBytes := lo_LimitBytes o |}.

Inductive Answer :=
  | HttpError (code : Z) (text : string)
  | Post (c : Posted)                                          (** a stream command, served until its session ends *)
  | ReadLogs (path : string) (c : LogsCmd)                     (** a log file of the host of aranya *)
  | Operate (peripheral command : string) (data : list string) (** OperatePeripheral, with the words after the command *)
  | OperateStdin (peripheral command : string)                 (** with all that comes in *)
  | Collect (peripheral : string)                              (** CollectPeripheralMetrics *)
  | Forward (podUID : string) (ports : list Z)                 (** servePortForward *)
  | CustomForward                                              (** doCustomPortForward *)
  | Crashed (a : Answer).                                      (** [a], and then a panic *)

(** ** Logs *)
Module Logs.

Definition podLogDir (logRootDir namespace podName podUID : string) : string :=
  logRootDir +:+ "/" +:+ namespace +:+ "_" +:+ podName +:+ "_" +:+ podUID.
Definition containerLogFile (podLogDir containerName : string) : string := podLogDir +:+ "/" +:+ containerName +:+ "/1.log".

Definition logs_cmd (now : Z) (uid : string) (o : PodLogOptions) : LogsCmd :=
  {| lc_PodUid := uid; lc_Container := lo_Container o; lc_Follow := lo_Follow o; lc_Timestamp := lo_Timestamps o;
     lc_Since := match lo_SinceTime o, lo_SinceSeconds o with
                 | Some t, _ => Some t
                 | None, Some s => Some (now + int64 (- int64 s * 1000000000))
                 | None, None => None
                 end;
     lc_TailLines := default (-1) (lo_TailLines o); lc_BytesLimit := default (-1) (lo_LimitBytes o); lc_Previous := lo_Previous o;
     lc_Path := "" |}.
Definition path_cmd (path : string) : LogsCmd :=
  {| lc_PodUid := ""; lc_Container := ""; lc_Follow := false; lc_Timestamp := false; lc_Since := None; lc_TailLines := 0;
     lc_BytesLimit := 0; lc_Previous := false; lc_Path := path |}.

(** [is_file] is Lstat, of something that is no directory. *)
Definition doHandleLogs (logDir tenantNS : string) (is_file : string → bool) (now : Z) (uid podName logPath : string)
    (options : option PodLogOptions) : Answer :=
  match options with
  | Some o =>
      let logsCmd := logs_cmd now uid o in
      if decide (uid = "") then Post (host_cmd CMD_LOGS (BLogs logsCmd))
      else
        let podLog := containerLogFile (podLogDir logDir tenantNS podName uid) (lo_Container o) in
        if is_file podLog then ReadLogs podLog logsCmd else Post (runtime_cmd PKT_LOGS (BLogs logsCmd))
  | None =>
      if decide (logPath = "") then HttpError 500 "bad log options" else Post (host_cmd CMD_LOGS (BLogs (path_cmd logPath)))
  end.

(** *** The page of a log path

    The device sends a first line that tells a directory from a file. The scanner that reads the line reads whole buffers from the pipe;
    a file is then copied from the pipe itself. [reads] are the buffers the pipe gives. *)
Definition maxTokenSize : Z := 65536.
(** The line, what the scanner has read after it, and the buffers that are left. *)
Fixpoint first_line (acc : list Z) (reads : list (list Z)) : list Z * list Z * list (list Z) :=
  match Custom.cut_line acc with
  | Some (l, r) => (Custom.drop_cr l, r, reads)
  | None =>
      if maxTokenSize <=? Z.of_nat (length acc) then ([], acc, reads)
      else match reads with
           | [] => (Custom.drop_cr acc, [], [])
           | b :: reads => first_line (acc ++ b) reads
           end
  end.
Fixpoint lines (fuel : nat) (bs : list Z) : list (list Z) :=
  match fuel, Custom.ReadLine bs with
  | S fuel, Some (l, rest) => l :: lines fuel rest
  | _, _ => []
  end.
Inductive Page := Directory (entries : list (list Z)) | File (content : list Z) | UnknownResult.
Definition IdentifierLogDir : list Z := [91; 100; 105; 114; 93].            (** "[dir]" *)
Definition IdentifierLogFile : list Z := [91; 102; 105; 108; 101; 93].      (** "[file]" *)
Definition page (reads : list (list Z)) : Page :=
  let '(firstLine, buffered, reads) := first_line [] reads in
  if decide (firstLine = IdentifierLogDir) then
    let rest := buffered ++ concat reads in Directory (lines (length rest) rest)
  else if decide (firstLine = IdentifierLogFile) then File (concat reads)
  else UnknownResult.

(** What is read together with the first line is not shown: of a log that comes in one piece, nothing. *)
Lemma file_in_one_piece content :
  page [IdentifierLogFile ++ [Custom.newline] ++ content] = File [].
Proof. by vm_compute. Qed.
(** It is shown when the line comes alone. *)
Lemma file_after_line content : page [IdentifierLogFile ++ [Custom.newline]; content] = File content.
Proof. transitivity (File (content ++ [])); [done|by rewrite app_nil_r]. Qed.
End Logs.

(** ** Exec and attach *)
Module Exec.

(** The streams of the client: whether there is an input, an output, a stream for errors; and a terminal. *)
Record Streams := { st_Stdin : bool; st_Stdout : bool; st_Stderr : bool; st_Tty : bool }.
Definition cmd_of (uid container : string) (s : Streams) (command : list string) : ExecOrAttachCmd :=
  {| ea_PodUid := uid; ea_Container := if decide (uid = "") then "" else container; ea_Stdin := st_Stdin s; ea_Stdout := st_Stdout s;
     ea_Stderr := st_Stderr s; ea_Tty := st_Tty s; ea_Command := command |}.
(** doServeTerminalStream refuses to start without an output. *)
Definition terminal (s : Streams) (c : Posted) : Answer := if st_Stdout s then Post c else HttpError 500 "output should not be nil".

(** The deferred function closes the output without asking whether there is one. *)
Definition closing (s : Streams) (a : Answer) : Answer := if st_Stdout s then a else Crashed a.

Definition doHandleExec (uid container : string) (cmd : list string) (s : Streams) : Answer :=
  closing s (match cmd with
  | [] => HttpError 500 "invalid empty command"
  | c :: args =>
      if decide (uid = "") then
        if decide (container = VirtualContainerNameHost) then terminal s (host_cmd CMD_EXEC (BExec (cmd_of "" container s cmd)))
        else if st_Stdin s then OperateStdin container c else Operate container c args
      else terminal s (runtime_cmd PKT_EXEC (BExec (cmd_of uid container s cmd)))
  end).
Definition doHandleAttach (uid container : string) (s : Streams) : Answer :=
  closing s (if decide (uid = "") then
    if decide (container = VirtualContainerNameHost) then terminal s (host_cmd CMD_ATTACH (BExec (cmd_of "" container s [])))
    else Collect container
  else terminal s (runtime_cmd PKT_EXEC (BExec (cmd_of uid container s [])))).

(** The resize of a terminal goes to where its session is. *)
Definition resize_kind (kind : Z) : Z * option Z :=
  if kind =? CMD_RUNTIME then (CMD_RUNTIME, Some PKT_TTY_RESIZE) else (CMD_TTY_RESIZE, None).
End Exec.

(** ** The handlers *)
Module Handlers.
Import Logs Exec.
Section Handlers.
Context (nodeName tenantNS logDir : string) (podCache : PodCache.PodCache) (is_file : string → bool).

Definition getPodUIDInCache (name podUID : string) : string :=
  if decide (podUID = "") then match PodCache.GetByName tenantNS name podCache with Some pod => pod_UID pod | None => "" end else podUID.
(** The pod a request is for, "" is the host; None is not found. *)
Definition target (podName uid : string) : option string :=
  if decide (podName = nodeName) then Some ""
  else let podUID := getPodUIDInCache podName uid in if decide (podUID = "") then None else Some podUID.

(** A log request: the variables of its path and its parameters, decoded and validated by the Kubernetes libraries. *)
Definition getParamsForContainerLog (podName containerName : string) (decoded : result PodLogOptions) : result PodLogOptions :=
  if decide (podName = "") then Err "missing pod name"
  else if decide (containerName = "") then Err "missing container name"
  else o ← decoded; Ok (set_container containerName o).
(** ?tail=n of old clients overrides tailLines; "all" takes the limit away. *)
Definition tail_param (tail : string) (tailLines : option (list string)) : option (list string) :=
  if decide (tail = "") then tailLines else if decide (tail = "all") then None else Some [tail].

Definition HandleHostLog (path : string) : Answer := doHandleLogs logDir tenantNS is_file 0 "" "" path None.
Definition HandlePodLog (now : Z) (podName containerName : string) (decoded : result PodLogOptions) (flusher : bool) : Answer :=
  match getParamsForContainerLog podName containerName decoded with
  | Err e => HttpError 400 e
  | Ok opts =>
      match target podName "" with
      | None => HttpError 404 "pod not found"
      | Some podUID =>
          if lo_Follow opts && negb flusher then HttpError 500 "unable to convert, cannot show logs"
          else doHandleLogs logDir tenantNS is_file now podUID podName "" (Some opts)
      end
  end.
Definition HandlePodExec (podName uid containerName : string) (cmd : list string) (s : Streams) : Answer :=
  match target podName uid with
  | None => HttpError 404 "target pod not found"
  | Some podUID => doHandleExec podUID containerName cmd s
  end.
Definition HandlePodAttach (podName uid containerName : string) (s : Streams) : Answer :=
  match target podName uid with
  | None => HttpError 404 "target pod not found"
  | Some podUID => doHandleAttach podUID containerName s
  end.
(** [options] are the ports kubelet's NewV4Options reads; [protocol] is the header X-Stream-Protocol-Version. *)
Definition HandlePodPortForward (podName uid protocol : string) (options : result (list Z)) : Answer :=
  match target podName uid with
  | None => HttpError 404 "target pod not found"
  | Some podUID =>
      match options with
      | Err e => HttpError 400 e
      | Ok ports =>
          if decide (protocol = "") then
            if decide (podUID = "") then CustomForward else HttpError 400 "invalid request with no X-Stream-Protocol-Version"
          else if bool_decide (podUID ≠ "") && bool_decide (PodCache.GetByID podUID podCache = None) then HttpError 404 "pod not found"
          else Forward podUID ports
      end
  end.
Definition HandleGetPods : list Pod := PodCache.GetAll podCache.
Definition HandleGetRunningPods : list Pod := filter (λ p, ps_Phase (pod_Status p) = PodRunning) (PodCache.GetAll podCache).

(** *** Where requests end up *)

(** What an answer acts on: Some "" is the host and its peripherals, Some uid a pod; an error acts on nothing. *)
Definition body_uid (b : Body) : string := match b with BLogs c => lc_PodUid c | BExec c => ea_PodUid c end.
Fixpoint acts_on (a : Answer) : option string :=
  match a with
  | HttpError _ _ => None
  | Post c => Some (body_uid (po_Body c))
  | ReadLogs _ c => Some (lc_PodUid c)
  | Operate _ _ _ | OperateStdin _ _ | Collect _ | CustomForward => Some ""
  | Forward uid _ => Some uid
  | Crashed a => acts_on a
  end.
(** A command for the host does not go to the runtime, and one for a pod does. *)
Fixpoint routed (a : Answer) : Prop :=
  match a with
  | Post c => (body_uid (po_Body c) = "" ↔ po_Packet c = None) ∧ (po_Kind c = CMD_RUNTIME ↔ is_Some (po_Packet c))
  | Crashed a => routed a
  | _ => True
  end.

Lemma target_spec podName uid t :
  target podName uid = Some t →
  (podName = nodeName ∧ t = "") ∨
  (podName ≠ nodeName ∧ t ≠ "" ∧ (t = uid ∨ ∃ pod, PodCache.GetByName tenantNS podName podCache = Some pod ∧ pod_UID pod = t)).
Proof.
  unfold target, getPodUIDInCache. case_decide; [intros [= <-]; by left|]. intros Ht. right. split; [done|]. revert Ht.
  destruct (decide (uid = "")).
  - destruct (PodCache.GetByName tenantNS podName podCache) as [p|]; case_decide; try done. intros [= <-]. eauto.
  - case_decide; [done|]. intros [= <-]. auto.
Qed.
Lemma routed_runtime packet b : body_uid b ≠ "" → routed (Post (runtime_cmd packet b)).
Proof. intros Hb. cbn. split; [by split|]. split; [by eexists|done]. Qed.
Lemma routed_host kind b : body_uid b = "" → kind ≠ CMD_RUNTIME → routed (Post (host_cmd kind b)).
Proof. intros Hb Hk. cbn. split; [done|]. split; [done|by intros [? ?] ]. Qed.
Lemma logs_acts now uid podName o :
  let a := doHandleLogs logDir tenantNS is_file now uid podName "" (Some o) in acts_on a = Some uid ∧ routed a.
Proof.
  cbv zeta. unfold doHandleLogs. case_decide as Hu; [subst; split; [done|by apply routed_host]|].
  destruct (is_file _); [done|]. split; [done|by apply routed_runtime].
Qed.
Lemma terminal_acts s c t : acts_on (terminal s c) = Some t → t = body_uid (po_Body c).
Proof. unfold terminal. destruct (st_Stdout s); [by intros [= <-]|done]. Qed.
Lemma terminal_routed s c : routed (Post c) → routed (terminal s c).
Proof. unfold terminal. by destruct (st_Stdout s). Qed.
Lemma closing_acts s a : acts_on (closing s a) = acts_on a.
Proof. unfold closing. by destruct (st_Stdout s). Qed.
Lemma closing_routed s a : routed a → routed (closing s a).
Proof. unfold closing. by destruct (st_Stdout s). Qed.
Lemma exec_acts uid container cmd s t : acts_on (doHandleExec uid container cmd s) = Some t → t = uid.
Proof.
  unfold doHandleExec. rewrite closing_acts. destruct cmd; [done|]. case_decide as Hu; [|by intros ->%terminal_acts]. subst. case_decide; [by intros ->%terminal_acts|].
  by destruct (st_Stdin s); intros [= <-].
Qed.
Lemma exec_routed uid container cmd s : routed (doHandleExec uid container cmd s).
Proof.
  unfold doHandleExec. apply closing_routed. destruct cmd; [done|]. case_decide; [|by apply terminal_routed, routed_runtime].
  case_decide; [by apply terminal_routed, routed_host|by destruct (st_Stdin s)].
Qed.
Lemma attach_acts uid container s t : acts_on (doHandleAttach uid container s) = Some t → t = uid.
Proof.
  unfold doHandleAttach. rewrite closing_acts. case_decide as Hu; [|by intros ->%terminal_acts]. subst. case_decide; [by intros ->%terminal_acts|by intros [= <-] ].
Qed.
Lemma attach_routed uid container s : routed (doHandleAttach uid container s).
Proof.
  unfold doHandleAttach. apply closing_routed. case_decide; [|by apply terminal_routed, routed_runtime]. case_decide; [by apply terminal_routed, routed_host|done].
Qed.

(** The requests of the kubelet about pods. *)
Inductive Request :=
  | RLog (now : Z) (container : string) (decoded : result PodLogOptions) (flusher : bool)
  | RExec (uid container : string) (cmd : list string) (s : Streams)
  | RAttach (uid container : string) (s : Streams)
  | RPortForward (uid protocol : string) (options : result (list Z)).
Definition handle (podName : string) (r : Request) : Answer :=
  match r with
  | RLog now container decoded flusher => HandlePodLog now podName container decoded flusher
  | RExec uid container cmd s => HandlePodExec podName uid container cmd s
  | RAttach uid container s => HandlePodAttach podName uid container s
  | RPortForward uid protocol options => HandlePodPortForward podName uid protocol options
  end.
Definition request_uid (r : Request) : string :=
  match r with RLog _ _ _ _ => "" | RExec uid _ _ _ | RAttach uid _ _ | RPortForward uid _ _ => uid end.

(** A request reaches the host of the device, its peripherals or its files only under the name of the node; under any other name it
    reaches a pod and no other one: the one of the request's path, or the one of that name in the cache. The command for it goes through
    the runtime exactly when it is for a pod. *)
Lemma requests_isolated podName r t :
  acts_on (handle podName r) = Some t →
  routed (handle podName r) ∧
  ((podName = nodeName ∧ t = "") ∨
   (podName ≠ nodeName ∧ t ≠ "" ∧
    (t = request_uid r ∨ ∃ pod, PodCache.GetByName tenantNS podName podCache = Some pod ∧ pod_UID pod = t))).
Proof.
  destruct r as [now container decoded flusher|uid container cmd s|uid container s|uid protocol options]; cbn [handle request_uid].
  - unfold HandlePodLog. destruct (getParamsForContainerLog _ _ _) as [o|]; [|done]. destruct (target podName "") as [t'|] eqn:Ht; [|done].
    destruct (_ && _); [done|]. destruct (logs_acts now t' podName o) as [-> Hr]. intros [= <-]. split; [done|]. by apply target_spec.
  - unfold HandlePodExec. destruct (target podName uid) as [t'|] eqn:Ht; [|done]. intros ->%exec_acts. split; [apply exec_routed|by apply target_spec].
  - unfold HandlePodAttach. destruct (target podName uid) as [t'|] eqn:Ht; [|done]. intros ->%attach_acts. split; [apply attach_routed|by apply target_spec].
  - unfold HandlePodPortForward. destruct (target podName uid) as [t'|] eqn:Ht; [|done]. destruct options as [ports|]; [|done]. apply target_spec in Ht.
    case_decide; [case_decide; [subst|done]|destruct (_ && _); [done|] ]; intros [= <-]; done.
Qed.

(** An attach to a container of a pod is sent as the execution of no command. *)
Lemma attach_is_exec uid container s :
  uid ≠ "" → st_Stdout s = true →
  doHandleAttach uid container s = Post (runtime_cmd PKT_EXEC (BExec (cmd_of uid container s []))).
Proof. intros Hu Hs. unfold doHandleAttach, terminal, closing. rewrite decide_False by done. by rewrite Hs. Qed.
End Handlers.
End Handlers.

Module PodHttpExamples.
Import Exec Handlers.
Definition web : Pod := Samples.pod "u1" "web" (Samples.spec [] [] []).
Definition cache : PodCache.PodCache := PodCache.Update web PodCache.NewPodCache.
Definition streams : Streams := {| st_Stdin := false; st_Stdout := true; st_Stderr := true; st_Tty := false |}.
Lemma requests_isolated_witness :
  acts_on (handle "node" (pod_Namespace web) "/log" cache (λ _, false) "web" (RExec "" "c" ["ls"] streams)) = Some "u1" ∧
  routed (handle "node" (pod_Namespace web) "/log" cache (λ _, false) "web" (RExec "" "c" ["ls"] streams)).
Proof.
  split; [by vm_compute|].
  apply (requests_isolated "node" (pod_Namespace web) "/log" cache (λ _, false) "web" (RExec "" "c" ["ls"] streams) "u1"). by vm_compute.
Defined.
(** A client that asks for no output makes the handler panic: its deferred function closes the output that is not there. *)
Example no_output :
  handle "node" (pod_Namespace web) "/log" cache (λ _, false) "web" (RExec "" "c" ["ls"] {| st_Stdin := false; st_Stdout := false; st_Stderr := true; st_Tty := false |}) =
    Crashed (HttpError 500 "output should not be nil").
Proof. by vm_compute. Qed.
(** A node and a pod of the same name: the request is for the node. *)
Example name_of_node : acts_on (handle "web" (pod_Namespace web) "/log" cache (λ _, false) "web" (RExec "" "host" ["ls"] streams)) = Some "".
Proof. by vm_compute. Qed.
End PodHttpExamples.
