(* ===== verification/Terminal.v ===== *)
(** * Terminals and executions

    doServeTerminalStream of src/pkg/virtualnode/pod/devpod_http_handler.go: the call that serves an execution or an attachment, as the
    three goroutines it is made of (the loop over the messages of the session, the routine of the resizes and the one of the input) and
    the steps they take, in any order and among the steps of the rest of the program. *)
From S2P Require Import Prelude SeqQueue Session Connectivity PortForward PodHttp.
Import Session.Session Session.SessionManager Connectivity.Manager PortForward.Forward.
Open Scope Z_scope.

Module Terminal.

(** Where the goroutines are. The first two are not started without a channel for resizes, or without an input. *)
Inductive resizer := RNone | RWaiting | RLoop | REnd.
Inductive reader := INone | IWaiting | IReading | IClosing | IEnd.
(** [MMessages exit]: in HandleMessages, [exit] as there; [MClosing]: the channel was closed; [MReturned]. *)
Inductive main := MMessages (exit : bool) | MClosing | MReturned.

(** The variables of the call: [t_cancelled] is whether ctx is done, [t_err] the error the call returns. *)
Record terminal := {
  t_kind : Z; t_sid : Z; t_msgCh : nat; t_tty : bool; t_cancelled : bool; t_err : option (Z * string);
  t_resize : resizer; t_input : reader; t_seq : Z; t_main : main
}.
Definition set_cancelled (t : terminal) : terminal :=
  {| t_kind := t_kind t; t_sid := t_sid t; t_msgCh := t_msgCh t; t_tty := t_tty t; t_cancelled := true; t_err := t_err t;
     t_resize := t_resize t; t_input := t_input t; t_seq := t_seq t; t_main := t_main t |}.
Definition set_resize (r : resizer) (t : terminal) : terminal :=
  {| t_kind := t_kind t; t_sid := t_sid t; t_msgCh := t_msgCh t; t_tty := t_tty t; t_cancelled := t_cancelled t; t_err := t_err t;
     t_resize := r; t_input := t_input t; t_seq := t_seq t; t_main := t_main t |}.
Definition set_input (i : reader) (seq : Z) (t : terminal) : terminal :=
  {| t_kind := t_kind t; t_sid := t_sid t; t_msgCh := t_msgCh t; t_tty := t_tty t; t_cancelled := t_cancelled t; t_err := t_err t;
     t_resize := t_resize t; t_input := i; t_seq := seq; t_main := t_main t |}.
Definition set_main (n : main) (e : option (Z * string)) (t : terminal) : terminal :=
  {| t_kind := t_kind t; t_sid := t_sid t; t_msgCh := t_msgCh t; t_tty := t_tty t; t_cancelled := t_cancelled t; t_err := e;
     t_resize := t_resize t; t_input := t_input t; t_seq := t_seq t; t_main := n |}.

(** What happens next. A Read of the input answers data and an error; [WaitFails] is WaitForData answering false, on a terminal. *)
Inductive event :=
  | Cancel | Message | ChannelClosed | CloseSession
  | ResizeReady | ResizeCancelled | Resize (cols rows : Z) | ResizeClosed
  | InputReady | InputCancelled | Read (data : list Z) (err : option string) | WaitFails | CloseInput.

Definition ErrDeadlineExceeded : string := "deadline exceeded".

Section Terminal.
Context {W : Type} (marshal_cmd : Cmd → list Z) (sendData : list Z → bool → W → W * option string) (cmd_name : Z → string)
  (unmarshal_err : list Z → option (Z * string)) (marshal_session_close : Z → list Z)
  (marshal_resize : Z → Z → result (list Z)) (marshal_packet : Z → list Z → result (list Z)).

Abbreviation PostData := (PostData marshal_cmd sendData).
Abbreviation PostCmd := (PostCmd marshal_cmd sendData).

(** Until the goroutines are started. *)
Definition doServeTerminalStream (kind : Z) (initialCmd : option (result (list Z))) (stdin : bool) (stdout stderr : option Writer) (tty : bool)
    (m : baseManager) (w : W) : outcome (baseManager * W * (terminal + string)) :=
  match stdout with
  | None => Ret (m, w, inr "output should not be nil")
  | Some _ =>
    '(m, w, p) ← PostStreamCmd marshal_cmd cmd_name sendData kind initialCmd stdout stderr false None m w;
    match ps_err p, ps_msgCh p with
    | None, Some msgCh =>
      Ret (m, w, inl {| t_kind := kind; t_sid := ps_realSid p; t_msgCh := msgCh; t_tty := tty; t_cancelled := false; t_err := None;
        t_resize := if tty then RWaiting else RNone; t_input := if stdin then IWaiting else INone; t_seq := 0;
        t_main := MMessages false |})
    | Some e, _ => Ret (m, w, inr e)
    | None, None => Diverge     (* a nil channel *)
    end
  end.

(** the signal that the stream is ready, and the channel of the session closed and drained *)
Definition stream_ready (h : nat) (m : baseManager) : bool :=
  match m_heap (b_sessions m) !! h with Some s => bool_decide (s_streamReady s = Some true) | None => false end.
Definition drained (h : nat) (m : baseManager) : bool :=
  match m_heap (b_sessions m) !! h with Some s => bool_decide (s_chan s = []) && s_chan_closed s | None => false end.

Definition resize_cmd (kind cols rows : Z) : option (Z * result (list Z)) :=
  match Exec.resize_kind kind with
  | (k, Some packet) => match marshal_resize cols rows with Ok data => Some (k, marshal_packet packet data) | Err _ => None end
  | (k, None) => Some (k, marshal_resize cols rows)
  end.
Definition post_resize (cols rows : Z) (t : terminal) (m : baseManager) (w : W) : outcome (baseManager * W) :=
  match resize_cmd (t_kind t) cols rows with
  | None => Ret (m, w)
  | Some (kind, payload) => '(m, w, _) ← PostCmd (t_sid t) kind (Some payload) m w; Ret (m, w)
  end.

(** nextSeq: the number before, and the one after *)
Definition nextSeq (seq : Z) : Z * Z := (seq, wrap64 (seq + 1)).

(** One round of the loops over the input: whether to stop without a post. *)
Definition input_over (tty : bool) (data : list Z) (err : option string) : bool :=
  match err with
  | None => false
  | Some e => bool_decide (data = []) && (negb tty || negb (bool_decide (e = ErrDeadlineExceeded)))
  end.
Definition post_input (completed : bool) (data : list Z) (t : terminal) (m : baseManager) (w : W) : outcome (terminal * baseManager * W * option string) :=
  let '(seq, next) := nextSeq (t_seq t) in
  '(m, w, p) ← PostData (t_sid t) CMD_DATA_UPSTREAM seq completed data m w;
  Ret (set_input (t_input t) next t, m, w, p_err p).

(** The step of an event; None where it cannot happen. *)
Definition step (ev : event) (t : terminal) (m : baseManager) (w : W) : option (outcome (terminal * baseManager * W)) :=
  match ev with
  | Cancel => Some (Ret (set_cancelled t, m, w))
  | Message =>
    match t_main t, receive (t_msgCh t) (b_sessions m) with
    | MMessages exit, Some (msg, s) =>
      let err := if exit then t_err t else match GetError unmarshal_err msg with Some e => Some e | None => t_err t end in
      Some (Ret (set_main (MMessages true) err t, set_sessions s m, w))
    | _, _ => None
    end
  | ChannelClosed =>
    match t_main t with
    | MMessages _ => if drained (t_msgCh t) m then Some (Ret (set_cancelled (set_main MClosing (t_err t) t), m, w)) else None
    | _ => None
    end
  | CloseSession =>
    match t_main t with
    | MClosing => Some ('(m, w, _) ← PostCmd (t_sid t) CMD_SESSION_CLOSE (Some (Ok (marshal_session_close (t_sid t)))) m w;
                        Ret (set_main MReturned (t_err t) t, m, w))
    | _ => None
    end
  | ResizeReady =>
    match t_resize t with RWaiting => if stream_ready (t_msgCh t) m then Some (Ret (set_resize RLoop t, m, w)) else None | _ => None end
  | ResizeCancelled =>
    match t_resize t with RWaiting | RLoop => if t_cancelled t then Some (Ret (set_resize REnd t, m, w)) else None | _ => None end
  | Resize cols rows =>
    match t_resize t with RLoop => Some ('(m, w) ← post_resize cols rows t m w; Ret (t, m, w)) | _ => None end
  | ResizeClosed => match t_resize t with RLoop => Some (Ret (set_resize REnd t, m, w)) | _ => None end
  | InputReady =>
    match t_input t with IWaiting => if stream_ready (t_msgCh t) m then Some (Ret (set_input IReading (t_seq t) t, m, w)) else None | _ => None end
  | InputCancelled =>
    match t_input t with IWaiting => if t_cancelled t then Some (Ret (set_input IClosing (t_seq t) t, m, w)) else None | _ => None end
  | Read data err =>
    match t_input t with
    | IReading =>
      if negb (Z.of_nat (length data) <=? bufSize m) then None     (* a Read fills its buffer at most *)
      else if input_over (t_tty t) data err then Some (Ret (set_input IClosing (t_seq t) t, m, w))
      else Some ('(t, m, w, failed) ← post_input false data t m w;
                 Ret (match failed with Some _ => set_input IClosing (t_seq t) t | None => t end, m, w))
    | _ => None
    end
  | WaitFails => match t_input t with IReading => if t_tty t then Some (Ret (set_input IClosing (t_seq t) t, m, w)) else None | _ => None end
  | CloseInput =>
    match t_input t with
    | IClosing => Some ('(t, m, w, _) ← post_input true [] t m w; Ret (set_input IEnd (t_seq t) t, m, w))
    | _ => None
    end
  end.

(** ** What the call sends

    [cmds] is what has been sent so far; a send that fails has sent nothing. *)
Context (cmds : W → list Cmd).
Definition sends_logged : Prop := ∀ c w w' err, sendData (marshal_cmd c) true w = (w', err) →
  cmds w' = cmds w ++ match err with Some _ => [] | None => [c] end.
Definition transport_up : Prop := ∀ c w, (sendData (marshal_cmd c) true w).2 = None.
(** the input among the commands: the upstream data of the session [sid] *)
Definition is_input (sid : Z) (c : Cmd) : Prop := c_Kind c = CMD_DATA_UPSTREAM ∧ c_Sid c = sid.
#[global] Instance is_input_dec sid c : Decision (is_input sid c).
Proof. unfold is_input. apply _. Defined.
Definition inputs (sid : Z) (w : W) : list Cmd := filter (is_input sid) (cmds w).

(** A step is one of the call, or whatever else the program does: it posts no input for this session, and a manager that is stopped stays
    so. [typed] are the data the input has been read to be. *)
Definition typed (ev : event) (t : terminal) : list (list Z) :=
  match ev with Read data err => if input_over (t_tty t) data err then [] else [data] | _ => [] end.
Inductive runs (t0 : terminal) (m0 : baseManager) (w0 : W) : list (list Z) → terminal → baseManager → W → Prop :=
  | runs_start : runs t0 m0 w0 [] t0 m0 w0
  | runs_step datas t m w ev t' m' w' : runs t0 m0 w0 datas t m w → step ev t m w = Some (Ret (t', m', w')) →
      runs t0 m0 w0 (datas ++ typed ev t) t' m' w'
  | runs_other datas t m w m' w' : runs t0 m0 w0 datas t m w → b_maxDataSize m' = b_maxDataSize m →
      (b_stopped m = true → b_stopped m' = true) → inputs (t_sid t0) w' = inputs (t_sid t0) w → runs t0 m0 w0 datas t m' w'.

Hypothesis Hlog : sends_logged.

Lemma doPostData_cmds fuel n kind sid seq complete payload w w' l e :
  doPostData marshal_cmd sendData fuel n kind sid seq complete payload w = Ret (w', l, e) →
  ∃ cs, cmds w' = cmds w ++ cs ∧ Forall (λ c, c_Kind c = kind) cs.
Proof.
  assert (∀ seq complete bs w w' err, sendData (marshal_cmd (the_cmd kind sid seq complete bs)) true w = (w', err) →
    ∃ cs, cmds w' = cmds w ++ cs ∧ Forall (λ c, c_Kind c = kind) cs) as Hone.
  { intros seq' complete' bs w1 w2 err E. rewrite (Hlog _ _ _ _ E). eexists. split; [done|]. destruct err; by repeat constructor. }
  revert seq payload w; induction fuel as [|fuel IH]; intros seq payload w; cbn [doPostData]; (destruct (n <? _); [try done|]).
  2:{ destruct (sendData _ true w) as [w1 err] eqn:E. destruct (Hone _ _ _ _ _ _ E) as (cs & Ec & HF). destruct err; [intros [= <- _ _]; eauto|].
      intros (cs' & E' & HF')%IH. exists (cs ++ cs'). rewrite E', Ec, app_assoc. split; [done|by apply Forall_app]. }
  all: destruct (sendData _ true w) as [w1 err] eqn:E; destruct (Hone _ _ _ _ _ _ E) as (cs & Ec & HF); destruct err; intros [= <- _ _]; eauto.
Qed.

(** a payload that fits in one command *)
Lemma doPostData_fits fuel n kind sid seq complete payload w : Z.of_nat (length payload) <= n →
  doPostData marshal_cmd sendData fuel n kind sid seq complete payload w =
  let '(w', err) := sendData (marshal_cmd (the_cmd kind sid seq complete payload)) true w in
  match err with Some e => Ret (w', seq, Some ("failed to post cmd chunk: " +:+ e)) | None => Ret (w', seq, None) end.
Proof. intros Hl. assert ((n <? Z.of_nat (length payload)) = false) as Hlt by (apply Z.ltb_ge; lia). destruct fuel; cbn [doPostData]; by rewrite Hlt. Qed.
Lemma doPostData_up fuel n kind sid seq complete payload w w' l e : transport_up →
  doPostData marshal_cmd sendData fuel n kind sid seq complete payload w = Ret (w', l, e) → e = None.
Proof.
  intros Hup. revert seq payload w; induction fuel as [|fuel IH]; intros seq payload w; cbn [doPostData]; (destruct (n <? _); [try done|]).
  2:{ pose proof (Hup (the_cmd kind sid seq false (take (Z.to_nat n) payload)) w) as H. destruct (sendData _ true w) as [w1 err].
      cbn in H. subst. apply IH. }
  all: pose proof (Hup (the_cmd kind sid seq complete payload) w) as H; destruct (sendData _ true w) as [w1 err]; cbn in H; subst; by intros [= _ _ <-].
Qed.

Lemma PostData_cmds sid kind seq completed payload m w m' w' p :
  PostData sid kind seq completed payload m w = Ret (m', w', p) →
  b_stopped m' = b_stopped m ∧ b_maxDataSize m' = b_maxDataSize m ∧
  ∃ cs, cmds w' = cmds w ++ cs ∧ Forall (λ c, c_Kind c = kind) cs.
Proof.
  assert (∃ cs, cmds w = cmds w ++ cs ∧ Forall (λ c, c_Kind c = kind) cs) as Hnil by (exists []; split; [by rewrite app_nil_r|constructor]).
  unfold Manager.PostData. destruct (b_stopped m) eqn:Es; [by intros [= <- <- _]|].
  destruct (kind =? CMD_SESSION_CLOSE).
  { destruct (doPostData _ _ _ _ _ _ _ _ _ _) as [[[w1 l1] e1]| |] eqn:E; cbn; [|done..].
    apply doPostData_cmds in E. by intros [= <- <- _]. }
  destruct (is_stream_cmd kind); [by intros [= <- <- _]|]. destruct (_ || _).
  { destruct (sid =? 0); [by intros [= <- <- _]|].
    destruct (doPostData _ _ _ _ _ _ _ _ _ _) as [[[w1 l1] e1]| |] eqn:E; cbn; [|done..].
    apply doPostData_cmds in E. by intros [= <- <- _]. }
  destruct (Add _ _ _ _) as [[[s r] h]| |]; cbn [mbind outcome_bind]; [|done..].
  destruct (doPostData _ _ _ _ _ _ _ _ _ _) as [[[w1 l1] e1]| |] eqn:E; cbn [mbind outcome_bind]; [|done..].
  apply doPostData_cmds in E. cbv zeta. match goal with |- context [if ?b then _ else _] => destruct b end; by intros [= <- <- _].
Qed.

Lemma PostCmd_cmds sid kind payload m w m' w' p : kind ≠ CMD_DATA_UPSTREAM →
  PostCmd sid kind payload m w = Ret (m', w', p) →
  b_stopped m' = b_stopped m ∧ b_maxDataSize m' = b_maxDataSize m ∧ ∀ sid', inputs sid' w' = inputs sid' w.
Proof.
  intros Hk. unfold Manager.PostCmd.
  assert (∀ bs, PostData sid kind 0 true bs m w = Ret (m', w', p) →
    b_stopped m' = b_stopped m ∧ b_maxDataSize m' = b_maxDataSize m ∧ ∀ sid', inputs sid' w' = inputs sid' w) as Hpost.
  { intros bs (H1 & H2 & cs & E & HF)%PostData_cmds. split; [done|]. split; [done|]. intros sid'. unfold inputs. rewrite E, filter_app.
    assert (filter (is_input sid') cs = []) as ->; [|by rewrite app_nil_r]. apply length_zero_iff_nil, length_filter_0.
    intros c Hc [Hc' _]. rewrite Forall_forall in HF. specialize (HF c Hc). congruence. }
  destruct payload as [ [bs|e]|]; [apply Hpost|by intros [= <- <- _]|apply Hpost].
Qed.

(** The post of a piece of the input: sent as one command with the next number, or not at all. *)
Lemma post_input_spec completed data t m w t' m' w' failed : Z.of_nat (length data) <= b_maxDataSize m →
  post_input completed data t m w = Ret (t', m', w', failed) →
  b_stopped m' = b_stopped m ∧ b_maxDataSize m' = b_maxDataSize m ∧ t' = set_input (t_input t) (wrap64 (t_seq t + 1)) t ∧
  inputs (t_sid t) w' = inputs (t_sid t) w ++
    match failed with Some _ => [] | None => [the_cmd CMD_DATA_UPSTREAM (t_sid t) (t_seq t) completed data] end ∧
  (transport_up → b_stopped m = false → t_sid t ≠ 0 → failed = None).
Proof.
  intros Hlen. unfold post_input, nextSeq, Manager.PostData. cbv zeta. destruct (b_stopped m) eqn:Es.
  { cbn. intros [= <- <- <- <-]. rewrite app_nil_r. done. }
  change (CMD_DATA_UPSTREAM =? CMD_SESSION_CLOSE) with false. change (is_stream_cmd CMD_DATA_UPSTREAM) with false.
  change (_ || (CMD_DATA_UPSTREAM =? CMD_DATA_UPSTREAM)) with true. cbv iota.
  destruct (Z.eqb_spec (t_sid t) 0) as [H0|H0]; [cbn; intros [= <- <- <- <-]; rewrite app_nil_r; by split_and!|].
  rewrite doPostData_fits by done. destruct (sendData _ true w) as [w1 err] eqn:E. pose proof (Hlog _ _ _ _ E) as Hc.
  assert (inputs (t_sid t) w1 = inputs (t_sid t) w ++ match err with Some _ => [] | None =>
    [the_cmd CMD_DATA_UPSTREAM (t_sid t) (t_seq t) completed data] end) as Hi.
  { unfold inputs. rewrite Hc, filter_app. f_equal. destruct err; [done|]. by rewrite filter_cons_True. }
  destruct err as [e|]; cbn; intros [= <- <- <- <-]; (split; [done|]); (split; [done|]); (split; [done|]); (split; [done|]); [|done].
  intros Hup _ _. specialize (Hup (the_cmd CMD_DATA_UPSTREAM (t_sid t) (t_seq t) completed data) w). by rewrite E in Hup.
Qed.

(** ** The invariant of the input *)

Definition early (i : reader) : bool := match i with INone | IWaiting | IReading => true | IClosing | IEnd => false end.
Definition close_cmd (sid : Z) (n : nat) : Cmd := the_cmd CMD_DATA_UPSTREAM sid (wrap64 (Z.of_nat n)) true [].
(** Of the data typed, all but the last at most has been sent, in order; then, in the end, the end of the input. *)
Definition sent_ok (before : list Cmd) (datas : list (list Z)) (t : terminal) (m : baseManager) (w : W) : Prop :=
  ∃ k rest, inputs (t_sid t) w = before ++ data_cmds (t_sid t) 0 (take k datas) ++ rest ∧
    (k <= length datas <= S k)%nat ∧ (early (t_input t) = true → k = length datas) ∧
    (t_input t ≠ IEnd → rest = [] ∧ t_seq t = wrap64 (Z.of_nat (length datas))) ∧
    (rest = [] ∨ rest = [close_cmd (t_sid t) (length datas)]) ∧
    (transport_up → b_stopped m = false → t_sid t ≠ 0 → k = length datas ∧ (t_input t = IEnd → rest ≠ [])).

Lemma sent_frame before datas t m w t' m' w' : sent_ok before datas t m w → t_sid t' = t_sid t → t_seq t' = t_seq t →
  (t_input t' = IEnd ↔ t_input t = IEnd) → (early (t_input t') = true → early (t_input t) = true) →
  inputs (t_sid t) w' = inputs (t_sid t) w → (b_stopped m = true → b_stopped m' = true) → sent_ok before datas t' m' w'.
Proof.
  intros (k & rest & H1 & H2 & H3 & H4 & H5 & H6) Hs Hq Hi He Hw Hst. exists k, rest. rewrite Hs, Hq, Hw. split; [done|]. split; [done|].
  split; [auto|]. split; [by intros ?; apply H4; rewrite <-Hi|]. split; [done|]. intros Hup Hst' H0. rewrite Hi. apply H6; [done| |done].
  destruct (b_stopped m); [|done]. by rewrite Hst in Hst'.
Qed.

(** A Read that is posted, and the end of the input. *)
Lemma sent_read before datas d t m w t' m' w' failed : sent_ok before datas t m w → t_input t = IReading →
  Z.of_nat (length d) <= b_maxDataSize m → post_input false d t m w = Ret (t', m', w', failed) →
  sent_ok before (datas ++ [d]) (match failed with Some _ => set_input IClosing (t_seq t') t' | None => t' end) m' w' ∧
  b_maxDataSize m' = b_maxDataSize m.
Proof.
  intros (k & rest & H1 & H2 & H3 & H4 & H5 & H6) Hi Hlen (E1 & E2 & -> & E4 & E5)%post_input_spec; [|done]. split; [|done].
  rewrite Hi in *. specialize (H3 eq_refl) as ->. destruct (H4 ltac:(done)) as [-> Hq]. rewrite app_nil_r, firstn_all in H1.
  assert (wrap64 (t_seq t + 1) = wrap64 (Z.of_nat (length (datas ++ [d])))) as Hn.
  { rewrite Hq, length_app. cbn. unfold wrap64. rewrite Zplus_mod_idemp_l. f_equal. lia. }
  destruct failed as [e|]; cbn [t_sid t_input t_seq set_input].
  - exists (length datas), []. rewrite take_app_length, !app_nil_r. cbn [t_sid set_input]. split; [by rewrite E4, H1, app_nil_r|].
    rewrite length_app in *. cbn [length] in *. split; [lia|]. split; [done|]. split; [done|].
    split; [by left|]. intros Hup Hst H0. rewrite E1 in Hst. by specialize (E5 Hup Hst H0).
  - exists (length (datas ++ [d])), []. rewrite firstn_all, app_nil_r, data_cmds_snoc. cbn [t_sid set_input].
    split; [by rewrite E4, H1, Hq, <-app_assoc|]. split; [lia|]. split; [done|]. split; [done|]. split; [by left|]. intros; split; [done|].
    by intros ?.
Qed.
Lemma sent_close before datas t m w t' m' w' failed : sent_ok before datas t m w → t_input t = IClosing →
  0 <= b_maxDataSize m → post_input true [] t m w = Ret (t', m', w', failed) →
  sent_ok before datas (set_input IEnd (t_seq t') t') m' w' ∧ b_maxDataSize m' = b_maxDataSize m.
Proof.
  intros (k & rest & H1 & H2 & H3 & H4 & H5 & H6) Hi Hlen (E1 & E2 & -> & E4 & E5)%post_input_spec; [|done]. split; [|done].
  destruct (H4 ltac:(by rewrite Hi)) as [-> Hq]. rewrite app_nil_r in H1.
  exists k, (match failed with Some _ => [] | None => [close_cmd (t_sid t) (length datas)] end). cbn [t_sid t_input t_seq set_input].
  split; [rewrite E4, H1, Hq; by rewrite <-app_assoc|]. split; [done|]. split; [done|]. split; [done|].
  split; [destruct failed; [by left|by right]|]. intros Hup Hst H0. rewrite E1 in Hst. split; [by apply H6|]. intros _. by rewrite E5.
Qed.

Lemma step_ok before datas ev t m w t' m' w' : sent_ok before datas t m w → 0 <= b_maxDataSize m →
  step ev t m w = Some (Ret (t', m', w')) →
  sent_ok before (datas ++ typed ev t) t' m' w' ∧ b_maxDataSize m' = b_maxDataSize m ∧ t_sid t' = t_sid t.
Proof.
  intros Hok Hmax Hstep. destruct ev; cbn [step typed] in Hstep |- *; rewrite ?app_nil_r.
  - injection Hstep as <- <- <-. split; [by eapply sent_frame|done].
  - destruct (t_main t) as [exit| |]; [|done..]. destruct (receive _ _) as [[msg s]|]; [|done]. injection Hstep as <- <- <-.
    split; [by eapply sent_frame|done].
  - destruct (t_main t) as [exit| |]; [|done..]. destruct (drained _ _); [|done]. injection Hstep as <- <- <-. split; [by eapply sent_frame|done].
  - destruct (t_main t) as [exit| |]; [done| |done]. injection Hstep as Hstep.
    destruct (PostData _ _ _ _ _ _ _) as [[[m1 w1] p]| |] eqn:E; [|done..]. cbn in Hstep. injection Hstep as <- <- <-.
    apply (PostCmd_cmds (t_sid t) CMD_SESSION_CLOSE (Some (Ok (marshal_session_close (t_sid t))))) in E as (E1 & E2 & E3); [|done]. split; [|done]. eapply sent_frame; [done..|by rewrite E3|by rewrite E1].
  - destruct (t_resize t); try done. destruct (stream_ready _ _); [|done]. injection Hstep as <- <- <-. split; [by eapply sent_frame|done].
  - destruct (t_resize t); try done; (destruct (t_cancelled t); [|done]); injection Hstep as <- <- <-; (split; [by eapply sent_frame|done]).
  - destruct (t_resize t); try done. injection Hstep as Hstep.
    destruct (post_resize _ _ _ _ _) as [[m1 w1]| |] eqn:E; [|done..]. cbn in Hstep. injection Hstep as <- <- <-.
    unfold post_resize in E. destruct (resize_cmd _ _ _) as [[kind payload]|] eqn:Er; [|injection E as <- <-; split; [by eapply sent_frame|done] ].
    assert (kind ≠ CMD_DATA_UPSTREAM) as Hk.
    { unfold resize_cmd, Exec.resize_kind in Er. destruct (t_kind t =? CMD_RUNTIME); [destruct (marshal_resize _ _); [|done]|]; by injection Er as <- _. }
    destruct (PostCmd _ _ _ _ _) as [[[m2 w2] p]| |] eqn:Ep; [|done..]. cbn in E. injection E as <- <-.
    apply PostCmd_cmds in Ep as (E1 & E2 & E3); [|done]. split; [|done]. eapply sent_frame; [done..|by rewrite E3|by rewrite E1].
  - destruct (t_resize t); try done. injection Hstep as <- <- <-. split; [by eapply sent_frame|done].
  - destruct (t_input t) eqn:Ei; try done. destruct (stream_ready _ _); [|done]. injection Hstep as <- <- <-.
    split; [|done]. eapply sent_frame; [done|done|done|by rewrite Ei|by rewrite Ei|done|done].
  - destruct (t_input t) eqn:Ei; try done. destruct (t_cancelled t); [|done]. injection Hstep as <- <- <-.
    split; [|done]. eapply sent_frame; [done|done|done|by rewrite Ei|done|done|done].
  - destruct (t_input t) eqn:Ei; try done. destruct (Z.leb_spec (Z.of_nat (length data)) (bufSize m)) as [Hl|]; [|done]. cbn [negb] in Hstep.
    destruct (input_over _ _ _).
    { injection Hstep as <- <- <-. rewrite app_nil_r. split; [|done]. eapply sent_frame; [done|done|done|by rewrite Ei|done|done|done]. }
    injection Hstep as Hstep. destruct (post_input _ _ _ _ _) as [[[[t1 m1] w1] failed]| |] eqn:E; [|done..]. cbn in Hstep. injection Hstep as <- <- <-.
    assert (Z.of_nat (length data) <= b_maxDataSize m) as Hl' by (unfold bufSize in Hl; lia).
    destruct (sent_read _ _ _ _ _ _ _ _ _ _ Hok Ei Hl' E) as [H1 H2]. split; [done|]. split; [done|].
    apply post_input_spec in E as (_ & _ & -> & _); [|done]. by destruct failed.
  - destruct (t_input t) eqn:Ei; try done. destruct (t_tty t); [|done]. injection Hstep as <- <- <-.
    split; [|done]. eapply sent_frame; [done|done|done|by rewrite Ei|done|done|done].
  - destruct (t_input t) eqn:Ei; try done. injection Hstep as Hstep.
    destruct (post_input _ _ _ _ _) as [[[[t1 m1] w1] failed]| |] eqn:E; [|done..]. cbn in Hstep. injection Hstep as <- <- <-.
    destruct (sent_close _ _ _ _ _ _ _ _ _ Hok Ei Hmax E) as [H1 H2]. split; [done|]. split; [done|].
    apply post_input_spec in E as (_ & _ & -> & _); [done|cbn; lia].
Qed.

Lemma runs_ok t0 m0 w0 datas t m w : t_seq t0 = 0 → early (t_input t0) = true → 0 <= b_maxDataSize m0 → runs t0 m0 w0 datas t m w →
  sent_ok (inputs (t_sid t0) w0) datas t m w ∧ b_maxDataSize m = b_maxDataSize m0 ∧ t_sid t = t_sid t0.
Proof.
  intros Hseq He Hmax. induction 1 as [|datas t m w ev t' m' w' _ (IH & IH2 & IH3) Hstep|datas t m w m' w' _ (IH & IH2 & IH3) Hm Hst Hw].
  - split; [|done]. exists 0%nat, []. cbn. split; [by rewrite app_nil_r|]. split; [lia|]. split; [done|]. split; [done|]. split; [by left|].
    intros; split; [done|]. intros E. by rewrite E in He.
  - destruct (step_ok _ _ _ _ _ _ _ _ _ IH ltac:(by rewrite IH2) Hstep) as (H1 & H2 & H3). split; [done|]. by rewrite H2, H3.
  - split; [|by rewrite Hm]. eapply sent_frame; [exact IH|done..|by rewrite IH3|done].
Qed.

(** ** The end of the call *)

(** When the channel of the session is closed and drained, the call ends in two steps, whatever the other goroutines do: the session is
    taken out of the table, and the error is the one found so far. *)
Lemma terminal_returns t m w exit : t_main t = MMessages exit → drained (t_msgCh t) m = true → transport_up →
  b_stopped m = false → table_inv (b_sessions m) → Z.of_nat (length (marshal_session_close (t_sid t))) <= b_maxDataSize m →
  ∃ t1 t2 m2 w2, step ChannelClosed t m w = Some (Ret (t1, m, w)) ∧ step CloseSession t1 m w = Some (Ret (t2, m2, w2)) ∧
    t_main t2 = MReturned ∧ t_cancelled t2 = true ∧ t_err t2 = t_err t ∧ m_sessions (b_sessions m2) !! t_sid t = None ∧
    cmds w2 = cmds w ++ [the_cmd CMD_SESSION_CLOSE (t_sid t) 0 true (marshal_session_close (t_sid t))].
Proof.
  intros Ht Hd Hup Hst Hinv Hlen. set (p := marshal_session_close (t_sid t)) in *.
  destruct (sendData (marshal_cmd (the_cmd CMD_SESSION_CLOSE (t_sid t) 0 true p)) true w) as [w1 err] eqn:E.
  pose proof (Hup (the_cmd CMD_SESSION_CLOSE (t_sid t) 0 true p) w) as Hup'. rewrite E in Hup'. cbn in Hup'. subst err.
  exists (set_cancelled (set_main MClosing (t_err t) t)), (set_main MReturned (t_err t) (set_cancelled (set_main MClosing (t_err t) t))),
    (set_sessions (Delete (t_sid t) (b_sessions m)) m), w1.
  cbn [step]. rewrite Ht, Hd. split; [done|]. split.
  { cbn [t_main set_cancelled set_main t_sid t_err Manager.PostCmd]. unfold Manager.PostData. rewrite Hst.
    change (CMD_SESSION_CLOSE =? CMD_SESSION_CLOSE) with true. cbv iota zeta. fold p. by rewrite doPostData_fits, E by done. }
  split; [done|]. split; [done|]. split; [done|]. split; [|by rewrite (Hlog _ _ _ _ E)].
  cbn. destruct (Delete_inv (t_sid t) _ Hinv) as [_ ->]. apply lookup_delete_eq.
Qed.

(** The resize of a terminal of a pod is posted like a command of its own. When the session of the terminal has gone, it opens a session
    that nobody waits for, and is sent under the id of that. *)
Lemma late_resize cols rows t m w m' w' data : t_kind t = CMD_RUNTIME → m_sessions (b_sessions m) !! t_sid t = None → b_stopped m = false →
  marshal_resize cols rows = Ok data → (∃ bs, marshal_packet PKT_TTY_RESIZE data = Ok bs) → transport_up →
  post_resize cols rows t m w = Ret (m', w') →
  ∃ r h, m_sessions (b_sessions m) !! r = None ∧ m_sessions (b_sessions m') = <[r := h]> (m_sessions (b_sessions m)).
Proof.
  intros Hk Hs Hst Hd [bs Hp] Hup. unfold post_resize, resize_cmd, Exec.resize_kind. rewrite Hk, Z.eqb_refl, Hd, Hp.
  cbn [Manager.PostCmd]. unfold Manager.PostData. rewrite Hst. cbn -[doPostData Add]. unfold Add. rewrite Hs.
  destruct (nextSid (b_sessions m)) as [r|] eqn:En; [|done]. apply nextSid_go_unused in En. cbn [mbind outcome_bind].
  destruct (doPostData _ _ _ _ _ _ _ _ _ _) as [[[w1 l1] e1]| |] eqn:E; cbn [mbind outcome_bind]; [|done..].
  apply doPostData_up in E as ->; [|done].
  cbn. intros [= <- <-]. exists r, (length (m_heap (b_sessions m))). done.
Qed.

(** A resize that cannot be sent takes the session of the terminal with it. *)
Lemma failed_resize_ends cols rows t m w m' w' data bs e : t_kind t = CMD_RUNTIME → is_Some (m_sessions (b_sessions m) !! t_sid t) →
  table_inv (b_sessions m) → b_stopped m = false → marshal_resize cols rows = Ok data → marshal_packet PKT_TTY_RESIZE data = Ok bs →
  Z.of_nat (length bs) <= b_maxDataSize m → (∀ c w, (sendData (marshal_cmd c) true w).2 = Some e) →
  post_resize cols rows t m w = Ret (m', w') → m_sessions (b_sessions m') !! t_sid t = None.
Proof.
  intros Hk [h Hs] Hinv Hst Hd Hp Hl Hdown. unfold post_resize, resize_cmd, Exec.resize_kind. rewrite Hk, Z.eqb_refl, Hd, Hp.
  cbn [Manager.PostCmd]. unfold Manager.PostData. rewrite Hst. cbn -[doPostData Add]. unfold Add. rewrite Hs. cbn [mbind outcome_bind].
  rewrite doPostData_fits by done.
  pose proof (Hdown (the_cmd CMD_RUNTIME (t_sid t) 0 true bs) w) as H. destruct (sendData _ true w) as [w1 err]. cbn in H. subst err.
  cbn. intros [= <- <-]. cbn. destruct (Delete_inv (t_sid t) _ Hinv) as [_ ->]. apply lookup_delete_eq.
Qed.

End Terminal.

Lemma serve_start {W} marshal_cmd (sendData : list Z → bool → W → W * option string) cmd_name kind initialCmd stdin stdout stderr tty m w m1 w1 t :
  doServeTerminalStream marshal_cmd sendData cmd_name kind initialCmd stdin stdout stderr tty m w = Ret (m1, w1, inl t) →
  t_seq t = 0 ∧ early (t_input t) = true.
Proof.
  unfold doServeTerminalStream. destruct stdout; [|done].
  destruct (PostStreamCmd _ _ _ _ _ _ _ _ _ _ _) as [[[m2 w2] p]| |]; cbn [mbind outcome_bind]; [|done..].
  destruct (ps_err p); [done|]. destruct (ps_msgCh p); [|done]. intros [= <- <- <-]. by destruct stdin.
Qed.

(** C6: what is typed into a terminal, or given to an execution, reaches the device in order: in every run of the call's goroutines (the
    messages of the session, the resizes and the input, in any order, among whatever else the program does), what has been sent of the
    input is what was read from it, each read as one command with the next number, without a gap, up to the last read at most, and then
    perhaps the end of the input. When the transport is up and the manager not stopped, nothing is left out and the end is sent last: a
    device that puts the commands together with a sequence queue gets the whole input, and its end, whatever the order of their arrival. *)
Theorem terminal_input_in_order {W : Type} (marshal_cmd : Cmd → list Z) (sendData : list Z → bool → W → W * option string)
    (cmd_name : Z → string) (unmarshal_err : list Z → option (Z * string)) (marshal_session_close : Z → list Z)
    (marshal_resize : Z → Z → result (list Z)) (marshal_packet : Z → list Z → result (list Z)) (cmds : W → list Cmd)
    (Hlog : sends_logged marshal_cmd sendData cmds)
    (kind : Z) (initialCmd : option (result (list Z))) (stdin : bool) (stdout stderr : option Writer) (tty : bool)
    (m0 m1 m : baseManager) (w0 w1 w : W) (t1 t : terminal) (datas : list (list Z))
    (Hserve : doServeTerminalStream marshal_cmd sendData cmd_name kind initialCmd stdin stdout stderr tty m0 w0 = Ret (m1, w1, inl t1))
    (Hmax : 0 <= b_maxDataSize m1) (Hlen : Z.of_nat (length datas) < 2 ^ 64 - 1)
    (Hruns : runs marshal_cmd sendData unmarshal_err marshal_session_close marshal_resize marshal_packet cmds t1 m1 w1 datas t m w) :
  let sid := t_sid t1 in let before := inputs cmds sid w1 in
  (∃ k rest, inputs cmds sid w = before ++ data_cmds sid 0 (take k datas) ++ rest ∧ (k <= length datas <= S k)%nat ∧
     (rest = [] ∨ rest = [close_cmd sid (length datas)]) ∧ (t_input t ≠ IEnd → rest = [])) ∧
  (transport_up marshal_cmd sendData → b_stopped m = false → sid ≠ 0 →
     (t_input t ≠ IEnd → inputs cmds sid w = before ++ data_cmds sid 0 datas) ∧
     (t_input t = IEnd → let chunks := datas ++ [ [] ] in
        inputs cmds sid w = before ++ commands CMD_DATA_UPSTREAM sid 0 true chunks ∧
        ∀ order i, (∀ j, j ∈ order ++ [i] → (j < length chunks)%nat) → ¬ covers chunks order → covers chunks (order ++ [i]) →
          ∃ cs q out, mapM (λ j, commands CMD_DATA_UPSTREAM sid 0 true chunks !! j) (order ++ [i]) = Some cs ∧
            receive_cmds cs NewSeqQueue [] = Ret (q, out, replicate (length order) false ++ [true]) ∧
            concat out.*2 = concat datas)).
Proof.
  apply serve_start in Hserve as [Hq He]. cbv zeta.
  destruct (runs_ok _ _ _ _ _ _ _ Hlog _ _ _ _ _ _ _ Hq He Hmax Hruns) as ((k & rest & H1 & H2 & _ & H4 & H5 & H6) & _ & Hs).
  rewrite Hs in *. split.
  - exists k, rest. split; [done|]. split; [done|]. split; [done|]. intros Hi. by apply H4.
  - intros Hup Hst H0. destruct (H6 Hup Hst H0) as [-> Hend]. rewrite firstn_all in H1. split.
    + intros Hi. destruct (H4 Hi) as [-> _]. by rewrite H1, app_nil_r.
    + intros Hi. destruct H5 as [-> | ->]; [by destruct (Hend Hi)|]. split; [by rewrite H1, upload_cmds|].
      intros order i Hin Hnot Hall. apply upload_reassembles; [rewrite length_app; cbn; lia|done..].
Qed.

End Terminal.

(** ** Concrete runs *)
Module TerminalExamples.
Import Terminal.

(** the world is what was sent *)
Definition world : Type := list Cmd.
Definition dec_cmd (bs : list Z) : Cmd :=
  match bs with
  | k :: sid :: seq :: c :: p => the_cmd k sid seq (c =? 1) p
  | _ => the_cmd 0 0 0 false []
  end.
Definition enc_cmd (c : Cmd) : list Z := [c_Kind c; c_Sid c; c_Seq c; if c_Complete c then 1 else 0] ++ c_Payload c.
Definition send (bs : list Z) (ensure : bool) (w : world) : world * option string := (w ++ [dec_cmd bs], None).
Lemma dec_enc c : dec_cmd (enc_cmd c) = c.
Proof. destruct c as [k s q [] p]; done. Qed.
Lemma send_logged : sends_logged enc_cmd send id.
Proof. intros c w w' err E. unfold send in E. rewrite dec_enc in E. by injection E as <- <-. Qed.

Definition start : baseManager := Connectivity.Examples.new_grpc.
Abbreviation serve := (doServeTerminalStream enc_cmd send (λ _, ""%string)).
Abbreviation go := (step enc_cmd send (λ _, None) (λ s, [s]) (λ c r, Ok [c; r]) (λ k d, Ok (k :: d))).
Abbreviation runs_log := (runs enc_cmd send (λ _, None) (λ s, [s]) (λ c r, Ok [c; r]) (λ k d, Ok (k :: d)) (@id world)).
Definition state : Type := terminal * baseManager * world.
Definition failed : state :=
  ({| t_kind := 0; t_sid := 0; t_msgCh := 0; t_tty := false; t_cancelled := false; t_err := None; t_resize := RNone; t_input := INone;
      t_seq := 0; t_main := MReturned |}, start, []).
Definition after (ev : event) (s : state) : state := match go ev s.1.1 s.1.2 s.2 with Some (Ret s) => s | _ => failed end.

(** an execution in a pod with an input and a terminal, and the device's first data *)
Definition s0 : state :=
  match serve CMD_RUNTIME (Some (Ok [7])) true (Some (Wr 1)) None true start [] with Ret (m, w, inl t) => (t, m, w) | _ => failed end.
Definition hello : Msg := {| m_Kind := MSG_DATA; m_Sid := t_sid s0.1.1; m_Seq := 0; m_Complete := false; m_Payload := [36] |}.
Definition s1 : state :=
  match Dispatch (λ _ bs w, (w, Z.of_nat (length bs), None)) (λ _ _, true) (λ k _, [k]) hello (b_sessions s0.1.2) s0.2 with
  | Ret (t, w, _) => (s0.1.1, set_sessions t s0.1.2, w)
  | _ => failed
  end.
Definition s2 : state := after InputReady s1.
Definition s3 : state := after (Read [1; 2] None) s2.
Definition s4 : state := after ResizeReady s3.
Definition s5 : state := after (Resize 80 24) s4.
Definition s6 : state := after (Read [3] (Some "EOF")) s5.
Definition s7 : state := after (Read [] (Some "EOF")) s6.
Definition s8 : state := after CloseInput s7.

(** what the device is sent: the command, the input and the resize, which has the number of a command of its own, and the end of the input *)
Example sent8 :
  s8.2 = [the_cmd CMD_RUNTIME (t_sid s0.1.1) 0 true [7]; the_cmd CMD_DATA_UPSTREAM (t_sid s0.1.1) 0 false [1; 2];
          the_cmd CMD_RUNTIME (t_sid s0.1.1) 0 true [PKT_TTY_RESIZE; 80; 24]; the_cmd CMD_DATA_UPSTREAM (t_sid s0.1.1) 1 false [3];
          the_cmd CMD_DATA_UPSTREAM (t_sid s0.1.1) 2 true []].
Proof. vm_compute. reflexivity. Qed.

Lemma runs_go datas s ev s' : runs_log s0.1.1 s0.1.2 s0.2 datas s.1.1 s.1.2 s.2 → go ev s.1.1 s.1.2 s.2 = Some (Ret s') →
  runs_log s0.1.1 s0.1.2 s0.2 (datas ++ typed ev s.1.1) s'.1.1 s'.1.2 s'.2.
Proof. destruct s' as [[t m] w]. apply runs_step. Qed.
Lemma runs8 : runs_log s0.1.1 s0.1.2 s0.2 [[1; 2]; [3]] s8.1.1 s8.1.2 s8.2.
Proof.
  apply (runs_go [[1; 2]; [3]] s7 CloseInput s8); [|vm_compute; reflexivity].
  apply (runs_go [[1; 2]; [3]] s6 (Read [] (Some "EOF")) s7); [|vm_compute; reflexivity].
  apply (runs_go [[1; 2]] s5 (Read [3] (Some "EOF")) s6); [|vm_compute; reflexivity].
  apply (runs_go [[1; 2]] s4 (Resize 80 24) s5); [|vm_compute; reflexivity].
  apply (runs_go [[1; 2]] s3 ResizeReady s4); [|vm_compute; reflexivity].
  apply (runs_go [] s2 (Read [1; 2] None) s3); [|vm_compute; reflexivity].
  apply (runs_go [] s1 InputReady s2); [|vm_compute; reflexivity].
  apply (runs_other _ _ _ _ _ _ _ _ _ _ [] s0.1.1 s0.1.2 s0.2 s1.1.2 s1.2); [constructor|vm_compute; reflexivity|done|vm_compute; reflexivity].
Qed.

Lemma terminal_input_in_order_witness :
  inputs id (t_sid s0.1.1) s8.2 = commands CMD_DATA_UPSTREAM (t_sid s0.1.1) 0 true [[1; 2]; [3]; []].
Proof.
  destruct (terminal_input_in_order enc_cmd send (λ _, ""%string) (λ _, None) (λ s, [s]) (λ c r, Ok [c; r]) (λ k d, Ok (k :: d)) id send_logged
    CMD_RUNTIME (Some (Ok [7])) true (Some (Wr 1)) None true start s0.1.2 s8.1.2 [] s0.2 s8.2 s0.1.1 s8.1.1 [[1; 2]; [3]]) as [_ H].
  - vm_compute. reflexivity.
  - vm_compute. discriminate.
  - cbn. lia.
  - exact runs8.
  - destruct (H ltac:(done) ltac:(vm_compute; reflexivity) ltac:(vm_compute; discriminate)) as [_ Hend].
    destruct (Hend ltac:(vm_compute; reflexivity)) as [E _]. exact E.
Defined.

(** The call does not wait for its goroutines: of an execution without a terminal, what is read after it has returned is still posted, for
    the session it has closed. *)
Definition u0 : state :=
  match serve CMD_EXEC (Some (Ok [7])) true (Some (Wr 1)) None false start [] with Ret (m, w, inl t) => (t, m, w) | _ => failed end.
Definition gone (s : state) : state := (s.1.1, set_sessions (Delete (t_sid s.1.1) (b_sessions s.1.2)) s.1.2, s.2).
Definition u1 : state := after CloseSession (after ChannelClosed (after InputReady (gone u0))).
Example input_after_close :
  t_main u1.1.1 = MReturned ∧
  drop 1 (after (Read [5] None) u1).2 = [the_cmd CMD_SESSION_CLOSE (t_sid u0.1.1) 0 true [t_sid u0.1.1]; the_cmd CMD_DATA_UPSTREAM (t_sid u0.1.1) 0 false [5]].
Proof. by vm_compute. Qed.
End TerminalExamples.
