(* ===== verification/Metrics.v ===== *)
(** * The metrics manager

    src/pkg/virtualnode/metrics: the two kinds of metrics of a device, those of its node and those of its container runtime: which are
    collected, whether the device supports them, and the answers to scrapes of the kubelet. What the device answers to a command is an
    argument of the step that posts it. *)
From S2P Require Import Prelude GoNet Api Caches Connectivity.
Open Scope Z_scope.

Definition MSG_DONE : Z := 5.
Definition MSG_RUNTIME : Z := 10.
Definition PKT_DONE : Z := 8.
Definition PKT_ERROR : Z := 10.
Definition PKT_METRICS_CONFIG : Z := 51.
Definition PKT_METRICS_COLLECT : Z := 52.
Definition CMD_METRICS_CONFIG : Z := 21.
Definition ERR_NOT_SUPPORTED : Z := 3.

(** ** The accepted encoding of a scrape *)
Module Gzip.

Definition space (a : Ascii.ascii) : bool :=
  bool_decide (code a ∈ [9; 10; 11; 12; 13; 32]).
Fixpoint trim_left (s : string) : string :=
  match s with String a s' => if space a then trim_left s' else s | EmptyString => EmptyString end.
Fixpoint trim_right (s : string) : string :=
  match s with
  | EmptyString => EmptyString
  | String a s => let r := trim_right s in if space a && is_empty r then EmptyString else String a r
  end.
(** strings.TrimSpace, of ASCII text *)
Definition TrimSpace (s : string) : string := trim_right (trim_left s).
Definition gzipAccepted (acceptEncoding : string) : bool :=
  existsb (λ part, let part := TrimSpace part in bool_decide (part = "gzip") || prefixb "gzip;" part)
    (split_on (Ascii.ascii_of_nat 44) acceptEncoding).
Example gzip_examples :
  gzipAccepted "deflate, gzip;q=1.0" = true ∧ gzipAccepted " gzip " = true ∧ gzipAccepted "gzipped" = false ∧ gzipAccepted "" = false ∧
  gzipAccepted "gzip;q=0" = true.
Proof. by vm_compute. Qed.
End Gzip.

Module MetricsManager.
Section MetricsManager.
Context (MetricFamily : Type) (DecodeAll : string → result string) (Decode : string → option (MetricFamily * string)).
Abbreviation Cache := (MetricsCache.MetricsCache MetricFamily).
Abbreviation Update := (MetricsCache.Update MetricFamily DecodeAll Decode).

(** A message: its error if it is one, its kind, and the kind of the runtime packet in it, if that can be decoded. *)
Inductive Answer := AError (kind : Z) | AMsg (kind : Z) (packet : option Z).

(** The options: presets for the node metrics, with the system they are for, and the runtime metrics. *)
Record Options := { NodeMetrics : list (string * MetricsConfig); RuntimeMetrics : MetricsConfig }.
Record Manager := {
  options : Options; nodeMetricsCache : Cache; runtimeMetricsCache : Cache; supportNodeMetrics : bool; supportRuntimeMetrics : bool
}.
Definition NewManager (o : Options) : Manager :=
  {| options := o; nodeMetricsCache := MetricsCache.NewMetricsCache MetricFamily; runtimeMetricsCache := MetricsCache.NewMetricsCache MetricFamily;
     supportNodeMetrics := false; supportRuntimeMetrics := false |}.
Definition set_support (forRuntime b : bool) (m : Manager) : Manager :=
  {| options := options m; nodeMetricsCache := nodeMetricsCache m; runtimeMetricsCache := runtimeMetricsCache m;
     supportNodeMetrics := if forRuntime then supportNodeMetrics m else b;
     supportRuntimeMetrics := if forRuntime then b else supportRuntimeMetrics m |}.
Definition set_cache (forRuntime : bool) (c : Cache) (m : Manager) : Manager :=
  {| options := options m; nodeMetricsCache := if forRuntime then nodeMetricsCache m else c;
     runtimeMetricsCache := if forRuntime then c else runtimeMetricsCache m;
     supportNodeMetrics := supportNodeMetrics m; supportRuntimeMetrics := supportRuntimeMetrics m |}.
Definition support (forRuntime : bool) (m : Manager) : bool := if forRuntime then supportRuntimeMetrics m else supportNodeMetrics m.
Definition cache (forRuntime : bool) (m : Manager) : Cache := if forRuntime then runtimeMetricsCache m else nodeMetricsCache m.

(** ** After the device has connected *)

(** What node metrics to collect: the preset of the device itself, or the first enabled one for its system. *)
Definition node_preset (presets : list (string * MetricsConfig)) (os : string) : list string * list string :=
  match presets with
  | [("", p)] => if mc_Enabled p then (mc_Collect p, mc_ExtraArgs p) else ([], [])
  | _ => match list_find (λ x, mc_Enabled x.2 = true ∧ x.1 = os) presets with
         | Some (_, (_, p)) => (mc_Collect p, mc_ExtraArgs p)
         | None => ([], [])
         end
  end.

(** Whether a message says that the metrics are configured; any other one ends the session. *)
Definition configured (forRuntime : bool) (a : Answer) : bool :=
  match a with
  | AError _ => false
  | AMsg kind packet => if forRuntime then (kind =? MSG_RUNTIME) && bool_decide (packet = Some PKT_DONE) else kind =? MSG_DONE
  end.
Fixpoint on_answers (forRuntime : bool) (l : list Answer) (m : Manager) : Manager :=
  match l with
  | [] => m
  | a :: l => if configured forRuntime a then on_answers forRuntime l (set_support forRuntime true m) else set_support forRuntime false m
  end.
(** The command that is posted, and the messages of its session or the error of the post. *)
Inductive Call := Configure (forRuntime : bool) (collect extraArgs : list string) | CollectCmd (forRuntime : bool).
Definition configureMetricsCollection (forRuntime : bool) (answer : result (list Answer)) (m : Manager) : Manager :=
  match answer with Err _ => m | Ok l => on_answers forRuntime l m end.
Definition on_connected (os : string) (node runtime : result (list Answer)) (m : Manager) : Manager * list Call :=
  let '(collect, extraArgs) := node_preset (NodeMetrics (options m)) os in
  let '(m, calls) := if decide (collect = []) then (m, [])
                     else (configureMetricsCollection false node m, [Configure false collect extraArgs]) in
  let r := RuntimeMetrics (options m) in
  if mc_Enabled r then (configureMetricsCollection true runtime m, calls ++ [Configure true (mc_Collect r) (mc_ExtraArgs r)])
  else (m, calls).
Definition on_disconnected (m : Manager) : Manager := set_support true false (set_support false false m).

(** ** Scrapes *)

Fixpoint on_collect (forRuntime : bool) (l : list Answer) (m : Manager) : Manager :=
  match l with
  | [] => m
  | AError kind :: _ => if kind =? ERR_NOT_SUPPORTED then set_support forRuntime false m else m
  | AMsg kind _ :: l => if kind =? MSG_DONE then on_collect forRuntime l m else m
  end.
Definition UpdateMetrics (forRuntime : bool) (metricsData : string) (m : Manager) : outcome (Manager * option string) :=
  if decide (metricsData = "") then Ret (m, None)
  else '(c, err) ← Update metricsData (cache forRuntime m); Ret (set_cache forRuntime c m, err).
(** The messages of the session and the data of its stream *)
Definition retrieveDeviceMetrics (forRuntime : bool) (answer : result (list Answer * string)) (m : Manager) : outcome Manager :=
  match answer with
  | Err _ => Ret m
  | Ok (l, data) => '(m, _) ← UpdateMetrics forRuntime data (on_collect forRuntime l m); Ret m
  end.

Inductive Response := HttpError (code : Z) (text : string) | Families (l : list MetricFamily).
Definition serveMetrics (forRuntime done : bool) (answer : result (list Answer * string)) (m : Manager)
    : outcome (Manager * Response * list Call) :=
  if done then Ret (m, HttpError 500 "server exited", [])
  else if negb (support forRuntime m) || (forRuntime && negb (mc_Enabled (RuntimeMetrics (options m)))) then
    Ret (m, HttpError 501 (if forRuntime then "container metrics not supported" else "node metrics not supported"), [])
  else
    m ← retrieveDeviceMetrics forRuntime answer m;
    let '(l, c) := MetricsCache.Get MetricFamily (cache forRuntime m) in
    Ret (set_cache forRuntime c m, Families l, [CollectCmd forRuntime]).

(** ** Histories *)

Inductive event :=
  | EConnected (os : string) (node runtime : result (list Answer))
  | EDisconnected
  | EScrape (forRuntime : bool) (answer : result (list Answer * string)).
Definition step (m : Manager) (e : event) : outcome (Manager * list Call) :=
  match e with
  | EConnected os node runtime => Ret (on_connected os node runtime m)
  | EDisconnected => Ret (on_disconnected m, [])
  | EScrape forRuntime answer => '(m, _, calls) ← serveMetrics forRuntime false answer m; Ret (m, calls)
  end.
Fixpoint run (m : Manager) (es : list event) : outcome (Manager * list Call) :=
  match es with
  | [] => Ret (m, [])
  | e :: es => '(m, calls) ← step m e; '(m, calls') ← run m es; Ret (m, calls ++ calls')
  end.

Context (Hdecode : ∀ data mf rest, Decode data = Some (mf, rest) → (String.length rest < String.length data)%nat).

Lemma UpdateMetrics_spec forRuntime data m :
  ∃ m' e, UpdateMetrics forRuntime data m = Ret (m', e) ∧ options m' = options m ∧ (∀ b, support b m' = support b m) ∧
    MetricsCache.mfs MetricFamily (cache forRuntime m') =
      (if decide (data = "") then MetricsCache.mfs MetricFamily (cache forRuntime m)
       else MetricsCache.collect MetricFamily DecodeAll Decode (MetricsCache.mfs MetricFamily (cache forRuntime m)) data).
Proof using Hdecode.
  unfold UpdateMetrics. case_decide; [by exists m, None|].
  destruct (MetricsCache.Update_total MetricFamily DecodeAll Decode Hdecode data (cache forRuntime m)) as (c & e & Hu).
  rewrite Hu. cbn [mbind outcome_bind]. exists (set_cache forRuntime c m), e. split_and!; [done|done|by intros []|].
  assert (cache forRuntime (set_cache forRuntime c m) = c) as -> by by destruct forRuntime.
  unfold MetricsCache.Update in Hu. unfold MetricsCache.collect.
  destruct (MetricsCache.parseMetricsBytes MetricFamily DecodeAll Decode data) as [ [ [|mf l]|]| |]; cbn in Hu; by simplify_eq/=.
Qed.
Lemma on_collect_spec forRuntime l m :
  options (on_collect forRuntime l m) = options m ∧ (∀ b, cache b (on_collect forRuntime l m) = cache b m) ∧
  (∀ b, support b (on_collect forRuntime l m) = true → support b m = true).
Proof.
  induction l as [|a l IH]; [done|]. cbn [on_collect]. destruct a as [kind|kind p]; [|by destruct (kind =? MSG_DONE)].
  destruct (kind =? ERR_NOT_SUPPORTED); [|done]. split_and!; [done|done|]. by destruct forRuntime; intros [].
Qed.

(** A scrape always answers. *)
Lemma serveMetrics_total forRuntime done answer m :
  ∃ m' r calls, serveMetrics forRuntime done answer m = Ret (m', r, calls) ∧ options m' = options m ∧
    (∀ b, support b m' = true → support b m = true) ∧ (calls ≠ [] → support forRuntime m = true).
Proof using Hdecode.
  unfold serveMetrics. destruct done; [by eexists _, _, _|]. destruct (support forRuntime m) eqn:Hs; [|by eexists _, _, _]. cbn [negb orb].
  destruct (forRuntime && _); [by eexists _, _, _|]. unfold retrieveDeviceMetrics.
  destruct answer as [ [l data]|e]; cbn [mbind outcome_bind].
  - destruct (on_collect_spec forRuntime l m) as (H1 & _ & H3).
    destruct (UpdateMetrics_spec forRuntime data (on_collect forRuntime l m)) as (m1 & e & -> & Ho & Hsup & _). cbn [mbind outcome_bind].
    eexists _, _, _. split_and!; [done|by cbn; rewrite Ho| |done]. intros b Hb. apply H3. rewrite <-Hsup. by destruct b, forRuntime.
  - eexists _, _, _. split_and!; [done|done| |done]. by intros b; destruct b, forRuntime.
Qed.

(** Whether the metrics of a kind have been configured since the device connected, by a session that answered nothing else. *)
Definition configured_by (forRuntime : bool) (answer : result (list Answer)) : Prop :=
  match answer with Ok l => l ≠ [] ∧ Forall (λ a, configured forRuntime a = true) l | Err _ => False end.
Definition wanted (forRuntime : bool) (os : string) (o : Options) : Prop :=
  if forRuntime then mc_Enabled (RuntimeMetrics o) = true else (node_preset (NodeMetrics o) os).1 ≠ [].

Lemma on_answers_spec forRuntime l m b :
  support b (on_answers forRuntime l m) = true →
  if decide (b = forRuntime) then (l = [] ∧ support b m = true) ∨ (l ≠ [] ∧ Forall (λ a, configured forRuntime a = true) l)
  else support b m = true.
Proof.
  revert m. induction l as [|a l IH]; intros m; cbn [on_answers]; [by case_decide; [left|]|].
  destruct (configured forRuntime a) eqn:Ha.
  - intros Hs%IH. case_decide; [subst|by destruct b, forRuntime]. right. split; [done|]. constructor; [done|].
    destruct Hs as [ [-> _]|[_ ?] ]; [constructor|done].
  - case_decide; [subst; by destruct forRuntime|by destruct b, forRuntime].
Qed.
Lemma on_answers_options forRuntime l m : options (on_answers forRuntime l m) = options m.
Proof. revert m. induction l as [|a l IH]; intros m; cbn [on_answers]; [done|]. destruct (configured forRuntime a); [by rewrite IH|done]. Qed.
Lemma configure_spec forRuntime answer m b :
  support b (configureMetricsCollection forRuntime answer m) = true →
  (b = forRuntime ∧ configured_by forRuntime answer) ∨ support b m = true.
Proof.
  unfold configureMetricsCollection, configured_by. destruct answer as [l|e]; [|by right]. intros Hs%on_answers_spec. case_decide; [subst|by right].
  destruct Hs as [ [_ ?]|?]; [by right|by left].
Qed.
Lemma on_connected_spec os node runtime m b :
  options (on_connected os node runtime m).1 = options m ∧
  (support b (on_connected os node runtime m).1 = true → support b m = true ∨
     wanted b os (options m) ∧ configured_by b (if b then runtime else node)).
Proof.
  unfold on_connected. destruct (node_preset (NodeMetrics (options m)) os) as [collect extraArgs] eqn:Hp.
  set (m1 := (if decide (collect = []) then (m, []) else (configureMetricsCollection false node m, [Configure false collect extraArgs])) : Manager * list Call).
  assert (options m1.1 = options m ∧ (support b m1.1 = true → support b m = true ∨ b = false ∧ collect ≠ [] ∧ configured_by false node)) as [Ho Hs].
  { unfold m1. case_decide; cbn [fst]; [by split; [|left]|]. split; [by destruct node; [apply on_answers_options|]|].
    intros [ [-> ?]|?]%configure_spec; [by right|by left]. }
  destruct m1 as [m1 calls]. cbn [fst] in *. rewrite Ho.
  assert (support b m1 = true → support b m = true ∨ wanted b os (options m) ∧ configured_by b (if b then runtime else node)) as Hs1.
  { intros Hb. destruct (Hs Hb) as [?|(-> & ? & ?)]; [by left|]. right. unfold wanted. by rewrite Hp. }
  destruct (mc_Enabled (RuntimeMetrics (options m))) eqn:He; cbn [fst]; [|done]. split; [destruct runtime; [by cbn; rewrite on_answers_options|done]|].
  intros [ [-> ?]|?]%configure_spec; [by right|by apply Hs1].
Qed.

Lemma run_snoc m es e :
  run m (es ++ [e]) = '(m, calls) ← run m es; '(m, calls') ← step m e; Ret (m, calls ++ calls').
Proof.
  revert m. induction es as [|x es IH]; intros m; cbn [run app].
  - cbn [mbind outcome_bind]. destruct (step m e) as [ [m1 calls]| |]; cbn; [by rewrite app_nil_r|done..].
  - destruct (step m x) as [ [m1 c1]| |]; cbn [mbind outcome_bind]; [|done..]. rewrite IH.
    destruct (run m1 es) as [ [m2 c2]| |]; cbn [mbind outcome_bind]; [|done..].
    destruct (step m2 e) as [ [m3 c3]| |]; cbn [mbind outcome_bind]; [|done..]. by rewrite app_assoc.
Qed.

(** A history always runs; a kind of metrics is taken for supported only while the device is connected and after it has confirmed
    the configuration of this kind, which the options ask for; a scrape of a kind that is not supported is answered at once and sends
    nothing to the device. *)
Lemma metrics_only_when_configured o es :
  ∃ m calls, run (NewManager o) es = Ret (m, calls) ∧ options m = o ∧
    (∀ b, support b m = true → ∃ pre os node runtime post, es = pre ++ EConnected os node runtime :: post ∧ (EDisconnected ∉ post) ∧
       wanted b os o ∧ configured_by b (if b then runtime else node)) ∧
    (∀ b done answer, support b m = false → ∃ code text, serveMetrics b done answer m = Ret (m, HttpError code text, [])).
Proof using Hdecode.
  assert (∃ m calls, run (NewManager o) es = Ret (m, calls) ∧ options m = o ∧
    (∀ b, support b m = true → ∃ pre os node runtime post, es = pre ++ EConnected os node runtime :: post ∧ (EDisconnected ∉ post) ∧
       wanted b os o ∧ configured_by b (if b then runtime else node))) as (m & calls & Hr & Ho & Hs).
  - induction es as [|e es IH] using rev_ind; [by eexists _, _; split_and!; [| |intros []]|].
    destruct IH as (m & calls & Hr & Ho & Hs). rewrite run_snoc, Hr. cbn [mbind outcome_bind].
    assert (∀ b, e ≠ EDisconnected → support b m = true → ∃ pre os node runtime post, es ++ [e] = pre ++ EConnected os node runtime :: post ∧
      (EDisconnected ∉ post) ∧ wanted b os o ∧ configured_by b (if b then runtime else node)) as Hkeep.
    { intros b He Hb. destruct (Hs b Hb) as (pre & os & node & runtime & post & -> & ? & ? & ?). exists pre, os, node, runtime, (post ++ [e]).
      split_and!; try done; [by rewrite <-app_assoc|]. rewrite elem_of_app, list_elem_of_singleton. intros [?|?]; [done|congruence]. }
    destruct e as [os node runtime| |b answer]; cbn [step].
    + destruct (on_connected os node runtime m) as [m1 c1] eqn:Hc. cbn [mbind outcome_bind]. eexists _, _. split; [done|].
      pose proof (λ b, on_connected_spec os node runtime m b) as Hsp. rewrite Hc in Hsp. cbn [fst] in Hsp.
      split; [by destruct (Hsp true) as [-> _]|]. intros b Hb. destruct (proj2 (Hsp b) Hb) as [?|[Hw ?] ]; [by apply Hkeep|].
      exists es, os, node, runtime, []. rewrite Ho in Hw. split_and!; [done|by apply not_elem_of_nil|done|done].
    + eexists _, _. split; [done|]. split; [done|]. by intros [].
    + destruct (serveMetrics_total b false answer m) as (m1 & r & c1 & -> & Ho1 & Hs1 & _). cbn [mbind outcome_bind].
      eexists _, _. split; [done|]. split; [congruence|]. intros b' Hb'. by apply Hkeep, Hs1.
  - exists m, calls. split_and!; [done..|]. intros b done answer Hb. unfold serveMetrics. destruct done; [by eexists _, _|]. rewrite Hb. by eexists _, _.
Qed.
End MetricsManager.
End MetricsManager.

Module MetricsExamples.
Import MetricsManager.
(** A report is the list of its characters, each a family; "?" cannot be decompressed. *)
Definition inflate (s : string) : result string := if decide (s = "?") then Err "bad data" else Ok s.
Definition decode (s : string) : option (Ascii.ascii * string) := match s with EmptyString => None | String a s => Some (a, s) end.
Lemma decode_shorter data mf rest : decode data = Some (mf, rest) → (String.length rest < String.length data)%nat.
Proof. destruct data; [done|]. intros [= _ <-]. cbn. lia. Qed.
Definition opts : Options :=
  {| NodeMetrics := [("linux", {| mc_Enabled := true; mc_Collect := ["cpu"]; mc_ExtraArgs := [] |})];
     RuntimeMetrics := {| mc_Enabled := true; mc_Collect := []; mc_ExtraArgs := [] |} |}.
Definition es : list event :=
  [EScrape false (Err ""); EConnected "linux" (Ok [AMsg MSG_DONE None]) (Ok [AMsg MSG_RUNTIME (Some PKT_ERROR)]);
   EScrape false (Ok ([AMsg MSG_DONE None], "ab")); EScrape true (Ok ([], "x"))].
Definition m0 := NewManager Ascii.ascii opts.
Lemma metrics_only_when_configured_witness :
  ∃ m, run Ascii.ascii inflate decode m0 es = Ret (m, [Configure false ["cpu"] []; Configure true [] []; CollectCmd false]) ∧
    support Ascii.ascii false m = true ∧ support Ascii.ascii true m = false ∧
    ∀ done answer, ∃ code text, serveMetrics Ascii.ascii inflate decode true done answer m = Ret (m, HttpError Ascii.ascii code text, []).
Proof.
  destruct (metrics_only_when_configured Ascii.ascii inflate decode decode_shorter opts es) as (m & calls & Hr & _ & _ & Hs).
  exists m. vm_compute in Hr. injection Hr as <- <-. split_and!; [by vm_compute..|]. intros done answer. apply (Hs true). done.
Defined.
(** Once the device has answered that it is configured, a message that it is not ends it. *)
Example last_answer_counts :
  let m := configureMetricsCollection Ascii.ascii false (Ok [AMsg MSG_DONE None; AError 4]) m0 in support Ascii.ascii false m = false.
Proof. done. Qed.
End MetricsExamples.
