(* ===== verification/Base64.v ===== *)
(** * encoding/base64

    StdEncoding of the standard library, as the WireGuard keys of Mesh.v and the access keys of MqClients.v use it: encoding, decoding
    as the library does it, and that the one undoes the other. *)
From S2P Require Import Prelude GoNet.
Open Scope Z_scope.

Definition sextet (v : Z) : Ascii.ascii :=
  Ascii.ascii_of_nat (Z.to_nat (if v <? 26 then v + 65 else if v <? 52 then v + 71 else if v <? 62 then v - 4 else if v =? 62 then 43 else 47)).
Definition unsextet (a : Ascii.ascii) : option Z :=
  let n := code a in
  if (65 <=? n) && (n <=? 90) then Some (n - 65) else if (97 <=? n) && (n <=? 122) then Some (n - 71)
  else if (48 <=? n) && (n <=? 57) then Some (n + 4) else if n =? 43 then Some 62 else if n =? 47 then Some 63 else None.
Definition pad : Ascii.ascii := Ascii.ascii_of_nat 61.

Fixpoint EncodeToString (bs : list Z) : string :=
  match bs with
  | [] => ""
  | [a] => String (sextet (a / 4)) (String (sextet (a mod 4 * 16)) (String pad (String pad "")))
  | [a; b] => String (sextet (a / 4)) (String (sextet (a mod 4 * 16 + b / 16)) (String (sextet (b mod 16 * 4)) (String pad "")))
  | a :: b :: c :: bs =>
      String (sextet (a / 4)) (String (sextet (a mod 4 * 16 + b / 16)) (String (sextet (b mod 16 * 4 + c / 64)) (String (sextet (c mod 64))
        (EncodeToString bs))))
  end.

(** New lines are skipped; the bits of the last sextet that belong to no byte may be set. *)
Fixpoint drop_newlines (s : string) : string :=
  match s with
  | EmptyString => EmptyString
  | String a s => if (code a =? 10) || (code a =? 13) then drop_newlines s else String a (drop_newlines s)
  end.
Fixpoint decode (s : string) : option (list Z) :=
  match s with
  | EmptyString => Some []
  | String a (String b (String c (String d s))) =>
      x ← unsextet a; y ← unsextet b;
      if decide (c = pad) then if decide (d = pad ∧ s = "") then Some [x * 4 + y / 16] else None
      else z ← unsextet c;
           if decide (d = pad) then if decide (s = "") then Some [x * 4 + y / 16; y mod 16 * 16 + z / 4] else None
           else t ← unsextet d; r ← decode s; Some (x * 4 + y / 16 :: y mod 16 * 16 + z / 4 :: z mod 4 * 64 + t :: r)
  | _ => None
  end.
Definition DecodeString (s : string) : option (list Z) := decode (drop_newlines s).

Lemma sextet_ok v : 0 <= v < 64 →
  unsextet (sextet v) = Some v ∧ sextet v ≠ pad ∧ (code (sextet v) =? 10) || (code (sextet v) =? 13) = false.
Proof.
  intros Hv. assert (forallb (λ n, let v := Z.of_nat n in bool_decide (unsextet (sextet v) = Some v) && negb (bool_decide (sextet v = pad)) &&
    negb ((code (sextet v) =? 10) || (code (sextet v) =? 13))) (seq 0 64) = true) as Hall by (by vm_compute).
  rewrite List.forallb_forall in Hall. specialize (Hall (Z.to_nat v)). cbv zeta in Hall. rewrite Z2Nat.id in Hall by lia.
  destruct (proj1 (andb_true_iff _ _) (Hall ltac:(apply in_seq; lia))) as [ [H1 H2]%andb_true_iff H3%negb_true_iff].
  apply bool_decide_eq_true in H1. apply negb_true_iff, bool_decide_eq_false in H2. done.
Qed.
Lemma drop_sextet v s : 0 <= v < 64 → drop_newlines (String (sextet v) s) = String (sextet v) (drop_newlines s).
Proof. intros Hv. cbn [drop_newlines]. by destruct (sextet_ok v Hv) as (_ & _ & ->). Qed.
Lemma decode_quad w x y z s : 0 <= w < 64 → 0 <= x < 64 → 0 <= y < 64 → 0 <= z < 64 →
  decode (String (sextet w) (String (sextet x) (String (sextet y) (String (sextet z) s)))) =
  r ← decode s; Some (w * 4 + x / 16 :: x mod 16 * 16 + y / 4 :: y mod 4 * 64 + z :: r).
Proof.
  intros Hw Hx Hy Hz. cbn [decode]. destruct (sextet_ok w Hw) as (-> & _ & _), (sextet_ok x Hx) as (-> & _ & _).
  destruct (sextet_ok y Hy) as (-> & Hny & _), (sextet_ok z Hz) as (-> & Hnz & _). cbn [mbind option_bind].
  rewrite decide_False by done. rewrite decide_False by done. done.
Qed.

Lemma group3 (a b c : Z) : 0 <= a < 256 → 0 <= b < 256 → 0 <= c < 256 →
  a / 4 * 4 + (a mod 4 * 16 + b / 16) / 16 = a ∧ (a mod 4 * 16 + b / 16) mod 16 * 16 + (b mod 16 * 4 + c / 64) / 4 = b ∧
  (b mod 16 * 4 + c / 64) mod 4 * 64 + c mod 64 = c ∧ 0 <= a / 4 < 64 ∧ 0 <= a mod 4 * 16 + b / 16 < 64 ∧ 0 <= b mod 16 * 4 + c / 64 < 64.
Proof. intros. Z.to_euclidean_division_equations. lia. Qed.
(** Three bytes at a time. *)
Lemma list_ind3 {A} (P : list A → Prop) :
  P [] → (∀ a, P [a]) → (∀ a b, P [a; b]) → (∀ a b c l, P l → P (a :: b :: c :: l)) → ∀ l, P l.
Proof.
  intros H0 H1 H2 H3. assert (∀ n l, (length l <= n)%nat → P l) as Hn; [|intros l; by apply (Hn (length l))].
  induction n as [|n IH]; intros [|a [|b [|c l] ] ]; cbn; auto with lia.
Qed.
Lemma base64_roundtrip bs : Forall is_byte bs → DecodeString (EncodeToString bs) = Some bs.
Proof.
  unfold DecodeString. induction bs as [|a|a b|a b c bs IH] using list_ind3; intros Hb; [done| | |].
  - apply Forall_cons in Hb as [Hb _]. destruct (group3 a 0 0) as (H1 & _ & _ & H2 & H3 & _); [unfold is_byte in Hb; lia..|].
    rewrite Z.add_0_r in *. cbn [EncodeToString]. rewrite !drop_sextet by done. cbn [drop_newlines decode].
    destruct (sextet_ok (a / 4) H2) as (-> & _ & _), (sextet_ok _ H3) as (-> & _ & _). cbn [mbind option_bind].
    change (code pad =? 10) with false. change (code pad =? 13) with false. cbn [orb]. rewrite !decide_True by done. by rewrite H1.
  - apply Forall_cons in Hb as [Ha [Hb _]%Forall_cons]. destruct (group3 a b 0) as (H1 & H2 & _ & H3 & H4 & H5); [unfold is_byte in *; lia..|].
    change (0 / 64) with 0 in *. rewrite Z.add_0_r in *. cbn [EncodeToString]. rewrite !drop_sextet by done. cbn [drop_newlines decode].
    destruct (sextet_ok _ H3) as (-> & _ & _), (sextet_ok _ H4) as (-> & _ & _), (sextet_ok _ H5) as (-> & Hn & _). cbn [mbind option_bind].
    change (code pad =? 10) with false. change (code pad =? 13) with false. cbn [orb]. rewrite decide_False by done. rewrite !decide_True by done.
    by rewrite H1, H2.
  - apply Forall_cons in Hb as [Ha [Hb [Hc Hbs]%Forall_cons]%Forall_cons].
    destruct (group3 a b c) as (H1 & H2 & H3 & H4 & H5 & H6); [unfold is_byte in *; lia..|].
    pose proof (Z.mod_pos_bound c 64 ltac:(lia)) as H7. cbn [EncodeToString]. rewrite !drop_sextet by done. rewrite decode_quad by done.
    rewrite IH by done. cbn [mbind option_bind]. by rewrite H1, H2, H3.
Qed.
