(* ===== verification/Mesh.v ===== *)
(** * The mesh network

    src/pkg/mesh: the WireGuard driver, which makes the network configuration of one member from the interfaces of all (Module Wireguard),
    with the private address ranges of util.go; and from controller/edgedevice/mesh.go the address managers of the mesh. Keys are encoded with
    Base64.v; Curve25519 is an argument. *)
From S2P Require Import Prelude GoNet Base64 Ipam EdgeDevice.
Open Scope Z_scope.

(** ** Private addresses *)
Module PrivateIP.

Definition blocks : list string :=
  ["127.0.0.0/8"; "10.0.0.0/8"; "172.16.0.0/12"; "192.168.0.0/16"; "169.254.0.0/16"; "100.64.0.0/10"; "::1/128"; "fe80::/10"; "fc00::/7"].
(** init: a text that cannot be parsed would panic, and none does (blocks_parse). *)
Definition privateIPBlocks : list IPNet := omap (λ s, (λ r, r.1.1.2) <$> ParseCIDR s) blocks.
Lemma blocks_parse : length privateIPBlocks = length blocks.
Proof. by vm_compute. Qed.

(** The tests of net.IP, on the four bytes of an IPv4 address or the sixteen of another *)
Definition byte (i : nat) (ip : list Z) : Z := default 0 (ip !! i).
Definition IPv6loopback : list Z := replicate 15 0 ++ [1].
Definition IsLoopback (ip : list Z) : bool :=
  match To4 ip with Some ip4 => byte 0 ip4 =? 127 | None => ip_Equal ip IPv6loopback end.
Definition IsLinkLocalUnicast (ip : list Z) : bool :=
  match To4 ip with
  | Some ip4 => (byte 0 ip4 =? 169) && (byte 1 ip4 =? 254)
  | None => (length ip =? IPv6len)%nat && (byte 0 ip =? 254) && (Z.land (byte 1 ip) 192 =? 128)
  end.
Definition IsLinkLocalMulticast (ip : list Z) : bool :=
  match To4 ip with
  | Some ip4 => (byte 0 ip4 =? 224) && (byte 1 ip4 =? 0) && (byte 2 ip4 =? 0)
  | None => (length ip =? IPv6len)%nat && (byte 0 ip =? 255) && (Z.land (byte 1 ip) 15 =? 2)
  end.
Definition isPrivateIP (ip : list Z) : bool :=
  IsLoopback ip || IsLinkLocalUnicast ip || IsLinkLocalMulticast ip || existsb (λ block, net_Contains block ip) privateIPBlocks.

(** The private IPv4 addresses, by their first bytes. *)
Definition private4 (a b c : Z) : bool :=
  (a =? 127) || (a =? 10) || ((a =? 172) && (16 <=? b) && (b <? 32)) || ((a =? 192) && (b =? 168)) || ((a =? 169) && (b =? 254)) ||
  ((a =? 100) && (64 <=? b) && (b <? 128)) || ((a =? 224) && (b =? 0) && (c =? 0)).
(** A block of IPv4 has an address whose bytes have those of the block under its mask. *)
Lemma Contains_v4 n0 n1 n2 n3 m0 m1 m2 m3 a b c d :
  net_Contains {| net_IP := [n0; n1; n2; n3]; net_Mask := [m0; m1; m2; m3] |} (IPv4 [a; b; c; d]) =
    ((Z.land a m0 =? Z.land n0 m0) && (Z.land b m1 =? Z.land n1 m1) && (Z.land c m2 =? Z.land n2 m2) && (Z.land d m3 =? Z.land n3 m3)).
Proof.
  change (bool_decide ([Z.land n0 m0; Z.land n1 m1; Z.land n2 m2; Z.land n3 m3] = [Z.land a m0; Z.land b m1; Z.land c m2; Z.land d m3]) =
    ((Z.land a m0 =? Z.land n0 m0) && (Z.land b m1 =? Z.land n1 m1) && (Z.land c m2 =? Z.land n2 m2) && (Z.land d m3 =? Z.land n3 m3))).
  apply eq_bool_prop_intro. rewrite !andb_True, !Is_true_true, !Z.eqb_eq, bool_decide_eq_true. intuition congruence.
Qed.
Lemma Contains_v6 n m bs : length n = 16%nat → To4 n = None → length m = 16%nat → length bs = 4%nat →
  net_Contains {| net_IP := n; net_Mask := m |} (IPv4 bs) = false.
Proof.
  intros Hn Hn4 Hm Hb. unfold net_Contains, networkNumberAndMask. cbn [net_IP net_Mask]. rewrite Hn4, To4_IPv4 by done.
  change (default n None) with n. change (default (IPv4 bs) (Some bs)) with bs. unfold IPv4len, IPv6len.
  rewrite decide_False by lia. rewrite decide_False by lia. rewrite decide_True by done. rewrite bool_decide_false by lia. done.
Qed.
Lemma byte_masks b : is_byte b →
  Z.land b 255 = b ∧ (Z.land b 240 =? 16) = ((16 <=? b) && (b <? 32)) ∧ (Z.land b 192 =? 64) = ((64 <=? b) && (b <? 128)).
Proof.
  intros Hb%bytes_all_spec.
  assert (forallb (λ b, (Z.land b 255 =? b) && Bool.eqb (Z.land b 240 =? 16) ((16 <=? b) && (b <? 32)) &&
    Bool.eqb (Z.land b 192 =? 64) ((64 <=? b) && (b <? 128))) bytes_all = true) as Hf by by vm_compute.
  rewrite List.forallb_forall in Hf. apply Hf in Hb. rewrite !andb_true_iff, Z.eqb_eq, !Bool.eqb_true_iff in Hb. tauto.
Qed.
Lemma isPrivateIP_v4 a b c d : is_byte a → is_byte b → is_byte c → is_byte d → isPrivateIP (IPv4 [a; b; c; d]) = private4 a b c.
Proof.
  intros (Ha & _)%byte_masks (Hb & Hb1 & Hb2)%byte_masks _ _. unfold isPrivateIP, privateIPBlocks.
  set (l := omap _ _). vm_compute in l. subst l. cbn [existsb]. unfold IsLoopback, IsLinkLocalUnicast, IsLinkLocalMulticast.
  rewrite !To4_IPv4 by done. rewrite !Contains_v4, !Contains_v6 by done. rewrite !Z.land_0_r, Ha, Hb.
  change (Z.land 16 240) with 16. change (Z.land 64 192) with 64. rewrite Hb1, Hb2. unfold private4, byte. cbn [lookup list_lookup default option_map from_option id].
  cbn -[Z.eqb Z.leb Z.ltb]. rewrite !andb_true_r, !orb_false_r.
  change (Z.land 127 255) with 127. change (Z.land 10 255) with 10. change (Z.land 172 255) with 172. change (Z.land 192 255) with 192.
  change (Z.land 168 255) with 168. change (Z.land 169 255) with 169. change (Z.land 254 255) with 254. change (Z.land 100 255) with 100.
  generalize (16 <=? b) (b <? 32) (64 <=? b) (b <? 128) (b =? 168) (b =? 254) (b =? 0) (c =? 0).
  clear. intros p q r s t u v w.
  repeat match goal with |- context [a =? ?k] => destruct (Z.eqb_spec a k) as [->|]; [by destruct p, q, r, s, t, u, v, w|] end. done.
Qed.
End PrivateIP.

(** ** The WireGuard driver *)
Module Wireguard.
Import EdgeDevice.NetworkOptions.

(** abbotgopb.HostNetworkInterface: the configuration is that of WireGuard or of something else. *)
Record DriverWireguard := { dw_ListenPort : Z; dw_PrivateKey : string }.
Record HostNetworkInterface := { hi_Provider : string; hi_Name : string; hi_Addresses : list string; hi_Wireguard : option DriverWireguard }.
Record Peer := {
  pr_PublicKey : string; pr_PreSharedKey : string; pr_Endpoint : string; pr_PersistentKeepaliveInterval : Z; pr_AllowedIps : list string
}.
(** abbotgopb.HostNetworkConfigEnsureRequest of a WireGuard interface, with its routing enabled *)
Record EnsureRequest := {
  er_Name : string; er_Mtu : Z; er_Addresses : list string; er_Provider : string; er_LogLevel : string; er_PrivateKey : string;
  er_Peers : list Peer; er_ListenPort : Z; er_Table : Z; er_FirewallMark : Z
}.

Definition prefix : string := "aranya:mesh:".
Definition KeyLength : nat := 32.
Definition has_prefix (p s : string) : bool := prefixb p s.
(** sets.String.List() *)
Definition List_of (s : gset string) : list string := merge_sort String.le (elements s).

Section Driver.
(** curve25519.ScalarBaseMult: the public key of a private key of 32 bytes *)
Context (PublicKey : list Z → list Z).
(** the network options of the virtual node, and those of WireGuard *)
Context (d : Options) (options : WireguardOpts) (TenantNS : string).

(** The key and the port of an interface that can be a peer. *)
Definition peer_key (iface : HostNetworkInterface) : option (list Z * Z) :=
  md ← hi_Wireguard iface;
  if dw_ListenPort md <=? 0 then None
  else pk ← Base64.DecodeString (dw_PrivateKey md);
       if bool_decide (length pk ≠ KeyLength) then None else Some (pk, dw_ListenPort md).
(** The peer that an interface is at one address. *)
Definition peer_at (allowed : list string) (key : list Z * Z) (addr : string) : Peer :=
  {| pr_PublicKey := Base64.EncodeToString (PublicKey key.1); pr_PreSharedKey := PreSharedKey options;
     pr_Endpoint := JoinHostPort addr key.2; pr_PersistentKeepaliveInterval := KeepaliveSeconds options; pr_AllowedIps := allowed |}.
Definition peers_of (allowed : HostNetworkInterface → list string) (addresses : gset string) (managed : list HostNetworkInterface) : list Peer :=
  iface ← managed; match peer_key iface with None => [] | Some key => peer_at (allowed iface) key <$> List_of addresses end.

(** The addresses of an interface that a test does not refuse. *)
Definition insert_addresses (refused : list Z → bool) (iface : HostNetworkInterface) (addresses : gset string) : gset string :=
  foldl (λ s addr, match ParseCIDR addr with
    | None => s
    | Some (ip, _, _, _) => if refused ip then s else {[ip_string ip]} ∪ s
    end) addresses (hi_Addresses iface).

(** *** Members in the cloud *)
Definition cloud_managed (iface : HostNetworkInterface) : bool := bool_decide (hi_Provider iface = prefix +:+ TenantNS).
Definition cloud_addresses (member : list HostNetworkInterface) : gset string :=
  foldl (λ s iface, if cloud_managed iface then s else insert_addresses PrivateIP.isPrivateIP iface s)
    (list_to_set (PublicAddresses d)) member.
Definition cloud_peers (meshCIDRs : list string) (peerCIDRs : gmap string (list string)) (member : list HostNetworkInterface) : list Peer :=
  peers_of (λ iface, meshCIDRs ++ default [] (peerCIDRs !! hi_Provider iface)) (cloud_addresses member)
    (List.filter cloud_managed member).

(** *** Members at the edge *)
Definition edge_managed (iface : HostNetworkInterface) : bool := has_prefix prefix (hi_Provider iface).
Definition edge_refused (ip : list Z) : bool := PrivateIP.IsLoopback ip || PrivateIP.IsLinkLocalUnicast ip.
(** The loop over the interfaces of a member, up to one of this very member: [inl] is the name of the interface then, if it says one. *)
Fixpoint edge_scan (managed : list HostNetworkInterface) (addresses : gset string) (member : list HostNetworkInterface)
    : option string + (list HostNetworkInterface * gset string) :=
  match member with
  | [] => inr (managed, addresses)
  | iface :: member =>
      if bool_decide (hi_Provider iface = Provider d) then
        inl (_ ← hi_Wireguard iface; if bool_decide (hi_Name iface = "") then None else Some (hi_Name iface))
      else edge_scan (if edge_managed iface then managed ++ [iface] else managed) (insert_addresses edge_refused iface addresses) member
  end.
Definition edge_step (acc : string * list Peer) (member : list HostNetworkInterface) : string * list Peer :=
  match edge_scan [] ∅ member with
  | inl name => (default acc.1 name, acc.2)
  | inr (managed, addresses) => (acc.1, acc.2 ++ peers_of (λ _, []) addresses managed)
  end.

Definition default_name (os : string) : string :=
  if bool_decide (os = "openbsd") then "tun" else if bool_decide (os = "darwin") then "utun" else "wg".
Definition GenerateEnsureRequest (os : string) (meshCIDRs : list string) (peerCIDRs : gmap string (list string))
    (cloudMembers edgeMembers : list (list HostNetworkInterface)) : EnsureRequest :=
  let peers := member ← cloudMembers; cloud_peers meshCIDRs peerCIDRs member in
  let '(ifname, peers) := foldl edge_step (default_name os, peers) edgeMembers in
  {| er_Name := if bool_decide (InterfaceName d = "") then ifname else InterfaceName d; er_Mtu := int32 (MTU d);
     er_Addresses := Addresses d; er_Provider := Provider d; er_LogLevel := LogLevel options; er_PrivateKey := PrivateKey options;
     er_Peers := peers; er_ListenPort := ListenPort options; er_Table := RoutingTable options; er_FirewallMark := FirewallMark options |}.
End Driver.

(** *** What the peers are *)
Section Facts.
Context (PublicKey : list Z → list Z) (d : Options) (options : WireguardOpts) (TenantNS : string).
Implicit Types (iface : HostNetworkInterface) (member : list HostNetworkInterface) (s : gset string).

(** An interface has an address, as the text of an IP, that the test does not refuse. *)
Definition has_address (refused : list Z → bool) iface (addr : string) : Prop :=
  ∃ a ip n ones bits, a ∈ hi_Addresses iface ∧ ParseCIDR a = Some (ip, n, ones, bits) ∧ refused ip = false ∧ addr = ip_string ip.

Lemma has_address_cons refused iface a l x : hi_Addresses iface = a :: l →
  has_address refused iface x ↔
    (∃ ip n ones bits, ParseCIDR a = Some (ip, n, ones, bits) ∧ refused ip = false ∧ x = ip_string ip) ∨
    has_address refused {| hi_Provider := hi_Provider iface; hi_Name := hi_Name iface; hi_Addresses := l; hi_Wireguard := hi_Wireguard iface |} x.
Proof.
  intros E. unfold has_address. rewrite E. cbn. split.
  - intros (b & ip & n & o & bi & [->|Hb]%elem_of_cons & Hr); [left; eauto|right; eauto 10].
  - intros [(ip & n & o & bi & Hr)|(b & ip & n & o & bi & Hb & Hr)]; do 5 eexists; (split; [|exact Hr]); rewrite elem_of_cons; auto.
Qed.
Lemma elem_insert_addresses refused iface s x :
  x ∈ insert_addresses refused iface s ↔ x ∈ s ∨ has_address refused iface x.
Proof.
  unfold insert_addresses. destruct iface as [p n l w]. cbn. revert s. induction l as [|a l IH]; intros s; cbn.
  { unfold has_address. cbn. set_solver. }
  rewrite IH. rewrite (has_address_cons refused {| hi_Provider := p; hi_Name := n; hi_Addresses := a :: l; hi_Wireguard := w |} a l) by done. cbn.
  destruct (ParseCIDR a) as [ [[[ip m] o] b]|]; [|split; [tauto|intros [?|[(? & ? & ? & ? & ? & _)|?] ]; [tauto|done|tauto] ] ].
  assert ((∃ ip' n' ones bits, Some (ip, m, o, b) = Some (ip', n', ones, bits) ∧ refused ip' = false ∧ x = ip_string ip') ↔
    refused ip = false ∧ x = ip_string ip) as ->.
  { split; [by intros (? & ? & ? & ? & [= <- <- <- <-] & H)|eauto 8]. }
  destruct (refused ip); [intuition discriminate|]. rewrite elem_of_union, elem_of_singleton. tauto.
Qed.

Lemma elem_filter_b {A} (f : A → bool) (l : list A) x : x ∈ List.filter f l ↔ x ∈ l ∧ f x = true.
Proof. by rewrite !list_elem_of_In, filter_In. Qed.
Lemma elem_List_of s x : x ∈ List_of s ↔ x ∈ s.
Proof. unfold List_of. by rewrite merge_sort_Permutation, elem_of_elements. Qed.

Lemma elem_peers_of allowed s managed p :
  p ∈ peers_of PublicKey options allowed s managed ↔
    ∃ iface key addr, iface ∈ managed ∧ peer_key iface = Some key ∧ addr ∈ s ∧ p = peer_at PublicKey options (allowed iface) key addr.
Proof.
  unfold peers_of. rewrite list_elem_of_bind. split.
  - intros (iface & Hp & Hi). destruct (peer_key iface) as [key|] eqn:E; [|set_solver].
    apply list_elem_of_fmap in Hp as (addr & -> & Ha%elem_List_of). eauto 10.
  - intros (iface & key & addr & Hi & E & Ha & ->). exists iface. rewrite E. split; [|done].
    apply list_elem_of_fmap. exists addr. by rewrite elem_List_of.
Qed.

Lemma elem_cloud_addresses member x :
  x ∈ cloud_addresses d TenantNS member ↔
    x ∈ PublicAddresses d ∨ ∃ iface, iface ∈ member ∧ cloud_managed TenantNS iface = false ∧ has_address PrivateIP.isPrivateIP iface x.
Proof.
  unfold cloud_addresses.
  assert (∀ s, x ∈ foldl (λ s iface, if cloud_managed TenantNS iface then s else insert_addresses PrivateIP.isPrivateIP iface s) s member ↔
    x ∈ s ∨ ∃ iface, iface ∈ member ∧ cloud_managed TenantNS iface = false ∧ has_address PrivateIP.isPrivateIP iface x) as ->.
  { induction member as [|f member IH]; intros s; cbn; [set_solver|]. rewrite IH. setoid_rewrite elem_of_cons.
    destruct (cloud_managed TenantNS f) eqn:E; [naive_solver congruence|]. rewrite elem_insert_addresses. naive_solver. }
  by rewrite elem_of_list_to_set.
Qed.

Lemma edge_scan_own member managed s :
  Exists (λ iface, hi_Provider iface = Provider d) member → ∃ name, edge_scan d managed s member = inl name.
Proof.
  revert managed s. induction member as [|f member IH]; intros managed s H; [by inversion H|]. cbn. case_bool_decide; [eauto|].
  apply Exists_cons in H as [H|H]; [done|]. by apply IH.
Qed.
Lemma edge_scan_other member managed s :
  Forall (λ iface, hi_Provider iface ≠ Provider d) member →
  ∃ s', edge_scan d managed s member = inr (managed ++ List.filter edge_managed member, s') ∧
    ∀ x, x ∈ s' ↔ x ∈ s ∨ ∃ iface, iface ∈ member ∧ has_address edge_refused iface x.
Proof.
  revert managed s. induction member as [|f member IH]; intros managed s H; cbn [edge_scan List.filter].
  { exists s. rewrite app_nil_r. split; [done|]. set_solver. }
  apply Forall_cons in H as [H1 H]. rewrite (bool_decide_false (hi_Provider f = Provider d)) by done.
  destruct (IH (if edge_managed f then managed ++ [f] else managed) (insert_addresses edge_refused f s) H) as (s' & -> & Hs).
  exists s'. split.
  - do 2 f_equal. destruct (edge_managed f); [by rewrite <-(assoc_L (++))|done].
  - intros x. rewrite Hs, elem_insert_addresses. setoid_rewrite elem_of_cons. naive_solver.
Qed.

(** A peer at the edge: another member's, at one of its addresses. *)
Definition edge_peer (edgeMembers : list (list HostNetworkInterface)) (p : Peer) : Prop :=
  ∃ member iface key addr, member ∈ edgeMembers ∧ Forall (λ g, hi_Provider g ≠ Provider d) member ∧
    iface ∈ member ∧ edge_managed iface = true ∧ peer_key iface = Some key ∧
    (∃ g, g ∈ member ∧ has_address edge_refused g addr) ∧ p = peer_at PublicKey options [] key addr.
Lemma edge_peer_cons m l p : edge_peer (m :: l) p ↔ edge_peer [m] p ∨ edge_peer l p.
Proof.
  unfold edge_peer. split.
  - intros (x & iface & k & a & [->|H]%elem_of_cons & Hr); [left|right]; do 4 eexists; (split; [|exact Hr]); set_solver.
  - intros [(x & iface & k & a & H & Hr)|(x & iface & k & a & H & Hr)]; do 4 eexists; (split; [|exact Hr]); set_solver.
Qed.
Lemma elem_edge_step acc member p :
  p ∈ (edge_step PublicKey d options acc member).2 ↔ p ∈ acc.2 ∨ edge_peer [member] p.
Proof.
  unfold edge_step. destruct (decide (Exists (λ g, hi_Provider g = Provider d) member)) as [H|H].
  - destruct (edge_scan_own _ [] ∅ H) as (name & ->). cbn. split; [auto|]. intros [|(m & Hr)]; [done|exfalso].
    destruct Hr as (? & ? & ? & ->%list_elem_of_singleton & Hf & _). apply Exists_exists in H as (g & Hg & E).
    rewrite Forall_forall in Hf. by apply (Hf g).
  - assert (Forall (λ g, hi_Provider g ≠ Provider d) member) as Hf by by apply not_Exists_Forall in H; [|tc_solve].
    destruct (edge_scan_other _ [] ∅ Hf) as (s' & -> & Hs). cbn [app fst snd]. rewrite elem_of_app, elem_peers_of. apply or_iff_compat_l.
    unfold edge_peer. setoid_rewrite elem_filter_b. split.
    + intros (iface & key & addr & [Hi Hm] & Hk & [?|Ha]%Hs & ->); [set_solver|]. exists member, iface, key, addr. set_solver.
    + intros (m & iface & key & addr & ->%list_elem_of_singleton & _ & Hi & Hm & Hk & Ha & ->). exists iface, key, addr.
      rewrite Hs. auto.
Qed.

(** A peer in the cloud: an interface that this tenant manages, at a public address that is configured or that its member has. *)
Definition cloud_peer (meshCIDRs : list string) (peerCIDRs : gmap string (list string)) (cloudMembers : list (list HostNetworkInterface)) (p : Peer) : Prop :=
  ∃ member iface key addr, member ∈ cloudMembers ∧ iface ∈ member ∧ hi_Provider iface = prefix +:+ TenantNS ∧ peer_key iface = Some key ∧
    (addr ∈ PublicAddresses d ∨ ∃ g, g ∈ member ∧ hi_Provider g ≠ prefix +:+ TenantNS ∧ has_address PrivateIP.isPrivateIP g addr) ∧
    p = peer_at PublicKey options (meshCIDRs ++ default [] (peerCIDRs !! hi_Provider iface)) key addr.
Lemma elem_cloud_peers meshCIDRs peerCIDRs cloudMembers p :
  p ∈ (member ← cloudMembers; cloud_peers PublicKey d options TenantNS meshCIDRs peerCIDRs member) ↔ cloud_peer meshCIDRs peerCIDRs cloudMembers p.
Proof.
  rewrite list_elem_of_bind. unfold cloud_peers, cloud_peer. setoid_rewrite elem_peers_of. setoid_rewrite elem_cloud_addresses.
  setoid_rewrite elem_filter_b. unfold cloud_managed. setoid_rewrite bool_decide_eq_true. setoid_rewrite bool_decide_eq_false. split.
  - intros (m & (iface & key & addr & [Hi Hp] & Hk & Ha & ->) & Hm). eauto 12.
  - intros (m & iface & key & addr & Hm & Hi & Hp & Hk & Ha & ->). eauto 12.
Qed.
Lemma elem_edge_steps members acc p :
  p ∈ (foldl (edge_step PublicKey d options) acc members).2 ↔ p ∈ acc.2 ∨ edge_peer members p.
Proof.
  revert acc. induction members as [|m members IH]; intros acc; cbn [foldl].
  - split; [auto|]. intros [?|(? & ? & ? & ? & H & _)]; [done|set_solver].
  - rewrite IH, elem_edge_step, (edge_peer_cons m members). tauto.
Qed.

(** The steps over the members at the edge only add to the peers. *)
Lemma edge_steps_app members name peers :
  foldl (edge_step PublicKey d options) (name, peers) members =
    ((foldl (edge_step PublicKey d options) (name, []) members).1, peers ++ (foldl (edge_step PublicKey d options) (name, []) members).2).
Proof.
  assert (∀ l n p q, foldl (edge_step PublicKey d options) (n, p ++ q) l =
    ((foldl (edge_step PublicKey d options) (n, q) l).1, p ++ (foldl (edge_step PublicKey d options) (n, q) l).2)) as H.
  { induction l as [|m l IH]; intros n p q; [done|]. cbn [foldl]. unfold edge_step at 2 4 6. cbn [fst snd].
    destruct (edge_scan _ _ _ _) as [o|[managed addresses] ]; cbn [fst snd]; [apply IH|]. rewrite <-(assoc_L (++)). apply IH. }
  by rewrite <-(H members name peers []), app_nil_r.
Qed.

(** An interface can be a peer when it is of WireGuard, listens, and has a key of 32 bytes. *)
Lemma peer_key_Some iface pk port :
  peer_key iface = Some (pk, port) ↔
    ∃ md, hi_Wireguard iface = Some md ∧ dw_ListenPort md = port ∧ 0 < port ∧ Base64.DecodeString (dw_PrivateKey md) = Some pk ∧ length pk = KeyLength.
Proof.
  unfold peer_key. destruct (hi_Wireguard iface) as [md|]; cbn [mbind option_bind]; [|naive_solver].
  destruct (Z.leb_spec (dw_ListenPort md) 0); [split; [done|]; intros (? & [= <-] & <- & ? & _); lia|].
  destruct (Base64.DecodeString (dw_PrivateKey md)) as [pk'|] eqn:E; cbn [mbind option_bind];
    [|split; [done|intros (? & [= <-] & _ & _ & ? & _); congruence] ].
  case_bool_decide as Hl; [split; [done|intros (? & [= <-] & _ & _ & ? & ?); congruence]|].
  split; [intros [= <- <-]; eauto 10|]. intros (? & [= <-] & <- & _ & ? & _). congruence.
Qed.

(** The peers at the edge, exactly: an interface of another member that aranya manages, at every address of any interface of that member
    which is neither loopback nor link-local; also at those of the managed interface itself, which the comment takes for unreachable. *)
Lemma edge_peers_spec os meshCIDRs peerCIDRs cloudMembers edgeMembers :
  let r := GenerateEnsureRequest PublicKey d options TenantNS os meshCIDRs peerCIDRs cloudMembers edgeMembers in
  ∃ E, er_Peers r = (member ← cloudMembers; cloud_peers PublicKey d options TenantNS meshCIDRs peerCIDRs member) ++ E ∧
    ∀ p, p ∈ E ↔ edge_peer edgeMembers p.
Proof.
  cbv zeta. set (C := member ← cloudMembers; _). unfold GenerateEnsureRequest. fold C.
  pose proof (edge_steps_app edgeMembers (default_name os) C) as H.
  pose proof (elem_edge_steps edgeMembers (default_name os, [])) as He.
  destruct (foldl _ (default_name os, C) _) as [name peers]. destruct (foldl _ (default_name os, []) _) as [name' E]. cbn [fst snd] in *.
  injection H as -> ->. exists E. split; [done|]. intros p. rewrite He. set_solver.
Qed.

(** C20: the peers in the cloud that a WireGuard configuration names, exactly, and first: the interfaces that this tenant manages, with a key of
    32 bytes and a port, at every configured public address, as it is configured, and at every address of another interface of their member
    that is not private; the mesh and the peer's networks are allowed. What follows are peers at the edge, none without members there: they
    are managed interfaces of other members and route nothing. On IPv4 what is private is given by the first bytes. The interface has its
    configured name when there is one. *)
Theorem wireguard_peers_correct os meshCIDRs peerCIDRs cloudMembers edgeMembers :
  let r := GenerateEnsureRequest PublicKey d options TenantNS os meshCIDRs peerCIDRs cloudMembers edgeMembers in
  (∃ C E, er_Peers r = C ++ E ∧ (∀ p, p ∈ C ↔ cloud_peer meshCIDRs peerCIDRs cloudMembers p) ∧ (edgeMembers = [] → E = []) ∧
     ∀ p, p ∈ E → ∃ member iface key addr, member ∈ edgeMembers ∧ Forall (λ g, hi_Provider g ≠ Provider d) member ∧ iface ∈ member ∧
       edge_managed iface = true ∧ peer_key iface = Some key ∧ p = peer_at PublicKey options [] key addr) ∧
  (∀ iface pk port, peer_key iface = Some (pk, port) ↔
    ∃ md, hi_Wireguard iface = Some md ∧ dw_ListenPort md = port ∧ 0 < port ∧ Base64.DecodeString (dw_PrivateKey md) = Some pk ∧ length pk = KeyLength) ∧
  (∀ a b c e, is_byte a → is_byte b → is_byte c → is_byte e → PrivateIP.isPrivateIP (IPv4 [a; b; c; e]) = PrivateIP.private4 a b c) ∧
  (InterfaceName d ≠ "" → er_Name r = InterfaceName d) ∧ er_Provider r = Provider d ∧ er_Addresses r = Addresses d.
Proof.
  cbv zeta. split_and!.
  - destruct (edge_peers_spec os meshCIDRs peerCIDRs cloudMembers edgeMembers) as (E & -> & HE). eexists _, E. split_and!; [done|apply elem_cloud_peers|..].
    + intros ->. destruct E as [|p E]; [done|]. destruct (proj1 (HE p) ltac:(left)) as (? & ? & ? & ? & H & _). by apply elem_of_nil in H.
    + intros p (member & iface & key & addr & H1 & H2 & H3 & H4 & H5 & _ & ->)%HE. by exists member, iface, key, addr.
  - apply peer_key_Some.
  - apply PrivateIP.isPrivateIP_v4.
  - intros Hn. unfold GenerateEnsureRequest. destruct (foldl _ _ _) as [name peers]. cbn. by rewrite bool_decide_false.
  - unfold GenerateEnsureRequest. by destruct (foldl _ _ _) as [name peers].
  - unfold GenerateEnsureRequest. by destruct (foldl _ _ _) as [name peers].
Qed.
End Facts.
End Wireguard.

(** ** The mesh controller *)
Module MeshController.
Import Ipam.Block Ipam.IPAddressManager.

(** conf.AddressBlock *)
Record AddressBlock := { ab_CIDR : string; ab_Start : string; ab_End : string }.
(** The managers of one family: none without blocks, the first block that is refused makes the error. *)
Fixpoint add_blocks (family : string) (blocks : list AddressBlock) (m : IPAddressManager) : outcome (result IPAddressManager) :=
  match blocks with
  | [] => Ret (Ok m)
  | b :: blocks =>
      '(m, r) ← AddAddressBlock (ab_CIDR b) (ab_Start b) (ab_End b) m;
      match r with
      | Ok _ => add_blocks family blocks m
      | Err e => Ret (Err ("failed to add " +:+ family +:+ " address block " +:+ quote (ab_CIDR b) +:+ ": " +:+ e))
      end
  end.
Definition init_family (family : string) (blocks : list AddressBlock) : outcome (result (option IPAddressManager)) :=
  if bool_decide (blocks = []) then Ret (Ok None)
  else r ← add_blocks family blocks NewIPAddressManager; Ret (match r with Ok m => Ok (Some m) | Err e => Err e end).
(** What init makes of the configuration, before it sets up the watches: nothing when the network is not enabled. *)
Definition init_addresses (enabled : bool) (abbotSvcName netSvcName : string) (IPv4Blocks IPv6Blocks : list AddressBlock)
    : outcome (result (option IPAddressManager * option IPAddressManager)) :=
  if negb enabled then Ret (Ok (None, None))
  else if bool_decide (abbotSvcName = "") then Ret (Err "abbot service name not set")
  else if bool_decide (netSvcName = "") then Ret (Err "network service name not set")
  else
    r4 ← init_family "ipv4" IPv4Blocks;
    match r4 with
    | Err e => Ret (Err e)
    | Ok v4 =>
        r6 ← init_family "ipv6" IPv6Blocks;
        Ret (match r6 with
             | Err e => Err e
             | Ok v6 => if bool_decide (IPv4Blocks = [] ∧ IPv6Blocks = []) then Err "no address block available for mesh network" else Ok (v4, v6)
             end)
    end.

(** The managers are new ones with blocks added: what holds of every manager that can be reached holds of them. *)
Definition blocks_ok (bits : Z) (blocks : list AddressBlock) : Prop :=
  Forall (λ b, op_ok bits (OpAdd (ab_CIDR b) (ab_Start b) (ab_End b))) blocks.
Lemma AddAddressBlock_returns c s e m : m_locked m = false →
  ∃ m' r, AddAddressBlock c s e m = Ret (m', r) ∧ m_locked m' = false ∧
    (is_Ok r = true → length (m_blocks m') = S (length (m_blocks m))).
Proof.
  intros Hm. unfold AddAddressBlock, with_lock. destruct (NewBlock c s e) as [b|err]; [|by exists m; eexists]. rewrite Hm.
  destruct (existsb _ _); [by exists m; eexists|]. do 2 eexists. split; [done|]. split; [done|]. intros _. cbn.
  rewrite merge_sort_Permutation, length_app. cbn. lia.
Qed.
Lemma add_blocks_reaches family bits blocks m :
  reaches bits m [] → m_locked m = false → blocks_ok bits blocks →
  ∃ r, add_blocks family blocks m = Ret r ∧
    ∀ m', r = Ok m' → reaches bits m' [] ∧ m_locked m' = false ∧ length (m_blocks m') = (length (m_blocks m) + length blocks)%nat.
Proof.
  revert m. induction blocks as [|b blocks IH]; intros m Hm Hl Hok; cbn [add_blocks].
  { eexists. split; [done|]. intros m' [= <-]. split_and!; auto. }
  apply Forall_cons in Hok as [Hb Hok].
  destruct (AddAddressBlock_returns (ab_CIDR b) (ab_Start b) (ab_End b) m Hl) as (m1 & r & E & Hl1 & Hn). rewrite E. cbn [mbind outcome_bind].
  assert (reaches bits m1 []) as Hm1.
  { apply (reaches_op bits m [] (OpAdd (ab_CIDR b) (ab_Start b) (ab_End b)) m1 None Hm Hb). cbn. by rewrite E. }
  destruct r as [u|e]; [|by eexists]. destruct (IH m1 Hm1 Hl1 Hok) as (r' & -> & Hr'). exists r'. split; [done|].
  intros m' Hr. destruct (Hr' m' Hr) as (? & ? & Hc). rewrite Hn in Hc by done. cbn [length]. split_and!; [done|done|lia].
Qed.
End MeshController.

Module MeshExamples.
Import EdgeDevice.NetworkOptions Wireguard.

Definition key32 : string := Base64.EncodeToString (replicate 32 7).
Definition options : WireguardOpts :=
  {| LogLevel := ""; PreSharedKey := "psk"; PrivateKey := key32; KeepaliveSeconds := 25; ListenPort := 5000; RoutingTable := 0; FirewallMark := 0 |}.
Definition driver : Options :=
  {| PublicAddresses := ["203.0.113.1"]; InterfaceName := ""; MTU := 1400; Provider := "aranya:mesh:dev1"; ExtraAllowedCIDRs := [];
     Addresses := ["10.99.0.1/32"]; WgOpts := Some options |}.
Definition wg (provider name : string) (addresses : list string) (port : Z) : HostNetworkInterface :=
  {| hi_Provider := provider; hi_Name := name; hi_Addresses := addresses; hi_Wireguard := Some {| dw_ListenPort := port; dw_PrivateKey := key32 |} |}.
Definition eth (addresses : list string) : HostNetworkInterface :=
  {| hi_Provider := ""; hi_Name := "eth0"; hi_Addresses := addresses; hi_Wireguard := None |}.
Definition run (cloud edge : list (list HostNetworkInterface)) : EnsureRequest :=
  GenerateEnsureRequest id driver options "tenant" "linux" ["10.99.0.0/24"] {["aranya:mesh:tenant" := ["10.244.0.0/16"]]} cloud edge.

(** A member in the cloud is reached at the configured address and at its own that is not private. *)
Example in_the_cloud :
  pr_Endpoint <$> er_Peers (run [ [eth ["192.168.1.5/24"; "8.8.4.4/32"; "not an address"]; wg "aranya:mesh:tenant" "wg0" ["10.99.0.2/32"] 7000] ] []) =
    ["203.0.113.1:7000"; "8.8.4.4:7000"].
Proof. vm_compute. reflexivity. Qed.
(** Other members at the edge, and the name that this member's interface has already. *)
Example at_the_edge :
  let r := run [] [ [eth ["192.168.1.7/24"; "127.0.0.1/8"; "fe80::1/64"]; wg "aranya:mesh:dev2" "wg0" [] 7000]; [wg "aranya:mesh:dev1" "wg7" [] 1] ] in
  (pr_Endpoint <$> er_Peers r, er_Name r) = (["192.168.1.7:7000"], "wg7").
Proof. vm_compute. reflexivity. Qed.
(** Contrary to the comment, the addresses inside the mesh of a member at the edge are named as endpoints. *)
Example address_inside_the_mesh :
  pr_Endpoint <$> er_Peers (run [] [ [eth ["192.168.1.7/24"]; wg "aranya:mesh:dev2" "wg0" ["10.99.0.2/32"] 7000] ]) = ["10.99.0.2:7000"; "192.168.1.7:7000"].
Proof. vm_compute. reflexivity. Qed.
(** Blocks of the other family are taken. *)
Example family_not_checked :
  is_Ret (MeshController.init_family "ipv4" [ {| MeshController.ab_CIDR := "fd00::/120"; MeshController.ab_Start := ""; MeshController.ab_End := "" |} ]) = true.
Proof. vm_compute. reflexivity. Qed.
End MeshExamples.
