(* ===== verification/MqClients.v ===== *)
(** * The clients of the message queues

    src/pkg/virtualnode/connectivity/mq_*.go, behind the manager of Connectivity.v (Module Mq). Module Mqtt: the options, and the
    callbacks of the library with the two unbuffered channels on which they answer to Connect and Subscribe, as steps of a machine in which
    any callback may run at any time. Module Amqp: Connect, Subscribe and the routine that connects again. Module AzureIoTHub: the
    connection string, the events of the hub, the state of the device. Module GcpIoTCore: the subscriptions, the state of the device and
    the routines that poll it and receive. The libraries are classes or arguments. *)
From S2P Require Import Prelude GoNet Base64 SeqQueue Session Connectivity.
Open Scope Z_scope.

(** The topics of a namespace: commands are published on the first, messages and the will received on the others *)
Record Topics := { pubTopic : string; subTopic : string; subWillTopic : string }.

(** ** MQTT *)
Module Mqtt.

(** *** The options *)
Record Config := { Version : string; Transport : string; Broker : string; ClientID : string; KeepaliveInterval : Z; TopicNamespace : string }.
Inductive ProtoVersion := V311 | V5.
Inductive Connector := WebSocket | TCP.
Record ClientOptions := {
  o_version : ProtoVersion; o_connector : Connector; o_clean : bool; o_keepalive : Z; o_username : string; o_password : string;
  o_clientID : string; o_tls : bool
}.

(** A duration in nanoseconds; of the seconds, which are a float64, only the integer part is kept. Up to 65535 s the comparisons are exact. *)
Definition keepalive (d : Z) : Z :=
  let s := 10 ^ 9 in
  let d := if (d <=? 0) || (65535 * s <? d) then 60 * s else d in
  let d := if d <? s then s else d in d / s.

Section Options.
Context (NewClient : ClientOptions → option string) (MQTTTopics : string → Topics).
Definition newMQTTClient (config : Config) (username password : string) (tls : bool) : result (ClientOptions * Topics) :=
  version ← (if decide (Version config = "5") then Ok V5
             else if decide (Version config = "3.1.1" ∨ Version config = "") then Ok V311 else Err "unsupported mqtt protocol version");
  connector ← (if decide (Transport config = "websocket") then Ok WebSocket
               else if decide (Transport config = "tcp" ∨ Transport config = "") then Ok TCP else Err "unsupported transport method");
  let opts := {| o_version := version; o_connector := connector; o_clean := false; o_keepalive := keepalive (KeepaliveInterval config);
                 o_username := username; o_password := password; o_clientID := ClientID config; o_tls := tls |} in
  match NewClient opts with Some e => Err e | None => Ok (opts, MQTTTopics (TopicNamespace config)) end.

Lemma keepalive_bounds d : 1 <= keepalive d <= 65535.
Proof.
  unfold keepalive. change (10 ^ 9) with 1000000000. destruct ((d <=? 0) || _) eqn:E; [vm_compute; split; discriminate|].
  bool_to_Z. destruct (d <? 1000000000) eqn:E1; bool_to_Z; [vm_compute; split; discriminate|]. Z.to_euclidean_division_equations. lia.
Qed.
End Options.

(** *** The machine

    A goroutine that sends on one of the channels waits for a receiver: [blocked] are the sends that wait. After the error of a connection
    the sender closes connErrCh, and after one of the first subscription subErrCh. *)
Inductive Blocked := OnConnErr (e : string) | OnSubErr (e : option string) | OnSubErrClose (e : string).
#[export] Instance Blocked_eq_dec : EqDecision Blocked.
Proof. solve_decision. Defined.
(** Where NewMessageQueueManager is *)
Inductive Main := Connecting | Connected | Subscribing | Started | Failed (e : string).
#[export] Instance Main_eq_dec : EqDecision Main.
Proof. solve_decision. Defined.
Record mqttClient := {
  subscribing : bool; started : bool; closed : bool; stopped : bool; connErrClosed : bool; subErrClosed : bool;
  blocked : list Blocked; main : Main;
  resub : bool;          (** a handler of a connection made again waits for the answer to its subscription *)
  sleeping : nat         (** such handlers that wait to subscribe once more *)
}.
Definition new_client : mqttClient :=
  {| subscribing := false; started := false; closed := false; stopped := false; connErrClosed := false; subErrClosed := false; blocked := [];
     main := Connecting; resub := false; sleeping := 0 |}.

Definition set_flags (s : bool) (st : bool) (cl : bool) (c : mqttClient) : mqttClient :=
  {| subscribing := s; started := st; closed := cl; stopped := stopped c; connErrClosed := connErrClosed c; subErrClosed := subErrClosed c;
     blocked := blocked c; main := main c; resub := resub c; sleeping := sleeping c |}.
Definition set_blocked (b : list Blocked) (c : mqttClient) : mqttClient :=
  {| subscribing := subscribing c; started := started c; closed := closed c; stopped := stopped c; connErrClosed := connErrClosed c;
     subErrClosed := subErrClosed c; blocked := b; main := main c; resub := resub c; sleeping := sleeping c |}.
Definition set_main (m : Main) (c : mqttClient) : mqttClient :=
  {| subscribing := subscribing c; started := started c; closed := closed c; stopped := stopped c; connErrClosed := connErrClosed c;
     subErrClosed := subErrClosed c; blocked := blocked c; main := m; resub := resub c; sleeping := sleeping c |}.
Definition set_resub (r : bool) (n : nat) (c : mqttClient) : mqttClient :=
  {| subscribing := subscribing c; started := started c; closed := closed c; stopped := stopped c; connErrClosed := connErrClosed c;
     subErrClosed := subErrClosed c; blocked := blocked c; main := main c; resub := r; sleeping := n |}.
Definition set_chans (conn sub : bool) (c : mqttClient) : mqttClient :=
  {| subscribing := subscribing c; started := started c; closed := closed c; stopped := stopped c; connErrClosed := conn;
     subErrClosed := sub; blocked := blocked c; main := main c; resub := resub c; sleeping := sleeping c |}.
Definition stop (c : mqttClient) : mqttClient :=
  {| subscribing := subscribing c; started := started c; closed := closed c; stopped := true; connErrClosed := connErrClosed c;
     subErrClosed := subErrClosed c; blocked := blocked c; main := main c; resub := resub c; sleeping := sleeping c |}.

Definition on_conn (b : Blocked) : bool := match b with OnConnErr _ => true | _ => false end.
(** Closing a channel makes the sends that wait on it panic. *)
Definition close_connErrCh (c : mqttClient) : outcome mqttClient :=
  if connErrClosed c then Panic "close of closed channel"
  else if existsb on_conn (blocked c) then Panic "send on closed channel" else Ret (set_chans true (subErrClosed c) c).
Definition close_subErrCh (c : mqttClient) : outcome mqttClient :=
  if subErrClosed c then Panic "close of closed channel"
  else if existsb (λ b, negb (on_conn b)) (blocked c) then Panic "send on closed channel" else Ret (set_chans (connErrClosed c) true c).
(** A send; once the manager has stopped the select may leave without it. *)
Definition send (b : Blocked) (c : mqttClient) : outcome mqttClient :=
  if if on_conn b then connErrClosed c else subErrClosed c then Panic "send on closed channel"
  else if stopped c then Ret c else Ret (set_blocked (blocked c ++ [b]) c).

(** Subscribe, until it waits for the answer *)
Definition errAlreadySubscribing : string := "already subscribing".
Definition subscribe (c : mqttClient) : mqttClient * option string :=
  if closed c then (c, Some ErrManagerClosed)
  else if subscribing c then (c, Some errAlreadySubscribing)
  else (set_flags true (started c) (closed c) c, None).
(** Its deferred function *)
Definition subscribed (c : mqttClient) : mqttClient := set_flags false true (closed c) c.

(** A connection made again: subscribe, unless another does. *)
Definition resubscribe (c : mqttClient) : mqttClient :=
  match subscribe c with (c, Some _) => c | (c, None) => set_resub true (sleeping c) c end.
Definition handleConn (code : Z) (err : option string) (c : mqttClient) : outcome mqttClient :=
  if closed c then Ret c else
  match err with
  | Some e => if started c then Ret c else send (OnConnErr e) (set_flags (subscribing c) true (closed c) c)
  | None =>
      if negb (code =? 0) then
        if started c then Ret c
        else send (OnConnErr ("rejected by mqtt broker, code: " +:+ pretty code)) (set_flags (subscribing c) true (closed c) c)
      else if started c then Ret (resubscribe c) else close_connErrCh c
  end.
Definition handleNet (err : option string) (c : mqttClient) : outcome mqttClient :=
  if closed c then Ret c else
  match err with
  | None => Ret c
  | Some e =>
      if subscribing c && negb (started c) then send (OnSubErrClose e) c
      else if started c then Ret c else send (OnConnErr e) (set_flags (subscribing c) true (closed c) c)
  end.
Definition handleSub (err : option string) (c : mqttClient) : outcome mqttClient := send (OnSubErr err) c.

(** NewMessageQueueManager disconnects the client that fails. *)
Definition fail (e : string) (c : mqttClient) : mqttClient := set_main (Failed e) (set_flags (subscribing c) (started c) true c).
(** The end of Connect *)
Definition main_connect (c : mqttClient) : outcome mqttClient :=
  if decide (main c = Connecting) then
    if connErrClosed c then Ret (set_main Connected c)
    else match list_find (λ b, on_conn b = true) (blocked c) with
         | Some (i, OnConnErr e) => close_connErrCh (fail e (set_blocked (delete i (blocked c)) c))
         | _ => Ret (if stopped c then fail "context canceled" c else c)
         end
  else Ret c.
Definition main_subscribe (c : mqttClient) : mqttClient :=
  if decide (main c = Connected) then
    match subscribe c with (c, Some e) => fail e c | (c, None) => set_main Subscribing c end
  else c.
(** An answer is received on subErrCh, by Subscribe in the start or in a handler; the zero value once the channel is closed. *)
Definition answered (err : option string) (c : mqttClient) : mqttClient :=
  let c := subscribed c in
  if decide (main c = Subscribing) then match err with Some e => fail ("failed to subscribe topics: " +:+ e) c | None => set_main Started c end
  else set_resub false (match err with Some _ => S (sleeping c) | None => sleeping c end) c.
(** The manager has stopped: the start fails, a handler returns. *)
Definition canceled (c : mqttClient) : mqttClient :=
  let c := subscribed c in
  if decide (main c = Subscribing) then fail "context canceled" c else set_resub false (sleeping c) c.
Definition receive_sub (c : mqttClient) : outcome mqttClient :=
  if bool_decide (main c = Subscribing) || resub c then
    match list_find (λ b, on_conn b = false) (blocked c) with
    | Some (i, OnSubErr err) => Ret (answered err (set_blocked (delete i (blocked c)) c))
    | Some (i, OnSubErrClose e) => close_subErrCh (answered (Some e) (set_blocked (delete i (blocked c)) c))
    | _ => Ret (if subErrClosed c then answered None c else if stopped c then canceled c else c)
    end
  else Ret c.
(** A handler has slept. *)
Definition wake (c : mqttClient) : mqttClient :=
  match sleeping c with O => c | S n => resubscribe (set_resub (resub c) n c) end.

Inductive Event := EConn (code : Z) (err : option string) | ENet (err : option string) | ESub (err : option string)
  | EConnected | ESubscribe | EAnswer | EWake | EStop | EDisconnect.
Definition event (e : Event) (c : mqttClient) : outcome mqttClient :=
  match e with
  | EConn code err => handleConn code err c
  | ENet err => handleNet err c
  | ESub err => handleSub err c
  | EConnected => main_connect c
  | ESubscribe => Ret (main_subscribe c)
  | EAnswer => receive_sub c
  | EWake => Ret (wake c)
  | EStop => Ret (stop c)
  | EDisconnect => Ret (set_flags (subscribing c) (started c) true c)
  end.
Fixpoint run (es : list Event) (c : mqttClient) : outcome mqttClient :=
  match es with [] => Ret c | e :: es => c ← event e c; run es c end.

(** *** What holds in every state *)
Lemma run_app es1 es2 c : run (es1 ++ es2) c = c ← run es1 c; run es2 c.
Proof. revert c. induction es1 as [|e es1 IH]; intros c; cbn; [done|]. destruct (event e c); cbn; [apply IH|done..]. Qed.

Record inv (c : mqttClient) : Prop := {
  inv_connected : main c ∈ [Connected; Subscribing; Started] → connErrClosed c = true;
  inv_blocked : connErrClosed c = true → existsb on_conn (blocked c) = false;
  inv_started : main c = Started → started c = true;
  inv_subscribing : subscribing c = bool_decide (main c = Subscribing) || resub c;
  inv_one : main c = Subscribing → resub c = false
}.
(** The network has not failed the first subscription. *)
Definition quiet (c : mqttClient) : Prop := subErrClosed c = false ∧ ∀ e, OnSubErrClose e ∉ blocked c.

Lemma existsb_delete {A} (f : A → bool) i (l : list A) : existsb f l = false → existsb f (delete i l) = false.
Proof.
  intros H. destruct (existsb f (delete i l)) eqn:E; [|done]. apply existsb_exists in E as (x & Hx & Hf). exfalso.
  assert (existsb f l = true) as E; [|congruence]. apply existsb_exists. exists x. split; [|done]. apply list_elem_of_In in Hx. apply list_elem_of_In.
  eapply elem_of_submseteq; [exact Hx|]. apply sublist_submseteq, sublist_delete.
Qed.
Lemma elem_of_delete {A} i (l : list A) x : x ∈ delete i l → x ∈ l.
Proof. intros Hx. eapply elem_of_submseteq; [exact Hx|]. apply sublist_submseteq, sublist_delete. Qed.

(** What an event keeps: the invariant, silence and a start that is over. *)
Definition keeps (c c' : mqttClient) : Prop :=
  inv c' ∧ (quiet c → quiet c') ∧ (main c = Started → main c' = Started).
Lemma keeps_refl c : inv c → keeps c c.
Proof. intros Hc. split; [done|]. by split. Qed.
Lemma keeps_chain c1 c2 c3 : keeps c1 c2 → keeps c2 c3 → keeps c1 c3.
Proof. intros (_ & A2 & A3) (B1 & B2 & B3). split; [done|]. split; auto. Qed.
Lemma flags_keep st cl c : inv c → (main c = Started → st = true) → keeps c (set_flags (subscribing c) st cl c).
Proof. intros Hc Hst. split; [constructor; cbn; try apply Hc; done|]. by split. Qed.
Lemma stop_keeps c : inv c → keeps c (stop c).
Proof. intros Hc. split; [constructor; cbn; apply Hc|]. by split. Qed.
Lemma fail_keeps e c : inv c → (main c = Subscribing → subscribing c = false) → main c ≠ Started → keeps c (fail e c).
Proof.
  intros Hc Hs Hm. split; [|by split]. constructor; cbn; try done; [|apply Hc|].
  - intros H. exfalso. revert H. by apply (bool_decide_eq_false (Failed e ∈ [Connected; Subscribing; Started])).
  - destruct (decide (main c = Subscribing)) as [E|E]; [by rewrite (Hs E), (inv_one c Hc E)|].
    by rewrite (inv_subscribing c Hc), (bool_decide_false (main c = Subscribing)) by done.
Qed.
Lemma delete_keeps i c : inv c → keeps c (set_blocked (delete i (blocked c)) c).
Proof.
  intros Hc. split; [constructor; cbn; try apply Hc|split; [|done] ].
  - intros H. apply existsb_delete, (inv_blocked c Hc H).
  - intros [H1 H2]. split; [done|]. intros e He%elem_of_delete. by apply (H2 e).
Qed.
Lemma sent_keeps b c c' : inv c → (∀ e, b ≠ OnSubErrClose e) → send b c = Ret c' → keeps c c'.
Proof.
  intros Hc Hb. unfold send. destruct (if on_conn b then connErrClosed c else subErrClosed c) eqn:E; [done|].
  destruct (stopped c); intros [= <-]; [by apply keeps_refl|]. split; [constructor; cbn; try apply Hc|split; [|done] ].
  - intros H. rewrite existsb_app, (inv_blocked c Hc H). cbn. destruct (on_conn b); [congruence|done].
  - intros [H1 H2]. split; [done|]. cbn. intros e [He|He%list_elem_of_singleton]%elem_of_app; [by apply (H2 e)|by apply (Hb e)].
Qed.
Lemma close_conn_keeps c c' : inv c → close_connErrCh c = Ret c' → keeps c c'.
Proof.
  intros Hc. unfold close_connErrCh. destruct (connErrClosed c); [done|]. destruct (existsb on_conn (blocked c)) eqn:E; [done|]. intros [= <-].
  split; [constructor; cbn; try apply Hc; done|]. by split.
Qed.
Lemma resubscribe_keeps c : inv c → main c ≠ Subscribing → keeps c (resubscribe c).
Proof.
  intros Hc Hm. unfold resubscribe, subscribe. destruct (closed c); [by apply keeps_refl|]. destruct (subscribing c) eqn:Es; [by apply keeps_refl|].
  split; [constructor; cbn; try apply Hc; try done|by split].
  by rewrite (bool_decide_false (main c = Subscribing)) by done.
Qed.
(** The two ends of a subscription *)
Lemma first_fails e c : inv c → main c = Subscribing → keeps c (fail e (subscribed c)).
Proof.
  intros Hc Hm. split; [|by split; [|cbn in *; congruence] ]. constructor; cbn; [|apply Hc|done|by rewrite (inv_one c Hc Hm)|done].
  intros H. exfalso. revert H. by apply (bool_decide_eq_false (Failed _ ∈ [Connected; Subscribing; Started])).
Qed.
Lemma handler_ends n c : inv c → main c ≠ Subscribing → keeps c (set_resub false n (subscribed c)).
Proof. intros Hc Hm. split; [|by split]. constructor; cbn; [apply Hc|apply Hc|done|by rewrite bool_decide_false|done]. Qed.
Lemma answered_keeps err c : inv c → keeps c (answered err c).
Proof.
  intros Hc. unfold answered. change (main (subscribed c)) with (main c). destruct (decide (main c = Subscribing)) as [Hm|Hm]; [|by apply handler_ends].
  destruct err; [by apply first_fails|]. split; [|by split].
  constructor; cbn; [intros _; apply (inv_connected c Hc); rewrite Hm; repeat constructor|apply Hc|done|by rewrite (inv_one c Hc Hm)|done].
Qed.
Lemma canceled_keeps c : inv c → keeps c (canceled c).
Proof.
  intros Hc. unfold canceled. change (main (subscribed c)) with (main c).
  destruct (decide (main c = Subscribing)) as [Hm|Hm]; [by apply first_fails|by apply handler_ends].
Qed.
Lemma receive_keeps c c' : inv c → receive_sub c = Ret c' → inv c' ∧ (main c = Started → main c' = Started) ∧ (quiet c → quiet c').
Proof.
  intros Hc. unfold receive_sub. destruct (bool_decide (main c = Subscribing) || resub c); [|by intros [= <-] ].
  destruct (list_find _ (blocked c)) as [ [i [e|e|e] ]|] eqn:E.
  - apply list_find_Some in E as (_ & H & _). done.
  - intros [= <-]. pose proof (delete_keeps i c Hc) as Hd. pose proof (answered_keeps e _ (proj1 Hd)) as Ha.
    destruct (keeps_chain _ _ _ Hd Ha) as (H1 & H2 & H3). by split_and!.
  - intros H. pose proof (delete_keeps i c Hc) as Hd. pose proof (answered_keeps (Some e) _ (proj1 Hd)) as Ha.
    destruct (keeps_chain _ _ _ Hd Ha) as (H1 & H2 & H3). unfold close_subErrCh in H. destruct (subErrClosed _); [done|].
    destruct (existsb _ _); [done|]. injection H as <-. split; [constructor; cbn; apply H1|]. split; [exact H3|].
    intros [_ Hq]. apply list_find_Some in E as (E & _ & _). apply list_elem_of_lookup_2 in E. by destruct (Hq e).
  - destruct (subErrClosed c), (stopped c); intros [= <-]; try by split_and!.
    + destruct (answered_keeps None c Hc) as (? & ? & ?). by split_and!.
    + destruct (answered_keeps None c Hc) as (? & ? & ?). by split_and!.
    + destruct (canceled_keeps c Hc) as (? & ? & ?). by split_and!.
Qed.
Lemma flags_send b s cl c c' :
  inv c → (∀ e, b ≠ OnSubErrClose e) → subscribing c = s → closed c = cl → send b (set_flags s true cl c) = Ret c' → keeps c c'.
Proof.
  intros Hc Hb <- <- H. pose proof (flags_keep true (closed c) c Hc ltac:(done)) as Hk. eapply keeps_chain; [exact Hk|].
  eapply sent_keeps; [apply Hk|exact Hb|exact H].
Qed.
Lemma main_connect_keeps c c' : inv c → main_connect c = Ret c' → keeps c c'.
Proof.
  intros Hc. unfold main_connect. destruct (decide (main c = Connecting)) as [Hm|]; [|intros [= <-]; by apply keeps_refl].
  destruct (connErrClosed c) eqn:E.
  - intros [= <-]. split; [|split; [done|congruence] ]. constructor; cbn; [done|apply Hc|done| |done].
    by rewrite (inv_subscribing c Hc), Hm.
  - destruct (list_find _ _) as [ [i [e|e|e] ]|].
    + intros H. pose proof (delete_keeps i c Hc) as Hd. set (c1 := set_blocked _ c) in *.
      pose proof (fail_keeps e c1 (proj1 Hd)) as Hf. cbn in Hf. rewrite Hm in Hf. specialize (Hf ltac:(done) ltac:(done)).
      pose proof (keeps_chain _ _ _ Hd Hf) as Hk. eapply keeps_chain; [exact Hk|]. apply close_conn_keeps; [apply Hk|done].
    + destruct (stopped c); intros [= <-]; [apply fail_keeps; congruence|by apply keeps_refl].
    + destruct (stopped c); intros [= <-]; [apply fail_keeps; congruence|by apply keeps_refl].
    + destruct (stopped c); intros [= <-]; [apply fail_keeps; congruence|by apply keeps_refl].
Qed.
Lemma main_subscribe_keeps c : inv c → keeps c (main_subscribe c).
Proof.
  intros Hc. unfold main_subscribe. destruct (decide (main c = Connected)) as [Hm|]; [|by apply keeps_refl]. unfold subscribe.
  destruct (closed c); [by apply fail_keeps; congruence|]. destruct (subscribing c) eqn:Es; [by apply fail_keeps; congruence|].
  pose proof (inv_subscribing c Hc) as H. rewrite Es in H. symmetry in H. apply orb_false_iff in H as [_ H].
  split; [|by split; [|congruence] ]. constructor; cbn; [intros _; apply (inv_connected c Hc); rewrite Hm; repeat constructor|apply Hc|done|done|done].
Qed.
Lemma wake_keeps c : inv c → main c ≠ Subscribing → keeps c (wake c).
Proof.
  intros Hc Hm. unfold wake. destruct (sleeping c) as [|n]; [by apply keeps_refl|].
  assert (keeps c (set_resub (resub c) n c)) as Hk by (split; [constructor; cbn; apply Hc|by split]).
  eapply keeps_chain; [exact Hk|]. apply resubscribe_keeps; [apply Hk|done].
Qed.

(** An error of the network in the first subscription *)
Definition disturbs (e : Event) (c : mqttClient) : Prop := started c = false ∧ ∃ err, e = ENet (Some err).
Lemma event_keeps e c c' :
  inv c → event e c = Ret c' → inv c' ∧ (main c = Started → main c' = Started) ∧ (quiet c → ¬ disturbs e c → quiet c').
Proof.
  intros Hc He. assert (keeps c c' → inv c' ∧ (main c = Started → main c' = Started) ∧ (quiet c → ¬ disturbs e c → quiet c')) as Hk.
  { intros (H1 & H2 & H3). split_and!; auto. }
  destruct e as [code err|err|err| | | | | |]; cbn [event] in He.
  - apply Hk. unfold handleConn in He. destruct (closed c) eqn:Ecl; [injection He as <-; by apply keeps_refl|]. destruct err as [e|].
    + destruct (started c); [injection He as <-; by apply keeps_refl|by refine (flags_send _ _ _ _ _ Hc _ _ _ He)].
    + destruct (negb (code =? 0)).
      * destruct (started c); [injection He as <-; by apply keeps_refl|by refine (flags_send _ _ _ _ _ Hc _ _ _ He)].
      * destruct (started c) eqn:Est; [injection He as <-|by apply close_conn_keeps].
        destruct (decide (main c = Subscribing)) as [Hm|Hm]; [|by apply resubscribe_keeps].
        unfold resubscribe, subscribe. rewrite Ecl. rewrite (inv_subscribing c Hc), (bool_decide_true (main c = Subscribing)) by done. by apply keeps_refl.
  - unfold handleNet in He. destruct (closed c) eqn:Ecl; [apply Hk; injection He as <-; by apply keeps_refl|].
    destruct err as [e|]; [|apply Hk; injection He as <-; by apply keeps_refl].
    destruct (started c) eqn:Est; [rewrite andb_false_r in He; apply Hk; injection He as <-; by apply keeps_refl|].
    destruct (subscribing c) eqn:Es; cbn [andb negb] in He; [|apply Hk; by refine (flags_send _ _ _ _ _ Hc _ _ _ He)].
    unfold send in He. cbn [on_conn] in He. destruct (subErrClosed c); [done|].
    assert (¬ (quiet c ∧ ¬ disturbs (ENet (Some e)) c)) as Hn by (intros [_ Hd]; apply Hd; split; [done|by exists e]).
    destruct (stopped c); injection He as <-; [apply Hk; by apply keeps_refl|].
    split; [|split; [done|by intros; exfalso; apply Hn] ]. constructor; cbn; try apply Hc.
    intros H. by rewrite existsb_app, (inv_blocked c Hc H).
  - apply Hk. by refine (sent_keeps _ _ _ Hc _ He).
  - apply Hk. by apply main_connect_keeps.
  - apply Hk. injection He as <-. by apply main_subscribe_keeps.
  - destruct (receive_keeps c c' Hc He) as (H1 & H2 & H3). split_and!; auto.
  - apply Hk. injection He as <-. destruct (decide (main c = Subscribing)) as [Hm|Hm]; [|by apply wake_keeps].
    unfold wake. destruct (sleeping c) as [|n]; [by apply keeps_refl|]. unfold resubscribe, subscribe. cbn [closed set_resub subscribing].
    assert (keeps c (set_resub (resub c) n c)) as Hr by (split; [constructor; cbn; apply Hc|by split]).
    destruct (closed c); [done|]. rewrite (inv_subscribing c Hc), (bool_decide_true (main c = Subscribing)) by done. done.
  - apply Hk. injection He as <-. by apply stop_keeps.
  - apply Hk. injection He as <-. apply flags_keep; [done|apply Hc].
Qed.
Lemma new_client_inv : inv new_client.
Proof.
  constructor; try done. intros H. exfalso. revert H. by apply (bool_decide_eq_false (Connecting ∈ [Connected; Subscribing; Started])).
Qed.
Lemma run_keeps es c c' :
  inv c → run es c = Ret c' → inv c' ∧ (main c = Started → main c' = Started) ∧ (quiet c → (∀ e, ENet (Some e) ∉ es) → quiet c').
Proof.
  revert c. induction es as [|e es IH]; intros c Hc; cbn [run]; [by intros [= <-]|]. destruct (event e c) as [c1| |] eqn:E; cbn [mbind outcome_bind]; [|done..].
  intros H. destruct (event_keeps e c c1 Hc E) as (H1 & H2 & H3). destruct (IH c1 H1 H) as (I1 & I2 & I3). split; [done|]. split; [auto|].
  intros Hq He. apply I3; [apply H3; [done|]|].
  - intros (_ & err & ->). by apply (He err); left.
  - intros e' Hin. by apply (He e'); right.
Qed.
(** Once started nothing panics: no send waits that would close a channel, and none is made. *)
Lemma started_returns e c : inv c → quiet c → main c = Started → ∃ c', event e c = Ret c' ∧ quiet c'.
Proof.
  intros Hc Hq Hm. pose proof (inv_started c Hc Hm) as Hst. assert (∃ c', event e c = Ret c') as [c' He].
  { destruct e as [code err|err|err| | | | | |]; cbn [event]; try by eexists.
    - unfold handleConn. rewrite Hst. destruct (closed c), err, (negb (code =? 0)); by eexists.
    - unfold handleNet. rewrite Hst, andb_false_r. destruct (closed c), err; by eexists.
    - unfold handleSub, send. cbn [on_conn]. rewrite (proj1 Hq). destruct (stopped c); by eexists.
    - unfold main_connect. rewrite Hm. by eexists.
    - unfold receive_sub. destruct (_ || _); [|by eexists]. destruct (list_find _ (blocked c)) as [ [i [e|e|e] ]|] eqn:E; try by eexists.
      apply list_find_Some in E as (E & _ & _). apply list_elem_of_lookup_2 in E. by destruct (proj2 Hq e). }
  exists c'. split; [done|]. destruct (event_keeps e c c' Hc He) as (_ & _ & H3). apply H3; [done|]. intros [H _]. congruence.
Qed.
Lemma started_runs es c : inv c → quiet c → main c = Started → ∃ c', run es c = Ret c' ∧ quiet c'.
Proof.
  revert c. induction es as [|e es IH]; intros c Hc Hq Hm; [by exists c|]. destruct (started_returns e c Hc Hq Hm) as (c1 & E & Hq1).
  destruct (event_keeps e c c1 Hc E) as (H1 & H2 & _). destruct (IH c1 H1 Hq1 (H2 Hm)) as (c' & Hr & Hq'). exists c'. cbn [run]. by rewrite E.
Qed.

(** The answer to a handler *)
Lemma answer_ends err c c1 c2 :
  quiet c1 → main c1 = Started → run [ESub err] c = Ret c1 → receive_sub c1 = Ret c2 →
  resub c2 = false ∧
  (resub c = true → stopped c = false → existsb (λ b, negb (on_conn b)) (blocked c) = false →
   sleeping c2 = match err with Some _ => S (sleeping c) | None => sleeping c end).
Proof.
  intros [Hq1 Hq2] Hm E1. cbn [run event] in E1. unfold handleSub, send in E1. cbn [on_conn] in E1. destruct (subErrClosed c) eqn:Ec; [done|].
  unfold receive_sub. rewrite (bool_decide_false (main c1 = Subscribing)) by congruence. cbn [orb].
  destruct (resub c1) eqn:Er; [|intros [= <-]; split; [done|]; destruct (stopped c); cbn in E1; simplify_eq; cbn in *; congruence].
  assert (∀ e d, main d = Started → resub (answered e d) = false ∧ sleeping (answered e d) = match e with Some _ => S (sleeping d) | None => sleeping d end)
    as Ha by (intros e0 d0 H0; unfold answered; cbn; by rewrite H0).
  destruct (list_find _ (blocked c1)) as [ [i [e|e|e] ]|] eqn:E.
  - apply list_find_Some in E as (_ & H & _). done.
  - intros [= <-]. destruct (Ha e (set_blocked (delete i (blocked c1)) c1) Hm) as [H1 H2]. split; [done|]. intros Hr Hst Hb. rewrite H2.
    rewrite Hst in E1. cbn in E1. injection E1 as <-. cbn in E |- *. apply list_find_app_Some in E as [E|(_ & E & Hn)].
    + apply list_find_Some in E as (E & H & _). apply list_elem_of_lookup_2, list_elem_of_In in E.
      assert (existsb (λ b, negb (on_conn b)) (blocked c) = true) as Hx by (apply existsb_exists; by eexists). congruence.
    + cbn in E. by simplify_eq/=.
  - apply list_find_Some in E as (E & _ & _). apply list_elem_of_lookup_2 in E. by destruct (Hq2 e).
  - rewrite Hq1. destruct (stopped c) eqn:Est; cbn in E1; injection E1 as <-.
    + rewrite Est. intros [= <-]. unfold canceled. cbn. rewrite Hm. split; [done|]. intros _ [=].
    + exfalso. cbn in E. apply list_find_None in E. rewrite Forall_forall in E. specialize (E (OnSubErr err)). cbn in E. apply E; [|done].
      apply elem_of_app. right. left.
Qed.

(** C10: an MQTT client that has started goes on, whatever its connection does. When it has started and no error of the network came before
    that, then in any order of connections, refusals, network errors, answers and stops no callback panics. When a connection is made again and
    the client is not closed, its handler subscribes and waits for the answer, unless one waits already; an answer always ends that wait,
    and after an answer with an error the handler sleeps, to subscribe once more. *)
Theorem started_client_survives evs0 evs c :
  run evs0 new_client = Ret c → (∀ e, ENet (Some e) ∉ evs0) → main c = Started →
  ∃ c', run evs c = Ret c' ∧ main c' = Started ∧
    (closed c' = false →
       (resub c' = false → (subscribe c').2 = None ∧ handleConn 0 None c' = Ret (set_resub true (sleeping c') (subscribe c').1)) ∧
       (resub c' = true → handleConn 0 None c' = Ret c') ∧
       (sleeping c' ≠ O → resub (wake c') = true ∧ S (sleeping (wake c')) = sleeping c')) ∧
    (∀ err, ∃ c'', run [ESub err; EAnswer] c' = Ret c'' ∧ resub c'' = false ∧
       (resub c' = true → stopped c' = false → existsb (λ b, negb (on_conn b)) (blocked c') = false →
        sleeping c'' = match err with Some _ => S (sleeping c') | None => sleeping c' end)).
Proof.
  intros Hr He Hm. destruct (run_keeps evs0 new_client c new_client_inv Hr) as (Hc & _ & Hq).
  specialize (Hq ltac:(by split; [|intros ? ?%elem_of_nil]) He). destruct (started_runs evs c Hc Hq Hm) as (c' & Hr' & Hq').
  destruct (run_keeps evs c c' Hc Hr') as (Hc' & Hm' & _). specialize (Hm' Hm). exists c'. split; [done|]. split; [done|].
  pose proof (inv_subscribing c' Hc') as Hs. rewrite Hm' in Hs. change (bool_decide (Started = Subscribing)) with false in Hs. cbn in Hs. split.
  - intros Hcl. unfold handleConn, wake, resubscribe, subscribe. rewrite Hcl, (inv_started c' Hc' Hm'), Hs.
    change (negb (0 =? 0)) with false. split_and!; [by intros ->..|].
    intros Hn. destruct (sleeping c') as [|n]; [done|]. cbn. rewrite Hcl, Hs. by destruct (resub c') eqn:E; cbn; rewrite ?E.
  - intros err. destruct (started_runs [ESub err] c' Hc' Hq' Hm') as (c1 & E1 & Hq1).
    destruct (run_keeps [ESub err] c' c1 Hc' E1) as (Hc1 & Hm1 & _). specialize (Hm1 Hm').
    change [ESub err; EAnswer] with ([ESub err] ++ [EAnswer]). rewrite run_app, E1. cbn [mbind outcome_bind run event].
    destruct (receive_sub c1) as [c2| |] eqn:E2; cbn [mbind outcome_bind];
      [|destruct (started_returns EAnswer c1 Hc1 Hq1 Hm1) as (? & H & _); cbn [event] in H; congruence..].
    exists c2. split; [done|]. by apply (answer_ends err c' c1 c2).
Qed.

(** The start that goes well, and what the network can do to it: a connection lost, or made again, before the first subscription has been
    answered makes a callback panic, at once or when it is subscribed again much later. *)
Definition connect : list Event := [EConn 0 None; EConnected].
Definition started_events : list Event := connect ++ [ESubscribe; ESub None; EAnswer].
Definition client0 : mqttClient := match run started_events new_client with Ret c => c | _ => new_client end.
Example starts : main client0 = Started ∧ run started_events new_client = Ret client0.
Proof. by vm_compute. Qed.
Example lost_before_subscribed : run (connect ++ [ENet (Some "lost")]) new_client = Panic "send on closed channel".
Proof. by vm_compute. Qed.
Example connected_again_before_subscribed : run (connect ++ [ESubscribe; EConn 0 None]) new_client = Panic "close of closed channel".
Proof. by vm_compute. Qed.
Example lost_while_subscribed :
  main <$> (match run (connect ++ [ESubscribe; ESub None; ENet (Some "lost"); EAnswer]) new_client with Ret c => Some c | _ => None end) = Some Started ∧
  run (connect ++ [ESubscribe; ESub None; ENet (Some "lost"); EAnswer; EConn 0 None; EAnswer; ESub None]) new_client = Panic "send on closed channel".
Proof. by vm_compute. Qed.
Lemma started_client_survives_witness :
  ∃ c', run [ENet (Some "lost"); EConn 2 None; EConn 0 None; EConn 0 None] client0 = Ret c' ∧ main c' = Started.
Proof.
  destruct (started_client_survives started_events [ENet (Some "lost"); EConn 2 None; EConn 0 None; EConn 0 None] client0) as (c' & H1 & H2 & _);
    [by vm_compute| |by vm_compute|exists c'; split; [exact H1|exact H2] ].
  intros e H. repeat (apply elem_of_cons in H as [H|H]; [discriminate|]). by apply elem_of_nil in H.
Defined.
End Mqtt.

(** ** AMQP *)

(** The library: connections and channels are numbers; a subscription is the channel of Go that Consume returns. *)
Class AmqpAPI (W : Type) := {
  Dial : string → W → W * result nat;
  Channel : nat → W → W * result nat;
  ExchangeDeclare : nat → string → W → W * option string;
  QueueDeclare : nat → W → W * result string;
  QueueBind : nat → string → string → string → W → W * option string;
  Consume : nat → string → string → W → W * result nat;
  amqp_Publish : nat → string → string → list Z → W → W * option string;
  CloseConn : nat → W → W
}.
(** The consumers of a channel: a tag identifies one of them. *)
Class AmqpLaws (W : Type) `{AmqpAPI W} := {
  consumers : W → nat → gset string;
  consume_ok : ∀ ch q tag w w' d, Consume ch q tag w = (w', Ok d) → tag ∈ consumers w' ch;
  consume_used : ∀ ch q tag w, tag ∈ consumers w ch → ∃ w' e, Consume ch q tag w = (w', Err e);
  declare_keeps : ∀ ch w w' r, QueueDeclare ch w = (w', r) → consumers w ch ⊆ consumers w' ch;
  bind_keeps : ∀ ch q t x w w' r, QueueBind ch q t x w = (w', r) → consumers w ch ⊆ consumers w' ch
}.

Module Amqp.
Record Config := { Broker : string; VHost : string; Exchange : string; TopicNamespace : string }.
Record URI := { Scheme : string; Host : string; Port : Z; Username : string; Password : string; Vhost : string }.
Section Amqp.
Context {W : Type} `{AmqpAPI W} (AMQPTopics : string → Topics) (URI_String : URI → string).
(** The texts of the errors of net.SplitHostPort and strconv.ParseInt *)
Context (host_error port_error : string → string).

(** [receivers]: the routines that receive, each from two subscriptions; [watched]: the connections with a routine that connects again;
    [rejects] counts the rejections of the agent, [failures] the failures since the last reset of the backoff. *)
Record amqpClient := {
  url : string; topics : Topics; exchange : string;
  session : option (nat * nat); disconnected : bool; receivers : list (nat * nat); watched : list nat; rejects : nat; failures : nat
}.
Definition newAMQPClient (config : Config) (username password : string) (tls : bool) : result amqpClient :=
  match SplitHostPort (Broker config) with
  | None => Err (host_error (Broker config))
  | Some (host, portStr) =>
      match (if decide (portStr = "") then Some 0 else ParseInt 32 portStr) with
      | None => Err (port_error portStr)
      | Some port =>
          Ok {| url := URI_String {| Scheme := if tls then "amqps" else "amqp"; Host := host; Port := port; Username := username;
                                     Password := password; Vhost := VHost config |};
                topics := AMQPTopics (TopicNamespace config); exchange := Exchange config;
                session := None; disconnected := false; receivers := []; watched := []; rejects := 0; failures := 0 |}
      end
  end.

Definition set_session (s : option (nat * nat)) (w : list nat) (c : amqpClient) : amqpClient :=
  {| url := url c; topics := topics c; exchange := exchange c; session := s; disconnected := disconnected c; receivers := receivers c;
     watched := w; rejects := rejects c; failures := failures c |}.
Definition set_receivers (r : list (nat * nat)) (c : amqpClient) : amqpClient :=
  {| url := url c; topics := topics c; exchange := exchange c; session := session c; disconnected := disconnected c; receivers := r;
     watched := watched c; rejects := rejects c; failures := failures c |}.
Definition set_counts (r f : nat) (c : amqpClient) : amqpClient :=
  {| url := url c; topics := topics c; exchange := exchange c; session := session c; disconnected := disconnected c;
     receivers := receivers c; watched := watched c; rejects := r; failures := f |}.
Definition set_disconnected (c : amqpClient) : amqpClient :=
  {| url := url c; topics := topics c; exchange := exchange c; session := session c; disconnected := true;
     receivers := receivers c; watched := watched c; rejects := rejects c; failures := failures c |}.

(** Connect; an error closes the connection. *)
Definition Connect (c : amqpClient) (w : W) : amqpClient * W * option string :=
  let '(w, r) := Dial (url c) w in
  match r with
  | Err e => (c, w, Some e)
  | Ok conn =>
      let '(w, r) := Channel conn w in
      match r with
      | Err e => (c, CloseConn conn w, Some ("failed to create channel: " +:+ e))
      | Ok ch =>
          let '(w, err) := ExchangeDeclare ch (exchange c) w in
          match err with
          | Some e => (c, CloseConn conn w, Some ("failed to declare exchange: " +:+ e))
          | None => (set_session (Some (conn, ch)) (conn :: watched c) c, w, None)
          end
      end
  end.
Definition Disconnect (c : amqpClient) (w : W) : amqpClient * W :=
  let c := set_disconnected c in
  match session c with Some (conn, _) => (c, CloseConn conn w) | None => (c, w) end.

Definition doSubscribe (topic : string) (c : amqpClient) (w : W) : W * result nat :=
  match session c with
  | None => (w, Err ("no channel available to subscribe [" +:+ topic +:+ "]"))
  | Some (_, ch) =>
      let '(w, q) := QueueDeclare ch w in
      match q with
      | Err e => (w, Err ("failed to declare queue: " +:+ e))
      | Ok q =>
          let '(w, err) := QueueBind ch q topic (exchange c) w in
          match err with
          | Some e => (w, Err ("failed to bind queue: " +:+ e))
          | None => let '(w, r) := Consume ch q "aranya" w in (w, wrap_err "failed to consume messages: " r)
          end
      end
  end.
Definition Subscribe (c : amqpClient) (w : W) : amqpClient * W * option string :=
  let '(w, r) := doSubscribe (subTopic (topics c)) c w in
  match r with
  | Err e => (c, w, Some e)
  | Ok msgCh =>
      let '(w, r) := doSubscribe (subWillTopic (topics c)) c w in
      match r with
      | Err e => (c, w, Some e)
      | Ok willCh => (set_receivers ((msgCh, willCh) :: receivers c) c, w, None)
      end
  end.
Definition Publish (data : list Z) (c : amqpClient) (w : W) : W * option string :=
  match session c with
  | None => (w, Some ("no channel available to publish [" +:+ pubTopic (topics c) +:+ "]"))
  | Some (_, ch) => amqp_Publish ch (exchange c) (pubTopic (topics c)) data w
  end.

(** The routine that watches a connection, once it is lost: [ticks] are the times its backoff ends before the manager stops. After Connect
    the error it loops on is nil, whatever becomes of Subscribe. *)
Inductive Ended := Waiting | Reconnected | FellOut.
Fixpoint reconnect (ticks : nat) (c : amqpClient) (w : W) : Ended * amqpClient * W :=
  match ticks with
  | O => (Waiting, c, w)
  | S ticks =>
      let '(c, w, err) := Connect c w in
      match err with
      | Some _ => reconnect ticks (set_counts (rejects c) (S (failures c)) c) w
      | None =>
          let c := set_counts (rejects c) 0 c in
          let '(c, w, err) := Subscribe c w in
          match err with
          | Some _ => (FellOut, set_counts (rejects c) (S (failures c)) c, w)
          | None => (Reconnected, set_counts (S (rejects c)) (failures c) c, w)
          end
      end
  end.
(** [lost]: the error of the connection, none when it was closed in order *)
Definition on_lost (lost : option string) (ticks : nat) (c : amqpClient) (w : W) : option (Ended * amqpClient * W) :=
  if bool_decide (lost = None) && disconnected c then None
  else Some (reconnect ticks (set_counts (rejects c) (S (failures c)) c) w).

(** What the routine leaves, by how it ends: a client that has fallen out of the loop is connected and receives nothing. *)
Lemma reconnect_spec ticks c w :
  let '(r, c', _) := reconnect ticks c w in
  match r with
  | Waiting => session c' = session c ∧ receivers c' = receivers c ∧ rejects c' = rejects c
  | Reconnected => ∃ conn ch m wl, session c' = Some (conn, ch) ∧ conn ∈ watched c' ∧ receivers c' = (m, wl) :: receivers c ∧
      rejects c' = S (rejects c) ∧ failures c' = 0%nat
  | FellOut => ∃ conn ch, session c' = Some (conn, ch) ∧ conn ∈ watched c' ∧ receivers c' = receivers c ∧ rejects c' = rejects c
  end.
Proof.
  revert c w. induction ticks as [|ticks IH]; intros c w; cbn [reconnect]; [done|].
  assert (∀ w, let '(c', w', err) := Connect c w in match err with
    | Some _ => c' = c | None => ∃ conn ch, c' = set_session (Some (conn, ch)) (conn :: watched c) c end) as HC.
  { intros w0. unfold Connect. destruct (Dial (url c) w0) as [w1 [conn|e] ]; [|done]. destruct (Channel conn w1) as [w2 [ch|e] ]; [|done].
    destruct (ExchangeDeclare ch (exchange c) w2) as [w3 [e|] ]; [done|by exists conn, ch]. }
  specialize (HC w). destruct (Connect c w) as [ [c1 w1] [e|] ].
  - subst c1. specialize (IH (set_counts (rejects c) (S (failures c)) c) w1). by destruct (reconnect _ _ _) as [ [r c'] w'].
  - destruct HC as (conn & ch & ->). set (c2 := set_counts _ 0 _). unfold Subscribe.
    destruct (doSubscribe (subTopic (topics c2)) c2 w1) as [w2 [m|e] ]; [|by exists conn, ch; split_and!; [|left|..] ].
    destruct (doSubscribe (subWillTopic (topics c2)) c2 w2) as [w3 [wl|e] ]; [|by exists conn, ch; split_and!; [|left|..] ].
    exists conn, ch, m, wl. by split_and!; [|left|..].
Qed.

(** The client the manager is given *)
Definition manager_client : Mq.messageQueueClient (W := amqpClient * W) := {|
  Mq.q_Connect := λ '(c, w), let '(c, w, e) := Connect c w in (c, w, e);
  Mq.q_Disconnect := λ '(c, w), (Disconnect c w, None);
  Mq.q_Subscribe := λ '(c, w), let '(c, w, e) := Subscribe c w in (c, w, e);
  Mq.q_Publish := λ bs '(c, w), let '(w, e) := Publish bs c w in (c, w, e)
|}.

Context `{!AmqpLaws W}.
Lemma doSubscribe_uses topic c w w' m conn ch :
  session c = Some (conn, ch) → doSubscribe topic c w = (w', Ok m) → "aranya" ∈ consumers w' ch.
Proof.
  intros Hs. unfold doSubscribe. rewrite Hs. destruct (QueueDeclare ch w) as [w1 [q|e] ]; [|done].
  destruct (QueueBind ch q topic (exchange c) w1) as [w2 [e|] ]; [done|]. destruct (Consume ch q "aranya" w2) as [w3 [d|e] ] eqn:E; cbn; [|done].
  intros [= <- <-]. by eapply consume_ok.
Qed.
Lemma doSubscribe_used topic c w conn ch :
  session c = Some (conn, ch) → "aranya" ∈ consumers w ch → ∃ e, (doSubscribe topic c w).2 = Err e.
Proof.
  intros Hs Hu. unfold doSubscribe. rewrite Hs. destruct (QueueDeclare ch w) as [w1 [q|e] ] eqn:E1; [|by eexists].
  destruct (QueueBind ch q topic (exchange c) w1) as [w2 [e|] ] eqn:E2; [by eexists|].
  destruct (consume_used ch q "aranya" w2) as (w3 & e & ->); [|by eexists].
  apply (bind_keeps _ _ _ _ _ _ _ E2). by apply (declare_keeps _ _ _ _ E1).
Qed.
(** Both subscriptions have the tag aranya on one channel, which a broker refuses: no subscription succeeds. *)
Lemma Subscribe_fails c w : ∃ e, (Subscribe c w).2 = Some e.
Proof.
  unfold Subscribe. destruct (doSubscribe (subTopic (topics c)) c w) as [w1 [m|e] ] eqn:E1; [|by exists e].
  destruct (session c) as [ [conn ch]|] eqn:Hs; [|by unfold doSubscribe in E1; rewrite Hs in E1].
  destruct (doSubscribe_used (subWillTopic (topics c)) c w1 conn ch Hs) as (e & He); [by eapply doSubscribe_uses|].
  destruct (doSubscribe _ c w1) as [w2 r]. cbn in He. subst r. by exists e.
Qed.
(** So a manager over AMQP is never made, and a client that reconnects always falls out. *)
Lemma amqp_manager_fails newMQTT newAzure newGCP topics now opts cw :
  MQTTOpts opts = None → AMQPOpts opts = true →
  ∃ e, (Mq.NewMessageQueueManager newMQTT (λ cw, (cw, Ok manager_client)) newAzure newGCP topics now opts cw).2 = Err e.
Proof.
  intros H1 H2. unfold Mq.NewMessageQueueManager. destruct (Manager.newBaseManager now opts) as [b|e]; [|by eexists].
  unfold Mq.new_client. rewrite H1, H2. cbn [Mq.q_Connect Mq.q_Subscribe Mq.q_Disconnect manager_client]. destruct cw as [c w].
  destruct (Connect c w) as [ [c1 w1] [e|] ]; [by eexists|]. destruct (Subscribe_fails c1 w1) as [e He].
  destruct (Subscribe c1 w1) as [ [c2 w2] r]. cbn in He. subst r. by eexists.
Qed.
End Amqp.
End Amqp.

(** ** Azure IoT Hub *)
Module AzureIoTHub.
Definition equals : Ascii.ascii := Ascii.ascii_of_nat 61.
Definition semicolon : Ascii.ascii := Ascii.ascii_of_nat 59.
(** The fields of conn.ParsedConn that are set *)
Record ParsedConn := { Host : string; HubName : string; KeyName : string; Key : list Z }.
Definition new_conn : ParsedConn := {| Host := ""; HubName := ""; KeyName := ""; Key := [] |}.
Section Azure.
Context (base64_error : string → string).
Definition parse_pair (kv : string) (parsed : ParsedConn) : result ParsedConn :=
  match cut_at equals kv with
  | None => Err "invalid key value pair in conn str"
  | Some (key, value) =>
      if decide (ToLower key = "hostname") then
        match cut_at dot value with
        | None => Err ("invalid HostName entry: " +:+ value)
        | Some (hub, _) => Ok {| Host := value; HubName := hub; KeyName := KeyName parsed; Key := Key parsed |}
        end
      else if decide (ToLower key = "sharedaccesskeyname") then
        Ok {| Host := Host parsed; HubName := HubName parsed; KeyName := value; Key := Key parsed |}
      else if decide (ToLower key = "sharedaccesskey") then
        match DecodeString value with
        | None => Err ("failed to decode access key: " +:+ base64_error value)
        | Some data => Ok {| Host := Host parsed; HubName := HubName parsed; KeyName := KeyName parsed; Key := data |}
        end
      else Ok parsed
  end.
Fixpoint parse_pairs (kvs : list string) (parsed : ParsedConn) : result ParsedConn :=
  match kvs with [] => Ok parsed | kv :: kvs => p ← parse_pair kv parsed; parse_pairs kvs p end.
Definition complete (p : ParsedConn) : bool :=
  negb (bool_decide (KeyName p = "") || bool_decide (Key p = []) || bool_decide (Host p = "") || bool_decide (HubName p = "")).
Definition parseIoTHubConnectionString (str : string) : result ParsedConn :=
  p ← parse_pairs (split_on semicolon str) new_conn; if complete p then Ok p else Err "invalid connection string".

(** *** Connection strings as they are written *)
Inductive Field := FHost (key hub domain : string) | FKeyName (key name : string) | FKey (key : string) (bytes : list Z) | FOther (key value : string).
Definition field_key (f : Field) : string := match f with FHost k _ _ | FKeyName k _ | FKey k _ | FOther k _ => k end.
Definition field_value (f : Field) : string :=
  match f with FHost _ hub d => hub +:+ "." +:+ d | FKeyName _ n => n | FKey _ bs => EncodeToString bs | FOther _ v => v end.
Definition print_field (f : Field) : string := field_key f +:+ "=" +:+ field_value f.
Definition connection_string (fs : list Field) : string := join ";" (print_field <$> fs).
Definition known_keys : list string := ["hostname"; "sharedaccesskeyname"; "sharedaccesskey"].
Definition valid (f : Field) : Prop :=
  has_char equals (field_key f) = false ∧ has_char semicolon (print_field f) = false ∧
  match f with
  | FHost k hub _ => ToLower k = "hostname" ∧ has_char dot hub = false
  | FKeyName k _ => ToLower k = "sharedaccesskeyname"
  | FKey k bs => ToLower k = "sharedaccesskey" ∧ Forall is_byte bs
  | FOther k _ => ToLower k ∉ known_keys
  end.
Definition set_field (p : ParsedConn) (f : Field) : ParsedConn :=
  match f with
  | FHost _ hub d => {| Host := hub +:+ "." +:+ d; HubName := hub; KeyName := KeyName p; Key := Key p |}
  | FKeyName _ n => {| Host := Host p; HubName := HubName p; KeyName := n; Key := Key p |}
  | FKey _ bs => {| Host := Host p; HubName := HubName p; KeyName := KeyName p; Key := bs |}
  | FOther _ _ => p
  end.
Lemma parse_field f p : valid f → parse_pair (print_field f) p = Ok (set_field p f).
Proof.
  intros (Hk & _ & Hf). unfold parse_pair, print_field. change ("=" +:+ field_value f) with (String equals (field_value f)).
  rewrite (cut_at_prefix equals _ _ Hk). destruct f as [k hub d|k n|k bs|k v]; cbn [field_key field_value set_field] in *.
  - destruct Hf as [-> Hd]. rewrite decide_True by done. change ("." +:+ d) with (String dot d). by rewrite (cut_at_prefix dot _ _ Hd).
  - rewrite Hf. done.
  - destruct Hf as [-> Hb]. rewrite !decide_False, decide_True by done. by rewrite (base64_roundtrip bs Hb).
  - unfold known_keys in Hf. rewrite !decide_False by (intros E; apply Hf; rewrite E; repeat constructor). done.
Qed.

(** A connection string of any well formed fields, in any order, of any case and with fields of other names among them, is parsed to what
    its fields say, the last of each kind counting; it is refused when the name or the bytes of the key, the host or the hub are missing. *)
Lemma connection_string_roundtrip fs :
  fs ≠ [] → Forall valid fs →
  let p := foldl set_field new_conn fs in
  parseIoTHubConnectionString (connection_string fs) = if complete p then Ok p else Err "invalid connection string".
Proof.
  intros Hne Hv. cbv zeta. unfold parseIoTHubConnectionString, connection_string. change ";" with (String semicolon "").
  rewrite split_on_join; [|by destruct fs|].
  - assert (∀ p, parse_pairs (print_field <$> fs) p = Ok (foldl set_field p fs)) as ->; [|done].
    clear Hne. induction Hv as [|f fs Hf _ IH]; intros p; [done|]. cbn [fmap list_fmap parse_pairs foldl]. rewrite (parse_field f p Hf). apply IH.
  - apply Forall_fmap. eapply Forall_impl; [exact Hv|]. by intros f (_ & ? & _).
Qed.

(** *** Events and the state of the device *)
Inductive Value := VString (s : string) | VOther.
(** handleEvent: the data that are passed on *)
Definition handleEvent (deviceID : string) (properties : option (gmap string Value)) (data : list Z) : result (list Z) :=
  match properties with
  | None => Err "unexpected empty properties"
  | Some props =>
      match props !! "arhat" with
      | None => Err "arhat identifier not found"
      | Some _ =>
          match props !! "dev" with
          | None => Err "device id not found"
          | Some VOther => Err "invalid client id"
          | Some (VString id) => if decide (id = deviceID) then Ok data else Err "device id not match"
          end
      end
  end.

(** The token provider, net/http and encoding/json; of an answer the status and its body, which may fail to be read *)
Context (GetToken : string → result string) (NewRequest : string → option string) (Do : string → string → result (Z * result (list Z)))
        (Unmarshal : list Z → result (gmap string Value)).
Definition checkDeviceConnected (conn : ParsedConn) (deviceID : string) : result bool :=
  token ← wrap_err "failed to generate token for iot hub http request: " (GetToken (Host conn +:+ "/devices/" +:+ deviceID));
  let reqURL := "https://" +:+ Host conn +:+ "/twins/" +:+ deviceID +:+ "?api-version=2018-06-30" in
  match NewRequest reqURL with
  | Some e => Err ("failed to create http request: " +:+ e)
  | None =>
      '(status, body) ← wrap_err "failed to send device twin request: " (Do reqURL token);
      if negb (status =? 200) then Err ("failed to get device twin status, code: " +:+ pretty status) else
      data ← wrap_err "failed to read device twin resp: " body;
      m ← wrap_err "failed to unmarshal device twin resp: " (Unmarshal data);
      match m !! "connectionState" with Some (VString s) => Ok (bool_decide (s = "Connected")) | _ => Ok false end
  end.
End Azure.

(** *** The connection

    A hub is a number, a sender that of its amqp client. [w_Recv] is onRecvMsg of the manager. *)
Class AzureAPI (W : Type) := {
  NewHub : W → W * result nat;
  PartitionIDs : nat → W → W * result (list string);
  Receive : nat → string → W → W * option string;
  CloseHub : nat → W → W;
  DialHub : W → W * result nat;
  NegotiateClaim : nat → W → W * option string;
  NewSession : nat → W → W * option string;
  NewSender : nat → W → W * option string;
  CloseSender : nat → W → W;
  SendMsg : nat → list Z → W → W * option string;
  twin : W → W * result bool;
  w_Recv : list Z → W → W
}.
Section Connection.
Context {W : Type} `{AzureAPI W} (onlineMsg offlineMsg : list Z).
(** [serving]: the hub and the sender of the routine that serves the connection *)
Record azureClient := { connectedToIoTHub : bool; senderStore : option nat; serving : option (nat * nat) }.
Definition new_azure : azureClient := {| connectedToIoTHub := false; senderStore := None; serving := None |}.

Definition createSender (w : W) : W * result nat :=
  let '(w, r) := DialHub w in
  match r with
  | Err e => (w, Err ("failed to create iot hub amqp client: " +:+ e))
  | Ok client =>
      let '(w, err) := NegotiateClaim client w in
      match err with Some e => (w, Err e) | None =>
      let '(w, err) := NewSession client w in
      match err with Some e => (w, Err ("failed to create session: " +:+ e)) | None =>
      let '(w, err) := NewSender client w in
      match err with Some e => (w, Err ("failed to create sender: " +:+ e)) | None => (w, Ok client) end end end
  end.
Fixpoint receive_all (hub : nat) (ids : list string) (w : W) : W * option string :=
  match ids with
  | [] => (w, None)
  | id :: ids => match Receive hub id w with (w, Some e) => (w, Some e) | (w, None) => receive_all hub ids w end
  end.
Definition createEventHubClient (w : W) : W * result nat :=
  let '(w, r) := NewHub w in
  match r with
  | Err e => (w, Err e)
  | Ok hub =>
      let '(w, r) := PartitionIDs hub w in
      match r with
      | Err e => (w, Err e)
      | Ok ids => match receive_all hub ids w with
                  | (w, Some e) => (w, Err ("failed to receive from event hub: " +:+ e))
                  | (w, None) => (w, Ok hub)
                  end
      end
  end.
Definition report (connected : bool) (w : W) : W := w_Recv (if connected then onlineMsg else offlineMsg) w.
Definition Connect (c : azureClient) (w : W) : azureClient * W * option string :=
  match createEventHubClient w with
  | (w, Err e) => (c, w, Some ("failed to create event hub client: " +:+ e))
  | (w, Ok hub) =>
      match createSender w with
      | (w, Err e) => (c, CloseHub hub w, Some ("failed to create iot hub sender: " +:+ e))
      | (w, Ok sender) =>
          match twin w with
          | (w, Err e) => (c, CloseHub hub w, Some ("failed to check device twin status: " +:+ e))
          | (w, Ok connected) =>
              ({| connectedToIoTHub := true; senderStore := Some sender; serving := Some (hub, sender) |}, report connected w, None)
          end
      end
  end.

(** What the routine that serves the connection waits for; it leaves on the first two, and on an error of the others. *)
Inductive Signal := SenderClosed | ConnDone | StatusCheck | SenderRefresh.
Definition serve_signal (s : Signal) (c : azureClient) (w : W) : azureClient * W * bool :=
  match serving c, s with
  | None, _ => (c, w, true)
  | _, SenderClosed | _, ConnDone => (c, w, true)
  | Some _, StatusCheck => match twin w with (w, Err _) => (c, w, true) | (w, Ok connected) => (c, report connected w, false) end
  | Some (hub, sender), SenderRefresh =>
      match createSender w with
      | (w, Err _) => (c, w, true)
      | (w, Ok new) => ({| connectedToIoTHub := true; senderStore := Some new; serving := Some (hub, new) |}, CloseSender sender w, false)
      end
  end.
(** Its deferred function: it connects again, as many times as it has to; [attempts] are those before the manager exits. *)
Fixpoint connect_again (attempts : nat) (c : azureClient) (w : W) : azureClient * W :=
  match attempts with
  | O => (c, w)
  | S attempts => match Connect c w with (c, w, None) => (c, w) | (c, w, Some _) => connect_again attempts c w end
  end.
Definition leave (attempts : nat) (c : azureClient) (w : W) : azureClient * W :=
  let w := match serving c with Some (hub, _) => CloseHub hub w | None => w end in
  connect_again attempts {| connectedToIoTHub := false; senderStore := senderStore c; serving := None |} w.

(** Publish, and whether the routine is told that the sender is closed *)
Definition Publish (data : list Z) (c : azureClient) (w : W) : W * option string * bool :=
  match senderStore c with
  | None => (w, Some "iot hub sender not available", false)
  | Some sender => match SendMsg sender data w with (w, Some e) => (w, Some e, connectedToIoTHub c) | (w, None) => (w, None, false) end
  end.

(** A client is connected exactly while a routine serves it, and then publishes with the sender of that routine. *)
Definition azure_ok (c : azureClient) : Prop :=
  connectedToIoTHub c = bool_decide (is_Some (serving c)) ∧ ∀ hub sender, serving c = Some (hub, sender) → senderStore c = Some sender.
Lemma Connect_ok c w : let '(c', w', err) := Connect c w in
  match err with Some _ => c' = c | None => azure_ok c' ∧ is_Some (serving c') end.
Proof.
  unfold Connect. destruct (createEventHubClient w) as [w1 [hub|e] ]; [|done]. destruct (createSender w1) as [w2 [sender|e] ]; [|done].
  destruct (twin w2) as [w3 [b|e] ]; [|done]. split; [|by eexists]. split; [done|]. by intros h s [= <- <-].
Qed.
Lemma connect_again_ok n c w : azure_ok c → azure_ok (connect_again n c w).1.
Proof.
  revert c w. induction n as [|n IH]; intros c w Hc; cbn [connect_again]; [done|]. pose proof (Connect_ok c w) as H1.
  destruct (Connect c w) as [ [c1 w1] [e|] ]; [subst; by apply IH|apply H1].
Qed.
Lemma serve_ok s c w : azure_ok c → azure_ok (serve_signal s c w).1.1 ∧ azure_ok (leave 0 c w).1.
Proof.
  intros Hc. split; [|split; [done|by intros] ]. unfold serve_signal. destruct (serving c) as [ [hub sender]|] eqn:Es; [|done].
  destruct s; try done.
  - by destruct (twin w) as [w1 [b|e] ].
  - destruct (createSender w) as [w1 [new|e] ]; [|done]. split; [done|]. by intros h s [= <- <-].
Qed.
End Connection.
End AzureIoTHub.

(** ** Google Cloud IoT Core *)

(** Pub/Sub: the topic of a subscription, none when it has been deleted; of an error whether it is NotFound *)
Class PubSubAPI (W : Type) := {
  sub_Config : string → W → W * (option string + bool * string);
  sub_Delete : string → W → W * option string;
  sub_Create : string → string → W → W * option string
}.
Class PubSubLaws (W : Type) `{PubSubAPI W} := {
  sub_topics : W → gmap string (option string);
  config_keeps : ∀ id w, sub_topics (sub_Config id w).1 = sub_topics w;
  config_reads : ∀ id w w' t, sub_Config id w = (w', inl t) → sub_topics w !! id = Some t;
  create_sets : ∀ id t w w', sub_Create id t w = (w', None) → sub_topics w' = <[id := Some t]> (sub_topics w)
}.

Module GcpIoTCore.
Record Config := {
  ProjectID : string; Region : string; RegistryID : string; DeviceID : string; TelemetryTopicID : string; StateTopicID : string;
  DeviceStatusPollInterval : Z
}.
Definition state_topic (config : Config) : string := if decide (StateTopicID config = "") then TelemetryTopicID config else StateTopicID config.
Definition poll_interval (config : Config) : Z :=
  if DeviceStatusPollInterval config =? 0 then 60 * 10 ^ 9 else DeviceStatusPollInterval config.
Definition cmdTopic (config : Config) : string :=
  "projects/" +:+ ProjectID config +:+ "/locations/" +:+ Region config +:+ "/registries/" +:+ RegistryID config +:+ "/devices/" +:+ DeviceID config.

Section Subscriptions.
Context {W : Type} `{PubSubAPI W} (topic_String : string → string).
Definition ensureSubscription (subID topic : string) (w : W) : W * option string :=
  let create w := match sub_Create subID topic w with
                  | (w, Some e) => (w, Some ("failed to create subscription " +:+ subID +:+ ": " +:+ e)) | (w, None) => (w, None) end in
  let '(w, r) := sub_Config subID w in
  match r with
  | inr (notFound, e) =>
      if negb notFound then (w, Some ("failed to check config of subscription " +:+ subID +:+ ": " +:+ e)) else create w
  | inl None => create w
  | inl (Some t) =>
      if decide (t = topic) then (w, None) else
      match sub_Delete subID w with
      | (w, Some e) => (w, Some ("failed to delete bad subscription " +:+ subID +:+ ": " +:+ e))
      | (w, None) => create w
      end
  end.
Definition msg_sub (config : Config) : string := "aranya." +:+ DeviceID config +:+ ".msg".
Definition state_sub (config : Config) : string := "aranya." +:+ DeviceID config +:+ ".state".
(** Subscribe, and the subscriptions it receives from *)
Definition Subscribe (config : Config) (w : W) : W * result (list string) :=
  match ensureSubscription (msg_sub config) (topic_String (TelemetryTopicID config)) w with
  | (w, Some e) => (w, Err ("failed to ensure msg sub: " +:+ e))
  | (w, None) =>
      match ensureSubscription (state_sub config) (topic_String (state_topic config)) w with
      | (w, Some e) => (w, Err ("failed to ensure state sub: " +:+ e))
      | (w, None) =>
          (w, Ok (msg_sub config ::
                  if decide (topic_String (state_topic config) = topic_String (TelemetryTopicID config)) then [] else [state_sub config]))
      end
  end.

Context `{!PubSubLaws W}.
Lemma ensureSubscription_spec subID topic w w' :
  ensureSubscription subID topic w = (w', None) → sub_topics w' !! subID = Some (Some topic).
Proof.
  unfold ensureSubscription. pose proof (config_keeps subID w) as Hk. destruct (sub_Config subID w) as [w1 r] eqn:E1. cbn [fst] in Hk.
  assert (∀ w0 w2, (match sub_Create subID topic w0 with
    | (w, Some e) => (w, Some ("failed to create subscription " +:+ subID +:+ ": " +:+ e)) | (w, None) => (w, None) end) = (w2, None) →
    sub_topics w2 !! subID = Some (Some topic)) as Hcreate.
  { intros w0 w2. destruct (sub_Create subID topic w0) as [w3 [e|] ] eqn:E; [done|]. intros [= <-]. by rewrite (create_sets _ _ _ _ E), lookup_insert_eq. }
  destruct r as [ [t|]|[nf e] ].
  - case_decide as Ht; [|by destruct (sub_Delete subID w1) as [w2 [e|] ]; [|apply Hcreate] ].
    intros [= <-]. rewrite Hk. rewrite (config_reads _ _ _ _ E1). by subst.
  - apply Hcreate.
  - destruct (negb nf); [done|apply Hcreate].
Qed.
End Subscriptions.

(** *** The state of the device

    A device has the time of its last error and, when it has reported one, that of its state. time.Parse reads the times. *)
Section Device.
Context (Parse : string → result Z) (onlineMsg offlineMsg : list Z).
Record Device := { State_UpdateTime : option string; LastErrorTime : string }.
(** checkDeviceStatus: what it returns, and the message its deferred function reports *)
Definition device_status (resp : result Device) : result bool :=
  d ← wrap_err "failed to request device info: " resp;
  match State_UpdateTime d with
  | None => Ok false
  | Some t =>
      errTime ← wrap_err ("bad error time " +:+ LastErrorTime d +:+ ": ") (Parse (LastErrorTime d));
      onlineTime ← wrap_err ("bad state update time " +:+ LastErrorTime d +:+ ": ") (Parse t);
      Ok (errTime <? onlineTime)
  end.
Definition checkDeviceStatus (resp : result Device) : result bool * list Z :=
  let r := device_status resp in (r, match r with Ok true => onlineMsg | _ => offlineMsg end).

(** A message has a function to settle it when Pub/Sub made it; to settle one that was made by hand calls nil. *)
Record Message := { ps_Attributes : gmap string string; ps_Data : list Z; ps_made_by_pubsub : bool }.
Definition settle (m : Message) : outcome unit :=
  if ps_made_by_pubsub m then Ret () else Panic "invalid memory address or nil pointer dereference".
Definition handleRecv (deviceID : string) (m : Message) : outcome (option (list Z)) :=
  if bool_decide (ps_Attributes m = ∅) || negb (bool_decide (default "" (ps_Attributes m !! "deviceId") = deviceID)) then
    _ ← settle m; Ret None
  else _ ← settle m; Ret (Some (ps_Data m)).
(** One round of the routine that polls the device: the messages that reach the manager *)
Definition poll (deviceID : string) (resp : result Device) : outcome (list (list Z)) :=
  let '(r, first) := checkDeviceStatus resp in
  match r with
  | Err _ => Ret [first]
  | Ok online =>
      second ← handleRecv deviceID
        {| ps_Attributes := {["deviceId" := deviceID]}; ps_Data := if online then onlineMsg else offlineMsg; ps_made_by_pubsub := false |};
      Ret (first :: option_list second)
  end.

(** The first round that learns the state of the device panics. *)
Lemma poll_panics deviceID resp : is_Ok (device_status resp) = true → ∃ why, poll deviceID resp = Panic why.
Proof.
  unfold poll, checkDeviceStatus. destruct (device_status resp) as [b|]; [|done]. intros _. unfold handleRecv. cbn [ps_Attributes].
  destruct (_ || _); by eexists.
Qed.
(** A device without an error, whose last error time is empty, is never online. *)
Lemma no_error_not_online d t : (∃ e, Parse "" = Err e) → LastErrorTime d = "" → State_UpdateTime d = Some t →
  is_Ok (device_status (Ok d)) = false ∧ (checkDeviceStatus (Ok d)).2 = offlineMsg.
Proof. intros [e He] Hl Ht. unfold checkDeviceStatus, device_status. cbn. rewrite Ht, Hl, He. done. Qed.
(** A message of Pub/Sub is passed on exactly when it is of the device. *)
Lemma handleRecv_spec deviceID m : ps_made_by_pubsub m = true →
  handleRecv deviceID m = Ret (if bool_decide (ps_Attributes m ≠ ∅ ∧ default "" (ps_Attributes m !! "deviceId") = deviceID) then Some (ps_Data m) else None).
Proof.
  intros Hm. unfold handleRecv, settle. rewrite Hm. cbn [mbind outcome_bind]. repeat case_bool_decide; cbn; try done; tauto.
Qed.
End Device.

(** newGCPIoTCoreClient, of the answers of the two libraries; what it keeps of the configuration *)
Record gcpIoTCoreClient := { g_deviceID : string; g_pollInterval : Z; g_msgTopic : string; g_stateTopic : string; g_cmdTopic : string }.
Definition newGCPIoTCoreClient (config : Config) (pubsub iot : option string) : result gcpIoTCoreClient :=
  match pubsub, iot with
  | Some e, _ => Err ("failed to create gcp pubsub api client: " +:+ e)
  | None, Some e => Err ("failed to create gcp cloud iot api client: " +:+ e)
  | None, None => Ok {| g_deviceID := DeviceID config; g_pollInterval := poll_interval config; g_msgTopic := TelemetryTopicID config;
                        g_stateTopic := state_topic config; g_cmdTopic := cmdTopic config |}
  end.
(** A routine that receives, until the context has ended: [answers] are those of Receive, which is called again whatever it answers. What
    happens of each: that of the messages rejects the agent when Receive fails, and both say so. *)
Inductive Received := RejectAgent | LogFailure (text : string).
#[export] Instance Received_eq : EqDecision Received.
Proof. solve_decision. Defined.
Definition receive (state : bool) (answers : list (option string)) : list Received :=
  a ← answers;
  match a with
  | None => []
  | Some e => if state then [LogFailure ("failed to create receive from gcp pubsub for device state: " +:+ e)]
              else [RejectAgent; LogFailure ("failed to create receive from gcp pubsub for device msg: " +:+ e)]
  end.
(** The agent is rejected once for each failure of the messages, and never for the states. *)
Lemma rejects_of_failures state answers :
  length (filter (λ r, r = RejectAgent) (receive state answers)) = if state then 0%nat else length (filter is_Some answers).
Proof.
  induction answers as [|[e|] l IH]; [by destruct state|..]; unfold receive in *; rewrite bind_cons, filter_app, length_app, IH, filter_cons.
  - destruct state; [done|]. by rewrite (decide_True (P := is_Some (Some e))).
  - rewrite decide_False by (by intros [? ?]). done.
Qed.
(** Publish sends the data in base64, which the device decodes. *)
Definition BinaryData (data : list Z) : string := EncodeToString data.
End GcpIoTCore.

(** ** Examples *)
Module MqExamples.
Import AzureIoTHub.
Definition fields : list Field :=
  [FOther "Generation" "2"; FKey "SharedAccessKey" [1; 2; 3; 255]; FHost "HOSTNAME" "hub" "azure-devices.net"; FKeyName "SharedAccessKeyName" "service"].
Example printed : connection_string fields = "Generation=2;SharedAccessKey=AQID/w==;HOSTNAME=hub.azure-devices.net;SharedAccessKeyName=service".
Proof. by vm_compute. Qed.
Lemma connection_string_roundtrip_witness :
  parseIoTHubConnectionString id (connection_string fields) =
    Ok {| Host := "hub.azure-devices.net"; HubName := "hub"; KeyName := "service"; Key := [1; 2; 3; 255] |}.
Proof.
  refine (connection_string_roundtrip id fields _ _); [done|].
  assert (Forall is_byte [1; 2; 3; 255]) as Hb by (repeat constructor; done).
  assert (ToLower "Generation" ∉ known_keys) as Hk by (apply (bool_decide_unpack _); vm_compute; exact I).
  unfold fields. repeat apply Forall_cons_2; try apply Forall_nil_2; (split; [vm_compute; reflexivity|split; [vm_compute; reflexivity|] ]); try (vm_compute; done); done.
Defined.

(** A broker that keeps the tags of each channel *)
Abbreviation Broker := (gmap nat (gset string)).
#[export] Instance broker : AmqpAPI Broker := {|
  Dial := λ _ w, (w, Ok 1%nat); Channel := λ _ w, (w, Ok 1%nat); ExchangeDeclare := λ _ _ w, (w, None); QueueDeclare := λ _ w, (w, Ok "q");
  QueueBind := λ _ _ _ _ w, (w, None);
  Consume := λ ch _ tag w, if decide (tag ∈ default ∅ (w !! ch)) then (w, Err "NOT_ALLOWED - attempt to reuse consumer tag")
                           else (<[ch := {[tag]} ∪ default ∅ (w !! ch)]> w, Ok 1%nat);
  amqp_Publish := λ _ _ _ _ w, (w, None); CloseConn := λ _ w, w
|}.
#[export] Instance broker_laws : AmqpLaws Broker.
Proof.
  refine {| consumers := λ w ch, default ∅ (w !! ch) |}.
  - intros ch q tag w w' d. cbn. case_decide; [done|]. intros [= <- _]. rewrite lookup_insert_eq. cbn. set_solver.
  - intros ch q tag w Ht. cbn. rewrite decide_True by done. by eexists _, _.
  - by intros ch w w' r [= <- _].
  - by intros ch q t x w w' r [= <- _].
Defined.
Definition amqp0 : Amqp.amqpClient :=
  {| Amqp.url := "amqp://broker"; Amqp.topics := {| pubTopic := "ns.cmd"; subTopic := "ns.msg"; subWillTopic := "ns.status" |}; Amqp.exchange := "aranya";
     Amqp.session := None; Amqp.disconnected := false; Amqp.receivers := []; Amqp.watched := []; Amqp.rejects := 0; Amqp.failures := 0 |}.
(** The routine that connects again leaves a client that is connected and hears nothing, and does not reject the agent. *)
Example falls_out :
  let '(r, c, _) := Amqp.reconnect 3 amqp0 (∅ : Broker) in (r, Amqp.session c, Amqp.receivers c, Amqp.rejects c) = (Amqp.FellOut, Some (1%nat, 1%nat), [], 0%nat).
Proof. by vm_compute. Qed.
End MqExamples.
