(* ===== verification/StorageManager.v ===== *)
(** * The storage manager

    src/pkg/virtualnode/storage: manager.go, which waits for the volumes of a pod to be mounted and unmounted, and the paths of
    volume_host.go. The states of the world, their populator and reconciler are those of the kubelet (vendored): the class VolumeAPI says
    what the manager asks of them; between two questions time passes and they move on by themselves (elapse). The waits are wait.PollImmediate of
    apimachinery (vendored); which of its ticks are received is an argument. The CSI plugin
    under storage/csi is modelled in CsiBase.v and the files after it. *)
From S2P Require Import Prelude GoNet K8s.
Open Scope Z_scope.

(** filepath.Join of elements without dots: the empty ones are left out *)
Definition Join (elems : list string) : string := join "/" (filter (λ s, s ≠ "") elems).
(** EscapeQualifiedName: a slash becomes a tilde *)
Fixpoint EscapeQualifiedName (s : string) : string :=
  match s with EmptyString => EmptyString | String a s => String (if decide (a = slash) then Ascii.ascii_of_nat 126 else a) (EscapeQualifiedName s) end.

(** ** The directories of volume_host.go *)
Module VolumeHost.
Record volumeHost := { nodeName : string; kubeletPluginsDir : string; podsDir : string }.
Definition CSIPluginName : string := "kubernetes.io/csi".
Definition DefaultKubeletVolumesDirName : string := "volumes".
Definition DefaultKubeletVolumeDevicesDirName : string := "volumeDevices".
Definition DefaultKubeletPluginsDirName : string := "plugins".
(** NewManager gives the pods of a node a directory of its own. *)
Definition newVolumeHost (StorageRootDir nodeName pluginsDir : string) : volumeHost :=
  {| nodeName := nodeName; kubeletPluginsDir := pluginsDir; podsDir := Join [StorageRootDir; nodeName] |}.
Definition GetPluginDir (m : volumeHost) (plugin : string) : string := Join [kubeletPluginsDir m; plugin].
Definition GetVolumeDevicePluginDir (m : volumeHost) (plugin : string) : string :=
  Join [kubeletPluginsDir m; plugin; DefaultKubeletVolumeDevicesDirName].
Definition GetPodVolumeDir (m : volumeHost) (podUID plugin volume : string) : string :=
  Join [podsDir m; podUID; DefaultKubeletVolumesDirName; plugin; volume].
Definition GetPodPluginDir (m : volumeHost) (podUID plugin : string) : string := Join [podsDir m; podUID; DefaultKubeletPluginsDirName; plugin].
Definition GetPodVolumeDeviceDir (m : volumeHost) (podUID plugin : string) : string :=
  Join [podsDir m; podUID; DefaultKubeletVolumeDevicesDirName; plugin].
(** The directory of all CSI volumes of a pod, and where one of them is mounted *)
Definition podCSIVolumesDir (m : volumeHost) (podUID : string) : string := GetPodVolumeDir m podUID (EscapeQualifiedName CSIPluginName) "".
Definition GetPersistentVolumeMountPath (m : volumeHost) (podUID volume : string) : string :=
  Join [GetPodVolumeDir m podUID (EscapeQualifiedName CSIPluginName) volume; "mount"].

Definition segment (s : string) : Prop := s ≠ "" ∧ has_char slash s = false.
Lemma Join_segments pre segs : pre ≠ "" → Forall segment segs → split_on slash (Join (pre :: segs)) = split_on slash pre ++ segs.
Proof.
  intros Hp Hs. unfold Join. rewrite filter_cons, decide_True by done.
  assert (filter (λ s, s ≠ "") segs = segs) as -> by (induction Hs as [|s segs [H _] _ IH]; [done|rewrite filter_cons, decide_True by done; by rewrite IH]).
  revert pre Hp. induction Hs as [|s segs [Hn Hc] Hs IH]; intros pre Hp; [cbn; by rewrite app_nil_r|].
  change (join "/" (pre :: s :: segs)) with (pre +:+ String slash (join "/" (s :: segs))). rewrite split_on_cons. f_equal.
  rewrite (IH s Hn), (split_on_no_char slash s Hc). done.
Qed.
Ltac each := repeat (apply Forall_cons_2; [done|]); apply Forall_nil_2.
(** Two volumes, of pods of one node or of two nodes, have directories of their own. *)
Lemma volume_dirs_differ root node pdir node' uid vol uid' vol' :
  root ≠ "" → segment node → segment node' → segment uid → segment vol → segment uid' → segment vol' →
  GetPersistentVolumeMountPath (newVolumeHost root node pdir) uid vol = GetPersistentVolumeMountPath (newVolumeHost root node' pdir) uid' vol' →
  node = node' ∧ uid = uid' ∧ vol = vol'.
Proof.
  intros Hr Hn Hn' Hu Hv Hu' Hv' E.
  assert (∀ l, l ≠ [] → Forall (λ s : string, s ≠ "") l → Join l ≠ "") as Hne.
  { intros l Hl Hf. unfold Join. assert (filter (λ s, s ≠ "") l = l) as ->.
    { clear Hl. induction Hf as [|s l H _ IH]; [done|]. rewrite filter_cons, decide_True by done. by rewrite IH. }
    destruct l as [|s l]; [done|]. apply Forall_cons in Hf as [H _]. destruct s; [done|]. by destruct l. }
  assert (∀ n u v, segment n → segment u → segment v →
    split_on slash (GetPersistentVolumeMountPath (newVolumeHost root n pdir) u v) =
      split_on slash root ++ [n; u; "volumes"; "kubernetes.io~csi"; v; "mount"]) as Hs.
  { intros n u v H1 H2 H3. unfold GetPersistentVolumeMountPath, GetPodVolumeDir. change (EscapeQualifiedName CSIPluginName) with "kubernetes.io~csi".
    cbn [podsDir newVolumeHost]. pose proof H1 as [N1 _]. pose proof H2 as [N2 _]. pose proof H3 as [N3 _].
    assert (segment "volumes" ∧ segment "kubernetes.io~csi" ∧ segment "mount") as (S1 & S2 & S3) by (split_and!; done).
    assert (Join [root; n] ≠ "") as P1 by (apply Hne; [done|each]).
    rewrite Join_segments; [|apply Hne; [done|each]|each].
    rewrite Join_segments; [|done|each]. rewrite Join_segments; [|done|each]. by rewrite <- !app_assoc. }
  pose proof (f_equal (split_on slash) E) as H. rewrite !Hs in H by done. apply app_inv_head in H. by injection H as -> -> ->.
Qed.
End VolumeHost.

(** ** The manager *)
Class VolumeAPI (W : Type) := {
  PopPodErrors : string → W → W * list string;
  MarkVolumesReportedInUse : list string → W → W;
  ReprocessPod : string → W → W;
  VolumeExists : string → W → bool;
  GetMountedVolumesForPod : string → W → list string;      (** by OuterVolumeSpecName *)
  ReadDir : string → W → result (list string);
  RemoveAllOneFilesystem : string → W → W * option string;
  elapse : Z → W → W                                       (** nanoseconds *)
}.
Module Manager.
Import VolumeHost.
Section Manager.
Context {W : Type} `{VolumeAPI W}.
(** util.GetPodVolumeNames: the mounts and devices of the containers, in some order; the error of a wait that is too long *)
Context (GetPodVolumeNames : Pod → list string).
Definition ErrWaitTimeout : string := "timed out waiting for the condition".
Definition pollInterval : Z := 300 * 10 ^ 6.
Definition pollTimeout : Z := 120 * 10 ^ 9.
Definition volumeCleanupWaitTimeout : Z := 5 * 10 ^ 9.

(** wait.PollImmediate looks at the condition at once, then for every tick it receives, and once more when the poller closes the channel at the end of
    the time, unless it is done or fails. The poller ticks every interval; a tick for which nobody waits, as a look takes its time, is dropped.
    So the ticks received are an argument: their numbers, that of the last one being [from]. *)
Definition rounds : nat := Z.to_nat (pollTimeout / pollInterval).
Fixpoint received (from : nat) (ticks : list nat) : bool :=
  match ticks with [] => true | k :: ticks => (from <? k)%nat && (k <=? rounds)%nat && received k ticks end.
Fixpoint WaitFor (from : nat) (ticks : list nat) (condition : W → W * result bool) (w : W) : W * option string :=
  match ticks with
  | [] =>
      match condition (elapse (pollTimeout - Z.of_nat from * pollInterval) w) with
      | (w, Err e) => (w, Some e)
      | (w, Ok true) => (w, None)
      | (w, Ok false) => (w, Some ErrWaitTimeout)
      end
  | k :: ticks =>
      match condition (elapse (Z.of_nat (k - from) * pollInterval) w) with
      | (w, Err e) => (w, Some e)
      | (w, Ok true) => (w, None)
      | (w, Ok false) => WaitFor k ticks condition w
      end
  end.
Definition poll (ticks : list nat) (condition : W → W * result bool) (w : W) : W * option string :=
  match condition w with
  | (w, Err e) => (w, Some e)
  | (w, Ok true) => (w, None)
  | (w, Ok false) => WaitFor 0 ticks condition w
  end.

Definition getUnattachedVolumes (expected : list string) (w : W) : list string := filter (λ v, VolumeExists v w = false) expected.
Definition getUnmountedVolumes (podName : string) (expected : list string) (w : W) : list string :=
  filter (λ v, v ∉ GetMountedVolumesForPod podName w) expected.
Definition verifyVolumesMountedFunc (podName : string) (expected : list string) (w : W) : W * result bool :=
  let '(w, errs) := PopPodErrors podName w in
  (w, match errs with [] => Ok (bool_decide (getUnmountedVolumes podName expected w = [])) | _ => Err (join "; " errs) end).
Definition verifyVolumesUnmountedFunc (vh : volumeHost) (podName podUID : string) (w : W) : W * result bool :=
  let '(w, errs) := PopPodErrors podName w in
  (w, match errs with
      | [] => files ← ReadDir (podCSIVolumesDir vh podUID) w; Ok (bool_decide (files = []))
      | _ => Err (join "; " errs)
      end).

(** [started]: Start has set the states of the world. *)
Definition go_strings (l : list string) : string := "[" +:+ join " " l +:+ "]".
Definition Prepare (ticks : list nat) (started : bool) (pod : option Pod) (volToMount : list string) (w : W) : W * option string :=
  if negb started then (w, Some "not started") else
  match pod with
  | None => (w, None)
  | Some pod =>
      let expected := GetPodVolumeNames pod in
      if bool_decide (expected = []) then (w, None) else
      let podName := pod_UID pod in
      let w := ReprocessPod podName (MarkVolumesReportedInUse volToMount w) in
      let '(w, err) := poll ticks (verifyVolumesMountedFunc podName expected) w in
      match err with
      | None => (w, None)
      | Some e =>
          let unmounted := getUnmountedVolumes podName expected w in let unattached := getUnattachedVolumes expected w in
          if bool_decide (unmounted = []) then (w, None)
          else (w, Some ("unmounted volumes=" +:+ go_strings unmounted +:+ ", unattached volumes=" +:+ go_strings unattached +:+ ": " +:+ e))
      end
  end.
Definition Cleanup (ticks : list nat) (started : bool) (vh : volumeHost) (pod : option Pod) (w : W) : W * option string :=
  if negb started then (w, Some "not started") else
  match pod with
  | None => (w, None)
  | Some pod =>
      let w := elapse volumeCleanupWaitTimeout w in
      let '(w, err) := poll ticks (verifyVolumesUnmountedFunc vh (pod_UID pod) (pod_UID pod)) w in
      match err with Some e => (w, Some e) | None => RemoveAllOneFilesystem (Join [podsDir vh; pod_UID pod]) w end
  end.

(** Start, until the reconciler runs: whether the states of the world are there afterwards; a directory that exists is none the worse
    (the flag). *)
Definition Start (MkdirAll : option (string * bool)) (InitPlugins : option string) : bool * option string :=
  match MkdirAll with
  | Some (e, false) => (false, Some ("failed to create pods dir: " +:+ e))
  | _ => match InitPlugins with Some e => (false, Some ("failed to init volume plugins: " +:+ e)) | None => (true, None) end
  end.
(** Before Start has come so far, and after it has failed, every pod is refused. *)
Lemma refused_without_start ticks MkdirAll InitPlugins vh pod vols w :
  let '(started, err) := Start MkdirAll InitPlugins in
  (err = None ↔ started = true) ∧ (started = false → Prepare ticks started pod vols w = (w, Some "not started") ∧ Cleanup ticks started vh pod w = (w, Some "not started")).
Proof. unfold Start. destruct MkdirAll as [ [e [] ]|], InitPlugins; done. Qed.

(** The times between the looks that the ticks allow, and the world in which a look is made after some of them *)
Fixpoint delays_from (from : nat) (ticks : list nat) : list Z :=
  match ticks with
  | [] => [pollTimeout - Z.of_nat from * pollInterval]
  | k :: ticks => Z.of_nat (k - from) * pollInterval :: delays_from k ticks
  end.
Definition delays : list nat → list Z := delays_from 0.
Fixpoint looking (cond : W → W * result bool) (ds : list Z) (w : W) : W :=
  match ds with [] => w | d :: ds => looking cond ds (elapse d (cond w).1) end.
Lemma rounds_time : Z.of_nat rounds * pollInterval = pollTimeout.
Proof. reflexivity. Qed.
Lemma delays_length from ticks : received from ticks = true → (length (delays_from from ticks) <= S (rounds - from))%nat.
Proof.
  revert from. induction ticks as [|k ticks IH]; intros from; cbn [received delays_from]; [cbn; lia|].
  rewrite !andb_true_iff, Nat.ltb_lt, Nat.leb_le. intros [ [H1 H2] H3%IH]. cbn [length]. lia.
Qed.
(** The looks take the whole time, unless one of them ends the wait. *)
Lemma delays_time from ticks : received from ticks = true → foldr Z.add 0 (delays_from from ticks) = pollTimeout - Z.of_nat from * pollInterval.
Proof.
  revert from. induction ticks as [|k ticks IH]; intros from; cbn [received delays_from foldr]; [lia|].
  rewrite !andb_true_iff, Nat.ltb_lt, Nat.leb_le. intros [ [H1 H2] H3%IH]. rewrite H3, Nat2Z.inj_sub by lia. lia.
Qed.
(** What a look decides: nothing, or the end of the wait *)
Definition last_look (r : result bool) : option string := match r with Ok true => None | Ok false => Some ErrWaitTimeout | Err e => Some e end.
(** A wait that makes its looks after the times [ds]: it ends at the first look that is not false, or else at the last one. *)
Definition ends_at (n : nat) (ds : list Z) (cond : W → W * result bool) (w : W) (r : W * option string) : Prop :=
  let look i := cond (looking cond (take i ds) w) in
  (n <= length ds)%nat ∧ (∀ i, (i < n)%nat → (look i).2 = Ok false) ∧ (n = length ds ∨ (look n).2 ≠ Ok false) ∧ r = ((look n).1, last_look (look n).2).
Lemma ends_at_first ds cond w : (cond w).2 ≠ Ok false → ends_at 0 ds cond w ((cond w).1, last_look (cond w).2).
Proof. intros Hn. unfold ends_at. cbn [take looking]. split_and!; [lia|intros i Hi; lia|by right|done]. Qed.
Lemma ends_at_next n d ds cond w r : (cond w).2 = Ok false → ends_at n ds cond (elapse d (cond w).1) r → ends_at (S n) (d :: ds) cond w r.
Proof.
  intros Hf (H1 & H2 & H3 & H4). unfold ends_at. cbn [take looking length] in *. split_and!; [lia| |destruct H3; [left; lia|by right]|done].
  intros [|i] Hi; [exact Hf|]. cbn [take looking]. apply H2. lia.
Qed.
Lemma WaitFor_ends from ticks cond w : (cond w).2 = Ok false → ∃ n, ends_at n (delays_from from ticks) cond w (WaitFor from ticks cond (cond w).1).
Proof.
  revert from w. induction ticks as [|k ticks IH]; intros from w Hf; cbn [WaitFor delays_from].
  - exists 1%nat. set (w1 := elapse _ _). unfold ends_at. cbn [take looking length]. fold w1. split_and!; [lia|intros [|i] Hi; [exact Hf|lia]|by left|].
    by destruct (cond w1) as [w2 [ [|]|e] ].
  - set (w1 := elapse _ _). destruct (cond w1) as [w2 [ [|]|e] ] eqn:E.
    2: { destruct (IH k w1) as [n Hn]; [by rewrite E|]. rewrite E in Hn. exists (S n). by apply ends_at_next. }
    all: exists 1%nat; apply ends_at_next; [exact Hf|]; fold w1; pose proof (ends_at_first (delays_from k ticks) cond w1) as H1; rewrite E in H1; by apply H1.
Qed.
Lemma poll_ends ticks cond w : ∃ n, ends_at n (delays ticks) cond w (poll ticks cond w).
Proof.
  unfold poll. pose proof (ends_at_first (delays ticks) cond w) as H1. pose proof (WaitFor_ends 0 ticks cond w) as H2.
  destruct (cond w) as [w1 [ [|]|e] ]; cbn [fst snd last_look] in *; [exists 0%nat; by apply H1|by apply H2|exists 0%nat; by apply H1].
Qed.
Lemma unmounted_none podName expected w : getUnmountedVolumes podName expected w = [] ↔ ∀ v, v ∈ expected → v ∈ GetMountedVolumesForPod podName w.
Proof.
  unfold getUnmountedVolumes. split.
  - intros Hf v Hv. destruct (decide (v ∈ GetMountedVolumesForPod podName w)) as [|Hn]; [done|].
    assert (v ∈ filter (λ v, v ∉ GetMountedVolumesForPod podName w) expected) as Hx by by apply list_elem_of_filter.
    rewrite Hf in Hx. by apply elem_of_nil in Hx.
  - intros Hall. apply length_zero_iff_nil, length_filter_0. intros v Hv Hn. by apply Hn, Hall.
Qed.

(** C37: Prepare waits until the volumes of a pod are mounted. A pod without volumes is not waited for. Else, whatever ticks are received, there are at most
    402 looks at the volumes, in two minutes: one at once, and one for each of the 401 delays at most. It ends with the first look that
    finds the volumes mounted or an error reported for the pod, or with the last one. It succeeds exactly when in the world of that look every
    volume of the pod is mounted, and fails with the names of those that are not, and why. *)
Theorem prepare_mounts ticks pod volToMount w :
  received 0 ticks = true →
  let expected := GetPodVolumeNames pod in let r := Prepare ticks true (Some pod) volToMount w in
  let cond := verifyVolumesMountedFunc (pod_UID pod) expected in
  let w1 := ReprocessPod (pod_UID pod) (MarkVolumesReportedInUse volToMount w) in
  let ds := delays ticks in let look i := cond (looking cond (take i ds) w1) in
  (length ds <= 401)%nat ∧ foldr Z.add 0 ds = 120 * 10 ^ 9 ∧
  (expected = [] → r = (w, None)) ∧
  (expected ≠ [] → ∃ n, (n <= length ds)%nat ∧ (∀ i, (i < n)%nat → (look i).2 = Ok false) ∧ (n = length ds ∨ (look n).2 ≠ Ok false) ∧ r.1 = (look n).1 ∧
     (r.2 = None ↔ ∀ v, v ∈ expected → v ∈ GetMountedVolumesForPod (pod_UID pod) r.1) ∧
     (∀ e, r.2 = Some e → e = "unmounted volumes=" +:+ go_strings (getUnmountedVolumes (pod_UID pod) expected r.1) +:+
         ", unattached volumes=" +:+ go_strings (getUnattachedVolumes expected r.1) +:+ ": " +:+ default "" (last_look (look n).2))).
Proof.
  intros Ht. cbv zeta. set (expected := GetPodVolumeNames pod). split; [pose proof (delays_length 0 ticks Ht) as Hl; exact Hl|].
  split; [exact (delays_time 0 ticks Ht)|]. unfold Prepare. cbn [negb]. fold expected. case_bool_decide as He; [by split|].
  split; [done|]. intros _. set (w1 := ReprocessPod _ _). set (cond := verifyVolumesMountedFunc _ _).
  destruct (poll_ends ticks cond w1) as (n & H1 & H2 & H3 & Hp). exists n. split; [exact H1|]. split; [exact H2|]. split; [exact H3|].
  set (look := cond (looking cond (take n (delays ticks)) w1)) in *.
  assert (look.2 = Ok true → getUnmountedVolumes (pod_UID pod) expected look.1 = []) as Hok.
  { unfold look. generalize (looking cond (take n (delays ticks)) w1) as w0. intros w0. unfold cond, verifyVolumesMountedFunc.
    destruct (PopPodErrors (pod_UID pod) w0) as [w2 [|e l] ]; cbn; [|done]. intros [= Hb]. by apply bool_decide_eq_true in Hb. }
  rewrite Hp. clearbody look. destruct look as [w2 r]. cbn [fst snd] in *. destruct (last_look r) as [e|] eqn:Er.
  - case_bool_decide as Hu; cbn [fst snd]; (split; [done|]); (split; [rewrite <- unmounted_none; by split|]); [done|by intros e' [= <-] ].
  - assert (r = Ok true) as -> by (destruct r as [ [|]|]; done). cbn [fst snd]. split; [done|]. split; [by rewrite <- unmounted_none, Hok|done].
Qed.

(** A pod without a directory for CSI volumes is never cleaned up: that the directory cannot be read is taken for a failure. *)
Lemma cleanup_without_volumes ticks vh pod w :
  (∀ w, ∃ e, ReadDir (podCSIVolumesDir vh (pod_UID pod)) w = Err e) → ∃ e, (Cleanup ticks true vh (Some pod) w).2 = Some e.
Proof.
  intros Hd. unfold Cleanup. cbn [negb]. set (cond := verifyVolumesUnmountedFunc _ _ _). destruct (poll_ends ticks cond (elapse volumeCleanupWaitTimeout w)) as (n & _ & _ & _ & ->).
  generalize (looking cond (take n (delays ticks)) (elapse volumeCleanupWaitTimeout w)) as w0. intros w0. unfold cond, verifyVolumesUnmountedFunc.
  destruct (PopPodErrors (pod_UID pod) w0) as [w1 [|e l] ]; cbn [fst snd last_look]; [|by eexists].
  destruct (Hd w1) as [e ->]. by eexists.
Qed.
End Manager.
End Manager.

Module StorageExamples.
Import Manager.
(** A world that is its clock: the volume data is mounted after one second, and nothing has a directory. *)
#[export] Instance clock : VolumeAPI Z := {|
  PopPodErrors := λ _ w, (w, []); MarkVolumesReportedInUse := λ _ w, w; ReprocessPod := λ _ w, w; VolumeExists := λ v w, bool_decide (v = "data");
  GetMountedVolumesForPod := λ _ w, if w <? 10 ^ 9 then [] else ["data"]; ReadDir := λ _ _, Err "no such file or directory";
  RemoveAllOneFilesystem := λ _ w, (w, None); elapse := λ d w, w + d
|}.
Definition web : Pod := Samples.pod "u1" "web" (Samples.spec [] [] []).
(** Every tick is received, and only those of every tenth second. *)
Definition all_ticks : list nat := seq 1 400.
Definition slow_ticks : list nat := (λ i, 33 * i)%nat <$> seq 1 12.
Lemma prepare_mounts_witness :
  let r := Prepare (λ _, ["data"]) all_ticks true (Some web) [] 0 in r.2 = None ∧ "data" ∈ GetMountedVolumesForPod "u1" r.1 ∧ length (delays all_ticks) = 401%nat.
Proof.
  cbv zeta. destruct (prepare_mounts (λ _, ["data"]) all_ticks web [] 0) as (_ & _ & _ & H); [vm_compute; reflexivity|].
  destruct H as (n & _ & _ & _ & _ & H & _); [discriminate|].
  assert ((Prepare (λ _, ["data"]) all_ticks true (Some web) [] 0).2 = None) as E by (vm_compute; reflexivity).
  split; [exact E|]. split; [apply H; [exact E|left]|vm_compute; reflexivity].
Defined.
(** With every tick received a volume that is never mounted is looked for 402 times. *)
#[export] Instance counter : VolumeAPI nat := {|
  PopPodErrors := λ _ w, (S w, []); MarkVolumesReportedInUse := λ _ w, w; ReprocessPod := λ _ w, w; VolumeExists := λ v w, false;
  GetMountedVolumesForPod := λ _ w, []; ReadDir := λ _ _, Err ""; RemoveAllOneFilesystem := λ _ w, (w, None); elapse := λ d w, w
|}.
Example looks_made : (Prepare (W := nat) (λ _, ["data"]) all_ticks true (Some web) [] 0%nat).1 = 402%nat ∧
  (Prepare (W := nat) (λ _, ["data"]) slow_ticks true (Some web) [] 0%nat).1 = 14%nat.
Proof. by split; vm_compute. Qed.
Example never_mounted :
  (Prepare (λ _, ["data"; "other"]) all_ticks true (Some web) [] 0).2 =
    Some "unmounted volumes=[other], unattached volumes=[other]: timed out waiting for the condition".
Proof. by vm_compute. Qed.
Example nothing_to_clean :
  (Cleanup slow_ticks true (VolumeHost.newVolumeHost "/var" "node" "/plugins") (Some web) 0).2 = Some "no such file or directory".
Proof. by vm_compute. Qed.
End StorageExamples.
