(* ===== verification/CsiBase.v ===== *)
(** * The CSI plugin: errors, the outside, volumes and paths

    src/pkg/virtualnode/storage/csi: csi_util.go and types.go, with what the rest of the plugin shares. The plugin is aranya's copy of that of
    Kubernetes, run on the host of aranya in the place of the kubelet (virtualnode/storage/volume_host.go). It talks to three parties, each
    of them a class: the host (files and mounts), the node services of the CSI drivers (over gRPC), and the API server. JSON is a class with the
    law that decoding undoes encoding; the hash of names is an argument. *)
From S2P Require Import Prelude Effects GoNet StorageManager.
Open Scope Z_scope.

(** ** Errors of volume operations *)
(** volumetypes.IsOperationFinishedError *)
Definition IsOperationFinishedError (e : Error) : bool := negb (is_kind UncertainProgress e) && negb (is_kind TransientFailure e).

(** ** The objects of the API *)
Record SecretReference := { sr_Namespace : string; sr_Name : string }.
Record CSIVolumeSource := {
  vs_Driver : string; vs_ReadOnly : option bool; vs_FSType : option string; vs_VolumeAttributes : option (gmap string string);
  vs_NodePublishSecretRef : option string
}.
Record CSIPersistentVolumeSource := {
  pvs_Driver : string; pvs_VolumeHandle : string; pvs_FSType : string; pvs_VolumeAttributes : option (gmap string string);
  pvs_NodePublishSecretRef : option SecretReference; pvs_NodeStageSecretRef : option SecretReference
}.
(** Access modes and volume modes are strings. That a slice is nil matters to the code: [None]. *)
Record PersistentVolumeSpec := {
  pvsp_CSI : option CSIPersistentVolumeSource; pvsp_AccessModes : option (list string); pvsp_MountOptions : option (list string);
  pvsp_VolumeMode : option string
}.
Record PersistentVolume := { pv_Name : string; pv_Spec : PersistentVolumeSpec }.
Record Volume := { vol_Name : string; vol_CSI : option CSIVolumeSource }.
(** volume.Spec *)
Record Spec := { spec_Volume : option Volume; spec_PersistentVolume : option PersistentVolume; spec_ReadOnly : bool; spec_InlineVolumeSpecForCSIMigration : bool }.
Definition spec_Name (spec : Spec) : string :=
  match spec_Volume spec with
  | Some v => vol_Name v
  | None => match spec_PersistentVolume spec with Some pv => pv_Name pv | None => "" end
  end.
Record CSIDriver := { drv_AttachRequired : option bool; drv_PodInfoOnMount : option bool; drv_VolumeLifecycleModes : list string }.
Record VolumeAttachment := {
  va_Name : string; va_ResourceVersion : string; va_NodeName : string; va_Attacher : string;
  va_PersistentVolumeName : option string; va_InlineVolumeSpec : option PersistentVolumeSpec;
  va_DeletionTimestamp : option Z; va_Attached : bool; va_AttachError : option string; va_DetachError : option string;
  va_AttachmentMetadata : option (gmap string string)
}.
Definition ReadWriteOnce : string := "ReadWriteOnce".
Definition ReadOnlyMany : string := "ReadOnlyMany".
Definition ReadWriteMany : string := "ReadWriteMany".
Definition VolumeLifecyclePersistent : string := "Persistent".
Definition VolumeLifecycleEphemeral : string := "Ephemeral".
Definition PersistentVolumeFilesystem : string := "Filesystem".
Definition PersistentVolumeBlock : string := "Block".

(** ** The outside *)

(** What a watch of a VolumeAttachment delivers (the object is nil when it is of another type), until the channel is closed *)
Inductive Event := Added (o : option VolumeAttachment) | Modified (o : option VolumeAttachment) | Deleted | WatchError | Bookmark | Closed.
Class CsiKube (W : Type) := {
  va_Create : VolumeAttachment → W → W * option Error;
  va_Get : string → W → VolumeAttachment + Error;
  va_Delete : string → W → W * option Error;
  va_Watch : string → string → W → W * (list Event + Error);   (** the events the loop takes before its timer fires *)
  pv_Get : string → W → PersistentVolume + Error;
  secret_Get : SecretReference → W → gmap string string + Error;
  csiDriver_Get : string → W → CSIDriver + Error;              (** the lister's *)
  WaitForCacheSync : W → option Error
}.
Class CsiHost (W : Type) := {
  os_MkdirAll : string → W → W * option Error;
  os_Create : string → W → W * option Error;                  (** the file is there, and empty *)
  os_Write : string → string → W → W * option Error;          (** to the file just created *)
  os_ReadFile : string → W → string + Error;
  os_Remove : string → W → W * option Error;
  os_RemoveAll : string → W → W * option Error;
  os_Stat : string → W → option Error;
  removeall_OneFilesystem : string → W → W * option Error;
  IsLikelyNotMountPoint : string → W → bool * option Error;
  GetMountRefs : string → W → list string + Error;
  isCorruptedDir : string → W → bool;                         (** mount.PathExists fails with an error that is IsCorruptedMnt *)
  GetSELinuxSupport : string → W → bool * option Error;
  SetVolumeOwnership : string → Z → W → W * option Error
}.
(** The documented behaviour of files: what was written is read; what was removed, or was not there to be removed, is not there. *)
Definition missing {W} `{CsiHost W} (p : string) (w : W) : Prop := from_option (is_kind NotExist) false (os_Stat p w) = true.
Class CsiHostLaws (W : Type) `{CsiHost W} := {
  write_read p s w w1 w2 : os_Create p w = (w1, None) → os_Write p s w1 = (w2, None) → os_ReadFile p w2 = inl s;
  remove_missing p w w' e : os_Remove p w = (w', e) → from_option (is_kind NotExist) true e = true → missing p w';
  remove_keeps_missing p q w : missing q w → missing q (os_Remove p w).1
}.
(** encoding/json of a map of strings *)
Class VolumeJSON := {
  json_Encode : gmap string string → string; json_Decode : string → gmap string string + Error;
  json_decode_encode m : json_Decode (json_Encode m) = inl m
}.

(** ** csi_util.go *)
Definition CSIPluginName : string := "kubernetes.io/csi".
Definition log (msg : string) : string := CSIPluginName +:+ ": " +:+ msg.
Definition volDataFileName : string := "vol_data.json".
Definition specVolID : string := "specVolID".
Definition volHandle : string := "volumeHandle".
Definition key_driverName : string := "driverName".
Definition key_nodeName : string := "nodeName".
Definition attachmentID : string := "attachmentID".
Definition key_volumeLifecycleMode : string := "volumeLifecycleMode".

Section Util.
Context {W : Type} `{CsiKube W} `{CsiHost W} `{VolumeJSON}.
Definition getCredentialsFromSecret (secretRef : SecretReference) : M W (gmap string string) :=
  r ← read (secret_Get secretRef);
  match r with
  | inl data => mret data
  | inr e => fail (New (log ("failed to find the secret " +:+ sr_Name secretRef +:+ " in the namespace " +:+ sr_Namespace secretRef +:+ " with error: " +:+ e_Text e)))
  end.
Definition saveVolumeData (dir fileName : string) (data : gmap string string) : M W unit :=
  let dataFilePath := Join [dir; fileName] in
  prefixed (log ("failed to save volume data file " +:+ dataFilePath +:+ ": ")) (_ ← act (os_Create dataFilePath); act (os_Write dataFilePath (json_Encode data))).
Definition loadVolumeData (dir fileName : string) : M W (gmap string string) :=
  let dataFileName := Join [dir; fileName] in
  file ← prefixed (log ("failed to open volume data file [" +:+ dataFileName +:+ "]: ")) (r ← read (os_ReadFile dataFileName); check r);
  prefixed (log ("failed to parse volume data file [" +:+ dataFileName +:+ "]: ")) (check (json_Decode file)).

(** What was saved is what is loaded. *)
Lemma load_saved `{!CsiHostLaws W} dir fileName data w w' :
  saveVolumeData dir fileName data w = Ret (w', inl tt) → loadVolumeData dir fileName w' = Ret (w', inl data).
Proof.
  unfold saveVolumeData, loadVolumeData, prefixed, act, read, check, mbind, M_bind. set (p := Join [dir; fileName]).
  destruct (os_Create p w) as [w1 [e|] ] eqn:E1; [done|]. destruct (os_Write p (json_Encode data) w1) as [w2 [e|] ] eqn:E2; [done|].
  intros [= <-]. rewrite (write_read _ _ _ _ _ E1 E2). by rewrite json_decode_encode.
Qed.
(** Loading does not change the world, nor does it panic. *)
Lemma load_pure dir fileName w : ∃ r, loadVolumeData dir fileName w = Ret (w, r).
Proof.
  unfold loadVolumeData, prefixed, read, check, mbind, M_bind. destruct (os_ReadFile _ w) as [f|e]; [|by eexists].
  destruct (json_Decode f); by eexists.
Qed.
End Util.

(** ** Which volume a specification is of

    The code returns two pointers and an error, exactly one of the three not nil. *)
Definition hasReadWriteOnce (modes : option (list string)) : bool := bool_decide (ReadWriteOnce ∈ default [] modes).
Section Sources.
Context (CSIInlineVolume : bool).   (** the feature gate *)
Inductive Source := Inline (s : CSIVolumeSource) | Persistent (s : CSIPersistentVolumeSource).
Definition getSourceFromSpec (spec : option Spec) : Source + Error :=
  match spec with
  | None => inr (New "volume.Spec nil")
  | Some spec =>
      match spec_Volume spec, spec_PersistentVolume spec with
      | Some _, Some _ => inr (New "volume.Spec has both volume and persistent volume sources")
      | v, pv =>
          match v ≫= vol_CSI, pv ≫= λ pv, pvsp_CSI (pv_Spec pv) with
          | Some csi, p => if CSIInlineVolume then inl (Inline csi)
                           else match p with Some csi => inl (Persistent csi) | None => inr (New "volume source not found in volume.Spec") end
          | None, Some csi => inl (Persistent csi)
          | None, None => inr (New "volume source not found in volume.Spec")
          end
      end
  end.
Definition getPVSourceFromSpec (spec : option Spec) : CSIPersistentVolumeSource + Error :=
  match getSourceFromSpec spec with
  | inr e => inr e
  | inl (Inline _) => inr (New "unexpected api.CSIVolumeSource found in volume.Spec")
  | inl (Persistent s) => inl s
  end.
Definition getCSISourceFromSpec (spec : option Spec) : CSIPersistentVolumeSource + Error := getPVSourceFromSpec spec.
(** A nil specification is followed. *)
Definition getReadOnlyFromSpec (spec : Spec) : bool + Error :=
  match spec_PersistentVolume spec ≫= λ pv, pvsp_CSI (pv_Spec pv) with
  | Some _ => inl (spec_ReadOnly spec)
  | None => inr (New "CSIPersistentVolumeSource not defined in spec")
  end.

(** A persistent source comes with its persistent volume, and without an inline volume. *)
Lemma pv_source spec s : getPVSourceFromSpec spec = inl s →
  ∃ sp pv, spec = Some sp ∧ spec_PersistentVolume sp = Some pv ∧ pvsp_CSI (pv_Spec pv) = Some s ∧ spec_Volume sp = None.
Proof.
  unfold getPVSourceFromSpec, getSourceFromSpec. destruct spec as [ [v p ro mi] |]; [|done]. cbn.
  destruct v as [v|], p as [p|]; cbn; try done.
  - destruct (vol_CSI v) as [c|]; [destruct CSIInlineVolume; done|done].
  - destruct (pvsp_CSI (pv_Spec p)) as [c|] eqn:E; [|done]. intros [= <-]. eauto 10.
Qed.
Lemma pv_source_get v pv s ro mi :
  v = None → pvsp_CSI (pv_Spec pv) = Some s →
  getSourceFromSpec (Some {| spec_Volume := v; spec_PersistentVolume := Some pv; spec_ReadOnly := ro; spec_InlineVolumeSpecForCSIMigration := mi |}) = inl (Persistent s).
Proof. intros -> E. unfold getSourceFromSpec. cbn. by rewrite E. Qed.
End Sources.

(** ** Paths

    filepath.Dir and filepath.Base of a clean path; the directories of block devices. *)
Definition Dir (path : string) : string := match cut_last slash path with Some ("", _) => "/" | Some (dir, _) => dir | None => "." end.
Definition Base (path : string) : string := match cut_last slash path with Some (_, base) => base | None => path end.
Definition getVolumePluginDir (specVolID : string) (host : VolumeHost.volumeHost) : string :=
  Join [VolumeHost.GetVolumeDevicePluginDir host CSIPluginName; EscapeQualifiedName specVolID].
Definition getVolumeDevicePluginDir (specVolID : string) (host : VolumeHost.volumeHost) : string := Join [getVolumePluginDir specVolID host; "dev"].
Definition getVolumeDeviceDataDir (specVolID : string) (host : VolumeHost.volumeHost) : string := Join [getVolumePluginDir specVolID host; "data"].
Definition GetCSIMounterPath (path : string) : string := Join [path; "mount"].
Definition getTargetPath (uid specVolumeID : string) (host : VolumeHost.volumeHost) : string :=
  VolumeHost.GetPodVolumeDir host uid (EscapeQualifiedName CSIPluginName) (EscapeQualifiedName specVolumeID).

Lemma str_app_inv_l a b c : a +:+ b = a +:+ c → b = c.
Proof. induction a as [|x a IH]; rewrite ?str_app_nil, ?str_app_cons; [done|]. intros [= E]. auto. Qed.
Lemma prefixb_spec p s : prefixb p s = true → ∃ t, s = p +:+ t.
Proof.
  revert s. induction p as [|a p IH]; intros s; cbn; [by exists s|]. destruct s as [|b s]; [done|].
  intros [->%bool_decide_eq_true [t ->]%IH]%andb_prop. exists t. by rewrite str_app_cons.
Qed.
Lemma cut_last_join c a b : has_char c b = false → cut_last c (a +:+ String c b) = Some (a, b).
Proof.
  intros Hb. induction a as [|x a IH]; rewrite ?str_app_nil, ?str_app_cons; cbn.
  - assert (cut_last c b = None) as ->.
    { clear -Hb. unfold has_char in Hb. apply bool_decide_eq_false in Hb. induction b as [|x b IH]; [done|]. cbn in *.
      case_decide; [exfalso; apply Hb; by eexists|]. rewrite IH; [done|]. intros [ [l r] E]. apply Hb. rewrite E. by eexists. }
    by rewrite decide_True.
  - by rewrite IH.
Qed.
Lemma Dir_Join d b : d ≠ "" → VolumeHost.segment b → Dir (Join [d; b]) = d ∧ Base (Join [d; b]) = b.
Proof.
  intros Hd [Hb Hs]. unfold Join. rewrite !filter_cons, !decide_True by done. cbn [filter list_filter join].
  change (d +:+ "/" +:+ b) with (d +:+ String slash b). unfold Dir, Base. rewrite cut_last_join by done. destruct d; [done|by split].
Qed.
Lemma Join_ne d l : d ≠ "" → Join (d :: l) ≠ "".
Proof. intros Hd. unfold Join. rewrite filter_cons, decide_True by done. destruct (filter _ l); [done|]. cbn. destruct d; [done|]. by rewrite str_app_cons. Qed.

(** Implementing an interface: every method of it, by name and signature *)
Definition Method : Type := string * string.
Definition implements (methods interface : list Method) : bool := forallb (λ m, bool_decide (m ∈ methods)) interface.

(** ** A world for the examples: files and directories, mount points, the objects of the API, and the calls made *)
Module CsiSamples.
Record World := {
  files : gmap string (option string);    (** a directory is [None] *)
  mounted : list string; attachments : gmap string VolumeAttachment; volumes : gmap string PersistentVolume;
  drivers : gmap string CSIDriver; events : list Event; calls : list string
}.
Definition with_files (f : gmap string (option string)) (w : World) : World := {|
  files := f; mounted := mounted w; attachments := attachments w; volumes := volumes w; drivers := drivers w; events := events w; calls := calls w |}.
Definition with_attachments (a : gmap string VolumeAttachment) (w : World) : World := {|
  files := files w; mounted := mounted w; attachments := a; volumes := volumes w; drivers := drivers w; events := events w; calls := calls w |}.
Definition called (c : string) (w : World) : World := {|
  files := files w; mounted := mounted w; attachments := attachments w; volumes := volumes w; drivers := drivers w; events := events w; calls := calls w ++ [c] |}.
Definition set_mounted (m : list string) (w : World) : World := {|
  files := files w; mounted := m; attachments := attachments w; volumes := volumes w; drivers := drivers w; events := events w; calls := calls w |}.
Definition empty : World := {| files := ∅; mounted := []; attachments := ∅; volumes := ∅; drivers := ∅; events := []; calls := [] |}.
Definition err (k : ErrKind) (text : string) : Error := {| e_Kind := k; e_Text := text |}.
Definition no_such_file : Error := err NotExist "no such file or directory".
Definition or_err {A} (o : option A) (e : Error) : A + Error := match o with Some a => inl a | None => inr e end.
#[export] Instance sample_kube : CsiKube World := {|
  va_Create := λ a w, match attachments w !! va_Name a with
                      | Some _ => (w, Some (err AlreadyExists "already exists"))
                      | None => (with_attachments (<[va_Name a := a]> (attachments w)) w, None)
                      end;
  va_Get := λ name w, or_err (attachments w !! name) (err NotFound "not found");
  va_Delete := λ name w, match attachments w !! name with
                         | Some _ => (with_attachments (delete name (attachments w)) w, None)
                         | None => (w, Some (err NotFound "not found"))
                         end;
  va_Watch := λ _ _ w, (w, inl (events w));
  pv_Get := λ name w, or_err (volumes w !! name) (err NotFound "not found");
  secret_Get := λ _ _, inr (err NotFound "not found");
  csiDriver_Get := λ name w, or_err (drivers w !! name) (err NotFound "not found");
  WaitForCacheSync := λ _, None
|}.
Definition below (p : string) (f : gmap string (option string)) : bool := existsb (λ '(q, _), prefixb (p +:+ "/") q) (map_to_list f).
#[export] Instance sample_host : CsiHost World := {|
  os_MkdirAll := λ p w, (with_files (<[p := None]> (files w)) w, None);
  os_Create := λ p w, (with_files (<[p := Some ""]> (files w)) w, None);
  os_Write := λ p s w, (with_files (<[p := Some s]> (files w)) w, None);
  os_ReadFile := λ p w, match files w !! p with Some (Some s) => inl s | _ => inr no_such_file end;
  os_Remove := λ p w, match files w !! p with
                      | None => (w, Some no_such_file)
                      | Some _ => if below p (files w) || bool_decide (p ∈ mounted w) then (w, Some (New "directory not empty"))
                                  else (with_files (delete p (files w)) w, None)
                      end;
  os_RemoveAll := λ p w, (with_files (filter (λ q, negb (bool_decide (q.1 = p)) && negb (prefixb (p +:+ "/") q.1) = true) (files w)) w, None);
  os_Stat := λ p w, match files w !! p with Some _ => None | None => Some no_such_file end;
  removeall_OneFilesystem := λ p w, (with_files (filter (λ q, negb (bool_decide (q.1 = p)) && negb (prefixb (p +:+ "/") q.1) = true) (files w)) w, None);
  IsLikelyNotMountPoint := λ p w, match files w !! p with None => (true, Some no_such_file) | Some _ => (negb (bool_decide (p ∈ mounted w)), None) end;
  GetMountRefs := λ _ _, inl [];
  isCorruptedDir := λ _ _, false;
  GetSELinuxSupport := λ _ _, (false, None);
  SetVolumeOwnership := λ p _ w, (called ("own " +:+ p) w, None)
|}.
#[export] Instance sample_host_laws : CsiHostLaws World.
Proof.
  split.
  - intros p s w w1 w2. cbn. intros [= <-] [= <-]. cbn. by rewrite lookup_insert_eq.
  - intros p w w' e. unfold missing. cbn. destruct (files w !! p) as [x|] eqn:E.
    + destruct (below _ _ || _); [intros [= <- <-]; done|]. intros [= <- <-] _. cbn. by rewrite lookup_delete_eq.
    + intros [= <- <-] _. by rewrite E.
  - intros p q w. unfold missing. cbn. destruct (files w !! p) as [x|] eqn:E; [|done]. destruct (below _ _ || _); [done|]. cbn.
    destruct (decide (p = q)) as [->|Hn]; [by rewrite lookup_delete_eq|by rewrite lookup_delete_ne].
Qed.
(** A code for maps in the place of JSON *)
Fixpoint bits (p : positive) : string := match p with xH => "" | xO p => "0" +:+ bits p | xI p => "1" +:+ bits p end.
Fixpoint unbits (s : string) : positive :=
  match s with EmptyString => xH | String a s => if decide (a = Ascii.ascii_of_nat 48) then xO (unbits s) else xI (unbits s) end.
Definition encode_map (m : gmap string string) : string := bits (encode m).
Definition decode_map (s : string) : gmap string string + Error := or_err (decode (unbits s)) (New "unexpected end of JSON input").
Lemma decode_encode_map m : decode_map (encode_map m) = inl m.
Proof.
  unfold decode_map, encode_map.
  assert (∀ p, unbits (bits p) = p) as -> by (intros p; induction p as [p IH|p IH|]; cbn; rewrite ?str_app_cons, ?str_app_nil; cbn; by rewrite ?IH).
  by rewrite decode_encode.
Qed.
#[export] Instance sample_json : VolumeJSON := {| json_Encode := encode_map; json_Decode := decode_map; json_decode_encode := decode_encode_map |}.
Definition pvsource : CSIPersistentVolumeSource := {|
  pvs_Driver := "disk.example.com"; pvs_VolumeHandle := "vol-1"; pvs_FSType := "ext4"; pvs_VolumeAttributes := Some {["tier" := "fast"]};
  pvs_NodePublishSecretRef := None; pvs_NodeStageSecretRef := None |}.
Definition pv : PersistentVolume := {|
  pv_Name := "pv-1"; pv_Spec := {| pvsp_CSI := Some pvsource; pvsp_AccessModes := Some [ReadWriteOnce]; pvsp_MountOptions := None; pvsp_VolumeMode := None |} |}.
Definition pvspec : Spec := {| spec_Volume := None; spec_PersistentVolume := Some pv; spec_ReadOnly := false; spec_InlineVolumeSpecForCSIMigration := false |}.
Definition inlinespec : Spec := {|
  spec_Volume := Some {| vol_Name := "scratch"; vol_CSI := Some {| vs_Driver := "disk.example.com"; vs_ReadOnly := None; vs_FSType := Some "ext4";
                                                               vs_VolumeAttributes := None; vs_NodePublishSecretRef := None |} |};
  spec_PersistentVolume := None; spec_ReadOnly := false; spec_InlineVolumeSpecForCSIMigration := false |}.
Definition vhost : VolumeHost.volumeHost := VolumeHost.newVolumeHost "/var/lib/aranya" "dev-0" "/var/lib/kubelet/plugins".
End CsiSamples.
