(* ===== verification/CsiClient.v ===== *)
(** * The CSI plugin: its drivers and their clients

    src/pkg/virtualnode/storage/csi: csi_drivers_store.go, csi_client.go, csi_metrics.go and the registration of drivers in csi_plugin.go;
    the generic versions of k8s.io/apimachinery/pkg/util/version (vendored) with their order. The services of the drivers and the manager of the
    CSINode object are classes. *)
From S2P Require Import Prelude Effects GoNet K8s StorageManager CsiBase.
Open Scope Z_scope.

(** ** Versions: at least two numbers with dots between, and anything after them (util/version) *)
Module Version.
(** The components, the most significant first *)
Definition Version : Type := list Z.
Definition is_space (a : Ascii.ascii) : bool := bool_decide (Ascii.nat_of_ascii a ∈ [9; 10; 12; 13; 32]%nat).
Definition is_digit (a : Ascii.ascii) : bool := bool_decide (is_Some (digit a)).
Definition starts_with_digit (s : string) : bool := match s with String a _ => is_digit a | EmptyString => false end.
Fixpoint skip_spaces (s : string) : string := match s with String a s' => if is_space a then skip_spaces s' else s | EmptyString => s end.
Definition skip_v (s : string) : string := match s with String a s' => if decide (a = Ascii.ascii_of_nat 118) then s' else s | EmptyString => s end.
(** [0-9]+(\.[0-9]+)*, taken from the front of text that starts with a digit, and the rest *)
Fixpoint numbers (s : string) : string * string :=
  match s with
  | String a s' =>
      if is_digit a || (bool_decide (a = dot) && starts_with_digit s') then let '(n, rest) := numbers s' in (String a n, rest) else ("", s)
  | EmptyString => ("", s)
  end.
(** What versionMatchRE matches: the numbers; the rest may not hold a new line. *)
Definition versionMatch (str : string) : option string :=
  let s := skip_v (skip_spaces str) in
  if negb (starts_with_digit s) then None
  else let '(n, rest) := numbers s in if has_char (Ascii.ascii_of_nat 10) rest then None else Some n.
Definition component (str : string) (first : bool) (comp : string) : Z + Error :=
  if first && prefixb "0" comp && negb (bool_decide (comp = "0"))
  then inr (New ("illegal zero-prefixed version component " +:+ quote comp +:+ " in " +:+ quote str))
  else match ParseUint 64 comp with
       | Some n => inl n
       | None => inr (New ("illegal non-numeric version component " +:+ quote comp +:+ " in " +:+ quote str +:+
                           ": strconv.ParseUint: parsing " +:+ quote comp +:+ ": value out of range"))
       end.
Fixpoint components (str : string) (first : bool) (comps : list string) : Version + Error :=
  match comps with
  | [] => inl []
  | comp :: comps =>
      match component str first comp with
      | inr e => inr e
      | inl n => match components str false comps with inr e => inr e | inl v => inl (n :: v) end
      end
  end.
Definition ParseGeneric (str : string) : Version + Error :=
  match versionMatch str with
  | None => inr (New ("could not parse " +:+ quote str +:+ " as version"))
  | Some n =>
      let comps := split_on dot n in
      if bool_decide (length comps < 2)%nat then inr (New ("illegal version string " +:+ quote str)) else components str true comps
  end.
Definition Major (v : Version) : Z := default 0 (head v).
Definition to_string (v : Version) : string := join "." (utoa <$> v).
Definition onlyZeros (l : Version) : bool := forallb (Z.eqb 0) l.
Fixpoint compareInternal (v other : Version) : Z :=
  match v, other with
  | a :: v, b :: other => if b <? a then 1 else if a <? b then -1 else compareInternal v other
  | v, [] => if onlyZeros v then 0 else 1
  | [], other => if onlyZeros other then 0 else -1
  end.
Definition LessThan (v other : Version) : bool := compareInternal v other =? -1.

Example parse_1 : ParseGeneric " v1.2.0-alpha.1 " = inl [1; 2; 0].
Proof. by vm_compute. Qed.
Example parse_2 : ParseGeneric "1" = inr (New ("illegal version string " +:+ quote "1")).
Proof. by vm_compute. Qed.
Example parse_3 : ParseGeneric "01.2" = inr (New ("illegal zero-prefixed version component " +:+ quote "01" +:+ " in " +:+ quote "01.2")).
Proof. by vm_compute. Qed.

(** The order: a version is a sequence of numbers that goes on with zeros. *)
Definition nonneg (v : Version) : Prop := Forall (λ a, 0 <= a) v.
Definition zeros_like (v : Version) : Version := replicate (length v) 0.
Lemma compare_zeros v : nonneg v → compareInternal [] v = if onlyZeros v then 0 else -1.
Proof. by destruct v. Qed.
Lemma compare_nil_r v : compareInternal v [] = if onlyZeros v then 0 else 1.
Proof. by destruct v. Qed.
Lemma compare_irrefl v : compareInternal v v = 0.
Proof. induction v as [|a v IH]; [done|]. cbn. by rewrite Z.ltb_irrefl. Qed.
(** A comparison is less, equal or greater, and comparing the other way round is its opposite. *)
Lemma compare_cases v w : compareInternal v w ∈ [ -1; 0; 1].
Proof.
  revert w. induction v as [|a v IH]; intros [|b w]; cbn; [set_solver|destruct (_ && _); set_solver|destruct (_ && _); set_solver|].
  destruct (b <? a); [set_solver|]. destruct (a <? b); [set_solver|apply IH].
Qed.
Lemma less_nil v : nonneg v → LessThan v [] = false.
Proof. intros _. unfold LessThan. rewrite compare_nil_r. by destruct (onlyZeros v). Qed.
Lemma not_less_zeros v w : nonneg v → onlyZeros w = true → LessThan v w = false.
Proof.
  unfold LessThan. revert w. induction v as [|a v IH]; intros w Hv Hz.
  - destruct w as [|b w]; [done|]. unfold compareInternal. by rewrite Hz.
  - destruct w as [|b w]; [rewrite compare_nil_r; by destruct (onlyZeros (a :: v))|].
    apply andb_prop in Hz as [Hb Hz]. apply Z.eqb_eq in Hb as <-. inversion Hv; subst. cbn. destruct (0 <? a) eqn:E; [done|].
    destruct (a <? 0) eqn:E2; [bool_to_Z; lia|]. by apply IH.
Qed.
Lemma less_trans u v w : nonneg u → nonneg v → nonneg w → LessThan u v = true → LessThan v w = true → LessThan u w = true.
Proof.
  revert v w. induction u as [|a u IH]; intros v w Hu Hv Hw H1 H2.
  - destruct (onlyZeros w) eqn:Hz; [by rewrite not_less_zeros in H2|]. unfold LessThan. rewrite compare_zeros by done. by rewrite Hz.
  - destruct v as [|b v]; [by rewrite less_nil in H1|]. destruct w as [|c w]; [by rewrite less_nil in H2|].
    apply Forall_cons in Hu as [_ Hu], Hv as [_ Hv], Hw as [_ Hw]. unfold LessThan in *. cbn [compareInternal] in *.
    destruct (Z.ltb_spec b a); [done|]. destruct (Z.ltb_spec c b); [done|]. destruct (Z.ltb_spec c a); [lia|].
    destruct (Z.ltb_spec a c); [done|]. assert (a = b ∧ b = c) as [-> ->] by lia. rewrite Z.ltb_irrefl in *. by apply (IH v w).
Qed.
Lemma less_major u v : LessThan u v = false → Major v <= Major u ∨ u = [] ∨ v = [].
Proof.
  destruct u as [|a u], v as [|b v]; [auto..|]. unfold LessThan. cbn. destruct (b <? a) eqn:E; bool_to_Z; [lia|].
  destruct (a <? b) eqn:E2; bool_to_Z; [done|lia].
Qed.
Lemma parse_digits_nonneg s n m : 0 <= n → parse_digits n s = Some m → 0 <= m.
Proof.
  revert n. induction s as [|a s IH]; intros n Hn; cbn; [by intros [= <-]|]. unfold digit at 1. case_match; cbn; [|done]. bool_to_Z.
  intros Hp. eapply IH; [|exact Hp]. lia.
Qed.
Lemma ParseUint_nonneg bits s n : ParseUint bits s = Some n → 0 <= n.
Proof.
  unfold ParseUint, parse_uint. destruct s as [|a s]; [done|]. destruct (parse_digits 0 (String a s)) as [m|] eqn:E; cbn; [|done].
  destruct (_ <? _); [|done]. intros [= <-]. by eapply parse_digits_nonneg.
Qed.
Lemma components_nonneg str first comps v : components str first comps = inl v → nonneg v ∧ length v = length comps.
Proof.
  revert first v. induction comps as [|c comps IH]; intros first v; cbn; [intros [= <-]; by split; [constructor|]|].
  unfold component. destruct (_ && _); [done|]. destruct (ParseUint 64 c) as [n|] eqn:E; [|done].
  destruct (components str false comps) as [v'|e] eqn:Ev; [|done]. intros [= <-]. destruct (IH _ _ Ev) as [H1 H2].
  split; [|cbn; lia]. constructor; [by eapply ParseUint_nonneg|done].
Qed.
Lemma ParseGeneric_valid s v : ParseGeneric s = inl v → nonneg v ∧ v ≠ [].
Proof.
  unfold ParseGeneric. destruct (versionMatch s) as [n|]; [|done]. case_bool_decide as Hl; [done|]. intros Hc.
  destruct (components_nonneg _ _ _ _ Hc) as [Hn He]. split; [done|]. intros ->. cbn in He. lia.
Qed.
End Version.

(** ** The registered drivers (csi_drivers_store.go), under a mutex *)
Module DriversStore.
Import Version.
Record Driver := { endpoint : string; highestSupportedVersion : Version }.
#[export] Instance Driver_eq : EqDecision Driver.
Proof. solve_decision. Defined.
Notation DriversStore := (gmap string Driver).
Definition Get (driverName : string) (s : DriversStore) : option Driver := s !! driverName.
Definition Set_ (driverName : string) (driver : Driver) (s : DriversStore) : DriversStore := <[driverName := driver]> s.
Definition Delete (driverName : string) (s : DriversStore) : DriversStore := delete driverName s.
Definition Clear (s : DriversStore) : DriversStore := ∅.
End DriversStore.

(** ** The node service of a driver, as the code calls it *)
Inductive AccessMode := SINGLE_NODE_WRITER | MULTI_NODE_READER_ONLY | MULTI_NODE_MULTI_WRITER | AccessMode_UNKNOWN.
Inductive AccessType := BlockVolume | MountVolume (FsType : string) (MountFlags : list string).
Inductive Capability := RPC_UNKNOWN | STAGE_UNSTAGE_VOLUME | GET_VOLUME_STATS | EXPAND_VOLUME.
#[export] Instance Capability_eq : EqDecision Capability.
Proof. solve_decision. Defined.
Definition strings_map : Type := option (gmap string string).
Record NodeGetInfoResponse := { ni_NodeId : string; ni_MaxVolumesPerNode : Z; ni_AccessibleTopology : strings_map }.
Record NodePublishVolumeRequest := {
  np_VolumeId : string; np_TargetPath : string; np_StagingTargetPath : string; np_Readonly : bool; np_PublishContext : strings_map;
  np_VolumeContext : strings_map; np_Secrets : gmap string string; np_AccessMode : AccessMode; np_AccessType : AccessType
}.
Record NodeStageVolumeRequest := {
  ns_VolumeId : string; ns_StagingTargetPath : string; ns_PublishContext : strings_map; ns_VolumeContext : strings_map;
  ns_Secrets : gmap string string; ns_AccessMode : AccessMode; ns_AccessType : AccessType
}.
Inductive UsageUnit := UsageUnknown | BYTES | INODES.
Record VolumeUsage := { us_Unit : UsageUnit; us_Available : Z; us_Total : Z; us_Used : Z }.
(** The first argument is the address; an error is the status gRPC makes of it, whose type is none that Kubernetes looks at. *)
Class CsiNode (W : Type) := {
  node_Dial : string → W → option string;
  node_GetInfo : string → W → W * (NodeGetInfoResponse + string);
  node_GetCapabilities : string → W → W * (list Capability + string);
  node_PublishVolume : string → NodePublishVolumeRequest → W → W * option string;
  node_UnpublishVolume : string → string → string → W → W * option string;      (** volume id, target path *)
  node_StageVolume : string → NodeStageVolumeRequest → W → W * option string;
  node_UnstageVolume : string → string → string → W → W * option string;        (** volume id, staging path *)
  node_ExpandVolume : string → string → string → Z → W → W * (Z + string);      (** volume id, path, required bytes *)
  node_GetVolumeStats : string → string → string → W → W * (list (option VolumeUsage) + string)
}.
Definition status_err (r : option string) : option Error := New <$> r.
Definition status_sum {A} (r : A + string) : A + Error := match r with inl a => inl a | inr e => inr (New e) end.

(** A driver asked what it can do, or to stage a volume, leaves the files alone that are not in the directory it stages to. *)
Definition inside (dir p : string) : bool := bool_decide (p = dir) || prefixb (dir +:+ "/") p.
Class CsiNodeLaws (W : Type) `{CsiNode W} `{CsiHost W} := {
  capabilities_keep a w p : os_ReadFile p (node_GetCapabilities a w).1 = os_ReadFile p w;
  stage_keeps a r w p : inside (ns_StagingTargetPath r) p = false → os_ReadFile p (node_StageVolume a r w).1 = os_ReadFile p w
}.

(** ** csi_client.go *)
Module Client.
Import DriversStore.
(** [nodeV1ClientCreator]: whether there is one; what it does is newV1NodeClient. *)
Record csiDriverClient := { driverName : string; addr : string; nodeV1ClientCreator : bool }.
#[export] Instance csiDriverClient_eq : EqDecision csiDriverClient.
Proof. solve_decision. Defined.
Definition newCsiDriverClient (name : string) (csiDrivers : DriversStore) : csiDriverClient + Error :=
  if bool_decide (name = "") then inr (New "driver name is empty")
  else match Get name csiDrivers with
       | None => inr (New ("driver name " +:+ name +:+ " not found in the list of registered CSI drivers"))
       | Some existingDriver => inl {| driverName := name; addr := endpoint existingDriver; nodeV1ClientCreator := true |}
       end.

(** A client that is made when it is first needed, and kept *)
Record csiClientGetter := { csiClient : option csiDriverClient; g_driverName : string }.
Definition new_getter (name : string) : csiClientGetter := {| csiClient := None; g_driverName := name |}.
Definition Get_client (csiDrivers : DriversStore) (g : csiClientGetter) : csiClientGetter * (csiDriverClient + Error) :=
  match csiClient g with
  | Some c => (g, inl c)
  | None =>
      match newCsiDriverClient (g_driverName g) csiDrivers with
      | inr e => (g, inr e)
      | inl c => ({| csiClient := Some c; g_driverName := g_driverName g |}, inl c)
      end
  end.
(** The client stays that of the first call: a driver that comes back under another endpoint is called under the old one. *)
Lemma getter_keeps_client drivers drivers' g c :
  (Get_client drivers g).2 = inl c → Get_client drivers' (Get_client drivers g).1 = ((Get_client drivers g).1, inl c).
Proof. destruct g as [ [c'|] n]; unfold Get_client; cbn; [by intros [= ->]|]. destruct (newCsiDriverClient _ _); cbn; [by intros [= ->]|done]. Qed.
Lemma new_client_spec name drivers c :
  newCsiDriverClient name drivers = inl c ↔
  name ≠ "" ∧ ∃ d, drivers !! name = Some d ∧ c = {| driverName := name; addr := endpoint d; nodeV1ClientCreator := true |}.
Proof.
  unfold newCsiDriverClient, Get. case_bool_decide as Hn; [split; [done|by intros [? _] ]|].
  destruct (drivers !! name) as [d|]; split; [intros [= <-]; eauto|intros (_ & d' & [= <-] & ->); done|done|intros (_ & d' & ? & _); done].
Qed.

Section Client.
Context {W : Type} `{CsiNode W}.
(** The nil creator, and the connection: the messages differ from call to call. *)
Definition newV1NodeClient (c : csiDriverClient) (nil_message : string) : M W unit :=
  if negb (nodeV1ClientCreator c) then fail (New nil_message)
  else r ← read (node_Dial (addr c)); match r with None => mret tt | Some e => fail (New e) end.
Definition nil_creator : string := "nodeV1ClientCreate is nil".
Definition nonempty (s message : string) : M W unit := if bool_decide (s = "") then fail (New message) else mret tt.

Definition asCSIAccessModeV1 (am : string) : AccessMode :=
  if bool_decide (am = ReadWriteOnce) then SINGLE_NODE_WRITER
  else if bool_decide (am = ReadOnlyMany) then MULTI_NODE_READER_ONLY
  else if bool_decide (am = ReadWriteMany) then MULTI_NODE_MULTI_WRITER
  else AccessMode_UNKNOWN.
Definition fsTypeBlockName : string := "block".
Definition access_type (fsType : string) (mountOptions : list string) : AccessType :=
  if bool_decide (fsType = fsTypeBlockName) then BlockVolume else MountVolume fsType mountOptions.

(** wait.ExponentialBackoff: at most [steps] times, and a wait in between *)
Definition ErrWaitTimeout : Error := New "timed out waiting for the condition".
Fixpoint ExponentialBackoff {A} (steps : nat) (condition : M W (option A)) : M W A :=
  match steps with
  | O => fail ErrWaitTimeout
  | S steps => r ← condition; match r with Some a => mret a | None => ExponentialBackoff steps condition end
  end.
Definition steps : nat := 5.
Definition nodeGetInfoV1 (c : csiDriverClient) : M W NodeGetInfoResponse :=
  newV1NodeClient c nil_creator;; query (λ w, let '(w, r) := node_GetInfo (addr c) w in (w, status_sum r)).
Definition not_registered : string := "no handler registered for plugin type".
Fixpoint str_contains (sub s : string) : bool := prefixb sub s || match s with String _ s => str_contains sub s | EmptyString => false end.
Definition get_info_once (c : csiDriverClient) : M W (option NodeGetInfoResponse) :=
  r ← attempt (nodeGetInfoV1 c);
  match r with
  | inl res => if bool_decide (ni_NodeId res = "") then crash "nil pointer: getNodeInfoError.Error()" else mret (Some res)
  | inr e => if str_contains not_registered (e_Text e) then fail e else mret None
  end.
Definition NodeGetInfo (c : csiDriverClient) : M W NodeGetInfoResponse := ExponentialBackoff steps (get_info_once c).

Definition NodePublishVolume (c : csiDriverClient) (volID : string) (readOnly : bool) (stagingTargetPath targetPath accessMode : string)
    (publishContext volumeContext : strings_map) (secrets : gmap string string) (fsType : string) (mountOptions : list string) : M W unit :=
  nonempty volID "missing volume id";; nonempty targetPath "missing target path";;
  newV1NodeClient c "failed to call NodePublishVolume. nodeV1ClientCreator is nil";;
  act (λ w, let '(w, r) := node_PublishVolume (addr c) {|
    np_VolumeId := volID; np_TargetPath := targetPath; np_StagingTargetPath := stagingTargetPath; np_Readonly := readOnly; np_PublishContext := publishContext;
    np_VolumeContext := volumeContext; np_Secrets := secrets; np_AccessMode := asCSIAccessModeV1 accessMode; np_AccessType := access_type fsType mountOptions |} w
    in (w, status_err r)).
Definition NodeUnpublishVolume (c : csiDriverClient) (volID targetPath : string) : M W unit :=
  nonempty volID "missing volume id";; nonempty targetPath "missing target path";; newV1NodeClient c nil_creator;;
  act (λ w, let '(w, r) := node_UnpublishVolume (addr c) volID targetPath w in (w, status_err r)).
Definition NodeStageVolume (c : csiDriverClient) (volID : string) (publishContext : strings_map) (stagingTargetPath fsType accessMode : string)
    (secrets : gmap string string) (volumeContext : strings_map) (mountOptions : list string) : M W unit :=
  nonempty volID "missing volume id";; nonempty stagingTargetPath "missing staging target path";; newV1NodeClient c nil_creator;;
  act (λ w, let '(w, r) := node_StageVolume (addr c) {|
    ns_VolumeId := volID; ns_StagingTargetPath := stagingTargetPath; ns_PublishContext := publishContext; ns_VolumeContext := volumeContext;
    ns_Secrets := secrets; ns_AccessMode := asCSIAccessModeV1 accessMode; ns_AccessType := access_type fsType mountOptions |} w
    in (w, status_err r)).
Definition NodeUnstageVolume (c : csiDriverClient) (volID stagingTargetPath : string) : M W unit :=
  nonempty volID "missing volume id";; nonempty stagingTargetPath "missing staging target path";; newV1NodeClient c nil_creator;;
  act (λ w, let '(w, r) := node_UnstageVolume (addr c) volID stagingTargetPath w in (w, status_err r)).
(** The size the driver is asked for is rounded up to bytes; on an error the new size is returned beside it. *)
Definition NodeExpandVolume (c : csiDriverClient) (volumeID volumePath : string) (newSize : Quantity) : M W Quantity :=
  (if negb (nodeV1ClientCreator c) then fail (New "version of CSI driver does not support volume expansion") else mret tt);;
  nonempty volumeID "missing volume id";; nonempty volumePath "missing volume path";;
  (if Value newSize <? 0 then fail (New "size can not be less than 0") else mret tt);;
  newV1NodeClient c nil_creator;;
  capacity ← query (λ w, let '(w, r) := node_ExpandVolume (addr c) volumeID volumePath (Value newSize) w in (w, status_sum r));
  mret (NewQuantity capacity).

Definition supports (cap : Capability) (c : csiDriverClient) : M W bool :=
  newV1NodeClient c nil_creator;;
  capabilities ← query (λ w, let '(w, r) := node_GetCapabilities (addr c) w in (w, status_sum r));
  mret (bool_decide (cap ∈ capabilities)).
Definition NodeSupportsNodeExpand : csiDriverClient → M W bool := supports EXPAND_VOLUME.
Definition NodeSupportsStageUnstage : csiDriverClient → M W bool := supports STAGE_UNSTAGE_VOLUME.
Definition NodeSupportsVolumeStats : csiDriverClient → M W bool := supports GET_VOLUME_STATS.

Record Metrics := {
  m_Time : Z; m_Used : Quantity; m_Capacity : Quantity; m_Available : Quantity; m_InodesUsed : Quantity; m_Inodes : Quantity; m_InodesFree : Quantity
}.
Definition no_metrics : Metrics := {| m_Time := 0; m_Used := NewQuantity 0; m_Capacity := NewQuantity 0; m_Available := NewQuantity 0;
  m_InodesUsed := NewQuantity 0; m_Inodes := NewQuantity 0; m_InodesFree := NewQuantity 0 |}.
Definition add_usage (m : Metrics) (usage : option VolumeUsage) : Metrics :=
  match usage with
  | None => m
  | Some u =>
      match us_Unit u with
      | BYTES => {| m_Time := m_Time m; m_Used := NewQuantity (us_Used u); m_Capacity := NewQuantity (us_Total u); m_Available := NewQuantity (us_Available u);
                    m_InodesUsed := m_InodesUsed m; m_Inodes := m_Inodes m; m_InodesFree := m_InodesFree m |}
      | INODES => {| m_Time := m_Time m; m_Used := m_Used m; m_Capacity := m_Capacity m; m_Available := m_Available m;
                     m_InodesUsed := NewQuantity (us_Used u); m_Inodes := NewQuantity (us_Total u); m_InodesFree := NewQuantity (us_Available u) |}
      | UsageUnknown => m
      end
  end.
(** A list of usages that is nil, which is what an empty one is on the wire, is an error. *)
Definition NodeGetVolumeStats (c : csiDriverClient) (volID targetPath : string) : M W Metrics :=
  nonempty volID "missing volume id";; nonempty targetPath "missing target path";; newV1NodeClient c nil_creator;;
  usages ← query (λ w, let '(w, r) := node_GetVolumeStats (addr c) volID targetPath w in (w, status_sum r));
  match usages with
  | [] => fail (New "failed to get usage from response. usage is nil")
  | _ => mret (foldl add_usage no_metrics usages)
  end.

(** csi_metrics.go *)
Record metricsCsi := { targetPath : string; volumeID : string; mc_getter : csiClientGetter }.
Definition NewMetricsCsi (volumeID targetPath driverName : string) : metricsCsi :=
  {| targetPath := targetPath; volumeID := volumeID; mc_getter := new_getter driverName |}.
Definition set_time (t : Z) (m : Metrics) : Metrics := {|
  m_Time := t; m_Used := m_Used m; m_Capacity := m_Capacity m; m_Available := m_Available m;
  m_InodesUsed := m_InodesUsed m; m_Inodes := m_Inodes m; m_InodesFree := m_InodesFree m |}.
Definition GetMetrics (csiDrivers : DriversStore) (currentTime : Z) : M (metricsCsi * W) Metrics :=
  mc ← this;
  let '(g, r) := Get_client csiDrivers (mc_getter mc) in
  update (λ mc, {| targetPath := targetPath mc; volumeID := volumeID mc; mc_getter := g |});;
  c ← check r;
  volumeStatsSet ← on_world (NodeSupportsVolumeStats c);
  if negb volumeStatsSet then fail (New ("metrics are not supported for " +:+ g_driverName g +:+ " volumes"))
  else metrics ← on_world (NodeGetVolumeStats c (volumeID mc) (targetPath mc)); mret (set_time currentTime metrics).

(** A driver is asked to do nothing without a volume and a path; what it is asked otherwise is the request of the call. *)
Lemma unstage_call c volID path w :
  NodeUnstageVolume c volID path w =
    (if bool_decide (volID = "") then Ret (w, inr (New "missing volume id"))
     else if bool_decide (path = "") then Ret (w, inr (New "missing staging target path"))
     else if negb (nodeV1ClientCreator c) then Ret (w, inr (New nil_creator))
     else match node_Dial (addr c) w with
          | Some e => Ret (w, inr (New e))
          | None => let '(w, r) := node_UnstageVolume (addr c) volID path w in Ret (w, match r with None => inl tt | Some e => inr (New e) end)
          end).
Proof.
  unfold NodeUnstageVolume, nonempty, newV1NodeClient, act, read, mbind, M_bind. case_bool_decide; [done|]. cbn [mret M_ret].
  case_bool_decide; [done|]. cbn. destruct (nodeV1ClientCreator c); cbn; [|done]. destruct (node_Dial (addr c) w); cbn; [done|].
  by destruct (node_UnstageVolume (addr c) volID path w) as [w1 [e|] ].
Qed.
Section Frames.
Context `{CsiHost W} `{!CsiNodeLaws W}.
(** The worlds in which a file reads the same *)
Definition same_file (p : string) (w w' : W) : Prop := os_ReadFile p w' = os_ReadFile p w.
#[export] Instance same_file_preorder p : PreOrder (same_file p).
Proof. split; [done|]. intros a b c H1' H2'. unfold same_file in *. congruence. Qed.
Lemma newV1NodeClient_moves p c m : moves (same_file p) (newV1NodeClient c m).
Proof. unfold newV1NodeClient. moves_tac. Qed.
Lemma supports_moves p cap c : moves (same_file p) (supports cap c).
Proof.
  unfold supports. apply moves_bind; [exact _|apply newV1NodeClient_moves|]. moves_tac. unfold same_file. cbn.
  pose proof (capabilities_keep (addr c) w p) as Hk. by destruct (node_GetCapabilities (addr c) w).
Qed.
Lemma stage_moves p c vol ctx dir fs am sec vctx opts : inside dir p = false → moves (same_file p) (NodeStageVolume c vol ctx dir fs am sec vctx opts).
Proof.
  intros Hp. unfold NodeStageVolume, nonempty. apply moves_bind; [exact _|moves_tac|intros _]. apply moves_bind; [exact _|moves_tac|intros _].
  apply moves_bind; [exact _|apply newV1NodeClient_moves|intros _]. apply moves_act. intros w. unfold same_file.
  match goal with |- context [node_StageVolume ?a ?r w] => pose proof (stage_keeps a r w p Hp) as Hk; by destruct (node_StageVolume a r w) end.
Qed.
End Frames.
(** The bytes asked for hold the size. *)
Lemma expand_rounds_up newSize : 0 <= newSize → newSize <= Value newSize * 1000000000.
Proof.
  intros Hp. unfold Value, ceil_div. rewrite Z.abs_eq by done. destruct (decide (newSize = 0)) as [->|Hn]; [done|].
  rewrite Z.sgn_pos by lia. pose proof (Z.div_mod (newSize + (1000000000 - 1)) 1000000000 ltac:(lia)) as Hd.
  pose proof (Z.mod_pos_bound (newSize + (1000000000 - 1)) 1000000000 ltac:(lia)). lia.
Qed.
Lemma stage_ok csi vol ctx dir fs am sec vctx opts w w' :
  NodeStageVolume csi vol ctx dir fs am sec vctx opts w = Ret (w', inl tt) →
  vol ≠ "" ∧ dir ≠ "" ∧ node_StageVolume (addr csi) {|
    ns_VolumeId := vol; ns_StagingTargetPath := dir; ns_PublishContext := ctx; ns_VolumeContext := vctx; ns_Secrets := sec;
    ns_AccessMode := asCSIAccessModeV1 am; ns_AccessType := access_type fs opts |} w = (w', None).
Proof.
  unfold NodeStageVolume, nonempty, newV1NodeClient, act. rewrite bind_eq. case_bool_decide; [done|]. cbn [mret M_ret]. rewrite bind_eq. case_bool_decide; [done|].
  cbn [mret M_ret]. rewrite !bind_eq. destruct (nodeV1ClientCreator csi); cbn [negb]; [|done]. rewrite read_bind. destruct (node_Dial (addr csi) w); [done|]. cbn [mret M_ret].
  destruct (node_StageVolume _ _ w) as [w1 [e|] ]; [done|]. by intros [= <-].
Qed.
(** The last usage of a kind is the one reported. *)
Lemma stats_last usages u l : us_Unit u = BYTES → Forall (λ v, from_option us_Unit UsageUnknown v ≠ BYTES) l →
  m_Used (foldl add_usage no_metrics (usages ++ Some u :: l)) = NewQuantity (us_Used u).
Proof.
  intros Hu Hl. rewrite foldl_app. cbn [foldl]. assert (m_Used (add_usage (foldl add_usage no_metrics usages) (Some u)) = NewQuantity (us_Used u)) as Hm.
  { unfold add_usage. by rewrite Hu. }
  revert Hm. generalize (add_usage (foldl add_usage no_metrics usages) (Some u)). induction Hl as [|v l Hv _ IH]; intros m Hm; [done|].
  cbn [foldl]. apply IH. destruct v as [v|]; [|done]. cbn in *. by destruct (us_Unit v).
Qed.
End Client.
End Client.

(** ** The registration of drivers (RegistrationHandler of csi_plugin.go), which the watcher of sockets calls *)

(** The manager of the CSINode object (vendored), and what the host is told of it *)
Class NodeInfoManager (W : Type) := {
  InstallCSIDriver : string → string → Z → strings_map → W → W * option Error;   (** driver, id of the node there, volumes at most, topology *)
  UninstallCSIDriver : string → W → W * option Error;
  InitializeCSINodeWithAnnotation : W → W * option Error;
  SetKubeletError : option string → W → W
}.
Module Registration.
Import Version DriversStore Client.
Definition quote_strings (l : list string) : string := "[" +:+ join " " (quote <$> l) +:+ "]".
(** The versions are looked at from the last to the first: the highest so far, and the last error. *)
Definition scan_version (version : string) (st : option Version * option Error) : option Version * option Error :=
  let '(highest, theErr) := st in
  match ParseGeneric version with
  | inr err => (highest, Some err)
  | inl current =>
      if 1 <? Major current then st
      else match highest with
           | None => (Some current, theErr)
           | Some h => if LessThan h current then (Some current, theErr) else st
           end
  end.
Definition highestSupportedVersion (versions : list string) : Version + Error :=
  if bool_decide (versions = []) then inr (New (log "CSI driver reporting empty array for supported versions"))
  else match foldr scan_version (None, None) versions with
       | (None, theErr) => inr (New ("could not find a highest supported version from versions (" +:+ Manager.go_strings versions +:+
                                     ") reported by this driver: " +:+ from_option e_Text "<nil>" theErr))
       | (Some h, _) => if Major h =? 1 then inl h
                        else inr (New ("highest supported version reported by driver is " +:+ to_string h +:+ ", must be v1.x"))
       end.
Definition isV0Version (version : string) : bool := match ParseGeneric version with inl v => Major v =? 0 | inr _ => false end.

(** What the code means by the highest: among the versions that can be read and are not of a later major, none is above it. *)
Definition supported (versions : list string) (v : Version) : Prop := ∃ s, s ∈ versions ∧ ParseGeneric s = inl v ∧ Major v <= 1.
Lemma scan_highest versions :
  match (foldr scan_version (None, None) versions).1 with
  | None => ∀ v, ¬ supported versions v
  | Some h => supported versions h ∧ ∀ v, supported versions v → LessThan h v = false
  end.
Proof.
  induction versions as [|s versions IH]; cbn [foldr]; [intros v (s & Hs%elem_of_nil & _); done|].
  destruct (foldr scan_version (None, None) versions) as [hi er]. cbn [fst] in IH. unfold scan_version.
  assert (∀ v, supported (s :: versions) v ↔ (ParseGeneric s = inl v ∧ Major v <= 1) ∨ supported versions v) as Hsup.
  { intros v. unfold supported. split; [intros (x & [->|Hx]%elem_of_cons & H1 & H2); eauto|].
    intros [ [H1 H2]|(x & Hx & H)]; [exists s; split; [left|done]|exists x; split; [by right|done] ]. }
  assert (∀ v, ParseGeneric s ≠ inl v ∨ ¬ Major v <= 1 → supported (s :: versions) v ↔ supported versions v) as Hsame by (intros v Hv; rewrite Hsup; tauto).
  destruct (ParseGeneric s) as [c|e] eqn:Hp; cbn [fst].
  2: { destruct hi as [h|]; [destruct IH as [H1 H2]; split; [by apply Hsup; right|]; intros v Hv; apply H2, Hsame; auto; by left|].
       intros v Hv. apply (IH v), Hsame; auto; by left. }
  destruct (1 <? Major c) eqn:Hm; bool_to_Z; cbn [fst].
  { assert (∀ v, supported (s :: versions) v ↔ supported versions v) as Hs.
    { intros v. rewrite Hsup. split; [intros [ [ [= ->] ?]|?]; [lia|done]|by right]. }
    destruct hi as [h|]; [destruct IH as [H1 H2]; split; [by apply Hs|]; intros v ?%Hs; by apply H2|]. intros v ?%Hs. by apply (IH v). }
  destruct hi as [h|]; cbn [fst].
  - destruct IH as [H1 H2]. destruct (LessThan h c) eqn:Hl; cbn [fst].
    + split; [apply Hsup; by left|]. intros v [ [ [= ->] _]|Hv]%Hsup; [unfold LessThan; by rewrite compare_irrefl|].
      destruct (LessThan c v) eqn:Hcv; [|done]. assert (∀ x, supported versions x → nonneg x) as Hnn by (intros x (y & _ & Hy & _); by eapply ParseGeneric_valid).
      rewrite <- (H2 v Hv). symmetry. apply (less_trans h c v); auto. by eapply ParseGeneric_valid.
    + split; [apply Hsup; by right|]. intros v [ [ [= ->] _]|Hv]%Hsup; [done|by apply H2].
  - split; [apply Hsup; by left|]. intros v [ [ [= ->] _]|Hv]%Hsup; [unfold LessThan; by rewrite compare_irrefl|]. by destruct (IH v).
Qed.
(** The version a driver is registered with is the highest it offers: it is one of the versions offered, of major 1, and no offered version
    of major 0 or 1 is above it; versions that cannot be read and those of a later major are passed over, wherever they stand. There is one
    exactly when some version of major 1 is offered. *)
Lemma highest_version_correct versions :
  match highestSupportedVersion versions with
  | inl v => Major v = 1 ∧ supported versions v ∧ ∀ v', supported versions v' → LessThan v v' = false
  | inr _ => ∀ v, supported versions v → Major v ≠ 1
  end.
Proof.
  unfold highestSupportedVersion. pose proof (scan_highest versions) as Hs. case_bool_decide as Hn.
  { subst. cbn in Hs. intros v Hv. by destruct (Hs v). }
  destruct (foldr scan_version (None, None) versions) as [ [h|] er]; cbn [fst] in Hs; [|intros v Hv; by destruct (Hs v)].
  destruct Hs as [H1 H2]. destruct (Z.eqb_spec (Major h) 1) as [Hm|Hm]; [done|]. intros v Hv Hv1. specialize (H2 v Hv).
  apply less_major in H2. destruct H1 as (s & _ & [_ Hne]%ParseGeneric_valid & Hle), Hv as (s' & _ & [_ Hne']%ParseGeneric_valid & _).
  assert (Major v <= Major h) as Hvh by (destruct H2 as [?|[?|?] ]; [done|by subst..]). lia.
Qed.

Lemma highest_of versions v : highestSupportedVersion versions = inl v → Major v = 1.
Proof. unfold highestSupportedVersion. case_bool_decide; [done|]. destruct (foldr _ _ _) as [ [h|] er]; [|done]. destruct (Z.eqb_spec (Major h) 1); [|done]. by intros [= <-]. Qed.
Definition validateVersions (callerName pluginName : string) (versions : list string) (csiDrivers : DriversStore) : Version + Error :=
  let failed msg := inr (New (log (callerName +:+ " for CSI driver " +:+ quote pluginName +:+ " failed. " +:+ msg))) in
  if bool_decide (versions = []) then failed "Plugin returned an empty list for supported versions"
  else match highestSupportedVersion versions with
       | inr err => failed ("None of the versions specified " +:+ quote_strings versions +:+ " are supported. err=" +:+ e_Text err)
       | inl newest =>
           match Get pluginName csiDrivers with
           | Some existing =>
               if negb (LessThan (DriversStore.highestSupportedVersion existing) newest)
               then failed ("Another driver with the same name is already registered with a higher supported version: " +:+
                            quote (to_string (DriversStore.highestSupportedVersion existing)))
               else inl newest
           | None => inl newest
           end
       end.
Section Handler.
Context {W : Type} `{CsiNode W} `{NodeInfoManager W}.
Definition ValidatePlugin (pluginName endpoint : string) (versions : list string) (csiDrivers : DriversStore) : option Error :=
  match validateVersions "ValidatePlugin" pluginName versions csiDrivers with
  | inl _ => None
  | inr err => Some (New ("validation failed for CSI Driver " +:+ pluginName +:+ " at endpoint " +:+ endpoint +:+ ": " +:+ e_Text err))
  end.
Definition unregisterDriver (driverName : string) : M (DriversStore * W) unit :=
  update (Delete driverName);;
  prefixed (log "Error uninstalling CSI driver: ") (on_world (act (UninstallCSIDriver driverName))).
Definition RegisterPlugin (pluginName endpoint : string) (versions : list string) : M (DriversStore * W) unit :=
  csiDrivers ← this;
  newest ← check (validateVersions "RegisterPlugin" pluginName versions csiDrivers);
  update (Set_ pluginName {| DriversStore.endpoint := endpoint; DriversStore.highestSupportedVersion := newest |});;
  csiDrivers ← this;
  csi ← check (newCsiDriverClient pluginName csiDrivers);
  info ← on_error (on_world (NodeGetInfo csi)) (λ _, unregisterDriver pluginName);
  on_error (on_world (act (InstallCSIDriver pluginName (ni_NodeId info) (ni_MaxVolumesPerNode info) (ni_AccessibleTopology info))))
    (λ _, unregisterDriver pluginName).
Definition DeRegisterPlugin (pluginName : string) : M (DriversStore * W) unit := _ ← attempt (unregisterDriver pluginName); mret tt.

(** initializeCSINode, on a host that is a kubelet's: six attempts, and what the host is told *)
Definition initializeCSINode (kubelet : bool) (kubeClient : bool) : M W unit :=
  if negb (kubelet && kubeClient) then mret tt
  else act (λ w, (SetKubeletError (Some "CSINodeInfo is not yet initialized") w, None));;
       _ ← attempt (ExponentialBackoff 6 (λ w,
         let '(w, err) := InitializeCSINodeWithAnnotation w in
         match err with
         | Some e => Ret (SetKubeletError (Some ("Failed to initialize CSINodeInfo: " +:+ e_Text e)) w, inl None)
         | None => Ret (SetKubeletError None w, inl (Some tt))
         end));
       mret tt.

(** *** What registering does *)
Lemma validate_versions_spec caller name versions s v :
  validateVersions caller name versions s = inl v →
  highestSupportedVersion versions = inl v ∧ ∀ d, s !! name = Some d → LessThan (DriversStore.highestSupportedVersion d) v = true.
Proof.
  unfold validateVersions, Get. case_bool_decide; [done|]. destruct (highestSupportedVersion versions) as [n|e]; [|done].
  destruct (s !! name) as [d|]; [|intros [= ->]; by split]. destruct (LessThan _ n) eqn:Hl; cbn; [|done]. intros [= ->]. split; [done|]. by intros ? [= <-].
Qed.
Lemma unregister_spec name s w s' w' r : unregisterDriver name (s, w) = Ret ((s', w'), r) → s' = delete name s.
Proof.
  unfold unregisterDriver, update, prefixed, on_world, act, mbind, M_bind, Delete. cbn. destruct (UninstallCSIDriver name w) as [w1 [e|] ]; by intros [= <- _ _].
Qed.
Lemma on_error_unregister {A} (m : M W A) name s w s' w' r :
  on_error (on_world m) (λ _, unregisterDriver name) (s, w) = Ret ((s', w'), r) →
  match r with inl a => s' = s ∧ m w = Ret (w', inl a) | inr e => s' = delete name s ∧ ∃ w1, m w = Ret (w1, inr e) end.
Proof.
  unfold on_error, attempt, on_world, mbind, M_bind, fail. cbn. destruct (m w) as [ [w1 [a|e] ]| |]; cbn; [by intros [= <- <- <-]| |done|done].
  destruct (unregisterDriver name (s, w1)) as [ [ [s2 w2] r2]| |] eqn:E; [|done|done].
  apply unregister_spec in E as ->. intros [= <- _ <-]. split; [done|by eexists].
Qed.
Lemma register_spec name endpoint versions s w s' w' r :
  name ≠ "" → RegisterPlugin name endpoint versions (s, w) = Ret ((s', w'), r) →
  match r with
  | inl _ => ∃ v, highestSupportedVersion versions = inl v ∧ s' = <[name := {| DriversStore.endpoint := endpoint; DriversStore.highestSupportedVersion := v |}]> s ∧
                  ∀ d, s !! name = Some d → LessThan (DriversStore.highestSupportedVersion d) v = true
  | inr e => (validateVersions "RegisterPlugin" name versions s = inr e ∧ s' = s ∧ w' = w) ∨
             ((∃ v, validateVersions "RegisterPlugin" name versions s = inl v) ∧ s' = delete name s)
  end.
Proof.
  intros Hn. unfold RegisterPlugin. rewrite this_bind. destruct (validateVersions _ name versions s) as [v|e] eqn:Hv.
  2: { rewrite check_bind. intros [= <- <- <-]. by left. }
  rewrite check_bind, update_bind, this_bind. unfold Set_.
  set (d := {| DriversStore.endpoint := endpoint; DriversStore.highestSupportedVersion := v |}).
  assert (newCsiDriverClient name (<[name := d]> s) = inl {| driverName := name; addr := endpoint; nodeV1ClientCreator := true |}) as ->.
  { apply new_client_spec. split; [done|]. exists d. split; [apply lookup_insert_eq|done]. }
  rewrite check_bind, bind_eq.
  destruct (on_error _ _ (<[name := d]> s, w)) as [ [ [s1 w1] r1]| |] eqn:E1; [|done|done]. apply on_error_unregister in E1.
  destruct r1 as [info|e]; [destruct E1 as [-> _]|].
  2: { intros [= <- <- <-]. right. destruct E1 as [-> _]. split; [by eexists|]. apply delete_insert_eq. }
  intros E2%on_error_unregister. destruct r as [u|e].
  - destruct E2 as [-> _]. apply validate_versions_spec in Hv as [H1 H2]. eauto.
  - right. destruct E2 as [-> _]. split; [by eexists|]. apply delete_insert_eq.
Qed.

(** *** All histories: registrations and their ends in any order, the world doing what it does in between *)
Inductive reg_step : DriversStore * W → DriversStore * W → Prop :=
  | step_register name endpoint versions st st' r : name ≠ "" → RegisterPlugin name endpoint versions st = Ret (st', r) → reg_step st st'
  | step_deregister name st st' r : DeRegisterPlugin name st = Ret (st', r) → reg_step st st'
  | step_outside s w w' : reg_step (s, w) (s, w').
Definition well_registered (s : DriversStore) : Prop :=
  ∀ name d, s !! name = Some d → name ≠ "" ∧ Major (DriversStore.highestSupportedVersion d) = 1.
(** From one state of the registry to the next, an entry is unchanged, gone, or the one of a version above the one it had. *)
Definition succeeds (s s' : DriversStore) : Prop :=
  ∀ name d', s' !! name = Some d' → s !! name = Some d' ∨
    ∀ d, s !! name = Some d → LessThan (DriversStore.highestSupportedVersion d) (DriversStore.highestSupportedVersion d') = true.
Lemma deregister_spec name s w st r : DeRegisterPlugin name (s, w) = Ret (st, r) → st.1 = delete name s ∧ r = inl tt.
Proof.
  unfold DeRegisterPlugin, attempt. rewrite bind_eq. destruct (unregisterDriver name (s, w)) as [ [ [s1 w1] r1]| |] eqn:E; [|done|done].
  apply unregister_spec in E as ->. by intros [= <- <-].
Qed.
Lemma reg_step_ok st st' : reg_step st st' → succeeds st.1 st'.1 ∧ (well_registered st.1 → well_registered st'.1).
Proof.
  assert (∀ (s : DriversStore) name, succeeds s (delete name s) ∧ (well_registered s → well_registered (delete name s))) as Hdel.
  { intros s name. split; [intros n d' [_ Hd]%lookup_delete_Some; by left|]. intros Hw n d [_ Hd]%lookup_delete_Some. by eapply Hw. }
  destruct 1 as [name endpoint versions [s w] [s' w'] r Hn Hr|name [s w] [s' w'] r Hr|s w w'].
  - apply register_spec in Hr; [|done]. cbn [fst]. destruct r as [u|e].
    + destruct Hr as (v & Hv & -> & Hlt). pose proof (highest_of versions v Hv) as Hm. split.
      * intros n d'. destruct (decide (name = n)) as [<-|Hne]; [|rewrite lookup_insert_ne by done; by left].
        rewrite lookup_insert_eq. intros [= <-]. right. intros d Hd. cbn. by apply Hlt.
      * intros Hw n d'. destruct (decide (name = n)) as [<-|Hne]; [|rewrite lookup_insert_ne by done; apply Hw].
        rewrite lookup_insert_eq. by intros [= <-].
    + destruct Hr as [(_ & -> & _)|(_ & ->)]; [by split; [by left|]|apply Hdel].
  - apply deregister_spec in Hr as [-> _]. apply Hdel.
  - by split; [by left|].
Qed.
(** C23: The registry of drivers, after any history of registrations and de-registrations: a registered driver has a name and a version of major
    1. Whatever happens next, an entry stays, goes, or gives way to a version strictly above it. A registration that succeeds leaves the
    driver under its endpoint with the highest version it offered, above the one there was; one that is refused by the check of versions changes
    nothing; one that fails after it leaves no driver of that name, not even the one that was registered before. No other driver is touched. *)
Theorem registry_correct w0 s w :
  rtc reg_step (∅, w0) (s, w) →
  well_registered s ∧ (∀ s' w', reg_step (s, w) (s', w') → succeeds s s') ∧
  ∀ name endpoint versions s' w' r, name ≠ "" → RegisterPlugin name endpoint versions (s, w) = Ret ((s', w'), r) →
    (∀ other, other ≠ name → s' !! other = s !! other) ∧
    match r with
    | inl _ => ∃ v, highestSupportedVersion versions = inl v ∧ s' !! name = Some {| DriversStore.endpoint := endpoint; DriversStore.highestSupportedVersion := v |}
    | inr e => match validateVersions "RegisterPlugin" name versions s with inl _ => s' !! name = None | inr e' => e = e' ∧ s' = s ∧ w' = w end
    end.
Proof.
  intros Hr. split; [|split].
  - assert (∀ a b, rtc reg_step a b → well_registered a.1 → well_registered b.1) as Hi.
    { intros a b Hab. induction Hab as [|a b c Hab _ IH]; [done|]. intros Ha. apply IH. by eapply reg_step_ok. }
    apply (Hi _ _ Hr). intros name d Hd. cbn in Hd. by apply lookup_empty_Some in Hd.
  - intros s' w' Hs. by apply reg_step_ok in Hs as [? _].
  - intros name endpoint versions s' w' r Hn Hreg. apply register_spec in Hreg; [|done]. destruct r as [u|e].
    + destruct Hreg as (v & Hv & -> & _). split; [intros other Ho; by apply lookup_insert_ne|]. exists v. split; [done|apply lookup_insert_eq].
    + destruct Hreg as [(Hv & -> & ->)|([v Hv] & ->)]; rewrite Hv; [done|]. split; [intros other Ho; by apply lookup_delete_ne|apply lookup_delete_eq].
Qed.
End Handler.
End Registration.

(** ** Examples *)
Module CsiClientExamples.
Import CsiSamples Client Registration.
(** A service of a driver that stages volumes; its id is that of the address, and nothing answers at /dead.sock. *)
#[export] Instance sample_node : CsiNode World := {|
  node_Dial := λ _ _, None;
  node_GetInfo := λ a w, (w, if bool_decide (a = "/dead.sock") then inr "connection refused"
                             else inl {| ni_NodeId := if bool_decide (a = "/nameless.sock") then "" else "id"; ni_MaxVolumesPerNode := 0; ni_AccessibleTopology := None |});
  node_GetCapabilities := λ _ w, (w, inl [STAGE_UNSTAGE_VOLUME]);
  node_PublishVolume := λ _ r w, (called ("publish " +:+ np_VolumeId r +:+ " at " +:+ np_TargetPath r) w, None);
  node_UnpublishVolume := λ _ v p w, (called ("unpublish " +:+ v +:+ " at " +:+ p) w, None);
  node_StageVolume := λ _ r w, (called ("stage " +:+ ns_VolumeId r +:+ " at " +:+ ns_StagingTargetPath r) w, None);
  node_UnstageVolume := λ _ v p w, (called ("unstage " +:+ v +:+ " at " +:+ p) w, None);
  node_ExpandVolume := λ _ _ _ n w, (w, inl n);
  node_GetVolumeStats := λ _ _ _ w, (w, inl [])
|}.
#[export] Instance sample_node_laws : CsiNodeLaws World.
Proof. split; [done|]. intros a r w p _. done. Qed.
#[export] Instance sample_nim : NodeInfoManager World := {|
  InstallCSIDriver := λ name _ _ _ w, (called ("install " +:+ name) w, None);
  UninstallCSIDriver := λ name w, (called ("uninstall " +:+ name) w, None);
  InitializeCSINodeWithAnnotation := λ w, (w, None); SetKubeletError := λ _ w, w
|}.
Definition registered : DriversStore.DriversStore * World :=
  match RegisterPlugin "disk.example.com" "/disk.sock" ["1.0.0"; "2.0"; "1.3.0"; "1.1"] (∅, empty) with Ret (st, _) => st | _ => (∅, empty) end.
Lemma registry_correct_witness :
  well_registered registered.1 ∧ (RegisterPlugin "disk.example.com" "/dead.sock" ["1.4.0"] registered) = Ret ((∅, called "uninstall disk.example.com" registered.2), inr ErrWaitTimeout).
Proof.
  split; [|by vm_compute]. destruct (registry_correct empty registered.1 registered.2) as (H & _); [|exact H].
  eapply rtc_l; [|apply rtc_refl]. apply (step_register "disk.example.com" "/disk.sock" ["1.0.0"; "2.0"; "1.3.0"; "1.1"] _ _ (inl tt)); [discriminate|].
  vm_compute. reflexivity.
Defined.
Example highest : highestSupportedVersion ["1.0.0"; "2.0"; "1.3.0"; "x"; "1.3"] = inl [1; 3].
Proof. by vm_compute. Qed.
(** A driver that comes back with the version it has is refused. *)
Example same_version :
  validateVersions "RegisterPlugin" "disk.example.com" ["1.3.0"] registered.1 =
    inr (New (log ("RegisterPlugin for CSI driver " +:+ quote "disk.example.com" +:+
      " failed. Another driver with the same name is already registered with a higher supported version: " +:+ quote "1.3.0"))).
Proof. by vm_compute. Qed.
(** A driver that answers without the id of the node crashes the process. *)
Example nameless : RegisterPlugin "disk.example.com" "/nameless.sock" ["1.0"] (∅, empty) = Panic "nil pointer: getNodeInfoError.Error()".
Proof. by vm_compute. Qed.
End CsiClientExamples.
