(* ===== verification/CsiPlugin.v ===== *)
(** * The CSI plugin: volumes and their attachment to a node

    src/pkg/virtualnode/storage/csi: the plugin of csi_plugin.go and the attacher, csi_attacher.go; the host's part in it is
    virtualnode/storage/volume_host.go. The cluster's attach-detach controller makes and deletes VolumeAttachments through it, and the node
    waits for them; the device of an attached volume is staged and unstaged here. *)
From S2P Require Import Prelude Effects GoNet StorageManager CsiBase CsiClient.
Open Scope Z_scope.

(** ** The host: what its type implements

    A Go type implements an interface when it has its methods, with these signatures. *)
Module HostTypes.
(** volume.KubeletVolumeHost (vendored) *)
Definition KubeletVolumeHost : list Method := [
  ("SetKubeletError", "(err error)"); ("GetInformerFactory", "() informers.SharedInformerFactory");
  ("CSIDriverLister", "() storagelistersv1.CSIDriverLister"); ("CSIDriversSynced", "() cache.InformerSynced");
  ("WaitForCacheSync", "() error"); ("GetHostUtil", "() hostutil.HostUtils")].
(** The methods of the package's own interface (types.go), without those of volume.VolumeHost *)
Definition VolumeHost : list Method := [
  ("SetKubeletError", "(err error)"); ("GetInformerFactory", "() informers.SharedInformerFactory");
  ("CSIDriverLister", "() *kubehelper.CSIDriverLister"); ("CSIDriversSynced", "() cache.InformerSynced");
  ("WaitForCacheSync", "() error"); ("GetHostUtil", "() hostutil.HostUtils")].
(** The methods of aranya's volume host that either interface names, or that the plugin calls *)
Definition volumeHost_methods : list Method := [
  ("SetKubeletError", "(err error)"); ("GetInformerFactory", "() informers.SharedInformerFactory");
  ("CSIDriverLister", "() *kubehelper.CSIDriverLister"); ("CSIDriversSynced", "() cache.InformerSynced");
  ("WaitForCacheSync", "() error"); ("GetHostUtil", "() hostutil.HostUtils");
  ("GetPluginDir", "(string) string"); ("GetVolumeDevicePluginDir", "(string) string"); ("GetPodVolumeDir", "(types.UID, string, string) string");
  ("GetPodVolumeDeviceDir", "(types.UID, string) string"); ("GetKubeClient", "() kubeclient.Interface"); ("GetMounter", "(string) mount.Interface");
  ("GetNodeName", "() types.NodeName")].
End HostTypes.

Record csiPlugin := {
  host : VolumeHost.volumeHost; host_methods : list Method; host_KubeClient : bool;   (** whether GetKubeClient is not nil *)
  blockEnabled : bool; csiDriverLister : bool                                         (** whether it is not nil *)
}.
Definition is_KubeletVolumeHost (p : csiPlugin) : bool := implements (host_methods p) HostTypes.KubeletVolumeHost.
(** ProbeVolumePlugins and Init: the plugin on the host of aranya *)
Definition aranya_plugin (vh : VolumeHost.volumeHost) : csiPlugin :=
  {| host := vh; host_methods := HostTypes.volumeHost_methods; host_KubeClient := true; blockEnabled := true; csiDriverLister := true |}.

Module Plugin.
Import Client.
Section Plugin.
Context {W : Type} `{CsiKube W} `{CsiHost W} `{CsiNode W} `{VolumeJSON} (CSIInlineVolume : bool).
(** The hexadecimal text of crypto/sha256's sum *)
Context (sha256 : string → string).

Definition getAttachmentName (volName csiDriverName nodeName : string) : string := "csi-" +:+ sha256 (volName +:+ csiDriverName +:+ nodeName).
Definition isAttachmentName (unknownString : string) : bool := prefixb "csi-" unknownString && bool_decide (String.length unknownString = 68%nat).
Definition makeVolumeHandle (podUID volSourceSpecName : string) : string := "csi-" +:+ sha256 (podUID +:+ volSourceSpecName).
Definition volNameSep : Ascii.ascii := Ascii.ascii_of_nat 94.

Definition GetPluginName (p : csiPlugin) : string := CSIPluginName.
Definition GetVolumeName (spec : option Spec) : string + Error :=
  match getPVSourceFromSpec CSIInlineVolume spec with
  | inr e => inr (New (log ("plugin.GetVolumeName failed to extract volume source from spec: " +:+ e_Text e)))
  | inl csi => inl (pvs_Driver csi +:+ String volNameSep (pvs_VolumeHandle csi))
  end.
Definition CanSupport (spec : option Spec) : bool :=
  match spec with
  | None => false
  | Some spec => bool_decide (is_Some (spec_PersistentVolume spec ≫= λ pv, pvsp_CSI (pv_Spec pv))) || bool_decide (is_Some (spec_Volume spec ≫= vol_CSI))
  end.
Definition inlineEnabled : bool := true.
Definition getVolumeLifecycleMode (spec : option Spec) : string + Error :=
  match getSourceFromSpec CSIInlineVolume spec with
  | inr e => inr e
  | inl (Inline _) => inl (if inlineEnabled then VolumeLifecycleEphemeral else VolumeLifecyclePersistent)
  | inl (Persistent _) => inl VolumeLifecyclePersistent
  end.
Definition containsVolumeMode (modes : list string) (mode : string) : bool := bool_decide (mode ∈ modes).

(** The wait for the informer's cache, of a host that is a kubelet's *)
Definition wait_for_cache (p : csiPlugin) : M W unit :=
  if is_KubeletVolumeHost p then r ← read WaitForCacheSync; match r with None => mret tt | Some e => fail e end else mret tt.
Definition skipAttach (p : csiPlugin) (driver : string) : M W bool :=
  wait_for_cache p;;
  if negb (csiDriverLister p) then fail (New "CSIDriver lister does not exist")
  else r ← read (csiDriver_Get driver);
       match r with
       | inr e => if is_kind NotFound e then mret false else fail e
       | inl d => mret (bool_decide (drv_AttachRequired d = Some false))
       end.
Definition supportsVolumeLifecycleMode (p : csiPlugin) (driver volumeMode : string) : M W unit :=
  if negb inlineEnabled then
    if bool_decide (volumeMode = VolumeLifecyclePersistent) then mret tt
    else fail (New ("CSIInlineVolume feature not enabled, " +:+ quote volumeMode +:+ " volumes not supported"))
  else
    csiDriver ← (if csiDriverLister p then
                   wait_for_cache p;;
                   r ← read (csiDriver_Get driver);
                   match r with inl d => mret (Some d) | inr e => if is_kind NotFound e then mret None else fail e end
                 else mret None);
    match csiDriver with
    | None => if bool_decide (volumeMode = VolumeLifecyclePersistent) then mret tt
              else fail (New ("volume mode " +:+ quote volumeMode +:+ " not supported by driver " +:+ driver +:+ " (no CSIDriver object)"))
    | Some d => if containsVolumeMode (drv_VolumeLifecycleModes d) volumeMode then mret tt
                else fail (New ("volume mode " +:+ quote volumeMode +:+ " not supported by driver " +:+ driver +:+
                                " (only supports " +:+ Registration.quote_strings (drv_VolumeLifecycleModes d) +:+ ")"))
    end.
Definition CanAttach (p : csiPlugin) (spec : option Spec) : M W bool :=
  mode ← (if inlineEnabled then check (getVolumeLifecycleMode spec) else mret "");
  if bool_decide (mode = VolumeLifecycleEphemeral) then mret false
  else pvSrc ← check (getCSISourceFromSpec CSIInlineVolume spec);
       skip ← skipAttach p (pvs_Driver pvSrc);
       mret (negb skip).
Definition CanDeviceMount (spec : option Spec) : bool + Error :=
  if negb inlineEnabled then inl true
  else match getVolumeLifecycleMode spec with inr e => inr e | inl mode => inl (negb (bool_decide (mode = VolumeLifecycleEphemeral))) end.
Definition getPublishContext (p : csiPlugin) (handle driver nodeName : string) : M W strings_map :=
  skip ← skipAttach p driver;
  if skip : bool then mret None
  else r ← read (va_Get (getAttachmentName handle driver nodeName)); attachment ← check r; mret (va_AttachmentMetadata attachment).

(** ** csi_attacher.go: the attachment objects *)
Definition verifyAttachmentStatus (attachment : option VolumeAttachment) : bool + Error :=
  match attachment with
  | None => inr (New "volume attachment has been deleted")
  | Some a =>
      match va_DeletionTimestamp a with
      | Some _ => inr (New "volume attachment is being deleted")
      | None => if va_Attached a then inl true else match va_AttachError a with Some m => inr (New m) | None => inl false end
      end
  end.
Definition verifyDetachmentStatus (attachment : option VolumeAttachment) : bool + Error :=
  match attachment with
  | None => inl true
  | Some a => match va_DetachError a with Some m => inr (New m) | None => inl false end
  end.
(** The loop over the events the watch delivers before the timer fires *)
Fixpoint watch_loop (volumeHandle : string) (verifyStatus : option VolumeAttachment → bool + Error) (events : list Event) : option Error :=
  match events with
  | [] => Some (New ("attachdetachment timeout for volume " +:+ volumeHandle))
  | Closed :: _ => Some (New "volume attachment watch channel had been closed")
  | (Added attach | Modified attach) :: events =>
      match verifyStatus attach with inr e => Some e | inl true => None | inl false => watch_loop volumeHandle verifyStatus events end
  | Deleted :: _ => match verifyStatus None with inr e => Some e | inl _ => None end
  | (WatchError | Bookmark) :: events => watch_loop volumeHandle verifyStatus events
  end.
Definition waitForVolumeAttachDetachStatus (attach : VolumeAttachment) (volumeHandle attachID : string) (verifyStatus : option VolumeAttachment → bool + Error) : M W unit :=
  match verifyStatus (Some attach) with
  | inr e => fail e
  | inl true => mret tt
  | inl false =>
      r ← attempt (query (va_Watch attachID (va_ResourceVersion attach)));
      match r with
      | inr e => fail (New ("watch error:" +:+ e_Text e +:+ " for volume " +:+ volumeHandle))
      | inl events => match watch_loop volumeHandle verifyStatus events with None => mret tt | Some e => fail e end
      end
  end.
Definition waitForVolumeAttachment (volumeHandle attachID : string) : M W string :=
  r ← read (va_Get attachID);
  match r with
  | inr e => fail (New ("volume " +:+ volumeHandle +:+ " has GET error for volume attachment " +:+ attachID +:+ ": " +:+ e_Text e))
  | inl attach => waitForVolumeAttachDetachStatus attach volumeHandle attachID verifyAttachmentStatus;; mret (va_Name attach)
  end.
Definition waitForVolumeDetachment (volumeHandle attachID : string) : M W unit :=
  r ← read (va_Get attachID);
  match r with
  | inr e => if is_kind NotFound e then mret tt
             else fail (New (log ("detacher.WaitForDetach failed for volume [" +:+ volumeHandle +:+ "] (will continue to try): " +:+ e_Text e)))
  | inl attach => waitForVolumeAttachDetachStatus attach volumeHandle attachID verifyDetachmentStatus
  end.

Definition new_attachment (spec : Spec) (pv : PersistentVolume) (pvSrc : CSIPersistentVolumeSource) (node : string) : VolumeAttachment := {|
  va_Name := getAttachmentName (pvs_VolumeHandle pvSrc) (pvs_Driver pvSrc) node; va_ResourceVersion := ""; va_NodeName := node; va_Attacher := pvs_Driver pvSrc;
  va_PersistentVolumeName := if spec_InlineVolumeSpecForCSIMigration spec then None else Some (pv_Name pv);
  va_InlineVolumeSpec := if spec_InlineVolumeSpecForCSIMigration spec then Some (pv_Spec pv) else None;
  va_DeletionTimestamp := None; va_Attached := false; va_AttachError := None; va_DetachError := None; va_AttachmentMetadata := None |}.
(** The device path it returns is empty. *)
Definition Attach (spec : option Spec) (nodeName : string) : M W string :=
  match spec with
  | None => fail (New "missing spec")
  | Some sp =>
      pvSrc ← prefixed (log "attacher.Attach failed to get CSIPersistentVolumeSource: ") (check (getPVSourceFromSpec CSIInlineVolume spec));
      pv ← deref "spec.PersistentVolume" (spec_PersistentVolume sp);
      r ← attempt (act (va_Create (new_attachment sp pv pvSrc nodeName)));
      match r with
      | inr e => if is_kind AlreadyExists e then mret tt else fail (New (log ("attacher.Attach failed: " +:+ e_Text e)))
      | inl _ => mret tt
      end;;
      waitForVolumeAttachment (pvs_VolumeHandle pvSrc) (getAttachmentName (pvs_VolumeHandle pvSrc) (pvs_Driver pvSrc) nodeName);;
      mret ""
  end.
Definition WaitForAttach (p : csiPlugin) (spec : option Spec) : M W string :=
  source ← prefixed (log "attacher.WaitForAttach failed to extract CSI volume source: ") (check (getPVSourceFromSpec CSIInlineVolume spec));
  waitForVolumeAttachment (pvs_VolumeHandle source) (getAttachmentName (pvs_VolumeHandle source) (pvs_Driver source) (VolumeHost.nodeName (host p))).
(** The answer for each specification, by its place in the list *)
Definition is_attached (p : csiPlugin) (nodeName : string) (spec : Spec) : M W bool :=
  match getPVSourceFromSpec CSIInlineVolume (Some spec) with
  | inr _ => mret false
  | inl pvSrc =>
      skip ← attempt (skipAttach p (pvs_Driver pvSrc));
      match skip with
      | inl true => mret true
      | _ => r ← read (va_Get (getAttachmentName (pvs_VolumeHandle pvSrc) (pvs_Driver pvSrc) nodeName));
             mret (match r with inl attach => va_Attached attach | inr _ => false end)
      end
  end.
Fixpoint VolumesAreAttached (p : csiPlugin) (specs : list (option Spec)) (nodeName : string) : M W (list bool) :=
  match specs with
  | [] => mret []
  | None :: _ => fail (New "missing spec")
  | Some spec :: specs => a ← is_attached p nodeName spec; rest ← VolumesAreAttached p specs nodeName; mret (a :: rest)
  end.
Definition detach_attachment (attachID volID : string) : M W unit :=
  r ← attempt (act (va_Delete attachID));
  match r with
  | inr e => if is_kind NotFound e then mret tt
             else fail (New (log ("detacher.Detach failed to delete VolumeAttachment [" +:+ attachID +:+ "]: " +:+ e_Text e)))
  | inl _ => waitForVolumeDetachment volID attachID
  end.
Definition Detach (volumeName nodeName : string) : M W unit :=
  if bool_decide (volumeName = "") then fail (New "missing expected parameter volumeName")
  else
    '(attachID, volID) ← (if isAttachmentName volumeName then mret (volumeName, volumeName)
                          else match split_on volNameSep volumeName with
                               | [driverName; volID] => mret (getAttachmentName volID driverName nodeName, volID)
                               | _ => fail (New "volumeName missing expected data")
                               end);
    detach_attachment attachID volID.

(** ** The directory a device is staged in *)
Definition persistentVolumeInGlobalPath : string := "pv".
Definition globalMountInGlobalPath : string := "globalmount".
Definition makeDeviceMountPath (p : csiPlugin) (spec : option Spec) : M W string :=
  match spec with
  | None => fail (New (log "makeDeviceMountPath failed, spec is nil"))
  | Some spec =>
      pv ← deref "spec.PersistentVolume" (spec_PersistentVolume spec);
      if bool_decide (pv_Name pv = "") then fail (New (log "makeDeviceMountPath failed, pv name empty"))
      else mret (Join [VolumeHost.GetPluginDir (host p) (GetPluginName p); persistentVolumeInGlobalPath; pv_Name pv; globalMountInGlobalPath])
  end.
Definition GetDeviceMountPath (p : csiPlugin) (spec : option Spec) : M W string :=
  prefixed (log "attacher.GetDeviceMountPath failed to make device mount path: ") (makeDeviceMountPath p spec).
Definition getDriverAndVolNameFromDeviceMountPath (deviceMountPath : string) : M W (string * string) :=
  let dir := Dir deviceMountPath in
  if negb (bool_decide (Base deviceMountPath = globalMountInGlobalPath))
  then fail (New (log ("getDriverAndVolNameFromDeviceMountPath failed, path did not end in " +:+ globalMountInGlobalPath)))
  else
    let pvName := Base dir in
    r ← read (pv_Get pvName);
    pv ← check r;
    match pvsp_CSI (pv_Spec pv) with
    | None => fail (New (log ("getDriverAndVolNameFromDeviceMountPath could not find CSI Persistent Volume Source for pv: " +:+ pvName)))
    | Some csiSource =>
        if bool_decide (pvs_Driver csiSource = "") then fail (New (log "getDriverAndVolNameFromDeviceMountPath failed, driver name empty"))
        else if bool_decide (pvs_VolumeHandle csiSource = "") then fail (New (log "getDriverAndVolNameFromDeviceMountPath failed, VolumeHandle empty"))
        else mret (pvs_Driver csiSource, pvs_VolumeHandle csiSource)
    end.
Definition GetDeviceMountRefs (deviceMountPath : string) : M W (list string) := r ← read (GetMountRefs deviceMountPath); check r.

(** ** Mount points *)
Definition isDirMounted (dir : string) : M W bool :=
  '(notMnt, err) ← read (IsLikelyNotMountPoint dir);
  match err with
  | Some e => if is_kind NotExist e then mret (negb notMnt) else fail e
  | None => mret (negb notMnt)
  end.
(** os.Remove, where nothing need be there *)
Definition remove_if_there (path prefix : string) : M W unit :=
  r ← attempt (act (os_Remove path));
  match r with inr e => if is_kind NotExist e then mret tt else fail (New (log (prefix +:+ " [" +:+ path +:+ "]: " +:+ e_Text e))) | inl _ => mret tt end.
Definition removeMountDir (mountPath : string) : M W unit :=
  mnt ← isDirMounted mountPath;
  if mnt : bool then mret tt
  else
    let volPath := Dir mountPath in
    remove_if_there mountPath "failed to remove dir";;
    remove_if_there (Join [volPath; volDataFileName]) "failed to delete volume data file";;
    remove_if_there volPath "failed to delete volume path".
(** Whether [dir] is mounted already, and whether its mount is a corrupted one, which is left to the driver *)
Definition mount_state (dir : string) (failed : Error → Error) : M W (bool * bool) :=
  r ← attempt (isDirMounted dir);
  match r with
  | inl mounted => mret (mounted, false)
  | inr e => corrupted ← read (isCorruptedDir dir); if corrupted : bool then mret (false, true) else fail (failed e)
  end.
(** A directory is made, and that it cannot be made is passed over when it is a corrupted mount. *)
Definition make_dir (dir prefix : string) (corrupted : bool) : M W unit :=
  r ← attempt (act (os_MkdirAll dir));
  match r with inr e => if corrupted then mret tt else fail (New (log (prefix +:+ quote dir +:+ ":  " +:+ e_Text e))) | inl _ => mret tt end.
Definition first_access_mode (pv : PersistentVolume) : M W string :=
  match pvsp_AccessModes (pv_Spec pv) with
  | None => mret ReadWriteOnce
  | Some [] => crash "index out of range [0] with length 0"
  | Some (m :: _) => mret m
  end.

(** ** csi_attacher.go: the device of an attached volume

    [csiClient] is an interface: nil at first; when no client could be made it holds a nil pointer, and is not nil any more. *)
Inductive ClientField := NoClient | NilPointer | TheClient (c : csiDriverClient).
Definition attacher_client (csiDrivers : gmap string DriversStore.Driver) (driverName prefix : string) : M (ClientField * W) csiDriverClient :=
  cl ← this;
  match cl with
  | TheClient c => mret c
  | NilPointer => crash "nil pointer: csi.NodeSupportsStageUnstage"
  | NoClient =>
      match newCsiDriverClient driverName csiDrivers with
      | inl c => update (λ _, TheClient c);; mret c
      | inr e => update (λ _, NilPointer);; fail (New (log (prefix +:+ e_Text e)))
      end
  end.
Definition stage_secrets (ref : option SecretReference) : M W (gmap string string) :=
  match ref with
  | None => mret ∅
  | Some r => s ← attempt (getCredentialsFromSecret r);
              match s with
              | inl data => mret data
              | inr e => fail (New ("fetching NodeStageSecretRef " +:+ sr_Namespace r +:+ "/" +:+ sr_Name r +:+ " failed: " +:+ e_Text e))
              end
  end.
Definition device_data (csiSource : CSIPersistentVolumeSource) : gmap string string :=
  <[volHandle := pvs_VolumeHandle csiSource]> {[key_driverName := pvs_Driver csiSource]}.
(** The error of getPublishContext is not looked at. *)
Definition stage_device (p : csiPlugin) (pv : PersistentVolume) (csiSource : CSIPersistentVolumeSource) (deviceMountPath : string) (csi : csiDriverClient) : M W unit :=
  stageUnstageSet ← NodeSupportsStageUnstage csi;
  if negb stageUnstageSet then mret tt
  else
    r ← attempt (getPublishContext p (pvs_VolumeHandle csiSource) (pvs_Driver csiSource) (VolumeHost.nodeName (host p)));
    nodeStageSecrets ← stage_secrets (pvs_NodeStageSecretRef csiSource);
    accessMode ← first_access_mode pv;
    NodeStageVolume csi (pvs_VolumeHandle csiSource) (match r with inl c => c | inr _ => None end) deviceMountPath (pvs_FSType csiSource) accessMode
      nodeStageSecrets (pvs_VolumeAttributes csiSource) (default [] (pvsp_MountOptions (pv_Spec pv))).
Definition MountDevice (csiDrivers : gmap string DriversStore.Driver) (p : csiPlugin) (spec : option Spec) (devicePath deviceMountPath : string) : M (ClientField * W) unit :=
  if bool_decide (deviceMountPath = "") then fail (New (log "attacher.MountDevice failed, deviceMountPath is empty"))
  else
    '(mounted, corruptedDir) ← on_world (mount_state deviceMountPath id);
    if mounted : bool then mret tt
    else match spec with
         | None => fail (New (log "attacher.MountDevice failed, spec is nil"))
         | Some sp =>
             csiSource ← prefixed (log "attacher.MountDevice failed to get CSIPersistentVolumeSource: ") (check (getPVSourceFromSpec CSIInlineVolume spec));
             pv ← deref "spec.PersistentVolume" (spec_PersistentVolume sp);
             on_world (make_dir deviceMountPath "attacher.MountDevice failed to create dir " corruptedDir);;
             let dataDir := Dir deviceMountPath in
             on_world (on_error (saveVolumeData dataDir volDataFileName (device_data csiSource)) (λ _, act (os_RemoveAll dataDir)));;
             on_error (csi ← attacher_client csiDrivers (pvs_Driver csiSource) "attacher.MountDevice failed to create newCsiDriverClient: ";
                       on_world (stage_device p pv csiSource deviceMountPath csi))
               (λ _, on_world (removeMountDir deviceMountPath))
         end.
Definition clean_global_mount (deviceMountPath : string) : M W unit :=
  prefixed (log ("failed to clean up global mount " +:+ Dir deviceMountPath +:+ ": ")) (removeMountDir deviceMountPath).
Definition unstage_device (volID deviceMountPath : string) (csi : csiDriverClient) : M W unit :=
  stageUnstageSet ← prefixed (log "attacher.UnmountDevice failed to check whether STAGE_UNSTAGE_VOLUME set: ") (NodeSupportsStageUnstage csi);
  if negb stageUnstageSet then clean_global_mount deviceMountPath
  else prefixed (log "attacher.UnmountDevice failed: ") (NodeUnstageVolume csi volID deviceMountPath);;
       clean_global_mount deviceMountPath.
(** The volume as the data saved beside the mount tell, or the persistent volume the path names *)
Definition device_volume (deviceMountPath : string) : M W (string * string) :=
  data ← attempt (loadVolumeData (Dir deviceMountPath) volDataFileName);
  match data with
  | inl data => mret (default "" (data !! key_driverName), default "" (data !! volHandle))
  | inr _ => getDriverAndVolNameFromDeviceMountPath deviceMountPath
  end.
Definition UnmountDevice (csiDrivers : gmap string DriversStore.Driver) (deviceMountPath : string) : M (ClientField * W) unit :=
  '(driverName, volID) ← on_world (device_volume deviceMountPath);
  csi ← attacher_client csiDrivers driverName "attacher.UnmountDevice failed to create newCsiDriverClient: ";
  on_world (unstage_device volID deviceMountPath csi).

(** ** The names of volumes and attachments *)

(** A volume name tells driver and handle apart as long as neither holds the separator. *)
Lemma split_volume_name driver handle :
  has_char volNameSep driver = false → has_char volNameSep handle = false → split_on volNameSep (driver +:+ String volNameSep handle) = [driver; handle].
Proof. intros Hd Hh. by rewrite split_on_cons, (split_on_no_char _ _ Hd), (split_on_no_char _ _ Hh). Qed.
Lemma split_longer c s : has_char c s = true → (2 <= length (split_on c s))%nat.
Proof.
  unfold has_char. intros [ [l r] [-> Hl]%cut_at_Some]%bool_decide_eq_true. rewrite split_on_cons, length_app.
  pose proof (split_on_ne c l). pose proof (split_on_ne c r). destruct (split_on c l), (split_on c r); try done. cbn. lia.
Qed.
Lemma split_ambiguous driver handle :
  has_char volNameSep driver || has_char volNameSep handle = true → ∀ a b, split_on volNameSep (driver +:+ String volNameSep handle) ≠ [a; b].
Proof.
  intros Hh a b E. apply (f_equal length) in E. rewrite split_on_cons, length_app in E. cbn in E.
  pose proof (split_on_ne volNameSep driver). pose proof (split_on_ne volNameSep handle).
  apply orb_true_iff in Hh as [Hc%split_longer|Hc%split_longer]; destruct (split_on volNameSep driver), (split_on volNameSep handle); cbn in *; try done; lia.
Qed.
(** The parts of a name are put together without anything between: different volumes can have one name. *)
Lemma attachment_name_ambiguous : getAttachmentName "vol" "a.b" "n" = getAttachmentName "vola" ".b" "n".
Proof. done. Qed.
Lemma attachment_name_recognised vol driver node : String.length (sha256 (vol +:+ driver +:+ node)) = 64%nat → isAttachmentName (getAttachmentName vol driver node) = true.
Proof.
  intros Hl. unfold isAttachmentName, getAttachmentName. apply andb_true_iff. split; [|by rewrite bool_decide_eq_true, str_length_app, Hl].
  rewrite !str_app_cons. done.
Qed.

(** ** The wait *)

(** What an event decides: nothing yet, or the result of the wait *)
Definition verdict (verifyStatus : option VolumeAttachment → bool + Error) (ev : Event) : option (option Error) :=
  match ev with
  | Added a | Modified a => match verifyStatus a with inr e => Some (Some e) | inl true => Some None | inl false => None end
  | Deleted => Some (match verifyStatus None with inr e => Some e | inl _ => None end)
  | WatchError | Bookmark => None
  | Closed => Some (Some (New "volume attachment watch channel had been closed"))
  end.
(** The loop is: the first event that decides, or else the timer. *)
Lemma watch_loop_first volumeHandle verifyStatus events :
  watch_loop volumeHandle verifyStatus events =
    default (Some (New ("attachdetachment timeout for volume " +:+ volumeHandle))) (head (omap (verdict verifyStatus) events)).
Proof. induction events as [|ev events IH]; [done|]. destruct ev as [a|a| | | |]; cbn; try done; by destruct (verifyStatus a) as [ [|]|e]. Qed.
Lemma head_omap_Some {A B} (f : A → option B) l b :
  head (omap f l) = Some b ↔ ∃ pre x post, l = pre ++ x :: post ∧ f x = Some b ∧ Forall (λ y, f y = None) pre.
Proof.
  induction l as [|a l IH]; cbn.
  - split; [done|]. by intros ([|? ?] & ? & ? & ? & _).
  - destruct (f a) as [c|] eqn:E; cbn.
    + split; [intros [= <-]; by exists [], a, l|]. intros ([|p pre] & x & post & [= -> ->] & Hx & Hp); [congruence|]. inversion Hp; congruence.
    + rewrite IH. split.
      * intros (pre & x & post & -> & Hx & Hp). exists (a :: pre), x, post. split_and!; [done..|by constructor].
      * intros ([|p pre] & x & post & [= -> ->] & Hx & Hp); [congruence|]. inversion Hp; subst. by exists pre, x, post.
Qed.
Definition attached (a : VolumeAttachment) : Prop := va_Attached a = true ∧ va_DeletionTimestamp a = None.
(** C24: A volume is waited for until it is attached. The wait succeeds exactly when the first observation that decides, of the object read at
    first and of those the watch delivers, is an attachment that is attached and not being deleted. An object that is being deleted, or
    has gone, ends it with an error at once, as does an error of the attacher, the end of the watch and the end of the time. *)
Theorem attachment_awaited volumeHandle attachID w w' name :
  waitForVolumeAttachment volumeHandle attachID w = Ret (w', inl name) ↔
  ∃ a, va_Get attachID w = inl a ∧ name = va_Name a ∧
    ((attached a ∧ w' = w) ∨
     (va_DeletionTimestamp a = None ∧ va_Attached a = false ∧ va_AttachError a = None ∧
      ∃ events, va_Watch attachID (va_ResourceVersion a) w = (w', inl events) ∧
        ∃ pre ev post b, events = pre ++ ev :: post ∧ (ev = Added (Some b) ∨ ev = Modified (Some b)) ∧ attached b ∧
          Forall (λ e, verdict verifyAttachmentStatus e = None) pre)).
Proof.
  unfold waitForVolumeAttachment, waitForVolumeAttachDetachStatus. rewrite read_bind. destruct (va_Get attachID w) as [a|e].
  2: { split; [done|]. by intros (? & ? & _). }
  assert (∀ ev, verdict verifyAttachmentStatus ev = Some None ↔ ∃ b, (ev = Added (Some b) ∨ ev = Modified (Some b)) ∧ attached b) as Hv.
  { intros ev. unfold attached. split.
    - destruct ev as [ [b|]|[b|]| | | |]; cbn; try done.
      all: destruct (va_DeletionTimestamp b) eqn:Hd; [done|]; destruct (va_Attached b) eqn:Hb; [intros _; exists b; split_and!; auto|by destruct (va_AttachError b)].
    - intros (b & [-> | ->] & Hb & Hd); cbn; by rewrite Hd, Hb. }
  cbn [verifyAttachmentStatus]. unfold attached at 1. destruct (va_DeletionTimestamp a) as [t|] eqn:Hd.
  { split; [done|]. intros (a' & [= <-] & _ & [ [ [_ ?] _]|(? & _)]); congruence. }
  destruct (va_Attached a) eqn:Ha.
  { rewrite ret_bind. split; [intros [= <- <-]; exists a; by split_and!; [| |left]|].
    intros (a' & [= <-] & -> & [ [_ ->]|(_ & ? & _)]); [done|congruence]. }
  destruct (va_AttachError a) as [m|] eqn:He.
  { split; [done|]. intros (a' & [= <-] & _ & [ [ [? _] _]|(_ & _ & ? & _)]); congruence. }
  rewrite bind_eq, attempt_bind. unfold query. destruct (va_Watch attachID (va_ResourceVersion a) w) as [w1 [events|e] ] eqn:Ew.
  2: { split; [done|]. intros (a' & [= <-] & _ & [ [ [? _] _]|(_ & _ & _ & ? & E & _)]); congruence. }
  rewrite watch_loop_first. split.
  - destruct (head (omap (verdict verifyAttachmentStatus) events)) as [ [e|]|] eqn:Eh; cbn; [done| |done]. intros [= <- <-].
    apply head_omap_Some in Eh as (pre & ev & post & -> & (b & Hb & Hab)%Hv & Hp). exists a. split_and!; [done..|]. right. split_and!; [done..|]. eauto 10.
  - intros (a' & [= <-] & -> & [ [ [? _] _]|(_ & _ & _ & events' & E & pre & ev & post & b & -> & Hev & Hb & Hp)]); [congruence|].
    rewrite Ew in E. injection E as -> ->.
    assert (head (omap (verdict verifyAttachmentStatus) (pre ++ ev :: post)) = Some None) as ->; [|done].
    apply head_omap_Some. exists pre, ev, post. split_and!; [done| |done]. apply Hv. eauto.
Qed.

(** *** Detaching *)
(** The evidence that an attachment has gone: the API server does not know it, or the watch tells that it was deleted. *)
Definition gone_event (ev : Event) : Prop := ev = Deleted ∨ ev = Added None ∨ ev = Modified None.
Definition gone (attachID : string) (w : W) : Prop :=
  (∃ w1 e, va_Delete attachID w = (w1, Some e) ∧ is_kind NotFound e = true) ∨
  (∃ w1, va_Delete attachID w = (w1, None) ∧
    ((∃ e, va_Get attachID w1 = inr e ∧ is_kind NotFound e = true) ∨
     (∃ a w2 pre ev post, va_Get attachID w1 = inl a ∧ va_DetachError a = None ∧ va_Watch attachID (va_ResourceVersion a) w1 = (w2, inl (pre ++ ev :: post)) ∧
        gone_event ev ∧ Forall (λ e, verdict verifyDetachmentStatus e = None) pre))).
Lemma verdict_gone ev : verdict verifyDetachmentStatus ev = Some None ↔ gone_event ev.
Proof.
  unfold gone_event. destruct ev as [ [b|]|[b|]| | | |]; cbn; try (split; [done|by intros [?|[?|?] ] ]); try (split; auto; done).
  all: destruct (va_DetachError b); split; try done; by intros [?|[?|?] ].
Qed.
Lemma detached_gone attachID volID w w' : detach_attachment attachID volID w = Ret (w', inl tt) → gone attachID w.
Proof.
  unfold detach_attachment, gone. rewrite attempt_bind. unfold act. destruct (va_Delete attachID w) as [w1 [e|] ] eqn:Ed.
  { destruct (is_kind NotFound e) eqn:Hk; [|done]. intros _. left. eauto. }
  unfold waitForVolumeDetachment, waitForVolumeAttachDetachStatus. rewrite read_bind. intros Hw. right. exists w1. split; [done|].
  destruct (va_Get attachID w1) as [a|e]; [|destruct (is_kind NotFound e) eqn:Hk; [left; eauto|done] ]. right.
  cbn [verifyDetachmentStatus] in Hw. destruct (va_DetachError a) eqn:He; [done|]. rewrite attempt_bind in Hw. unfold query in Hw.
  destruct (va_Watch attachID (va_ResourceVersion a) w1) as [w2 [events|e] ] eqn:Ew; [|done]. rewrite watch_loop_first in Hw.
  destruct (head (omap (verdict verifyDetachmentStatus) events)) as [ [e|]|] eqn:Eh; cbn in Hw; [done| |done].
  apply head_omap_Some in Eh as (pre & ev & post & -> & Hev%verdict_gone & Hp). exists a, w2, pre, ev, post. by split_and!.
Qed.
(** C27: Detaching undoes attaching, of volumes whose name does not look like that of an attachment (csi- at its start and 68 long). The name
    is enough to find the attachment object that Attach makes for the volume on a node: when neither the driver nor the handle holds the separator,
    Detach deletes exactly that object, and succeeds only when it has gone. When one of them holds it, the volume has a name and is attached,
    and Detach refuses the name without touching the cluster. *)
Theorem detach_undoes_attach spec sp pv src n node w :
  getPVSourceFromSpec CSIInlineVolume spec = inl src → spec = Some sp → spec_PersistentVolume sp = Some pv →
  GetVolumeName spec = inl n → isAttachmentName n = false →
  let attachID := va_Name (new_attachment sp pv src node) in
  if has_char volNameSep (pvs_Driver src) || has_char volNameSep (pvs_VolumeHandle src)
  then Detach n node w = Ret (w, inr (New "volumeName missing expected data"))
  else Detach n node w = detach_attachment attachID (pvs_VolumeHandle src) w ∧ ∀ w', Detach n node w = Ret (w', inl tt) → gone attachID w.
Proof.
  intros Hs -> Hpv Hn Ha. unfold GetVolumeName in Hn. rewrite Hs in Hn. injection Hn as <-. cbv zeta.
  set (n := pvs_Driver src +:+ String volNameSep (pvs_VolumeHandle src)) in *.
  assert (n ≠ "") as Hne by (unfold n; destruct (pvs_Driver src); done).
  unfold Detach. rewrite bool_decide_eq_false_2 by done. rewrite Ha. destruct (_ || _) eqn:Hc.
  - pose proof (split_ambiguous (pvs_Driver src) (pvs_VolumeHandle src) Hc) as Hsp. fold n in Hsp. destruct (split_on volNameSep n) as [|a [|b [|c l] ] ]; try done.
    by destruct (Hsp a b).
  - apply orb_false_iff in Hc as [Hd Hh]. unfold n. rewrite split_volume_name by done. split; [done|]. intros w'. rewrite ret_bind. apply detached_gone.
Qed.

(** ** Mount points *)
Definition data_file (mountPath : string) : string := Join [Dir mountPath; volDataFileName].
Section Laws.
Context `{!CsiHostLaws W}.
Lemma remove_if_there_spec path pre w w' : remove_if_there path pre w = Ret (w', inl tt) → missing path w' ∧ ∀ q, missing q w → missing q w'.
Proof.
  unfold remove_if_there. rewrite attempt_bind. unfold act. destruct (os_Remove path w) as [w1 e] eqn:E. intros Hr.
  assert (w' = w1 ∧ from_option (is_kind NotExist) true e = true) as [-> He] by (destruct e as [e|]; cbn in *; [destruct (is_kind NotExist e); [|done]|]; by injection Hr as ->).
  split; [by eapply remove_missing|]. intros q Hq. pose proof (remove_keeps_missing path q w Hq) as Hk. by rewrite E in Hk.
Qed.
(** The directory of a mount, the data beside it and the directory of both are removed, unless it is still mounted. *)
Lemma remove_mount_dir_spec mountPath w w' :
  removeMountDir mountPath w = Ret (w', inl tt) →
  (isDirMounted mountPath w = Ret (w, inl true) ∧ w' = w) ∨ (missing mountPath w' ∧ missing (data_file mountPath) w' ∧ missing (Dir mountPath) w').
Proof.
  unfold removeMountDir. rewrite bind_eq. destruct (isDirMounted mountPath w) as [ [w0 [m|e] ]| |] eqn:E; [|done..].
  assert (w0 = w) as -> by (unfold isDirMounted in E; rewrite read_bind in E; destruct (IsLikelyNotMountPoint mountPath w) as [nm [e|] ]; [destruct (is_kind NotExist e)|]; by injection E as ->).
  destruct m; [intros [= <-]; by left|]. intros (w1 & [] & R1 & Hr)%bind_ok. apply bind_ok in Hr as (w2 & [] & R2 & R3). right.
  apply remove_if_there_spec in R1 as [M1 _], R2 as [M2 K2], R3 as [M3 K3]. split_and!; auto.
Qed.

(** ** Staging *)
Context `{!CsiNodeLaws W}.
Lemma getPublishContext_moves p f h d n : moves (same_file f) (getPublishContext p h d n).
Proof. unfold getPublishContext, skipAttach, wait_for_cache. moves_tac. Qed.
Lemma stage_device_moves p f pv src path csi : inside path f = false → moves (same_file f) (stage_device p pv src path csi).
Proof.
  intros Hf. unfold stage_device. apply moves_bind; [exact _|apply supports_moves|]. intros [|]; cbn [negb]; [|apply moves_ret, _].
  apply moves_bind; [exact _|apply moves_attempt, getPublishContext_moves|]. intros r. apply moves_bind; [exact _| |].
  { unfold stage_secrets, getCredentialsFromSecret. moves_tac. }
  intros secrets. apply moves_bind; [exact _|unfold first_access_mode; moves_tac|]. intros am. by apply stage_moves.
Qed.
Lemma isDirMounted_bind {B} dir b (k : bool → M W B) w : isDirMounted dir w = Ret (w, inl b) → mbind (M := M W) k (isDirMounted dir) w = k b w.
Proof. intros E. by rewrite bind_eq, E. Qed.
(** The data file is beside the directory that is staged to, not in it. *)
Lemma data_file_outside d b : d ≠ "" → VolumeHost.segment b → b ≠ volDataFileName → inside (Join [d; b]) (data_file (Join [d; b])) = false.
Proof.
  intros Hd Hb Hn. unfold data_file. destruct (Dir_Join d b Hd Hb) as [-> _]. unfold inside, Join.
  assert (filter (λ s, s ≠ "") [d; b] = [d; b]) as -> by (rewrite !filter_cons, !decide_True by (done || apply Hb); done).
  assert (filter (λ s, s ≠ "") [d; volDataFileName] = [d; volDataFileName]) as -> by (rewrite !filter_cons, !decide_True by done; done).
  cbn [join]. apply orb_false_iff. split.
  - apply bool_decide_eq_false. intros E%str_app_inv_l%str_app_inv_l. by apply Hn.
  - apply not_true_iff_false. intros [t E]%prefixb_spec. rewrite <- !str_app_assoc in E. apply str_app_inv_l, str_app_inv_l in E.
    assert (has_char slash volDataFileName = true) as Hc; [|by vm_compute in Hc]. rewrite E, !has_char_app. change (has_char slash "/") with true.
    by rewrite orb_true_r.
Qed.
Lemma load_same_file dir f w w' r : same_file (Join [dir; f]) w w' → loadVolumeData dir f w = Ret (w, r) → loadVolumeData dir f w' = Ret (w', r).
Proof.
  unfold same_file, loadVolumeData, prefixed, read, check, mbind, M_bind. intros ->. destruct (os_ReadFile _ w) as [t|e]; [|by intros [= <-] ].
  destruct (json_Decode t); by intros [= <-].
Qed.
Lemma mount_state_free dir f w : isDirMounted dir w = Ret (w, inl false) → mount_state dir f w = Ret (w, inl (false, false)).
Proof. intros E. unfold mount_state. by rewrite attempt_bind, E. Qed.
Lemma attacher_client_world drivers name pre cl w cl' w' r : attacher_client drivers name pre (cl, w) = Ret ((cl', w'), r) → w' = w.
Proof. unfold attacher_client. rewrite this_bind. destruct cl as [| |c]; [|done|by intros [= _ <- _] ]. destruct (newCsiDriverClient _ _); by intros [= _ <- _]. Qed.
(** A device that was mounted leaves its volume in the data beside it. *)
Lemma mount_device_saves drivers p spec dev d b cl w cl' w' :
  d ≠ "" → VolumeHost.segment b → b ≠ volDataFileName → let path := Join [d; b] in
  isDirMounted path w = Ret (w, inl false) → MountDevice drivers p spec dev path (cl, w) = Ret ((cl', w'), inl tt) →
  ∃ src, getPVSourceFromSpec CSIInlineVolume spec = inl src ∧ loadVolumeData d volDataFileName w' = Ret (w', inl (device_data src)).
Proof.
  intros Hd Hb Hn path Hm. destruct (Dir_Join d b Hd Hb) as [Hdir _]. fold path in Hdir. unfold MountDevice. case_bool_decide; [done|].
  rewrite on_world_bind, (mount_state_free _ _ _ Hm). destruct spec as [sp|]; [|done].
  destruct (getPVSourceFromSpec CSIInlineVolume (Some sp)) as [src|e]; [|done]. intros Hr.
  apply bind_ok in Hr as ([c0 w0] & ? & [= <- <- <-]%prefixed_ok & Hr). apply bind_ok in Hr as ([c1 w1] & pv & Hpv & Hr).
  assert (w1 = w) as -> by (unfold deref in Hpv; destruct (spec_PersistentVolume sp); [by injection Hpv|done]).
  apply bind_ok in Hr as ([c2 w2] & ? & [-> _]%on_world_ok & Hr). cbv zeta in Hr. rewrite Hdir in Hr.
  apply bind_ok in Hr as ([c3 w3] & [] & [-> Hsave%on_error_ok]%on_world_ok & Hr).
  apply on_error_ok, bind_ok in Hr as ([c4 w4] & csi & ->%attacher_client_world & [-> Hst]%on_world_ok).
  exists src. split; [done|]. eapply load_same_file; [|by eapply load_saved].
  eapply stage_device_moves; [|exact Hst]. replace (Join [d; volDataFileName]) with (data_file path) by (unfold data_file; by rewrite Hdir). by apply data_file_outside.
Qed.
(** C26: What MountDevice stages, UnmountDevice unstages. After a device was staged at a directory, its volume is in the data beside the
    directory, and as long as that file reads the same, in whatever world, UnmountDevice of a new attacher asks the driver of that volume, and no
    other, to unstage that volume from that directory. When UnmountDevice then succeeds, the directory, the data and the directory of both have
    gone, unless the driver has left something mounted there. *)
Theorem staged_is_unstaged drivers p spec dev d b cl w cl' w' :
  d ≠ "" → VolumeHost.segment b → b ≠ volDataFileName → let path := Join [d; b] in
  isDirMounted path w = Ret (w, inl false) → MountDevice drivers p spec dev path (cl, w) = Ret ((cl', w'), inl tt) →
  ∃ src, getPVSourceFromSpec CSIInlineVolume spec = inl src ∧
    ∀ drivers2 w2, same_file (data_file path) w' w2 →
      UnmountDevice drivers2 path (NoClient, w2) =
        match newCsiDriverClient (pvs_Driver src) drivers2 with
        | inl c => on_world (unstage_device (pvs_VolumeHandle src) path c) (TheClient c, w2)
        | inr e => Ret ((NilPointer, w2), inr (New (log ("attacher.UnmountDevice failed to create newCsiDriverClient: " +:+ e_Text e))))
        end ∧
      ∀ cl3 w3, UnmountDevice drivers2 path (NoClient, w2) = Ret ((cl3, w3), inl tt) →
        isDirMounted path w3 = Ret (w3, inl true) ∨ (missing path w3 ∧ missing (data_file path) w3 ∧ missing d w3).
Proof.
  intros Hd Hb Hn path Hm Hr. destruct (mount_device_saves drivers p spec dev d b cl w cl' w' Hd Hb Hn Hm Hr) as (src & Hs & Hl). exists src. split; [done|].
  destruct (Dir_Join d b Hd Hb) as [Hdir _]. fold path in Hdir. intros drivers2 w2 Hw2.
  assert (device_volume path w2 = Ret (w2, inl (pvs_Driver src, pvs_VolumeHandle src))) as Hv.
  { unfold device_volume. rewrite Hdir, attempt_bind. erewrite load_same_file; [|by unfold data_file in Hw2; rewrite Hdir in Hw2|exact Hl]. by vm_compute. }
  assert (UnmountDevice drivers2 path (NoClient, w2) = match newCsiDriverClient (pvs_Driver src) drivers2 with
        | inl c => on_world (unstage_device (pvs_VolumeHandle src) path c) (TheClient c, w2)
        | inr e => Ret ((NilPointer, w2), inr (New (log ("attacher.UnmountDevice failed to create newCsiDriverClient: " +:+ e_Text e))))
        end) as HU.
  { unfold UnmountDevice. rewrite on_world_bind, Hv. unfold attacher_client. rewrite bind_eq, this_bind. by destruct (newCsiDriverClient _ _). }
  split; [exact HU|]. rewrite HU. intros cl3 w3. destruct (newCsiDriverClient _ _) as [c|e]; [|done]. intros [_ Hu]%on_world_ok.
  unfold unstage_device in Hu. apply bind_ok in Hu as (w4 & st & _ & Hu).
  assert (∃ w5, clean_global_mount path w5 = Ret (w3, inl tt)) as [w5 Hc%prefixed_ok].
  { destruct st; cbn [negb] in Hu; [apply bind_ok in Hu as (w5 & [] & _ & Hu)|]; eauto. }
  apply remove_mount_dir_spec in Hc. rewrite Hdir in Hc. destruct Hc as [ [Hc ->]|Hc]; auto.
Qed.
End Laws.

(** *** Behaviour that is not meant *)
(** An attacher that could not make a client once holds a nil pointer that is not nil, and crashes when it is used again. *)
Lemma second_unmount_crashes drivers path w driver vol drivers' :
  device_volume path w = Ret (w, inl (driver, vol)) → drivers !! driver = None → driver ≠ "" →
  ∃ e, UnmountDevice drivers path (NoClient, w) = Ret ((NilPointer, w), inr e) ∧
       UnmountDevice drivers' path (NilPointer, w) = Panic "nil pointer: csi.NodeSupportsStageUnstage".
Proof.
  intros Hv Hd Hn. unfold UnmountDevice, attacher_client, newCsiDriverClient, DriversStore.Get.
  eexists. split; rewrite on_world_bind, Hv, bind_eq, this_bind; [|done]. by rewrite bool_decide_eq_false_2, Hd by done.
Qed.
(** A device is staged without the metadata of its attachment when the attachment cannot be read: the error is overwritten. *)
Lemma publish_context_error_ignored p pv src path csi w w1 e am :
  NodeSupportsStageUnstage csi w = Ret (w1, inl true) →
  getPublishContext p (pvs_VolumeHandle src) (pvs_Driver src) (VolumeHost.nodeName (host p)) w1 = Ret (w1, inr e) →
  pvs_NodeStageSecretRef src = None → first_access_mode pv w1 = Ret (w1, inl am) →
  stage_device p pv src path csi w =
    NodeStageVolume csi (pvs_VolumeHandle src) None path (pvs_FSType src) am ∅ (pvs_VolumeAttributes src) (default [] (pvsp_MountOptions (pv_Spec pv))) w1.
Proof. intros H1' H2' H3' H4'. unfold stage_device. rewrite bind_eq, H1'. cbn [negb]. rewrite attempt_bind, H2', H3'. cbn [stage_secrets]. by rewrite ret_bind, bind_eq, H4'. Qed.
(** A volume that is inline is supported also when the feature is off, and has then no source. *)
Lemma inline_supported_without_source spec v c :
  CSIInlineVolume = false → spec_Volume spec = Some v → vol_CSI v = Some c → spec_PersistentVolume spec = None →
  CanSupport (Some spec) = true ∧ ∃ e, getSourceFromSpec CSIInlineVolume (Some spec) = inr e.
Proof. intros -> Hv Hc Hp. unfold CanSupport, getSourceFromSpec. rewrite Hv, Hp. cbn. rewrite Hc. cbn. eauto. Qed.
End Plugin.
End Plugin.

(** The volume host of aranya is a host for its own plugin, and not a kubelet's: the lister of its CSIDriverLister is of another type. *)
Lemma aranya_host_is_no_kubelet vh :
  implements HostTypes.volumeHost_methods HostTypes.VolumeHost = true ∧ is_KubeletVolumeHost (aranya_plugin vh) = false.
Proof. by split; vm_compute. Qed.

(** ** Examples *)
Module CsiPluginExamples.
Import CsiSamples CsiClientExamples Client Plugin.
Definition name_hash (s : string) : string := "h:" +:+ s.
Definition p : csiPlugin := aranya_plugin vhost.
Definition stores : gmap string DriversStore.Driver := {["disk.example.com" := {| DriversStore.endpoint := "/disk.sock"; DriversStore.highestSupportedVersion := [1; 3] |}]}.
Definition volumeName : string := "disk.example.com^vol-1".
Definition attachment_1 : VolumeAttachment := new_attachment name_hash pvspec pv pvsource "dev-0".
Definition is_now_attached : VolumeAttachment := {|
  va_Name := va_Name attachment_1; va_ResourceVersion := "2"; va_NodeName := "dev-0"; va_Attacher := "disk.example.com"; va_PersistentVolumeName := Some "pv-1";
  va_InlineVolumeSpec := None; va_DeletionTimestamp := None; va_Attached := true; va_AttachError := None; va_DetachError := None; va_AttachmentMetadata := None |}.
Definition with_events (l : list Event) (w : World) : World := {|
  files := files w; mounted := mounted w; attachments := attachments w; volumes := volumes w; drivers := drivers w; events := l; calls := calls w |}.
Definition answer {S A} (o : outcome (S * (A + Error))) : option (A + Error) := match o with Ret (_, r) => Some r | _ => None end.
Definition after {S A} (o : outcome (S * (A + Error))) (d : S) : S := match o with Ret (s, _) => s | _ => d end.
(** An attachment is made and waited for. *)
Example attach_1 : answer (Attach true name_hash (Some pvspec) "dev-0" (with_events [WatchError; Modified (Some attachment_1); Modified (Some is_now_attached)] empty)) = Some (inl "").
Proof. by vm_compute. Qed.
Example attach_2 : answer (Attach true name_hash (Some pvspec) "dev-0" (with_events [Deleted; Modified (Some is_now_attached)] empty)) = Some (inr (New "volume attachment has been deleted")).
Proof. by vm_compute. Qed.
Example attach_3 : answer (Attach true name_hash (Some pvspec) "dev-0" empty) = Some (inr (New "attachdetachment timeout for volume vol-1")).
Proof. by vm_compute. Qed.
Lemma detach_undoes_attach_witness :
  Detach name_hash volumeName "dev-0" empty = detach_attachment "csi-h:vol-1disk.example.comdev-0" "vol-1" empty ∧ gone "csi-h:vol-1disk.example.comdev-0" empty.
Proof.
  destruct (detach_undoes_attach true name_hash (Some pvspec) pvspec pv pvsource volumeName "dev-0" empty) as [H1 H2]; [vm_compute; reflexivity..|].
  split; [exact H1|]. apply (H2 empty). vm_compute. reflexivity.
Defined.
(** Not meant: the name of this volume is taken for that of an attachment. Its attachment stays, and Detach succeeds. *)
Definition long_driver : string := "csi-storage.provisioner.of.the.second.site.storage.example.com".
Definition long_volume : PersistentVolume := {| pv_Name := "pv-2"; pv_Spec := {|
  pvsp_CSI := Some {| pvs_Driver := long_driver; pvs_VolumeHandle := "vol-1"; pvs_FSType := ""; pvs_VolumeAttributes := None;
                      pvs_NodePublishSecretRef := None; pvs_NodeStageSecretRef := None |};
  pvsp_AccessModes := None; pvsp_MountOptions := None; pvsp_VolumeMode := None |} |}.
Definition long_spec : Spec := {| spec_Volume := None; spec_PersistentVolume := Some long_volume; spec_ReadOnly := false; spec_InlineVolumeSpecForCSIMigration := false |}.
Definition long_attached : World := after (Attach true name_hash (Some long_spec) "dev-0" empty) empty.
Definition long_attachment (w : World) : option string := attachments w !! (getAttachmentName name_hash "vol-1" long_driver "dev-0") ≫= va_PersistentVolumeName.
Definition long_detached := Detach name_hash (long_driver +:+ "^vol-1") "dev-0" long_attached.
Example taken_for_an_attachment : GetVolumeName true (Some long_spec) = inl (long_driver +:+ "^vol-1") ∧ long_attachment long_attached = Some "pv-2" ∧
  answer long_detached = Some (inl tt) ∧ long_attachment (after long_detached empty) = Some "pv-2".
Proof. split_and!; vm_compute; reflexivity. Qed.
Definition staging : string := "/var/lib/kubelet/plugins/kubernetes.io/csi/pv/pv-1/globalmount".
Example staging_path : GetDeviceMountPath p (Some pvspec) empty = Ret (empty, inl staging).
Proof. by vm_compute. Qed.
Definition mounted_world : World := (after (MountDevice true name_hash stores p (Some pvspec) "" staging (NoClient, empty)) (NoClient, empty)).2.
Lemma staged_is_unstaged_witness :
  (after (UnmountDevice stores staging (NoClient, mounted_world)) (NoClient, empty)).2 =
    called "unstage vol-1 at /var/lib/kubelet/plugins/kubernetes.io/csi/pv/pv-1/globalmount" (called "stage vol-1 at /var/lib/kubelet/plugins/kubernetes.io/csi/pv/pv-1/globalmount" empty).
Proof.
  destruct (staged_is_unstaged true name_hash stores p (Some pvspec) "" "/var/lib/kubelet/plugins/kubernetes.io/csi/pv/pv-1" "globalmount" NoClient empty
    (TheClient {| driverName := "disk.example.com"; addr := "/disk.sock"; nodeV1ClientCreator := true |}) mounted_world) as (src & Hs & Hu);
    [discriminate|by split; vm_compute|discriminate|vm_compute; reflexivity|vm_compute; reflexivity|].
  vm_compute in Hs. injection Hs as <-. destruct (Hu stores mounted_world eq_refl) as [E _]. change (Join _) with staging in E. rewrite E. vm_compute. reflexivity.
Defined.
(** A device staged when its attachment is not there, and without a word about it. *)
Example staged_unattached : calls mounted_world = ["stage vol-1 at /var/lib/kubelet/plugins/kubernetes.io/csi/pv/pv-1/globalmount"] ∧
  answer (getPublishContext name_hash p "vol-1" "disk.example.com" "dev-0" empty) = Some (inr (err NotFound "not found")).
Proof. by split; vm_compute. Qed.
End CsiPluginExamples.
