(* ===== verification/CsiMounter.v ===== *)
(** * The CSI plugin: mounting a volume for a pod

    src/pkg/virtualnode/storage/csi/csi_mounter.go, with NewMounter, NewUnmounter and ConstructVolumeSpec of csi_plugin.go. A mounter publishes a
    volume to a directory of the pod through the driver and keeps what is needed to take it down again in a file beside that directory, from which a
    restarted process rebuilds the volume. *)
From S2P Require Import Prelude Effects GoNet K8s StorageManager CsiBase CsiClient CsiPlugin.
Open Scope Z_scope.

Module Mounter.
Import Client Plugin.
(** csiMountMgr; its plugin is an argument. The specification is that of the caller: its maps are shared with the mounter. *)
Record csiMountMgr := {
  getter : csiClientGetter; spec : option Spec; pod : option Pod; podUID : string; driverName : string; volumeLifecycleMode : string;
  volumeID : string; specVolumeID : string; readOnly : bool; supportsSELinux : bool; publishContext : strings_map
}.
Definition set_getter (g : csiClientGetter) (c : csiMountMgr) : csiMountMgr := {|
  getter := g; spec := spec c; pod := pod c; podUID := podUID c; driverName := driverName c; volumeLifecycleMode := volumeLifecycleMode c;
  volumeID := volumeID c; specVolumeID := specVolumeID c; readOnly := readOnly c; supportsSELinux := supportsSELinux c; publishContext := publishContext c |}.
Definition set_spec (s : option Spec) (c : csiMountMgr) : csiMountMgr := {|
  getter := getter c; spec := s; pod := pod c; podUID := podUID c; driverName := driverName c; volumeLifecycleMode := volumeLifecycleMode c;
  volumeID := volumeID c; specVolumeID := specVolumeID c; readOnly := readOnly c; supportsSELinux := supportsSELinux c; publishContext := publishContext c |}.
Definition set_selinux (b : bool) (c : csiMountMgr) : csiMountMgr := {|
  getter := getter c; spec := spec c; pod := pod c; podUID := podUID c; driverName := driverName c; volumeLifecycleMode := volumeLifecycleMode c;
  volumeID := volumeID c; specVolumeID := specVolumeID c; readOnly := readOnly c; supportsSELinux := b; publishContext := publishContext c |}.
Definition set_publishContext (x : strings_map) (c : csiMountMgr) : csiMountMgr := {|
  getter := getter c; spec := spec c; pod := pod c; podUID := podUID c; driverName := driverName c; volumeLifecycleMode := volumeLifecycleMode c;
  volumeID := volumeID c; specVolumeID := specVolumeID c; readOnly := readOnly c; supportsSELinux := supportsSELinux c; publishContext := x |}.

Section Mounter.
Context {W : Type} `{CsiKube W} `{CsiHost W} `{CsiNode W} `{VolumeJSON} (CSIInlineVolume : bool) (sha256 : string → string) (p : csiPlugin).
Definition GetPath (c : csiMountMgr) : string := Join [getTargetPath (podUID c) (specVolumeID c) (host p); "mount"].

(** ** csi_plugin.go: mounters and the data they leave *)
Definition volume_data (specName handle driver node mode : string) : gmap string string :=
  <[specVolID := specName]> (<[volHandle := handle]> (<[key_driverName := driver]> (<[key_nodeName := node]> (<[key_volumeLifecycleMode := mode]>
    {[attachmentID := getAttachmentName sha256 handle driver node]})))).
Definition NewMounter (sp : option Spec) (pd : Pod) : M W csiMountMgr :=
  src ← check (getSourceFromSpec CSIInlineVolume sp);
  s ← deref "spec" sp;
  let '(driver, handle, ro) := match src with
    | Inline v => (vs_Driver v, makeVolumeHandle sha256 (pod_UID pd) (spec_Name s), default false (vs_ReadOnly v))
    | Persistent v => (pvs_Driver v, pvs_VolumeHandle v, spec_ReadOnly s)
    end in
  mode ← check (getVolumeLifecycleMode CSIInlineVolume sp);
  supportsVolumeLifecycleMode p driver mode;;
  (if host_KubeClient p then mret tt else fail (New (log "failed to get a kubernetes client")));;
  (if is_KubeletVolumeHost p then mret tt else fail (New (log "cast from VolumeHost to KubeletVolumeHost failed")));;
  let mounter := {|
    getter := new_getter driver; spec := sp; pod := Some pd; podUID := pod_UID pd; driverName := driver; volumeLifecycleMode := mode;
    volumeID := handle; specVolumeID := spec_Name s; readOnly := ro; supportsSELinux := false; publishContext := None |} in
  let dataDir := Dir (GetPath mounter) in
  make_dir dataDir "failed to create dir " false;;
  prefixed (log "failed to save volume info data: ")
    (on_error (saveVolumeData dataDir volDataFileName (volume_data (spec_Name s) handle driver (VolumeHost.nodeName (host p)) mode)) (λ _, act (os_RemoveAll dataDir)));;
  mret mounter.
Definition NewUnmounter (specName uid : string) : M W csiMountMgr :=
  (if is_KubeletVolumeHost p then mret tt else fail (New (log "cast from VolumeHost to KubeletVolumeHost failed")));;
  let unmounter driver handle := {|
    getter := new_getter driver; spec := None; pod := None; podUID := uid; driverName := driver; volumeLifecycleMode := "";
    volumeID := handle; specVolumeID := specName; readOnly := false; supportsSELinux := false; publishContext := None |} in
  let dir := GetPath (unmounter "" "") in
  data ← prefixed (log ("unmounter failed to load volume data file [" +:+ dir +:+ "]: ")) (loadVolumeData (Dir dir) volDataFileName);
  mret (unmounter (default "" (data !! key_driverName)) (default "" (data !! volHandle))).
Definition constructVolSourceSpec (volSpecName driverName : string) : Spec := {|
  spec_Volume := Some {| vol_Name := volSpecName; vol_CSI := Some {|
    vs_Driver := driverName; vs_ReadOnly := None; vs_FSType := None; vs_VolumeAttributes := None; vs_NodePublishSecretRef := None |} |};
  spec_PersistentVolume := None; spec_ReadOnly := false; spec_InlineVolumeSpecForCSIMigration := false |}.
Definition construct_pv (mode volSpecName driverName volumeHandle : string) : Spec := {|
  spec_Volume := None;
  spec_PersistentVolume := Some {| pv_Name := volSpecName; pv_Spec := {|
    pvsp_CSI := Some {| pvs_Driver := driverName; pvs_VolumeHandle := volumeHandle; pvs_FSType := ""; pvs_VolumeAttributes := None;
                        pvs_NodePublishSecretRef := None; pvs_NodeStageSecretRef := None |};
    pvsp_AccessModes := None; pvsp_MountOptions := None; pvsp_VolumeMode := Some mode |} |};
  spec_ReadOnly := false; spec_InlineVolumeSpecForCSIMigration := false |}.
Definition constructPVSourceSpec : string → string → string → Spec := construct_pv PersistentVolumeFilesystem.
Definition ConstructVolumeSpec (volumeName mountPath : string) : M W Spec :=
  volData ← prefixed (log ("plugin.ConstructVolumeSpec failed loading volume data using [" +:+ mountPath +:+ "]: ")) (loadVolumeData mountPath volDataFileName);
  let get key := default "" (volData !! key) in
  if inlineEnabled && bool_decide (get key_volumeLifecycleMode = VolumeLifecycleEphemeral)
  then mret (constructVolSourceSpec (get specVolID) (get key_driverName))
  else mret (constructPVSourceSpec (get specVolID) (get key_driverName) (get volHandle)).

(** ** csi_mounter.go *)
Definition get_client (csiDrivers : gmap string DriversStore.Driver) : M (csiMountMgr * W) csiDriverClient :=
  c ← this;
  let '(g, r) := Get_client csiDrivers (getter c) in
  update (set_getter g);; prefixed (log "mounter.SetUpAt failed to get CSI client: ") (check r).
Definition podAttributes (c : csiMountMgr) : M W strings_map :=
  _ ← attempt (wait_for_cache p);
  if negb (csiDriverLister p) then fail (New "CSIDriverLister not found")
  else
    r ← read (csiDriver_Get (driverName c));
    match r with
    | inr e => if is_kind NotFound e then mret None else fail e
    | inl d =>
        if negb (is_true (drv_PodInfoOnMount d)) then mret None
        else pd ← deref "c.pod" (pod c);
             mret (Some (<["csi.storage.k8s.io/pod.name" := pod_Name pd]> (<["csi.storage.k8s.io/pod.namespace" := pod_Namespace pd]>
                   (<["csi.storage.k8s.io/pod.uid" := pod_UID pd]> (<["csi.storage.k8s.io/serviceAccount.name" := sp_ServiceAccountName (pod_Spec pd)]>
                   {["csi.storage.k8s.io/ephemeral" := if bool_decide (volumeLifecycleMode c = VolumeLifecycleEphemeral) then "true" else "false"]})))))
    end.
(** The attributes of the pod are written into the map of the specification, when there is one. *)
Definition write_attributes (attrs : gmap string string) (s : Spec) : Spec :=
  match spec_Volume s ≫= vol_CSI, spec_Volume s, spec_PersistentVolume s with
  | Some v, Some vol, _ =>
      {| spec_Volume := Some {| vol_Name := vol_Name vol; vol_CSI := Some {|
           vs_Driver := vs_Driver v; vs_ReadOnly := vs_ReadOnly v; vs_FSType := vs_FSType v; vs_VolumeAttributes := (λ m, attrs ∪ m) <$> vs_VolumeAttributes v;
           vs_NodePublishSecretRef := vs_NodePublishSecretRef v |} |};
         spec_PersistentVolume := spec_PersistentVolume s; spec_ReadOnly := spec_ReadOnly s; spec_InlineVolumeSpecForCSIMigration := spec_InlineVolumeSpecForCSIMigration s |}
  | _, _, Some pv =>
      {| spec_Volume := spec_Volume s;
         spec_PersistentVolume := Some {| pv_Name := pv_Name pv; pv_Spec := {|
           pvsp_CSI := (λ v, {| pvs_Driver := pvs_Driver v; pvs_VolumeHandle := pvs_VolumeHandle v; pvs_FSType := pvs_FSType v;
                                pvs_VolumeAttributes := (λ m, attrs ∪ m) <$> pvs_VolumeAttributes v;
                                pvs_NodePublishSecretRef := pvs_NodePublishSecretRef v; pvs_NodeStageSecretRef := pvs_NodeStageSecretRef v |}) <$> pvsp_CSI (pv_Spec pv);
           pvsp_AccessModes := pvsp_AccessModes (pv_Spec pv); pvsp_MountOptions := pvsp_MountOptions (pv_Spec pv); pvsp_VolumeMode := pvsp_VolumeMode (pv_Spec pv) |} |};
         spec_ReadOnly := spec_ReadOnly s; spec_InlineVolumeSpecForCSIMigration := spec_InlineVolumeSpecForCSIMigration s |}
  | _, _, None => s
  end.

(** What the volume's source gives for the call to the driver *)
Record PublishArgs := {
  pa_fsType : string; pa_volAttribs : strings_map; pa_secretRef : option SecretReference; pa_accessMode : string;
  pa_mountOptions : list string; pa_deviceMountPath : string; pa_publishContext : strings_map
}.
(** The context is the attachment's metadata, read once and kept; it is passed on only by the call that reads it. *)
Definition publish_context (c : csiMountMgr) : M (csiMountMgr * W) strings_map :=
  match publishContext c with
  | Some _ => mret None
  | None => x ← on_world (getPublishContext sha256 p (volumeID c) (driverName c) (VolumeHost.nodeName (host p))); update (set_publishContext x);; mret x
  end.
Definition publish_args (csi : csiDriverClient) : M (csiMountMgr * W) PublishArgs :=
  c ← this;
  src ← prefixed (log "mounter.SetupAt failed to get CSI persistent source: ") (check (getSourceFromSpec CSIInlineVolume (spec c)));
  match src with
  | Inline v =>
      if negb (bool_decide (volumeLifecycleMode c = VolumeLifecycleEphemeral)) then fail (New ("unexpected volume mode: " +:+ volumeLifecycleMode c))
      else ref ← match vs_NodePublishSecretRef v with
                 | None => mret None
                 | Some name => pd ← deref "c.pod" (pod c); mret (Some {| sr_Namespace := pod_Namespace pd; sr_Name := name |})
                 end;
           mret {| pa_fsType := default "" (vs_FSType v); pa_volAttribs := vs_VolumeAttributes v; pa_secretRef := ref; pa_accessMode := ReadWriteOnce;
                   pa_mountOptions := []; pa_deviceMountPath := ""; pa_publishContext := None |}
  | Persistent v =>
      if negb (bool_decide (volumeLifecycleMode c = VolumeLifecyclePersistent)) then fail (New ("unexpected driver mode: " +:+ volumeLifecycleMode c))
      else
        pv ← deref "c.spec.PersistentVolume" (spec c ≫= spec_PersistentVolume);
        accessMode ← on_world (first_access_mode pv);
        stageUnstageSet ← on_world (prefixed (log "mounter.SetUpAt failed to check for STAGE_UNSTAGE_VOLUME capability: ") (NodeSupportsStageUnstage csi));
        deviceMountPath ← (if stageUnstageSet : bool then on_world (prefixed (log "mounter.SetUpAt failed to make device mount path: ") (makeDeviceMountPath p (spec c)))
                           else mret "");
        x ← publish_context c;
        mret {| pa_fsType := pvs_FSType v; pa_volAttribs := pvs_VolumeAttributes v; pa_secretRef := pvs_NodePublishSecretRef v; pa_accessMode := accessMode;
                pa_mountOptions := default [] (pvsp_MountOptions (pv_Spec pv)); pa_deviceMountPath := deviceMountPath; pa_publishContext := x |}
  end.
Definition publish_secrets (ref : option SecretReference) : M W (gmap string string) :=
  match ref with
  | None => mret ∅
  | Some r => s ← attempt (getCredentialsFromSecret r);
              match s with
              | inl data => mret data
              | inr e => fail (New ("fetching NodePublishSecretRef " +:+ sr_Namespace r +:+ "/" +:+ sr_Name r +:+ " failed: " +:+ e_Text e))
              end
  end.
Definition applyFSGroup (c : csiMountMgr) (fsType : string) (fsGroup : option Z) : M W unit :=
  match fsGroup with
  | None => mret tt
  | Some g =>
      if bool_decide (fsType = "") then mret tt
      else pv ← deref "c.spec.PersistentVolume" (spec c ≫= spec_PersistentVolume);
           if negb (hasReadWriteOnce (pvsp_AccessModes (pv_Spec pv))) || readOnly c then mret tt
           else act (SetVolumeOwnership (GetPath c) g)
  end.
Definition SetUpAt (csiDrivers : gmap string DriversStore.Driver) (dir : string) (fsGroup : option Z) : M (csiMountMgr * W) unit :=
  '(mounted, corruptedDir) ← on_world (mount_state dir (λ e, New (log ("mounter.SetUpAt failed while checking mount status for dir [" +:+ dir +:+ "]: " +:+ e_Text e))));
  if mounted : bool then mret tt
  else
    csi ← get_client csiDrivers;
    args ← publish_args csi;
    on_world (make_dir dir "mounter.SetUpAt failed to create dir " corruptedDir);;
    nodePublishSecrets ← on_world (publish_secrets (pa_secretRef args));
    c ← this;
    podAttrs ← on_world (prefixed (log "mounter.SetUpAt failed to assemble volume attributes: ") (podAttributes c));
    update (λ c, set_spec (match podAttrs with Some a => write_attributes a <$> spec c | None => spec c end) c);;
    let volAttribs := match podAttrs, pa_volAttribs args with Some a, Some m => Some (a ∪ m) | Some a, None => Some a | None, m => m end in
    prefixed (log "mounter.SetupAt failed: ")
      (on_error (on_world (NodePublishVolume csi (volumeID c) (readOnly c) (pa_deviceMountPath args) dir (pa_accessMode args) (pa_publishContext args) volAttribs
                             nodePublishSecrets (pa_fsType args) (pa_mountOptions args)))
         (λ _, on_world (removeMountDir dir)));;
    selinux ← on_world (read (GetSELinuxSupport dir));
    update (set_selinux selinux.1);;
    r ← attempt (c ← this; on_world (applyFSGroup c (pa_fsType args) fsGroup));
    match r with
    | inl _ => mret tt
    | inr e =>
        _ ← attempt (on_world (NodeUnpublishVolume csi (volumeID c) dir;; removeMountDir dir));
        fail (New ("applyFSGroup failed for vol " +:+ volumeID c +:+ ": " +:+ e_Text e))
    end.
Definition SetUp (csiDrivers : gmap string DriversStore.Driver) (fsGroup : option Z) : M (csiMountMgr * W) unit :=
  c ← this; SetUpAt csiDrivers (GetPath c) fsGroup.
(** The message of a missing client is that of SetUpAt. *)
Definition TearDownAt (csiDrivers : gmap string DriversStore.Driver) (dir : string) : M (csiMountMgr * W) unit :=
  c ← this;
  csi ← get_client csiDrivers;
  on_world (prefixed (log "mounter.TearDownAt failed: ") (NodeUnpublishVolume csi (volumeID c) dir);;
            prefixed (log ("mounter.TearDownAt failed to clean mount dir [" +:+ dir +:+ "]: ")) (removeMountDir dir)).
Definition TearDown (csiDrivers : gmap string DriversStore.Driver) : M (csiMountMgr * W) unit := c ← this; TearDownAt csiDrivers (GetPath c).
Record Attributes := { at_ReadOnly : bool; at_Managed : bool; at_SupportsSELinux : bool }.
Definition GetAttributes (c : csiMountMgr) : Attributes := {| at_ReadOnly := readOnly c; at_Managed := negb (readOnly c); at_SupportsSELinux := supportsSELinux c |}.

(** ** What is saved is what is rebuilt *)
Context `{!CsiHostLaws W}.
Definition mounter_file (c : csiMountMgr) : string := Join [Dir (GetPath c); volDataFileName].
Lemma get_volume_data name handle driver node mode :
  let m := volume_data name handle driver node mode in
  m !! specVolID = Some name ∧ m !! volHandle = Some handle ∧ m !! key_driverName = Some driver ∧ m !! key_volumeLifecycleMode = Some mode.
Proof. cbv zeta. unfold volume_data. split_and!; by simplify_map_eq. Qed.
Lemma ok_unit (b : bool) e (w : W) w' : (if b then mret tt else fail (W := W) e) w = Ret (w', inl tt) → b = true ∧ w' = w.
Proof. destruct b; [by intros [= <-]|done]. Qed.
Lemma new_mounter_spec sp pd w w' m :
  NewMounter sp pd w = Ret (w', inl m) →
  ∃ s src mode, sp = Some s ∧ getSourceFromSpec CSIInlineVolume sp = inl src ∧ getVolumeLifecycleMode CSIInlineVolume sp = inl mode ∧
    is_KubeletVolumeHost p = true ∧ podUID m = pod_UID pd ∧ specVolumeID m = spec_Name s ∧ volumeLifecycleMode m = mode ∧
    (driverName m = match src with Inline v => vs_Driver v | Persistent v => pvs_Driver v end) ∧
    (∀ v, src = Persistent v → volumeID m = pvs_VolumeHandle v) ∧
    loadVolumeData (Dir (GetPath m)) volDataFileName w' =
      Ret (w', inl (volume_data (spec_Name s) (volumeID m) (driverName m) (VolumeHost.nodeName (host p)) mode)).
Proof.
  unfold NewMounter. rewrite check_bind. destruct (getSourceFromSpec CSIInlineVolume sp) as [src|] eqn:Hsrc; [|done].
  destruct sp as [s|]; [|done]. cbn [deref]. rewrite ret_bind. set (x := match src with Inline v => _ | Persistent v => _ end).
  destruct x as [ [driver handle] ro] eqn:Hx. subst x. rewrite check_bind. destruct (getVolumeLifecycleMode CSIInlineVolume (Some s)) as [mode|] eqn:Hmode; [|done].
  intros Hr. apply bind_ok in Hr as (w1 & [] & _ & Hr). apply bind_ok in Hr as (w2 & [] & [_ ->]%ok_unit & Hr). apply bind_ok in Hr as (w3 & [] & [Hk ->]%ok_unit & Hr).
  cbv zeta in Hr. apply bind_ok in Hr as (w4 & [] & _ & Hr). apply bind_ok in Hr as (w5 & [] & Hsave%prefixed_ok%on_error_ok & [= <- <-]).
  exists s, src, mode. split_and!; try done; [by destruct src; simplify_eq|intros v ->; by simplify_eq|]. by eapply load_saved.
Qed.
(** A volume survives a restart of the process. When a mounter was made for a volume of a pod, then in any world in which the file it
    left still reads the same, the unmounter made from that file has its driver, its volume id and its directory, and the volume that is
    rebuilt from the file has the name it had in the pod, the same lifecycle mode, and, for a persistent volume, the same name in the cluster: driver and handle. *)
Lemma volume_survives_restart sp pd w w' m :
  NewMounter sp pd w = Ret (w', inl m) → ∀ w2, same_file (mounter_file m) w' w2 →
  (∃ u, NewUnmounter (specVolumeID m) (pod_UID pd) w2 = Ret (w2, inl u) ∧
     driverName u = driverName m ∧ volumeID u = volumeID m ∧ GetPath u = GetPath m ∧ getter u = new_getter (driverName m)) ∧
  (∃ sp', ConstructVolumeSpec (specVolumeID m) (Dir (GetPath m)) w2 = Ret (w2, inl sp') ∧
     spec_Name sp' = specVolumeID m ∧ getVolumeLifecycleMode CSIInlineVolume (Some sp') = getVolumeLifecycleMode CSIInlineVolume sp ∧
     GetVolumeName CSIInlineVolume (Some sp') = GetVolumeName CSIInlineVolume sp).
Proof.
  intros (s & src & mode & -> & Hsrc & Hmode & Hk & Hu & Hn & Hm & Hd & Hh & Hl)%new_mounter_spec w2 Hw2.
  pose proof (load_same_file _ _ _ _ _ Hw2 Hl) as Hl2.
  destruct (get_volume_data (spec_Name s) (volumeID m) (driverName m) (VolumeHost.nodeName (host p)) mode) as (D1 & D2 & D3 & D4). split.
  - eexists. split.
    + unfold NewUnmounter. rewrite Hk, ret_bind, bind_eq. unfold prefixed.
      unfold GetPath in Hl2 |- *. cbn [podUID specVolumeID]. rewrite <- Hu, Hl2, D3, D2. cbn [default]. reflexivity.
    + by split_and!.
  - exists (if bool_decide (mode = VolumeLifecycleEphemeral) then constructVolSourceSpec (spec_Name s) (driverName m)
            else constructPVSourceSpec (spec_Name s) (driverName m) (volumeID m)). split.
    + unfold ConstructVolumeSpec. rewrite bind_eq. unfold prefixed. rewrite Hl2, D4, D1, D2, D3. cbn [default from_option]. unfold id. by destruct (bool_decide _).
    + rewrite Hmode. unfold getVolumeLifecycleMode in Hmode. rewrite Hsrc in Hmode. destruct src as [v|v]; injection Hmode as <-.
      * cbn [inlineEnabled]. rewrite bool_decide_eq_true_2 by done. rewrite Hn, Hd. unfold getVolumeLifecycleMode, GetVolumeName, getPVSourceFromSpec. rewrite Hsrc.
        assert (CSIInlineVolume = true) as ->; [|done]. clear -Hsrc. unfold getSourceFromSpec in Hsrc.
        destruct CSIInlineVolume; [done|]. repeat case_match; simplify_eq.
      * rewrite bool_decide_eq_false_2 by done. rewrite Hn, Hd, (Hh v eq_refl). split; [done|]. split; [done|].
        unfold GetVolumeName, getPVSourceFromSpec. rewrite Hsrc. done.
Qed.

(** ** What the driver is asked *)
Definition same_volume (c c' : csiMountMgr) : Prop :=
  spec c' = spec c ∧ volumeID c' = volumeID c ∧ readOnly c' = readOnly c ∧ volumeLifecycleMode c' = volumeLifecycleMode c.
Lemma device_path_anywhere sp (w w' : W) x : makeDeviceMountPath p sp w = Ret (w', inl x) → w' = w ∧ ∀ w0 : W, GetDeviceMountPath p sp w0 = Ret (w0, inl x).
Proof.
  unfold GetDeviceMountPath, prefixed, makeDeviceMountPath. destruct sp as [s|]; [|done]. destruct (spec_PersistentVolume s) as [v|]; cbn [deref]; [|done].
  rewrite ret_bind. case_bool_decide as Hn; [done|]. intros [= <- <-]. split; [done|]. intros w0. by rewrite ret_bind, bool_decide_eq_false_2.
Qed.
(** The arguments of the call, as far as they come from the volume's source *)
Definition args_of (m : csiMountMgr) (args : PublishArgs) : Prop :=
  match getSourceFromSpec CSIInlineVolume (spec m) with
  | inl (Inline v) => volumeLifecycleMode m = VolumeLifecycleEphemeral ∧ pa_deviceMountPath args = "" ∧ pa_publishContext args = None ∧
      pa_fsType args = default "" (vs_FSType v) ∧ pa_volAttribs args = vs_VolumeAttributes v
  | inl (Persistent v) => volumeLifecycleMode m = VolumeLifecyclePersistent ∧
      (pa_deviceMountPath args = "" ∨ ∀ w0 : W, GetDeviceMountPath p (spec m) w0 = Ret (w0, inl (pa_deviceMountPath args))) ∧
      (publishContext m ≠ None → pa_publishContext args = None) ∧ pa_fsType args = pvs_FSType v ∧ pa_volAttribs args = pvs_VolumeAttributes v
  | inr _ => False
  end.
Lemma publish_context_spec m w m' w' x : publish_context m (m, w) = Ret ((m', w'), inl x) → same_volume m m' ∧ (publishContext m ≠ None → x = None).
Proof.
  unfold publish_context. destruct (publishContext m) as [y|]; [by intros [= <- <- <-]|]. rewrite on_world_bind.
  destruct (getPublishContext _ _ _ _ _ w) as [ [w1 [y|e] ]| |]; [|done..]. rewrite update_bind. by intros [= <- <- <-].
Qed.
Lemma publish_args_spec csi m w m' w' args : publish_args csi (m, w) = Ret ((m', w'), inl args) → same_volume m m' ∧ args_of m args.
Proof.
  unfold publish_args, args_of. rewrite this_bind, bind_eq. destruct (getSourceFromSpec CSIInlineVolume (spec m)) as [ [v|v]|e]; cbn [prefixed check]; [| |done].
  - destruct (decide (volumeLifecycleMode m = VolumeLifecycleEphemeral)) as [Hm|Hm]; [|by rewrite bool_decide_eq_false_2].
    rewrite bool_decide_eq_true_2 by done. cbn [negb]. intros Hr. apply bind_ok in Hr as ([m1 w1] & ref & Href & [= <- <- <-]).
    destruct (vs_NodePublishSecretRef v) as [name|]; [destruct (pod m); [|done]|]; injection Href as <- <- _; by split_and!.
  - destruct (decide (volumeLifecycleMode m = VolumeLifecyclePersistent)) as [Hm|Hm]; [|by rewrite bool_decide_eq_false_2].
    rewrite bool_decide_eq_true_2 by done. cbn [negb]. intros Hr. apply bind_ok in Hr as ([m1 w1] & pv & Hpv & Hr).
    assert (m1 = m ∧ w1 = w) as [-> ->] by (unfold deref in Hpv; destruct (spec m ≫= spec_PersistentVolume); [by injection Hpv|done]).
    apply bind_ok in Hr as ([m2 w2] & am & [-> _]%on_world_ok & Hr). apply bind_ok in Hr as ([m3 w3] & st & [-> _]%on_world_ok & Hr).
    apply bind_ok in Hr as ([m4 w4] & path & Hp & Hr). assert (m4 = m ∧ (path = "" ∨ ∀ w0 : W, GetDeviceMountPath p (spec m) w0 = Ret (w0, inl path))) as [-> Hpath].
    { destruct st; [|injection Hp as <- _ <-; by split; [|left] ]. apply on_world_ok in Hp as [-> Hp%prefixed_ok]. split; [done|right]. by eapply device_path_anywhere. }
    apply bind_ok in Hr as ([m5 w5] & x & [Hs Hx]%publish_context_spec & [= <- <- <-]). by split.
Qed.
Lemma get_client_spec drivers m w m' w' csi :
  get_client drivers (m, w) = Ret ((m', w'), inl csi) → same_volume m m' ∧ publishContext m' = publishContext m ∧ (Get_client drivers (getter m)).2 = inl csi.
Proof.
  unfold get_client. rewrite this_bind. destruct (Get_client drivers (getter m)) as [g r]. rewrite update_bind. intros [= Hr]%prefixed_ok. simplify_eq. by split_and!.
Qed.
Lemma publish_ok csi vol ro st dir am ctx vctx sec fs opts w w' :
  NodePublishVolume csi vol ro st dir am ctx vctx sec fs opts w = Ret (w', inl tt) →
  vol ≠ "" ∧ dir ≠ "" ∧ node_PublishVolume (addr csi) {|
    np_VolumeId := vol; np_TargetPath := dir; np_StagingTargetPath := st; np_Readonly := ro; np_PublishContext := ctx; np_VolumeContext := vctx; np_Secrets := sec;
    np_AccessMode := asCSIAccessModeV1 am; np_AccessType := access_type fs opts |} w = (w', None).
Proof.
  unfold NodePublishVolume, nonempty, newV1NodeClient, act. rewrite bind_eq. case_bool_decide; [done|]. cbn [mret M_ret]. rewrite bind_eq. case_bool_decide; [done|]. cbn [mret M_ret]. rewrite !bind_eq.
  destruct (nodeV1ClientCreator csi); cbn [negb]; [|done]. rewrite read_bind. destruct (node_Dial (addr csi) w); [done|]. cbn [mret M_ret].
  destruct (node_PublishVolume _ _ w) as [w1 [e|] ]; [done|]. by intros [= <-].
Qed.
(** A volume that is set up is published. When SetUpAt succeeds, the directory was mounted before and nothing is done, or the driver of the
    mounter was asked to publish, and did: the volume of the mounter, at that directory, read-only if the volume is; for a persistent volume
    from the directory that MountDevice stages to, or from none, and for an inline one from none and without a publish context; with the file
    system and the attributes of the source, to which those of the pod are added if the driver asks for them. A context read once is not read again, nor passed on again. *)
Lemma set_up_publishes drivers dir g m w m' w' :
  SetUpAt drivers dir g (m, w) = Ret ((m', w'), inl tt) →
  (∃ w1, isDirMounted dir w = Ret (w1, inl true)) ∨
  ∃ csi args attrs r w1 w2, (Get_client drivers (getter m)).2 = inl csi ∧ node_PublishVolume (addr csi) r w1 = (w2, None) ∧
    np_VolumeId r = volumeID m ∧ np_TargetPath r = dir ∧ np_Readonly r = readOnly m ∧ volumeID m ≠ "" ∧ dir ≠ "" ∧
    args_of m args ∧ np_StagingTargetPath r = pa_deviceMountPath args ∧ np_PublishContext r = pa_publishContext args ∧
    np_AccessType r = access_type (pa_fsType args) (pa_mountOptions args) ∧
    np_VolumeContext r = match attrs, pa_volAttribs args with Some a, Some x => Some (a ∪ x) | Some a, None => Some a | None, x => x end.
Proof.
  unfold SetUpAt. intros Hr. apply bind_ok in Hr as ([m0 w0] & [mounted corrupted] & [-> Hst]%on_world_ok & Hr). destruct mounted.
  { left. unfold mount_state in Hst. rewrite attempt_bind in Hst. destruct (isDirMounted dir w) as [ [w1 [b|e] ]| |]; [|rewrite read_bind in Hst; by destruct (isCorruptedDir dir w1)|done..].
    injection Hst as <- ->. by eexists. }
  right. apply bind_ok in Hr as ([m1 w1] & csi & ((S1 & S2 & S3 & S4) & S5 & Hc)%get_client_spec & Hr).
  apply bind_ok in Hr as ([m2 w2] & args & [(T1 & T2 & T3 & T4) Ha]%publish_args_spec & Hr).
  apply bind_ok in Hr as ([m3 w3] & [] & [-> _]%on_world_ok & Hr). apply bind_ok in Hr as ([m4 w4] & secrets & [-> _]%on_world_ok & Hr).
  rewrite this_bind in Hr. apply bind_ok in Hr as ([m5 w5] & attrs & [-> _]%on_world_ok & Hr). rewrite update_bind in Hr.
  set (m6 := set_spec _ m2) in Hr. cbv zeta in Hr. apply bind_ok in Hr as ([m7 w7] & [] & [-> Hp%publish_ok]%prefixed_ok%on_error_ok%on_world_ok & _).
  destruct Hp as (P1 & P2 & P3). rewrite T2, S2 in P1. rewrite T2, T3, S2, S3 in P3. eexists csi, args, attrs, _, w5, w7.
  split_and!; [done|exact P3|done..| | | | |]; [|done..]. unfold args_of in *. by rewrite S1, S4, S5 in Ha.
Qed.
(** A volume that is torn down has gone: its directory, the data beside it and the directory of both, unless it is still mounted. *)
Lemma torn_down_gone drivers dir m w m' w' :
  TearDownAt drivers dir (m, w) = Ret ((m', w'), inl tt) →
  isDirMounted dir w' = Ret (w', inl true) ∨ (missing dir w' ∧ missing (data_file dir) w' ∧ missing (Dir dir) w').
Proof.
  unfold TearDownAt. rewrite this_bind. intros Hr. apply bind_ok in Hr as ([m1 w1] & csi & _ & [-> Hr]%on_world_ok).
  apply bind_ok in Hr as (w2 & [] & _ & Hr%prefixed_ok%remove_mount_dir_spec). destruct Hr as [ [Hm ->]|Hr]; auto.
Qed.

(** *** Behaviour that is not meant *)
(** On a host that is not a kubelet's, nothing is ever mounted or unmounted: every attempt ends in an error, and nothing is touched. *)
Lemma no_mounter_without_kubelet sp pd name uid (w : W) :
  is_KubeletVolumeHost p = false →
  (∃ e, NewMounter sp pd w = Ret (w, inr e)) ∧
  NewUnmounter name uid w = Ret (w, inr (New (log "cast from VolumeHost to KubeletVolumeHost failed"))).
Proof.
  intros Hk. split; [|unfold NewUnmounter; by rewrite Hk]. unfold NewMounter. rewrite check_bind.
  destruct (getSourceFromSpec CSIInlineVolume sp) as [src|e] eqn:Hs; [|by eexists]. destruct sp as [s|]; [|done]. cbn [deref]. rewrite ret_bind.
  destruct (match src with Inline v => _ | Persistent v => _ end) as [ [driver handle] ro]. rewrite check_bind.
  destruct (getVolumeLifecycleMode CSIInlineVolume (Some s)) as [mode|e]; [|by eexists]. rewrite bind_eq.
  assert (∃ r, supportsVolumeLifecycleMode p driver mode w = Ret (w, r)) as [ [u|e] ->]; [| |by eexists].
  - unfold supportsVolumeLifecycleMode, inlineEnabled. cbn [negb]. rewrite bind_eq. destruct (csiDriverLister p).
    + unfold wait_for_cache. rewrite Hk, ret_bind, read_bind. destruct (csiDriver_Get driver w) as [d|e]; cbn [mret M_ret].
      * destruct (containsVolumeMode _ _); by eexists.
      * destruct (is_kind NotFound e); cbn; [case_bool_decide|]; by eexists.
    + cbn [mret M_ret]. case_bool_decide; by eexists.
  - rewrite bind_eq. destruct (host_KubeClient p); cbn [mret M_ret]; [|by eexists]. rewrite Hk. rewrite bind_eq. by eexists.
Qed.
(** The group of files of an inline volume is looked for in a persistent volume it does not have: the process crashes after the volume was mounted. *)
Lemma inline_fsgroup_crashes m s fsType g (w : W) :
  spec m = Some s → spec_PersistentVolume s = None → fsType ≠ "" → applyFSGroup m fsType (Some g) w = Panic "nil pointer: c.spec.PersistentVolume".
Proof. intros Hs Hp Hf. unfold applyFSGroup. rewrite bool_decide_eq_false_2 by done. rewrite Hs. cbn [mbind option_bind]. by rewrite Hp. Qed.
(** A second SetUp of one mounter passes no publish context: what was read is kept and not used. *)
Lemma context_used_once m x (w : W) : publishContext m = Some x → publish_context m (m, w) = Ret ((m, w), inl None).
Proof. intros E. unfold publish_context. by rewrite E. Qed.
End Mounter.
End Mounter.

(** ** Mounters for volumes that are made of others (volume_host.go)

    The specification is a copy, but the volume it points to is the caller's, and is renamed. *)
Module WrapperMounts.
Import Plugin Mounter.
Section WrapperMounts.
Context {W : Type} `{CsiKube W} `{CsiHost W} `{VolumeJSON} (CSIInlineVolume : bool) (sha256 : string → string) (p : csiPlugin).
Definition rename_volume (name : string) (s : Spec) : Spec := {|
  spec_Volume := (λ v, {| vol_Name := name; vol_CSI := vol_CSI v |}) <$> spec_Volume s; spec_PersistentVolume := spec_PersistentVolume s;
  spec_ReadOnly := spec_ReadOnly s; spec_InlineVolumeSpecForCSIMigration := spec_InlineVolumeSpecForCSIMigration s |}.
Definition NewWrapperMounter (volName : string) (s : Spec) (pd : Pod) : M W csiMountMgr :=
  let hasCSISpec := bool_decide (is_Some (spec_PersistentVolume s ≫= λ pv, pvsp_CSI (pv_Spec pv))) || bool_decide (is_Some (spec_Volume s ≫= vol_CSI)) in
  if negb hasCSISpec then fail (New "unable to handle this volume in csi")
  else NewMounter CSIInlineVolume sha256 p (Some (rename_volume ("wrapped_" +:+ volName) s)) pd.
Definition NewWrapperUnmounter (volName : string) (s : Spec) (uid : string) : M W csiMountMgr :=
  NewUnmounter p (spec_Name (rename_volume ("wrapped_" +:+ volName) s)) uid.
(** The unmounter looks where the mounter of the same volume put its data. *)
Lemma wrapper_paths_agree volName s pd w w' m :
  NewWrapperMounter volName s pd w = Ret (w', inl m) →
  ∀ w1 w2 u, NewWrapperUnmounter volName s (pod_UID pd) w1 = Ret (w2, inl u) → GetPath p u = GetPath p m.
Proof.
  unfold NewWrapperMounter, NewWrapperUnmounter. destruct (negb _); [done|]. set (s' := rename_volume _ s). intros Hm w1 w2 u Hu.
  unfold NewUnmounter in Hu. apply bind_ok in Hu as (w3 & [] & _ & Hu). cbv zeta in Hu. apply bind_ok in Hu as (w4 & data & _ & [= <- <-]).
  unfold NewMounter in Hm. rewrite check_bind in Hm. destruct (getSourceFromSpec _ _) as [src|]; [|done]. cbn [deref] in Hm. rewrite ret_bind in Hm.
  destruct (match src with Inline v => _ | Persistent v => _ end) as [ [driver handle] ro]. rewrite check_bind in Hm. destruct (getVolumeLifecycleMode _ _) as [mode|]; [|done].
  do 5 (apply bind_ok in Hm as (? & [] & _ & Hm)). injection Hm as <- <-. done.
Qed.
End WrapperMounts.
End WrapperMounts.

(** ** Examples *)
Module CsiMounterExamples.
Import CsiSamples CsiClientExamples CsiPluginExamples Client Plugin Mounter.
(** The plugin on the host of a kubelet *)
Definition kp : csiPlugin :=
  {| host := vhost; host_methods := HostTypes.KubeletVolumeHost; host_KubeClient := true; blockEnabled := true; csiDriverLister := true |}.
Definition web : Pod := K8s.Samples.pod "u1" "web" (K8s.Samples.spec [] [] []).
Definition start : World := with_attachments {[va_Name is_now_attached := is_now_attached]} empty.
Definition made := NewMounter true name_hash kp (Some pvspec) web start.
Definition mounter : csiMountMgr := match made with Ret (_, inl m) => m | _ =>
  {| getter := new_getter ""; spec := None; pod := None; podUID := ""; driverName := ""; volumeLifecycleMode := ""; volumeID := ""; specVolumeID := "";
     readOnly := false; supportsSELinux := false; publishContext := None |} end.
Definition made_world : World := after made empty.
Lemma volume_survives_restart_witness :
  ∃ u sp', NewUnmounter kp "pv-1" "u1" made_world = Ret (made_world, inl u) ∧ volumeID u = "vol-1" ∧
    ConstructVolumeSpec "pv-1" "/var/lib/aranya/dev-0/u1/volumes/kubernetes.io~csi/pv-1" made_world = Ret (made_world, inl sp') ∧
    GetVolumeName true (Some sp') = inl "disk.example.com^vol-1".
Proof.
  destruct (volume_survives_restart true name_hash kp (Some pvspec) web start made_world mounter) with (w2 := made_world) as [(u & H1 & _ & H2 & _) (sp' & H3 & _ & _ & H4)];
    [vm_compute; reflexivity|reflexivity|].
  exists u, sp'. split; [exact H1|]. split; [exact H2|]. split; [exact H3|exact H4].
Defined.
Definition mount_dir : string := GetPath kp mounter.
Definition set_up (m : csiMountMgr) (w : World) := SetUpAt true name_hash kp stores mount_dir (Some 1000) (m, w).
Lemma set_up_publishes_witness :
  ∃ csi r w1 w2, node_PublishVolume (addr csi) r w1 = (w2, None) ∧ np_VolumeId r = "vol-1" ∧ np_TargetPath r = mount_dir.
Proof.
  destruct (set_up_publishes true name_hash kp stores mount_dir (Some 1000) mounter made_world
    (after (set_up mounter made_world) (mounter, made_world)).1 (after (set_up mounter made_world) (mounter, made_world)).2)
    as [ [w1 Hm]|(csi & args & attrs & r & w1 & w2 & _ & H1 & H2 & H3 & _)]; [vm_compute; reflexivity|vm_compute in Hm; discriminate Hm|].
  exists csi, r, w1, w2. split; [exact H1|]. split; [exact H2|exact H3].
Defined.
(** What the driver and the host are asked for the volume; and taking it down again *)
Example set_up_calls : calls (after (set_up mounter made_world) (mounter, made_world)).2 = ["publish vol-1 at " +:+ mount_dir; "own " +:+ mount_dir].
Proof. by vm_compute. Qed.
Example torn_down : files (after (TearDownAt stores mount_dir (mounter, made_world)) (mounter, made_world)).2 = ∅.
Proof. by vm_compute. Qed.
(** On aranya's own host there is no mounter. *)
Example no_mounter : answer (NewMounter true name_hash p (Some pvspec) web start) = Some (inr (New (log "cast from VolumeHost to KubeletVolumeHost failed"))).
Proof. by vm_compute. Qed.
(** An inline volume whose driver has not been told of as an object of the API is refused. *)
Example inline_without_object : answer (NewMounter true name_hash kp (Some inlinespec) web start) =
  Some (inr (New ("volume mode " +:+ quote "Ephemeral" +:+ " not supported by driver disk.example.com (no CSIDriver object)"))).
Proof. by vm_compute. Qed.
End CsiMounterExamples.
