(* ===== verification/CsiBlock.v ===== *)
(** * The CSI plugin: block volumes

    src/pkg/virtualnode/storage/csi/csi_block.go, with the constructors of block volumes in csi_plugin.go. A block volume is staged to a
    directory of its own and published to a path for each pod; what is needed to take it down is kept beside its links. *)
From S2P Require Import Prelude Effects GoNet K8s StorageManager CsiBase CsiClient CsiPlugin CsiMounter.
Open Scope Z_scope.

Module Block.
Import Client Plugin.
Record csiBlockMapper := {
  getter : csiClientGetter; driverName : string; specName : string; volumeID : string; readOnly : bool; spec : option Spec; podUID : string
}.
Definition set_getter (g : csiClientGetter) (m : csiBlockMapper) : csiBlockMapper := {|
  getter := g; driverName := driverName m; specName := specName m; volumeID := volumeID m; readOnly := readOnly m; spec := spec m; podUID := podUID m |}.
Section Block.
Context {W : Type} `{CsiKube W} `{CsiHost W} `{CsiNode W} `{VolumeJSON} (CSIInlineVolume : bool) (sha256 : string → string) (p : csiPlugin).

(** ** Paths *)
Definition GetGlobalMapPath (m : csiBlockMapper) : string := getVolumeDevicePluginDir (specName m) (host p).
Definition GetStagingPath (m : csiBlockMapper) : string := Join [VolumeHost.GetVolumeDevicePluginDir (host p) CSIPluginName; "staging"; specName m].
Definition getPublishDir (m : csiBlockMapper) : string := Join [VolumeHost.GetVolumeDevicePluginDir (host p) CSIPluginName; "publish"; specName m].
Definition getPublishPath (m : csiBlockMapper) : string := Join [getPublishDir m; podUID m].
Definition GetPodDeviceMapPath (m : csiBlockMapper) : string * string :=
  (VolumeHost.GetPodVolumeDeviceDir (host p) (podUID m) (EscapeQualifiedName CSIPluginName), specName m).

(** ** csi_plugin.go: mappers and the data they leave *)
Definition block_enabled : M W unit := if blockEnabled p then mret tt else fail (New "CSIBlockVolume feature not enabled").
Definition block_data (name : string) (src : CSIPersistentVolumeSource) : gmap string string :=
  let node := VolumeHost.nodeName (host p) in
  <[specVolID := name]> (<[volHandle := pvs_VolumeHandle src]> (<[key_driverName := pvs_Driver src]> (<[key_nodeName := node]>
    {[attachmentID := getAttachmentName sha256 (pvs_VolumeHandle src) (pvs_Driver src) node]}))).
Definition NewBlockVolumeMapper (sp : option Spec) (podRef : Pod) : M W csiBlockMapper :=
  block_enabled;;
  pvSource ← check (getCSISourceFromSpec CSIInlineVolume sp);
  s ← deref "spec" sp;
  ro ← check (getReadOnlyFromSpec s);
  (if host_KubeClient p then mret tt else fail (New (log "failed to get a kubernetes client")));;
  let mapper := {| getter := new_getter (pvs_Driver pvSource); driverName := pvs_Driver pvSource; specName := spec_Name s; volumeID := pvs_VolumeHandle pvSource;
                   readOnly := ro; spec := sp; podUID := pod_UID podRef |} in
  let dataDir := getVolumeDeviceDataDir (spec_Name s) (host p) in
  r ← attempt (act (os_MkdirAll dataDir));
  match r with inr e => fail (New (log ("failed to create data dir " +:+ dataDir +:+ ":  " +:+ e_Text e))) | inl _ => mret tt end;;
  prefixed (log "failed to save volume info data: ") (on_error (saveVolumeData dataDir volDataFileName (block_data (spec_Name s) pvSource)) (λ _, act (os_RemoveAll dataDir)));;
  mret mapper.
Definition NewBlockVolumeUnmapper (volName uid : string) : M W csiBlockMapper :=
  block_enabled;;
  let dataDir := getVolumeDeviceDataDir volName (host p) in
  data ← prefixed (log ("unmapper failed to load volume data file [" +:+ dataDir +:+ "]: ")) (loadVolumeData dataDir volDataFileName);
  let driver := default "" (data !! key_driverName) in
  mret {| getter := new_getter driver; driverName := driver; specName := volName; volumeID := default "" (data !! volHandle); readOnly := false; spec := None; podUID := uid |}.
Definition ConstructBlockVolumeSpec (uid specVolName mapPath : string) : M W Spec :=
  block_enabled;;
  volData ← prefixed (log ("plugin.ConstructBlockVolumeSpec failed loading volume data using [" +:+ mapPath +:+ "]: "))
              (loadVolumeData (getVolumeDeviceDataDir specVolName (host p)) volDataFileName);
  let get key := default "" (volData !! key) in
  mret (Mounter.construct_pv PersistentVolumeBlock (get specVolID) (get key_driverName) (get volHandle)).

(** ** csi_block.go *)
(** Without an attachment the info is an empty map; with one it is that of the attachment, which may be nil. *)
Definition publish_info (attachment : option VolumeAttachment) : strings_map := match attachment with Some a => va_AttachmentMetadata a | None => Some ∅ end.
Definition stageVolumeForBlock (m : csiBlockMapper) (csi : csiDriverClient) (accessMode : string) (csiSource : CSIPersistentVolumeSource)
    (attachment : option VolumeAttachment) : M W string :=
  let stagingPath := GetStagingPath m in
  stageUnstageSet ← prefixed (log "blockMapper.stageVolumeForBlock failed to check STAGE_UNSTAGE_VOLUME capability: ") (NodeSupportsStageUnstage csi);
  if negb stageUnstageSet then mret ""
  else
    nodeStageSecrets ← match pvs_NodeStageSecretRef csiSource with
      | None => mret ∅
      | Some r => prefixed ("failed to get NodeStageSecretRef " +:+ sr_Namespace r +:+ "/" +:+ sr_Name r +:+ ": ") (getCredentialsFromSecret r)
      end;
    prefixed (log ("blockMapper.stageVolumeForBlock failed to create dir " +:+ stagingPath +:+ ": ")) (act (os_MkdirAll stagingPath));;
    NodeStageVolume csi (pvs_VolumeHandle csiSource) (publish_info attachment) stagingPath fsTypeBlockName accessMode nodeStageSecrets
      (pvs_VolumeAttributes csiSource) [];;
    mret stagingPath.
Definition publishVolumeForBlock (m : csiBlockMapper) (csi : csiDriverClient) (accessMode : string) (csiSource : CSIPersistentVolumeSource)
    (attachment : option VolumeAttachment) : M W string :=
  nodePublishSecrets ← match pvs_NodePublishSecretRef csiSource with
    | None => mret ∅
    | Some r => prefixed (log ("blockMapper.publishVolumeForBlock failed to get NodePublishSecretRef " +:+ sr_Namespace r +:+ "/" +:+ sr_Name r +:+ ": ")) (getCredentialsFromSecret r)
    end;
  let publishPath := getPublishPath m in let publishDir := Dir publishPath in
  prefixed (log ("blockMapper.publishVolumeForBlock failed to create dir " +:+ publishDir +:+ ":  ")) (act (os_MkdirAll publishDir));;
  NodePublishVolume csi (volumeID m) (readOnly m) (GetStagingPath m) publishPath accessMode (publish_info attachment) (pvs_VolumeAttributes csiSource)
    nodePublishSecrets fsTypeBlockName [];;
  mret publishPath.
Definition cleanupOrphanDeviceFiles (m : csiBlockMapper) : M W unit :=
  remove_if_there (getPublishDir m) "failed to remove publish directory";;
  remove_if_there (GetStagingPath m) "failed to delete volume staging path";;
  act (removeall_OneFilesystem (getVolumePluginDir (specName m) (host p))).
Definition get_client (csiDrivers : gmap string DriversStore.Driver) (prefix : string) : M (csiBlockMapper * W) csiDriverClient :=
  m ← this;
  let '(g, r) := Get_client csiDrivers (getter m) in update (set_getter g);; prefixed (log prefix) (check r).
(** What SetUpDevice and MapPodDevice begin with: the source, the attachment if one is needed, the access mode and the client *)
Definition device_call (csiDrivers : gmap string DriversStore.Driver) (name : string) : M (csiBlockMapper * W) (CSIPersistentVolumeSource * option VolumeAttachment * string * csiDriverClient) :=
  on_world block_enabled;;
  m ← this;
  match spec m with
  | None => fail (New (log ("blockMapper." +:+ name +:+ " spec is nil")))
  | Some s =>
      let method := if bool_decide (name = "SetUpDevice") then "blockMapper.SetupDevice" else "blockMapper." +:+ name in
      csiSource ← prefixed (log ("blockMapper." +:+ name +:+ " failed to get CSI persistent source: ")) (check (getCSISourceFromSpec CSIInlineVolume (spec m)));
      skip ← on_world (prefixed (log (method +:+ " failed to check CSIDriver for " +:+ pvs_Driver csiSource +:+ ": ")) (skipAttach p (pvs_Driver csiSource)));
      attachment ← (if skip : bool then mret None
                    else let attachID := getAttachmentName sha256 (pvs_VolumeHandle csiSource) (pvs_Driver csiSource) (VolumeHost.nodeName (host p)) in
                         a ← on_world (prefixed (log (method +:+ " failed to get volume attachment [id=" +:+ attachID +:+ "]: ")) (r ← read (va_Get attachID); check r));
                         mret (Some a));
      pv ← deref "m.spec.PersistentVolume" (spec_PersistentVolume s);
      accessMode ← on_world (first_access_mode pv);
      csi ← get_client csiDrivers ("blockMapper." +:+ name +:+ " failed to get CSI client: ");
      mret (csiSource, attachment, accessMode, csi)
  end.
Definition SetUpDevice (csiDrivers : gmap string DriversStore.Driver) : M (csiBlockMapper * W) string :=
  '(csiSource, attachment, accessMode, csi) ← device_call csiDrivers "SetUpDevice";
  m ← this;
  on_world (on_error (stageVolumeForBlock m csi accessMode csiSource attachment)
              (λ err, if IsOperationFinishedError err then cleanupOrphanDeviceFiles m else mret tt)).
Definition MapPodDevice (csiDrivers : gmap string DriversStore.Driver) : M (csiBlockMapper * W) string :=
  '(csiSource, attachment, accessMode, csi) ← device_call csiDrivers "MapPodDevice";
  m ← this; on_world (publishVolumeForBlock m csi accessMode csiSource attachment).
Definition unpublishVolumeForBlock (m : csiBlockMapper) (csi : csiDriverClient) (publishPath : string) : M W unit :=
  prefixed (log "blockMapper.unpublishVolumeForBlock failed: ") (NodeUnpublishVolume csi (volumeID m) publishPath).
Definition unstageVolumeForBlock (m : csiBlockMapper) (csi : csiDriverClient) (stagingPath : string) : M W unit :=
  stageUnstageSet ← prefixed (log "blockMapper.unstageVolumeForBlock failed to check STAGE_UNSTAGE_VOLUME capability: ") (NodeSupportsStageUnstage csi);
  if negb stageUnstageSet then mret tt
  else prefixed (log "blockMapper.unstageVolumeForBlock failed: ") (NodeUnstageVolume csi (volumeID m) stagingPath);;
       prefixed (log ("blockMapper.unstageVolumeForBlock failed to remove staging path after NodeUnstageVolume() error [" +:+ stagingPath +:+ "]: ")) (act (os_RemoveAll stagingPath)).
Definition TearDownDevice (csiDrivers : gmap string DriversStore.Driver) (globalMapPath devicePath : string) : M (csiBlockMapper * W) unit :=
  on_world block_enabled;;
  csi ← get_client csiDrivers "blockMapper.TearDownDevice failed to get CSI client: ";
  m ← this;
  on_world (
    stat ← read (os_Stat (GetStagingPath m));
    match stat with
    | Some e => if is_kind NotExist e then mret tt else fail e
    | None => unstageVolumeForBlock m csi (GetStagingPath m)
    end;;
    _ ← attempt (cleanupOrphanDeviceFiles m); mret tt).
Definition UnmapPodDevice (csiDrivers : gmap string DriversStore.Driver) : M (csiBlockMapper * W) unit :=
  on_world block_enabled;;
  m ← this;
  csi ← get_client csiDrivers "blockMapper.UnmapPodDevice failed to get CSI client: ";
  on_world (unpublishVolumeForBlock m csi (getPublishPath m)).

(** ** What is saved is what is rebuilt *)
Section Laws.
Context `{!CsiHostLaws W}.
Lemma block_enabled_ok w w' : block_enabled w = Ret (w', inl tt) → w' = w ∧ blockEnabled p = true.
Proof. unfold block_enabled. destruct (blockEnabled p); [by intros [= <-]|done]. Qed.
Lemma get_block_data name src :
  let m := block_data name src in
  m !! specVolID = Some name ∧ m !! volHandle = Some (pvs_VolumeHandle src) ∧ m !! key_driverName = Some (pvs_Driver src).
Proof. cbv zeta. unfold block_data. split_and!; by simplify_map_eq. Qed.
(** C25: A block volume survives a restart of the process. NewBlockVolumeMapper leaves a file from which, if it is not touched, the
    unmapper of the same volume name and pod has the volume and the driver of the source the mapper was made for, with the client of that driver,
    and the paths the mapper stages and publishes to; and the volume rebuilt has the name, the driver and the handle of the one mapped, is
    persistent and of block mode, and has the same volume name. Attributes, secrets, access modes and the read-only flag are not saved. *)
Theorem block_volume_survives_restart sp pd w w' m uid :
  NewBlockVolumeMapper sp pd w = Ret (w', inl m) → ∃ file, ∀ w2, same_file file w' w2 →
  ∃ s src u s' pv' src', sp = Some s ∧ getCSISourceFromSpec CSIInlineVolume sp = inl src ∧
    specName m = spec_Name s ∧ podUID m = pod_UID pd ∧ volumeID m = pvs_VolumeHandle src ∧ driverName m = pvs_Driver src ∧
    NewBlockVolumeUnmapper (spec_Name s) (pod_UID pd) w2 = Ret (w2, inl u) ∧
    driverName u = pvs_Driver src ∧ volumeID u = pvs_VolumeHandle src ∧ getter u = new_getter (pvs_Driver src) ∧
    GetStagingPath u = GetStagingPath m ∧ getPublishPath u = getPublishPath m ∧ GetPodDeviceMapPath u = GetPodDeviceMapPath m ∧
    ConstructBlockVolumeSpec uid (spec_Name s) "" w2 = Ret (w2, inl s') ∧
    spec_Name s' = spec_Name s ∧ spec_PersistentVolume s' = Some pv' ∧ pvsp_VolumeMode (pv_Spec pv') = Some PersistentVolumeBlock ∧
    getCSISourceFromSpec CSIInlineVolume (Some s') = inl src' ∧ pvs_Driver src' = pvs_Driver src ∧ pvs_VolumeHandle src' = pvs_VolumeHandle src ∧
    GetVolumeName CSIInlineVolume (Some s') = inl (pvs_Driver src +:+ String volNameSep (pvs_VolumeHandle src)).
Proof.
  intros Hr. exists (Join [getVolumeDeviceDataDir (specName m) (host p); volDataFileName]). intros w2 Hw2. unfold NewBlockVolumeMapper in Hr. apply bind_ok in Hr as (w0 & [] & [-> He]%block_enabled_ok & Hr). rewrite check_bind in Hr.
  destruct (getCSISourceFromSpec CSIInlineVolume sp) as [src|e] eqn:Hsrc; [|done]. destruct sp as [s|]; [|done]. cbn [deref] in Hr. rewrite ret_bind, check_bind in Hr.
  destruct (getReadOnlyFromSpec s) as [ro|e]; [|done]. apply bind_ok in Hr as (w1 & [] & _ & Hr). cbv zeta in Hr.
  apply bind_ok in Hr as (w3 & r & _ & Hr). apply bind_ok in Hr as (w4 & [] & _ & Hr). apply bind_ok in Hr as (w5 & [] & Hsave%prefixed_ok%on_error_ok & [= <- <-]).
  cbn [specName] in Hw2. pose proof (load_same_file _ _ _ _ _ Hw2 (load_saved _ _ _ _ _ Hsave)) as Hl. destruct (get_block_data (spec_Name s) src) as (D1 & D2 & D3).
  assert (∀ w, block_enabled w = Ret (w, inl tt)) as Hb by (intros w6; unfold block_enabled; by rewrite He).
  set (s' := Mounter.construct_pv PersistentVolumeBlock (spec_Name s) (pvs_Driver src) (pvs_VolumeHandle src)).
  exists s, src, {| getter := new_getter (pvs_Driver src); driverName := pvs_Driver src; specName := spec_Name s; volumeID := pvs_VolumeHandle src; readOnly := false; spec := None; podUID := pod_UID pd |}, s'.
  eexists _, _. split_and!; try done.
  - unfold NewBlockVolumeUnmapper. rewrite bind_eq, Hb, bind_eq. unfold prefixed. rewrite Hl, D2, D3. done.
  - unfold ConstructBlockVolumeSpec. rewrite bind_eq, Hb, bind_eq. unfold prefixed. rewrite Hl, D1, D2, D3. done.
Qed.
End Laws.

(** ** What the driver is asked *)
(** The access mode of a volume: its first, ReadWriteOnce when it has none *)
Definition access_mode_of (pv : PersistentVolume) (am : string) : Prop :=
  match pvsp_AccessModes (pv_Spec pv) with None => am = ReadWriteOnce | Some l => head l = Some am end.
(** What SetUpDevice and MapPodDevice go on with: the source of the volume, its first access mode and the client of the driver; nothing but the client is set. *)
Lemma device_call_spec drivers name m w m' w' src att am csi :
  device_call drivers name (m, w) = Ret ((m', w'), inl (src, att, am, csi)) →
  (∃ g, m' = set_getter g m) ∧ getCSISourceFromSpec CSIInlineVolume (spec m) = inl src ∧ (Get_client drivers (getter m)).2 = inl csi ∧
  ∃ s pv, spec m = Some s ∧ spec_PersistentVolume s = Some pv ∧ access_mode_of pv am.
Proof.
  unfold device_call. intros Hc. apply bind_ok in Hc as ([m2 w2] & [] & [-> _]%on_world_ok & Hc). rewrite this_bind in Hc. destruct (spec m) as [s|] eqn:Hsp; [|done]. cbv zeta in Hc.
  apply bind_ok in Hc as ([m3 w3] & src' & Hsrc%prefixed_ok & Hc). unfold check in Hsrc. injection Hsrc as <- <- Hsrc.
  apply bind_ok in Hc as ([m4 w4] & sk & [-> _]%on_world_ok & Hc). apply bind_ok in Hc as ([m5 w5] & att' & Hatt & Hc).
  assert (m5 = m) as ->. { destruct sk; [by injection Hatt|]. apply bind_ok in Hatt as ([m6 w6] & a & [-> _]%on_world_ok & [= <- _ _]). done. }
  apply bind_ok in Hc as ([m7 w7] & pv & Hpv & Hc).
  assert (m7 = m ∧ spec_PersistentVolume s = Some pv) as [-> Hpv'] by (unfold deref in Hpv; destruct (spec_PersistentVolume s); [by injection Hpv as -> _ ->|done]).
  apply bind_ok in Hc as ([m8 w8] & am' & [-> Ham]%on_world_ok & Hc). apply bind_ok in Hc as ([m9 w9] & csi' & Hcl & [= <- <- <- <- <- <-]).
  unfold get_client in Hcl. rewrite this_bind in Hcl. destruct (Get_client drivers (getter m)) as [g r]. rewrite update_bind in Hcl. apply prefixed_ok in Hcl.
  unfold check in Hcl. injection Hcl as <- <- ->. split; [by exists g|]. split; [done|]. split; [done|]. exists s, pv. split; [done|]. split; [done|].
  unfold first_access_mode, access_mode_of in *. destruct (pvsp_AccessModes (pv_Spec pv)) as [ [|a l]|]; [done|by injection Ham as _ ->..].
Qed.
(** What a request is for: the source of the mapper's volume, the client of its driver, and the first access mode of the volume *)
Definition call_of (drivers : gmap string DriversStore.Driver) (m : csiBlockMapper) (src : CSIPersistentVolumeSource) (csi : csiDriverClient) (mode : AccessMode) : Prop :=
  getCSISourceFromSpec CSIInlineVolume (spec m) = inl src ∧ (Get_client drivers (getter m)).2 = inl csi ∧
  ∃ s pv am, spec m = Some s ∧ spec_PersistentVolume s = Some pv ∧ access_mode_of pv am ∧ mode = asCSIAccessModeV1 am.
(** C28: Block devices are staged and published. When SetUpDevice succeeds, the driver of the mapper has told whether it stages. If it does not, there
    is no path; if it does, it has staged the volume of the mapper's source to the staging path, which is the path returned, as a block volume with
    the attributes of the source and the first access mode of the volume. When MapPodDevice succeeds, that driver has published the mapper's
    volume to the mapper's publish path, which is the path returned, from the staging path, as a block volume, read-only as the mapper is. *)
Theorem device_staged_and_published drivers m w m' w' path :
  (SetUpDevice drivers (m, w) = Ret ((m', w'), inl path) →
   ∃ src csi mode stages w1 w2, call_of drivers m src csi mode ∧ NodeSupportsStageUnstage csi w1 = Ret (w2, inl stages) ∧
     if stages : bool
     then path = GetStagingPath m ∧ ∃ r w3, node_StageVolume (addr csi) r w3 = (w', None) ∧
            ns_VolumeId r = pvs_VolumeHandle src ∧ ns_StagingTargetPath r = GetStagingPath m ∧ ns_AccessType r = BlockVolume ∧
            ns_VolumeContext r = pvs_VolumeAttributes src ∧ ns_AccessMode r = mode
     else path = "" ∧ w' = w2) ∧
  (MapPodDevice drivers (m, w) = Ret ((m', w'), inl path) →
   ∃ src csi mode r w1, call_of drivers m src csi mode ∧ path = getPublishPath m ∧ node_PublishVolume (addr csi) r w1 = (w', None) ∧
     np_VolumeId r = volumeID m ∧ np_TargetPath r = getPublishPath m ∧ np_StagingTargetPath r = GetStagingPath m ∧ np_Readonly r = readOnly m ∧
     np_AccessType r = BlockVolume ∧ np_VolumeContext r = pvs_VolumeAttributes src ∧ np_AccessMode r = mode).
Proof.
  split; intros Hr; apply bind_ok in Hr as ([m1 w1] & [ [ [src att] am] csi] & ([g ->] & Hs & Hg & s & pv & Hsp & Hpv & Ham)%device_call_spec & Hr);
    rewrite this_bind in Hr; apply on_world_ok in Hr as [-> Hr];
    assert (call_of drivers m src csi (asCSIAccessModeV1 am)) as Hc by (split_and!; [done..|by exists s, pv, am]);
    exists src, csi, (asCSIAccessModeV1 am).
  - apply on_error_ok in Hr. unfold stageVolumeForBlock in Hr. apply bind_ok in Hr as (w2 & st & Hst%prefixed_ok & Hr). exists st, w1, w2.
    split; [exact Hc|]. split; [exact Hst|]. destruct st; cbn [negb] in Hr; [|by injection Hr as <- <-].
    apply bind_ok in Hr as (w3 & sec & _ & Hr). apply bind_ok in Hr as (w4 & [] & _ & Hr). apply bind_ok in Hr as (w5 & [] & (_ & _ & Hr)%stage_ok & [= <- <-]).
    split; [done|]. eexists _, w4. split; [exact Hr|]. by split_and!.
  - unfold publishVolumeForBlock in Hr. apply bind_ok in Hr as (w2 & sec & _ & Hr). apply bind_ok in Hr as (w3 & [] & _ & Hr).
    apply bind_ok in Hr as (w4 & [] & (_ & _ & Hr)%Mounter.publish_ok & [= <- <-]). eexists _, w3. split; [exact Hc|]. split; [done|]. split; [exact Hr|]. by split_and!.
Qed.

(** *** Behaviour that is not meant *)
(** No error of staging is one that tells that the operation may go on: after a call that timed out, too, the files are cleaned up under the driver. *)
Definition plain_errors {A} (m : M W A) : Prop := ∀ w w' e, m w = Ret (w', inr e) → e_Kind e = Plain.
Lemma plain_bind {A B} (m : M W A) (k : A → M W B) : plain_errors m → (∀ a, plain_errors (k a)) → plain_errors (mbind (M := M W) k m).
Proof. intros Hm Hk w w' e. rewrite bind_eq. destruct (m w) as [ [w1 [a|e1] ]| |] eqn:E; [by apply Hk|intros [= <- <-]; by eapply Hm|done..]. Qed.
Lemma plain_prefixed {A} pre (m : M W A) : plain_errors (prefixed pre m).
Proof. intros w w' e. unfold prefixed. destruct (m w) as [ [w1 [a|e1] ]| |]; [done| |done..]. by intros [= <- <-]. Qed.
Lemma plain_new {A} t : plain_errors (fail (A := A) (New t)).
Proof. by intros w w' e [= <- <-]. Qed.
Lemma plain_ret {A} (a : A) : plain_errors (mret (M := M W) a).
Proof. by intros w w' e. Qed.
Lemma stage_errors_are_final m csi am src att w w' e :
  stageVolumeForBlock m csi am src att w = Ret (w', inr e) → IsOperationFinishedError e = true.
Proof.
  assert (∀ s t, plain_errors (nonempty s t)) as Hne by (intros s t; unfold nonempty; case_bool_decide; [apply plain_new|apply plain_ret]).
  assert (plain_errors (stageVolumeForBlock m csi am src att)) as Hp.
  { unfold stageVolumeForBlock. apply plain_bind; [apply plain_prefixed|]. intros [|]; [|apply plain_ret]. cbn [negb].
    apply plain_bind; [destruct (pvs_NodeStageSecretRef src); [apply plain_prefixed|apply plain_ret]|intros sec].
    apply plain_bind; [apply plain_prefixed|intros _]. apply plain_bind; [|intros _; apply plain_ret].
    unfold NodeStageVolume, newV1NodeClient. apply plain_bind; [apply Hne|intros _]. apply plain_bind; [apply Hne|intros _]. apply plain_bind; [|intros _ w0 w1 e0].
    - destruct (nodeV1ClientCreator csi); cbn [negb]; [|apply plain_new]. intros w0 w1 e0. rewrite read_bind. destruct (node_Dial _ w0); [apply plain_new|done].
    - unfold act. destruct (node_StageVolume _ _ w0) as [w2 [t|] ]; [|done]. by intros [= <- <-]. }
  intros Hr. apply Hp in Hr. unfold IsOperationFinishedError, is_kind. by rewrite Hr.
Qed.
(** The directory of a volume called staging holds the staging directories of all the others, and is removed with what is in it when that volume is. *)
Lemma volume_called_staging m : specName m ≠ "" → VolumeHost.kubeletPluginsDir (host p) ≠ "" →
  inside (getVolumePluginDir "staging" (host p)) (GetStagingPath m) = true.
Proof.
  intros Hn Hd. unfold getVolumePluginDir, GetStagingPath, inside. change (EscapeQualifiedName "staging") with "staging".
  set (d := VolumeHost.GetVolumeDevicePluginDir (host p) CSIPluginName). assert (d ≠ "") as Hdn by by apply Join_ne.
  apply orb_true_iff. right. unfold Join. rewrite !filter_cons, !decide_True by done. cbn [filter list_filter join].
  assert (∀ a b, prefixb a (a +:+ b) = true) as Hpre.
  { intros a b. induction a as [|x a IH]; [done|]. rewrite str_app_cons. cbn [prefixb]. by rewrite bool_decide_eq_true_2, IH. }
  rewrite <- !str_app_assoc. replace (d +:+ ("/" +:+ ("staging" +:+ ("/" +:+ specName m)))) with ((d +:+ ("/" +:+ ("staging" +:+ "/"))) +:+ specName m)
    by by rewrite <- !str_app_assoc. apply Hpre.
Qed.
End Block.
End Block.

(** ** Examples *)
Module CsiBlockExamples.
Import CsiSamples CsiClientExamples CsiPluginExamples CsiMounterExamples Client Plugin Block.
Definition made := NewBlockVolumeMapper true name_hash p (Some pvspec) web start.
Definition mapper : csiBlockMapper := match made with Ret (_, inl m) => m | _ =>
  {| getter := new_getter ""; driverName := ""; specName := ""; volumeID := ""; readOnly := false; spec := None; podUID := "" |} end.
Definition staged := SetUpDevice true name_hash p stores (mapper, after made empty).
Definition mapped := MapPodDevice true name_hash p stores (after staged (mapper, empty)).
Definition unmapped := UnmapPodDevice p stores (after mapped (mapper, empty)).
Definition torn := TearDownDevice p stores "" "" (after unmapped (mapper, empty)).
(** The life of a block volume, on aranya's own host: what the driver is asked, and that no file is left *)
Example life_of_a_device :
  answer staged = Some (inl "/var/lib/kubelet/plugins/kubernetes.io/csi/volumeDevices/staging/pv-1") ∧
  answer mapped = Some (inl "/var/lib/kubelet/plugins/kubernetes.io/csi/volumeDevices/publish/pv-1/u1") ∧
  calls (after torn (mapper, empty)).2 = [
    "stage vol-1 at /var/lib/kubelet/plugins/kubernetes.io/csi/volumeDevices/staging/pv-1";
    "publish vol-1 at /var/lib/kubelet/plugins/kubernetes.io/csi/volumeDevices/publish/pv-1/u1";
    "unpublish vol-1 at /var/lib/kubelet/plugins/kubernetes.io/csi/volumeDevices/publish/pv-1/u1";
    "unstage vol-1 at /var/lib/kubelet/plugins/kubernetes.io/csi/volumeDevices/staging/pv-1"] ∧
  files (after torn (mapper, empty)).2 = ∅.
Proof. by split_and!; vm_compute. Qed.
(** A run that answers ends in the world it is left in. *)
Lemma answer_after {A B} (r : outcome (B * (A + Error))) a b : answer r = Some a → r = Ret (after r b, a).
Proof. destruct r as [ [b' a']| |]; cbn; [by intros [= <-]|done..]. Qed.
Lemma block_volume_survives_restart_witness :
  ∃ u s', made = Ret (after made empty, inl mapper) ∧ NewBlockVolumeUnmapper p "pv-1" "u1" (after made empty) = Ret (after made empty, inl u) ∧
    driverName u = "disk.example.com" ∧ volumeID u = "vol-1" ∧
    ConstructBlockVolumeSpec p "" "pv-1" "" (after made empty) = Ret (after made empty, inl s') ∧ GetVolumeName true (Some s') = inl "disk.example.com^vol-1".
Proof.
  assert (made = Ret (after made empty, inl mapper)) as Hm by (apply answer_after; vm_compute; reflexivity).
  destruct (block_volume_survives_restart true name_hash p (Some pvspec) web start (after made empty) mapper "" Hm) as [file Hf].
  destruct (Hf (after made empty)) as (s & src & u & s' & pv' & src' & [= <-] & Hsrc & _ & _ & _ & _ & U & U1 & U2 & _ & _ & _ & _ & C & _ & _ & _ & _ & _ & _ & V); [done|].
  injection Hsrc as <-. exists u, s'. split_and!; [exact Hm|exact U|exact U1|exact U2|exact C|exact V].
Defined.
Lemma device_staged_and_published_witness :
  ∃ r w1 r' w2, node_StageVolume "/disk.sock" r w1 = ((after staged (mapper, empty)).2, None) ∧ ns_VolumeId r = "vol-1" ∧
    node_PublishVolume "/disk.sock" r' w2 = ((after mapped (mapper, empty)).2, None) ∧ np_StagingTargetPath r' = GetStagingPath p mapper.
Proof.
  destruct (device_staged_and_published true name_hash p stores mapper (after made empty) (after staged (mapper, empty)).1 (after staged (mapper, empty)).2 (GetStagingPath p mapper))
    as [S _].
  destruct S as (src & csi & mode & st & w1 & w2 & (C1 & C2 & _) & _ & S).
  { rewrite <- !surjective_pairing. apply (answer_after staged). vm_compute; reflexivity. }
  destruct (device_staged_and_published true name_hash p stores (after staged (mapper, empty)).1 (after staged (mapper, empty)).2
              (after mapped (mapper, empty)).1 (after mapped (mapper, empty)).2 (getPublishPath p mapper)) as [_ M].
  destruct M as (src' & csi' & mode' & r' & w3 & (C1' & C2' & _) & _ & M & _ & _ & M1 & _).
  { rewrite <- !surjective_pairing. apply (answer_after mapped). vm_compute; reflexivity. }
  destruct st; [|exfalso; destruct S as [S _]; vm_compute in S; discriminate]. destruct S as (_ & r & w4 & S & S1 & _).
  vm_compute in C1, C2, C2'. injection C1 as <-. injection C2 as <-. injection C2' as <-. exists r, w4, r', w3. split_and!; [exact S|exact S1|exact M|exact M1].
Defined.
(** Before anything is attached, a device is not set up. *)
Example not_attached : answer (SetUpDevice true name_hash p stores (mapper, empty)) =
  Some (inr (New (log "blockMapper.SetupDevice failed to get volume attachment [id=csi-h:vol-1disk.example.comdev-0]: not found"))).
Proof. by vm_compute. Qed.
End CsiBlockExamples.
