(* ===== verification/Leader.v ===== *)
(** * The leadership of aranya

    src/pkg/controller/aranya: the elected instance marks its own pod with the leadership label and takes the label from all the others;
    the service of aranya selects the pod by it. The informer and the client are the class LeaderAPI. *)
From S2P Require Import Prelude K8s Api.
Open Scope Z_scope.

Definition LabelAranyaLeadership : string := "aranya.arhat.dev/leadership".
Definition LabelAranyaLeadershipLeader : string := "leader".

Class LeaderAPI (W : Type) := {
  pod_Store : W → list Pod;                              (** the informer's store of the namespace, in some order *)
  pod_Get : string → W → Pod + KubeError;
  pod_Update : Pod → W → W * option KubeError
}.
(** The API server: a pod is found under its name; an update changes the pod of its name only. *)
Class LeaderLaws (W : Type) `{LeaderAPI W} := {
  Get_named : ∀ name w p, pod_Get name w = inl p → pod_Name p = name;
  Update_sets : ∀ p w w', pod_Update p w = (w', None) → pod_Get (pod_Name p) w' = inl p;
  Update_keeps : ∀ p w w' name, pod_Update p w = (w', None) → name ≠ pod_Name p → pod_Get name w' = pod_Get name w
}.

Definition set_labels (l : gmap string string) (p : Pod) : Pod :=
  {| pod_UID := pod_UID p; pod_Namespace := pod_Namespace p; pod_Name := pod_Name p; pod_Labels := l; pod_Annotations := pod_Annotations p;
     pod_Finalizers := pod_Finalizers p; pod_Spec := pod_Spec p; pod_Status := pod_Status p |}.
Definition is_leader (p : Pod) : bool := bool_decide (pod_Labels p !! LabelAranyaLeadership = Some LabelAranyaLeadershipLeader).

Module PodController.
Section PodController.
Context {W : Type} `{LeaderAPI W} (ThisPodName : string).

(** The label is taken from the other pods, until an update fails. *)
Fixpoint take_leadership (pods : list Pod) (w : W) : W * option string :=
  match pods with
  | [] => (w, None)
  | po :: pods =>
      if bool_decide (pod_Name po = ThisPodName) || negb (is_leader po) then take_leadership pods w
      else let '(w, err) := pod_Update (set_labels (delete LabelAranyaLeadership (pod_Labels po)) po) w in
           match err with Some e => (w, Some (ke_Text e)) | None => take_leadership pods w end
  end.
(** onPodUpdated: its error; it panics when aranya's own pod is not there. *)
Definition onPodUpdated (w : W) : outcome (W * option string) :=
  let '(w, err) := take_leadership (pod_Store w) w in
  match err with
  | Some e => Ret (w, Some e)
  | None =>
      match pod_Get ThisPodName w with
      | inr e => if ke_NotFound e then Panic ("failed to find aranya pod itself: " +:+ ke_Text e) else Ret (w, Some (ke_Text e))
      | inl thisPod =>
          if is_leader thisPod then Ret (w, None) else
          let '(w, err) := pod_Update (set_labels (<[LabelAranyaLeadership := LabelAranyaLeadershipLeader]> (pod_Labels thisPod)) thisPod) w in
          match err with
          | None => Ret (w, None)
          | Some e => if ke_NotFound e then Panic ("failed to update aranya pod itself: " +:+ ke_Text e) else Ret (w, Some (ke_Text e))
          end
      end
  end.

(** The pods that have the label, in the cluster *)
Definition leads (name : string) (w : W) : Prop := ∃ p, pod_Get name w = inl p ∧ is_leader p = true.

Context `{!LeaderLaws W}.
Lemma unlabelled p : is_leader (set_labels (delete LabelAranyaLeadership (pod_Labels p)) p) = false.
Proof. unfold is_leader. cbn. by rewrite lookup_delete_eq. Qed.
Lemma labelled p : is_leader (set_labels (<[LabelAranyaLeadership := LabelAranyaLeadershipLeader]> (pod_Labels p)) p) = true.
Proof. unfold is_leader. cbn. by rewrite lookup_insert_eq. Qed.

Lemma take_leadership_spec pods w w' :
  take_leadership pods w = (w', None) →
  pod_Get ThisPodName w' = pod_Get ThisPodName w ∧
  ∀ name, leads name w' → leads name w ∧ (name = ThisPodName ∨ ∀ p, p ∈ pods → pod_Name p = name → is_leader p = false).
Proof.
  revert w. induction pods as [|po pods IH]; intros w; cbn [take_leadership].
  - intros [= <-]. split; [done|]. intros name Hn. split; [done|]. right. by intros p ?%elem_of_nil.
  - destruct (bool_decide (pod_Name po = ThisPodName) || negb (is_leader po)) eqn:E.
    + intros Ht. destruct (IH w Ht) as [H1 H2]. split; [done|]. intros name Hn. destruct (H2 name Hn) as [Hw Hp]. split; [done|].
      apply orb_true_iff in E as [E|E]; [apply bool_decide_eq_true in E|apply negb_true_iff in E].
      * destruct (decide (name = ThisPodName)) as [|Hne]; [by left|right]. destruct Hp as [?|Hp]; [done|].
        intros p [->|Hin]%elem_of_cons Hname; [congruence|by apply Hp].
      * destruct Hp as [?|Hp]; [by left|right]. intros p [->|Hin]%elem_of_cons Hname; [done|by apply Hp].
    + apply orb_false_iff in E as [E _]. apply bool_decide_eq_false in E.
      set (p1 := set_labels _ po). destruct (pod_Update p1 w) as [w1 [e|] ] eqn:Eu; [done|]. intros Ht. destruct (IH w1 Ht) as [H1 H2].
      split; [rewrite H1; by apply (Update_keeps p1)|]. intros name Hn. destruct (H2 name Hn) as [ (p & Hg & Hl) Hp].
      assert (name ≠ pod_Name po) as Hne.
      { intros ->. pose proof (Update_sets p1 w w1 Eu) as Hs. cbn in Hs. rewrite Hs in Hg. injection Hg as <-. by rewrite (unlabelled po : is_leader p1 = false) in Hl. }
      split; [exists p; split; [|done]; by rewrite <- (Update_keeps p1 w w1 name Eu)|].
      destruct Hp as [?|Hp]; [by left|right]. intros q [->|Hin]%elem_of_cons Hname; [by destruct Hne|by apply Hp].
Qed.

(** C7: when the elected instance has handled an update of a pod without an error, its own pod has the leadership label and no other has,
    provided the informer knows every pod that has it; and another update changes nothing. *)
Theorem leadership_unique w w' :
  (∀ name, leads name w → ∃ p, p ∈ pod_Store w ∧ pod_Name p = name ∧ is_leader p = true) →
  onPodUpdated w = Ret (w', None) →
  (∀ name, leads name w' ↔ name = ThisPodName) ∧
  ((∀ p, p ∈ pod_Store w' → is_leader p = true → pod_Name p = ThisPodName) → onPodUpdated w' = Ret (w', None)).
Proof.
  intros Hstore. unfold onPodUpdated at 1. destruct (take_leadership (pod_Store w) w) as [w1 [e|] ] eqn:Et; [done|].
  destruct (take_leadership_spec _ _ _ Et) as [Hthis Hothers].
  assert (∀ name, leads name w1 → name = ThisPodName) as Honly.
  { intros name Hn. destruct (Hothers name Hn) as [Hw [?|Hp] ]; [done|]. destruct (Hstore name Hw) as (p & Hin & Hname & Hl).
    specialize (Hp p Hin Hname). congruence. }
  assert (∀ w2 p, pod_Get ThisPodName w2 = inl p → is_leader p = true →
    (∀ p, p ∈ pod_Store w2 → is_leader p = true → pod_Name p = ThisPodName) → onPodUpdated w2 = Ret (w2, None)) as Hagain.
  { intros w2 p Hg Hl Hs. unfold onPodUpdated. assert (take_leadership (pod_Store w2) w2 = (w2, None)) as ->; [|by rewrite Hg, Hl].
    induction (pod_Store w2) as [|q l IH]; [done|]. cbn [take_leadership]. destruct (is_leader q) eqn:Eq.
    - rewrite bool_decide_true by (apply Hs; [left|done]). cbn. apply IH. intros r Hr. apply Hs. by right.
    - rewrite orb_true_r. apply IH. intros r Hr. apply Hs. by right. }
  destruct (pod_Get ThisPodName w1) as [thisPod|e] eqn:Eg; [|by destruct (ke_NotFound e)]. destruct (is_leader thisPod) eqn:El.
  - intros [= <-]. split; [|by apply (Hagain _ thisPod)]. intros name. split; [apply Honly|intros ->]. by exists thisPod.
  - set (p1 := set_labels _ thisPod). destruct (pod_Update p1 w1) as [w2 [e|] ] eqn:Eu; [by destruct (ke_NotFound e)|]. intros [= <-].
    pose proof (Get_named _ _ _ Eg) as Hname. pose proof (Update_sets _ _ _ Eu) as Hs. cbn in Hs. rewrite Hname in Hs.
    split; [|apply (Hagain _ p1); [done|apply labelled] ]. intros name. split; [|intros ->; exists p1; split; [done|apply labelled] ].
    intros (p & Hg & Hl). destruct (decide (name = ThisPodName)) as [|Hne]; [done|].
    rewrite (Update_keeps p1 w1 w2 name Eu) in Hg by (cbn; congruence). apply Honly. by exists p.
Qed.
End PodController.
End PodController.

Module LeaderExamples.
Import PodController.
(** A cluster that is its pods, and an informer that sees them all *)
Abbreviation Pods := (gmap string Pod).
#[export] Instance pods_api : LeaderAPI Pods := {|
  pod_Store := λ w, (map_to_list w).*2;
  pod_Get := λ name w, match w !! name with
                       | Some p => if decide (pod_Name p = name) then inl p else inr {| ke_NotFound := false; ke_Conflict := false; ke_Text := "bad name" |}
                       | None => inr {| ke_NotFound := true; ke_Conflict := false; ke_Text := "not found" |} end;
  pod_Update := λ p w, (<[pod_Name p := p]> w, None)
|}.
#[export] Instance pods_laws : LeaderLaws Pods.
Proof.
  split; cbn.
  - intros name w p. destruct (w !! name); [|done]. case_decide; [|done]. by intros [= <-].
  - intros p w w' [= <-]. by rewrite lookup_insert_eq, decide_True.
  - intros p w w' name [= <-] Hne. by rewrite lookup_insert_ne.
Defined.
Definition aranya (name : string) (leader : bool) : Pod :=
  set_labels (if leader then {["app" := "aranya"; LabelAranyaLeadership := LabelAranyaLeadershipLeader]} else {["app" := "aranya"]})
    (Samples.pod ("uid-" +:+ name) name (Samples.spec [] [] [])).
Definition cluster : Pods := {["old" := aranya "old" true; "new" := aranya "new" false]}.
Definition after : Pods := match onPodUpdated "new" cluster with Ret (w, _) => w | _ => cluster end.
Lemma leadership_unique_witness : leads "old" cluster ∧ ∀ name, leads name after ↔ name = "new".
Proof.
  split; [exists (aranya "old" true); vm_compute; split; reflexivity|].
  destruct (leadership_unique "new" cluster after) as [H _]; [|vm_compute; reflexivity|exact H].
  intros name (p & Hg & Hl). exists p. cbn in Hg. destruct (cluster !! name) as [q|] eqn:E; [|discriminate].
  destruct (decide (pod_Name q = name)) as [Hn|]; [|discriminate]. injection Hg as <-. split; [|split; [exact Hn|exact Hl] ].
  apply list_elem_of_fmap. exists (name, q). split; [reflexivity|]. apply elem_of_map_to_list. exact E.
Defined.
(** When aranya's own pod is gone the controller panics, and with it the whole instance. *)
Example own_pod_gone : onPodUpdated "gone" cluster = Panic "failed to find aranya pod itself: not found".
Proof. by vm_compute. Qed.
End LeaderExamples.
