(* ===== verification/Wiring.v ===== *)
(** * The wiring of the controllers

    src/pkg/controller/edgedevice: NewController and Start of controller.go, and the init functions of the controllers it is made of, one
    after the other: which objects are watched, with which selection, which reconciler handles them, and what Start waits for. The informers
    are those of client-go (informers/factory.go, vendored; aranya's own generated factory is the same code): a factory keeps one informer
    for a type, with the selection of the first that asked for it. *)
From stdpp Require Import functions.
From S2P Require Import Prelude Effects GoNet K8s Api TimeoutQueue Reconcile Ipam Cluster NodeCert Rbac NodeObject NodeLease.
Open Scope Z_scope.

(** ** Informers and their factories *)
Module Informers.
(** The Go types of the objects that are watched *)
Inductive Kind :=
  | Node | Service | Endpoints | Secret | ConfigMap | Pod | Role | ClusterRole | LeaseV1 | LeaseV1beta1 | CSIDriverV1 | CSIDriverV1beta1 | EdgeDevice.
#[export] Instance Kind_eq : EqDecision Kind.
Proof. solve_decision. Defined.

(** metav1.ListOptions: a label selector is its requirements of equality, a field selector on metadata.name the name *)
Record ListOptions := { LabelSelector : list (string * string); FieldSelector : option string }.
Definition no_options : ListOptions := {| LabelSelector := []; FieldSelector := None |}.
Definition Tweak : Type := ListOptions → ListOptions.
(** newTweakListOptionsFunc: the requirements are added to those there are *)
Definition newTweakListOptionsFunc (reqs : list (string * string)) : Tweak := λ o,
  {| LabelSelector := LabelSelector o ++ reqs; FieldSelector := FieldSelector o |}.
(** fields.OneTermEqualSelector("metadata.name", name) as the field selector *)
Definition only_name (name : string) : Tweak := λ o, {| LabelSelector := LabelSelector o; FieldSelector := Some name |}.
Definition no_tweak : Tweak := λ o, o.

(** The object as the API server selects it, and the ListWatch of an informer: the namespace "" is all of them. *)
Record Object := { o_Kind : Kind; o_Namespace : string; o_Name : string; o_Labels : gmap string string }.
Record Informer := { i_Kind : Kind; i_Namespace : string; i_Options : ListOptions }.
Definition selected (o : ListOptions) (x : Object) : bool :=
  forallb (λ kv, bool_decide (o_Labels x !! kv.1 = Some kv.2)) (LabelSelector o) &&
  match FieldSelector o with Some name => bool_decide (o_Name x = name) | None => true end.
Definition watches (i : Informer) (x : Object) : bool :=
  bool_decide (o_Kind x = i_Kind i) && (bool_decide (i_Namespace i = "") || bool_decide (o_Namespace x = i_Namespace i)) && selected (i_Options i) x.

(** sharedInformerFactory: by type, the informers and whether they run *)
Record Factory := { f_namespace : string; f_tweakListOptions : Tweak; f_informers : Kind → option Informer; f_startedInformers : Kind → bool }.
Definition NewSharedInformerFactory (namespace : string) (tweak : Tweak) : Factory :=
  {| f_namespace := namespace; f_tweakListOptions := tweak; f_informers := λ _, None; f_startedInformers := λ _, false |}.
Definition set_informers (m : Kind → option Informer) (f : Factory) : Factory :=
  {| f_namespace := f_namespace f; f_tweakListOptions := f_tweakListOptions f; f_informers := m; f_startedInformers := f_startedInformers f |}.
Definition InformerFor (k : Kind) (new : Informer) (f : Factory) : Factory :=
  match f_informers f k with Some _ => f | None => set_informers (<[k := Some new]> (f_informers f)) f end.
(** Start: the informers that run from now on run for ever. *)
Definition Start (f : Factory) : Factory :=
  {| f_namespace := f_namespace f; f_tweakListOptions := f_tweakListOptions f; f_informers := f_informers f;
     f_startedInformers := λ k, f_startedInformers f k || bool_decide (is_Some (f_informers f k)) |}.

(** The first informer of a type stays; the others get it. *)
Lemma InformerFor_first k new f :
  (∀ i, f_informers f k = Some i → f_informers (InformerFor k new f) k = Some i) ∧
  (f_informers f k = None → f_informers (InformerFor k new f) k = Some new).
Proof.
  unfold InformerFor. split; intros; case_match; simplify_eq; try done. cbn. by rewrite fn_lookup_insert.
Qed.
Lemma InformerFor_keeps k new f k' i : f_informers f k' = Some i → f_informers (InformerFor k new f) k' = Some i.
Proof.
  unfold InformerFor. intros H. case_match; [done|]. cbn. destruct (decide (k = k')) as [->|]; [congruence|]. by rewrite fn_lookup_insert_ne.
Qed.
Lemma InformerFor_has k new f : is_Some (f_informers (InformerFor k new f) k).
Proof. unfold InformerFor. case_match; [by eexists|]. cbn. rewrite fn_lookup_insert. by eexists. Qed.
(** Starting twice is starting once. *)
Lemma Start_twice f k : f_startedInformers (Start (Start f)) k = f_startedInformers (Start f) k.
Proof. cbn. by destruct (f_startedInformers f k), (bool_decide _). Qed.
End Informers.

(** ** The controller: what its parts have put into it *)
Module Setup.
Import Informers.

(** The factories of NewController, and those made by the init functions of the leases and the edge devices *)
Inductive FactoryId := ClusterF | ThisPodNSF | SysF | TenantF | NodeLeaseF | EdgeDeviceF.
#[export] Instance FactoryId_eq : EqDecision FactoryId.
Proof. solve_decision. Defined.
(** A pointer to an informer: informers live in factories, one of a type. *)
Definition Ref : Type := FactoryId * Kind.

(** The handlers by their names, of reconcile.Options *)
Record Handlers := { OnAdded : option string; OnUpdated : option string; OnDeleting : option string; OnDeleted : option string }.
(** A reconciler by the name of its logger; a KubeInformerReconciler has an informer, a plain Core is asked by other parts. *)
Record Reconciler := { rec_Name : string; rec_Informer : option Ref; rec_RequireCache : bool; rec_Handlers : Handlers }.
#[export] Instance Handlers_eq : EqDecision Handlers.
Proof. solve_decision. Defined.
#[export] Instance Reconciler_eq : EqDecision Reconciler.
Proof. solve_decision. Defined.

(** What of conf.Config the wiring reads. The answer of NewKubeClient for the virtual nodes is its error. *)
Record Config := {
  ConnectivityService : string; StorageService : string;
  NodeClusterRoles : gmap string NodeClusterRolePermissions; PodRoles : gmap string PodRolePermissions; VirtualPodRoles : gmap string PodRolePermissions;
  vnKubeClient : option string; LeaseEnabled : bool; Cert : TLSOptions.Config; StorageEnabled : bool;
  NetworkEnabled : bool; AbbotService : string; NetworkService : string;
  IPv4Blocks : list (string * string * string); IPv6Blocks : list (string * string * string);
  RunAsCloudProvider : bool
}.
(** What the init functions set that is not a list of the controller *)
Record Fields := {
  connSvcReqRec : bool; nodeLeaseInformer : option Ref; certTLS : option (Z * Z * list Z);
  vpRoles : gmap string PodRolePermissions; tenantPodRoles : gmap string PodRolePermissions; nodeClusterRoles : gmap string NodeClusterRolePermissions;
  meshIPAMv4 : option IPAddressManager.IPAddressManager; meshIPAMv6 : option IPAddressManager.IPAddressManager; csiDriverLister : option Ref; cloudControllers : bool
}.
Record Controller := {
  factories : FactoryId → Factory;
  informerFactoryStart : list FactoryId; cacheSyncWaitFuncs : list Ref;
  listActions : list (list (Ref * string));         (** the listers asked and how an error of each begins *)
  recStart : list Reconciler; recReconcile : list Reconciler;
  fields : Fields
}.
Definition no_fields : Fields := {|
  connSvcReqRec := false; nodeLeaseInformer := None; certTLS := None; vpRoles := ∅; tenantPodRoles := ∅; nodeClusterRoles := ∅;
  meshIPAMv4 := None; meshIPAMv6 := None; csiDriverLister := None; cloudControllers := false |}.

Definition set_factories (f : FactoryId → Factory) (c : Controller) : Controller := {|
  factories := f; informerFactoryStart := informerFactoryStart c; cacheSyncWaitFuncs := cacheSyncWaitFuncs c;
  listActions := listActions c; recStart := recStart c; recReconcile := recReconcile c; fields := fields c |}.
Definition set_lists (s : list FactoryId) (w : list Ref) (l : list (list (Ref * string))) (st re : list Reconciler) (c : Controller) : Controller := {|
  factories := factories c; informerFactoryStart := s; cacheSyncWaitFuncs := w; listActions := l; recStart := st; recReconcile := re;
  fields := fields c |}.
Definition set_fields (f : Fields → Fields) (c : Controller) : Controller := {|
  factories := factories c; informerFactoryStart := informerFactoryStart c; cacheSyncWaitFuncs := cacheSyncWaitFuncs c;
  listActions := listActions c; recStart := recStart c; recReconcile := recReconcile c; fields := f (fields c) |}.

Local Notation T := (M Controller) (only parsing).
Definition modify (f : Controller → Controller) : T unit := λ c, Ret (f c, inl tt).
(** factory.Group().Version().Kinds().Informer(), with the namespace and the selection of the factory *)
Definition Informer_of (f : FactoryId) (k : Kind) : T Ref := λ c,
  let new := {| i_Kind := k; i_Namespace := f_namespace (factories c f); i_Options := f_tweakListOptions (factories c f) no_options |} in
  Ret (set_factories (<[f := InformerFor k new (factories c f)]> (factories c)) c, inl (f, k)).
(** informersv1.New(factory, namespace, tweak).Kinds().Informer() *)
Definition New_Informer (f : FactoryId) (namespace : string) (tweak : Tweak) (k : Kind) : T Ref := λ c,
  let new := {| i_Kind := k; i_Namespace := namespace; i_Options := tweak no_options |} in
  Ret (set_factories (<[f := InformerFor k new (factories c f)]> (factories c)) c, inl (f, k)).
Definition NewFactory (f : FactoryId) (namespace : string) (tweak : Tweak) : T unit :=
  modify (λ c, set_factories (<[f := NewSharedInformerFactory namespace tweak]> (factories c)) c).
Definition add_factory_start (f : FactoryId) : T unit :=
  modify (λ c, set_lists (informerFactoryStart c ++ [f]) (cacheSyncWaitFuncs c) (listActions c) (recStart c) (recReconcile c) c).
Definition add_waits (l : list Ref) : T unit :=
  modify (λ c, set_lists (informerFactoryStart c) (cacheSyncWaitFuncs c ++ l) (listActions c) (recStart c) (recReconcile c) c).
Definition add_list (l : list (Ref * string)) : T unit :=
  modify (λ c, set_lists (informerFactoryStart c) (cacheSyncWaitFuncs c) (listActions c ++ [l]) (recStart c) (recReconcile c) c).
(** NewKubeInformerReconciler and NewCore; the reconciler is started and reconciled with the others *)
Definition add_rec (r : Reconciler) : T unit :=
  modify (λ c, set_lists (informerFactoryStart c) (cacheSyncWaitFuncs c) (listActions c) (recStart c ++ [r]) (recReconcile c ++ [r]) c).
Definition informer_rec (name : string) (i : Ref) (h : Handlers) : Reconciler :=
  {| rec_Name := name; rec_Informer := Some i; rec_RequireCache := true; rec_Handlers := h |}.
Definition request_rec (name : string) (requireCache : bool) (h : Handlers) : Reconciler :=
  {| rec_Name := name; rec_Informer := None; rec_RequireCache := requireCache; rec_Handlers := h |}.
Definition on_added (h : string) : Handlers := {| OnAdded := Some h; OnUpdated := None; OnDeleting := None; OnDeleted := None |}.
Definition handlers (a u di de : string) : Handlers := {| OnAdded := Some a; OnUpdated := Some u; OnDeleting := Some di; OnDeleted := Some de |}.
Definition updates (a u : string) : Handlers := {| OnAdded := Some a; OnUpdated := Some u; OnDeleting := None; OnDeleted := None |}.
Definition error {A} (text : string) : T A := fail (New text).

Definition LabelRoleValueConnectivity : string := "Connectivity".
Definition NamespaceNodeLease : string := "kube-node-lease".
(** The init functions. The namespaces are those of the environment (constant/env.go), the cipher suites those of tlshelper, and
    [preferred] is what the API server serves: versions of groups with the kinds of objects in them. *)
Section Init.
Context (SysNS TenantNS ThisPodNS : string) (known : gmap string Z) (preferred : list (string * list string)).
Definition serves (groupVersion kind : string) : bool := existsb (λ l, bool_decide (l.1 = groupVersion) && bool_decide (kind ∈ l.2)) preferred.
(** CreateLeaseClient, CreateCSIDriverClient: the version used, v1 before v1beta1 *)
Definition lease_kind : option Kind :=
  if serves "coordination.k8s.io/v1" "Lease" then Some LeaseV1 else if serves "coordination.k8s.io/v1beta1" "Lease" then Some LeaseV1beta1 else None.
Definition csidriver_kind : option Kind :=
  if serves "storage.k8s.io/v1" "CSIDriver" then Some CSIDriverV1 else if serves "storage.k8s.io/v1beta1" "CSIDriver" then Some CSIDriverV1beta1 else None.
Definition in_namespace (what ns : string) : string := "failed to list " +:+ what +:+ " in namespace " +:+ quote ns +:+ ": ".
Definition of_role (role : string) : list (string * string) := [(LabelRole, role)].
Definition of_role_here (role : string) : list (string * string) := [(LabelNamespace, SysNS); (LabelRole, role)].

Definition edgeDeviceController_init : T unit :=
  _ ← NewFactory EdgeDeviceF SysNS no_tweak;
  _ ← add_factory_start EdgeDeviceF;
  i ← Informer_of EdgeDeviceF EdgeDevice;
  _ ← add_waits [i]; _ ← add_list [(i, in_namespace "edgedevice" SysNS)];
  add_rec (informer_rec "rec:ed" i (handlers "onEdgeDeviceResAdded" "onEdgeDeviceResUpdated" "onEdgeDeviceResDeleting" "onEdgeDeviceResDeleted")).

Definition set_connSvc (f : Fields) : Fields := {|
  connSvcReqRec := true; nodeLeaseInformer := nodeLeaseInformer f; certTLS := certTLS f; vpRoles := vpRoles f; tenantPodRoles := tenantPodRoles f;
  nodeClusterRoles := nodeClusterRoles f; meshIPAMv4 := meshIPAMv4 f; meshIPAMv6 := meshIPAMv6 f; csiDriverLister := csiDriverLister f;
  cloudControllers := cloudControllers f |}.
Definition connectivityServiceController_init (config : Config) : T unit :=
  if bool_decide (ConnectivityService config = "") then mret tt else
  i ← New_Informer ThisPodNSF ThisPodNS (only_name (ConnectivityService config) ∘ newTweakListOptionsFunc (of_role LabelRoleValueConnectivity)) Service;
  _ ← add_waits [i]; _ ← add_list [(i, in_namespace "services" ThisPodNS)];
  _ ← add_rec (informer_rec "rec:svc" i (handlers "nextActionUpdate" "onServiceUpdated" "onServiceDeleting" "onServiceDeleted"));
  _ ← modify (set_fields set_connSvc);
  add_rec (request_rec "rec:svc_req" false (on_added "onServiceEnsureRequested")).

Definition set_lease (i : Ref) (f : Fields) : Fields := {|
  connSvcReqRec := connSvcReqRec f; nodeLeaseInformer := Some i; certTLS := certTLS f; vpRoles := vpRoles f; tenantPodRoles := tenantPodRoles f;
  nodeClusterRoles := nodeClusterRoles f; meshIPAMv4 := meshIPAMv4 f; meshIPAMv6 := meshIPAMv6 f; csiDriverLister := csiDriverLister f;
  cloudControllers := cloudControllers f |}.
Definition init_leases : T unit :=
  _ ← NewFactory NodeLeaseF NamespaceNodeLease (newTweakListOptionsFunc (of_role_here LabelRoleValueNodeLease));
  _ ← add_factory_start NodeLeaseF;
  i ← match lease_kind with
      | Some k => i ← Informer_of NodeLeaseF k; _ ← add_list [(i, "failed to list cluster roles: ")]; mret i
      | None => error "no lease api support in kubernetes cluster"
      end;
  _ ← modify (set_fields (set_lease i));
  _ ← add_waits [i];
  _ ← add_rec (informer_rec "rec:nl" i (handlers "nextActionUpdate" "onNodeLeaseUpdated" "onNodeLeaseDeleting" "onNodeLeaseDeleted"));
  add_rec (request_rec "rec:nl:req" true (on_added "onNodeLeaseEnsureRequest")).
Definition nodeController_init (config : Config) : T unit :=
  _ ← match vnKubeClient config with Some e => error ("failed to get kubeconfig for virtualnode: " +:+ e) | None => mret tt end;
  i ← New_Informer ClusterF "" (newTweakListOptionsFunc (of_role_here LabelRoleValueNode)) Node;
  _ ← add_waits [i]; _ ← add_list [(i, "failed to list nodes: ")];
  _ ← (if LeaseEnabled config then init_leases else mret tt);
  _ ← add_rec (informer_rec "rec:node" i (handlers "nextActionUpdate" "onNodeUpdated" "onNodeDeleting" "onNodeDeleted"));
  _ ← add_rec (request_rec "rec:node:req" true (on_added "onNodeEnsureRequested"));
  _ ← add_rec (informer_rec "rec:node:status" i {| OnAdded := None; OnUpdated := Some "onNodeStatusUpdated"; OnDeleting := None; OnDeleted := None |});
  add_rec (request_rec "rec:vn" true
    (handlers "onEdgeDeviceCreationRequested" "onEdgeDeviceUpdateRequested" "onEdgeDeviceDeletionRequested" "onEdgeDeviceCleanup")).

Definition set_cert (t : Z * Z * list Z) (f : Fields) : Fields := {|
  connSvcReqRec := connSvcReqRec f; nodeLeaseInformer := nodeLeaseInformer f; certTLS := Some t; vpRoles := vpRoles f;
  tenantPodRoles := tenantPodRoles f; nodeClusterRoles := nodeClusterRoles f; meshIPAMv4 := meshIPAMv4 f; meshIPAMv6 := meshIPAMv6 f;
  csiDriverLister := csiDriverLister f; cloudControllers := cloudControllers f |}.
Definition nodeCertController_init (config : Config) : T unit :=
  t ← match TLSOptions.init known (Cert config) with Ok t => mret t | Err e => error e end;
  _ ← modify (set_fields (set_cert t));
  i ← Informer_of ThisPodNSF Secret;
  _ ← add_waits [i]; add_list [(i, in_namespace "secrets" ThisPodNS)].

Definition sysSecretController_init : T unit :=
  i ← Informer_of SysF Secret;
  _ ← add_waits [i]; add_list [(i, in_namespace "secrets" SysNS)].
Definition sysPodController_init : T unit :=
  i ← Informer_of SysF Pod;
  _ ← add_waits [i]; _ ← add_list [(i, in_namespace "pods" SysNS)];
  _ ← add_rec (informer_rec "rec:vp" i (handlers "onSysPodAdded" "onSysPodUpdated" "onSysPodDeleting" "onSysPodDeleted"));
  add_rec (request_rec "rec:vp_req" true (on_added "onVirtualPodEnsueRequested")).

(** The role controllers do nothing when no role of either sort is managed; a role without a name is not managed. *)
Definition no_roles (config : Config) : bool := bool_decide (PodRoles config = ∅) && bool_decide (VirtualPodRoles config = ∅).
Definition set_vpRoles (m : gmap string PodRolePermissions) (f : Fields) : Fields := {|
  connSvcReqRec := connSvcReqRec f; nodeLeaseInformer := nodeLeaseInformer f; certTLS := certTLS f; vpRoles := m;
  tenantPodRoles := tenantPodRoles f; nodeClusterRoles := nodeClusterRoles f; meshIPAMv4 := meshIPAMv4 f; meshIPAMv6 := meshIPAMv6 f;
  csiDriverLister := csiDriverLister f; cloudControllers := cloudControllers f |}.
Definition set_tenantPodRoles (m : gmap string PodRolePermissions) (f : Fields) : Fields := {|
  connSvcReqRec := connSvcReqRec f; nodeLeaseInformer := nodeLeaseInformer f; certTLS := certTLS f; vpRoles := vpRoles f;
  tenantPodRoles := m; nodeClusterRoles := nodeClusterRoles f; meshIPAMv4 := meshIPAMv4 f; meshIPAMv6 := meshIPAMv6 f;
  csiDriverLister := csiDriverLister f; cloudControllers := cloudControllers f |}.
Definition sysPodRoleController_init (config : Config) : T unit :=
  if no_roles config then mret tt else
  _ ← modify (set_fields (set_vpRoles (delete "" (VirtualPodRoles config))));
  i ← New_Informer SysF SysNS (newTweakListOptionsFunc (of_role PodRoles.LabelRoleValuePodRole)) Role;
  _ ← add_waits [i]; _ ← add_list [(i, "failed to list virtual pod roles: ")];
  _ ← add_rec (informer_rec "rec:role" i (handlers "nextActionUpdate" "onVirtualPodRoleUpdated" "onVirtualPodRoleDeleting" "onVirtualPodRoleDeleted"));
  add_rec (request_rec "rec:role_req" false (on_added "onVirtualPodRoleEnsureRequested")).

(** The tenant's factory is the system's when they have the same namespace. *)
Definition tenantInformerFactory : FactoryId := if decide (SysNS = TenantNS) then SysF else TenantF.
Definition tenantPodController_init : T unit :=
  pods ← Informer_of tenantInformerFactory Pod; secrets ← Informer_of tenantInformerFactory Secret;
  cms ← Informer_of tenantInformerFactory ConfigMap; svcs ← Informer_of tenantInformerFactory Service;
  _ ← add_waits [pods; cms; secrets; svcs];
  _ ← add_list [(pods, in_namespace "pods" TenantNS); (cms, in_namespace "configmaps" TenantNS); (secrets, in_namespace "secrets" TenantNS);
                (svcs, in_namespace "services" TenantNS)];
  add_rec (informer_rec "rec:pod" pods (handlers "onTenantPodAdded" "onTenantPodUpdated" "onTenantPodDeleting" "onTenantPodDeleted")).
Definition tenantPodRoleController_init (config : Config) : T unit :=
  if no_roles config then mret tt else
  _ ← modify (set_fields (set_tenantPodRoles (delete "" (PodRoles config))));
  i ← New_Informer tenantInformerFactory TenantNS (newTweakListOptionsFunc (of_role PodRoles.LabelRoleValuePodRole)) Role;
  _ ← add_waits [i]; _ ← add_list [(i, "failed to list tenant roles: ")];
  _ ← add_rec (informer_rec "rec:podrole" i (handlers "nextActionUpdate" "onTenantPodRoleUpdated" "onTenantPodRoleDeleting" "onTenantPodRoleDeleted"));
  add_rec (request_rec "rec:podrole_req" false (on_added "onTenantPodRoleEnsureRequested")).
Definition set_clusterRoles (m : gmap string NodeClusterRolePermissions) (f : Fields) : Fields := {|
  connSvcReqRec := connSvcReqRec f; nodeLeaseInformer := nodeLeaseInformer f; certTLS := certTLS f; vpRoles := vpRoles f;
  tenantPodRoles := tenantPodRoles f; nodeClusterRoles := m; meshIPAMv4 := meshIPAMv4 f; meshIPAMv6 := meshIPAMv6 f;
  csiDriverLister := csiDriverLister f; cloudControllers := cloudControllers f |}.
Definition nodeClusterRoleController_init (config : Config) : T unit :=
  if bool_decide (NodeClusterRoles config = ∅) then mret tt else
  _ ← modify (set_fields (set_clusterRoles (NodeClusterRoles config)));
  i ← New_Informer ClusterF "" (newTweakListOptionsFunc (of_role_here NodeClusterRoles.LabelRoleValueNodeClusterRole)) ClusterRole;
  _ ← add_waits [i]; _ ← add_list [(i, "failed to list cluster roles: ")];
  _ ← add_rec (informer_rec "rec:cr" i (handlers "nextActionUpdate" "onNodeClusterRoleUpdated" "onNodeClusterRoleDeleting" "onNodeClusterRoleDeleted"));
  add_rec (request_rec "rec:cr_req" false (on_added "onNodeClusterRoleEnsureRequested")).

(** The address blocks of a family, one after the other; without any there is no manager. *)
Fixpoint add_blocks (family : string) (blocks : list (string * string * string)) (m : IPAddressManager.IPAddressManager)
    : T IPAddressManager.IPAddressManager := λ c,
  match blocks with
  | [] => Ret (c, inl m)
  | (cidr, start, end_) :: blocks =>
      match IPAddressManager.AddAddressBlock cidr start end_ m with
      | Ret (m, Ok _) => add_blocks family blocks m c
      | Ret (_, Err e) => Ret (c, inr (New ("failed to add " +:+ family +:+ " address block " +:+ quote cidr +:+ ": " +:+ e)))
      | Panic why => Panic why
      | Diverge => Diverge
      end
  end.
Definition mesh_ipam (family : string) (blocks : list (string * string * string)) : T (option IPAddressManager.IPAddressManager) :=
  match blocks with
  | [] => mret None
  | _ => m ← add_blocks family blocks IPAddressManager.NewIPAddressManager; mret (Some m)
  end.
Definition set_ipam (v4 v6 : option IPAddressManager.IPAddressManager) (f : Fields) : Fields := {|
  connSvcReqRec := connSvcReqRec f; nodeLeaseInformer := nodeLeaseInformer f; certTLS := certTLS f; vpRoles := vpRoles f;
  tenantPodRoles := tenantPodRoles f; nodeClusterRoles := nodeClusterRoles f; meshIPAMv4 := v4; meshIPAMv6 := v6;
  csiDriverLister := csiDriverLister f; cloudControllers := cloudControllers f |}.
(** What meshController.init and storageServiceController.init do three and two times: watch the objects of one name, with a reconciler *)
Definition watch_named (f : FactoryId) (ns name : string) (k : Kind) (what rec : string) (h : Handlers) : T unit :=
  i ← New_Informer f ns (only_name name) k;
  _ ← add_waits [i]; _ ← add_list [(i, in_namespace what ns)];
  add_rec (informer_rec rec i h).
Definition meshController_init (config : Config) : T unit :=
  if negb (NetworkEnabled config) then mret tt else
  if bool_decide (AbbotService config = "") then error "abbot service name not set" else
  if bool_decide (NetworkService config = "") then error "network service name not set" else
  v4 ← mesh_ipam "ipv4" (IPv4Blocks config);
  v6 ← mesh_ipam "ipv6" (IPv6Blocks config);
  _ ← (if bool_decide (v4 = None) && bool_decide (v6 = None) then error "no address block available for mesh network" else mret tt);
  _ ← modify (set_fields (set_ipam v4 v6));
  _ ← watch_named tenantInformerFactory TenantNS (AbbotService config) Endpoints "abbot endpoints" "rec:abbot:ep" (updates "nextActionUpdate" "onAbbotEndpointUpdated");
  _ ← watch_named tenantInformerFactory TenantNS (NetworkService config) Service "network services" "rec:net:svc" (updates "nextActionUpdate" "onNetworkServiceUpdated");
  _ ← watch_named tenantInformerFactory TenantNS (NetworkService config) Endpoints "network endpoints" "rec:net:ep" (updates "nextActionUpdate" "onNetworkEndpointUpdated");
  add_rec (request_rec "rec:net:req" false
    {| OnAdded := Some "onMeshMemberEnsureRequested"; OnUpdated := Some "onMeshMemberEnsureRequested"; OnDeleting := None;
       OnDeleted := Some "onMeshMemberDeleteRequested" |}).
Definition storageServiceController_init (config : Config) : T unit :=
  if StorageEnabled config || bool_decide (StorageService config = "") then mret tt else
  _ ← watch_named ThisPodNSF ThisPodNS (StorageService config) Service "storage service" "rec:storage:svc"
        (handlers "nextActionUpdate" "onSvcUpdated" "onSvcDeleting" "onSvcDeleted");
  watch_named ThisPodNSF ThisPodNS (StorageService config) Endpoints "storage endpoints" "rec:storage:ep"
    (handlers "nextActionUpdate" "onEndpointsUpdated" "onEndpointsDeleting" "onEndpointsDeleted").

Definition set_csi (i : Ref) (f : Fields) : Fields := {|
  connSvcReqRec := connSvcReqRec f; nodeLeaseInformer := nodeLeaseInformer f; certTLS := certTLS f; vpRoles := vpRoles f;
  tenantPodRoles := tenantPodRoles f; nodeClusterRoles := nodeClusterRoles f; meshIPAMv4 := meshIPAMv4 f; meshIPAMv6 := meshIPAMv6 f;
  csiDriverLister := Some i; cloudControllers := cloudControllers f |}.
Definition init_csidrivers (config : Config) : T unit :=
  if negb (StorageEnabled config) then mret tt else
  i ← match csidriver_kind with
      | Some k => Informer_of ClusterF k
      | None => error "no csidriver api support in kubernetes cluster"
      end;
  _ ← modify (set_fields (set_csi i));
  _ ← add_waits [i]; add_list [(i, "failed to list csi drivers: ")].
Definition set_cloud (f : Fields) : Fields := {|
  connSvcReqRec := connSvcReqRec f; nodeLeaseInformer := nodeLeaseInformer f; certTLS := certTLS f; vpRoles := vpRoles f;
  tenantPodRoles := tenantPodRoles f; nodeClusterRoles := nodeClusterRoles f; meshIPAMv4 := meshIPAMv4 f; meshIPAMv6 := meshIPAMv6 f;
  csiDriverLister := csiDriverLister f; cloudControllers := true |}.
(** The cloud controllers use the informer of the nodes too; what their constructors return is an argument. *)
Definition init_cloud (config : Config) (cloudNode lifecycle : option string) : T unit :=
  if negb (RunAsCloudProvider config) then mret tt else
  _ ← New_Informer ClusterF "" (newTweakListOptionsFunc (of_role_here LabelRoleValueNode)) Node;
  _ ← match cloudNode with Some e => error ("failed to create cloud node controller: " +:+ e) | None => mret tt end;
  _ ← match lifecycle with Some e => error ("failed to create cloud lifecycle controller: " +:+ e) | None => mret tt end;
  modify (set_fields set_cloud).

(** The factories NewController begins with; the two made by init functions are not there yet. *)
Definition initial : Controller := {|
  factories := λ f, match f with
    | ClusterF => NewSharedInformerFactory "" no_tweak
    | ThisPodNSF => NewSharedInformerFactory ThisPodNS no_tweak
    | SysF => NewSharedInformerFactory SysNS no_tweak
    | TenantF => NewSharedInformerFactory TenantNS no_tweak
    | NodeLeaseF | EdgeDeviceF => NewSharedInformerFactory "" no_tweak
    end;
  informerFactoryStart := [ClusterF; ThisPodNSF; SysF; tenantInformerFactory];
  cacheSyncWaitFuncs := []; listActions := []; recStart := []; recReconcile := []; fields := no_fields |}.
Definition inits (config : Config) (cloudNode lifecycle : option string) : T unit :=
  _ ← prefixed "failed to create edgedevice controller: " edgeDeviceController_init;
  _ ← prefixed "failed to create connectivity service controller: " (connectivityServiceController_init config);
  _ ← prefixed "failed to create node controller: " (nodeController_init config);
  _ ← prefixed "failed to create node cert controller: " (nodeCertController_init config);
  _ ← prefixed "failed to create sys secret controller: " sysSecretController_init;
  _ ← prefixed "failed to create sys pod controller: " sysPodController_init;
  _ ← prefixed "failed to create sys pod role controller: " (sysPodRoleController_init config);
  _ ← prefixed "failed to create pod controller: " tenantPodController_init;
  _ ← prefixed "failed to create pod role controller: " (tenantPodRoleController_init config);
  _ ← prefixed "failed to create node cluster role controller: " (nodeClusterRoleController_init config);
  _ ← prefixed "failed to create network controller: " (meshController_init config);
  _ ← prefixed "failed to create storage service controller: " (storageServiceController_init config);
  _ ← init_csidrivers config;
  init_cloud config cloudNode lifecycle.
(** [kube] and [aranya] are the errors of NewKubeClient and of the client of the edge devices. *)
Definition NewController (config : Config) (kube aranya cloudNode lifecycle : option string) : outcome (result Controller) :=
  match kube, aranya with
  | Some e, _ => Ret (Err ("failed to create kube client for controller: " +:+ e))
  | None, Some e => Ret (Err ("failed to create aranya client: " +:+ e))
  | None, None =>
      match inits config cloudNode lifecycle initial with
      | Ret (c, inl _) => Ret (Ok c)
      | Ret (_, inr e) => Ret (Err (e_Text e))
      | Panic why => Panic why
      | Diverge => Diverge
      end
  end.

(** ** What the init functions leave

    Where an informer is and what it selects, and what a reconciler is meant to watch *)
Definition plain (k : Kind) (ns : string) : Informer := {| i_Kind := k; i_Namespace := ns; i_Options := no_options |}.
Definition labelled (k : Kind) (ns : string) (l : list (string * string)) : Informer :=
  {| i_Kind := k; i_Namespace := ns; i_Options := {| LabelSelector := l; FieldSelector := None |} |}.
Definition named (k : Kind) (ns name : string) : Informer :=
  {| i_Kind := k; i_Namespace := ns; i_Options := {| LabelSelector := []; FieldSelector := Some name |} |}.
Definition connectivity (config : Config) : Informer :=
  {| i_Kind := Service; i_Namespace := ThisPodNS;
     i_Options := {| LabelSelector := of_role LabelRoleValueConnectivity; FieldSelector := Some (ConnectivityService config) |} |}.
Definition table (config : Config) (i : Ref) : option Informer :=
  match i with
  | (ClusterF, Node) => Some (labelled Node "" (of_role_here LabelRoleValueNode))
  | (ClusterF, ClusterRole) => Some (labelled ClusterRole "" (of_role_here NodeClusterRoles.LabelRoleValueNodeClusterRole))
  | (ClusterF, CSIDriverV1) => Some (plain CSIDriverV1 "")
  | (ClusterF, CSIDriverV1beta1) => Some (plain CSIDriverV1beta1 "")
  | (ThisPodNSF, Service) =>
      Some (if bool_decide (ConnectivityService config = "") then named Service ThisPodNS (StorageService config) else connectivity config)
  | (ThisPodNSF, Endpoints) => Some (named Endpoints ThisPodNS (StorageService config))
  | (ThisPodNSF, Secret) => Some (plain Secret ThisPodNS)
  | (NodeLeaseF, k) => Some (labelled k NamespaceNodeLease (of_role_here LabelRoleValueNodeLease))
  | (EdgeDeviceF, EdgeDevice) => Some (plain EdgeDevice SysNS)
  | (SysF, Pod) => Some (plain Pod SysNS)
  | (SysF, Secret) => Some (plain Secret SysNS)
  | (SysF, Role) => Some (labelled Role SysNS (of_role PodRoles.LabelRoleValuePodRole))
  | (f, k) =>
      if bool_decide (f = tenantInformerFactory) then
        match k with
        | Pod | Secret | ConfigMap | Service => Some (plain k TenantNS)
        | Role => Some (labelled Role TenantNS (of_role PodRoles.LabelRoleValuePodRole))
        | Endpoints => Some (named Endpoints TenantNS (AbbotService config))
        | _ => None
        end
      else None
  end.
Definition wanted (config : Config) (rec : string) : option Informer :=
  list_find (λ x, x.1 = rec) [
    ("rec:ed", plain EdgeDevice SysNS); ("rec:svc", connectivity config);
    ("rec:node", labelled Node "" (of_role_here LabelRoleValueNode)); ("rec:node:status", labelled Node "" (of_role_here LabelRoleValueNode));
    ("rec:nl", labelled (default LeaseV1 lease_kind) NamespaceNodeLease (of_role_here LabelRoleValueNodeLease));
    ("rec:vp", plain Pod SysNS); ("rec:role", labelled Role SysNS (of_role PodRoles.LabelRoleValuePodRole));
    ("rec:pod", plain Pod TenantNS); ("rec:podrole", labelled Role TenantNS (of_role PodRoles.LabelRoleValuePodRole));
    ("rec:cr", labelled ClusterRole "" (of_role_here NodeClusterRoles.LabelRoleValueNodeClusterRole));
    ("rec:abbot:ep", named Endpoints TenantNS (AbbotService config)); ("rec:net:svc", named Service TenantNS (NetworkService config));
    ("rec:net:ep", named Endpoints TenantNS (NetworkService config)); ("rec:storage:svc", named Service ThisPodNS (StorageService config));
    ("rec:storage:ep", named Endpoints ThisPodNS (StorageService config))
  ] ≫= λ x, Some x.2.2.
(** The three that get the informer of another, which asked before for the type *)
Definition misled : list string := ["rec:net:svc"; "rec:net:ep"; "rec:storage:svc"].
Definition shown (config : Config) (rec : string) : option Informer :=
  if decide (rec = "rec:net:svc") then Some (plain Service TenantNS)
  else if decide (rec = "rec:net:ep") then Some (named Endpoints TenantNS (AbbotService config))
  else if decide (rec = "rec:storage:svc") then
    Some (if bool_decide (ConnectivityService config = "") then named Service ThisPodNS (StorageService config) else connectivity config)
  else wanted config rec.
Lemma shown_wanted config rec : rec ∉ misled → shown config rec = wanted config rec.
Proof. intros H. unfold shown. do 3 (rewrite decide_False by (intros ->; apply H; by repeat constructor)). done. Qed.

(** The reconcilers that are asked about one object, and so are made with a cache *)
Definition object_requests : list string := ["rec:node:req"; "rec:nl:req"; "rec:vp_req"; "rec:vn"].
Definition ns_of (f : FactoryId) : string :=
  match f with ClusterF => "" | ThisPodNSF => ThisPodNS | SysF | EdgeDeviceF => SysNS | TenantF => TenantNS | NodeLeaseF => NamespaceNodeLease end.
Definition tweak_of (f : FactoryId) : Tweak :=
  match f with NodeLeaseF => newTweakListOptionsFunc (of_role_here LabelRoleValueNodeLease) | _ => no_tweak end.
Definition informer (c : Controller) (i : Ref) : option Informer := f_informers (factories c i.1) i.2.
Definition ready (i : Ref) (c : Controller) : Prop := i.1 ∈ informerFactoryStart c ∧ is_Some (informer c i).
Definition inv (config : Config) (c : Controller) : Prop :=
  (recStart c = recReconcile c ∧
   ∀ r, r ∈ recReconcile c → rec_Informer r = None → rec_RequireCache r = bool_decide (rec_Name r ∈ object_requests)) ∧
  (∀ r i, r ∈ recReconcile c → rec_Informer r = Some i →
    i ∈ cacheSyncWaitFuncs c ∧ shown config (rec_Name r) = table config i) ∧
  (∀ i, i ∈ cacheSyncWaitFuncs c → ready i c) ∧
  (∀ l i text, l ∈ listActions c → (i, text) ∈ l → ready i c) ∧
  (∀ f, f ∉ informerFactoryStart c → ∀ k, f_informers (factories c f) k = None) ∧
  (∀ i x, informer c i = Some x → table config i = Some x) ∧
  (∀ f, f ∈ informerFactoryStart c → f_namespace (factories c f) = ns_of f ∧ f_tweakListOptions (factories c f) = tweak_of f).
Record grows (c c' : Controller) : Prop := {
  g_starts : informerFactoryStart c ⊆ informerFactoryStart c'; g_waits : cacheSyncWaitFuncs c ⊆ cacheSyncWaitFuncs c';
  g_informers : ∀ i x, informer c i = Some x → informer c' i = Some x
}.

#[export] Instance grows_preorder : PreOrder grows.
Proof. split; [by intros c; split|]. intros a b c [? ? ?] [? ? ?]. split; [by etrans|by etrans|auto]. Qed.
Lemma ready_grows i c c' : ready i c → grows c c' → ready i c'.
Proof. intros [? [x ?] ] G. split; [by apply (g_starts c c' G)|]. exists x. by apply (g_informers c c' G). Qed.
Lemma waits_grow i c c' : i ∈ cacheSyncWaitFuncs c → grows c c' → i ∈ cacheSyncWaitFuncs c'.
Proof. intros ? G. by apply (g_waits c c' G). Qed.

(** What holds when a step succeeds *)
Definition wp {A} (m : T A) (c : Controller) (Q : A → Controller → Prop) : Prop := ∀ c' a, m c = Ret (c', inl a) → Q a c'.
Lemma wp_bind {A B} (m : T A) (k : A → T B) c Q : wp m c (λ a c', wp (k a) c' Q) → wp (mbind (M := M Controller) k m) c Q.
Proof. intros H c' b (c1 & a & Hm & Hk)%bind_ok. by eapply H. Qed.
Lemma wp_ret {A} (a : A) c (Q : A → Controller → Prop) : Q a c → wp (mret a) c Q.
Proof. by intros ? ? ? [= <- <-]. Qed.
Lemma wp_error {A} text c (Q : A → Controller → Prop) : wp (error text) c Q.
Proof. by intros ? ?. Qed.
Lemma wp_prefixed {A} pre (m : T A) c Q : wp m c Q → wp (prefixed pre m) c Q.
Proof. intros H c' a Hm%prefixed_ok. by apply H. Qed.
Lemma wp_mono {A} (m : T A) c (Q Q' : A → Controller → Prop) : wp m c Q → (∀ a c', Q a c' → Q' a c') → wp m c Q'.
Proof. intros H HQ c' a Hm. by apply HQ, H. Qed.

Section Steps.
Context (config : Config).
(** From c0 on, without a new factory *)
Definition reached (c0 c : Controller) : Prop := inv config c ∧ grows c0 c ∧ informerFactoryStart c = informerFactoryStart c0.
Lemma reached_refl c : inv config c → reached c c.
Proof. by intros. Qed.
Lemma reached_trans a b c : reached a b → reached b c → reached a c.
Proof. intros (_ & ? & E1) (? & ? & E2). split_and!; [done|by etrans|congruence]. Qed.

Lemma reached_lists w l st re c :
  let c' := set_lists (informerFactoryStart c) (cacheSyncWaitFuncs c ++ w) l st re c in inv config c' → reached c c'.
Proof. intros c' H. split; [done|]. split; [|done]. split; [done|cbn; set_solver|done]. Qed.
Lemma set_informer_reached f k new c :
  inv config c → f ∈ informerFactoryStart c → (table config (f, k) = Some new ∨ is_Some (informer c (f, k))) →
  let c' := set_factories (<[f := InformerFor k new (factories c f)]> (factories c)) c in reached c c' ∧ ready (f, k) c'.
Proof.
  intros (H1 & H2 & H3 & H4 & H5 & H6 & H7) Hf Hnew c'.
  assert (∀ i x, informer c i = Some x → informer c' i = Some x) as Hkeep.
  { intros [f' k'] x Hx. unfold informer, c'. cbn. destruct (decide (f = f')) as [<-|]; [rewrite fn_lookup_insert; by apply InformerFor_keeps|by rewrite fn_lookup_insert_ne]. }
  assert (grows c c') as G by (split; [done..|exact Hkeep]).
  assert (ready (f, k) c') as R by (split; [done|]; unfold informer, c'; cbn; rewrite fn_lookup_insert; apply InformerFor_has).
  split; [|done]. split; [|by split]. split; [done|]. split_and!; [done| | | | |].
  - intros i Hi. by eapply ready_grows; [apply H3|].
  - intros l i t Hl Hi. by eapply ready_grows; [by eapply H4|].
  - intros f' Hf' k'. unfold c'. cbn. rewrite fn_lookup_insert_ne by (by intros ->). by apply H5.
  - intros [f' k'] x. pose proof (H6 (f', k') x) as H6'. unfold informer, c' in *. cbn in *.
    destruct (decide (f = f')) as [<-|]; [rewrite fn_lookup_insert|by rewrite (fn_lookup_insert_ne (factories c))].
    unfold InformerFor. destruct (f_informers (factories c f) k) as [y|] eqn:E; [done|]. cbn.
    destruct (decide (k = k')) as [<-|]; [rewrite fn_lookup_insert|by rewrite fn_lookup_insert_ne].
    intros [= <-]. destruct Hnew as [?|[y Hy] ]; congruence.
  - intros f' Hf'. destruct (H7 f' Hf') as [? ?]. unfold c'. cbn. destruct (decide (f = f')) as [<-|]; [rewrite fn_lookup_insert|by rewrite fn_lookup_insert_ne].
    unfold InformerFor. by case_match.
Qed.
Lemma wp_New_Informer f ns tweak k c (Q : Ref → Controller → Prop) :
  inv config c → f ∈ informerFactoryStart c →
  (table config (f, k) = Some {| i_Kind := k; i_Namespace := ns; i_Options := tweak no_options |} ∨ is_Some (informer c (f, k))) →
  (∀ c', reached c c' → ready (f, k) c' → Q (f, k) c') → wp (New_Informer f ns tweak k) c Q.
Proof. intros ? ? ? HQ c' a [= <- <-]. by apply HQ; eapply set_informer_reached. Qed.
Lemma wp_Informer_of f k c (Q : Ref → Controller → Prop) :
  inv config c → f ∈ informerFactoryStart c →
  (table config (f, k) = Some {| i_Kind := k; i_Namespace := ns_of f; i_Options := tweak_of f no_options |} ∨ is_Some (informer c (f, k))) →
  (∀ c', reached c c' → ready (f, k) c' → Q (f, k) c') → wp (Informer_of f k) c Q.
Proof.
  intros H Hf Ht HQ c' a. pose proof H as (_ & _ & _ & _ & _ & _ & H7). destruct (H7 f Hf) as [Hns Htw]. rewrite <- Hns, <- Htw in Ht.
  intros [= <- <-]. by apply HQ; eapply set_informer_reached.
Qed.
Lemma wp_waits l c (Q : unit → Controller → Prop) :
  inv config c → Forall (λ i, ready i c) l → (∀ c', reached c c' → Forall (λ i, i ∈ cacheSyncWaitFuncs c') l → Q tt c') → wp (add_waits l) c Q.
Proof.
  intros (H1 & H2 & H3 & H4 & H5 & H6 & H7) Hl HQ c' a [= <- <-]. rewrite Forall_forall in Hl.
  apply HQ; [apply reached_lists; split; [done|]; split; [|split; [|done] ]|].
  - intros r i Hr Hi. destruct (H2 r i Hr Hi). split; [cbn; set_solver|done].
  - cbn. intros i [Hi|Hi]%elem_of_app; [by apply H3|by apply Hl].
  - apply Forall_forall. cbn. set_solver.
Qed.
Lemma wp_list l c (Q : unit → Controller → Prop) :
  inv config c → Forall (λ x, ready x.1 c) l → (∀ c', reached c c' → Q tt c') → wp (add_list l) c Q.
Proof.
  intros (H1 & H2 & H3 & H4 & H5 & H6 & H7) Hl HQ c' a [= <- <-]. rewrite Forall_forall in Hl.
  apply HQ. rewrite <- (app_nil_r (cacheSyncWaitFuncs c)). apply reached_lists. rewrite app_nil_r. do 3 (split; [done|]). split; [|done].
  cbn. intros l' i t [Hl'| ->%list_elem_of_singleton]%elem_of_app Hi; [by eapply H4|by apply (Hl (i, t))].
Qed.
Lemma wp_rec r c (Q : unit → Controller → Prop) :
  inv config c →
  (rec_Informer r = None → rec_RequireCache r = bool_decide (rec_Name r ∈ object_requests)) →
  (∀ i, rec_Informer r = Some i → i ∈ cacheSyncWaitFuncs c ∧ shown config (rec_Name r) = table config i) →
  (∀ c', reached c c' → Q tt c') → wp (add_rec r) c Q.
Proof.
  intros ([H1 H1'] & H2 & H3 & H4 & H5 & H6 & H7) Hn Hr HQ c' a [= <- <-].
  apply HQ. rewrite <- (app_nil_r (cacheSyncWaitFuncs c)). apply reached_lists. rewrite app_nil_r. split; [|split; [|done] ].
  { split; [cbn; by rewrite H1|]. cbn. intros r' [Hr'| ->%list_elem_of_singleton]%elem_of_app; [by apply H1'|done]. }
  cbn. intros r' i [Hr'| ->%list_elem_of_singleton]%elem_of_app Hi; [by apply H2|by apply Hr].
Qed.
Lemma wp_informer_rec name i h c (Q : unit → Controller → Prop) :
  inv config c → i ∈ cacheSyncWaitFuncs c → shown config name = table config i →
  (∀ c', reached c c' → Q tt c') → wp (add_rec (informer_rec name i h)) c Q.
Proof. intros ? ? ? HQ. apply wp_rec; [done|done| |done]. by intros ? [= <-]. Qed.
Lemma wp_request_rec name cached h c (Q : unit → Controller → Prop) :
  inv config c → cached = bool_decide (name ∈ object_requests) → (∀ c', reached c c' → Q tt c') → wp (add_rec (request_rec name cached h)) c Q.
Proof. intros ? -> HQ. apply wp_rec; [done|done| |done]. by intros ? [= ]. Qed.
Lemma wp_fields f c (Q : unit → Controller → Prop) : inv config c → (∀ c', reached c c' → Q tt c') → wp (modify (set_fields f)) c Q.
Proof. intros H HQ c' a [= <- <-]. by apply HQ. Qed.
(** A factory that is new is started later. *)
Lemma new_factory f c :
  inv config c → f ∉ informerFactoryStart c →
  let c' := set_lists (informerFactoryStart c ++ [f]) (cacheSyncWaitFuncs c) (listActions c) (recStart c) (recReconcile c)
              (set_factories (<[f := NewSharedInformerFactory (ns_of f) (tweak_of f)]> (factories c)) c) in
  inv config c' ∧ grows c c'.
Proof.
  intros (H1 & H2 & H3 & H4 & H5 & H6 & H7) Hf c'.
  assert (grows c c') as G.
  { split; [cbn; set_solver|done|]. intros [f' k'] x Hx. unfold informer, c' in *. cbn in *.
    destruct (decide (f = f')) as [<-|]; [by rewrite H5 in Hx|by rewrite fn_lookup_insert_ne]. }
  split; [|done]. split; [done|]. split_and!; [done|by intros; eapply ready_grows; [apply H3|]|by intros; eapply ready_grows; [eapply H4|]| | |].
  - cbn. intros f' Hf' k. rewrite fn_lookup_insert_ne by set_solver. apply H5. set_solver.
  - intros [f' k'] x. pose proof (H6 (f', k') x) as H6'. unfold informer, c' in *. cbn in *.
    destruct (decide (f = f')) as [<-|]; [by rewrite fn_lookup_insert|by rewrite fn_lookup_insert_ne].
  - cbn. intros f' Hf'. destruct (decide (f = f')) as [<-|]; [by rewrite fn_lookup_insert|rewrite fn_lookup_insert_ne by done; apply H7; set_solver].
Qed.
Lemma wp_factory {A} f ns tweak c (k : unit → T A) (Q : A → Controller → Prop) :
  inv config c → f ∉ informerFactoryStart c → ns = ns_of f → tweak = tweak_of f →
  (∀ c', inv config c' → grows c c' → informerFactoryStart c' = informerFactoryStart c ++ [f] → wp (k tt) c' Q) →
  wp (_ ← NewFactory f ns tweak; x ← add_factory_start f; k x) c Q.
Proof.
  intros Hinv Hf -> -> HQ c' a Hr. destruct (new_factory f c Hinv Hf) as [Hi G]. by apply (HQ _ Hi G eq_refl).
Qed.

Definition has_base (c : Controller) : Prop := ∀ f, f ∈ [ClusterF; ThisPodNSF; SysF; tenantInformerFactory] → f ∈ informerFactoryStart c.
Lemma reached_inv c0 c : reached c0 c → inv config c.
Proof. by intros []. Qed.
Lemma reached_ready c0 c i : reached c0 c → ready i c0 → ready i c.
Proof. intros (_ & ? & _) ?. by eapply ready_grows. Qed.
Lemma reached_waits c0 c i : reached c0 c → i ∈ cacheSyncWaitFuncs c0 → i ∈ cacheSyncWaitFuncs c.
Proof. intros (_ & ? & _) ?. by eapply waits_grow. Qed.
Lemma reached_base c0 c : reached c0 c → has_base c0 → has_base c.
Proof. intros (_ & _ & E) H f Hf. rewrite E. by apply H. Qed.
Lemma table_tenant k : k ∈ [Pod; Secret; ConfigMap; Service] →
  table config (tenantInformerFactory, k) = Some {| i_Kind := k; i_Namespace := ns_of tenantInformerFactory; i_Options := tweak_of tenantInformerFactory no_options |}.
Proof.
  intros Hk. unfold table, tenantInformerFactory. destruct (decide (SysNS = TenantNS)) as [E|].
  - repeat (apply elem_of_cons in Hk as [->|Hk]; [cbn; try rewrite bool_decide_true by (by rewrite decide_True); by rewrite ?E|]). by apply elem_of_nil in Hk.
  - repeat (apply elem_of_cons in Hk as [->|Hk]; [cbn; try rewrite bool_decide_true by (by rewrite decide_False); done|]). by apply elem_of_nil in Hk.
Qed.

(** Run a step: what is known of the state before is known of the state after. *)
Ltac adv :=
  let c1 := fresh "c" in let R1 := fresh "R" in intros c1 R1;
  lazymatch type of R1 with reached ?c ?c' =>
    repeat match goal with H : ready ?i c |- _ => apply (reached_ready c c' i R1) in H end;
    repeat match goal with H : ?i ∈ cacheSyncWaitFuncs c |- _ => apply (reached_waits c c' i R1) in H end;
    lazymatch goal with R0 : reached ?c0 c |- _ => apply (reached_trans c0 c c' R0) in R1; clear R0 end
  end.
Ltac in_base := lazymatch goal with R : reached ?c0 ?c, B : has_base ?c0 |- _ ∈ informerFactoryStart ?c => apply (reached_base c0 c R B); by repeat constructor end.
Ltac all_ready := repeat (apply Forall_cons_2; [assumption|]); apply Forall_nil_2.
Ltac step := lazymatch goal with
  | |- wp (mbind _ _) _ _ => apply wp_bind; step
  | |- wp (mret _) _ _ => apply wp_ret
  | |- wp (error _) _ _ => apply wp_error
  | |- wp (New_Informer _ _ _ _) _ _ => apply wp_New_Informer; [by eapply reached_inv|in_base|try (left; reflexivity)|adv; intros ?]
  | |- wp (Informer_of _ _) _ _ => apply wp_Informer_of; [by eapply reached_inv|in_base|try (left; reflexivity)|adv; intros ?]
  | |- wp (add_waits _) _ _ => apply wp_waits; [by eapply reached_inv|all_ready|adv; intros ?; decompose_Forall_hyps]
  | |- wp (add_list _) _ _ => apply wp_list; [by eapply reached_inv|all_ready|adv]
  | |- wp (add_rec (informer_rec _ _ _)) _ _ => apply wp_informer_rec; [by eapply reached_inv|assumption|try reflexivity|adv]
  | |- wp (add_rec (request_rec _ _ _)) _ _ => apply wp_request_rec; [by eapply reached_inv|done|adv]
  | |- wp (modify (set_fields _)) _ _ => apply wp_fields; [by eapply reached_inv|adv]
  | |- wp (if ?b then _ else _) _ _ => destruct b eqn:?
  end.
(** What an init function does, when it succeeds, to a controller with the factories there are at first *)
Definition good (m : T unit) : Prop := ∀ c, inv config c → has_base c → wp m c (λ _ c', reached c c').
Ltac run := let R := fresh "R" in intros c Hinv Hbase; pose proof (reached_refl c Hinv) as R; repeat step; try done.
Lemma sysSecretController_good : good sysSecretController_init.
Proof. unfold sysSecretController_init. run. Qed.
Lemma sysPodController_good : good sysPodController_init.
Proof. unfold sysPodController_init. run. Qed.
Lemma connectivityServiceController_good c : inv config c → has_base c →
  wp (connectivityServiceController_init config) c (λ _ c', reached c c' ∧ (ConnectivityService config ≠ "" → ready (ThisPodNSF, Service) c')).
Proof.
  unfold connectivityServiceController_init. intros Hinv Hbase. pose proof (reached_refl c Hinv) as R. repeat step.
  - split; [done|]. by rewrite bool_decide_eq_true in Heqb.
  - left. cbn [table]. by rewrite Heqb.
  - cbn [table]. by rewrite Heqb.
  - done.
Qed.
Lemma sysPodRoleController_good : good (sysPodRoleController_init config).
Proof. unfold sysPodRoleController_init. run. Qed.
Lemma nodeClusterRoleController_good : good (nodeClusterRoleController_init config).
Proof. unfold nodeClusterRoleController_init. run. Qed.
Lemma nodeCertController_good : good (nodeCertController_init config).
Proof. unfold nodeCertController_init. intros c Hinv Hbase. pose proof (reached_refl c Hinv) as R. destruct (TLSOptions.init known (Cert config)); repeat step; try done. Qed.
Lemma init_csidrivers_good : good (init_csidrivers config).
Proof.
  unfold init_csidrivers, csidriver_kind. intros c Hinv Hbase. pose proof (reached_refl c Hinv) as R.
  destruct (serves "storage.k8s.io/v1" "CSIDriver"), (serves "storage.k8s.io/v1beta1" "CSIDriver"); repeat step; try done.
Qed.
Lemma init_cloud_good cloudNode lifecycle : good (init_cloud config cloudNode lifecycle).
Proof.
  unfold init_cloud. intros c Hinv Hbase. pose proof (reached_refl c Hinv) as R. destruct cloudNode, lifecycle; repeat step; try done.
Qed.
Lemma tenantPodController_good c :
  inv config c → has_base c → wp tenantPodController_init c (λ _ c', reached c c' ∧ ready (tenantInformerFactory, Service) c').
Proof.
  unfold tenantPodController_init. intros Hinv Hbase. pose proof (reached_refl c Hinv) as R.
  repeat (step; try (left; apply table_tenant; by repeat constructor)); try done.
  change (shown config "rec:pod") with (Some (plain Pod TenantNS)). rewrite table_tenant by repeat constructor.
  unfold tenantInformerFactory, plain. destruct (decide (SysNS = TenantNS)) as [E|]; cbn; [by rewrite E|done].
Qed.
Lemma table_role : table config (tenantInformerFactory, Role) = Some (labelled Role TenantNS (of_role PodRoles.LabelRoleValuePodRole)).
Proof.
  unfold tenantInformerFactory. case_decide as E; [cbn; by rewrite E|]. cbn. rewrite bool_decide_true; [done|]. unfold tenantInformerFactory. by rewrite decide_False.
Qed.
Lemma tenantPodRoleController_good : good (tenantPodRoleController_init config).
Proof. unfold tenantPodRoleController_init. run; [left; apply table_role|by rewrite table_role]. Qed.

Lemma wp_add_blocks family blocks m c Q : (∀ m', Q m' c) → wp (add_blocks family blocks m) c Q.
Proof.
  intros HQ. revert m. induction blocks as [|[ [cidr start] end_] blocks IH]; intros m c' a; cbn; [by intros [= <- <-]|].
  destruct (IPAddressManager.AddAddressBlock cidr start end_ m) as [ [m' [u|e] ]| |]; [apply IH|done..].
Qed.
Lemma wp_mesh_ipam family blocks c Q : (∀ v, Q v c) → wp (mesh_ipam family blocks) c Q.
Proof.
  intros HQ. unfold mesh_ipam. destruct blocks as [|b blocks]; [by apply wp_ret|]. apply wp_bind, wp_add_blocks. intros m. by apply wp_ret.
Qed.
Lemma wp_watch_named f ns name k what rec h c (Q : unit → Controller → Prop) :
  inv config c → f ∈ informerFactoryStart c →
  (table config (f, k) = Some (named k ns name) ∨ is_Some (informer c (f, k))) →
  shown config rec = table config (f, k) →
  (∀ c', reached c c' → ready (f, k) c' → Q tt c') → wp (watch_named f ns name k what rec h) c Q.
Proof.
  intros Hinv Hf Ht Hw HQ. pose proof (reached_refl c Hinv) as R. unfold watch_named.
  apply wp_bind, wp_New_Informer; [done..|]. adv. intros ?. step. step. step; [done|]. by apply HQ.
Qed.
Lemma table_endpoints : table config (tenantInformerFactory, Endpoints) = Some (named Endpoints TenantNS (AbbotService config)).
Proof.
  unfold tenantInformerFactory. case_decide as E; cbn; (rewrite bool_decide_true; [done|]); unfold tenantInformerFactory; [by rewrite decide_True|by rewrite decide_False].
Qed.
Lemma table_tenant_service : table config (tenantInformerFactory, Service) = Some (plain Service TenantNS).
Proof.
  rewrite table_tenant by repeat constructor. unfold tenantInformerFactory, plain. destruct (decide (SysNS = TenantNS)) as [E|]; cbn; [by rewrite E|done].
Qed.
Lemma meshController_good c :
  inv config c → has_base c → ready (tenantInformerFactory, Service) c → wp (meshController_init config) c (λ _ c', reached c c').
Proof.
  unfold meshController_init. intros Hinv Hbase Hsvc. pose proof (reached_refl c Hinv) as R. do 3 (step; [try by step..|]).
  apply wp_bind, wp_mesh_ipam. intros v4. apply wp_bind, wp_mesh_ipam. intros v6. step; [by step|]. do 2 step.
  apply wp_bind, wp_watch_named; [by eapply reached_inv|in_base|left; apply table_endpoints|by rewrite table_endpoints|adv; intros Hep].
  apply wp_bind, wp_watch_named; [by eapply reached_inv|in_base|right; by apply Hsvc|by rewrite table_tenant_service|adv; intros _].
  apply wp_bind, wp_watch_named; [by eapply reached_inv|in_base|right; by apply Hep|by rewrite table_endpoints|adv; intros _].
  by step.
Qed.
Lemma storageServiceController_good c :
  inv config c → has_base c → (ConnectivityService config ≠ "" → ready (ThisPodNSF, Service) c) →
  wp (storageServiceController_init config) c (λ _ c', reached c c').
Proof.
  unfold storageServiceController_init. intros Hinv Hbase Hsvc. pose proof (reached_refl c Hinv) as R. step; [by step|].
  apply wp_bind, wp_watch_named; [by eapply reached_inv|in_base| |done|adv; intros _].
  - destruct (decide (ConnectivityService config = "")) as [E|]; [left|right; by apply Hsvc]. cbn [table]. by rewrite bool_decide_true.
  - apply wp_watch_named; [by eapply reached_inv|in_base|by left|done|by adv].
Qed.
Lemma init_leases_good c :
  inv config c → NodeLeaseF ∉ informerFactoryStart c → wp init_leases c (λ _ c', inv config c' ∧ grows c c').
Proof.
  unfold init_leases. intros Hinv Hf. apply wp_factory; [done..|]. intros c1 Hinv1 G E. pose proof (reached_refl c1 Hinv1) as R.
  assert (NodeLeaseF ∈ informerFactoryStart c1) as Hl by (rewrite E; set_solver). apply wp_bind.
  destruct lease_kind as [k|] eqn:Ek; [|step].
  apply wp_bind, wp_Informer_of; [done..|by left; destruct k|adv; intros ?]. repeat step.
  - change (shown config "rec:nl") with (Some (labelled (default LeaseV1 lease_kind) NamespaceNodeLease (of_role_here LabelRoleValueNodeLease))).
    rewrite Ek. by destruct k.
  - match goal with R : reached c1 _ |- _ => destruct R as (? & ? & _) end. split; [done|]. by etrans.
Qed.
Lemma edgeDeviceController_good c :
  inv config c → EdgeDeviceF ∉ informerFactoryStart c →
  wp edgeDeviceController_init c (λ _ c', inv config c' ∧ grows c c' ∧ informerFactoryStart c' = informerFactoryStart c ++ [EdgeDeviceF]).
Proof.
  unfold edgeDeviceController_init. intros Hinv Hf. apply wp_factory; [done..|]. intros c1 Hinv1 G E. pose proof (reached_refl c1 Hinv1) as R.
  assert (EdgeDeviceF ∈ informerFactoryStart c1) as Hl by (rewrite E; set_solver).
  apply wp_bind, wp_Informer_of; [done..|by left|adv; intros ?]. repeat step.
  match goal with R : reached c1 _ |- _ => destruct R as (? & ? & ?) end. split_and!; [done|by etrans|congruence].
Qed.
Lemma nodeController_good c :
  inv config c → has_base c → NodeLeaseF ∉ informerFactoryStart c → wp (nodeController_init config) c (λ _ c', inv config c' ∧ grows c c').
Proof.
  unfold nodeController_init. intros Hinv Hbase Hl. pose proof (reached_refl c Hinv) as R. apply wp_bind.
  destruct (vnKubeClient config); step. do 3 step. apply wp_bind.
  match goal with R : reached c ?c1 |- _ => assert (wp (if LeaseEnabled config then init_leases else mret tt) c1 (λ _ c', inv config c' ∧ grows c1 c')) as Hw end.
  { destruct (LeaseEnabled config); [|by apply wp_ret; split; [eapply reached_inv|] ].
    apply init_leases_good; [by eapply reached_inv|]. match goal with R : reached c _ |- _ => destruct R as (_ & _ & ->) end. done. }
  eapply wp_mono; [exact Hw|]. intros _ c' [Hinv' G'].
  match goal with R : reached c ?c1, W : (ClusterF, Node) ∈ cacheSyncWaitFuncs ?c1 |- _ =>
    pose proof (waits_grow _ _ _ W G'); assert (grows c c') as G by (etrans; [apply R|done]); clear dependent c1 end.
  pose proof (reached_refl c' Hinv') as R. repeat step.
  match goal with R : reached c' _ |- _ => destruct R as (? & ? & _) end. split; [done|]. by etrans.
Qed.

(** One after the other: what holds after the services are watched *)
Definition wired (c : Controller) : Prop := inv config c ∧ has_base c ∧ (ConnectivityService config ≠ "" → ready (ThisPodNSF, Service) c).
Lemma wired_grows c c' : wired c → inv config c' → grows c c' → wired c'.
Proof.
  intros (_ & B & S) ? G. split; [done|]. split; [|by intros; eapply ready_grows; [apply S|] ]. intros f Hf. by apply (g_starts c c' G), B.
Qed.
Lemma wired_reached c c' : wired c → reached c c' → wired c'.
Proof. intros ? (? & ? & _). by eapply wired_grows. Qed.
Lemma wp_link m pre c (k : unit → T unit) Q :
  good m → wired c → (∀ c', wired c' → grows c c' → wp (k tt) c' Q) → wp (mbind (M := M Controller) k (prefixed pre m)) c Q.
Proof.
  intros Hg Hw HQ. apply wp_bind, wp_prefixed. eapply wp_mono; [apply Hg; apply Hw|]. intros [] c' R. apply HQ; [by eapply wired_reached|apply R].
Qed.
Lemma initial_inv : inv config initial ∧ has_base initial.
Proof.
  assert (∀ i, informer initial i = None) as Hn by (by intros [ [] k]).
  split; [|by intros f]. split; [split; [done|cbn; set_solver]|]. split_and!; [cbn; set_solver..| |by intros i x; rewrite Hn|].
  - intros f _ k. by destruct f.
  - intros f. cbn. unfold tenantInformerFactory. destruct (decide (SysNS = TenantNS)), f; try done; set_solver.
Qed.
Lemma inits_wired cloudNode lifecycle : wp (inits config cloudNode lifecycle) initial (λ _ c, inv config c).
Proof.
  destruct initial_inv as [Hinv Hbase]. unfold inits.
  assert ((EdgeDeviceF ∉ informerFactoryStart initial) ∧ (NodeLeaseF ∉ informerFactoryStart initial)) as [He Hl].
  { cbn. unfold tenantInformerFactory. case_decide; set_solver. }
  apply wp_bind, wp_prefixed. eapply wp_mono; [by apply edgeDeviceController_good|]. intros _ c1 (Hinv1 & G1 & E1).
  assert (has_base c1) as Hbase1 by (intros f Hf; rewrite E1; apply elem_of_app; by left; apply Hbase).
  apply wp_bind, wp_prefixed. eapply wp_mono; [by apply connectivityServiceController_good|]. intros _ c2 [R2 S2].
  assert (wired c2) as W2 by (split_and!; [apply R2|by eapply reached_base|done]).
  apply wp_bind, wp_prefixed. eapply wp_mono.
  { apply nodeController_good; [apply W2..|]. destruct R2 as (_ & _ & ->). rewrite E1. set_solver. }
  intros [] c3 [Hinv3 G3]. pose proof (wired_grows _ _ W2 Hinv3 G3) as W3.
  apply wp_link; [apply nodeCertController_good|done|]. intros c4 W4 _.
  apply wp_link; [apply sysSecretController_good|done|]. intros c5 W5 _.
  apply wp_link; [apply sysPodController_good|done|]. intros c6 W6 _.
  apply wp_link; [apply sysPodRoleController_good|done|]. intros c7 W7 _.
  apply wp_bind, wp_prefixed. eapply wp_mono; [apply tenantPodController_good; apply W7|]. intros [] c8 [R8 S8].
  pose proof (wired_reached _ _ W7 R8) as W8.
  apply wp_link; [apply tenantPodRoleController_good|done|]. intros c9 W9 G9. apply (ready_grows _ _ c9) in S8; [|done].
  apply wp_link; [apply nodeClusterRoleController_good|done|]. intros c10 W10 G10. apply (ready_grows _ _ c10) in S8; [|done].
  apply wp_bind, wp_prefixed. eapply wp_mono; [apply meshController_good; [apply W10..|done]|]. intros [] c11 R11.
  pose proof (wired_reached _ _ W10 R11) as W11.
  apply wp_bind, wp_prefixed. eapply wp_mono; [apply storageServiceController_good; apply W11|]. intros [] c12 R12.
  pose proof (wired_reached _ _ W11 R12) as W12.
  apply wp_bind. eapply wp_mono; [apply init_csidrivers_good; apply W12|]. intros [] c13 R13.
  pose proof (wired_reached _ _ W12 R13) as W13.
  eapply wp_mono; [apply init_cloud_good; apply W13|]. intros [] c14 R14. apply R14.
Qed.
Lemma NewController_wired kube aranya cloudNode lifecycle c :
  NewController config kube aranya cloudNode lifecycle = Ret (Ok c) → inv config c.
Proof.
  unfold NewController. destruct kube, aranya; [done..|]. pose proof (inits_wired cloudNode lifecycle) as Hw.
  destruct (inits config cloudNode lifecycle initial) as [ [c' [ []|e] ]| |] eqn:E; intros [= <-]. by eapply Hw.
Qed.
Lemma inv_informer c r i :
  inv config c → r ∈ recReconcile c → rec_Informer r = Some i →
  i.1 ∈ informerFactoryStart c ∧ i ∈ cacheSyncWaitFuncs c ∧ ∃ x, informer c i = Some x ∧ shown config (rec_Name r) = Some x.
Proof.
  intros (_ & H2 & H3 & _ & _ & H6 & _) Hr Hi. destruct (H2 r i Hr Hi) as [Hw Hs]. destruct (H3 i Hw) as [Hf [x Hx] ].
  split_and!; [done..|]. exists x. by rewrite Hs, (H6 i x Hx).
Qed.

(** C15: What the reconcilers of the controllers see. After NewController every reconciler is started and reconciled, the two lists being
    the same; one with an informer sees the objects that informer selects: those its init function asked for, except for three that get the
    informer of another, which had asked for the type before ([shown]). One without an informer is made with a cache exactly when it is asked
    about single objects. An informer that was asked for is in a factory that Start starts. *)
Theorem reconcilers_watch kube aranya cloudNode lifecycle c :
  NewController config kube aranya cloudNode lifecycle = Ret (Ok c) →
  (recStart c = recReconcile c ∧
   ∀ r, r ∈ recReconcile c → rec_Informer r = None → rec_RequireCache r = bool_decide (rec_Name r ∈ object_requests)) ∧
  ∀ r i, r ∈ recReconcile c → rec_Informer r = Some i →
    i.1 ∈ informerFactoryStart c ∧ i ∈ cacheSyncWaitFuncs c ∧
    ∃ x, informer c i = Some x ∧ shown config (rec_Name r) = Some x ∧ (rec_Name r ∉ misled → wanted config (rec_Name r) = Some x).
Proof.
  intros Hinv%NewController_wired. split; [apply Hinv|]. intros r i Hr Hi.
  destruct (inv_informer c r i Hinv Hr Hi) as (Hf & Hw & x & Hx & Hs). split_and!; [done..|]. exists x. split_and!; [done..|].
  intros Hm. by rewrite <- (shown_wanted config _ Hm).
Qed.
(** The reconciler of the network endpoints is handed the endpoints of abbot; those of the network service only if they have one name. *)
Lemma network_endpoints_unseen kube aranya cloudNode lifecycle c r i x o :
  NewController config kube aranya cloudNode lifecycle = Ret (Ok c) → r ∈ recReconcile c → rec_Name r = "rec:net:ep" →
  rec_Informer r = Some i → informer c i = Some x → watches x o = true → o_Name o = AbbotService config.
Proof.
  intros Hc%NewController_wired Hr Hn Hi Hx Ho. destruct (inv_informer c r i Hc Hr Hi) as (_ & _ & x' & Hx' & Hs).
  rewrite Hn in Hs. simplify_eq. change (Some (named Endpoints TenantNS (AbbotService config)) = Some x) in Hs. injection Hs as <-.
  unfold watches, selected in Ho. cbn in Ho. apply andb_prop in Ho as [_ Ho]. by apply bool_decide_eq_true in Ho.
Qed.
End Steps.
End Init.
End Setup.

(** ** Start and Reconcile of the controller *)
Module Control.
Import Informers Setup.

Inductive Call := CFactory (f : FactoryId) | CPrepare (rec : string) | CList (i : Ref) | CWait (l : list Ref).
Definition running (c : Controller) (i : Ref) : bool := f_startedInformers (factories c i.1) i.2.
Definition start_factories (c : Controller) : Controller :=
  foldl (λ c f, set_factories (<[f := Informers.Start (factories c f)]> (factories c)) c) c (informerFactoryStart c).

Section Start.
(** The answers of the reconcilers and listers, and HasSynced of an informer at the n-th look *)
Context (prepare : Reconciler → option string) (lister : Ref → option string) (HasSynced : nat → Ref → bool).
Fixpoint prepare_all (l : list Reconciler) : list Call * option string :=
  match l with
  | [] => ([], None)
  | r :: l =>
      match prepare r with
      | Some e => ([CPrepare (rec_Name r)], Some ("failed to start reconciler: " +:+ e))
      | None => let '(cs, e) := prepare_all l in (CPrepare (rec_Name r) :: cs, e)
      end
  end.
Fixpoint list_all (l : list (Ref * string)) : list Call * option string :=
  match l with
  | [] => ([], None)
  | (i, text) :: l =>
      match lister i with
      | Some e => ([CList i], Some ("failed to do list for cache: " +:+ text +:+ e))
      | None => let '(cs, e) := list_all l in (CList i :: cs, e)
      end
  end.
(** kubecache.WaitForCacheSync (vendored): all have synced at one of the looks before the stop; there is one look at least. *)
Definition WaitForCacheSync (looks : nat) (l : list Ref) : bool := existsb (λ n, forallb (HasSynced n) l) (seq 0 (S looks)).
(** Controller.Start, at its first call *)
Definition Start (looks : nat) (c : Controller) : Controller * list Call * option string :=
  let c' := start_factories c in let fs := CFactory <$> informerFactoryStart c in
  match prepare_all (recStart c) with
  | (ps, Some e) => (c', fs ++ ps, Some e)
  | (ps, None) =>
      match list_all (concat (listActions c)) with
      | (ls, Some e) => (c', fs ++ ps ++ ls, Some e)
      | (ls, None) =>
          (c', fs ++ ps ++ ls ++ [CWait (cacheSyncWaitFuncs c)],
           if WaitForCacheSync looks (cacheSyncWaitFuncs c) then None else Some "failed to sync resource cache")
      end
  end.
End Start.
(** Controller.Reconcile: what runs until the leadership is lost, one goroutine each, before the virtual nodes are served *)
Definition Reconcile (c : Controller) : list string :=
  (rec_Name <$> recReconcile c) ++ (if cloudControllers (fields c) then ["cloudNodeController"; "cloudNodeLifecycleController"] else []).

(** Starting keeps the informers and starts those of every factory in the list. *)
Lemma start_factories_spec l c i :
  let c' := foldl (λ c f, set_factories (<[f := Informers.Start (factories c f)]> (factories c)) c) c l in
  informer c' i = informer c i ∧ (running c i = true → running c' i = true) ∧ (i.1 ∈ l → is_Some (informer c i) → running c' i = true).
Proof.
  revert c. induction l as [|f l IH]; intros c; cbn; [split_and!; [done..|by intros ?%elem_of_nil]|].
  destruct (IH (set_factories (<[f := Informers.Start (factories c f)]> (factories c)) c)) as (H1 & H2 & H3). cbn in H1, H2, H3.
  destruct i as [f' k]. unfold informer, running in *. cbn in *. destruct (decide (f = f')) as [<-|].
  - rewrite fn_lookup_insert in *. cbn in *. split_and!; [done| |].
    + intros Hr. apply H2. by rewrite Hr.
    + intros _ Hs. apply H2. rewrite bool_decide_true by done. apply orb_true_r.
  - rewrite fn_lookup_insert_ne in * by done. split_and!; [done..|]. intros [?|?]%elem_of_cons; [done|by apply H3].
Qed.

Section Lives.
Context (SysNS TenantNS ThisPodNS : string) (known : gmap string Z) (preferred : list (string * list string)) (config : Config).
Lemma waited_running c i :
  inv SysNS TenantNS ThisPodNS preferred config c → i ∈ cacheSyncWaitFuncs c → running (start_factories c) i = true.
Proof. intros (_ & _ & H3 & _) Hi. destruct (H3 i Hi) as [Hf Hs]. by apply (start_factories_spec (informerFactoryStart c) c i). Qed.
Lemma list_all_None lister l : (∀ i, lister i = None) → (list_all lister l).2 = None.
Proof. intros Hl. induction l as [|[i t] l IH]; [done|]. cbn. rewrite Hl. by destruct (list_all lister l). Qed.
Lemma prepare_all_None prepare l : (∀ r, prepare r = None) → prepare_all prepare l = ((λ r, CPrepare (rec_Name r)) <$> l, None).
Proof. intros Hp. induction l as [|r l IH]; [done|]. cbn. by rewrite Hp, IH. Qed.
Lemma WaitForCacheSync_ends HasSynced (l : list Ref) :
  (∀ i, i ∈ l → ∃ n, ∀ m, (n ≤ m)%nat → HasSynced m i = true) → ∃ n, ∀ looks, (n ≤ looks)%nat → WaitForCacheSync HasSynced looks l = true.
Proof.
  intros Hl. assert (∃ n, ∀ i m, i ∈ l → (n ≤ m)%nat → HasSynced m i = true) as [n Hn].
  { induction l as [|i l IH]; [exists 0%nat; by intros ? ? ?%elem_of_nil|].
    destruct (Hl i) as [n1 H1]; [by left|]. destruct IH as [n2 H2]; [intros; apply Hl; by right|].
    exists (n1 `max` n2)%nat. intros j m [->|Hj]%elem_of_cons Hm; [apply H1; lia|apply H2; [done|lia] ]. }
  exists n. intros looks Hlooks. unfold WaitForCacheSync. apply existsb_exists. exists n. split; [apply in_seq; lia|].
  apply forallb_forall. intros i Hi%list_elem_of_In. by apply Hn.
Qed.

(** C17: Start comes to an end. Of a controller NewController has made, every informer that is waited for is one that Start sets running; so
    when informers that run have synced after a while, and the reconcilers and listers report no errors, Start has succeeded once the
    context lasts for long enough, with every reconciler that Reconcile runs prepared before. *)
Theorem start_succeeds kube aranya cloudNode lifecycle c prepare lister HasSynced :
  NewController SysNS TenantNS ThisPodNS known preferred config kube aranya cloudNode lifecycle = Ret (Ok c) →
  (∀ r, prepare r = None) → (∀ i, lister i = None) →
  (∀ i, running (start_factories c) i = true → ∃ n, ∀ m, (n ≤ m)%nat → HasSynced m i = true) →
  (∀ i, i ∈ cacheSyncWaitFuncs c → running (start_factories c) i = true) ∧
  ∃ n, ∀ looks, (n ≤ looks)%nat → ∃ calls, Start prepare lister HasSynced looks c = (start_factories c, calls, None) ∧
    ∀ r, r ∈ recReconcile c → CPrepare (rec_Name r) ∈ calls.
Proof.
  intros Hinv%NewController_wired Hp Hl Hs.
  destruct (WaitForCacheSync_ends HasSynced (cacheSyncWaitFuncs c)) as [n Hn]; [intros i Hi; by eapply Hs, waited_running|].
  split; [intros i; by apply waited_running|]. exists n. intros looks Hlooks. unfold Start. rewrite prepare_all_None by done.
  pose proof (list_all_None lister (concat (listActions c)) Hl) as He. destruct (list_all lister (concat (listActions c))) as [ls e]. cbn in He. subst e.
  rewrite (Hn looks Hlooks). eexists. split; [done|]. intros r Hr. apply elem_of_app. right. apply elem_of_app. left.
  apply list_elem_of_fmap. exists r. split; [done|]. by destruct Hinv as [ [-> _] _].
Qed.
(** Without it, it reports the first reconciler that fails, and lists nothing. *)
Lemma start_fails_early prepare lister HasSynced looks c r l1 l2 e :
  recStart c = l1 ++ r :: l2 → (∀ r, r ∈ l1 → prepare r = None) → prepare r = Some e →
  (Start prepare lister HasSynced looks c).2 = Some ("failed to start reconciler: " +:+ e) ∧
  ∀ i, CList i ∉ (Start prepare lister HasSynced looks c).1.2.
Proof.
  intros Hr Hl1 He. unfold Start.
  assert (prepare_all prepare (recStart c) = ((λ r, CPrepare (rec_Name r)) <$> l1 ++ [r], Some ("failed to start reconciler: " +:+ e))) as ->.
  { rewrite Hr. clear Hr. induction l1 as [|r1 l1 IH]; [cbn; by rewrite He|]. cbn. rewrite Hl1 by left. rewrite IH; [done|]. intros. apply Hl1. by right. }
  split; [done|]. cbn. intros i [ (? & ? & ?)%list_elem_of_fmap|(? & ? & ?)%list_elem_of_fmap]%elem_of_app; done.
Qed.
End Lives.
End Control.

(** ** What the controllers write, they watch *)
Module Visibility.
Import Informers Setup.
Definition of_node (n : Api.Node) : Object :=
  {| o_Kind := Node; o_Namespace := ""; o_Name := node_Name n; o_Labels := default ∅ (node_Labels n) |}.
Definition of_lease (k : Kind) (l : Lease) : Object :=
  {| o_Kind := k; o_Namespace := NamespaceNodeLease; o_Name := le_Name l; o_Labels := default ∅ (le_Labels l) |}.
Definition of_role (k : Kind) (r : Rules.Role) : Object :=
  {| o_Kind := k; o_Namespace := Rules.r_Namespace r; o_Name := Rules.r_Name r; o_Labels := default ∅ (Rules.r_Labels r) |}.

Section Visible.
Context (TenantNS ThisPodNS : string) (known : gmap string Z) (preferred : list (string * list string)) (config : Config).
Context (cfg : Cluster.Config) (getEdgeDeviceObject : string → option Api.EdgeDevice) (edgeDevices : list Api.EdgeDevice).

Lemma informer_in_table c i x :
  inv (SysNS cfg) TenantNS ThisPodNS preferred config c → informer c i = Some x → table (SysNS cfg) TenantNS ThisPodNS config i = Some x.
Proof. intros (_ & _ & _ & _ & _ & H6 & _). apply H6. Qed.

(** C16: What the controllers write for the devices, their informers select: the nodes, the leases, and the roles of nodes, of the tenant's
    pods and of the virtual pods. So a reconciler is told of each change of an object aranya has made, wherever it comes from. *)
Theorem written_is_watched kube aranya cloudNode lifecycle c x :
  NewController (SysNS cfg) TenantNS ThisPodNS known preferred config kube aranya cloudNode lifecycle = Ret (Ok c) →
  (informer c (ClusterF, Node) = Some x → ∀ ed port, watches x (of_node (NodeObject.newNodeForEdgeDevice cfg ed port)) = true) ∧
  (∀ k, informer c (NodeLeaseF, k) = Some x → ∀ node t, watches x (of_lease k (NodeLease.newLeaseForNode cfg node t)) = true) ∧
  (informer c (ClusterF, ClusterRole) = Some x → ∀ name spec,
    watches x (of_role ClusterRole (NodeClusterRoles.newNodeClusterRoleForAllEdgeDevices (SysNS cfg) edgeDevices name spec)) = true) ∧
  (informer c (SysF, Role) = Some x → ∀ name spec pods,
    watches x (of_role Role (PodRoles.newVirtualPodRole getEdgeDeviceObject (SysNS cfg) name spec pods)) = true) ∧
  (informer c (tenantInformerFactory (SysNS cfg) TenantNS, Role) = Some x → ∀ name spec pods,
    watches x (of_role Role (PodRoles.newTenantPodRoleForAllEdgeDevices getEdgeDeviceObject TenantNS name spec pods)) = true).
Proof.
  intros Hinv%NewController_wired. split_and!; [intros Hx%(informer_in_table _ _ _ Hinv)|intros k Hx%(informer_in_table _ _ _ Hinv)|intros Hx%(informer_in_table _ _ _ Hinv)..].
  - intros ed port. injection Hx as <-. unfold watches, selected. cbn. unfold NodeObject.node_labels.
    rewrite (lookup_insert_ne _ _ LabelNamespace), lookup_insert_eq by done.
    do 2 (rewrite (lookup_insert_ne _ _ LabelRole) by done). rewrite lookup_insert_eq. by repeat case_bool_decide.
  - intros node t. assert (x = labelled k NamespaceNodeLease (of_role_here (SysNS cfg) LabelRoleValueNodeLease)) as -> by (by destruct k; injection Hx).
    unfold watches, selected. cbn. rewrite lookup_insert_eq, lookup_insert_ne, lookup_insert_eq by done. by repeat case_bool_decide.
  - intros name spec. injection Hx as <-. unfold NodeClusterRoles.newNodeClusterRoleForAllEdgeDevices. case_match. case_match. unfold watches, selected. cbn.
    rewrite lookup_insert_eq, lookup_insert_ne, lookup_insert_eq by done. by repeat case_bool_decide.
  - intros name spec pods. injection Hx as <-. unfold watches, selected. cbn. rewrite lookup_insert_eq. by repeat case_bool_decide.
  - intros name spec pods. rewrite table_role in Hx. injection Hx as <-. unfold watches, selected. cbn.
    rewrite lookup_insert_eq. by repeat case_bool_decide.
Qed.
End Visible.
End Visibility.

(** ** Requests: what a controller asks another to do it schedules at a reconciler without an informer

    A request about one object puts its name into the cache of the reconciler, in the place of an object; a request about all of them, of the
    roles and the service, is the job of the empty key, of a reconciler that needs no cache. *)
Module Requests.
Import Reconcile.Core.
Section Requests.
Context (error_text : schedule_error → string) (now : Z).
Definition schedule_add (text : string) (key : string) (c : Core string) : Core string * option string :=
  let '(c, e) := Schedule now (ActionAdd, key) 0 c in (c, match e with Some e => Some (text +:+ error_text e) | None => None end).
Definition request_object (text : string) (name : string) (c : Core string) : Core string * option string :=
  schedule_add text name (with_objs (Cache.Update name (Some name) (Some name) (objs c)) c).
(** What a request does without the reconciler: nothing, or an error *)
Definition request_of (f : Core string → Core string * option string) (unsupported : option string) (rec : option (Core string)) : option (Core string) * option string :=
  match rec with None => (None, unsupported) | Some c => let '(c, e) := f c in (Some c, e) end.
Definition requestNodeEnsure (name : string) := request_of (request_object "failed to schedule node ensure: " name) None.
(** The error of this one is not told. *)
Definition requestNodeLeaseEnsure (name : string) :=
  request_of (λ c, let '(c, e) := request_object "" name c in (c, match e with Some _ => Some "failed to schedule node lease ensure" | None => None end)) None.
Definition requestVirtualPodEnsure (name : string) :=
  request_of (request_object "failed to schedule virtual pod ensure: " name) (Some "virtual pod ensure not supported").
Definition requestNetworkEnsure (name : string) := request_of (request_object "failed to schedule network ensure: " name) (Some "network ensure not supported").
Definition requestNodeClusterRoleEnsure := request_of (schedule_add "failed to schedule node cluster role ensure: " "") None.
Definition requestVirtualPodRoleEnsure := request_of (schedule_add "failed to schedule pod role update: " "") None.
Definition requestTenantPodRoleEnsure := request_of (schedule_add "failed to schedule pod role update: " "") None.

Lemma Offer_add key q : JobQueue.has ActionUpdate key q = false →
  let '(q', e) := JobQueue.Offer (ActionAdd, key) q in JobQueue.has ActionAdd key q' = true ∧ (e = None ∨ e = Some JobQueue.ErrJobDuplicated).
Proof.
  intros Hu. unfold JobQueue.Offer. destruct (JobQueue.has ActionAdd key q) eqn:Ha; [by split; [|right] |]. rewrite Hu. split; [|by left].
  unfold JobQueue.signal, JobQueue.add, JobQueue.has. destruct (JobQueue.hasJob _); cbn; rewrite lookup_insert_eq; by rewrite bool_decide_true.
Qed.
Lemma scheduled text key c : JobQueue.has ActionUpdate key (jobQ c) = false →
  let '(c', e) := schedule_add text key c in
  e = None ∧ JobQueue.has ActionAdd key (jobQ c') = true ∧ objs c' = objs c ∧ requireCache c' = requireCache c ∧ workingOn c' = workingOn c.
Proof.
  intros Hu. pose proof (Offer_add key (jobQ c) Hu) as Ho. unfold schedule_add, Schedule. rewrite Z.eqb_refl.
  destruct (JobQueue.Offer (ActionAdd, key) (jobQ c)) as [q e]. destruct Ho as [Ha [->| ->] ]; by cbn.
Qed.
(** A request about an object is never answered with "cache not found": there is a job for it afterwards, and when it is taken up the handler
    is called with the name, whatever the reconciler has done for the name before, unless it is at work on that very job. *)
Lemma request_object_handled text name c : JobQueue.has ActionUpdate name (jobQ c) = false →
  let '(c', e) := request_object text name c in
  e = None ∧ JobQueue.has ActionAdd name (jobQ c') = true ∧
  ((ActionAdd, name) ∉ workingOn c' → ∃ previous, handling (start_job (ActionAdd, name) c') = handling c' ++ [((ActionAdd, name), (Some previous, Some name))] ∧
     ended (start_job (ActionAdd, name) c') = ended c').
Proof.
  intros Hu. unfold request_object. set (c1 := with_objs _ c).
  pose proof (scheduled text name c1 Hu) as Hs. destruct (schedule_add text name c1) as [c' e]. destruct Hs as (-> & Ha & Ho & Hr & _).
  split_and!; [done..|]. intros Hw. unfold start_job. rewrite decide_False by done. rewrite bool_decide_false by done. rewrite Ho.
  destruct (Cache.Update_correct name (Some name) (Some name) (objs c)) as (_ & _ & H2 & _ & _ & Hp). destruct Hp as [previous Hp]; [by eexists|].
  change (objs c1) with (Cache.Update name (Some name) (Some name) (objs c)).
  destruct (Cache.Get name (Cache.Update name (Some name) (Some name) (objs c))) as [o1 o2]. cbn in H2, Hp. subst o1 o2.
  exists previous. by destruct (requireCache c').
Qed.
(** A request about all of them needs no object where the reconciler was made without a cache. *)
Lemma request_all_handled text c : JobQueue.has ActionUpdate "" (jobQ c) = false → requireCache c = false →
  let '(c', e) := schedule_add text "" c in
  e = None ∧ JobQueue.has ActionAdd "" (jobQ c') = true ∧
  ((ActionAdd, "") ∉ workingOn c' → ended (start_job (ActionAdd, "") c') = ended c' ∧ ∃ x, handling (start_job (ActionAdd, "") c') = handling c' ++ [x]).
Proof.
  intros Hu Hc. pose proof (scheduled text "" c Hu) as Hs. destruct (schedule_add text "" c) as [c' e]. destruct Hs as (-> & Ha & _ & Hr & _).
  split_and!; [done..|]. intros Hw. unfold start_job. rewrite decide_False by done. rewrite bool_decide_false by done. rewrite Hr, Hc.
  destruct (Cache.Get "" (objs c')) as [o1 o2]. cbn. by split; [|eexists].
Qed.
End Requests.
End Requests.

(** ** The election (controller/aranya: controller.go, and pod.go but for onPodUpdated, which is in Leader.v)

    Before the election both controllers are started, so that a new leader has its caches; with it the leader looks at its own pod, whose
    labels onPodUpdated brings up to date, and the reconcilers run. *)
Module Elected.
Import Reconcile.Core.
Section Elected.
Context (ThisPodNS ThisPodName : string).
(** podController.start *)
Definition pod_start (prepare lister : option string) (HasSynced : nat → bool) (looks : nat) : option string :=
  match prepare, lister with
  | Some e, _ => Some ("failed to start pod reconciler: " +:+ e)
  | None, Some e => Some ("failed to list pods in namespace " +:+ quote ThisPodNS +:+ ": " +:+ e)
  | None, None => if existsb HasSynced (seq 0 (S looks)) then None else Some "failed to sync pod cache"
  end.
(** Controller.Start: the edge device controller is not started when that of the pod has failed. *)
Definition Start (pod : option string) (edCtrl : Setup.Controller → Setup.Controller * list Control.Call * option string) (c : Setup.Controller)
    : Setup.Controller * list Control.Call * option string :=
  match pod with
  | Some e => (c, [], Some ("failed to start aranya pod controller: " +:+ e))
  | None => let '(c, calls, e) := edCtrl c in
            (c, calls, match e with Some e => Some ("failed to start edge device controller: " +:+ e) | None => None end)
  end.
Context {obj : Type}.
Definition thisPod : string := ThisPodNS +:+ "/" +:+ ThisPodName.
(** OnElected: what runs until the leadership is lost; an error of the schedule is not looked at. *)
Definition reconcile (now : Z) (podRec : Core obj) : Core obj := (Schedule now (ActionUpdate, thisPod) 0 podRec).1.
Definition OnElected (now : Z) (podRec : Core obj) (edCtrl : Setup.Controller) : Core obj * list string :=
  (reconcile now podRec, "aranya:pod" :: Control.Reconcile edCtrl).

(** The elected pod is looked at: when it is cached and no other job of it is waiting, there is one afterwards, and onPodUpdated is called
    with the pod when it is taken up; and when it waits to be added, that job leads to the same. *)
Lemma elected_pod_handled now podRec edCtrl previous current :
  Cache.Get thisPod (objs podRec) = (Some previous, Some current) → JobQueue.has ActionDelete thisPod (jobQ podRec) = false →
  let c := (OnElected now podRec edCtrl).1 in
  if JobQueue.has ActionAdd thisPod (jobQ podRec) then c = podRec else
  JobQueue.has ActionUpdate thisPod (jobQ c) = true ∧
  ((ActionUpdate, thisPod) ∉ workingOn c → handling (start_job (ActionUpdate, thisPod) c) = handling c ++ [((ActionUpdate, thisPod), (Some previous, Some current))]).
Proof.
  intros Hc Hd. cbn [OnElected fst reconcile]. unfold reconcile, Schedule. rewrite Z.eqb_refl. unfold JobQueue.Offer.
  destruct (JobQueue.has ActionUpdate thisPod (jobQ podRec)) eqn:Hu; destruct (JobQueue.has ActionAdd thisPod (jobQ podRec)) eqn:Ha; rewrite ?Hd; cbn [orb fst].
  - by destruct podRec.
  - split; [done|]. intros Hw. unfold start_job. rewrite decide_False by done. rewrite bool_decide_false by done. cbn [with_jobQ objs]. rewrite Hc. by destruct (requireCache _).
  - by destruct podRec.
  - split.
    + unfold JobQueue.signal, JobQueue.add, JobQueue.has. cbn. destruct (JobQueue.hasJob _); cbn; rewrite lookup_insert_eq; by rewrite bool_decide_true.
    + intros Hw. unfold start_job. rewrite decide_False by done. rewrite bool_decide_false by done. cbn [with_jobQ objs]. rewrite Hc. by destruct (requireCache _).
Qed.
(** No controller of devices is started without the pod's, and none reconciles before. *)
Lemma start_in_order pod edCtrl c c' calls e : Start pod edCtrl c = (c', calls, e) → calls ≠ [] ∨ e = None → pod = None.
Proof. unfold Start. destruct pod; [intros [= <- <- <-] [?|?]; done|done]. Qed.
End Elected.
End Elected.

(** ** Examples: the system and the tenant in one namespace, as by default, with everything but the storage on *)
Module WiringExamples.
Import Informers Setup Control Visibility.
Definition no_perms : PodRolePermissions := {| prp_PodVerbs := []; prp_StatusVerbs := []; prp_AllowExec := None; prp_AllowAttach := None;
  prp_AllowLog := None; prp_AllowPortForward := None |}.
Definition config : Setup.Config := {|
  ConnectivityService := "edgedevice-connectivity"; StorageService := "edgedevice-sftp";
  Setup.NodeClusterRoles := {["viewer" := {| ncp_NodeVerbs := ["get"]; ncp_StatusVerbs := [] |}]};
  Setup.PodRoles := {["dev" := no_perms]}; VirtualPodRoles := {["host" := no_perms; "" := no_perms]};
  vnKubeClient := None; LeaseEnabled := true;
  Cert := {| TLSOptions.MinTLSVersion := ""; TLSOptions.MaxTLSVersion := ""; TLSOptions.CipherSuites := [] |}; StorageEnabled := false;
  NetworkEnabled := true; AbbotService := "abbot"; NetworkService := "mesh"; IPv4Blocks := [("10.0.0.0/24", "", "")]; IPv6Blocks := [];
  RunAsCloudProvider := true |}.
Definition served : list (string * list string) := [("v1", ["Node"; "Pod"]); ("coordination.k8s.io/v1", ["Lease"]); ("coordination.k8s.io/v1beta1", ["Lease"])].
Definition made : outcome (result Controller) := NewController "sys" "sys" "aranya" ∅ served config None None None None.
Definition with_ctrl {A} (f : Controller → A) (d : A) : A := match made with Ret (Ok c) => f c | _ => d end.

Example reconcilers : with_ctrl (λ c, rec_Name <$> recReconcile c) [] =
  ["rec:ed"; "rec:svc"; "rec:svc_req"; "rec:nl"; "rec:nl:req"; "rec:node"; "rec:node:req"; "rec:node:status"; "rec:vn"; "rec:vp"; "rec:vp_req";
   "rec:role"; "rec:role_req"; "rec:pod"; "rec:podrole"; "rec:podrole_req"; "rec:cr"; "rec:cr_req"; "rec:abbot:ep"; "rec:net:svc"; "rec:net:ep";
   "rec:net:req"; "rec:storage:svc"; "rec:storage:ep"].
Proof. by vm_compute. Qed.
(** The service of the storage is looked for among services named edgedevice-connectivity. *)
Example storage_service_unseen :
  with_ctrl (λ c, informer c (ThisPodNSF, Service)) None = Some (connectivity "aranya" config) ∧
  watches (connectivity "aranya" config) {| o_Kind := Service; o_Namespace := "aranya"; o_Name := "edgedevice-sftp"; o_Labels := ∅ |} = false.
Proof. split; by vm_compute. Qed.
(** Pods are watched once, for the system and for the tenant. *)
Example shared_pods : with_ctrl (λ c, (rec_Name <$> filter (λ r, rec_Informer r = Some (SysF, Pod)) (recReconcile c), informer c (TenantF, Pod))) ([], None) =
  (["rec:vp"; "rec:pod"], None).
Proof. by vm_compute. Qed.
Example no_name_for_abbot :
  NewController "sys" "sys" "aranya" ∅ served
    {| ConnectivityService := ""; StorageService := ""; Setup.NodeClusterRoles := ∅; Setup.PodRoles := ∅; VirtualPodRoles := ∅; vnKubeClient := None;
       LeaseEnabled := false; Cert := Cert config; StorageEnabled := false; NetworkEnabled := true; AbbotService := ""; NetworkService := "";
       IPv4Blocks := []; IPv6Blocks := []; RunAsCloudProvider := false |} None None None None =
  Ret (Err "failed to create network controller: abbot service name not set").
Proof. by vm_compute. Qed.
(** The role without a name is left out. *)
Example roles_named : with_ctrl (λ c, elements (dom (vpRoles (fields c)))) [] = ["host"].
Proof. by vm_compute. Qed.

Lemma reconcilers_watch_witness :
  ∃ c, made = Ret (Ok c) ∧ (recStart c = recReconcile c ∧
    ∀ r, r ∈ recReconcile c → rec_Informer r = None → rec_RequireCache r = bool_decide (rec_Name r ∈ object_requests)) ∧
  ∀ r i, r ∈ recReconcile c → rec_Informer r = Some i →
    i.1 ∈ informerFactoryStart c ∧ i ∈ cacheSyncWaitFuncs c ∧
    ∃ x, informer c i = Some x ∧ shown "sys" "sys" "aranya" served config (rec_Name r) = Some x ∧
         (rec_Name r ∉ misled → wanted "sys" "sys" "aranya" served config (rec_Name r) = Some x).
Proof.
  eexists. split; [vm_compute; reflexivity|].
  apply (reconcilers_watch "sys" "sys" "aranya" ∅ served config None None None None). vm_compute. reflexivity.
Defined.
Lemma start_succeeds_witness :
  ∃ c, made = Ret (Ok c) ∧ (∀ i, i ∈ cacheSyncWaitFuncs c → running (start_factories c) i = true) ∧
  ∃ n, ∀ looks, (n ≤ looks)%nat → ∃ calls,
    Start (λ _, None) (λ _, None) (λ m i, (3 <=? m)%nat && running (start_factories c) i) looks c = (start_factories c, calls, None) ∧
    ∀ r, r ∈ recReconcile c → CPrepare (rec_Name r) ∈ calls.
Proof.
  eexists. split; [vm_compute; reflexivity|].
  eapply (start_succeeds "sys" "sys" "aranya" ∅ served config None None None None); [vm_compute; reflexivity|done|done|].
  intros i Hi. exists 3%nat. intros m Hm. apply andb_true_intro. split; [by apply Nat.leb_le|exact Hi].
Defined.
Lemma written_is_watched_witness :
  ∃ c x, made = Ret (Ok c) ∧ informer c (ClusterF, Node) = Some x ∧
    ∀ ed port, watches x (of_node (NodeObject.newNodeForEdgeDevice Sample.config ed port)) = true.
Proof.
  eexists _, _. split; [vm_compute; reflexivity|]. split; [vm_compute; reflexivity|].
  eapply (written_is_watched "sys" "aranya" ∅ served config Sample.config (λ _, None) [] None None None None); [vm_compute; reflexivity|vm_compute; reflexivity].
Defined.
End WiringExamples.
