(* ===== verification/Node.v ===== *)
(** * The virtual node

    src/pkg/virtualnode/node.go. Module Routes is the kubelet server of a virtual node: its routes as CreateVirtualNode registers them,
    the way gorilla/mux (vendored) chooses one, and the check that the device is online (util/middleware); the handlers are those of
    PodHttp.v and Metrics.v. Module Lifecycle is Start: the loop that waits for the device to come and go, run together with the connection
    signals of Connectivity.v and the periodic work of VirtualNode.v. *)
From S2P Require Import Prelude GoNet K8s SeqQueue Session Connectivity TimeoutQueue Caches VirtualNode PodHttp Metrics.
Open Scope Z_scope.

(** ** The kubelet server *)
Module Routes.

(** The handlers, by the methods that serve them *)
Inductive Handler :=
  | Healthz (check : string) | HostLog | PodLog | PodExec | PodAttach | PodPortForward | GetPods | GetRunningPods
  | NodeMetrics | ContainerMetrics | ProbesMetrics | ResourceMetrics | Stats | StatsSummary | StatsSystemContainer | StatsContainer
  | StatsSpec | Pprof.
Record Route := { rt_Template : string; rt_Methods : option (list string); rt_Handler : Handler }.
Definition on (tpl : string) (h : Handler) (methods : list string) : Route := {| rt_Template := tpl; rt_Methods := Some methods; rt_Handler := h |}.
(** healthz.InstallHandler, without a restriction on the method *)
Definition health (check : string) : Route :=
  {| rt_Template := if decide (check = "") then "/healthz" else "/healthz/" +:+ check; rt_Methods := None; rt_Handler := Healthz check |}.

(** CreateVirtualNode, in the order of the calls *)
Definition routes : list Route :=
  (health <$> [""; "ping"; "log"; "syncloop"]) ++
  [on "/logs/.*" HostLog ["GET"];
   on "/containerLogs/{namespace}/{name}/{container}" PodLog ["GET"];
   on "/exec/{namespace}/{name}/{container}" PodExec ["POST"; "GET"];
   on "/exec/{namespace}/{name}/{uid}/{container}" PodExec ["POST"; "GET"];
   on "/attach/{namespace}/{name}/{container}" PodAttach ["POST"; "GET"];
   on "/attach/{namespace}/{name}/{uid}/{container}" PodAttach ["POST"; "GET"];
   on "/run/{namespace}/{name}/{container}" PodExec ["POST"];
   on "/run/{namespace}/{name}/{uid}/{container}" PodExec ["POST"];
   on "/portForward/{namespace}/{name}" PodPortForward ["POST"; "GET"];
   on "/portForward/{namespace}/{name}/{uid}" PodPortForward ["POST"; "GET"];
   on "/pods" GetPods ["GET"];
   on "/runningpods" GetRunningPods ["GET"];
   on "/metrics" NodeMetrics ["GET"];
   on "/metrics/cadvisor" ContainerMetrics ["GET"];
   on "/metrics/probes" ProbesMetrics ["GET"];
   on "/metrics/resource" ResourceMetrics ["GET"];
   on "/stats" Stats ["GET"; "POST"];
   on "/stats/summary" StatsSummary ["GET"; "POST"];
   on "/stats/container" StatsSystemContainer ["GET"; "POST"];
   on "/stats/{name}/{container}" StatsContainer ["GET"; "POST"];
   on "/stats/{namespace}/{name}/{uid}/{container}" StatsContainer ["GET"; "POST"];
   on "/spec" StatsSpec ["GET"];
   on "/debug/pprof" Pprof ["GET"]].

(** *** gorilla/mux

    A template is compiled to a regular expression: its variables, here always a whole segment, match [^/]+, and everything else is quoted.
    With StrictSlash a slash more at the end of the path matches too, and is redirected. *)
Inductive Seg := Lit (s : string) | Var (name : string).
#[export] Instance Seg_eq_dec : EqDecision Seg.
Proof. solve_decision. Defined.
Definition seg_of (s : string) : Seg :=
  match s with
  | String a s' => if decide (a = Ascii.ascii_of_nat 123) then Var (default s' (fst <$> cut_at (Ascii.ascii_of_nat 125) s')) else Lit s
  | EmptyString => Lit ""
  end.
Definition segs_of (tpl : string) : list Seg := seg_of <$> split_on slash tpl.
Fixpoint match_segs (tpl : list Seg) (path : list string) : option (gmap string string) :=
  match tpl, path with
  | [], [] => Some ∅
  | Lit s :: tpl, p :: path => if decide (s = p) then match_segs tpl path else None
  | Var x :: tpl, p :: path => if decide (p = "") then None else <[x := p]> <$> match_segs tpl path
  | _, _ => None
  end.
(** The variables, and whether the path ends with the slash that the template has not. *)
Definition match_path (tpl : string) (path : list string) : option (gmap string string * bool) :=
  match match_segs (segs_of tpl) path with
  | Some vars => Some (vars, false)
  | None => vars ← match_segs (segs_of tpl ++ [Lit ""]) path; Some (vars, true)
  end.

Inductive Served :=
  | Redirect                                              (** 301, to the clean path or without the slash *)
  | Unavailable                                           (** 503, the device is not connected *)
  | MethodNotAllowed | NotFound
  | Call (h : Handler) (vars : gmap string string).
(** DeviceOnlineCheck, around every handler of a route. *)
Definition checked (disconnected : bool) (s : Served) : Served := if disconnected then Unavailable else s.
Definition allows (r : Route) (method : string) : bool :=
  match rt_Methods r with None => true | Some l => bool_decide (method ∈ l) end.
(** Router.Match, on the segments of the path; [mismatch] is ErrMethodMismatch. *)
Fixpoint find (disconnected mismatch : bool) (rs : list Route) (method : string) (path : list string) : Served :=
  match rs with
  | [] => if mismatch then MethodNotAllowed else NotFound
  | r :: rs =>
      match match_path (rt_Template r) path with
      | None => find disconnected mismatch rs method path
      | Some (vars, slashed) =>
          if allows r method then checked disconnected (if slashed : bool then Redirect else Call (rt_Handler r) vars)
          else find disconnected true rs method path
      end
  end.
(** Router.ServeHTTP; [clean] is mux's cleanPath, which removes empty and dotted segments. *)
Definition serve (clean : string → string) (disconnected : bool) (method path : string) : Served :=
  if decide (clean path = path) then find disconnected false routes method (split_on slash path) else Redirect.

(** The parameters of the pod handlers *)
Definition param (x : string) (vars : gmap string string) : string := default "" (vars !! x).
Section Handlers.
Context (nodeName tenantNS logDir : string) (podCache : PodCache.PodCache) (is_file : string → bool).
(** What is asked in the query and the body of a request, as the handlers of PodHttp.v take it *)
Record Query := {
  q_now : Z; q_logs : result PodLogOptions; q_flusher : bool; q_command : list string; q_streams : Exec.Streams; q_protocol : string;
  q_ports : result (list Z)
}.
Definition pod_request (h : Handler) (vars : gmap string string) (q : Query) : option (string * Handlers.Request) :=
  match h with
  | PodLog => Some (param "name" vars, Handlers.RLog (q_now q) (param "container" vars) (q_logs q) (q_flusher q))
  | PodExec => Some (param "name" vars, Handlers.RExec (param "uid" vars) (param "container" vars) (q_command q) (q_streams q))
  | PodAttach => Some (param "name" vars, Handlers.RAttach (param "uid" vars) (param "container" vars) (q_streams q))
  | PodPortForward => Some (param "name" vars, Handlers.RPortForward (param "uid" vars) (q_protocol q) (q_ports q))
  | _ => None
  end.

(** What a handler makes of the device: Some "" is its host, Some uid a pod on it. The metrics of a node and of its containers are collected
    from the host (serveMetrics, of what it sends); the lists of pods are those of the cache, health checks answer by themselves, and the other
    handlers of metrics.Manager are not implemented or serve aranya's own profiles. *)
Context {MetricFamily : Type} (DecodeAll : string → result string) (Decode : string → option (MetricFamily * string)).
Context (metrics : MetricsManager.Manager MetricFamily) (closed : bool) (answer : result (list MetricsManager.Answer * string)).
Definition scraped (forRuntime : bool) : option string :=
  match MetricsManager.serveMetrics MetricFamily DecodeAll Decode forRuntime closed answer metrics with
  | Ret (_, _, []) => None
  | _ => Some ""
  end.
Definition acts_on (path : string) (h : Handler) (vars : gmap string string) (q : Query) : option string :=
  match pod_request h vars q, h with
  | Some (podName, r), _ => Handlers.acts_on (Handlers.handle nodeName tenantNS logDir podCache is_file podName r)
  | None, HostLog => Handlers.acts_on (Handlers.HandleHostLog tenantNS logDir is_file (TrimPrefix path "/logs/"))
  | None, NodeMetrics => scraped false
  | None, ContainerMetrics => scraped true
  | None, _ => None
  end.

(** *** The requests that reach a handler *)
Lemma find_Call d mismatch rs method path h vars :
  find d mismatch rs method path = Call h vars →
  d = false ∧ ∃ r, r ∈ rs ∧ rt_Handler r = h ∧ allows r method = true ∧ match_segs (segs_of (rt_Template r)) path = Some vars.
Proof.
  revert mismatch. induction rs as [|r rs IH]; intros mismatch; cbn [find]; [by destruct mismatch|].
  assert (∀ m, find d m rs method path = Call h vars →
    d = false ∧ ∃ r0, r0 ∈ r :: rs ∧ rt_Handler r0 = h ∧ allows r0 method = true ∧ match_segs (segs_of (rt_Template r0)) path = Some vars) as Hrest.
  { intros m (Hd & r0 & Hr & Hx)%IH. split; [done|]. exists r0. split; [by right|done]. }
  unfold match_path. destruct (match_segs (segs_of (rt_Template r)) path) as [v|] eqn:E.
  - destruct (allows r method) eqn:Ha; [|apply Hrest]. unfold checked. destruct d; [done|]. intros [= <- <-]. split; [done|].
    exists r. split; [left|done].
  - destruct (match_segs (segs_of (rt_Template r) ++ [Lit ""]) path) as [v|]; cbn [mbind option_bind]; [|apply Hrest].
    destruct (allows r method); [by destruct d|apply Hrest].
Qed.
Lemma serve_Call clean d method path h vars :
  serve clean d method path = Call h vars →
  d = false ∧ clean path = path ∧
  ∃ r, r ∈ routes ∧ rt_Handler r = h ∧ allows r method = true ∧ match_segs (segs_of (rt_Template r)) (split_on slash path) = Some vars.
Proof. unfold serve. case_decide; [|done]. intros (Hd & Hr)%find_Call. done. Qed.

(** A template without an opening brace has no variables. *)
#[export] Instance Lit_inj : Inj (=) (=) Lit.
Proof. by intros ? ? [= ->]. Qed.
Lemma segs_of_literal tpl : has_char (Ascii.ascii_of_nat 123) tpl = false → segs_of tpl = Lit <$> split_on slash tpl.
Proof.
  unfold segs_of. induction tpl as [|a tpl IH]; [done|]. intros Hc. unfold has_char in Hc. cbn [cut_at] in Hc. case_decide as Ha; [done|].
  assert (has_char (Ascii.ascii_of_nat 123) tpl = false) as Ht.
  { unfold has_char. rewrite bool_decide_eq_false in Hc |- *. intros [ [l r] E]. apply Hc. rewrite E. by eexists. }
  specialize (IH Ht). cbn [split_on]. pose proof (split_on_ne slash tpl). case_decide as Hs; [by rewrite !fmap_cons, IH|].
  destruct (split_on slash tpl) as [|t ts]; [done|]. rewrite !fmap_cons in IH |- *. injection IH as _ ->. cbn [seg_of]. by rewrite decide_False.
Qed.

(** The variables are segments of the path. *)
Lemma match_segs_vars tpl path vars x v : match_segs tpl path = Some vars → vars !! x = Some v → v ∈ path ∧ v ≠ "".
Proof.
  revert path vars. induction tpl as [|s tpl IH]; intros [|p path] vars; cbn [match_segs]; try done.
  - by intros [= <-].
  - by destruct s.
  - destruct s as [s|y].
    + case_decide; [|done]. intros Hm Hv. destruct (IH _ _ Hm Hv). split; [by right|done].
    + case_decide as Hp; [done|]. intros (vars' & Hm & ->)%fmap_Some Hv.
      destruct (decide (y = x)) as [->|Hne]; [rewrite lookup_insert_eq in Hv; injection Hv as <-; split; [left|done]|].
      rewrite lookup_insert_ne in Hv by done. destruct (IH _ _ Hm Hv). split; [by right|done].
Qed.
Lemma param_segment tpl path vars x : match_segs tpl path = Some vars → param x vars = "" ∨ param x vars ∈ path.
Proof. intros Hm. unfold param. destruct (vars !! x) as [v|] eqn:E; [right|by left]. by apply (match_segs_vars _ _ _ _ _ Hm E). Qed.
(** Without variables only the template itself matches. *)
Lemma match_segs_lit tpl path vars : Forall (λ s, ∃ t, s = Lit t) tpl → match_segs tpl path = Some vars → tpl = Lit <$> path.
Proof.
  revert path. induction tpl as [|s tpl IH]; intros [|p path] Hf; cbn [match_segs]; try done; [by destruct s|].
  apply Forall_cons in Hf as [ [t ->] Hf]. case_decide; [|done]. subst. intros Hm. cbn. f_equal. by apply IH.
Qed.

(** A route without variables is one path. *)
Lemma literal_route clean d method path h vars tpl :
  Forall (λ r, rt_Handler r = h → rt_Template r = tpl ∧ rt_Methods r = Some ["GET"]) routes → has_char (Ascii.ascii_of_nat 123) tpl = false →
  serve clean d method path = Call h vars → path = tpl ∧ method = "GET".
Proof.
  intros Hall Hl (_ & _ & r & Hr & Hh & Ha & Hm)%serve_Call. rewrite Forall_forall in Hall. destruct (Hall r Hr Hh) as [E Em].
  rewrite E in Hm. assert (segs_of tpl = Lit <$> split_on slash tpl) as El by (by apply segs_of_literal).
  apply match_segs_lit in Hm; [|rewrite El; apply Forall_fmap, Forall_true; intros s; by exists s].
  rewrite El in Hm. apply (inj (fmap Lit)) in Hm. split.
  - rewrite <- (join_split_on slash path), <- (join_split_on slash tpl). by rewrite Hm.
  - unfold allows in Ha. rewrite Em in Ha. apply bool_decide_eq_true in Ha. by apply list_elem_of_singleton in Ha.
Qed.
(** A request for the logs of the host is never served: the dot and the star of the template are no expression, they are quoted. *)
Lemma host_logs_unreachable clean d method path vars : serve clean d method path = Call HostLog vars → path = "/logs/.*" ∧ method = "GET".
Proof. apply literal_route; [by repeat constructor|by vm_compute]. Qed.

(** A name in a path *)
Definition segment (s : string) : Prop := s ≠ "" ∧ has_char slash s = false ∧ s ≠ "." ∧ s ≠ "..".
Definition path_of (segs : list string) : string := join "/" ("" :: segs).
Lemma split_path segs : Forall (λ s, has_char slash s = false) segs → split_on slash (path_of segs) = "" :: segs.
Proof. intros Hs. unfold path_of. apply (split_on_join slash); [done|]. by constructor. Qed.

Lemma match_segs_defined tpl path vars x : Var x ∈ tpl → match_segs tpl path = Some vars → is_Some (vars !! x).
Proof.
  revert path vars. induction tpl as [|s tpl IH]; intros [|p path] vars Hx; cbn [match_segs]; try done; [by apply elem_of_nil in Hx|by destruct s|].
  destruct s as [s|y].
  - apply elem_of_cons in Hx as [?|Hx]; [done|]. case_decide; [|done]. by apply IH.
  - case_decide; [done|]. intros (vars' & Hm & ->)%fmap_Some. destruct (decide (y = x)) as [->|Hne]; [by rewrite lookup_insert_eq|].
    rewrite lookup_insert_ne by done. apply elem_of_cons in Hx as [ [= <-]|Hx]; [done|]. by eapply IH.
Qed.
Definition for_pod (h : Handler) : bool := match h with PodLog | PodExec | PodAttach | PodPortForward => true | _ => false end.
Lemma pod_routes_named r : r ∈ routes → for_pod (rt_Handler r) = true → Var "name" ∈ segs_of (rt_Template r).
Proof.
  intros Hr Hh. assert (forallb (λ r, negb (for_pod (rt_Handler r)) || bool_decide (Var "name" ∈ segs_of (rt_Template r))) routes = true) as Hall
    by (by vm_compute).
  rewrite List.forallb_forall in Hall. apply list_elem_of_In in Hr. specialize (Hall r Hr). rewrite Hh in Hall. by apply bool_decide_eq_true in Hall.
Qed.
Lemma request_uid_param h vars q podName r :
  pod_request h vars q = Some (podName, r) →
  for_pod h = true ∧ podName = param "name" vars ∧ (Handlers.request_uid r = "" ∨ Handlers.request_uid r = param "uid" vars).
Proof. destruct h; cbn; try done; intros [= <- <-]; cbn; auto. Qed.

Lemma scraped_host forRuntime t : scraped forRuntime = Some t → t = "".
Proof. unfold scraped. by repeat case_match; intros [= <-]. Qed.

(** C5: what a request to the kubelet server of a virtual node can reach. A handler runs only while the device is connected, on the clean
    path of a request. When it acts on the device, then either it collects the metrics of the device, or reads the log of its host called ".*",
    for a GET of exactly the path of those; or the name it is for is one of the segments of the path, and then it acts on the host and its
    peripherals only when that is the name of the node, and otherwise on one pod, whose uid is in the path or which is the tenant's pod of that name;
    and its command goes through the runtime exactly when it is for a pod. *)
Theorem kubelet_requests_isolated clean d method path h vars q t :
  serve clean d method path = Call h vars → acts_on path h vars q = Some t →
  d = false ∧ clean path = path ∧
  match pod_request h vars q with
  | None => t = "" ∧ method = "GET" ∧
      ((h = NodeMetrics ∧ path = "/metrics") ∨ (h = ContainerMetrics ∧ path = "/metrics/cadvisor") ∨ (h = HostLog ∧ path = "/logs/.*"))
  | Some (podName, r) =>
      podName ∈ split_on slash path ∧
      Handlers.routed (Handlers.handle nodeName tenantNS logDir podCache is_file podName r) ∧
      ((podName = nodeName ∧ t = "") ∨
       (podName ≠ nodeName ∧ t ≠ "" ∧
        (t ∈ split_on slash path ∨ ∃ pod, PodCache.GetByName tenantNS podName podCache = Some pod ∧ pod_UID pod = t)))
  end.
Proof.
  intros Hs Ha. pose proof Hs as (-> & Hc & rt & Hrt & <- & _ & Hm)%serve_Call. split; [done|]. split; [done|]. unfold acts_on in Ha.
  destruct (pod_request _ _ _) as [ [podName r]|] eqn:Hp.
  - apply request_uid_param in Hp as (Hh & -> & Hu). destruct (match_segs_defined _ _ _ "name" (pod_routes_named rt Hrt Hh) Hm) as [n Hn].
    destruct (match_segs_vars _ _ _ _ _ Hm Hn) as [Hin _]. apply Handlers.requests_isolated in Ha as (Hr & Ht).
    split; [unfold param; by rewrite Hn|]. split; [done|].
    destruct Ht as [Ht|(Hne & Ht0 & Ht)]; [by left|right]. split; [done|]. split; [done|]. destruct Ht as [->|Ht]; [left|by right].
    destruct Hu as [E|E]; [by rewrite E in Ht0|]. rewrite E in *. by destruct (param_segment _ _ _ "uid" Hm).
  - destruct (rt_Handler rt) eqn:Eh; try done.
    + apply host_logs_unreachable in Hs as [-> ->]. injection Ha as <-. split_and!; [done..|]. by right; right.
    + apply (literal_route _ _ _ _ _ _ "/metrics") in Hs as [-> ->]; [|by repeat constructor|by vm_compute]. apply scraped_host in Ha as ->. split_and!; [done..|]. by left.
    + apply (literal_route _ _ _ _ _ _ "/metrics/cadvisor") in Hs as [-> ->]; [|by repeat constructor|by vm_compute]. apply scraped_host in Ha as ->. split_and!; [done..|]. by right; left.
Qed.
End Handlers.

(** *** The requests the API server makes *)
Definition pod_vars (ns pod : string) (rest : gmap string string) : gmap string string := <["namespace" := ns]> (<["name" := pod]> rest).
Section Requests.
Context (clean : string → string) (d : bool) (ns pod uid container : string).
(** cleanPath keeps a path of names, with or without a slash at the end. *)
Hypothesis (Hclean : ∀ segs, Forall segment segs → clean (path_of segs) = path_of segs ∧ clean (path_of (segs ++ [""])) = path_of (segs ++ [""])).
Hypothesis (Hns : segment ns) (Hpod : segment pod) (Huid : segment uid) (Hctr : segment container).
(** A handler at a path of names, and its redirection when it ends with a slash *)
Definition served_at (method : string) (segs : list string) (h : Handler) (vars : gmap string string) : Prop :=
  serve clean d method (path_of segs) = checked d (Call h vars) ∧ serve clean d method (path_of (segs ++ [""])) = checked d Redirect.

Lemma served_at_segs method segs h vars :
  Forall segment segs →
  find d false routes method ("" :: segs) = checked d (Call h vars) → find d false routes method ("" :: segs ++ [""]) = checked d Redirect →
  served_at method segs h vars.
Proof.
  intros Hs H1 H2. destruct (Hclean segs Hs) as [C1 C2]. unfold served_at, serve. rewrite !decide_True by done.
  assert (Forall (λ s, has_char slash s = false) segs) as Hs' by (eapply Forall_impl; [exact Hs|by intros x (_ & ? & _)]).
  rewrite split_path by done. rewrite split_path; [done|]. apply Forall_app. by split; [|repeat constructor].
Qed.
Ltac serve_pod :=
  apply served_at_segs; [repeat (apply Forall_cons; split; [first [assumption | by split_and!]|]); by apply Forall_nil|by vm_compute|by vm_compute].

(** The kubelet server serves what the API server asks for: the logs, executions, attachments and port forwards of a pod, with and without
    its uid, reach their handler with the names of the path, and with a slash at the end are redirected; while the device is away every one of
    them is answered as unavailable. *)
Lemma pod_requests_served :
  let vars := pod_vars ns pod in
  served_at "GET" ["containerLogs"; ns; pod; container] PodLog (vars {["container" := container]}) ∧
  (∀ prefix h, (prefix, h) ∈ [("exec", PodExec); ("attach", PodAttach); ("run", PodExec)] →
    served_at "POST" [prefix; ns; pod; container] h (vars {["container" := container]}) ∧
    served_at "POST" [prefix; ns; pod; uid; container] h (vars {["uid" := uid; "container" := container]})) ∧
  served_at "POST" ["portForward"; ns; pod] PodPortForward (vars ∅) ∧
  served_at "POST" ["portForward"; ns; pod; uid] PodPortForward (vars {["uid" := uid]}).
Proof.
  pose proof Hns as [Hn1 _]. pose proof Hpod as [Hp1 _]. pose proof Huid as [Hu1 _]. pose proof Hctr as [Hc1 _].
  destruct ns as [|na n]; [done|]. destruct pod as [|pa p]; [done|]. destruct uid as [|ua u]; [done|]. destruct container as [|ca c]; [done|].
  split; [serve_pod|]. split; [|split; serve_pod].
  intros prefix h H. repeat (apply elem_of_cons in H as [ [= -> ->]|H]; [split; serve_pod|]). by apply elem_of_nil in H.
Qed.
End Requests.
End Routes.

(** ** The life of a virtual node *)
Module Lifecycle.
Module Conn := Connectivity.Manager.
Module Vn := VirtualNode.VnManager.

(** The routine of Start that serves the device: where it is. It waits on the channel it has read, not on the one there is later. *)
Inductive Loop := Checking | WaitConnected (c : nat) | Serving | Served | WaitDisconnected (c : nat) | Leaving | Exited.
(** The connectivity manager, the manager of all virtual nodes, the routine and whether the context of the node is cancelled *)
Record Node := { conn : Conn.baseManager; vm : Vn.Manager; loop : Loop; cancelled : bool }.
Definition set_loop (l : Loop) (n : Node) : Node := {| conn := conn n; vm := vm n; loop := l; cancelled := cancelled n |}.
Definition set_vm (m : Vn.Manager) (n : Node) : Node := {| conn := conn n; vm := m; loop := loop n; cancelled := cancelled n |}.
Definition set_both (r : Conn.baseManager * Vn.Manager) (n : Node) : Node :=
  {| conn := r.1; vm := r.2; loop := loop n; cancelled := cancelled n |}.

Section Lifecycle.
(** The node, and whether its devices connect over a message queue: the manager of one disconnects the devices when it closes, that of gRPC
    leaves it to the streams, which end. *)
Context (vn : Vn.VirtualNode) (mq : bool).

(** handleGlobalMsg, STATE_ONLINE: the callback of OnConnected is the first sync, which rejects the device when it fails. *)
Definition online (id : string) (i : Vn.Initial) (n : Node) : outcome Node :=
  '(m, ok) ← Vn.OnVirtualNodeConnected vn i (vm n);
  '(c, m) ← (if ok : bool then Ret (conn n, m) else Conn.onReject (λ m, m) (conn n) m);
  r ← Conn.OnConnected (λ m, (m, if ok : bool then if decide (id = "") then "default" else id else "")) c m;
  Ret (set_both r n).
(** STATE_OFFLINE *)
Definition offline (id : string) (now : Z) (n : Node) : outcome Node :=
  r ← Conn.OnDisconnected (λ m, (m, id, false)) now (conn n) (vm n); Ret (set_both r n).

(** ForceClose: the connectivity manager closes, and the context is cancelled. *)
Definition force_close (now : Z) (n : Node) : outcome Node :=
  '(c, m) ← (if mq then Conn.OnDisconnected (λ m, (m, "", true)) now (conn n) (vm n) else Ret (conn n, vm n));
  let '(c, m) := Conn.onClose (λ m, m) c m in
  Ret {| conn := c; vm := m; loop := loop n; cancelled := true |}.
(** What every routine of Start does when it ends: VirtualnodeManager.Delete(name), which closes the node it finds. *)
Definition delete_node (now : Z) (n : Node) : outcome Node :=
  match Vn.Get (Vn.name vn) (vm n) with
  | None => Ret n
  | Some _ => force_close now (set_vm (Vn.Delete (Vn.name vn) (vm n)) n)
  end.

(** One move of the routine. Of the two signals of a select that are both there Go takes any: [ctx_first]; [sync] is the error of
    ScheduleNodeSync. A routine that waits stays where it is. *)
Definition loop_step (ctx_first : bool) (sync : option string) (now : Z) (n : Node) : outcome Node :=
  let ready c := bool_decide (c ∈ Conn.b_closed (conn n)) in
  match loop n with
  | Checking => if cancelled n then n ← delete_node now n; Ret (set_loop Exited n) else Ret (set_loop (WaitConnected (Conn.Connected (conn n))) n)
  | WaitConnected c =>
      if cancelled n && (ctx_first || negb (ready c)) then n ← delete_node now n; Ret (set_loop Exited n)
      else Ret (if ready c then set_loop Serving n else n)
  | Serving =>
      let m := Vn.call (Vn.ScheduleNodeSync (Vn.name vn)) (vm n) in
      match sync with
      | None => Ret (set_loop Served (set_vm m n))
      | Some _ =>
          r ← Conn.onReject (λ m, m) (conn n)
                (Vn.call (Vn.Reject (Vn.name vn) Vn.REJECTION_INTERNAL_SERVER_ERROR "mirror node sync failure") m);
          Ret (set_loop Served (set_both r n))
      end
  | Served => Ret (set_loop (WaitDisconnected (Conn.Disconnected (conn n))) n)
  | WaitDisconnected c => Ret (if cancelled n || ready c then set_loop Leaving n else n)
  | Leaving => m ← Vn.OnVirtualNodeDisconnected vn (vm n); Ret (set_loop Checking (set_vm m n))
  | Exited => Ret n
  end.
Fixpoint loop_steps (k : nat) (n : Node) : outcome Node :=
  match k with O => Ret n | S k => n ← loop_step false None 0 n; loop_steps k n end.

(** Everything that can happen, in any order; [StepWork]: the timers and consumers of the manager, and the other nodes. *)
Inductive step (n : Node) : Node → Prop :=
  | StepOnline id i n' : online id i n = Ret n' → step n n'
  | StepOffline id now n' : offline id now n = Ret n' → step n n'
  | StepLoop first sync now n' : loop_step first sync now n = Ret n' → step n n'
  | StepDelete now n' : delete_node now n = Ret n' → step n n'
  | StepReject r : Conn.onReject (λ m, m) (conn n) (vm n) = Ret r → step n (set_both r n)
  | StepWork m' : Vn.step (vm n) m' → step n (set_vm m' n).
Inductive reachable (n0 : Node) : Node → Prop :=
  | reach_init : reachable n0 n0
  | reach_next n n' : reachable n0 n → step n n' → reachable n0 n'.

Definition devices (n : Node) : gset string := Conn.b_connectedDevices (conn n).
Definition waiting_on (n : Node) (c : nat) (current : Conn.baseManager → nat) : Prop := c ∈ Conn.b_closed (conn n) ∨ c = current (conn n).
Record inv (n : Node) : Prop := {
  inv_signals : Conn.signals_ok (conn n); inv_vm : Vn.wf (vm n);
  inv_loop : cancelled n = false →
             match loop n with
             | WaitConnected c => waiting_on n c Conn.b_connected
             | WaitDisconnected c => waiting_on n c Conn.b_disconnected
             | _ => True
             end;
  inv_ctx : Conn.b_ctxDone (conn n) = true → cancelled n = true
}.

(** *** How the signals change: a channel is replaced only when it is closed, and none opens again *)
Definition evolves (m m' : Conn.baseManager) : Prop :=
  Conn.b_closed m ⊆ Conn.b_closed m' ∧
  (Conn.b_connected m' = Conn.b_connected m ∨ Conn.b_connected m ∈ Conn.b_closed m') ∧
  (Conn.b_disconnected m' = Conn.b_disconnected m ∨ Conn.b_disconnected m ∈ Conn.b_closed m') ∧
  Conn.b_ctxDone m' = Conn.b_ctxDone m.
Lemma evolves_refl m : evolves m m.
Proof. unfold evolves. split_and!; auto. Qed.
Lemma evolves_trans m1 m2 m3 : evolves m1 m2 → evolves m2 m3 → evolves m1 m3.
Proof.
  intros (A1 & A2 & A3 & A4) (B1 & B2 & B3 & B4). unfold evolves. rewrite B4, A4. split; [by etrans|].
  split; [|split; [|done] ]; [destruct A2 as [E|?], B2 as [E'|?]|destruct A3 as [E|?], B3 as [E'|?] ]; rewrite ?E in *; auto; right; set_solver.
Qed.
Lemma close_evolves c m m' : Conn.close_chan c m = Ret m' → evolves m m' ∧ Conn.b_closed m' = {[c]} ∪ Conn.b_closed m ∧
  Conn.b_connectedDevices m' = Conn.b_connectedDevices m.
Proof. unfold Conn.close_chan. case_decide; [done|]. intros [= <-]. unfold evolves. cbn. split_and!; auto. set_solver. Qed.

Lemma OnConnected_evolves (f : Vn.Manager → Vn.Manager * string) m w m' w' :
  Conn.signals_ok m → Conn.OnConnected f m w = Ret (m', w') → evolves m m' ∧ w' = (f w).1.
Proof.
  intros Hok. unfold Conn.OnConnected. destruct (f w) as [w1 id]. cbn [fst].
  case_decide; [intros [= <- <-]; split; [apply evolves_refl|done]|].
  destruct (Conn.b_stopped m); [intros [= <- <-]; split; [apply evolves_refl|done]|]. rewrite Conn.size_zero.
  set (m1 := Conn.set_devices _ m). assert (evolves m m1) as H1 by (unfold evolves; cbn; split_and!; auto).
  case_bool_decide as Hd; cbn [negb]; [|by intros [= <- <-] ].
  change (Conn.b_ctxDone m1) with (Conn.b_ctxDone m). destruct (Conn.b_ctxDone m); [by intros [= <- <-]|].
  case_decide; [by intros [= <- <-]|]. destruct (Conn.close_chan _ m1) as [m2| |] eqn:E; cbn [mbind outcome_bind]; [|done..].
  intros [= <- <-]. split; [|done]. apply close_evolves in E as (H2 & Hc & _). apply (evolves_trans _ m1); [done|].
  destruct H2 as (A1 & A2 & A3 & A4). unfold evolves. cbn. rewrite A4. split; [done|]. split; [done|]. split; [|done].
  right. apply A1. cbn. by apply Hok.
Qed.
Lemma OnDisconnected_evolves (f : Vn.Manager → Vn.Manager * string * bool) now m w m' w' :
  Conn.signals_ok m → Conn.b_ctxDone m = false → Conn.OnDisconnected f now m w = Ret (m', w') →
  evolves m m' ∧ (w' = w ∨ w' = (f w).1.1).
Proof.
  intros Hok Hctx. unfold Conn.OnDisconnected. rewrite Conn.size_zero.
  case_bool_decide as Hd; [intros [= <- <-]; split; [apply evolves_refl|by left]|]. destruct (f w) as [ [w1 id] all].
  set (m1 := Conn.set_devices _ m). assert (evolves m m1) as H1 by (unfold evolves; cbn; split_and!; auto). rewrite Conn.size_zero.
  case_bool_decide as Hd1; cbn [negb]; [|intros [= <- <-]; by split; [|right] ].
  destruct (if decide _ then _ else _) as [m2| |] eqn:E; cbn [mbind outcome_bind]; [|done..]. intros [= <- <-]. split; [|by right].
  assert (evolves m1 m2) as H2 by (destruct (decide _); [injection E as <-; apply evolves_refl|by apply close_evolves in E as (? & _)]).
  apply (evolves_trans _ m1); [done|]. destruct H2 as (A1 & A2 & A3 & A4). unfold evolves. cbn. rewrite A4.
  split; [done|]. split; [|split; [|done] ].
  - right. apply A1. cbn. destruct Hok as (_ & _ & _ & _ & Hs & _). by apply (Hs Hctx).
  - done.
Qed.
Lemma OnDisconnected_same id all now m (w w' : Vn.Manager) m' : Conn.OnDisconnected (λ w, (w, id, all)) now m w = Ret (m', w') → w' = w.
Proof.
  unfold Conn.OnDisconnected. destruct (_ =? 0)%nat; [by intros [= _ <-]|]. destruct (negb _); [by intros [= _ <-]|].
  destruct (if decide _ then _ else _); cbn [mbind outcome_bind]; [by intros [= _ <-]|done..].
Qed.
Lemma onReject_evolves m w m' w' : Conn.onReject (λ m : Vn.Manager, m) m w = Ret (m', w') → evolves m m' ∧ w' = w.
Proof.
  unfold Conn.onReject. destruct (Conn.b_alreadyRejected m); [intros [= <- <-]; split; [apply evolves_refl|done]|].
  destruct (Conn.close_chan _ _) as [m2| |] eqn:E; cbn [mbind outcome_bind]; [|done..]. intros [= <- <-]. split; [|done].
  apply close_evolves in E as (H & _). destruct H as (A1 & A2 & A3 & A4). unfold evolves. cbn in *. auto.
Qed.

(** *** The invariant *)
Lemma inv_keep n n' :
  inv n → Conn.signals_ok (conn n') → Vn.wf (vm n') → loop n' = loop n → cancelled n' = cancelled n →
  (cancelled n = false → evolves (conn n) (conn n')) → inv n'.
Proof.
  intros Hn Hs Hv Hl Hc He. constructor; [done|done| |].
  - rewrite Hc, Hl. intros H. destruct (He H) as (E1 & E2 & E3 & _). pose proof (inv_loop n Hn H) as Hi. unfold waiting_on in *.
    destruct (loop n); try done; destruct Hi as [Hi| ->]; [left; by apply E1|naive_solver|left; by apply E1|naive_solver].
  - rewrite Hc. intros Hd. destruct (cancelled n) eqn:E; [done|]. destruct (He eq_refl) as (_ & _ & _ & E4). rewrite E4 in Hd.
    apply (inv_ctx n Hn) in Hd. congruence.
Qed.
Lemma inv_alive n : inv n → cancelled n = false → Conn.b_ctxDone (conn n) = false.
Proof. intros Hn Hc. destruct (Conn.b_ctxDone (conn n)) eqn:E; [|done]. apply (inv_ctx n Hn) in E. congruence. Qed.

Lemma reject_ok n m : inv n → Vn.wf m →
  ∃ c, Conn.onReject (λ m, m) (conn n) m = Ret (c, m) ∧ Conn.signals_ok c ∧ evolves (conn n) c ∧ inv (set_both (c, m) n) ∧
    Conn.b_connectedDevices c = devices n.
Proof.
  intros Hn Hm. destruct (Conn.onReject_ok (λ m : Vn.Manager, m) (conn n) m (inv_signals n Hn)) as (c & w & E & Hc).
  pose proof (onReject_evolves _ _ _ _ E) as [He ->]. exists c. split; [done|]. split; [done|]. split; [done|].
  split; [by apply (inv_keep n)|]. revert E. unfold Conn.onReject, devices. destruct (Conn.b_alreadyRejected (conn n)); [by intros [= <-] |].
  destruct (Conn.close_chan _ _) eqn:E; cbn [mbind outcome_bind]; [|done..]. intros [= <-]. by apply close_evolves in E as (_ & _ & ->).
Qed.
Lemma online_ok id i n : inv n →
  ∃ n', online id i n = Ret n' ∧ inv n' ∧ loop n' = loop n ∧ cancelled n' = cancelled n ∧ evolves (conn n) (conn n') ∧
    ∃ b, Vn.OnVirtualNodeConnected vn i (vm n) = Ret (vm n', b).
Proof.
  intros Hn. unfold online. destruct (Vn.connected_wf vn i (vm n) (inv_vm n Hn)) as (m & b & Hc & Hm & _). rewrite Hc. cbn [mbind outcome_bind].
  assert (∃ c, (if b then Ret (conn n, m) else Conn.onReject (λ m, m) (conn n) m) = Ret (c, m) ∧ Conn.signals_ok c ∧ evolves (conn n) c) as (c & -> & Hs & He).
  { destruct b; [exists (conn n); split; [done|]; split; [apply Hn|apply evolves_refl]|].
    destruct (reject_ok n m Hn Hm) as (c & E & Hs & He & _). by exists c. }
  cbn [mbind outcome_bind]. set (f := λ m : Vn.Manager, _). destruct (Conn.OnConnected_ok f c m Hs) as (c' & w & E & Hs').
  rewrite E. cbn [mbind outcome_bind]. pose proof (OnConnected_evolves _ _ _ _ _ Hs E) as [He' Hw]. cbn in Hw. subst w.
  pose proof (evolves_trans _ _ _ He He'). eexists. split; [done|]. split; [by apply (inv_keep n)|]. by split_and!; [..|exists b].
Qed.
Lemma offline_ok id now n : inv n →
  ∃ n', offline id now n = Ret n' ∧ inv n' ∧ loop n' = loop n ∧ cancelled n' = cancelled n ∧ vm n' = vm n ∧
    (cancelled n = false → evolves (conn n) (conn n')).
Proof.
  intros Hn. unfold offline. set (f := λ m : Vn.Manager, (m, id, false)).
  destruct (Conn.OnDisconnected_ok f now (conn n) (vm n) (inv_signals n Hn)) as (c & w & E & Hs). rewrite E. cbn [mbind outcome_bind].
  apply OnDisconnected_same in E as H. subst w.
  assert (cancelled n = false → evolves (conn n) c) as He by (intros Hc; by apply (OnDisconnected_evolves _ _ _ _ _ _ (inv_signals n Hn) (inv_alive n Hn Hc) E)).
  eexists. split; [done|]. split; [apply (inv_keep n); try done; apply Hn|]. by split_and!.
Qed.
Lemma delete_ok now n : inv n → ∃ n', delete_node now n = Ret n' ∧ inv n' ∧ loop n' = loop n ∧ (cancelled n = true → cancelled n' = true).
Proof.
  intros Hn. unfold delete_node. destruct (Vn.Get _ _); [|by exists n]. unfold force_close. cbn [set_vm conn vm].
  set (m0 := Vn.Delete _ _).
  assert (∃ c, (if mq then Conn.OnDisconnected (λ m, (m, "", true)) now (conn n) m0 else Ret (conn n, m0)) = Ret (c, m0) ∧ Conn.signals_ok c)
    as (c & -> & Hs).
  { destruct mq; [|exists (conn n); split; [done|apply Hn] ]. set (f := λ m : Vn.Manager, (m, "", true)).
    destruct (Conn.OnDisconnected_ok f now (conn n) m0 (inv_signals n Hn)) as (c & w & E & Hs). exists c. split; [|done]. rewrite E.
    apply OnDisconnected_same in E as H. by subst w. }
  cbn [mbind outcome_bind].
  destruct (Conn.run_signal_op_ok (Conn.Close (λ m : Vn.Manager, m)) c m0 Hs) as (c' & w & E' & Hs'). cbn [Conn.run_signal_op] in E'.
  destruct (Conn.onClose _ _ _) as [c1 w1] eqn:E1. injection E' as -> ->. eexists. split; [done|]. split; [|done].
  assert (w = m0) as -> by (revert E1; unfold Conn.onClose; by destruct (Conn.b_stopped c); intros [= _ <-]).
  constructor; cbn; [done| |done|done]. destruct (Vn.manager_step_wf (vm n) m0 (inv_vm n Hn)) as [Hw _]; [apply Vn.StepDelete|done].
Qed.

(** A move that leaves the signals alone. *)
Lemma inv_moved n l m :
  inv n → Vn.wf m →
  (cancelled n = false → match l with WaitConnected c => waiting_on n c Conn.b_connected | WaitDisconnected c => waiting_on n c Conn.b_disconnected | _ => True end) →
  inv (set_loop l (set_vm m n)).
Proof. intros Hn Hm Hl. constructor; cbn; [apply Hn|done|exact Hl|apply Hn]. Qed.
Lemma loop_ok first sync now n : inv n → ∃ n', loop_step first sync now n = Ret n' ∧ inv n'.
Proof.
  intros Hn. pose proof (inv_vm n Hn) as Hv.
  assert (∀ l, (cancelled n = false → match l with WaitConnected c => waiting_on n c Conn.b_connected | WaitDisconnected c => waiting_on n c Conn.b_disconnected | _ => True end) →
    inv (set_loop l n)) as Hmove by (intros l Hl; exact (inv_moved n l (vm n) Hn Hv Hl)).
  assert (∃ n', (n ← delete_node now n; Ret (set_loop Exited n)) = Ret n' ∧ inv n') as Hexit.
  { destruct (delete_ok now n Hn) as (n1 & -> & H1 & _). eexists. split; [done|]. by apply (inv_moved n1 Exited (vm n1) H1 (inv_vm n1 H1)). }
  unfold loop_step. destruct (loop n) as [|c| | |c| |] eqn:El.
  - destruct (cancelled n); [done|]. eexists. split; [done|]. apply Hmove. intros _. by right.
  - destruct (cancelled n && _); [done|]. eexists. split; [done|]. case_bool_decide; [by apply Hmove|done].
  - destruct sync as [e|].
    + destruct (reject_ok n (Vn.call (Vn.Reject (Vn.name vn) Vn.REJECTION_INTERNAL_SERVER_ERROR "mirror node sync failure")
        (Vn.call (Vn.ScheduleNodeSync (Vn.name vn)) (vm n))) Hn) as (c & -> & _ & _ & Hi & _); [by do 2 apply Vn.call_wf|].
      cbn [mbind outcome_bind]. eexists. split; [done|]. set (n1 := set_both _ n) in *. by apply (inv_moved n1 Served (vm n1) Hi (inv_vm n1 Hi)).
    + eexists. split; [done|]. apply inv_moved; [done|by apply Vn.call_wf|done].
  - eexists. split; [done|]. apply Hmove. intros _. by right.
  - eexists. split; [done|]. destruct (cancelled n || _); [by apply Hmove|done].
  - destruct (Vn.disconnect_spec vn (vm n) Hv) as (m & -> & Hm & _). cbn [mbind outcome_bind]. eexists. split; [done|]. by apply inv_moved.
  - by exists n.
Qed.
Lemma step_inv n n' : inv n → step n n' → inv n'.
Proof.
  intros Hn Hs. destruct Hs as [id i n' E|id now n' E|first sync now n' E|now n' E|r E|m' E].
  - destruct (online_ok id i n Hn) as (n1 & E1 & H & _). congruence.
  - destruct (offline_ok id now n Hn) as (n1 & E1 & H & _). congruence.
  - destruct (loop_ok first sync now n Hn) as (n1 & E1 & H). congruence.
  - destruct (delete_ok now n Hn) as (n1 & E1 & H & _). congruence.
  - destruct (reject_ok n (vm n) Hn (inv_vm n Hn)) as (c & E1 & _ & _ & H & _). rewrite E in E1. by injection E1 as ->.
  - destruct (Vn.manager_step_wf (vm n) m' (inv_vm n Hn) E) as [Hw _].
    exact (inv_moved n (loop n) m' Hn Hw (inv_loop n Hn)).
Qed.

(** A virtual node that has been created: no device yet, the loop about to start. *)
Definition created (n : Node) : Prop :=
  (∃ now config, Conn.newBaseManager now config = Ok (conn n)) ∧ Vn.wf (vm n) ∧ loop n = Checking ∧ cancelled n = false.
Lemma created_inv n : created n → inv n.
Proof.
  intros ((now & config & E) & Hv & Hl & Hc). constructor; [by eapply Conn.newBaseManager_ok|done|by rewrite Hl|].
  revert E. unfold Conn.newBaseManager. destruct (Conn.transport_size config); [|done]. destruct (_ <=? 0); [done|]. intros [= <-]. done.
Qed.
Lemma reachable_inv n0 n : created n0 → reachable n0 n → inv n.
Proof. intros H0. induction 1 as [|n n' _ IH Hs]; [by apply created_inv|by eapply step_inv]. Qed.

(** The loop waits for nothing. *)
Definition blocked (n : Node) : Prop :=
  match loop n with WaitConnected c | WaitDisconnected c => cancelled n = false ∧ c ∉ Conn.b_closed (conn n) | Exited => True | _ => False end.
Lemma blocked_for_good n : inv n → cancelled n = false → blocked n →
  match loop n with WaitConnected _ => devices n = ∅ | WaitDisconnected _ => devices n ≠ ∅ | _ => True end.
Proof.
  intros Hn Hc Hb. unfold blocked in Hb. pose proof (inv_loop n Hn Hc) as Hi. pose proof (inv_alive n Hn Hc) as Ha.
  destruct (inv_signals n Hn) as (_ & _ & _ & _ & Hs & _). destruct (Hs Ha) as [Hs1 Hs2]. unfold waiting_on, devices in *.
  destruct (loop n) as [|c| | |c| |]; try done; destruct Hb as [_ Hb], Hi as [?| ->]; try done.
  - destruct (decide (Conn.b_connectedDevices (conn n) = ∅)); [done|]. by apply Hs1 in n0.
  - intros He. by apply Hs2 in He.
Qed.

(** The devices have gone: the loop takes the node out of the periodic work. *)
Lemma gone_node_rests n :
  inv n → cancelled n = false → devices n = ∅ → loop n ∈ [Serving; Served; Leaving] ∨ (∃ c, loop n = WaitDisconnected c) →
  Vn.all_started (vm n) →
  ∃ k n', (k <= 4)%nat ∧ loop_steps k n = Ret n' ∧ loop n' = Checking ∧ devices n' = ∅ ∧ Vn.resting (Vn.name vn) (vm n').
Proof.
  intros Hn Hc Hd Hl Hst. destruct (inv_signals n Hn) as (_ & _ & _ & _ & Hs & _). destruct (Hs (inv_alive n Hn Hc)) as [_ Hs2].
  pose proof (proj2 Hs2 Hd) as Hdis. clear Hs Hs2.
  assert (∀ n, Vn.wf (vm n) → Vn.all_started (vm n) → loop n = Leaving → devices n = ∅ →
    ∃ n', loop_steps 1 n = Ret n' ∧ loop n' = Checking ∧ devices n' = ∅ ∧ Vn.resting (Vn.name vn) (vm n')) as Hleave.
  { intros n1 Hv1 Hst1 E1 Hd1. cbn [loop_steps]. unfold loop_step. rewrite E1.
    destruct (Vn.disconnect_spec vn (vm n1) Hv1) as (m & -> & _ & Hu & _). cbn [mbind outcome_bind].
    eexists. split; [done|]. split; [done|]. split; [done|]. by apply (Vn.unavailable_resting _ (vm n1)). }
  assert (∀ n c, Vn.wf (vm n) → Vn.all_started (vm n) → loop n = WaitDisconnected c → c ∈ Conn.b_closed (conn n) → devices n = ∅ →
    ∃ n', loop_steps 2 n = Ret n' ∧ loop n' = Checking ∧ devices n' = ∅ ∧ Vn.resting (Vn.name vn) (vm n')) as Hwait.
  { intros n1 c Hv1 Hst1 E1 Hc1 Hd1.
    assert (loop_step false None 0 n1 = Ret (set_loop Leaving n1)) as E.
    { unfold loop_step. rewrite E1. rewrite (bool_decide_true (c ∈ _)) by done. by rewrite orb_true_r. }
    destruct (Hleave (set_loop Leaving n1)) as (n' & En & Hr); [done|done|done|done|]. exists n'. split; [|done].
    change (loop_steps 2 n1) with (n ← loop_step false None 0 n1; loop_steps 1 n). rewrite E. exact En. }
  assert (∀ n, Vn.wf (vm n) → Vn.all_started (vm n) → loop n = Served → Conn.b_disconnected (conn n) ∈ Conn.b_closed (conn n) → devices n = ∅ →
    ∃ n', loop_steps 3 n = Ret n' ∧ loop n' = Checking ∧ devices n' = ∅ ∧ Vn.resting (Vn.name vn) (vm n')) as Hserved.
  { intros n1 Hv1 Hst1 E1 Hc1 Hd1.
    assert (loop_step false None 0 n1 = Ret (set_loop (WaitDisconnected (Conn.b_disconnected (conn n1))) n1)) as E by (unfold loop_step; by rewrite E1).
    destruct (Hwait (set_loop (WaitDisconnected (Conn.b_disconnected (conn n1))) n1) (Conn.b_disconnected (conn n1))) as (n' & En & Hr); [done..|].
    exists n'. split; [|done]. change (loop_steps 3 n1) with (n ← loop_step false None 0 n1; loop_steps 2 n). rewrite E. exact En. }
  pose proof (inv_vm n Hn) as Hv. destruct Hl as [Hl|[c Hl] ].
  - apply elem_of_cons in Hl as [Hl|[Hl|[Hl|Hl%elem_of_nil]%elem_of_cons]%elem_of_cons]; [| | |done].
    + set (n1 := set_loop Served (set_vm (Vn.call (Vn.ScheduleNodeSync (Vn.name vn)) (vm n)) n)).
      assert (loop_step false None 0 n = Ret n1) as E by (unfold loop_step; by rewrite Hl).
      destruct (Hserved n1) as (n' & En & Hr); [by apply Vn.call_wf|done|done|done|done|]. exists 4%nat, n'. split; [lia|]. split; [|done].
      change (loop_steps 4 n) with (n ← loop_step false None 0 n; loop_steps 3 n). rewrite E. exact En.
    + destruct (Hserved n) as (n' & En & Hr); [done..|]. exists 3%nat, n'. split; [lia|done].
    + destruct (Hleave n) as (n' & En & Hr); [done..|]. exists 1%nat, n'. split; [lia|done].
  - pose proof (inv_loop n Hn Hc) as Hi. rewrite Hl in Hi.
    destruct (Hwait n c) as (n' & En & Hr); [done|done|done|destruct Hi as [?| ->]; done|done|]. exists 2%nat, n'. split; [lia|done].
Qed.

(** C8: the loop of a virtual node follows its devices, whatever the devices, the other routines and the other nodes do and in whatever order.
    From its creation on no signal is closed twice, so that no callback and no move of the loop panics. While the node lives, a loop that
    waits for a device has none to serve, and one that waits for its departure still has a device: no signal is lost. Once the last device
    has gone, a loop that was serving is back at its start after at most four moves, and the name of the node is refused by all the queues of
    the periodic work. *)
Theorem loop_follows_devices n0 n :
  created n0 → reachable n0 n →
  (∀ id i, ∃ n', online id i n = Ret n') ∧ (∀ id now, ∃ n', offline id now n = Ret n') ∧
  (∀ first sync now, ∃ n', loop_step first sync now n = Ret n') ∧
  (cancelled n = false →
    (blocked n → match loop n with WaitConnected _ => devices n = ∅ | WaitDisconnected _ => devices n ≠ ∅ | _ => True end) ∧
    (devices n = ∅ → Vn.all_started (vm n) → loop n ∈ [Serving; Served; Leaving] ∨ (∃ c, loop n = WaitDisconnected c) →
     ∃ k n', (k <= 4)%nat ∧ loop_steps k n = Ret n' ∧ loop n' = Checking ∧ devices n' = ∅ ∧ Vn.resting (Vn.name vn) (vm n'))).
Proof.
  intros H0 Hr. pose proof (reachable_inv n0 n H0 Hr) as Hn. split; [|split; [|split] ].
  - intros id i. destruct (online_ok id i n Hn) as (n' & E & _). by exists n'.
  - intros id now. destruct (offline_ok id now n Hn) as (n' & E & _). by exists n'.
  - intros first sync now. destruct (loop_ok first sync now n Hn) as (n' & E & _). by exists n'.
  - intros Hc. split; [by apply blocked_for_good|]. intros Hd Hst Hl. by apply gone_node_rests.
Qed.
End Lifecycle.
End Lifecycle.

Module NodeExamples.
Import Lifecycle.
Definition dev : Vn.VirtualNode := VnManager.dev.
Definition sync0 : Vn.Initial := VnManager.first_sync.
Definition conn0 : Conn.baseManager :=
  match Conn.newBaseManager 5 Connectivity.Examples.grpc_only with Ok m => m | _ => Connectivity.Examples.new_grpc end.
Definition node0 : Node := {| conn := conn0; vm := VirtualNodeExamples.m0; loop := Checking; cancelled := false |}.
Definition move (n : Node) : outcome Node := loop_step dev true false None 0 n.
(** The device comes, is served, and goes. *)
Definition came : outcome Node := n ← online dev "a" sync0 node0; n ← move n; n ← move n; n ← move n; move n.
Definition gone : outcome Node := n ← came; offline "a" 9 n.
(** The device comes back before the loop has moved. *)
Definition back : outcome Node := n ← gone; n ← online dev "a" sync0 n; loop_steps dev true 6 n.
Definition work (n : Node) : list string * list string := (Key <$> Remains (Vn.nodeForceSyncQ (vm n)), Key <$> Remains (Vn.leaseUpdateQ (vm n))).
Example serves : (n ← came; Ret (loop n, work n)) = Ret (WaitDisconnected 3, (["dev"], ["dev"])).
Proof. by vm_compute. Qed.
(** A device that comes back before the loop has taken the node out of the periodic work: the loop then does, and serves the device without.
    One update of the node and one renewal of its lease, those of the connection before, are still to come, and when they are offered again
    the queues refuse them. *)
Example comes_back_too_soon :
  (n ← back; Ret (loop n, bool_decide (devices n = ∅), bool_decide ("dev" ∈ blackList (Vn.leaseUpdateQ (vm n))), work n)) =
    Ret (WaitDisconnected 6, false, true, (["dev"], ["dev"])).
Proof. by vm_compute. Qed.

Lemma node0_created : created node0.
Proof.
  split; [by exists 5, Connectivity.Examples.grpc_only|]. split; [exact VirtualNodeExamples.m0_wf|done].
Qed.
Definition returned (n : Node) (r : outcome Node) : Node := match r with Ret n' => n' | _ => n end.
Lemma returned_eq n r : is_Ret r = true → r = Ret (returned n r).
Proof. by destruct r. Qed.
Definition n1 : Node := returned node0 (online dev "a" sync0 node0).
Definition n2 : Node := returned node0 (move n1).
Definition n3 : Node := returned node0 (move n2).
Definition n4 : Node := returned node0 (move n3).
Definition n5 : Node := returned node0 (move n4).
Definition node_gone : Node := returned node0 (offline "a" 9 n5).
Lemma moves n : is_Ret (move n) = true → reachable dev true node0 n → reachable dev true node0 (returned node0 (move n)).
Proof. intros H Hr. eapply reach_next; [exact Hr|]. eapply (StepLoop dev true n false None 0). exact (returned_eq node0 _ H). Qed.
Lemma node_gone_reachable : reachable dev true node0 node_gone.
Proof.
  assert (reachable dev true node0 n1) as H1.
  { eapply reach_next; [apply reach_init|]. eapply (StepOnline dev true node0 "a" sync0). unfold n1. apply returned_eq. vm_compute. reflexivity. }
  assert (reachable dev true node0 n2) as H2 by (unfold n2; apply moves; [vm_compute; reflexivity|exact H1]).
  assert (reachable dev true node0 n3) as H3 by (unfold n3; apply moves; [vm_compute; reflexivity|exact H2]).
  assert (reachable dev true node0 n4) as H4 by (unfold n4; apply moves; [vm_compute; reflexivity|exact H3]).
  assert (reachable dev true node0 n5) as H5 by (unfold n5; apply moves; [vm_compute; reflexivity|exact H4]).
  eapply reach_next; [exact H5|]. eapply (StepOffline dev true n5 "a" 9). unfold node_gone. apply returned_eq. vm_compute. reflexivity.
Qed.
Lemma loop_follows_devices_witness :
  loop node_gone = WaitDisconnected 3 ∧ devices node_gone = ∅ ∧
  ∃ k n', (k <= 4)%nat ∧ loop_steps dev true k node_gone = Ret n' ∧ loop n' = Checking ∧ devices n' = ∅ ∧ Vn.resting "dev" (vm n').
Proof.
  assert (cancelled node_gone = false ∧ loop node_gone = WaitDisconnected 3 ∧ devices node_gone = ∅ ∧ Vn.all_started (vm node_gone))
    as (Hc & Hl & Hd & Hs).
  { split; [reflexivity|]. split; [reflexivity|]. split; [apply (bool_decide_unpack (devices node_gone = ∅)); vm_compute; exact I|]. vm_compute. tauto. }
  split; [exact Hl|]. split; [exact Hd|].
  destruct (loop_follows_devices dev true node0 node_gone node0_created node_gone_reachable) as (_ & _ & _ & H).
  apply (H Hc); [exact Hd|exact Hs|right; exists 3%nat; exact Hl].
Defined.

(** An execution for a pod, and one for the host *)
Definition path0 : string := "/exec/default/web/c".
Definition q0 : Routes.Query :=
  {| Routes.q_now := 0; Routes.q_logs := Err "no log"; Routes.q_flusher := true; Routes.q_command := ["ls"]; Routes.q_streams := PodHttpExamples.streams;
     Routes.q_protocol := ""; Routes.q_ports := Ok [] |}.
Lemma kubelet_requests_isolated_witness :
  "web" ∈ split_on slash path0 ∧
  (∃ pod, PodCache.GetByName (pod_Namespace PodHttpExamples.web) "web" PodHttpExamples.cache = Some pod ∧ pod_UID pod = "u1") ∧
  Routes.serve id false "GET" "/metrics" = Routes.Call Routes.NodeMetrics ∅.
Proof.
  destruct (Routes.kubelet_requests_isolated "node" (pod_Namespace PodHttpExamples.web) "/log" PodHttpExamples.cache (λ _, false)
    MetricsExamples.inflate MetricsExamples.decode MetricsExamples.m0 false (Err "")
    id false "POST" path0 Routes.PodExec {["namespace" := "default"; "name" := "web"; "container" := "c"]} q0
    "u1") as (_ & _ & Hin & _ & [ [H _]|(_ & _ & [H|H])]); [by vm_compute|by vm_compute|done| |by split_and!; [| |vm_compute] ].
  exfalso. assert (bool_decide ("u1" ∈ split_on slash path0) = false) as E by (by vm_compute). by rewrite bool_decide_eq_false in E.
Defined.
Lemma pod_requests_served_witness :
  Routes.served_at id false "GET" ["containerLogs"; "default"; "web"; "c"] Routes.PodLog
    (Routes.pod_vars "default" "web" {["container" := "c"]}).
Proof.
  apply (Routes.pod_requests_served id false "default" "web" "u1" "c"); [by intros segs _|by split_and!..].
Defined.
End NodeExamples.
