(* ===== verification/Shutdown.v ===== *)
(** * The routines of a virtual node and their end

    src/pkg/virtualnode/node.go: VirtualNode.Start starts a routine for each part of the node and one that serves the device (Lifecycle of
    Node.v). What each of them waits for is in the Start of its manager: storage/manager.go, network/manager.go, pod/manager.go,
    metrics/manager.go, peripheral/manager.go, connectivity/mgr_grpc.go and mgr_mq.go. A routine that ends deletes the virtual node, which
    closes everything the others wait for: the node works as a whole or not at all. The work for a device that has connected is that of
    PodControllers.v, Metrics.v and Peripheral.v; what the peripheral manager does beside it, and the messages, are not followed here. *)
From S2P Require Import Prelude TimeoutQueue Connectivity VirtualNode Node.
From stdpp Require Import functions.
Open Scope Z_scope.

Module Shutdown.
Import Node.Lifecycle.

(** The routines of Start but for the one that serves the device *)
Inductive Routine := Kubelet | ConnectivityManager | StorageManager | NetworkManager | PodManager | MetricsManager | PeripheralManager | GlobalMessages.
#[export] Instance Routine_eq : EqDecision Routine.
Proof. solve_decision. Defined.
(** Where a routine is. Serving: in Serve, Run or a wait without another way out; a loop that waits does so on the channel it has read. *)
Inductive Pos := Absent | Starting | Serving_ | Checking_ | WaitConnected_ (c : nat) | Working | WaitDisconnected_ (c : nat) | Ended.
Record Virtual := { life : Lifecycle.Node; pos : Routine → Pos }.
Definition with_life (n : Lifecycle.Node) (v : Virtual) : Virtual := {| life := n; pos := pos v |}.
Definition goes (r : Routine) (p : Pos) (v : Virtual) : Virtual := {| life := life v; pos := <[r := p]> (pos v) |}.

(** VirtualNode.Start; there is a storage manager when the storage is enabled. *)
Definition Start (storage : bool) : Routine → Pos := λ r,
  match r with
  | Kubelet | ConnectivityManager | NetworkManager | GlobalMessages => Serving_
  | StorageManager => if storage then Serving_ else Absent
  | PodManager => Starting
  | MetricsManager | PeripheralManager => Checking_
  end.

(** What decides how a routine goes on: of two signals that are both there a select takes any; the work for a device that has connected is
    done or still going on; what it serves fails. *)
Record Choice := { ctx_first : bool; done_ : bool; fails : bool; now : Z }.

Section Shutdown.
Context (vn : Vn.VirtualNode) (mq : bool).
(** The deferred function of each routine *)
Definition ends (r : Routine) (ch : Choice) (v : Virtual) : outcome Virtual :=
  n ← delete_node vn mq (now ch) (life v); Ret (goes r Ended (with_life n v)).
(** The network manager and the manager of a message queue only wait for their contexts. *)
Definition can_fail (r : Routine) : bool := match r with Kubelet | StorageManager => true | ConnectivityManager => negb mq | _ => false end.
Definition move (r : Routine) (ch : Choice) (v : Virtual) : outcome Virtual :=
  let closed := cancelled (life v) in
  let ready c := bool_decide (c ∈ Conn.b_closed (conn (life v))) in
  match pos v r with
  | Absent | Ended => Ret v
  | Starting => if fails ch then ends r ch v else Ret (goes r Checking_ v)
  | Serving_ =>
      if decide (r = GlobalMessages) then Ret v                                  (* the channel of global messages is never closed *)
      else if closed || (fails ch && can_fail r) then ends r ch v else Ret v
  | Checking_ => if closed then ends r ch v else Ret (goes r (WaitConnected_ (Conn.Connected (conn (life v)))) v)
  | WaitConnected_ c =>
      if closed && (ctx_first ch || negb (ready c)) then ends r ch v else Ret (if ready c then goes r Working v else v)
  | Working => Ret (if done_ ch then goes r (WaitDisconnected_ (Conn.Disconnected (conn (life v)))) v else v)
  | WaitDisconnected_ c =>
      if decide (r = PodManager) then Ret (if closed || ready c then goes r Checking_ v else v)
      else if closed && (ctx_first ch || negb (ready c)) then ends r ch v else Ret (if ready c then goes r Checking_ v else v)
  end.

(** Everything that can happen, with whose move it is; a routine moves in earnest when its work is not still going on. [SWork]: the timers
    and consumers of the manager of virtual nodes and the other nodes; to delete this node is [SDelete], whoever does it. *)
Inductive Label := LDevice | LRoutine (r : Routine) (done : bool) | LOther.
#[export] Instance Label_eq : EqDecision Label.
Proof. solve_decision. Defined.
Inductive step (v : Virtual) : Label → Virtual → Prop :=
  | SRoutine r ch v' : move r ch v = Ret v' → step v (LRoutine r (done_ ch)) v'
  | SDevice first sync t n' : loop_step vn mq first sync t (life v) = Ret n' → step v LDevice (with_life n' v)
  | SOnline id i n' : online vn id i (life v) = Ret n' → step v LOther (with_life n' v)
  | SOffline id t n' : offline id t (life v) = Ret n' → step v LOther (with_life n' v)
  | SReject r : Conn.onReject (λ m, m) (conn (life v)) (vm (life v)) = Ret r → step v LOther (with_life (set_both r (life v)) v)
  | SDelete t n' : delete_node vn mq t (life v) = Ret n' → step v LOther (with_life n' v)
  | SWork m' : Vn.step (vm (life v)) m' → Vn.Get (Vn.name vn) m' = Vn.Get (Vn.name vn) (vm (life v)) → step v LOther (with_life (set_vm m' (life v)) v).
Inductive runs : Virtual → list Label → Virtual → Prop :=
  | runs_none v : runs v [] v
  | runs_step v l v1 ls v2 : step v l v1 → runs v1 ls v2 → runs v (l :: ls) v2.
Definition in_table (m : Vn.Manager) : Prop := is_Some (Vn.Get (Vn.name vn) m).
(** The virtual node as it is added and started *)
Definition created (storage : bool) (v : Virtual) : Prop := Lifecycle.created (life v) ∧ in_table (vm (life v)) ∧ pos v = Start storage.
Definition inv (v : Virtual) : Prop :=
  Lifecycle.inv (life v) ∧
  (cancelled (life v) = false → in_table (vm (life v)) ∧ loop (life v) ≠ Exited ∧ ∀ r, pos v r ≠ Ended).

(** *** What becomes of the node *)
Lemma get_kept m n : Vn.nodes m = Vn.nodes n → Vn.Get (Vn.name vn) m = Vn.Get (Vn.name vn) n.
Proof. unfold Vn.Get. by intros ->. Qed.
Lemma connected_nodes i m m' b : Vn.wf m → Vn.OnVirtualNodeConnected vn i m = Ret (m', b) → Vn.nodes m' = Vn.nodes m.
Proof.
  intros Hm. unfold Vn.OnVirtualNodeConnected, Vn.connect, Vn.reject.
  assert (∀ s m b m', Vn.schedule vn i s m = Ret (m', b) → Vn.nodes m' = Vn.nodes m) as Hs.
  { clear. intros s m b m'. unfold Vn.schedule, Vn.reject. destruct (if _ <? _ then _ else _) as [a [e|] ]; [by intros [= <- <-]|].
    destruct (if _ && _ then _ else _) as [a' [e|] ]; [by intros [= <- <-]|].
    destruct (Vn.leaseEnabled _); (destruct (Vn.forget _ _) as [q| |]; cbn [mbind outcome_bind]; [|done..]);
      destruct (OfferWithDelay _ _ _ _ _) as [? [?|] ]; by intros [= <- <-]. }
  assert (∀ m m', Vn.OnVirtualNodeDisconnected vn m = Ret m' → Vn.nodes m' = Vn.nodes m) as Hd.
  { clear. intros m m'. unfold Vn.OnVirtualNodeDisconnected, Vn.doPerQueue.
    do 4 destruct (Vn.forget _ _); cbn [mbind outcome_bind]; try done. by intros [= <-]. }
  cbn [Vn.doPerQueue mbind outcome_bind].
  assert (∀ r : outcome (Vn.Manager * bool), (∀ m1 b1, r = Ret (m1, b1) → Vn.nodes m1 = Vn.nodes m) →
    ('(m, allow) ← r; if allow : bool then Ret (m, true) else m ← Vn.OnVirtualNodeDisconnected vn m; Ret (m, false)) = Ret (m', b) → Vn.nodes m' = Vn.nodes m) as H.
  { intros [ [m1 [|] ]| |] Hr; cbn [mbind outcome_bind]; [by intros [= <- <-]; eapply Hr| |done..].
    destruct (Vn.OnVirtualNodeDisconnected vn m1) eqn:E; cbn [mbind outcome_bind]; [|done..]. intros [= <- <-]. rewrite (Hd _ _ E). by eapply Hr. }
  apply H. intros m1 b1. destruct (Vn.nodeSync i); [by intros [= <- <-]|].
  destruct (Vn.podSync i) as [ [ [|] ?]|]; [by intros E%Hs|by intros [= <- <-]|by intros E%Hs].
Qed.
(** To delete the node closes it, unless it has been. *)
Lemma delete_spec t n : Lifecycle.inv n → (cancelled n = false → in_table (vm n)) →
  ∃ n', delete_node vn mq t n = Ret n' ∧ Lifecycle.inv n' ∧ loop n' = loop n ∧ cancelled n' = true.
Proof.
  intros Hn Ht. destruct (delete_ok vn mq t n Hn) as (n' & E & Hn' & Hl & Hc). exists n'. split_and!; [done..|].
  destruct (cancelled n) eqn:Ec; [by apply Hc|]. destruct (Ht eq_refl) as [x Hx]. revert E. unfold delete_node, force_close. rewrite Hx.
  destruct (if mq then _ else _) as [ [c m]| |]; cbn [mbind outcome_bind]; [|done..]. destruct (Conn.onClose _ _ _). by intros [= <-].
Qed.
Lemma exit_spec t n : Lifecycle.inv n → (cancelled n = false → in_table (vm n)) →
  ∃ n', (n ← delete_node vn mq t n; Ret (set_loop Exited n)) = Ret n' ∧ loop n' = Exited ∧ cancelled n' = true.
Proof. intros Hn Ht. destruct (delete_spec t n Hn Ht) as (n' & -> & _ & _ & Hc). eexists. split; [done|]. by split. Qed.

(** What a step leaves of the rest: a node that is closed stays so; one that is not stays in the table. *)
Record kept (n n' : Lifecycle.Node) : Prop := {
  k_cancelled : cancelled n = true → cancelled n' = true; k_table : cancelled n' = false → in_table (vm n) → in_table (vm n')
}.
Lemma kept_same n n' : cancelled n' = cancelled n → Vn.Get (Vn.name vn) (vm n') = Vn.Get (Vn.name vn) (vm n) → kept n n'.
Proof. intros Hc Hg. split; [congruence|unfold in_table; by rewrite Hg]. Qed.
Lemma loop_kept first sync t n n' : Lifecycle.inv n → (cancelled n = false → in_table (vm n)) →
  loop_step vn mq first sync t n = Ret n' → kept n n' ∧ (loop n' = Exited → loop n = Exited ∨ cancelled n' = true).
Proof.
  intros Hn Ht. destruct (exit_spec t n Hn Ht) as (n1 & He & Hl1 & Hc1). unfold loop_step. destruct (loop n) as [|c| | |c| |] eqn:El; cbn [mbind outcome_bind].
  - destruct (cancelled n) eqn:Ec.
    + rewrite He. intros [= <-]. split; [split; [done|by rewrite Hc1]|by right].
    + intros [= <-]. split; [by apply kept_same|done].
  - destruct (cancelled n && _) eqn:Ec.
    + rewrite He. intros [= <-]. split; [split; [done|by rewrite Hc1]|by right].
    + intros [= <-]. by case_bool_decide; (split; [by apply kept_same|]); cbn; rewrite ?El.
  - destruct sync as [e|].
    + destruct (reject_ok n (Vn.call (Vn.Reject (Vn.name vn) Vn.REJECTION_INTERNAL_SERVER_ERROR "mirror node sync failure")
        (Vn.call (Vn.ScheduleNodeSync (Vn.name vn)) (vm n))) Hn) as (c & -> & _); [by do 2 apply Vn.call_wf; apply Hn|].
      cbn [mbind outcome_bind]. intros [= <-]. split; [by apply kept_same|done].
    + intros [= <-]. split; [by apply kept_same|done].
  - intros [= <-]. split; [by apply kept_same|done].
  - intros [= <-]. destruct (_ || _); (split; [by apply kept_same|]); cbn; by rewrite ?El.
  - destruct (Vn.disconnect_spec vn (vm n) (inv_vm n Hn)) as (m & -> & _ & _ & Hm & _). cbn [mbind outcome_bind]. intros [= <-].
    split; [apply kept_same; [done|by apply get_kept]|done].
  - intros [= <-]. split; [by apply kept_same|by left].
Qed.
(** How a routine moves: it stays, goes somewhere else, or ends and closes the node. *)
Lemma move_kept r ch v : inv v →
  ∃ v', move r ch v = Ret v' ∧ inv v' ∧ kept (life v) (life v') ∧ loop (life v') = loop (life v) ∧ ∀ r', r' ≠ r → pos v' r' = pos v r'.
Proof.
  intros [Hn Ho].
  assert (∀ p, p ≠ Ended → let v' := goes r p v in inv v' ∧ kept (life v) (life v') ∧ loop (life v') = loop (life v) ∧ ∀ r', r' ≠ r → pos v' r' = pos v r') as Hgo.
  { intros p Hp. split_and!; [split; [done|]|by apply kept_same|done|intros; by apply fn_lookup_insert_ne]. cbn. intros Hc.
    destruct (Ho Hc) as (? & ? & Hpos). split_and!; [done..|]. intros r'. destruct (decide (r = r')) as [<-|]; [by rewrite fn_lookup_insert|by rewrite fn_lookup_insert_ne]. }
  assert (inv v ∧ kept (life v) (life v) ∧ loop (life v) = loop (life v) ∧ ∀ r', r' ≠ r → pos v r' = pos v r') as Hstay
    by (split_and!; [done|by apply kept_same|done..]).
  assert (∃ v', ends r ch v = Ret v' ∧ inv v' ∧ kept (life v) (life v') ∧ loop (life v') = loop (life v) ∧ ∀ r', r' ≠ r → pos v' r' = pos v r') as Hend.
  { destruct (delete_spec (now ch) (life v) Hn) as (n' & E & Hn' & Hl & Hc); [by intros Hc; apply Ho|]. unfold ends. rewrite E. eexists. split; [done|]. cbn.
    split_and!; [split; [done|cbn; congruence]|split; [done|congruence]|done|intros; by apply fn_lookup_insert_ne]. }
  unfold move. destruct (pos v r) as [| | | |c| |c|] eqn:Ep.
  - by exists v.
  - destruct (fails ch); [done|]. eexists. split; [done|by apply Hgo].
  - destruct (decide (r = GlobalMessages)); [by exists v|]. destruct (cancelled (life v) || _); [done|by exists v].
  - destruct (cancelled (life v)); [done|]. eexists. split; [done|by apply Hgo].
  - destruct (cancelled (life v) && _); [done|]. eexists. split; [done|]. by case_bool_decide; [apply Hgo|].
  - eexists. split; [done|]. by destruct (done_ ch); [apply Hgo|].
  - destruct (decide (r = PodManager)).
    + eexists. split; [done|]. by destruct (cancelled (life v) || _); [apply Hgo|].
    + destruct (cancelled (life v) && _); [done|]. eexists. split; [done|]. by case_bool_decide; [apply Hgo|].
  - by exists v.
Qed.

(** Every step leaves the invariant, and moves at most the routine that makes it. *)
Lemma with_life_inv v n' : inv v → Lifecycle.inv n' → kept (life v) n' → (loop n' = Exited → loop (life v) = Exited ∨ cancelled n' = true) →
  inv (with_life n' v).
Proof.
  intros [Hn Ho] Hn' [Hk1 Hk2] Hl. split; [done|]. cbn. intros Hc.
  assert (cancelled (life v) = false) as Hv by (destruct (cancelled (life v)); [by rewrite Hk1 in Hc|done]).
  destruct (Ho Hv) as (Ht & He & Hp). split_and!; [by apply Hk2|intros [?|?]%Hl; congruence|done].
Qed.
Lemma step_spec v l v' : inv v → step v l v' →
  inv v' ∧ kept (life v) (life v') ∧ (l ≠ LDevice → loop (life v') = loop (life v)) ∧
  ∀ r, (∀ b, l ≠ LRoutine r b) → pos v' r = pos v r.
Proof.
  intros Hi Hs. pose proof Hi as [Hn Ho].
  assert (∀ n', Lifecycle.inv n' → kept (life v) n' → loop n' = loop (life v) →
    inv (with_life n' v) ∧ kept (life v) n' ∧ (l ≠ LDevice → loop n' = loop (life v)) ∧ ∀ r, (∀ b, l ≠ LRoutine r b) → pos v r = pos v r) as Hother.
  { intros n' Hn' Hk Hl. split_and!; [|done..]. apply with_life_inv; [done..|]. rewrite Hl. by left. }
  destruct Hs as [r ch v' E|first sync t n' E|id i n' E|id t n' E|r E|t n' E|m' Hw Hg].
  - destruct (move_kept r ch v Hi) as (v1 & E1 & H & Hk & Hl & Hp). rewrite E in E1. injection E1 as <-. split_and!; [done..|].
    intros r' Hr. apply Hp. intros ->. by destruct (Hr (done_ ch)).
  - destruct (loop_kept first sync t (life v) n' Hn) as [Hk Hl]; [by intros Hc; apply Ho|done|].
    destruct (loop_ok vn mq first sync t (life v) Hn) as (n1 & E1 & Hn1). rewrite E in E1. injection E1 as <-.
    split_and!; [by apply with_life_inv|done..].
  - destruct (online_ok vn id i (life v) Hn) as (n1 & E1 & Hn1 & Hl & Hc & _ & b & Hcon). rewrite E in E1. injection E1 as <-.
    apply Hother; [done| |done]. apply kept_same; [done|]. by eapply get_kept, connected_nodes; [apply Hn|].
  - destruct (offline_ok id t (life v) Hn) as (n1 & E1 & Hn1 & Hl & Hc & Hv & _). rewrite E in E1. injection E1 as <-.
    apply Hother; [done| |done]. apply kept_same; [done|cbn; by rewrite Hv].
  - destruct (reject_ok (life v) (vm (life v)) Hn (inv_vm _ Hn)) as (c & E1 & _ & _ & Hn1 & _). rewrite E in E1. injection E1 as ->.
    apply Hother; [done| |done]. by apply kept_same.
  - destruct (delete_spec t (life v) Hn) as (n1 & E1 & Hn1 & Hl & Hc); [by intros Hc; apply Ho|]. rewrite E in E1. injection E1 as <-.
    apply Hother; [done| |done]. split; cbn; [done|congruence].
  - apply Hother; [|by apply kept_same|done].
    destruct (Vn.manager_step_wf (vm (life v)) m' (inv_vm _ Hn) Hw) as [Hm _]. exact (inv_moved _ (loop (life v)) m' Hn Hm (inv_loop _ Hn)).
Qed.
Lemma started_inv storage v : created storage v → inv v.
Proof.
  intros (Hc & Ht & Hp). split; [by apply created_inv|]. intros _. split_and!; [done|by destruct Hc as (_ & _ & -> & _)|]. rewrite Hp.
  intros []; cbn; try done. by destruct storage.
Qed.
Lemma runs_spec v ls v' : inv v → runs v ls v' → inv v' ∧ (cancelled (life v) = true → cancelled (life v') = true).
Proof.
  intros Hi Hr. induction Hr as [v|v l v1 ls v2 Hs _ IH]; [done|]. destruct (step_spec v l v1 Hi Hs) as (Hi1 & [Hc _] & _ & _).
  destruct (IH Hi1) as [Hi2 Hc2]. split; [done|auto].
Qed.

(** *** The end: how many moves a routine of a closed node has left at most *)
Definition left (p : Pos) : nat :=
  match p with Absent | Ended => 0 | Serving_ | Checking_ => 1 | Starting | WaitDisconnected_ _ => 2 | Working => 3 | WaitConnected_ _ => 4 end.
Lemma left_bound p : (left p <= 4)%nat.
Proof. destruct p; cbn; lia. Qed.
Definition left_loop (l : Loop) : nat :=
  match l with Exited => 0 | Checking => 1 | Leaving => 2 | WaitDisconnected _ => 3 | Served => 4 | Serving => 5 | WaitConnected _ => 6 end.
Lemma ends_left r ch v v' : ends r ch v = Ret v' → pos v' r = Ended.
Proof. unfold ends. destruct (delete_node _ _ _ _); cbn; [|done..]. intros [= <-]. cbn. by rewrite fn_lookup_insert. Qed.
Lemma move_left r ch v v' : cancelled (life v) = true → r ≠ GlobalMessages → move r ch v = Ret v' →
  (left (pos v' r) <= left (pos v r) - if done_ ch then 1 else 0)%nat.
Proof.
  intros Hc Hr. assert (∀ p, pos (goes r p v) r = p) as Hp by (intros p; apply fn_lookup_insert).
  assert (∀ n, (ends r ch v = Ret v' → (left (pos v' r) <= S n - if done_ ch then 1 else 0)%nat)) as He.
  { intros n ->%ends_left. cbn. lia. }
  unfold move. rewrite Hc. destruct (pos v r) as [| | | |c| |c|] eqn:Ep; cbn [left orb andb].
  - intros [= <-]. rewrite Ep. cbn. lia.
  - destruct (fails ch); [apply He|]. intros [= <-]. rewrite Hp. cbn. destruct (done_ ch); lia.
  - rewrite decide_False by done. apply He.
  - apply He.
  - destruct (_ || _) eqn:E; [apply He|]. apply orb_false_iff in E as [_ E]. apply negb_false_iff in E. rewrite E.
    intros [= <-]. rewrite Hp. cbn. destruct (done_ ch); lia.
  - destruct (done_ ch); intros [= <-]; rewrite ?Hp, ?Ep; cbn; lia.
  - destruct (decide (r = PodManager)); [intros [= <-]; rewrite Hp; cbn; destruct (done_ ch); lia|].
    destruct (_ || _) eqn:E; [apply He|]. apply orb_false_iff in E as [_ E]. apply negb_false_iff in E. rewrite E.
    intros [= <-]. rewrite Hp. cbn. destruct (done_ ch); lia.
  - intros [= <-]. rewrite Ep. cbn. lia.
Qed.
Lemma loop_left first sync t n n' : Lifecycle.inv n → cancelled n = true → loop_step vn mq first sync t n = Ret n' →
  (left_loop (loop n') <= left_loop (loop n) - 1)%nat.
Proof.
  intros Hn Hc. destruct (exit_spec t n Hn) as (n1 & He & Hl1 & _); [by rewrite Hc|]. unfold loop_step. rewrite Hc. destruct (loop n) as [|c| | |c| |] eqn:El; cbn [andb orb].
  - rewrite He. intros [= <-]. rewrite Hl1. cbn. lia.
  - destruct (_ || _) eqn:E; [rewrite He; intros [= <-]; rewrite Hl1; cbn; lia|]. apply orb_false_iff in E as [_ E]. apply negb_false_iff in E. rewrite E.
    intros [= <-]. cbn. lia.
  - destruct sync; [destruct (Conn.onReject _ _ _); cbn [mbind outcome_bind]; [|done..]|]; intros [= <-]; cbn; lia.
  - intros [= <-]. cbn. lia.
  - intros [= <-]. cbn. lia.
  - destruct (Vn.OnVirtualNodeDisconnected _ _); cbn [mbind outcome_bind]; [|done..]. intros [= <-]. cbn. lia.
  - intros [= <-]. rewrite El. cbn. lia.
Qed.
Definition moves (l : Label) (ls : list Label) : nat := length (filter (l =.) ls).
Lemma moves_cons l l' ls : moves l (l' :: ls) = ((if decide (l = l') then 1 else 0) + moves l ls)%nat.
Proof. unfold moves. rewrite filter_cons. by destruct (decide (l = l')). Qed.
Lemma runs_left v ls v' : inv v → cancelled (life v) = true → runs v ls v' →
  (∀ r, r ≠ GlobalMessages → (left (pos v' r) <= left (pos v r) - moves (LRoutine r true) ls)%nat) ∧
  (left_loop (loop (life v')) <= left_loop (loop (life v)) - moves LDevice ls)%nat.
Proof.
  intros Hi Hc Hr. induction Hr as [v|v l v1 ls v2 Hs _ IH]; [split; intros; cbn; lia|].
  destruct (step_spec v l v1 Hi Hs) as (Hi1 & [Hc1 _] & Hl & Hp). destruct (IH Hi1 (Hc1 Hc)) as [IHr IHl]. split.
  - intros r Hr. specialize (IHr r Hr). rewrite moves_cons. assert (left (pos v1 r) <= left (pos v r) - if decide (LRoutine r true = l) then 1 else 0)%nat; [|lia].
    destruct (decide (∃ b, l = LRoutine r b)) as [ [b ->]|Hn].
    + inversion Hs as [r' ch v' E| | | | | |]; subst. pose proof (move_left r ch v v1 Hc Hr E) as Hm. destruct (done_ ch).
      * by rewrite decide_True.
      * by rewrite decide_False.
    + rewrite Hp by (intros b ->; apply Hn; by exists b). rewrite decide_False by (intros <-; apply Hn; by exists true). lia.
  - rewrite moves_cons. assert (left_loop (loop (life v1)) <= left_loop (loop (life v)) - if decide (LDevice = l) then 1 else 0)%nat; [|lia].
    destruct (decide (LDevice = l)) as [<-|Hn]; [|rewrite Hl by done; lia].
    inversion Hs as [|first sync t n' E| | | | |]; subst. destruct Hi as [Hn _]. exact (loop_left first sync t (life v) n' Hn Hc E).
Qed.

(** C9: The routines of a virtual node, over every interleaving of their moves with devices that come and go, the periodic work and the
    deletion of the node. The node works as a whole: as long as it is not closed it is in the table and every routine goes on, the one that
    serves the device too, so that none of them ends without the others. And a node that has been closed, whoever did it, comes to rest: each
    routine has ended after at most four moves of its own, the one that serves the device after six, whatever the others do in between;
    except for the one that takes the global messages. No move panics or waits for ever. *)
Theorem closed_node_ends storage v0 ls v :
  created storage v0 → runs v0 ls v →
  (∀ r ch, ∃ v1, move r ch v = Ret v1) ∧
  (cancelled (life v) = false → in_table (vm (life v)) ∧ loop (life v) ≠ Exited ∧ ∀ r, pos v r ≠ Ended) ∧
  (cancelled (life v) = true → ∀ ls' v', runs v ls' v' →
    (∀ r, r ≠ GlobalMessages → (4 <= moves (LRoutine r true) ls')%nat → pos v' r = Ended ∨ pos v' r = Absent) ∧
    ((6 <= moves LDevice ls')%nat → loop (life v') = Exited)).
Proof.
  intros Hi%started_inv Hr. destruct (runs_spec v0 ls v Hi Hr) as [Hv _]. split; [|split].
  - intros r ch. destruct (move_kept r ch v Hv) as (v1 & E & _). by exists v1.
  - apply Hv.
  - intros Hc ls' v' Hr'. destruct (runs_left v ls' v' Hv Hc Hr') as [Hl Hd]. split.
    + intros r Hne Hm. specialize (Hl r Hne). assert (left (pos v' r) = 0%nat) as H0 by (pose proof (left_bound (pos v r)); lia).
      destruct (pos v' r); try done; auto.
    + intros Hm. assert (left_loop (loop (life v')) = 0%nat) as H0 by (destruct (loop (life v)); cbn in Hd; lia). by destruct (loop (life v')).
Qed.
(** The routine that takes the global messages never ends: nothing closes their channel. *)
Lemma global_messages_never_end storage v0 ls v : created storage v0 → runs v0 ls v → pos v GlobalMessages = Serving_.
Proof.
  intros Hi Hr. assert (pos v0 GlobalMessages = Serving_) as Hp by (destruct Hi as (_ & _ & ->); done). apply started_inv in Hi.
  induction Hr as [v|v l v1 ls v2 Hs _ IH]; [done|]. destruct (step_spec v l v1 Hi Hs) as (Hi1 & _ & _ & Hk). apply IH; [done|].
  destruct (decide (∃ b, l = LRoutine GlobalMessages b)) as [ [b ->]|Hn]; [|rewrite Hk; [done|intros b ->; apply Hn; by exists b] ].
  inversion Hs as [r ch v' E| | | | | |]; subst. unfold move in E. rewrite Hp in E. cbn in E. by injection E as <-.
Qed.
End Shutdown.
End Shutdown.

(** ** Examples: a node over a message queue, closed while its metrics manager waits for a device *)
Module ShutdownExamples.
Import Node.Lifecycle Shutdown.
Definition dev : Vn.VirtualNode := NodeExamples.dev.
Definition m0 : Vn.Manager := match Vn.Add dev VirtualNodeExamples.m0 with Ret (m, _) => m | _ => VirtualNodeExamples.m0 end.
Definition v0 : Virtual := {| life := set_vm m0 NodeExamples.node0; pos := Start false |}.
Definition ch0 : Choice := {| ctx_first := true; done_ := true; fails := false; Shutdown.now := 0 |}.
Definition moved (r : Routine) (v : Virtual) : Virtual := match move dev true r ch0 v with Ret v => v | _ => v end.
Definition looped (v : Virtual) : Virtual := match loop_step dev true true None 0 (life v) with Ret n => with_life n v | _ => v end.
Definition closed (v : Virtual) : Virtual := match delete_node dev true 0 (life v) with Ret n => with_life n v | _ => v end.
Definition v1 : Virtual := closed (looped (moved MetricsManager v0)).
Definition v2 : Virtual := Nat.iter 4 (moved MetricsManager) (Nat.iter 6 looped v1).
Lemma moved_step r v : is_Ret (move dev true r ch0 v) = true → step dev true v (LRoutine r true) (moved r v).
Proof. unfold moved. destruct (move dev true r ch0 v) eqn:E; [|done..]. intros _. by apply (SRoutine dev true v r ch0). Qed.
Lemma looped_step v : is_Ret (loop_step dev true true None 0 (life v)) = true → step dev true v LDevice (looped v).
Proof. unfold looped. destruct (loop_step _ _ _ _ _ _) eqn:E; [|done..]. intros _. by apply (SDevice dev true v true None 0). Qed.
Lemma closed_step v : is_Ret (delete_node dev true 0 (life v)) = true → step dev true v LOther (closed v).
Proof. unfold closed. destruct (delete_node _ _ _ _) eqn:E; [|done..]. intros _. by apply (SDelete dev true v 0). Qed.
Lemma v0_created : created dev false v0.
Proof.
  assert (Vn.wf m0) as Hm.
  { apply (Vn.manager_step_wf VirtualNodeExamples.m0 m0 VirtualNodeExamples.m0_wf). apply (Vn.StepAdd _ dev m0 None). vm_compute. reflexivity. }
  split; [|split; [|done] ]; [|eexists; vm_compute; reflexivity]. destruct NodeExamples.node0_created as (H1 & _ & H3 & H4). by split_and!.
Qed.
Lemma v1_runs : runs dev true v0 [LRoutine MetricsManager true; LDevice; LOther] v1.
Proof.
  eapply runs_step; [apply moved_step; vm_compute; reflexivity|]. eapply runs_step; [apply looped_step; vm_compute; reflexivity|].
  eapply runs_step; [apply closed_step; vm_compute; reflexivity|]. apply runs_none.
Qed.
Lemma v2_runs : runs dev true v1 (replicate 6 LDevice ++ replicate 4 (LRoutine MetricsManager true)) v2.
Proof.
  unfold v2. cbn [replicate app Nat.iter nat_rect].
  do 6 (eapply runs_step; [apply looped_step; vm_compute; reflexivity|]). do 4 (eapply runs_step; [apply moved_step; vm_compute; reflexivity|]). apply runs_none.
Qed.
Lemma closed_node_ends_witness :
  cancelled (life v1) = true ∧ loop (life v1) = WaitConnected 0 ∧ pos v1 MetricsManager = WaitConnected_ 0 ∧
  loop (life v2) = Exited ∧ (pos v2 MetricsManager = Ended ∨ pos v2 MetricsManager = Absent).
Proof.
  assert (cancelled (life v1) = true) as Hc by (vm_compute; reflexivity).
  split; [exact Hc|]. split; [vm_compute; reflexivity|]. split; [vm_compute; reflexivity|].
  destruct (closed_node_ends dev true false v0 _ v1 v0_created v1_runs) as (_ & _ & H). destruct (H Hc _ v2 v2_runs) as [Hr Hd].
  split; [apply Hd; vm_compute; lia|]. apply (Hr MetricsManager); [discriminate|vm_compute; lia].
Defined.
End ShutdownExamples.
