(* ===== verification/Process.v ===== *)
(** * The process: its configuration, its telemetry and its start

    src/pkg/cmd/aranya.go, src/pkg/conf/util.go, src/pkg/constant/env.go and src/pkg/util/manager/base_manager.go, with the expansion of variables of
    arhat.dev/pkg/envhelper (vendored). Reading files, YAML, the parsing of flags, logging and TLS are arguments; what a listener does is that
    of net/http. *)
From S2P Require Import Prelude GoNet PodResolve.
Open Scope Z_scope.

(** ** Variables of the environment in a text (envhelper.Expand) *)
Module EnvExpand.
Import PodResolve.Expansion(operator, referenceOpener, referenceCloser, drop_str, slice, drop_str_length, drop_str_drop, drop_str_cons, get_lt,
  slice_snoc, slice_self, slice_drop).

Definition braceOpener : Ascii.ascii := Ascii.ascii_of_nat 123.
Definition braceCloser : Ascii.ascii := Ascii.ascii_of_nat 125.
Definition isShellSpecialVar (a : Ascii.ascii) : bool := existsb (Ascii.eqb a) (String.list_ascii_of_string "*#$@!?-0123456789").
Definition isAlphaNum (a : Ascii.ascii) : bool :=
  let n := Ascii.nat_of_ascii a in (n =? 95)%nat || ((48 <=? n) && (n <=? 57))%nat || ((97 <=? n) && (n <=? 122))%nat || ((65 <=? n) && (n <=? 90))%nat.
Fixpoint alphanumerics (s : string) : string :=
  match s with String a s => if isAlphaNum a then String a (alphanumerics s) else EmptyString | EmptyString => EmptyString end.
(** What follows an opening brace: the name to the closing one, and what of the text after the dollar is used up *)
Definition scan (closer : Ascii.ascii) (rest : string) : string * nat :=
  match cut_at closer rest with
  | Some (name, _) => if bool_decide (name = "") then (EmptyString, 2%nat) else (name, (String.length name + 2)%nat)
  | None => (EmptyString, 1%nat)
  end.
Definition in_braces (closer : Ascii.ascii) (rest : string) : string * nat :=
  match rest with
  | String a (String b _) => if isShellSpecialVar a && bool_decide (b = closer) then (String a EmptyString, 3%nat) else scan closer rest
  | _ => scan closer rest
  end.
(** The name at the beginning of a text and its width; the text is not empty. *)
Definition getShellName (s : string) : string * nat :=
  match s with
  | EmptyString => (EmptyString, 0%nat)
  | String a rest =>
      if decide (a = referenceOpener) then in_braces referenceCloser rest
      else if decide (a = braceOpener) then in_braces braceCloser rest
      else if isShellSpecialVar a then (String a EmptyString, 1%nat)
      else let name := alphanumerics s in (name, String.length name)
  end.

(** The loop: [i] is where the text begins that is not copied yet. The buffer is nil until the first dollar. *)
Fixpoint expand_loop (fuel : nat) (mapping : string → string → string) (s : string) (buf : option string) (i j : nat) : string :=
  match fuel with
  | O => default "" buf +:+ drop_str i s
  | S fuel =>
      if decide (j < String.length s)%nat then
        if decide (String.get j s = Some operator ∧ (j + 1 < String.length s)%nat) then
          let b := default "" buf +:+ slice i j s in
          let '(name, w) := getShellName (drop_str (j + 1) s) in
          let b := if bool_decide (name = "" ∧ (0 < w)%nat) then b
                   else if bool_decide (name = "") then b +:+ String operator EmptyString
                   else b +:+ mapping name (slice j (j + w + 1) s) in
          expand_loop fuel mapping s (Some b) (j + w + 1) (j + w + 1)
        else expand_loop fuel mapping s buf i (j + 1)
      else match buf with None => s | Some b => b +:+ drop_str i s end
  end.
Definition Expand (s : string) (mapping : string → string → string) : string := expand_loop (String.length s) mapping s None 0 0.

(** *** The pieces of a text *)
Inductive Piece := Char (a : Ascii.ascii) | Var (name origin : string) | BadSyntax (origin : string).
Definition origin (p : Piece) : string := match p with Char a => String a EmptyString | Var _ o | BadSyntax o => o end.
Definition value (mapping : string → string → string) (p : Piece) : string :=
  match p with Char a => String a EmptyString | Var name o => mapping name o | BadSyntax _ => "" end.
Definition text (f : Piece → string) (l : list Piece) : string := foldr (λ p s, f p +:+ s) "" l.
Definition reference (rest : string) : Piece * nat :=
  let '(name, w) := getShellName rest in
  let o := String operator (slice 0 w rest) in
  (if bool_decide (name = "" ∧ (0 < w)%nat) then BadSyntax o else if bool_decide (name = "") then Char operator else Var name o, w).
Fixpoint lex (fuel : nat) (s : string) : list Piece :=
  match fuel, s with
  | S fuel, String a rest =>
      if decide (a = operator ∧ rest ≠ "") then let '(p, w) := reference rest in p :: lex fuel (drop_str w rest)
      else Char a :: lex fuel rest
  | _, _ => []
  end.
Definition pieces (s : string) : list Piece := lex (String.length s) s.

Lemma scan_bounds closer rest name w : scan closer rest = (name, w) → (1 ≤ w ≤ S (String.length rest))%nat.
Proof.
  unfold scan. destruct (cut_at closer rest) as [ [l r]|] eqn:Hc; [|intros [= <- <-]; lia].
  apply Expansion.cut_at_length in Hc. case_bool_decide; intros [= <- <-]; lia.
Qed.
Lemma alphanumerics_length s : (String.length (alphanumerics s) ≤ String.length s)%nat.
Proof. induction s as [|a s IH]; cbn; [lia|]. destruct (isAlphaNum a); cbn; lia. Qed.
Lemma getShellName_bounds s name w : getShellName s = (name, w) → (w ≤ String.length s)%nat ∧ (w = 0%nat → name = "").
Proof.
  destruct s as [|a rest]; cbn [getShellName String.length]; [by intros [= <- <-]|].
  assert (∀ closer, in_braces closer rest = (name, w) → (1 ≤ w ≤ S (String.length rest))%nat) as Hb.
  { intros closer. unfold in_braces. destruct rest as [|b [|c rest] ]; [apply scan_bounds..|].
    destruct (_ && _); [intros [= <- <-]; cbn; lia|apply scan_bounds]. }
  repeat case_decide; [intros ?%Hb; split; [lia|intros; lia]..|].
  destruct (isShellSpecialVar a); [intros [= <- <-]; split; [lia|done]|]. pose proof (alphanumerics_length (String a rest)) as Hl.
  cbn [String.length] in Hl. cbn zeta. intros [= <- <-]. split; [done|]. by destruct (isAlphaNum a).
Qed.
Lemma text_cons f p l : text f (p :: l) = f p +:+ text f l.
Proof. done. Qed.
Lemma slice_take w s : (w ≤ String.length s)%nat → slice 0 w s +:+ drop_str w s = s.
Proof. intros Hw. rewrite slice_drop by lia. done. Qed.
Lemma reference_spec rest p w : rest ≠ "" → reference rest = (p, w) →
  (w ≤ String.length rest)%nat ∧ origin p +:+ drop_str w rest = String operator rest.
Proof.
  intros Hne. unfold reference. destruct (getShellName rest) as [name w'] eqn:Hg. destruct (getShellName_bounds _ _ _ Hg) as [Hw H0].
  intros [= <- <-]. split; [done|].
  repeat case_bool_decide; cbn [origin]; rewrite ?str_app_cons, ?slice_take by done; try done.
  assert (w' = 0%nat) as -> by (destruct w'; [done|exfalso; naive_solver lia]). by rewrite str_app_nil.
Qed.
Lemma lex_fuel f g s : (String.length s ≤ f)%nat → (String.length s ≤ g)%nat → lex f s = lex g s.
Proof.
  revert g s. induction f as [|f IH]; intros g s Hf Hg; [destruct s; [by destruct g|cbn in Hf; lia]|].
  destruct s as [|a rest]; [by destruct g|]. destruct g as [|g]; [cbn in Hg; lia|]. cbn in Hf, Hg. cbn [lex]. case_decide as Ha.
  - destruct (reference rest) as [p w] eqn:Hr. f_equal. apply IH; rewrite drop_str_length; lia.
  - f_equal. apply IH; lia.
Qed.
(** No byte is lost or made up by cutting a text into pieces. *)
Lemma lex_lossless f s : (String.length s ≤ f)%nat → text origin (lex f s) = s.
Proof.
  revert s. induction f as [|f IH]; intros s Hf; [by destruct s; [|cbn in Hf; lia]|]. destruct s as [|a rest]; [done|]. cbn in Hf. cbn [lex]. case_decide as Ha.
  - destruct (reference rest) as [p w] eqn:Hr. destruct Ha as [-> Hne]. destruct (reference_spec _ _ _ Hne Hr) as [Hw Ho].
    rewrite text_cons, IH by (rewrite drop_str_length; lia). done.
  - rewrite text_cons, IH by lia. cbn [origin]. by rewrite str_app_cons, str_app_nil.
Qed.
Lemma drop_all s : drop_str (String.length s) s = "".
Proof. pose proof (drop_str_length (String.length s) s) as Hl. rewrite Nat.sub_diag in Hl. by destruct (drop_str _ s). Qed.
Lemma slice_to_end i s : (i ≤ String.length s)%nat → slice i (String.length s) s = drop_str i s.
Proof. intros Hi. rewrite <- (slice_drop i (String.length s) s) by lia. by rewrite drop_all, str_app_nil_r. Qed.
Lemma substring_drop j m s : String.substring j m s = String.substring 0 m (drop_str j s).
Proof. revert s. induction j as [|j IH]; intros [|a s]; cbn; try done. by destruct m. Qed.
Lemma slice_origin j w s : String.get j s = Some operator → slice j (j + 1 + w) s = String operator (slice 0 w (drop_str (j + 1) s)).
Proof.
  intros Hj. unfold slice. replace (j + 1 + w - j)%nat with (S w) by lia. rewrite Nat.sub_0_r, substring_drop. by rewrite (drop_str_cons _ _ _ Hj).
Qed.
Lemma expand_loop_pieces fuel mapping s buf i j :
  (i ≤ j ≤ String.length s)%nat → (String.length s - j ≤ fuel)%nat → (buf = None → i = 0%nat) →
  expand_loop fuel mapping s buf i j = default "" buf +:+ slice i j s +:+ text (value mapping) (lex fuel (drop_str j s)).
Proof.
  revert buf i j. induction fuel as [|fuel IH]; intros buf i j Hle Hf Hb; cbn [expand_loop].
  { assert (j = String.length s) as -> by lia. by rewrite slice_to_end, drop_all, str_app_nil_r by lia. }
  destruct (decide (j < String.length s)%nat) as [Hlt|Hge].
  2: { assert (j = String.length s) as -> by lia. rewrite slice_to_end, drop_all, str_app_nil_r by lia. destruct buf; [done|]. by rewrite Hb. }
  destruct (get_lt _ _ Hlt) as [a Ha]. pose proof (drop_str_cons _ _ _ Ha) as Hd.
  destruct (decide (String.get j s = Some operator ∧ (j + 1 < String.length s)%nat)) as [ [Hop Hlt2]|Hno].
  - rewrite Hd. assert (a = operator) as -> by congruence. cbn [lex].
    assert (drop_str (j + 1) s ≠ "") as Hne.
    { intros He. pose proof (drop_str_length (j + 1) s) as Hl. rewrite He in Hl. cbn in Hl. lia. }
    rewrite decide_True by done. unfold reference. destruct (getShellName (drop_str (j + 1) s)) as [name w] eqn:Hg.
    destruct (getShellName_bounds _ _ _ Hg) as [Hw _]. rewrite drop_str_length in Hw.
    rewrite IH by (done || lia). rewrite slice_self, drop_str_drop. rewrite text_cons. cbn [default].
    replace (j + w + 1)%nat with (j + 1 + w)%nat by lia. rewrite slice_origin, str_app_nil by done. cbn [id].
    repeat case_bool_decide; cbn [value]; by rewrite ?str_app_nil, <- ?str_app_assoc.
  - rewrite IH by (done || lia). rewrite Hd, (slice_snoc i j s a) by (done || lia). cbn [lex].
    rewrite decide_False.
    + rewrite text_cons. cbn [value]. by rewrite <- !str_app_assoc.
    + intros [-> Hne]. destruct Hno. split; [done|]. destruct (decide (j + 1 < String.length s)%nat); [done|].
      exfalso. apply Hne. assert (j + 1 = String.length s)%nat as -> by lia. apply drop_all.
Qed.

(** The expansion of a text is that of its pieces, one after the other: a name is replaced, by its value or by what the mapping makes of the
    reference, malformed references are dropped, and everything else stays where it is. The text without the expansion is its pieces. *)
Lemma Expand_pieces s mapping : Expand s mapping = text (value mapping) (pieces s) ∧ text origin (pieces s) = s.
Proof.
  split; [|by apply lex_lossless]. unfold Expand, pieces. rewrite expand_loop_pieces by (done || lia).
  cbn [default]. by rewrite slice_self, !str_app_nil.
Qed.
End EnvExpand.

(** ** The names the process is given (envhelper/kube.go, constant/env.go) *)
Module Env.
Definition LookupEnv : Type := string → option string.
Section Env.
Context (env : LookupEnv).
Definition ThisPodName : string := default "" (env "POD_NAME").
Definition ThisPodNS : string := default "default" (env "POD_NAMESPACE").
Definition SysNS : string := default ThisPodNS (env "SYS_NAMESPACE").
Definition TenantNS : string := default SysNS (env "TENANT_NAMESPACE").
End Env.
End Env.

(** ** The configuration (conf/util.go) *)
Module Conf.
(** log.Config: what the flags of the command line can set *)
Record LogConfig := { l_Format : string; l_Level : string; l_File : string }.
Definition set_Format (v : string) (l : LogConfig) : LogConfig := {| l_Format := v; l_Level := l_Level l; l_File := l_File l |}.
Definition set_Level (v : string) (l : LogConfig) : LogConfig := {| l_Format := l_Format l; l_Level := v; l_File := l_File l |}.
Definition set_File (v : string) (l : LogConfig) : LogConfig := {| l_Format := l_Format l; l_Level := l_Level l; l_File := v |}.

Section ReadConfig.
(** [C] is the configuration without the logs; a flag of the command line that was given writes one field of it. *)
Context {C : Type} (env : Env.LookupEnv) (Decode : string → C * list LogConfig → result (C * list LogConfig)) (SetDefaultLogger : list LogConfig → option string).
Context (given : list (C → C)) (changed : string → bool) (badFlags : option string).
Record Config := { cfg : C; logs : list LogConfig }.
Definition parse_flags (c : C) : C := foldl (λ c set, set c) c given.
(** The mapping: a variable that is not set stays as it is written. *)
Definition from_env (name origin : string) : string := default origin (env name).
Definition override_log (cli l : LogConfig) : LogConfig :=
  let l := if changed "log.format" then set_Format (l_Format cli) l else l in
  let l := if changed "log.level" then set_Level (l_Level cli) l else l in
  if changed "log.file" then set_File (l_File cli) l else l.
(** ReadConfig after the flags were parsed a first time; [file] is the text of the file, or why it cannot be read. *)
Definition ReadConfig (path : string) (file : result string) (cli : LogConfig) (config : Config) : result Config :=
  config ← match file with
           | Err e => if changed "config" then Err ("failed to read config file " +:+ path +:+ ": " +:+ e) else Ok config
           | Ok s =>
               if bool_decide (s = "") then Ok config
               else match Decode (EnvExpand.Expand s from_env) (cfg config, logs config) with
                    | Ok (c, l) => Ok {| cfg := c; logs := l |}
                    | Err e => Err ("failed to unmarshal config file " +:+ path +:+ ": " +:+ e)
                    end
           end;
  let ls := match logs config with [] => [cli] | l :: ls => override_log cli l :: ls end in
  match badFlags with
  | Some e => Err e
  | None =>
      match SetDefaultLogger ls with
      | Some e => Err ("failed to set default logger: " +:+ e)
      | None => Ok {| cfg := parse_flags (cfg config); logs := ls |}
      end
  end.

(** The command line wins over the file, and the file over the defaults: a field that some flag was given for has the flag's value, and one
    that none was given for what the file left of it. *)
Lemma flags_win {F} (get : C → F) path file cli config r :
  ReadConfig path file cli config = Ok r →
  (∀ v, (∃ set, set ∈ given ∧ ∀ c, get (set c) = v) → (∀ set, set ∈ given → ∀ c, get (set c) = v ∨ get (set c) = get c) → get (cfg r) = v) ∧
  ((∀ set, set ∈ given → ∀ c, get (set c) = get c) →
   ∃ c l, get (cfg r) = get c ∧
     (file = Ok "" ∨ (∃ e, file = Err e) → c = cfg config) ∧
     (∀ s, file = Ok s → s ≠ "" → Decode (EnvExpand.Expand s from_env) (cfg config, logs config) = Ok (c, l))).
Proof.
  unfold ReadConfig. intros Hr.
  assert (∃ c1, cfg r = parse_flags (cfg c1) ∧ (file = Ok "" ∨ (∃ e, file = Err e) → cfg c1 = cfg config) ∧
    (∀ s, file = Ok s → s ≠ "" → Decode (EnvExpand.Expand s from_env) (cfg config, logs config) = Ok (cfg c1, logs c1))) as (c1 & -> & H1 & H2).
  { assert (∀ c1 : Config, match badFlags with Some e => Err e | None =>
        match SetDefaultLogger (match logs c1 with [] => [cli] | l :: ls => override_log cli l :: ls end) with
        | Some e => Err ("failed to set default logger: " +:+ e)
        | None => Ok {| cfg := parse_flags (cfg c1); logs := match logs c1 with [] => [cli] | l :: ls => override_log cli l :: ls end |} end end = Ok r →
        cfg r = parse_flags (cfg c1)) as Hend by (intros c1; by repeat case_match; intros; simplify_eq).
    destruct file as [s|e]; cbn in Hr.
    - case_bool_decide as Hs; cbn in Hr.
      + exists config. split_and!; [by apply Hend|done|]. intros ? [= <-] ?. done.
      + destruct (Decode _ _) as [ [c l]|e] eqn:Hd; cbn in Hr; [|done]. exists {| cfg := c; logs := l |}. split_and!; [by apply Hend| |].
        * intros [[= ?]|[? ?] ]; done.
        * intros ? [= <-] _. done.
    - destruct (changed "config"); cbn in Hr; [done|]. exists config. split_and!; [by apply Hend|done|done]. }
  unfold parse_flags. split.
  - intros v (set & Hset & Hv) Hall. generalize (cfg c1) as c. clear Hr H1 H2.
    induction given as [|s l IH]; intros c; [by apply elem_of_nil in Hset|]. cbn.
    assert (∀ l' c, (∀ s', s' ∈ l' → s' ∈ s :: l) → get c = v → get (foldl (λ c set, set c) c l') = v) as Hkeep.
    { induction l' as [|s' l' IH']; intros c' Hin Hc; [done|]. cbn. apply IH'; [set_solver|]. destruct (Hall s') with c' as [?|?]; [set_solver|done|congruence]. }
    apply elem_of_cons in Hset as [->|Hset].
    + apply Hkeep; [set_solver|apply Hv].
    + apply IH; [done|]. intros. apply Hall. by right.
  - intros Hall. exists (cfg c1), (logs c1). split_and!; [|done|done]. generalize (cfg c1) as c. clear Hr H1 H2.
    induction given as [|s l IH]; intros c; [done|]. cbn. rewrite IH by (intros; apply Hall; by right). apply Hall. by left.
Qed.
End ReadConfig.

(** A file without malformed references is read as it is when no variable is set. *)
Lemma file_kept env s :
  (∀ name, env name = None) → (∀ o, EnvExpand.BadSyntax o ∉ EnvExpand.pieces s) → EnvExpand.Expand s (from_env env) = s.
Proof.
  intros Henv Hbad. destruct (EnvExpand.Expand_pieces s (from_env env)) as [-> Hs]. rewrite <- Hs at 2. clear Hs.
  induction (EnvExpand.pieces s) as [|p l IH]; [done|]. rewrite !EnvExpand.text_cons. f_equal; [|apply IH; intros o Ho; apply (Hbad o); by right].
  destruct p as [a|name o|o]; [done|cbn; unfold from_env; by rewrite Henv|]. destruct (Hbad o). by left.
Qed.

(** The signals: the first one ends the context, the next one the process. *)
Inductive SignalAction := ExitContext | ExitProcess (code : Z).
Definition on_signal (exitCount : nat) : nat * SignalAction :=
  let n := S exitCount in (n, if (n =? 1)%nat then ExitContext else ExitProcess 1).
End Conf.

(** ** The servers of metrics and profiles (setupTelemetry) *)
Module Telemetry.
Record MetricsConfig := { m_Enabled : bool; m_Endpoint : string; m_HTTPPath : string }.
Record PProfConfig := { p_Enabled : bool; p_Listen : string; p_HTTPPath : string }.
(** The targets of perfhelper's handlers, in the order the map gives them *)
Definition pprofTargets : list string :=
  [""; "cmdline"; "symbol"; "trace"; "profile"; "allocs"; "block"; "goroutine"; "heap"; "mutex"; "threadcreate"].
Fixpoint TrimRight_slash (s : string) : string :=
  match s with
  | EmptyString => EmptyString
  | String a s => let t := TrimRight_slash s in if bool_decide (t = "" ∧ a = slash) then EmptyString else String a t
  end.
(** http.ServeMux.Handle (net/http): a pattern that is empty or there already panics. *)
Definition Handle (pattern : string) (mux : list string) : outcome (list string) :=
  if bool_decide (pattern = "") then Panic "http: invalid pattern"
  else if bool_decide (pattern ∈ mux) then Panic ("http: multiple registrations for " +:+ pattern)
  else Ret (mux ++ [pattern]).
Fixpoint Handle_all (patterns : list string) (mux : list string) : outcome (list string) :=
  match patterns with [] => Ret mux | p :: l => mux ← Handle p mux; Handle_all l mux end.
Record Server := { s_Addr : string; s_Patterns : list string }.

Section Setup.
(** [mtHandler] is what CreateIfEnabled of the metrics makes: its error, or whether there is a handler. The TLS configurations are
    loaded, or not; [tracing] is the error of the tracing. *)
Context (metrics : MetricsConfig) (pprof : PProfConfig) (mtHandler : result bool) (metricsTLS pprofTLS tracing : option string).
Definition pprofPatterns : list string :=
  if p_Enabled pprof then (λ t, TrimRight_slash (p_HTTPPath pprof) +:+ "/" +:+ t) <$> pprofTargets else [].
Definition reuse (handler : bool) : bool :=
  m_Enabled metrics && p_Enabled pprof && handler && bool_decide (m_Endpoint metrics = p_Listen pprof) &&
  negb (bool_decide (m_HTTPPath metrics = p_HTTPPath pprof)).
Definition metrics_server (handler reuse : bool) : outcome (result (list Server)) :=
  if negb handler then Ret (Ok []) else
  mux ← Handle (m_HTTPPath metrics) [];
  mux ← (if reuse then Handle_all pprofPatterns mux else Ret mux);
  match metricsTLS with
  | Some e => Ret (Err ("failed to get tls config for metrics listener: " +:+ e))
  | None => Ret (Ok [ {| s_Addr := m_Endpoint metrics; s_Patterns := mux |} ])
  end.
Definition pprof_server (reuse : bool) : outcome (result (list Server)) :=
  if reuse then Ret (Ok []) else
  mux ← Handle_all pprofPatterns [];
  match pprofTLS with
  | Some e => Ret (Err ("failed to get tls config for pprof listener: " +:+ e))
  | None => Ret (Ok [ {| s_Addr := p_Listen pprof; s_Patterns := mux |} ])
  end.
(** The servers that serve from now on, and the error *)
Definition setupTelemetry : outcome (list Server * option string) :=
  match mtHandler with
  | Err e => Ret ([], Some ("failed to create metrics provider: " +:+ e))
  | Ok handler =>
      let shared := reuse handler in
      m ← metrics_server handler shared;
      match m with
      | Err e => Ret ([], Some e)
      | Ok ms =>
          p ← pprof_server shared;
          match p with
          | Err e => Ret (ms, Some e)
          | Ok ps => Ret (ms ++ ps, match tracing with Some e => Some ("failed to create tracing provider: " +:+ e) | None => None end)
          end
      end
  end.
End Setup.
Definition routes (l : list Server) (addr pattern : string) : Prop := ∃ s, s ∈ l ∧ s_Addr s = addr ∧ pattern ∈ s_Patterns s.

Lemma Handle_all_spec l mux mux' : Handle_all l mux = Ret mux' → mux' = mux ++ l.
Proof.
  revert mux. induction l as [|p l IH]; intros mux; cbn; [intros [= <-]; by rewrite app_nil_r|]. unfold Handle.
  case_bool_decide; [done|]. case_bool_decide; [done|]. cbn. intros Hm%IH. by rewrite Hm, <- app_assoc.
Qed.
(** What is asked for is served: the metrics under their path, when there is a handler, and each profile, when they are enabled. *)
Lemma telemetry_served metrics pprof handler mTLS pTLS tracing servers err :
  setupTelemetry metrics pprof (Ok handler) mTLS pTLS tracing = Ret (servers, err) → mTLS = None → pTLS = None →
  (handler = true → routes servers (m_Endpoint metrics) (m_HTTPPath metrics)) ∧
  (p_Enabled pprof = true → ∀ t, t ∈ pprofTargets → routes servers (p_Listen pprof) (TrimRight_slash (p_HTTPPath pprof) +:+ "/" +:+ t)).
Proof.
  unfold setupTelemetry, metrics_server, pprof_server. intros Hs -> ->.
  set (shared := reuse metrics pprof handler) in *.
  assert (shared = true → handler = true ∧ p_Listen pprof = m_Endpoint metrics) as Hshared.
  { unfold shared, reuse. intros Hr. apply andb_prop in Hr as [Hr _]. apply andb_prop in Hr as [Hr He]. apply andb_prop in Hr as [_ ->].
    by apply bool_decide_eq_true in He. }
  assert (p_Enabled pprof = true → ∀ t, t ∈ pprofTargets → (TrimRight_slash (p_HTTPPath pprof) +:+ "/" +:+ t) ∈ pprofPatterns pprof) as Hin.
  { unfold pprofPatterns. intros -> t Ht. apply list_elem_of_fmap. by exists t. }
  destruct handler; cbn in Hs.
  - unfold Handle in Hs. case_bool_decide; cbn in Hs; [done|]. destruct (bool_decide (_ ∈ [])); cbn in Hs; [done|].
    destruct shared; cbn in Hs.
    + destruct (Handle_all _ _) as [mux| |] eqn:Hm; cbn in Hs; [|done|done]. apply Handle_all_spec in Hm as ->. simplify_eq.
      destruct (Hshared eq_refl) as [_ ->]. split.
      * intros _. eexists. split; [left|]. split; [done|]. cbn. by left.
      * intros Hp t Ht. eexists. split; [left|]. split; [done|]. right. by apply Hin.
    + destruct (Handle_all _ _) as [mux| |] eqn:Hm; cbn in Hs; [|done|done]. apply Handle_all_spec in Hm as ->. simplify_eq. split.
      * intros _. eexists. split; [left|]. split; [done|]. by left.
      * intros Hp t Ht. eexists. split; [right; left|]. split; [done|]. by apply Hin.
  - destruct shared; [by destruct (Hshared eq_refl)|]. cbn in Hs.
    destruct (Handle_all _ _) as [mux| |] eqn:Hm; cbn in Hs; [|done|done]. apply Handle_all_spec in Hm as ->. simplify_eq. split; [done|].
    intros Hp t Ht. eexists. split; [left|]. split; [done|]. by apply Hin.
Qed.
(** With the profiles disabled a server is started for them all the same, without a handler, at their address: the empty one, when it is not
    set, is port 80. *)
Lemma disabled_profiles_listen metrics pprof handler mTLS tracing servers err :
  p_Enabled pprof = false → setupTelemetry metrics pprof (Ok handler) mTLS None tracing = Ret (servers, err) → mTLS = None →
  {| s_Addr := p_Listen pprof; s_Patterns := [] |} ∈ servers.
Proof.
  intros Hp Hs ->. unfold setupTelemetry, metrics_server, pprof_server, pprofPatterns, reuse in Hs. rewrite Hp in Hs. rewrite andb_false_r in Hs. cbn in Hs.
  destruct handler; cbn in Hs; [|simplify_eq; by left].
  unfold Handle in Hs. case_bool_decide; cbn in Hs; [done|]. destruct (bool_decide (_ ∈ [])); cbn in Hs; [done|]. simplify_eq. by right; left.
Qed.
(** At one address and under one path two servers are made for one address: the second cannot listen, and its goroutine panics. *)
Lemma same_path_two_servers metrics pprof tracing servers err :
  m_Enabled metrics = true → p_Enabled pprof = true → m_Endpoint metrics = p_Listen pprof → m_HTTPPath metrics = p_HTTPPath pprof →
  setupTelemetry metrics pprof (Ok true) None None tracing = Ret (servers, err) → s_Addr <$> servers = [p_Listen pprof; p_Listen pprof].
Proof.
  intros Hm Hp He Hpath Hs. unfold setupTelemetry, metrics_server, pprof_server, reuse in Hs.
  rewrite Hm, Hp, He, Hpath in Hs. rewrite !bool_decide_true in Hs by done. cbn in Hs.
  unfold Handle in Hs at 1. case_bool_decide; cbn in Hs; [done|]. destruct (bool_decide (_ ∈ [])); cbn in Hs; [done|].
  destruct (Handle_all _ _) as [mux| |]; cbn in Hs; [|done|done]. simplify_eq. by cbn; rewrite ?He.
Qed.
End Telemetry.

(** ** The start of the process (run of cmd/aranya.go) *)
Module Run.
(** corev1.NodeAddress, with its type and its address *)
Definition NodeAddress : Type := string * string.
(** The host name and the address of the host, as the loop finds them *)
Definition visit (acc : string * string) (addr : NodeAddress) : string * string :=
  let '(hostname, hostIP) := acc in
  if decide (addr.1 = "Hostname") then (addr.2, hostIP)
  else if decide (addr.1 = "InternalIP") then (hostname, addr.2)
  else if decide (addr.1 = "ExternalIP") then (hostname, if decide (hostIP = "") then addr.2 else hostIP)
  else (hostname, hostIP).
Definition host_of (addresses : list NodeAddress) : string * string := foldl visit ("", "") addresses.

(** Of the addresses that are not empty: the last internal one, or else the first external one. *)
Definition of_type (type : string) (l : list NodeAddress) : list string := omap (λ a, if decide (a.1 = type) then Some a.2 else None) l.
Lemma of_type_snoc type l a : of_type type (l ++ [a]) = of_type type l ++ (if decide (a.1 = type) then [a.2] else []).
Proof. unfold of_type. rewrite omap_app. cbn. by case_decide. Qed.
Lemma host_of_spec l :
  Forall (λ a, a.2 ≠ "") l →
  host_of l = (default "" (last (of_type "Hostname" l)), default (default "" (head (of_type "ExternalIP" l))) (last (of_type "InternalIP" l))).
Proof.
  induction l as [|a l IH] using rev_ind; [done|]. intros [Hl Ha]%Forall_app. apply Forall_cons in Ha as [Ha _]. unfold host_of in *. rewrite foldl_snoc, IH by done.
  rewrite !of_type_snoc. unfold visit. repeat case_decide; try congruence; rewrite ?app_nil_r, ?last_snoc; cbn; try done.
  - f_equal. destruct (last (of_type "InternalIP" l)) as [x|] eqn:Hx; cbn in *.
    + exfalso. subst x. apply last_Some_elem_of in Hx. apply list_elem_of_omap in Hx as (b & Hb & Hb2). case_decide; simplify_eq.
      rewrite Forall_forall in Hl. by apply (Hl b Hb).
    + destruct (of_type "ExternalIP" l) as [|x xs] eqn:Hx2; cbn in *; [done|]. exfalso. subst x.
      assert ("" ∈ of_type "ExternalIP" l) as Hin by (rewrite Hx2; by left).
      apply list_elem_of_omap in Hin as (b & Hb & Hb2). case_decide; simplify_eq. rewrite Forall_forall in Hl. by apply (Hl b Hb).
  - f_equal. destruct (last (of_type "InternalIP" l)) as [x|]; cbn in *; [done|]. by destruct (of_type "ExternalIP" l).
Qed.

(** What run asks of its libraries, in its order, and how it ends *)
Inductive Step := KubeClient | SetupTelemetry | GetPod | GetNode (name : string) | AddToScheme | Discover | NewEdgeDeviceController (hostname hostIP : string)
  | NewAranyaController | StartController | CreateElector | RunElector.
#[export] Instance Step_eq : EqDecision Step.
Proof. solve_decision. Defined.
Record Answers := {
  a_KubeClient : option string; a_Telemetry : option string;
  a_Pod : result string;                      (** spec.nodeName of this pod *)
  a_Node : result (list NodeAddress);
  a_Scheme : option string;
  a_Resources : list (string * list string);  (** what discovery finds; its error is only reported *)
  a_EdgeDevice : option string; a_Aranya : option string; a_Start : option string; a_Elector : option string
}.
Definition ask (s : Step) (text : string) (e : option string) (k : list Step * option string) : list Step * option string :=
  match e with Some e => ([s], Some (text +:+ e)) | None => (s :: k.1, k.2) end.
Definition run (a : Answers) : list Step * option string :=
  ask KubeClient "failed to create kube client from kubeconfig: " (a_KubeClient a) (
  ask SetupTelemetry "failed to setup telemetry: " (a_Telemetry a) (
  match a_Pod a with
  | Err e => ([GetPod], Some ("failed to get this pod itself: " +:+ e))
  | Ok node =>
      ask GetPod "" None (
      match a_Node a with
      | Err e => ([GetNode node], Some ("failed to get host node of this pod: " +:+ e))
      | Ok addresses =>
          let '(hostname, hostIP) := host_of addresses in
          ask (GetNode node) "" None (
          match addresses with
          | [] => ([], Some "failed to get at least one node address")
          | _ =>
              ask AddToScheme "failed to add api scheme: " (a_Scheme a) (
              ask Discover "" None (
              ask (NewEdgeDeviceController hostname hostIP) "failed to create edge device controller: " (a_EdgeDevice a) (
              ask NewAranyaController "failed to create aranya controller: " (a_Aranya a) (
              ask StartController "failed to start aranya controller: " (a_Start a) (
              ask CreateElector "failed to create elector: " (a_Elector a) ([RunElector], None))))))
          end)
      end)
  end)).
(** The resources the controllers are told of: those discovered, or the fallback of CheckAPIVersionFallback. *)
Definition CheckAPIVersionFallback : list (string * list string) :=
  [("coordination.k8s.io/v1beta1", ["Lease"]); ("storage.k8s.io/v1beta1", ["CSIDriver"])].
Definition preferredResources (a : Answers) : list (string * list string) :=
  match a_Resources a with [] => CheckAPIVersionFallback | l => l end.

Definition elects (k : list Step * option string) : Prop := RunElector ∈ k.1 ↔ k.2 = None.
Lemma ask_elects s text e k : s ≠ RunElector → elects k → elects (ask s text e k).
Proof. intros Hs Hk. unfold elects, ask in *. destruct e; cbn; [split; [|done]; by intros [?|?%elem_of_nil]%elem_of_cons|]. rewrite elem_of_cons, Hk. naive_solver. Qed.
Lemma ended_elects s e : s ≠ RunElector → elects ([s], Some e).
Proof. intros Hs. split; [|done]. by intros [?|?%elem_of_nil]%elem_of_cons. Qed.
Lemma asked s text e k : s ≠ RunElector → RunElector ∈ (ask s text e k).1 → e = None ∧ RunElector ∈ k.1 ∧ (ask s text e k).1 = s :: k.1.
Proof. intros Hs. unfold ask. destruct e; cbn; [by intros [?|?%elem_of_nil]%elem_of_cons|]. by intros [?|?]%elem_of_cons. Qed.

(** The leadership is sought, and devices are served, only by a process whose controllers have been made and started; and run ends without
    an error exactly when it has sought the leadership. *)
Lemma run_elects_last a :
  (RunElector ∈ (run a).1 ↔ (run a).2 = None) ∧
  (RunElector ∈ (run a).1 → a_Start a = None ∧ ∃ addresses, a_Node a = Ok addresses ∧ addresses ≠ [] ∧
    NewEdgeDeviceController (host_of addresses).1 (host_of addresses).2 ∈ (run a).1 ∧ StartController ∈ (run a).1).
Proof.
  unfold run. split.
  - apply ask_elects; [done|]. apply ask_elects; [done|]. destruct (a_Pod a); [|by apply ended_elects].
    apply ask_elects; [done|]. destruct (a_Node a) as [addresses|]; [|by apply ended_elects]. destruct (host_of addresses) as [hn ip].
    apply ask_elects; [done|]. destruct addresses; [split; [by intros ?%elem_of_nil|done]|].
    do 6 (apply ask_elects; [done|]). split; [done|intros _; by left].
  - intros (_ & H & ->)%asked; [|done]. apply asked in H as (_ & H & ->); [|done]. destruct (a_Pod a); [|by apply elem_of_cons in H as [?|?%elem_of_nil] ].
    apply asked in H as (_ & H & ->); [|done]. destruct (a_Node a) as [addresses|]; [|by apply elem_of_cons in H as [?|?%elem_of_nil] ].
    destruct (host_of addresses) as [hn ip] eqn:Hh. apply asked in H as (_ & H & ->); [|done]. destruct addresses as [|x l]; [by apply elem_of_nil in H|].
    do 4 (apply asked in H as (_ & H & ->); [|done]). apply asked in H as (? & H & ->); [|done]. split; [done|]. exists (x :: l). rewrite Hh.
    split_and!; [done..| |]; cbn; rewrite !elem_of_cons; tauto.
Qed.
End Run.

(** ** The base of the managers (util/manager/base_manager.go): what is started is started once, also when it fails *)
Module BaseManager.
Record BaseManager := { started : bool; exited : bool }.
Definition NewBaseManager : BaseManager := {| started := false; exited := false |}.
Definition OnStart {W} (doStart : W → W * option string) (m : BaseManager) (w : W) : BaseManager * (W * option string) :=
  if started m then (m, (w, None)) else ({| started := true; exited := exited m |}, doStart w).
Definition OnClose {W} (doClose : option (W → W)) (m : BaseManager) (w : W) : BaseManager * W :=
  ({| started := started m; exited := true |}, match doClose with Some f => f w | None => w end).
Definition Closing (m : BaseManager) : bool := exited m.
(** A start that is asked for again does nothing and reports no error, whatever came of the first. *)
Lemma started_once {W} (f g : W → W * option string) m w :
  let '(m1, (w1, _)) := OnStart f m w in OnStart g m1 w1 = (m1, (w1, None)).
Proof. unfold OnStart. destruct (started m) eqn:E; [by rewrite E|]. by destruct (f w). Qed.
Lemma closed_stays {W} (f : W → W * option string) m w : Closing m = true → Closing (OnStart f m w).1 = true.
Proof. unfold OnStart. by destruct (started m). Qed.
End BaseManager.

(** ** Examples *)
Module ProcessExamples.
Definition env : Env.LookupEnv := λ s, if bool_decide (s = "HOME") then Some "/root" else if bool_decide (s = "POD_NAMESPACE") then Some "aranya" else None.
Example expanded : EnvExpand.Expand "a: $HOME/x ${HOME}y $(NONE) $? $${} $(z $" (Conf.from_env env) = "a: /root/x /rooty $(NONE) $? $${} z $".
Proof. by vm_compute. Qed.
Example namespaces : (Env.ThisPodNS env, Env.SysNS env, Env.TenantNS env, Env.ThisPodName env) = ("aranya", "aranya", "aranya", "").
Proof. by vm_compute. Qed.
(** By default there are metrics and no profiles. *)
Example default_servers :
  Telemetry.setupTelemetry {| Telemetry.m_Enabled := true; Telemetry.m_Endpoint := ":9876"; Telemetry.m_HTTPPath := "/metrics" |}
    {| Telemetry.p_Enabled := false; Telemetry.p_Listen := ""; Telemetry.p_HTTPPath := "" |} (Ok true) None None None =
  Ret ([ {| Telemetry.s_Addr := ":9876"; Telemetry.s_Patterns := ["/metrics"] |}; {| Telemetry.s_Addr := ""; Telemetry.s_Patterns := [] |} ], None).
Proof. by vm_compute. Qed.
Example crash_on_path :
  Telemetry.setupTelemetry {| Telemetry.m_Enabled := true; Telemetry.m_Endpoint := ":80"; Telemetry.m_HTTPPath := "/p/heap" |}
    {| Telemetry.p_Enabled := true; Telemetry.p_Listen := ":80"; Telemetry.p_HTTPPath := "/p/" |} (Ok true) None None None =
  Panic "http: multiple registrations for /p/heap".
Proof. by vm_compute. Qed.
Example host : Run.host_of [("ExternalIP", "9.9.9.9"); ("InternalIP", "10.0.0.1"); ("Hostname", "h"); ("ExternalIP", "8.8.8.8")] = ("h", "10.0.0.1").
Proof. by vm_compute. Qed.
Definition answers : Run.Answers := {| Run.a_KubeClient := None; Run.a_Telemetry := None; Run.a_Pod := Ok "n"; Run.a_Node := Ok [("InternalIP", "10.0.0.1")];
  Run.a_Scheme := None; Run.a_Resources := []; Run.a_EdgeDevice := None; Run.a_Aranya := None; Run.a_Start := None; Run.a_Elector := None |}.
Example runs : Run.run answers = ([Run.KubeClient; Run.SetupTelemetry; Run.GetPod; Run.GetNode "n"; Run.AddToScheme; Run.Discover;
  Run.NewEdgeDeviceController "" "10.0.0.1"; Run.NewAranyaController; Run.StartController; Run.CreateElector; Run.RunElector], None).
Proof. by vm_compute. Qed.
(** Without discovery there is no API for signing requests: the fallback does not name one. *)
Example nothing_to_serve_certificates :
  Run.preferredResources answers = Run.CheckAPIVersionFallback ∧
  Forall (λ l, "CertificateSigningRequest" ∉ l.2) (Run.preferredResources answers).
Proof. split; [done|]. repeat constructor; cbn; by rewrite elem_of_list_singleton || set_solver. Qed.
End ProcessExamples.
